(* ===== verification/_CoqProject ===== *)
-Q . S2P
Prelude.v
JsNum.v
JsString.v
JsValue.v
Board.v
Games.v
Overview.v
Offers.v
Quorum.v
ChanKeys.v
Envelope.v
Reducer.v
Ledger.v
Log.v
LogOrder.v
Json.v
JsonFuel.v
Bytes.v
History.v
Desk.v
Rpc.v
Relay.v
Link.v
Circles.v
Fold.v
Fork.v
Presence.v
Search.v
Backup.v
Logs.v
Inbox.v
Snapshot.v
Actions.v
Members.v
Async.v
Sdp.v
Voice.v
Calls.v
CallRuns.v
VoicePrefs.v
Screen.v
Badges.v
Invites.v
Messages.v
Shelf.v
Unread.v
Accounts.v
Files.v
Session.v
Manage.v
Shell.v
Marks.v
Delivery.v
Founding.v
Words.v
