(* ===== verification/Prelude.v ===== *)
(** * A verification library for the client of an end-to-end encrypted chat

    The program (src/client, JavaScript) is a chat whose relay is not trusted.
    A circle is an MLS group of members.  What changes a circle (rooms, the
    home base, boards, votes, room keys) travels as envelopes encrypted to the
    group and is applied by a reducer on every member's device.  What is said
    in a room is written to an append-only log on the relay, sealed with the
    room's key and signed by its author; edits, deletions and reactions are
    entries of the same log, replayed by every reader.  Calls connect the
    members of a room pairwise.  The controller owns the state of one device
    and connects these parts to the relay connection, the crypto worker and the
    disk; a service worker keeps the app open without a network and shows the
    relay's nudges.

    ** Which file models what

    The language, written out as far as the source uses it:
    - Prelude: exceptions as a monad [res], tactics, the hint database,
      lemmas on lists shared by the components;
    - JsNum: doubles as exact multiples of the least subnormal, with IEEE
      rounding; JsString: strings as UTF-16 code units; JsValue: the values
      a parse can give, property access through the built-in prototypes,
      coercions, strict equality; Json, JsonFuel: JSON.stringify,
      JSON.parse and canonicalJson (history.js); Bytes: UTF-8, base64 and
      its URL form (relay.js, invite.js);
    - Async: async methods over a shared state as programs that stop at each
      [await], pools of them, and a program logic with a guarantee per stretch.

    What a circle's record holds, and the reducer (lib/envelope.js):
    - Board: the shape the boards share, as an interface with its invariant;
      Overview (overview.js): home base, schedule, noticeboard;
      Offers (offers.js); Quorum (quorum.js): proposals and signatures;
      Games (games.js): the shelf; ChanKeys: mergeChanKeys (envelope.js);
    - Envelope: [senderMay] and every case of [applyEnvelope], in a
      state-and-exception monad over the record; Reducer and Ledger: a
      program logic for that monad ([holds]) and the theorems it gives;
    - Snapshot (controller.js): what a member rebroadcasts for a joiner;
      Actions (controller.js): what a member does to a circle, and that its
      readers end with the actor's record.

    The channel logs:
    - Log (log.js): the fold of entries into lines; LogOrder: that the fold
      does not depend on the order of arrival; History (history.js, keys.js
      and the blobs of invite.js): signing, sealing, opening, verdicts; Logs
      (controller.js): room keys and their rotation, writing an entry, pages,
      retention; Messages (controller.js): lines with their retry, reactions,
      edits, and the signals that are sent and forgotten; Unread
      (controller.js): what was not read yet.

    The device and its connections:
    - Desk: request tables as an interface, with what a caller relies on;
      Rpc (rpc.js) and Relay (relay.js) discharge it, Relay is a machine over
      socket events, timers and calls;
    - Link (link.js, recovery.js, invite.js): links and files that hand an
      identity over; Invites (controller.js): invite links at work;
      Circles (circles.js, trust.js): the halves of a record, merging backups,
      peer trust; Badges (controller.js): safety numbers that were compared;
      Backup (controller.js): when the circles are written to the relay and
      the race with the user's other devices;
    - Delivery (controller.js, relay/src/server.rs, relay/src/store.rs): how
      group messages and the numbers of a device travel; Inbox (controller.js):
      one group message end to end: the admin question, the effects, the order
      of writes to disk, welcomes, read markers;
    - Members (controller.js): commits of the group: adding, removing, the
      welcome that follows, and the race between two committers;
    - Accounts (account.js, webauthn.js, relay/src/account.rs): identities
      sealed under a password or a passkey; Session (controller.js): boot,
      signing in and out; Founding and Manage (controller.js): making,
      keeping and forgetting circles; Files (controller.js, relay/src/blobs.rs): attachments and the
      hand-over to a new device;
    - Shell (sw.js, shell-manifest.mjs, inject-precache.mjs,
      notify-prompt.js): the offline shell, nudges, push subscriptions.

    Calls (voice.js, meter.js): Sdp, the rewriting of session descriptions;
    Voice, the manager as programs of Async; Calls, what holds however they
    interleave; CallRuns, particular situations; VoicePrefs, settings.

    What the screen shows: Screen (App.jsx: the reducer), Fold (fold.js), Fork
    (fork.js), Presence (presence.js), Search (search.js), Shelf (games.js: the
    tallies in local storage), Marks (crest.js, avatar.js, theme.js), Words
    (Messages.jsx, Overview.jsx: mentions, quotes, lines of text).

    ** What the theorems show

    - Authority: a member who is not an admin can only add rooms; an envelope
      that can destroy something needs an admin, proved by the sender's role
      and never by the envelope; every name on a board or under a line is the
      authenticated sender's, and so is every signal of a call (Reducer,
      Ledger, Log, Inbox, Calls).
    - Nothing is lost: rooms, keys, circles and log lines survive merges,
      rotations, races and retries; group messages are not skipped while a
      device sends only when subscribed, with runs in which it does not
      and they are; an identity outlives the page and opens on another device
      (ChanKeys, Logs, Backup, Circles, Reducer, Delivery, Messages, Founding,
      Session, Accounts, Files).
    - Nothing is left: a call that ends releases every leg and capture, a
      removed member has no leg and no key, a forgotten circle is gone from
      every place the code clears, which the theorem lists with what it leaves
      in memory (Calls, Members, Manage).
    - Agreement: readers of one log show the same lines, members who merge one
      another's views end with the same view, readers of an action with the
      actor's, two devices never disagree on the commits of a circle (LogOrder,
      ChanKeys, Overview, Actions, Snapshot, Members, Screen).
    - What is signed is what is meant: the bytes determine the entry, the log
      and the circle; what is sealed opens and verifies (Json, History, Link,
      Invites); an invite link opens what was last sealed for it, which is
      behind the circle after the device itself added a member; a badge says
      what the numbers say (Badges).
    - The connection: each request is settled once and by its own answer,
      there is one socket or one timer, the backoff is bounded (Relay, Rpc);
      an update leaves an app that opens offline, a nudge leads to its circle
      (Shell).
    - Conditions: where a property needs one (a second write that does not
      fail, one change of members at a time, no line of the sender in between),
      its comment names it, and where the code can break it a run beside the
      theorem shows what then happens.
    - Bounds: whatever arrives, what is stored is within its limits (Overview,
      Offers, Quorum, Log); typing signals are seldom (Messages); no mark has
      the accent's hue (Marks).

    ** How the model corresponds to the code

    - One definition per function, with the function's name.  A function that
      mutates an object returns the new one; one that may throw is in [res] or
      in the reducer's monad [M], where an exception keeps the mutations made
      before it.
    - Async functions whose interleaving matters are programs of Async (Voice,
      Badges) or split at their awaits (Relay, Backup, Members, and the writes
      of a message in Inbox, any number of which are under way at once; the
      upload of a file in Files, whose ticket is minted and redeemed at two
      instants; the refresh of a link in Invites); elsewhere the
      awaited answers are arguments, and [None] is a request that failed.
      [finish] runs one program with every awaited answer at hand.  Requests of
      Accounts are a monad over the relay and a list of fates, one per request
      (it arrives, or is lost before or after the relay acted).  In Session an
      operation is the list of its writes, so that a page that closes early
      leaves a prefix.  In Shell and Delivery the parties take single steps,
      which a run lists in any order.
    - Objects shared by reference are cells of a heap where a claim depends on
      it (Voice, Badges).
    - A Map or an object is an association list in insertion order, because
      iteration order is observable.
    - [Date.now()] is one instant per envelope.  Random ids and keys are
      arguments.  The sign of zero is not kept.  Objects from separate parses
      are never the same reference.  Assigning the property [__proto__] of
      a record indexed by names off the wire is read as assigning an ordinary
      key.  Request numbers are exact integers (the code's would need 2^53
      requests on one page to differ).
    - Code the repository does not contain in source form this library reads
      is a class of operations, with a class of laws for what it documents:
      [CaseFold] (lower-casing), [Web] and [WebLaws] (ciphers, hash, text
      decoder, signatures), [Keys] (key agreement, derivations, query strings),
      [Calendar] (local time), [Mls] and [MlsLaws] (the group protocol),
      the authenticator and the relying party of Accounts, [Urls] (how a
      browser writes a path), [Math] (cosine, sine, powers).  Each theorem that
      assumes laws has a witness with a concrete instance.
    - Fuel: [json_parse] recurses on fuel and JsonFuel proves that what it
      starts with is enough on every text.  [tokens] (Search) has as much fuel
      as the text has characters, each step consuming one.  Reading an
      alternate log stops after ALT_PAGES pages because the code does.  A loop
      over the legs of a call takes the number it visits as an argument.
    - The relay is what its replies say: a version and a payload with a
      compare-and-swap (Backup), a log of numbered entries (Logs), a list of
      group messages with a swap on the epoch of a commit (Members), and the
      tables and handlers of its source for the log of a group, accounts,
      invites, attachments, unread counts and push subscriptions (Delivery,
      Accounts, Invites, Files, Unread, Shell).
    - Sealing is transparent in Backup: History proves the round trip.

    ** Not modelled

    - React components (src/client/src/components/, the rendering of App.jsx,
      the previews): what they compute from the state is in the lib files and
      in Words; forms and event wiring are left out.
    - db.js, a wrapper of IndexedDB; clock.js, cx.js, useDialog.js, the calls
      of the DOM in theme.js and viewTransition.js; the printed decimals of
      colours in crest.js and avatar.js.
    - The functions of games.js that need the browser's URL parser.
    - Of controller.js: the copy of the records for the screen, the operator's
      list of circles, the wiring of event handlers.
    - The relay (src/relay) beyond the tables named above, and the MLS core
      (src/crypto-core): Rust; what the client relies on of them are steps and
      laws of the models here.
    - Build scripts beyond the shell's, deployment, tests.

    What is left is rendering, wrappers of browser interfaces and code in
    another language: a model of it would be a model of the browser. *)

From stdpp Require Import base list list_numbers numbers option gmap strings.
From Stdlib Require Import Sorting.Sorted Sorting.Permutation.

(** ** The exception monad

    JavaScript code that may throw returns [res A]: [Ok a], or [Throw e] with
    the exception that escaped.  Only the class of the exception matters to
    the callers. *)

Inductive exn : Type :=
| TypeError
| OtherError.

Inductive res (A : Type) : Type :=
| Ok (a : A)
| Throw (e : exn).
Arguments Ok {A} a.
Arguments Throw {A} e.

#[global] Instance exn_eq_dec : EqDecision exn.
Proof. solve_decision. Defined.
#[global] Instance res_eq_dec {A} `{EqDecision A} : EqDecision (res A).
Proof. solve_decision. Defined.

Definition rbind {A B} (m : res A) (k : A -> res B) : res B :=
  match m with
  | Ok a => k a
  | Throw e => Throw e
  end.

Declare Scope js_scope.
Delimit Scope js_scope with js.
Notation "'let*' x ':=' m 'in' k" := (rbind m (fun x => k))
  (at level 10, x binder, m at level 100, k at level 200,
   format "'[v' 'let*'  x  ':='  m  'in' '//' k ']'") : js_scope.
Open Scope js_scope.

#[global] Instance res_fmap : FMap res := fun A B f m => match m with Ok a => Ok (f a) | Throw e => Throw e end.

(** [xs.map(f)] for a callback that may throw: left to right, the first
    exception ends the traversal. *)
Fixpoint rmap {A B} (f : A -> res B) (l : list A) : res (list B) :=
  match l with
  | [] => Ok []
  | x :: r => let* y := f x in let* ys := rmap f r in Ok (y :: ys)
  end.

(** [xs.filter(Boolean)] over values that are [null] or an object. *)
Fixpoint somes {A} (l : list (option A)) : list A :=
  match l with
  | [] => []
  | Some x :: r => x :: somes r
  | None :: r => somes r
  end.

(** ** Automation *)

Create HintDb js.

(** Invert an equation between a monadic computation and [Ok _]. *)
Ltac inv_ok :=
  repeat match goal with
  | H : Ok _ = Ok _ |- _ => injection H as H; subst
  | H : Throw _ = Ok _ |- _ => discriminate H
  | H : Ok _ = Throw _ |- _ => discriminate H
  | H : Some _ = Some _ |- _ => injection H as H; subst
  | H : Some _ = None |- _ => discriminate H
  | H : None = Some _ |- _ => discriminate H
  | H : rbind ?m _ = Ok _ |- _ =>
      let E := fresh "E" in
      destruct m eqn:E; cbn [rbind] in H; [| discriminate H]
  end.

(** Case on the scrutinee of the first [if]/[match] of a hypothesis. *)
Ltac case_in H :=
  match type of H with
  | context [match ?x with _ => _ end] =>
      let E := fresh "E" in destruct x eqn:E
  end.

Lemma Ok_inj {A} (a b : A) : Ok a = Ok b -> a = b.
Proof. by intros [= ->]. Qed.

Lemma rbind_Ok {A B} (m : res A) (k : A -> res B) b :
  rbind m k = Ok b <-> exists a, m = Ok a /\ k a = Ok b.
Proof. destruct m as [a|e]; cbn; naive_solver. Qed.

Lemma rmap_app {A B} (f : A -> res B) l1 l2 ys1 ys2 :
  rmap f l1 = Ok ys1 -> rmap f l2 = Ok ys2 -> rmap f (l1 ++ l2) = Ok (ys1 ++ ys2).
Proof.
  revert ys1. induction l1 as [|x l1 IH]; intros ys1 E1 E2; cbn in *; [by injection E1 as <-|].
  destruct (f x) as [y|]; [|done]. cbn in *. destruct (rmap f l1) as [ys|]; [|done]. injection E1 as <-.
  by rewrite (IH _ eq_refl E2).
Qed.

Lemma rmap_Ok_Forall2 {A B} (f : A -> res B) l ys :
  rmap f l = Ok ys <-> Forall2 (fun x y => f x = Ok y) l ys.
Proof.
  revert ys; induction l as [|x l IH]; intros ys; cbn.
  - split; [intros [= <-]; constructor | intros H; inversion H; done].
  - rewrite rbind_Ok; setoid_rewrite rbind_Ok; setoid_rewrite IH.
    split.
    + intros (y & Hy & ys' & Hys & [= <-]); by constructor.
    + intros H; inversion H; subst; eauto.
Qed.

Lemma rmap_length {A B} (f : A -> res B) l ys : rmap f l = Ok ys -> length l = length ys.
Proof. intros H%rmap_Ok_Forall2. by eapply Forall2_length. Qed.

Lemma somes_length {A} (l : list (option A)) : (length (somes l) <= length l)%nat.
Proof. induction l as [|[a|] l IH]; cbn; lia. Qed.

Lemma elem_of_somes {A} (l : list (option A)) x : x ∈ somes l <-> Some x ∈ l.
Proof.
  induction l as [|[a|] l IH]; cbn; rewrite ?elem_of_nil, ?elem_of_cons, ?IH; naive_solver.
Qed.

Lemma rmap_somes_Forall {A B} (f : A -> res (option B)) (P : B -> Prop) l ys :
  (forall x y, f x = Ok (Some y) -> P y) ->
  rmap f l = Ok ys -> Forall P (somes ys).
Proof.
  intros Hf Hm; apply rmap_Ok_Forall2 in Hm.
  apply Forall_forall; intros y Hy; apply elem_of_somes in Hy.
  apply list_elem_of_lookup in Hy as [i Hi].
  destruct (Forall2_lookup_r _ _ _ _ _ Hm Hi) as (x & _ & Hx); eauto.
Qed.

(** ** Stable sorting

    [Array.prototype.sort] is stable, and for a consistent comparator its
    result is thereby determined: it is the one stable permutation in order.
    [gt a b] stands for [compare(a, b) > 0]. *)

Section sorting.
Context {A : Type} (gt : A -> A -> bool).

Fixpoint insert_sorted (x : A) (l : list A) : list A :=
  match l with
  | [] => [x]
  | y :: r => if gt x y then y :: insert_sorted x r else x :: y :: r
  end.

Fixpoint sort_by (l : list A) : list A :=
  match l with
  | [] => []
  | x :: r => insert_sorted x (sort_by r)
  end.

Lemma insert_sorted_perm x l : insert_sorted x l ≡ₚ x :: l.
Proof.
  induction l as [|y l IH]; cbn; [done|].
  destruct (gt x y); [rewrite IH; apply perm_swap | done].
Qed.

Lemma sort_by_perm l : sort_by l ≡ₚ l.
Proof. induction l as [|x l IH]; cbn; [done|]. by rewrite insert_sorted_perm, IH. Qed.

Lemma sort_by_length l : length (sort_by l) = length l.
Proof. apply Permutation_length, sort_by_perm. Qed.

(** In order: no element is strictly after a later one. *)
Definition in_order (l : list A) : Prop := StronglySorted (fun a b => gt a b = false) l.

Lemma sort_by_id l : in_order l -> sort_by l = l.
Proof.
  intros H; induction H as [|x l Hs IH Hx]; cbn; [done|]. rewrite IH.
  destruct l as [|y l]; cbn; [done|].
  inversion Hx as [|?? Hxy ?]; subst. by rewrite Hxy.
Qed.

Context (P : A -> Prop).
Context (gt_asym : forall a b, P a -> P b -> gt a b = true -> gt b a = false).
Context (gt_negtrans : forall a b c, P a -> P b -> P c ->
           gt a b = false -> gt b c = false -> gt a c = false).

Lemma insert_sorted_in_order x l :
  P x -> Forall P l -> in_order l -> in_order (insert_sorted x l).
Proof.
  intros Hx Hl Hs; unfold in_order in *.
  induction Hs as [|y l Hs IH Hy]; cbn; [by repeat constructor|].
  apply Forall_cons in Hl as [Py Hl].
  destruct (gt x y) eqn:E.
  - constructor; [by apply IH|].
    rewrite insert_sorted_perm. constructor; [by apply gt_asym | done].
  - constructor; [by constructor|]. constructor; [done|].
    rewrite Forall_forall in Hy, Hl |- *. intros z Hz.
    apply (gt_negtrans x y z); auto.
Qed.

Lemma sort_by_in_order l : Forall P l -> in_order (sort_by l).
Proof.
  induction l as [|x l IH]; cbn; [constructor|].
  intros [Hx Hl]%Forall_cons. apply insert_sorted_in_order; auto.
  by rewrite sort_by_perm.
Qed.
End sorting.

Lemma in_order_take {A} (gt : A -> A -> bool) n l : in_order gt l -> in_order gt (take n l).
Proof.
  unfold in_order; intros H; revert n.
  induction H as [|x l Hs IH Hx]; intros [|n]; cbn; try constructor; [done|].
  rewrite Forall_forall in *. intros y Hy; apply Hx. by eapply elem_of_take in Hy as (i & Hi & _); eapply list_elem_of_lookup_2.
Qed.

Lemma filter_all {A} (P : A -> Prop) `{!forall x, Decision (P x)} (l : list A) :
  (forall x, x ∈ l -> P x) -> filter P l = l.
Proof.
  induction l as [|x l IH]; intros Hl; [done|]. rewrite filter_cons_True by (apply Hl; by left).
  rewrite IH; [done|]. intros y Hy. apply Hl. by right.
Qed.

Lemma Forall_filter {A} (P Q : A -> Prop) `{!forall x, Decision (Q x)} l :
  Forall P l -> Forall P (filter Q l).
Proof.
  rewrite !Forall_forall. intros Hl x Hx. apply list_elem_of_filter in Hx as [_ Hx]. auto.
Qed.

(** Reading an order off the comparator, on the elements it is meant for. *)
Lemma in_order_impl {A} (gt : A -> A -> bool) (P : A -> Prop) (R : A -> A -> Prop) l :
  (forall a b, P a -> P b -> gt a b = false -> R a b) ->
  Forall P l -> in_order gt l -> StronglySorted R l.
Proof.
  intros HR Hl Hs. unfold in_order in Hs.
  induction Hs as [|x l Hs IH Hx]; constructor; apply Forall_cons in Hl as [Hpx Hpl]; [auto|].
  rewrite Forall_forall in Hx, Hpl |- *. auto.
Qed.

Lemma NoDup_snoc {A} (l : list A) x : NoDup l -> x ∉ l -> NoDup (l ++ [x]).
Proof.
  intros Hl Hx. apply NoDup_app. split; [done|]. split; [|apply NoDup_singleton].
  intros y Hy ->%list_elem_of_singleton. done.
Qed.
