(* ===== verification/JsNum.v ===== *)
(** * JavaScript numbers

    An IEEE double is [NaN], an infinity, or a finite value.  Every finite
    double is an integer multiple of 2^-1074 (the least subnormal), so a
    finite value is kept as that integer: [Fin z] is z * 2^-1074.  Order and
    equality on finite doubles are then those of [Z], and the arithmetic is
    the exact result rounded to nearest, ties to even ([round_rat]), which is
    the IEEE definition.  The sign of zero is not kept: the modelled code
    never divides by a zero nor prints [-0] apart from [0]. *)

From S2P Require Import Prelude.
From stdpp Require Import base list numbers option.
From Stdlib Require Import ZArith Lia.
Open Scope Z_scope.

Inductive num : Type :=
| NaN
| Inf (neg : bool)
| Fin (z : Z).

#[global] Instance num_eq_dec : EqDecision num.
Proof. solve_decision. Defined.

(** One, in units of 2^-1074. *)
Definition scale : Z := 2 ^ 1074.
Arguments scale : simpl never.

(** The first magnitude that overflows, in the same units. *)
Definition overflow : Z := 2 ^ 2098.
Arguments overflow : simpl never.

Lemma scale_pos : 0 < scale.
Proof. reflexivity. Qed.

(** The integer [n] as a number. *)
Definition int (n : Z) : num := Fin (n * scale).
Arguments int : simpl never.

(** ** Rounding *)

(** [d + r/q] rounded to an integer, ties to even, for [0 <= r < q]. *)
Definition tie_even (d r q : Z) : Z :=
  if 2 * r <? q then d
  else if q <? 2 * r then d + 1
  else if Z.even d then d else d + 1.

(** How many low bits of the integer [f] a 53-bit significand drops. *)
Definition excess_bits (f : Z) : Z := Z.max 0 (Z.log2 f + 1 - 53).

Definition round_pos (p q : Z) : Z :=
  let s := excess_bits (p / q) in
  let qq := q * 2 ^ s in
  tie_even (p / qq) (p mod qq) qq * 2 ^ s.

(** The double nearest to p/q units, for [0 < q]. *)
Definition round_rat (p q : Z) : num :=
  let m := round_pos (Z.abs p) q in
  if overflow <=? m then Inf (p <? 0)
  else Fin (if p <? 0 then - m else m).

(** ** Arithmetic *)

Definition nneg (a : num) : num :=
  match a with
  | NaN => NaN
  | Inf s => Inf (negb s)
  | Fin z => Fin (- z)
  end.

Definition nadd (a b : num) : num :=
  match a, b with
  | NaN, _ | _, NaN => NaN
  | Inf s, Inf t => if Bool.eqb s t then Inf s else NaN
  | Inf s, Fin _ => Inf s
  | Fin _, Inf t => Inf t
  | Fin x, Fin y => round_rat (x + y) 1
  end.

Definition nsub (a b : num) : num := nadd a (nneg b).

Definition is_neg (a : num) : bool :=
  match a with NaN => false | Inf s => s | Fin z => z <? 0 end.

Definition nmul (a b : num) : num :=
  match a, b with
  | NaN, _ | _, NaN => NaN
  | Fin x, Fin y => round_rat (x * y) scale
  | Inf s, Fin y | Fin y, Inf s =>
      if y =? 0 then NaN else Inf (xorb s (y <? 0))
  | Inf s, Inf t => Inf (xorb s t)
  end.

Definition ndiv (a b : num) : num :=
  match a, b with
  | NaN, _ | _, NaN => NaN
  | Inf s, Inf _ => NaN
  | Inf s, Fin y => Inf (xorb s (y <? 0))
  | Fin _, Inf _ => Fin 0
  | Fin x, Fin y =>
      if y =? 0 then if x =? 0 then NaN else Inf (x <? 0)
      else round_rat (x * Z.sgn y * scale) (Z.abs y)
  end.

(** The remainder operator [%]: truncated, with the sign of the dividend. *)
Definition nrem (a b : num) : num :=
  match a, b with
  | Fin x, Fin y => if y =? 0 then NaN else Fin (Z.rem x y)
  | Fin x, Inf _ => Fin x
  | _, _ => NaN
  end.

(** ** Comparison.  Every comparison with [NaN] is false. *)

Definition nltb (a b : num) : bool :=
  match a, b with
  | NaN, _ | _, NaN => false
  | Inf true, Inf true => false
  | Inf true, _ => true
  | _, Inf true => false
  | Inf false, _ => false
  | _, Inf false => true
  | Fin x, Fin y => x <? y
  end.

(** [===] on numbers. *)
Definition neqb (a b : num) : bool :=
  match a, b with
  | Inf s, Inf t => Bool.eqb s t
  | Fin x, Fin y => x =? y
  | _, _ => false
  end.

Definition nleb (a b : num) : bool := nltb a b || neqb a b.

Notation "a <ₙ b" := (nltb a b) (at level 70) : js_scope.
Notation "a <=ₙ b" := (nleb a b) (at level 70) : js_scope.
Notation "a >ₙ b" := (nltb b a) (at level 70, only parsing) : js_scope.
Notation "a >=ₙ b" := (nleb b a) (at level 70, only parsing) : js_scope.

(** [Number.isFinite] on a number. *)
Definition nfinite (a : num) : bool :=
  match a with Fin _ => true | _ => false end.

Definition ntruthy (a : num) : bool :=
  match a with NaN => false | Inf _ => true | Fin z => negb (z =? 0) end.

(** [Math.min] and [Math.max] of two arguments. *)
Definition nmin (a b : num) : num :=
  match a, b with
  | NaN, _ | _, NaN => NaN
  | _, _ => if nltb b a then b else a
  end.

Definition nmax (a b : num) : num :=
  match a, b with
  | NaN, _ | _, NaN => NaN
  | _, _ => if nltb a b then b else a
  end.

Arguments nmin : simpl never.
Arguments nmax : simpl never.

(** [Math.floor], [Math.ceil] and [Math.round] (half up). *)
Definition nfloor (a : num) : num :=
  match a with Fin z => Fin (z / scale * scale) | _ => a end.

Definition nceil (a : num) : num :=
  match a with Fin z => Fin (- (- z / scale) * scale) | _ => a end.

Definition nround (a : num) : num :=
  match a with Fin z => Fin ((z + scale / 2) / scale * scale) | _ => a end.

(** ** Facts *)

Lemma tie_even_bounds d r q : d <= tie_even d r q <= d + 1.
Proof. unfold tie_even; repeat case_match; lia. Qed.

Lemma round_pos_small p : 0 <= p < 2 ^ 53 -> round_pos p 1 = p.
Proof.
  intros Hp; unfold round_pos, excess_bits. rewrite Z.div_1_r.
  assert (Z.log2 p < 53) as Hl.
  { destruct (decide (p = 0)) as [->|]; [done|]. apply Z.log2_lt_pow2; lia. }
  rewrite Z.max_l by lia. rewrite Z.pow_0_r, !Z.mul_1_r, Z.div_1_r, Z.mod_1_r.
  reflexivity.
Qed.

(** Rounding keeps a positive integer positive. *)
Lemma round_pos_pos p : 0 < p -> 0 < round_pos p 1.
Proof.
  intros Hp. destruct (decide (p < 2 ^ 53)) as [H|H].
  { rewrite round_pos_small; lia. }
  unfold round_pos, excess_bits. rewrite Z.div_1_r, Z.mul_1_l.
  set (s := Z.max 0 (Z.log2 p + 1 - 53)).
  assert (0 <= s) by lia.
  assert (0 < 2 ^ s) by (apply Z.pow_pos_nonneg; lia).
  assert (53 <= Z.log2 p) by (apply Z.log2_le_pow2; lia).
  assert (1 <= p / 2 ^ s).
  { apply Z.div_le_lower_bound; [done|]. rewrite Z.mul_1_r.
    etransitivity; [|apply Z.log2_spec; lia]. apply Z.pow_le_mono_r; lia. }
  pose proof (tie_even_bounds (p / 2 ^ s) (p mod 2 ^ s) (2 ^ s)). nia.
Qed.

Lemma round_pos_0 : round_pos 0 1 = 0.
Proof. reflexivity. Qed.

(** The sign of a rounded integer is the sign of the integer: this is what
    makes [b - a] a usable sort comparator on finite numbers. *)
Lemma round_rat_pos x : (Fin 0 <ₙ round_rat x 1) = (0 <? x).
Proof.
  unfold round_rat. destruct (Z.ltb_spec x 0) as [Hneg|Hpos].
  - pose proof (round_pos_pos (Z.abs x) ltac:(lia)).
    destruct (overflow <=? _); cbn; [|destruct (Z.ltb_spec 0 (- round_pos (Z.abs x) 1)); try lia];
      by destruct (Z.ltb_spec 0 x); try lia.
  - destruct (Z.eq_dec x 0) as [->|].
    { by rewrite (round_pos_0 : round_pos (Z.abs 0) 1 = 0). }
    pose proof (round_pos_pos (Z.abs x) ltac:(lia)).
    destruct (overflow <=? _); cbn; destruct (Z.ltb_spec 0 x); lia.
Qed.

Lemma nsub_gt0 a b : (Fin 0 <ₙ nsub (Fin a) (Fin b)) = (b <? a).
Proof.
  unfold nsub; cbn [nneg nadd]. rewrite round_rat_pos.
  destruct (Z.ltb_spec 0 (a + - b)), (Z.ltb_spec b a); lia.
Qed.

Lemma nfinite_Fin a : nfinite a = true <-> exists z, a = Fin z.
Proof. destruct a; cbn; naive_solver. Qed.

Lemma round_rat_truthy x : ntruthy (round_rat x 1) = negb (x =? 0).
Proof.
  destruct (Z.eqb_spec x 0) as [->|Hx]; [by rewrite (eq_refl : round_rat 0 1 = Fin 0)|].
  unfold round_rat. pose proof (round_pos_pos (Z.abs x) ltac:(lia)).
  destruct (overflow <=? _); cbn; [done|]. destruct (x <? 0); lia.
Qed.

Lemma nsub_truthy a b : ntruthy (nsub (Fin a) (Fin b)) = negb (a =? b).
Proof. unfold nsub; cbn [nneg nadd]. rewrite round_rat_truthy. lia. Qed.

Lemma int_lt a b : (int a <ₙ int b) = (a <? b).
Proof. pose proof scale_pos. unfold int; cbn. destruct (Z.ltb_spec a b), (Z.ltb_spec (a * scale) (b * scale)); nia. Qed.

Lemma nleb_Fin a b : (Fin a <=ₙ Fin b) = (a <=? b).
Proof. unfold nleb; cbn. lia. Qed.

Lemma nsub_int_truthy a b : ntruthy (nsub (int a) (int b)) = negb (a =? b).
Proof.
  unfold int. rewrite nsub_truthy. pose proof scale_pos. f_equal.
  destruct (Z.eqb_spec a b), (Z.eqb_spec (a * scale) (b * scale)); nia.
Qed.

Lemma nsub_int_gt0 a b : (Fin 0 <ₙ nsub (int a) (int b)) = (b <? a).
Proof.
  unfold int. rewrite nsub_gt0. pose proof scale_pos.
  destruct (Z.ltb_spec b a), (Z.ltb_spec (b * scale) (a * scale)); nia.
Qed.

Lemma int_inj a b : int a = int b -> a = b.
Proof. unfold int; intros [= H]. pose proof scale_pos. nia. Qed.

(** A quotient that fits the significand is not changed by rounding. *)
Lemma round_pos_exact m e q :
  0 <= m < 2 ^ 53 -> 0 <= e -> 0 < q -> round_pos (m * 2 ^ e * q) q = m * 2 ^ e.
Proof.
  intros Hm He Hq. unfold round_pos, excess_bits. rewrite Z.div_mul by lia.
  assert (0 < 2 ^ e) by (apply Z.pow_pos_nonneg; lia).
  set (s := Z.max 0 _). assert (0 <= s <= e) as Hs.
  { unfold s. destruct (decide (m = 0)) as [->|]; [rewrite Z.mul_0_l; cbn; lia|].
    rewrite Z.log2_mul_pow2 by lia. assert (Z.log2 m < 53) by (apply Z.log2_lt_pow2; lia). lia. }
  assert (m * 2 ^ e * q = m * 2 ^ (e - s) * (q * 2 ^ s)) as ->.
  { replace e with ((e - s) + s) at 1 by lia. rewrite Z.pow_add_r by lia. ring. }
  assert (0 < 2 ^ s) by (apply Z.pow_pos_nonneg; lia).
  rewrite Z.div_mul, Z.mod_mul by nia. unfold tie_even.
  rewrite (proj2 (Z.ltb_lt (2 * 0) (q * 2 ^ s))) by nia.
  rewrite <- Z.mul_assoc, <- Z.pow_add_r by lia. do 2 f_equal. lia.
Qed.

(** Halving a safe integer is exact. *)
Lemma ndiv_int_2 n : 0 <= n < 2 ^ 53 -> ndiv (int n) (int 2) = Fin (n * 2 ^ 1073).
Proof.
  intros Hn. unfold ndiv, int. rewrite (proj2 (Z.eqb_neq (2 * scale) 0)) by done.
  change (Z.sgn (2 * scale)) with 1. change (Z.abs (2 * scale)) with (2 * scale).
  rewrite Z.mul_1_r. unfold round_rat.
  assert (0 < 2 ^ 1073) as Hp by reflexivity.
  assert (scale = 2 * 2 ^ 1073) as Hsc by reflexivity.
  replace (n * scale * scale) with (n * 2 ^ 1073 * (2 * scale)) by (rewrite Hsc; ring).
  pose proof scale_pos.
  rewrite Z.abs_eq by nia. rewrite round_pos_exact by lia.
  assert (n * 2 ^ 1073 < overflow) as Ho.
  { unfold overflow. change (2 ^ 2098) with (2 ^ 53 * 2 ^ 972 * 2 ^ 1073).
    assert (1 <= 2 ^ 972) by (apply Z.lt_pred_le; reflexivity). nia. }
  rewrite (proj2 (Z.leb_gt _ _)) by exact Ho.
  rewrite (proj2 (Z.ltb_ge _ _)) by nia. done.
Qed.

Lemma nceil_half n : 0 <= n < 2 ^ 53 -> nceil (ndiv (int n) (int 2)) = int ((n + 1) / 2).
Proof.
  intros Hn. rewrite ndiv_int_2 by done. unfold nceil, int. f_equal. f_equal.
  assert (0 < 2 ^ 1073) as Hp by reflexivity.
  assert (scale = 2 * 2 ^ 1073) as -> by reflexivity.
  rewrite <- Z.mul_opp_l, Z.div_mul_cancel_r by lia.
  generalize (Z.div_mod (- n) 2) (Z.mod_pos_bound (- n) 2)
    (Z.div_mod (n + 1) 2) (Z.mod_pos_bound (n + 1) 2). lia.
Qed.

Lemma nmax_int a b : nmax (int a) (int b) = int (Z.max a b).
Proof.
  unfold nmax. change (match int a with NaN => NaN | _ => _ end) with
    (if int a <ₙ int b then int b else int a).
  rewrite int_lt. destruct (Z.ltb_spec a b); f_equal; lia.
Qed.

Lemma nmin_int a b : nmin (int a) (int b) = int (Z.min a b).
Proof.
  unfold nmin. change (match int a with NaN => NaN | _ => _ end) with
    (if int b <ₙ int a then int b else int a).
  rewrite int_lt. destruct (Z.ltb_spec b a); f_equal; lia.
Qed.

Lemma neqb_int a b : neqb (int a) (int b) = (a =? b).
Proof.
  unfold int; cbn. pose proof scale_pos.
  destruct (Z.eqb_spec a b), (Z.eqb_spec (a * scale) (b * scale)); nia.
Qed.

Lemma nfloor_int a : nfinite a = true -> exists n, nfloor a = int n.
Proof. intros [z ->]%nfinite_Fin. by exists (z / scale). Qed.

Lemma nleb_int a b : (int a <=ₙ int b) = (a <=? b).
Proof.
  unfold int. rewrite nleb_Fin. pose proof scale_pos.
  destruct (Z.leb_spec a b), (Z.leb_spec (a * scale) (b * scale)); nia.
Qed.

(** Rounding never crosses a value that is itself a double: the result is at
    least any representable lower bound. *)
Lemma round_pos_ge c p : 0 < c <= p -> (2 ^ excess_bits c | c) -> c <= round_pos p 1.
Proof.
  intros Hc [k Hk]. unfold round_pos. rewrite Z.div_1_r, Z.mul_1_l.
  assert (Z.log2 c <= Z.log2 p) as Hl by (apply Z.log2_le_mono; lia).
  set (e := excess_bits p).
  assert (0 <= e) as He0 by (unfold e, excess_bits; lia).
  assert (0 < 2 ^ e) as He by (apply Z.pow_pos_nonneg; lia).
  assert (c <= p / 2 ^ e * 2 ^ e) as Hf.
  { destruct (Z.eq_dec (Z.log2 c) (Z.log2 p)) as [Heq|Hne].
    - assert (excess_bits c = e) as Hex by (unfold e, excess_bits; lia). rewrite Hex in Hk.
      assert (k <= p / 2 ^ e) by (apply Z.div_le_lower_bound; lia). nia.
    - destruct (Z.eq_dec e 0) as [->|]; [rewrite Z.pow_0_r, Z.div_1_r; lia|].
      assert (e = Z.log2 p - 52) as Hep by (unfold e, excess_bits in *; lia).
      assert (2 ^ Z.log2 p = 2 ^ 52 * 2 ^ e) as Hp2 by (rewrite <- Z.pow_add_r by lia; f_equal; lia).
      assert (2 ^ 52 <= p / 2 ^ e).
      { apply Z.div_le_lower_bound; [done|]. pose proof (Z.log2_spec p ltac:(lia)). lia. }
      assert (c < 2 ^ Z.log2 p) by (apply Z.log2_lt_pow2; lia). nia. }
  pose proof (tie_even_bounds (p / 2 ^ e) (p mod 2 ^ e) (2 ^ e)). nia.
Qed.

(** So a difference that is at least a positive safe integer compares so. *)
Lemma nsub_ge_int a b n :
  0 < n < 2 ^ 53 -> b + n * scale <= a -> (nsub (Fin a) (Fin b) <ₙ int n) = false.
Proof.
  intros Hn Hab. pose proof scale_pos. unfold nsub; cbn [nneg nadd]. unfold round_rat.
  rewrite (proj2 (Z.ltb_ge _ _)) by nia.
  assert (n * scale <= round_pos (Z.abs (a + - b)) 1) as Hr.
  { apply round_pos_ge; [nia|]. exists (n * 2 ^ (1074 - excess_bits (n * scale))).
    assert (Z.log2 (n * scale) = Z.log2 n + 1074) as Hl.
    { unfold scale. rewrite Z.log2_mul_pow2 by lia. lia. }
    assert (Z.log2 n < 53) by (apply Z.log2_lt_pow2; lia).
    pose proof (Z.log2_nonneg n).
    rewrite <- Z.mul_assoc, <- Z.pow_add_r by (unfold excess_bits; lia).
    unfold scale. do 2 f_equal. lia. }
  destruct (overflow <=? _); cbn; [done|]. unfold int; cbn. lia.
Qed.

(** [a - b] exactly, for safe integers with a safe difference. *)
Lemma nsub_int a b : Z.abs (a - b) < 2 ^ 53 -> nsub (int a) (int b) = int (a - b).
Proof.
  intros Hab. unfold nsub, int; cbn [nneg nadd]. unfold round_rat.
  replace (a * scale + - (b * scale)) with ((a - b) * scale) by lia.
  pose proof scale_pos. rewrite Z.abs_mul, (Z.abs_eq scale) by lia.
  assert (round_pos (Z.abs (a - b) * scale) 1 = Z.abs (a - b) * scale) as ->.
  { pose proof (round_pos_exact (Z.abs (a - b)) 1074 1) as Hx. rewrite Z.mul_1_r in Hx.
    apply Hx; lia. }
  destruct (Z.leb_spec overflow (Z.abs (a - b) * scale)) as [Ho|_].
  { assert (overflow = 2 ^ 1024 * scale) as Hov by (unfold overflow, scale; by rewrite <- Z.pow_add_r).
    rewrite Hov in Ho. apply Z.mul_le_mono_pos_r in Ho; [|done].
    assert (2 ^ 53 <= 2 ^ 1024) by (apply Z.pow_le_mono_r; lia). lia. }
  f_equal. destruct (Z.ltb_spec ((a - b) * scale) 0); nia.
Qed.
