(* ===== verification/JsString.v ===== *)
(** * JavaScript strings

    A string is its sequence of UTF-16 code units, which is what [length],
    [slice], [===] and the default sort order see.  Literals are written in
    UTF-8 and decoded by [js]. *)

From S2P Require Import Prelude JsNum.
From stdpp Require Import base list numbers option strings sorting.
From Stdlib Require Import ZArith NArith Lia Strings.Ascii Sorting.Sorted Sorting.Permutation.
Open Scope Z_scope.

Notation jstr := (list N).

(** ** Literals *)

Fixpoint bytes_of (s : string) : list N :=
  match s with
  | EmptyString => []
  | String c r => N_of_ascii c :: bytes_of r
  end.

(** UTF-8 to UTF-16 (well-formed input). *)
Fixpoint utf16_of_utf8 (l : list N) : jstr :=
  match l with
  | [] => []
  | b0 :: r0 =>
    if N.ltb b0 128 then b0 :: utf16_of_utf8 r0 else
    match r0 with
    | [] => []
    | b1 :: r1 =>
      if N.ltb b0 224 then ((b0 mod 32) * 64 + b1 mod 64)%N :: utf16_of_utf8 r1 else
      match r1 with
      | [] => []
      | b2 :: r2 =>
        if N.ltb b0 240 then
          ((b0 mod 16) * 4096 + (b1 mod 64) * 64 + b2 mod 64)%N :: utf16_of_utf8 r2
        else
        match r2 with
        | [] => []
        | b3 :: r3 =>
          let cp := ((b0 mod 8) * 262144 + (b1 mod 64) * 4096
                     + (b2 mod 64) * 64 + b3 mod 64 - 65536)%N in
          (55296 + cp / 1024)%N :: (56320 + cp mod 1024)%N :: utf16_of_utf8 r3
        end
      end
    end
  end.

Definition js (s : string) : jstr := utf16_of_utf8 (bytes_of s).

Definition str_eqb (a b : jstr) : bool := bool_decide (a = b).

Lemma str_eqb_eq a b : str_eqb a b = true <-> a = b.
Proof. unfold str_eqb. apply bool_decide_eq_true. Qed.

Lemma str_eqb_refl a : str_eqb a a = true.
Proof. by apply str_eqb_eq. Qed.

Lemma str_eqb_neq a b : str_eqb a b = false <-> a <> b.
Proof. unfold str_eqb. apply bool_decide_eq_false. Qed.

(** ** Library methods *)

(** [s.slice(0, n)]. *)
Definition slice0 (n : nat) (s : jstr) : jstr := take n s.
Arguments slice0 : simpl never.

(** The code points of WhiteSpace and LineTerminator. *)
Definition is_space (c : N) : bool :=
  bool_decide (c ∈ [9; 10; 11; 12; 13; 32; 160; 5760; 8232; 8233; 8239; 8287; 12288; 65279]%N)
  || (N.leb 8192 c && N.leb c 8202).

Fixpoint trim_start (s : jstr) : jstr :=
  match s with
  | c :: r => if is_space c then trim_start r else s
  | [] => []
  end.

Definition trim (s : jstr) : jstr := reverse (trim_start (reverse (trim_start s))).

(** [s.startsWith(p)]. *)
Fixpoint starts_with (p s : jstr) : bool :=
  match p, s with
  | [], _ => true
  | _, [] => false
  | a :: p', b :: s' => N.eqb a b && starts_with p' s'
  end.

(** [s.indexOf(p)]: the least position, [None] for -1. *)
Fixpoint index_of (p s : jstr) : option nat :=
  if starts_with p s then Some 0%nat
  else match s with
       | [] => None
       | _ :: r => S <$> index_of p r
       end.

(** [s.includes(p)]. *)
Definition str_includes (p s : jstr) : bool := bool_decide (is_Some (index_of p s)).

(** [xs.join(sep)]. *)
Fixpoint str_join (sep : jstr) (l : list jstr) : jstr :=
  match l with
  | [] => []
  | [x] => x
  | x :: r => x ++ sep ++ str_join sep r
  end.

(** The order of [sort()] with no comparator. *)
Fixpoint str_ltb (a b : jstr) : bool :=
  match a, b with
  | _, [] => false
  | [], _ :: _ => true
  | x :: a', y :: b' => if N.ltb x y then true else if N.eqb x y then str_ltb a' b' else false
  end.

Definition sort_strings (l : list jstr) : list jstr := sort_by (fun a b => str_ltb b a) l.

(** ** Printing numbers *)

Definition digit_unit (d : Z) : N := Z.to_N (if d <? 10 then 48 + d else 87 + d).

(** The digits of [n >= 0] in base [b], most significant first. *)
Fixpoint digits_fuel (fuel : nat) (b n : Z) (acc : jstr) : jstr :=
  match fuel with
  | O => acc
  | S f => let acc' := digit_unit (n mod b) :: acc in
           if n <? b then acc' else digits_fuel f b (n / b) acc'
  end.

Definition digits (b n : Z) : jstr :=
  digits_fuel (S (Z.to_nat (Z.log2 n))) b n [].

Definition int_to_string (n : Z) : jstr :=
  if n <? 0 then js "-" ++ digits 10 (- n) else digits 10 n.

(** Decimal exponent of a positive value of [z] units: the [n] with
    10^(n-1) <= z / scale < 10^n. *)
Definition dec_exponent (z : Z) : Z :=
  Z.of_nat (length (digits 10 (z * 10 ^ 400 / scale))) - 400.

(** s * 10^e as a number. *)
Definition num_of_dec (s e : Z) : num :=
  if 0 <=? e then round_rat (s * 10 ^ e * scale) 1
  else round_rat (s * scale) (10 ^ (- e)).

(** The shortest decimal significand that reads back as [Fin z], the closest
    one among those of that length: [(s, k)] with [k] digits. *)
Fixpoint shortest (fuel : nat) (k : Z) (z n : Z) : Z * Z :=
  let '(p, q) := if 0 <=? k - n then (z * 10 ^ (k - n), scale)
                 else (z, scale * 10 ^ (n - k)) in
  let lo := p / q in
  let hi := lo + 1 in
  let ok s := bool_decide (num_of_dec s (n - k) = Fin z) in
  let nearest := if 2 * (p mod q) <=? q then lo else hi in
  let other := if 2 * (p mod q) <=? q then hi else lo in
  if ok nearest then (nearest, k)
  else if ok other then (other, k)
  else match fuel with
       | O => (nearest, k)
       | S f => shortest f (k + 1) z n
       end.

Definition zeros (n : Z) : jstr := replicate (Z.to_nat n) 48%N.

Definition pos_to_string (z : Z) : jstr :=
  let n := dec_exponent z in
  let '(s, k) := shortest 16 1 z n in
  let ds := digits 10 s in
  if (k <=? n) && (n <=? 21) then ds ++ zeros (n - k)
  else if (0 <? n) && (n <=? 21) then take (Z.to_nat n) ds ++ js "." ++ drop (Z.to_nat n) ds
  else if (-6 <? n) && (n <=? 0) then js "0." ++ zeros (- n) ++ ds
  else
    let e := n - 1 in
    let exp := js "e" ++ (if e <? 0 then js "-" else js "+") ++ digits 10 (Z.abs e) in
    if k =? 1 then ds ++ exp else take 1 ds ++ js "." ++ drop 1 ds ++ exp.

(** [String(a)] for a number.  Integers below 2^53 print as themselves; the
    general case follows Number::toString. *)
Definition num_to_string (a : num) : jstr :=
  match a with
  | NaN => js "NaN"
  | Inf true => js "-Infinity"
  | Inf false => js "Infinity"
  | Fin z =>
      if (z mod scale =? 0) && (Z.abs (z / scale) <? 2 ^ 53) then int_to_string (z / scale)
      else if z <? 0 then js "-" ++ pos_to_string (- z) else pos_to_string z
  end.

(** [a.toString(36)] for an integral number. *)
Definition num_to_base36 (a : num) : jstr :=
  match a with
  | Fin z => let n := z / scale in
             if n <? 0 then js "-" ++ digits 36 (- n) else digits 36 n
  | _ => num_to_string a
  end.

(** ** Reading numbers (StringToNumber) *)

Definition digit_value (b : Z) (c : N) : option Z :=
  let c := Z.of_N c in
  let v := if (48 <=? c) && (c <=? 57) then c - 48
           else if (97 <=? c) && (c <=? 122) then c - 87
           else if (65 <=? c) && (c <=? 90) then c - 55
           else b in
  if v <? b then Some v else None.

(** A maximal run of base-[b] digits: value, count, rest. *)
Fixpoint read_digits (b : Z) (acc : Z) (cnt : Z) (s : jstr) : Z * Z * jstr :=
  match s with
  | c :: r =>
      match digit_value b c with
      | Some v => read_digits b (acc * b + v) (cnt + 1) r
      | None => (acc, cnt, s)
      end
  | [] => (acc, cnt, [])
  end.

Definition read_sign (s : jstr) : bool * jstr :=
  match s with
  | 43%N :: r => (false, r)
  | 45%N :: r => (true, r)
  | _ => (false, s)
  end.

(** [m * 10^e] without computing a power that is known to over- or underflow. *)
Definition dec_value (m e : Z) : num :=
  if m =? 0 then Fin 0
  else let n := Z.of_nat (length (digits 10 m)) + e in
       if 400 <? n then Inf false
       else if n <? -400 then Fin 0
       else num_of_dec m e.

Definition read_unsigned (s : jstr) : option num :=
  if str_eqb s (js "Infinity") then Some (Inf false) else
  let '(ip, ic, r) := read_digits 10 0 0 s in
  let '(m, fc, r') :=
    match r with
    | 46%N :: t => read_digits 10 ip 0 t
    | _ => (ip, 0, r)
    end in
  if ic + fc =? 0 then None else
  match r' with
  | [] => Some (dec_value m (- fc))
  | c :: t =>
      if (N.eqb c 101 || N.eqb c 69)%bool then
        let '(sg, t') := read_sign t in
        let '(e, ec, t'') := read_digits 10 0 0 t' in
        if (ec =? 0) || negb (bool_decide (t'' = [])) then None
        else Some (dec_value m ((if sg then - e else e) - fc))
      else None
  end.

Definition read_radix (b : Z) (s : jstr) : num :=
  let '(m, c, r) := read_digits b 0 0 s in
  if (c =? 0) || negb (bool_decide (r = [])) then NaN else round_rat (m * scale) 1.

Definition string_to_num (s : jstr) : num :=
  match trim s with
  | [] => Fin 0
  | 48%N :: 120%N :: r | 48%N :: 88%N :: r => read_radix 16 r
  | 48%N :: 111%N :: r | 48%N :: 79%N :: r => read_radix 8 r
  | 48%N :: 98%N :: r | 48%N :: 66%N :: r => read_radix 2 r
  | t =>
      let '(neg, u) := read_sign t in
      match read_unsigned u with
      | Some a => if neg then nneg a else a
      | None => NaN
      end
  end.

Example print_int : num_to_string (int 1700000000000) = js "1700000000000".
Proof. vm_compute. reflexivity. Qed.
Example print_frac : num_to_string (num_of_dec 15 (-1)) = js "1.5".
Proof. vm_compute. reflexivity. Qed.
Example print_big : num_to_string (num_of_dec 1 21) = js "1e+21".
Proof. vm_compute. reflexivity. Qed.
Example print_tiny : num_to_string (Fin 1) = js "5e-324".
Proof. vm_compute. reflexivity. Qed.
Example read_ws : string_to_num (js "  -12.5e1 ") = int (-125).
Proof. vm_compute. reflexivity. Qed.
Example read_hex : string_to_num (js "0xff") = int 255.
Proof. vm_compute. reflexivity. Qed.
Example read_bad : string_to_num (js "12px") = NaN.
Proof. vm_compute. reflexivity. Qed.
Example read_huge : string_to_num (js "1e999") = Inf false.
Proof. vm_compute. reflexivity. Qed.
Example literal_quote : js "“…”" = [8220; 8230; 8221]%N.
Proof. vm_compute. reflexivity. Qed.

(** ** The string order *)

Lemma str_ltb_irrefl a : str_ltb a a = false.
Proof. induction a as [|x a IH]; cbn; [done|]. by rewrite N.ltb_irrefl, N.eqb_refl. Qed.

Lemma str_ltb_trichotomy a b : str_ltb a b = false -> str_ltb b a = false -> a = b.
Proof.
  revert b; induction a as [|x a IH]; intros [|y b]; cbn; try done.
  destruct (N.ltb_spec x y), (N.ltb_spec y x); try done.
  assert (x = y) as -> by lia. rewrite N.eqb_refl. intros ??. f_equal. auto.
Qed.

Lemma str_ltb_asym a b : str_ltb a b = true -> str_ltb b a = false.
Proof.
  revert b; induction a as [|x a IH]; intros [|y b]; cbn; try done.
  destruct (N.ltb_spec x y), (N.ltb_spec y x); try done; try lia;
    destruct (N.eqb_spec x y), (N.eqb_spec y x); try done; try lia. apply IH.
Qed.

Lemma str_geb_trans a b c : str_ltb b a = false -> str_ltb c b = false -> str_ltb c a = false.
Proof.
  revert b c; induction a as [|x a IH]; intros [|y b] [|z c]; cbn; try done.
  destruct (N.ltb_spec y x), (N.ltb_spec z y), (N.ltb_spec z x); try done; try lia.
  destruct (N.eqb_spec y x), (N.eqb_spec z y), (N.eqb_spec z x); try done; try lia. apply IH.
Qed.

Lemma sort_strings_sorted l : StronglySorted (fun a b => str_ltb b a = false) (sort_strings l).
Proof.
  apply (sort_by_in_order (fun a b => str_ltb b a) (fun _ => True));
    [|naive_solver eauto using str_geb_trans|by apply Forall_true].
  intros a b _ _. apply str_ltb_asym.
Qed.

(** Sorting strings forgets the order they came in. *)
Lemma sort_strings_canonical l1 l2 : l1 ≡ₚ l2 -> sort_strings l1 = sort_strings l2.
Proof.
  intros Hp. eapply (StronglySorted_unique_strong (fun a b => str_ltb b a = false)).
  - intros a b _ _ Ha Hb. by apply str_ltb_trichotomy.
  - apply sort_strings_sorted.
  - apply sort_strings_sorted.
  - unfold sort_strings. by rewrite !sort_by_perm.
Qed.

(** ** What printed numbers look like *)

(** The value of a run of decimal digits. *)
Definition eval10 (v : Z) (s : jstr) : Z := fold_left (fun v c => v * 10 + (Z.of_N c - 48)) s v.

Lemma digits_fuel_eval f n acc :
  0 <= n < 2 ^ Z.of_nat f -> eval10 0 (digits_fuel f 10 n acc) = eval10 n acc.
Proof.
  revert n acc. induction f as [|f IH]; intros n acc Hn; cbn [digits_fuel].
  { change (2 ^ Z.of_nat 0) with 1 in Hn. by replace n with 0 by lia. }
  assert (forall v, eval10 v (digit_unit (n mod 10) :: acc) = eval10 (v * 10 + n mod 10) acc) as Hd.
  { intros v. unfold eval10, digit_unit; cbn. f_equal.
    pose proof (Z.mod_pos_bound n 10). rewrite (proj2 (Z.ltb_lt (n mod 10) 10)) by lia. lia. }
  rewrite Nat2Z.inj_succ, Z.pow_succ_r in Hn by lia.
  destruct (Z.ltb_spec n 10).
  - rewrite Hd, Z.mod_small by lia. done.
  - rewrite IH, Hd.
    + f_equal. pose proof (Z.div_mod n 10). lia.
    + split; [apply Z.div_pos; lia|]. apply Z.div_lt_upper_bound; lia.
Qed.

Lemma digits_eval n : 0 <= n -> eval10 0 (digits 10 n) = n.
Proof.
  intros Hn. unfold digits. rewrite digits_fuel_eval; [done|]. split; [done|].
  pose proof (Z.log2_nonneg n).
  rewrite Nat2Z.inj_succ, Z2Nat.id by lia.
  destruct (Z.eq_dec n 0) as [->|]; [done|]. apply Z.log2_spec; lia.
Qed.

Lemma digits_inj a b : 0 <= a -> 0 <= b -> digits 10 a = digits 10 b -> a = b.
Proof. intros Ha Hb E. by rewrite <- (digits_eval a), <- (digits_eval b), E. Qed.

(** Not a colon. *)
Definition plain (c : N) : Prop := c <> 58%N.

Lemma digits_plain n : 0 <= n -> Forall plain (digits 10 n).
Proof.
  intros Hn. unfold digits. generalize (S (Z.to_nat (Z.log2 n))) as f.
  assert (Forall plain []) as Hacc by constructor. revert Hacc. generalize (@nil N) as acc.
  intros acc Hacc f. revert n Hn acc Hacc.
  induction f as [|f IH]; intros n Hn acc Hacc; cbn [digits_fuel]; [done|].
  assert (plain (digit_unit (n mod 10))).
  { unfold plain, digit_unit. pose proof (Z.mod_pos_bound n 10).
    rewrite (proj2 (Z.ltb_lt _ _)) by lia. lia. }
  case_match; [by constructor|]. apply IH; [apply Z.div_pos; lia|by constructor].
Qed.

Lemma zeros_plain n : Forall plain (zeros n).
Proof. unfold zeros. apply Forall_replicate. done. Qed.

Lemma digits_fuel_neg_plain f n acc : n < 0 -> Forall plain acc -> Forall plain (digits_fuel f 10 n acc).
Proof.
  intros Hn Ha. destruct f; cbn [digits_fuel]; [done|].
  rewrite (proj2 (Z.ltb_lt n 10)) by lia. constructor; [|done].
  unfold plain, digit_unit. pose proof (Z.mod_pos_bound n 10).
  rewrite (proj2 (Z.ltb_lt _ _)) by lia. lia.
Qed.

Lemma digits_plain_any n : Forall plain (digits 10 n).
Proof.
  destruct (Z.le_gt_cases 0 n); [by apply digits_plain|]. by apply digits_fuel_neg_plain.
Qed.

Lemma num_to_string_plain a : Forall plain (num_to_string a).
Proof.
  assert (forall s : list N, bool_decide (58%N ∉ s) = true -> Forall plain s) as Hlit.
  { intros s Hs%bool_decide_eq_true. apply Forall_forall. intros c Hc ->. done. }
  assert (forall z, Forall plain (pos_to_string z)) as Hpos.
  { intros z. unfold pos_to_string. destruct (shortest _ _ _ _) as [s k].
    pose proof (digits_plain_any s) as Hd.
    repeat case_match; repeat (apply Forall_app; split);
      auto using zeros_plain, Forall_take, Forall_drop, digits_plain_any. }
  destruct a as [|[]|z]; cbn [num_to_string]; [by apply Hlit..|].
  unfold int_to_string. repeat case_match; try (apply Forall_app; split); auto using digits_plain_any.
Qed.

(** A name and a printed number joined by a colon: the last colon separates
    them, so the name is recovered whatever it contains. *)
Lemma colon_split s1 s2 t1 t2 :
  Forall plain t1 -> Forall plain t2 -> s1 ++ js ":" ++ t1 = s2 ++ js ":" ++ t2 -> s1 = s2 /\ t1 = t2.
Proof.
  change (js ":") with [58%N]. cbn [app]. intros H1 H2. revert s2.
  induction s1 as [|c s1 IH]; intros [|c' s2]; cbn; intros E.
  - injection E as ->. done.
  - injection E as <- E. subst t1. apply Forall_app in H1 as [_ [H1 _]%Forall_cons]. exfalso. by apply H1.
  - injection E as -> E. subst t2. apply Forall_app in H2 as [_ [H2 _]%Forall_cons]. exfalso. by apply H2.
  - injection E as -> E. apply IH in E as [-> ->]. done.
Qed.
