(* ===== verification/JsValue.v ===== *)
(** * JavaScript values

    The values an envelope, a log entry or a backup can carry once parsed,
    with the coercions of the language: property access through the built-in
    prototypes, truthiness, [String(v)], [Number(v)], [===].

    Objects are their own enumerable properties in enumeration order.  A
    property that is not own resolves on the prototype: reading
    [o.constructor] of an empty object gives a function, not [undefined], and
    the code that indexes an object by a name from the wire sees that.
    Objects and arrays that reach a comparison come from separate parses, so
    they are never the same reference and [===] on them is false. *)

From S2P Require Import Prelude JsNum JsString.
From stdpp Require Import base list numbers option strings.
From Stdlib Require Import ZArith NArith Lia.
Open Scope Z_scope.

Inductive val : Type :=
| VUndef
| VNull
| VBool (b : bool)
| VNum (a : num)
| VStr (s : jstr)
| VArr (l : list val)
| VObj (o : list (jstr * val))
| VFun (name : jstr).  (** a built-in method found on a prototype *)

Notation obj := (list (jstr * val)).

Section val_rect.
Context (P : val -> Prop).
Context (HUndef : P VUndef) (HNull : P VNull) (HBool : forall b, P (VBool b))
  (HNum : forall a, P (VNum a)) (HStr : forall s, P (VStr s))
  (HArr : forall l, Forall P l -> P (VArr l))
  (HObj : forall o, Forall (fun kv => P (snd kv)) o -> P (VObj o))
  (HFun : forall f, P (VFun f)).

(** Induction that reaches the elements of arrays and objects. *)
Fixpoint val_ind' (v : val) : P v :=
  match v with
  | VUndef => HUndef
  | VNull => HNull
  | VBool b => HBool b
  | VNum a => HNum a
  | VStr s => HStr s
  | VArr l =>
      HArr l ((fix go l : Forall P l :=
        match l with
        | [] => @Forall_nil_2 _ P
        | x :: r => @Forall_cons_2 _ P x r (val_ind' x) (go r)
        end) l)
  | VObj o =>
      HObj o ((fix go o : Forall (fun kv => P (snd kv)) o :=
        match o with
        | [] => @Forall_nil_2 _ (fun kv => P (snd kv))
        | x :: r => @Forall_cons_2 _ (fun kv => P (snd kv)) x r (val_ind' (snd x)) (go r)
        end) o)
  | VFun f => HFun f
  end.
End val_rect.

(** An object with literal keys. *)
Definition jobj (l : list (string * val)) : val := VObj ((fun kv => (js kv.1, kv.2)) <$> l).

(** ** Built-in prototypes *)

Definition object_proto : list jstr := js <$>
  ["constructor"; "__defineGetter__"; "__defineSetter__"; "hasOwnProperty";
   "__lookupGetter__"; "__lookupSetter__"; "isPrototypeOf"; "propertyIsEnumerable";
   "toString"; "valueOf"; "toLocaleString"]%string.

Definition array_proto : list jstr := js <$>
  ["at"; "concat"; "copyWithin"; "fill"; "find"; "findIndex"; "findLast"; "findLastIndex";
   "lastIndexOf"; "pop"; "push"; "reverse"; "shift"; "unshift"; "slice"; "sort"; "splice";
   "includes"; "indexOf"; "join"; "keys"; "entries"; "values"; "forEach"; "filter"; "flat";
   "flatMap"; "map"; "every"; "some"; "reduce"; "reduceRight"; "toReversed"; "toSorted";
   "toSpliced"; "with"]%string.

Definition string_proto : list jstr := js <$>
  ["anchor"; "at"; "big"; "blink"; "bold"; "charAt"; "charCodeAt"; "codePointAt"; "concat";
   "endsWith"; "fontcolor"; "fontsize"; "fixed"; "includes"; "indexOf"; "italics";
   "lastIndexOf"; "link"; "localeCompare"; "match"; "matchAll"; "normalize"; "padEnd";
   "padStart"; "repeat"; "replace"; "replaceAll"; "search"; "slice"; "small"; "split";
   "strike"; "sub"; "substr"; "substring"; "sup"; "startsWith"; "trim"; "trimStart";
   "trimLeft"; "trimEnd"; "trimRight"; "toLowerCase"; "toUpperCase"; "isWellFormed";
   "toWellFormed"]%string.

Definition number_proto : list jstr := js <$>
  ["toExponential"; "toFixed"; "toPrecision"]%string.

Definition proto_method (own : list jstr) (k : jstr) : val :=
  if bool_decide (k ∈ own) || bool_decide (k ∈ object_proto) then VFun k
  else if str_eqb k (js "__proto__") then VObj []
  else VUndef.

(** ** Objects *)

Fixpoint obj_get {A} (o : list (jstr * A)) (k : jstr) : option A :=
  match o with
  | [] => None
  | (k', v) :: r => if str_eqb k' k then Some v else obj_get r k
  end.

(** Is the key a canonical array index?  Such keys enumerate first, in
    numeric order. *)
Definition index_key (k : jstr) : option Z :=
  let '(n, c, r) := read_digits 10 0 0 k in
  if (0 <? c) && bool_decide (r = []) && str_eqb (digits 10 n) k && (n <? 2 ^ 32 - 1)
  then Some n else None.

Definition key_before (k k' : jstr) : bool :=
  match index_key k, index_key k' with
  | Some a, Some b => a <? b
  | Some _, None => true
  | None, _ => false
  end.

(** Create a property: in enumeration order. *)
Fixpoint obj_add {A} (o : list (jstr * A)) (k : jstr) (v : A) : list (jstr * A) :=
  match o with
  | [] => [(k, v)]
  | (k', v') :: r => if key_before k k' then (k, v) :: o else (k', v') :: obj_add r k v
  end.

Fixpoint obj_update {A} (o : list (jstr * A)) (k : jstr) (v : A) : list (jstr * A) :=
  match o with
  | [] => []
  | (k', v') :: r => if str_eqb k' k then (k', v) :: r else (k', v') :: obj_update r k v
  end.

(** Define an own property, as a computed key of an object literal or a
    spread does. *)
Definition obj_put {A} (o : list (jstr * A)) (k : jstr) (v : A) : list (jstr * A) :=
  match obj_get o k with
  | Some _ => obj_update o k v
  | None => obj_add o k v
  end.

(** [o[k] = v].  Assigning to [__proto__] calls the inherited setter and
    leaves the own properties alone. *)
Definition obj_assign {A} (o : list (jstr * A)) (k : jstr) (v : A) : list (jstr * A) :=
  if str_eqb k (js "__proto__") && match obj_get o k with None => true | Some _ => false end then o
  else obj_put o k v.

(** [delete o[k]]. *)
Fixpoint obj_delete {A} (o : list (jstr * A)) (k : jstr) : list (jstr * A) :=
  match o with
  | [] => []
  | (k', v) :: r => if str_eqb k' k then obj_delete r k else (k', v) :: obj_delete r k
  end.

(** [m.set(k, v)] on a [Map] with string keys: a key already there keeps its
    place. [m.get] is [obj_get] and [m.delete] is [obj_delete]. *)
Definition map_set {A} (m : list (jstr * A)) (k : jstr) (v : A) : list (jstr * A) :=
  match obj_get m k with
  | Some _ => obj_update m k v
  | None => m ++ [(k, v)]
  end.

(** [{...o1, ...o2}]. *)
Definition obj_spread {A} (o1 o2 : list (jstr * A)) : list (jstr * A) :=
  fold_left (fun acc kv => obj_put acc kv.1 kv.2) o2 o1.

Definition obj_keys {A} (o : list (jstr * A)) : list jstr := o.*1.

(** ** Reading properties *)

Definition char_at (s : jstr) (k : jstr) : option val :=
  match index_key k with
  | Some i => (fun c => VStr [c]) <$> s !! Z.to_nat i
  | None => None
  end.

(** [v[k]] on something that is neither [undefined] nor [null]. *)
Definition prop (v : val) (k : jstr) : val :=
  match v with
  | VUndef | VNull => VUndef
  | VObj o => default (proto_method [] k) (obj_get o k)
  | VArr l =>
      if str_eqb k (js "length") then VNum (int (Z.of_nat (length l)))
      else match index_key k with
           | Some i => default VUndef (l !! Z.to_nat i)
           | None => proto_method array_proto k
           end
  | VStr s =>
      if str_eqb k (js "length") then VNum (int (Z.of_nat (length s)))
      else default (proto_method string_proto k) (char_at s k)
  | VNum _ => proto_method number_proto k
  | VBool _ | VFun _ => proto_method [] k
  end.

(** [v.k]: throws on [undefined] and [null]. *)
Definition get (v : val) (k : string) : res val :=
  match v with
  | VUndef | VNull => Throw TypeError
  | _ => Ok (prop v (js k))
  end.

(** [v?.k], and [v.k] where [v] is known not to be [undefined] or [null]. *)
Definition getq (v : val) (k : string) : val := prop v (js k).
Notation "v .[ k ]" := (getq v k%string) (at level 1, left associativity, format "v .[ k ]") : js_scope.

Definition nullish (v : val) : bool :=
  match v with VUndef | VNull => true | _ => false end.

(** [a ?? b]. *)
Definition coalesce (a b : val) : val := if nullish a then b else a.
Notation "a ⁇ b" := (coalesce a b) (at level 55, right associativity) : js_scope.

Definition truthy (v : val) : bool :=
  match v with
  | VUndef | VNull => false
  | VBool b => b
  | VNum a => ntruthy a
  | VStr s => negb (bool_decide (s = []))
  | VArr _ | VObj _ | VFun _ => true
  end.

(** [typeof v === 'object']. *)
Definition typeof_object (v : val) : bool :=
  match v with VNull | VArr _ | VObj _ => true | _ => false end.

(** [!v || typeof v !== 'object'], the guard every normalizer opens with. *)
Definition not_an_object (v : val) : bool := negb (truthy v) || negb (typeof_object v).

Definition is_str (v : val) : bool := match v with VStr _ => true | _ => false end.

(** [Array.isArray(v) ? v : []]. *)
Definition array_or_empty (v : val) : list val :=
  match v with VArr l => l | _ => [] end.

(** [a === b]. *)
Definition strict_eq (a b : val) : bool :=
  match a, b with
  | VUndef, VUndef | VNull, VNull => true
  | VBool x, VBool y => Bool.eqb x y
  | VNum x, VNum y => neqb x y
  | VStr x, VStr y => str_eqb x y
  | VFun x, VFun y => str_eqb x y
  | _, _ => false
  end.

(** SameValueZero, the equality of [includes] and of [Set]. *)
Definition same_value (a b : val) : bool :=
  match a, b with
  | VNum NaN, VNum NaN => true
  | _, _ => strict_eq a b
  end.

Definition includes (l : list val) (v : val) : bool := existsb (fun x => same_value x v) l.

Arguments includes : simpl never.

(** [[...new Set(l)]]: first occurrences, in order. *)
Definition dedup (l : list val) : list val :=
  fold_left (fun acc x => if includes acc x then acc else acc ++ [x]) l [].

(** ** Coercions *)

(** ToString.  An object whose own [toString] is data (not a function) has no
    primitive value: the conversion throws. *)
Fixpoint to_string (v : val) : res jstr :=
  match v with
  | VUndef => Ok (js "undefined")
  | VNull => Ok (js "null")
  | VBool b => Ok (if b then js "true" else js "false")
  | VNum a => Ok (num_to_string a)
  | VStr s => Ok s
  | VArr l =>
      let* parts := (fix go (l : list val) : res (list jstr) :=
        match l with
        | [] => Ok []
        | x :: r =>
            let* s := match x with VUndef | VNull => Ok [] | _ => to_string x end in
            let* ss := go r in
            Ok (s :: ss)
        end) l in
      Ok (str_join (js ",") parts)
  | VObj o =>
      match obj_get o (js "toString") with
      | Some _ => Throw TypeError
      | None => Ok (js "[object Object]")
      end
  | VFun f => Ok (js "function " ++ f ++ js "() { [native code] }")
  end.

(** ToNumber. *)
Definition to_number (v : val) : res num :=
  match v with
  | VUndef => Ok NaN
  | VNull => Ok (Fin 0)
  | VBool b => Ok (if b then int 1 else Fin 0)
  | VNum a => Ok a
  | VStr s => Ok (string_to_num s)
  | VArr _ | VObj _ | VFun _ => let* s := to_string v in Ok (string_to_num s)
  end.

(** [String(v ?? '')], the idiom every text field goes through. *)
Definition text_of (v : val) : res jstr := to_string (v ⁇ VStr []).

(** [String(v ?? '').slice(0, n)], and the same followed by [.trim()]. *)
Definition clip (n : nat) (v : val) : res jstr := let* s := text_of v in Ok (slice0 n s).
Definition clip_trim (n : nat) (v : val) : res jstr := let* s := clip n v in Ok (trim s).

Definition is_empty (s : jstr) : bool := bool_decide (s = []).

(** [...(s ? { k: s } : {})]: a field that is only present when not empty. *)
Definition opt_text (s : jstr) : option jstr := if is_empty s then None else Some s.

(** Iterating a value ([for ... of], spread into an array): arrays and
    strings are iterable (a string by code point), nothing else here is. *)
Fixpoint code_points (s : jstr) : list jstr :=
  match s with
  | [] => []
  | a :: r =>
      match r with
      | b :: r' =>
          if (N.leb 55296 a && N.leb a 56319 && N.leb 56320 b && N.leb b 57343)%bool
          then [a; b] :: code_points r'
          else [a] :: code_points r
      | [] => [[a]]
      end
  end.

Definition iterate (v : val) : res (list val) :=
  match v with
  | VArr l => Ok l
  | VStr s => Ok (VStr <$> code_points s)
  | _ => Throw TypeError
  end.

(** The own enumerable properties of a value ([Object.entries], rest and
    spread); [undefined] and [null] spread to nothing. *)
Definition own_props (v : val) : obj :=
  match v with
  | VObj o => o
  | VArr l => imap (fun i x => (digits 10 (Z.of_nat i), x)) l
  | VStr s => imap (fun i c => (digits 10 (Z.of_nat i), VStr [c])) s
  | _ => []
  end.

(** ** Facts *)

Lemma trim_start_length s : (length (trim_start s) <= length s)%nat.
Proof. induction s as [|c s IH]; cbn; [lia|]. case_match; cbn; lia. Qed.

Lemma trim_length s : (length (trim s) <= length s)%nat.
Proof.
  unfold trim. rewrite length_reverse. etransitivity; [apply trim_start_length|].
  rewrite length_reverse. apply trim_start_length.
Qed.

Lemma trim_start_idem s : trim_start (trim_start s) = trim_start s.
Proof. induction s as [|c s IH]; cbn [trim_start]; [done|]. destruct (is_space c) eqn:E; [done|]. cbn [trim_start]. by rewrite E. Qed.

Lemma trim_start_suffix s : exists p, s = p ++ trim_start s /\ Forall (fun c => is_space c = true) p.
Proof.
  induction s as [|c s [p [E H]]]; cbn [trim_start]; [by exists []|].
  destruct (is_space c) eqn:Ec; [|by exists []]. exists (c :: p). split; [by rewrite E at 1|by constructor].
Qed.

Lemma trim_start_app_nonempty s t : s <> [] -> trim_start (s ++ t) = s ++ t -> trim_start s = s.
Proof.
  destruct s as [|c s]; [done|]. intros _. cbn [trim_start app]. destruct (is_space c); [|done].
  intros H. exfalso. apply (f_equal length) in H. pose proof (trim_start_length (s ++ t)). cbn in H. lia.
Qed.

Lemma trim_idem s : trim (trim s) = trim s.
Proof.
  unfold trim. set (u := trim_start s). set (w := trim_start (reverse u)).
  assert (trim_start (reverse w) = reverse w) as ->.
  { destruct (trim_start_suffix (reverse u)) as [p [E _]]. fold w in E.
    assert (u = reverse w ++ reverse p) as Eu by by rewrite <- reverse_app, <- E, reverse_involutive.
    destruct (decide (reverse w = [])) as [->|Hn]; [done|].
    apply (trim_start_app_nonempty _ (reverse p) Hn). rewrite <- Eu. apply trim_start_idem. }
  rewrite reverse_involutive. f_equal. apply trim_start_idem.
Qed.

Lemma Forall_trim_start (P : N -> Prop) s : Forall P s -> Forall P (trim_start s).
Proof. intros Hs. induction Hs as [|c s Hc Hs IH]; cbn [trim_start]; [done|]. destruct (is_space c); [done|by constructor]. Qed.

Lemma Forall_trim (P : N -> Prop) s : Forall P s -> Forall P (trim s).
Proof. intros Hs. unfold trim. by apply Forall_reverse, Forall_trim_start, Forall_reverse, Forall_trim_start. Qed.

Lemma clip_length n v s : clip n v = Ok s -> (length s <= n)%nat.
Proof.
  unfold clip; intros H; inv_ok. unfold slice0. rewrite length_take. lia.
Qed.

Lemma clip_trim_length n v s : clip_trim n v = Ok s -> (length s <= n)%nat.
Proof.
  unfold clip_trim; intros H; inv_ok. etransitivity; [apply trim_length|]. by eapply clip_length.
Qed.

Lemma is_empty_false s : is_empty s = false <-> s <> [].
Proof. unfold is_empty. apply bool_decide_eq_false. Qed.

Lemma is_empty_true s : is_empty s = true <-> s = [].
Proof. unfold is_empty. apply bool_decide_eq_true. Qed.

#[export] Hint Resolve clip_length clip_trim_length : js.

Lemma opt_text_Some s t : opt_text s = Some t -> t = s /\ is_empty s = false.
Proof. unfold opt_text. destruct (is_empty s); naive_solver. Qed.

Lemma nonempty_bounded s n : is_empty s = false -> (length s <= n)%nat -> (0 < length s <= n)%nat.
Proof. intros Hs%is_empty_false Hn. destruct s; cbn in *; [done|lia]. Qed.

Lemma strict_eq_str s v : strict_eq (VStr s) v = true <-> v = VStr s.
Proof. destruct v; cbn; rewrite ?str_eqb_eq; naive_solver. Qed.

Lemma same_value_str s v : same_value (VStr s) v = true <-> v = VStr s.
Proof. apply strict_eq_str. Qed.

Lemma obj_get_update {A} (o : list (jstr * A)) k k' v :
  obj_get (obj_update o k v) k' =
    if str_eqb k k' then (fun _ => v) <$> obj_get o k else obj_get o k'.
Proof.
  induction o as [|[k0 v0] o IH]; cbn; [by destruct (str_eqb k k')|].
  destruct (str_eqb k0 k) eqn:E0; cbn.
  - apply str_eqb_eq in E0 as ->. by destruct (str_eqb k k').
  - rewrite IH. destruct (str_eqb k k') eqn:E1; [|done].
    apply str_eqb_eq in E1 as <-. by rewrite E0.
Qed.

Lemma obj_get_add {A} (o : list (jstr * A)) k k' v :
  obj_get o k = None ->
  obj_get (obj_add o k v) k' = if str_eqb k k' then Some v else obj_get o k'.
Proof.
  induction o as [|[k0 v0] o IH]; cbn; [done|].
  destruct (str_eqb k0 k) eqn:E0; [done|]. intros Hn.
  destruct (key_before k k0); cbn.
  - done.
  - rewrite IH by done. destruct (str_eqb k0 k') eqn:E1, (str_eqb k k') eqn:E2; try done.
    apply str_eqb_eq in E1, E2. subst. by rewrite str_eqb_refl in E0.
Qed.

Lemma obj_get_put {A} (o : list (jstr * A)) k k' v :
  obj_get (obj_put o k v) k' = if str_eqb k k' then Some v else obj_get o k'.
Proof.
  unfold obj_put. destruct (obj_get o k) as [v0|] eqn:E.
  - rewrite obj_get_update, E. by destruct (str_eqb k k').
  - by apply obj_get_add.
Qed.

Lemma obj_get_None {A} (o : list (jstr * A)) k : obj_get o k = None <-> k ∉ obj_keys o.
Proof.
  induction o as [|[k0 v0] o IH]; cbn; [split; [intros _ H; inversion H|done]|].
  rewrite not_elem_of_cons. unfold obj_keys in IH. destruct (str_eqb k0 k) eqn:E.
  - apply str_eqb_eq in E as ->. naive_solver.
  - apply str_eqb_neq in E. rewrite IH. naive_solver.
Qed.

Lemma obj_get_app {A} (o1 o2 : list (jstr * A)) k :
  obj_get (o1 ++ o2) k = match obj_get o1 k with Some v => Some v | None => obj_get o2 k end.
Proof. induction o1 as [|[k0 v0] o1 IH]; cbn; [done|]. by destruct (str_eqb k0 k). Qed.

Lemma obj_get_map_set {A} (m : list (jstr * A)) k k' v :
  obj_get (map_set m k v) k' = if str_eqb k k' then Some v else obj_get m k'.
Proof.
  unfold map_set. destruct (obj_get m k) as [v0|] eqn:E.
  - rewrite obj_get_update, E. by destruct (str_eqb k k').
  - rewrite obj_get_app. cbn. destruct (str_eqb k k') eqn:Ek; [|by destruct (obj_get m k')].
    apply str_eqb_eq in Ek as <-. by rewrite E.
Qed.

Lemma obj_keys_update {A} (o : list (jstr * A)) k v : obj_keys (obj_update o k v) = obj_keys o.
Proof.
  unfold obj_keys. induction o as [|[k0 v0] o IH]; cbn; [done|].
  destruct (str_eqb k0 k); cbn; [done|]. by rewrite IH.
Qed.

Lemma map_set_keys {A} (m : list (jstr * A)) k v :
  obj_keys (map_set m k v) = obj_keys m \/ obj_keys (map_set m k v) = obj_keys m ++ [k] /\ k ∉ obj_keys m.
Proof.
  unfold map_set. destruct (obj_get m k) eqn:E; [left; apply obj_keys_update|right].
  split; [|by apply obj_get_None]. unfold obj_keys. by rewrite fmap_app.
Qed.

Lemma map_set_NoDup {A} (m : list (jstr * A)) k v :
  NoDup (obj_keys m) -> NoDup (obj_keys (map_set m k v)).
Proof. destruct (map_set_keys m k v) as [->|[-> Hk]]; [done|]. intros. by apply NoDup_snoc. Qed.

Lemma elem_of_map_set {A} (m : list (jstr * A)) k v kv :
  kv ∈ map_set m k v -> kv = (k, v) \/ kv ∈ m.
Proof.
  unfold map_set. case_match.
  - clear. induction m as [|[k0 v0] m IH]; cbn; [intros []%elem_of_nil|].
    destruct (str_eqb k0 k) eqn:E; rewrite !elem_of_cons.
    + apply str_eqb_eq in E as ->. tauto.
    + intros [?|?%IH]; tauto.
  - rewrite elem_of_app, list_elem_of_singleton. tauto.
Qed.

Lemma obj_get_NoDup {A} (o : list (jstr * A)) k v :
  NoDup (obj_keys o) -> (k, v) ∈ o -> obj_get o k = Some v.
Proof.
  induction o as [|[k0 v0] o IH]; cbn; [intros _ []%elem_of_nil|].
  intros [Hk Hn]%NoDup_cons [[= <- <-]|Hin]%elem_of_cons; [by rewrite str_eqb_refl|].
  destruct (str_eqb k0 k) eqn:E; [|by apply IH]. apply str_eqb_eq in E as ->.
  exfalso. apply Hk. by apply (list_elem_of_fmap_2 fst) in Hin.
Qed.

Lemma obj_add_perm {A} (o : list (jstr * A)) k v : obj_add o k v ≡ₚ (k, v) :: o.
Proof.
  induction o as [|[k0 v0] o IH]; cbn; [done|]. case_match; [done|].
  rewrite IH. apply perm_swap.
Qed.

Lemma obj_put_length {A} (o : list (jstr * A)) k v :
  length (obj_keys (obj_put o k v)) =
    match obj_get o k with Some _ => length (obj_keys o) | None => S (length (obj_keys o)) end.
Proof.
  unfold obj_put. destruct (obj_get o k); [by rewrite obj_keys_update|].
  unfold obj_keys. rewrite !length_fmap. by rewrite obj_add_perm.
Qed.

Lemma obj_delete_length {A} (o : list (jstr * A)) k :
  (length (obj_keys (obj_delete o k)) <= length (obj_keys o))%nat.
Proof.
  unfold obj_keys. induction o as [|[k0 v0] o IH]; cbn; [lia|]. case_match; cbn; lia.
Qed.

Lemma obj_get_delete {A} (o : list (jstr * A)) k k' :
  obj_get (obj_delete o k) k' = if str_eqb k k' then None else obj_get o k'.
Proof.
  induction o as [|[k0 v0] o IH]; cbn; [by destruct (str_eqb k k')|].
  destruct (str_eqb k0 k) eqn:E0; cbn.
  - rewrite IH. apply str_eqb_eq in E0 as ->. by destruct (str_eqb k k').
  - rewrite IH. destruct (str_eqb k0 k') eqn:E1, (str_eqb k k') eqn:E2; try done.
    apply str_eqb_eq in E1, E2. subst. by rewrite str_eqb_refl in E0.
Qed.

Lemma obj_get_elem {A} (o : list (jstr * A)) k v : obj_get o k = Some v -> (k, v) ∈ o.
Proof.
  induction o as [|[k0 v0] o IH]; cbn; [done|].
  destruct (str_eqb k0 k) eqn:E; [|intros ?; right; auto].
  apply str_eqb_eq in E as ->. intros [= ->]. by left.
Qed.

(** On what [===] and SameValueZero accept they are equality. *)
Lemma neqb_eq a b : neqb a b = true -> a = b.
Proof.
  destruct a, b; cbn; try done; [by intros ->%Bool.eqb_prop | by intros ->%Z.eqb_eq].
Qed.

Lemma strict_eq_eq a b : strict_eq a b = true -> a = b.
Proof.
  destruct a, b; cbn; try done.
  - by intros ->%Bool.eqb_prop.
  - by intros ->%neqb_eq.
  - by intros ->%str_eqb_eq.
  - by intros ->%str_eqb_eq.
Qed.

Lemma same_value_eq a b : same_value a b = true -> a = b.
Proof.
  destruct a as [| | |[]| | | |], b as [| | |[]| | | |]; cbn; try done;
    intros Hs; try (by apply strict_eq_eq in Hs).
  all: try (by apply str_eqb_eq in Hs as ->); try (by apply Bool.eqb_prop in Hs as ->).
  by apply Z.eqb_eq in Hs as ->.
Qed.

Lemma strict_same a b : strict_eq a b = true -> same_value a b = true.
Proof. destruct a as [| | |[]| | | |], b as [| | |[]| | | |]; done. Qed.

Lemma same_value_sym a b : same_value a b = same_value b a.
Proof.
  destruct (same_value a b) eqn:E1, (same_value b a) eqn:E2; try done.
  - apply same_value_eq in E1 as Heq. subst. congruence.
  - apply same_value_eq in E2 as Heq. subst. congruence.
Qed.

(** ** Lists of distinct values *)

Fixpoint distinct (l : list val) : Prop :=
  match l with
  | [] => True
  | x :: r => includes r x = false /\ distinct r
  end.

Lemma includes_cons y l x : includes (y :: l) x = same_value y x || includes l x.
Proof. done. Qed.

Lemma includes_app l1 l2 x : includes (l1 ++ l2) x = includes l1 x || includes l2 x.
Proof. unfold includes. apply existsb_app. Qed.

Lemma includes_false l x : includes l x = false <-> forall y, y ∈ l -> same_value y x = false.
Proof.
  unfold includes. induction l as [|y l IH]; cbn.
  - split; [intros _ ? H; inversion H | done].
  - rewrite orb_false_iff, IH. split.
    + intros [Hy Hl] z [->|Hz]%elem_of_cons; auto.
    + intros H; split; [apply H; by left | intros z Hz; apply H; by right].
Qed.

Lemma includes_true l x : includes l x = true <-> exists y, y ∈ l /\ same_value y x = true.
Proof.
  unfold includes. rewrite existsb_exists. by setoid_rewrite list_elem_of_In.
Qed.

Lemma includes_elem l x : includes l x = true -> x ∈ l.
Proof. intros (y & Hy & ->%same_value_eq)%includes_true. done. Qed.

Lemma distinct_snoc l x : distinct l -> includes l x = false -> distinct (l ++ [x]).
Proof.
  induction l as [|y l IH]; cbn; [done|]. rewrite includes_cons.
  intros [Hy Hl] [Hyx Hx]%orb_false_iff. split; [|auto].
  rewrite includes_app, Hy, includes_cons; cbn. by rewrite same_value_sym, Hyx.
Qed.

Lemma distinct_filter (P : val -> Prop) `{!forall x, Decision (P x)} l :
  distinct l -> distinct (filter P l).
Proof.
  induction l as [|y l IH]; [done|]. intros [Hy Hl]. rewrite filter_cons.
  case_decide; cbn; [split|]; auto. rewrite includes_false in Hy |- *.
  intros z [_ Hz]%list_elem_of_filter. auto.
Qed.

(** The loop of [dedup], from any accumulator. *)
Definition dedup_from (l acc : list val) : list val :=
  fold_left (fun acc x => if includes acc x then acc else acc ++ [x]) l acc.

Lemma dedup_from_distinct l acc : distinct acc -> distinct (dedup_from l acc).
Proof.
  revert acc. induction l as [|x l IH]; intros acc Hacc; cbn; [done|]. apply IH.
  destruct (includes acc x) eqn:E; [done|]. by apply distinct_snoc.
Qed.

Lemma dedup_from_nonempty l acc : acc <> [] -> dedup_from l acc <> [].
Proof.
  revert acc. induction l as [|x l IH]; intros acc Hacc; cbn; [done|]. apply IH.
  destruct (includes acc x); [done|]. by destruct acc.
Qed.

Lemma dedup_distinct l : distinct (dedup l).
Proof. by apply dedup_from_distinct. Qed.

Lemma dedup_nonempty l : l <> [] -> dedup l <> [].
Proof. destruct l as [|x l]; [done|]. intros _. by apply (dedup_from_nonempty l [x]). Qed.

(** ** Maps up to insertion order *)

Definition map_eq {A} (a b : list (jstr * A)) : Prop := forall k, obj_get a k = obj_get b k.

#[global] Instance map_eq_equiv {A} : Equivalence (@map_eq A).
Proof. split; [by intros a k|by intros a b H k|by intros a b c H1 H2 k; rewrite H1]. Qed.

#[global] Instance map_set_proper {A} :
  Proper (map_eq ==> eq ==> eq ==> map_eq) (@map_set A).
Proof. intros a b Hab k ? <- v ? <- k'. rewrite !obj_get_map_set. by destruct (str_eqb k k'). Qed.

(** Maps with the same answers hold the same pairs. *)
Lemma map_eq_perm {A} (a b : list (jstr * A)) :
  NoDup (obj_keys a) -> NoDup (obj_keys b) -> map_eq a b -> a ≡ₚ b.
Proof.
  intros Ha Hb Hab. apply list.NoDup_Permutation.
  - by apply (NoDup_fmap_1 fst).
  - by apply (NoDup_fmap_1 fst).
  - intros [k v]. split; intros Hin; apply obj_get_elem;
      [rewrite <- Hab|rewrite Hab]; by apply obj_get_NoDup.
Qed.

Lemma obj_get_fmap {A B} (f : A -> B) (o : list (jstr * A)) k :
  obj_get ((fun kv => (kv.1, f kv.2)) <$> o) k = f <$> obj_get o k.
Proof. induction o as [|[k' x] o IH]; cbn; [done|]. by destruct (str_eqb k' k). Qed.

Lemma obj_keys_fmap {A B} (f : A -> B) (o : list (jstr * A)) :
  obj_keys ((fun kv => (kv.1, f kv.2)) <$> o) = obj_keys o.
Proof. unfold obj_keys. rewrite <- list_fmap_compose. by apply list_fmap_ext. Qed.

(** Evaluate comparisons of literal keys. *)
Ltac lit :=
  repeat match goal with
  | |- context [str_eqb (js ?a) (js ?b)] =>
      let v := eval vm_compute in (str_eqb (js a) (js b)) in
      change (str_eqb (js a) (js b)) with v
  end.

