(* ===== verification/Board.v ===== *)
(** * Boards: capped, newest-first lists of posted things

    The noticeboard, the offers and the proposals ledger share one shape: a
    list keyed by id, kept newest first and cut at a cap.  This file states
    that shape once, as the interface [Posted] and the invariant [board_ok],
    and proves how the operations the three components are built from
    (insert-or-replace, union, removal, in-place change) preserve it. *)

From S2P Require Import Prelude JsNum JsString JsValue.
From stdpp Require Import base list numbers option strings sorting.
From Stdlib Require Import ZArith Lia Sorting.Sorted Sorting.Permutation.
Open Scope Z_scope.

Class Posted (A : Type) := {
  post_id : A -> jstr;
  post_ts : A -> num;
}.

Section board.
Context {A : Type} `{!Posted A}.
Implicit Types (x y : A) (l : list A).

(** [l.sort((a, b) => b.ts - a.ts)]. *)
Definition newer_last x y : bool := Fin 0 <ₙ nsub (post_ts y) (post_ts x).
Definition newest_first l : list A := sort_by newer_last l.

(** [l.filter((n) => n.id !== id)], for an id of any type. *)
Definition without_id (id : val) l : list A :=
  filter (fun x => strict_eq (VStr (post_id x)) id = false) l.

(** [l.find((n) => n.id === id)]. *)
Fixpoint find_id (id : val) l : option A :=
  match l with
  | [] => None
  | x :: r => if strict_eq (VStr (post_id x)) id then Some x else find_id id r
  end.

(** [incoming.filter((n) => !have.has(n.id))] with [have] the ids of [mine]. *)
Definition not_in_ids (mine incoming : list A) : list A :=
  filter (fun x => post_id x ∉ (post_id <$> mine)) incoming.

Definition ids l : list jstr := post_id <$> l.
Definition finite_ts x : Prop := nfinite (post_ts x) = true.

Definition no_later x y : Prop :=
  match post_ts x, post_ts y with
  | Fin a, Fin b => b <= a
  | _, _ => False
  end.

Record board_ok (cap : nat) l : Prop := {
  board_ids : NoDup (ids l);
  board_fin : Forall finite_ts l;
  board_sorted : StronglySorted no_later l;
  board_len : (length l <= cap)%nat;
}.

(** *** The comparator *)

Lemma newer_last_fin x y a b :
  post_ts x = Fin a -> post_ts y = Fin b -> newer_last x y = (a <? b).
Proof. intros Ha Hb; unfold newer_last; rewrite Ha, Hb. apply nsub_gt0. Qed.

Lemma finite_ts_Fin x : finite_ts x <-> exists a, post_ts x = Fin a.
Proof. apply nfinite_Fin. Qed.

Lemma newest_first_in_order l :
  Forall finite_ts l -> in_order newer_last (newest_first l).
Proof.
  apply sort_by_in_order.
  - intros x y [a Ha]%finite_ts_Fin [b Hb]%finite_ts_Fin.
    rewrite (newer_last_fin x y a b), (newer_last_fin y x b a) by done. lia.
  - intros x y z [a Ha]%finite_ts_Fin [b Hb]%finite_ts_Fin [c Hc]%finite_ts_Fin.
    rewrite (newer_last_fin x y a b), (newer_last_fin y z b c), (newer_last_fin x z a c) by done.
    lia.
Qed.

Lemma in_order_sorted l :
  Forall finite_ts l -> in_order newer_last l -> StronglySorted no_later l.
Proof.
  apply in_order_impl. intros x y [a Ha]%finite_ts_Fin [b Hb]%finite_ts_Fin.
  rewrite (newer_last_fin x y a b) by done. unfold no_later; rewrite Ha, Hb; lia.
Qed.

Lemma sorted_in_order l : StronglySorted no_later l -> in_order newer_last l.
Proof.
  intros Hs; induction Hs as [|x l Hs IH Hx]; constructor; [done|].
  rewrite Forall_forall in Hx |- *. intros y Hy; specialize (Hx y Hy).
  unfold no_later in Hx.
  destruct (post_ts x) as [| |a] eqn:Ha; try done.
  destruct (post_ts y) as [| |b] eqn:Hb; try done.
  rewrite (newer_last_fin x y a b) by done. lia.
Qed.

Lemma newest_first_id cap l : board_ok cap l -> newest_first l = l.
Proof. intros H; apply sort_by_id, sorted_in_order, H. Qed.

Lemma newest_first_perm l : newest_first l ≡ₚ l.
Proof. apply sort_by_perm. Qed.

(** *** Building a board *)

(** Sorting and cutting any id-unique list of sane timestamps is a board. *)
Lemma board_ok_cut cap l :
  NoDup (ids l) -> Forall finite_ts l -> board_ok cap (take cap (newest_first l)).
Proof.
  intros Hn Hf.
  assert (Forall finite_ts (newest_first l)) as Hf' by by rewrite newest_first_perm.
  split.
  - unfold ids in *. apply (sublist_NoDup _ (post_id <$> newest_first l)).
    + by rewrite newest_first_perm.
    + apply fmap_sublist, sublist_take.
  - by apply Forall_take.
  - apply in_order_sorted; [by apply Forall_take|].
    by apply in_order_take, newest_first_in_order.
  - rewrite length_take. lia.
Qed.

Lemma finite_ts_filter (P : A -> Prop) `{!forall x, Decision (P x)} l :
  Forall finite_ts l -> Forall finite_ts (filter P l).
Proof. intros Hf; by apply Forall_filter. Qed.

Lemma ids_filter_NoDup (P : A -> Prop) `{!forall x, Decision (P x)} l :
  NoDup (ids l) -> NoDup (ids (filter P l)).
Proof. intros Hf; eapply sublist_NoDup; [exact Hf|]. apply fmap_sublist, sublist_filter. Qed.

(** Dropping entries keeps a board a board. *)
Lemma board_ok_filter cap (P : A -> Prop) `{!forall x, Decision (P x)} l :
  board_ok cap l -> board_ok cap (filter P l).
Proof.
  intros [Hi Hf Hs Hl]; split.
  - by apply ids_filter_NoDup.
  - by apply finite_ts_filter.
  - clear -Hs. induction Hs as [|x l Hs IH Hx]; [constructor|].
    rewrite filter_cons. case_decide; [|done]. constructor; [done|]. by apply Forall_filter.
  - etransitivity; [apply length_filter|done].
Qed.

(** Changing entries in place, keeping ids and timestamps, too. *)
Lemma board_ok_map cap (f : A -> A) l :
  (forall x, post_id (f x) = post_id x) -> (forall x, post_ts (f x) = post_ts x) ->
  board_ok cap l -> board_ok cap (f <$> l).
Proof.
  intros Hid Hts [Hi Hf Hs Hl]; split.
  - unfold ids in *. rewrite <- list_fmap_compose.
    by erewrite (list_fmap_ext _ post_id) by (intros; apply Hid).
  - apply Forall_fmap. eapply Forall_impl; [exact Hf|].
    intros x; unfold finite_ts; cbn. by rewrite Hts.
  - clear -Hs Hts. induction Hs as [|x l Hs IH Hx]; cbn; constructor; [done|].
    apply Forall_fmap. eapply Forall_impl; [exact Hx|].
    intros y; unfold no_later; cbn. by rewrite !Hts.
  - by rewrite length_fmap.
Qed.

(** The entry with a given id is gone after [without_id], others stay. *)
Lemma elem_of_without_id id l x :
  x ∈ without_id id l <-> x ∈ l /\ VStr (post_id x) <> id.
Proof.
  unfold without_id. rewrite list_elem_of_filter.
  assert (strict_eq (VStr (post_id x)) id = false <-> VStr (post_id x) <> id) as ->; [|tauto].
  destruct id; cbn; try naive_solver. rewrite str_eqb_neq; naive_solver.
Qed.

Lemma find_id_Some id l x :
  find_id id l = Some x -> x ∈ l /\ id = VStr (post_id x).
Proof.
  induction l as [|y l IH]; cbn [find_id]; [done|].
  destruct (strict_eq (VStr (post_id y)) id) eqn:E.
  - intros [= ->]. split; [by left|]. destruct id; cbn in E; try done.
    by apply str_eqb_eq in E as ->.
  - intros [??]%IH. split; [by right|done].
Qed.

Lemma find_id_None s l : find_id (VStr s) l = None <-> s ∉ ids l.
Proof.
  induction l as [|y l IH]; cbn; [split; [intros _ H; inversion H | done]|].
  rewrite not_elem_of_cons. unfold ids in IH.
  destruct (str_eqb (post_id y) s) eqn:E.
  - apply str_eqb_eq in E as ->. naive_solver.
  - apply str_eqb_neq in E. rewrite IH. naive_solver.
Qed.

(** Insert-or-replace: [[x, ...l.filter(id differs)]] sorted and cut. *)
Definition put_first (cap : nat) x l : list A :=
  take cap (newest_first (x :: without_id (VStr (post_id x)) l)).

Lemma put_first_ok cap cap' x l :
  board_ok cap' l -> finite_ts x -> board_ok cap (put_first cap x l).
Proof.
  intros [Hi Hf _ _] Hx; apply board_ok_cut.
  - cbn; apply NoDup_cons; split; [|by apply ids_filter_NoDup].
    intros (y & Hxy & Hy)%list_elem_of_fmap.
    apply elem_of_without_id in Hy as [_ Hy]. by rewrite Hxy in Hy.
  - constructor; [done|]. by apply finite_ts_filter.
Qed.

(** Union, the left side winning on a shared id. *)
Definition union_first (cap : nat) (mine incoming : list A) : list A :=
  take cap (newest_first (mine ++ not_in_ids mine incoming)).

Lemma union_first_ok cap cap1 cap2 mine incoming :
  board_ok cap1 mine -> board_ok cap2 incoming -> board_ok cap (union_first cap mine incoming).
Proof.
  intros [Hi Hf _ _] [Hi' Hf' _ _]; apply board_ok_cut.
  - unfold ids in *. rewrite fmap_app. apply NoDup_app. split; [done|]. split.
    + intros i Hm (y & -> & Hy)%list_elem_of_fmap.
      apply list_elem_of_filter in Hy as [Hy _]. done.
    + by apply ids_filter_NoDup.
  - apply Forall_app. split; [done|]. by apply finite_ts_filter.
Qed.

(** What a union holds before the cut. *)
Lemma elem_of_union mine incoming x :
  x ∈ mine ++ not_in_ids mine incoming <-> x ∈ mine \/ x ∈ incoming /\ post_id x ∉ ids mine.
Proof. rewrite elem_of_app. unfold not_in_ids. rewrite list_elem_of_filter. unfold ids. naive_solver. Qed.

Lemma union_in_app mine incoming x : x ∈ mine ++ not_in_ids mine incoming -> x ∈ mine ++ incoming.
Proof. rewrite elem_of_union, elem_of_app. tauto. Qed.

(** Two devices that hold the same thing under a shared id, no two things of
    one age, end with the same board whichever merges the other's. *)
Lemma union_first_comm cap cap1 cap2 l1 l2 :
  board_ok cap1 l1 -> board_ok cap2 l2 ->
  (forall x y, x ∈ l1 -> y ∈ l2 -> post_id x = post_id y -> x = y) ->
  (forall x y, x ∈ l1 ++ l2 -> y ∈ l1 ++ l2 -> post_ts x = post_ts y -> x = y) ->
  union_first cap l1 l2 = union_first cap l2 l1.
Proof.
  intros [Hi1 Hf1 _ _] [Hi2 Hf2 _ _] Hsame Hts. unfold union_first. f_equal.
  assert (forall a b, NoDup (ids a) -> NoDup (ids b) -> NoDup (a ++ not_in_ids a b)) as Hnd.
  { intros a b Ha Hb. apply (NoDup_fmap_1 post_id). rewrite fmap_app. apply NoDup_app.
    split; [done|]. split; [|by apply ids_filter_NoDup].
    intros i Hm (y & -> & Hy)%list_elem_of_fmap. by apply list_elem_of_filter in Hy as [Hy _]. }
  assert (forall a b, Forall finite_ts a -> Forall finite_ts b ->
            Forall finite_ts (a ++ not_in_ids a b)) as Hfu.
  { intros a b Ha Hb. apply Forall_app. split; [done|]. by apply finite_ts_filter. }
  assert (l1 ++ not_in_ids l1 l2 ≡ₚ l2 ++ not_in_ids l2 l1) as Hp.
  { apply list.NoDup_Permutation; [by apply Hnd..|]. intros x. rewrite !elem_of_union.
    assert (forall a b : list A, (forall x y, x ∈ a -> y ∈ b -> post_id x = post_id y -> x = y) ->
      x ∈ a \/ x ∈ b /\ post_id x ∉ ids a -> x ∈ b \/ x ∈ a /\ post_id x ∉ ids b) as Hhalf.
    { intros a b Hab [Hx|[Hx _]]; [|by left].
      destruct (decide (post_id x ∈ ids b)) as [Hin|]; [|by right].
      apply list_elem_of_fmap in Hin as (y & Hxy & Hy). left. by rewrite (Hab x y). }
    split; apply Hhalf; [done|]. intros a b Ha Hb Hab. symmetry. by apply Hsame. }
  eapply (StronglySorted_unique_strong no_later).
  - intros x y Hx Hy Hxy Hyx. rewrite newest_first_perm in Hx, Hy.
    apply union_in_app in Hx, Hy. rewrite elem_of_app in Hy.
    apply Hts; [done | rewrite elem_of_app; tauto|]. unfold no_later in *.
    destruct (post_ts x), (post_ts y); try done. f_equal. lia.
  - apply in_order_sorted; [by rewrite newest_first_perm; apply Hfu|]. by apply newest_first_in_order, Hfu.
  - apply in_order_sorted; [by rewrite newest_first_perm; apply Hfu|]. by apply newest_first_in_order, Hfu.
  - by rewrite !newest_first_perm.
Qed.

(** A cut only ever drops the oldest: what is missing is no newer than
    anything kept. *)
Lemma cut_drops_oldest cap l x y :
  Forall finite_ts l -> x ∈ take cap (newest_first l) ->
  y ∈ drop cap (newest_first l) -> no_later x y.
Proof.
  intros Hf Hx Hy.
  assert (StronglySorted no_later (newest_first l)) as Hs.
  { apply in_order_sorted; [by rewrite newest_first_perm|]. by apply newest_first_in_order. }
  rewrite <- (take_drop cap (newest_first l)) in Hs.
  revert Hs Hx Hy. generalize (take cap (newest_first l)) (drop cap (newest_first l)).
  intros l1 l2 Hs Hx Hy. induction l1 as [|z l1 IH]; [by inversion Hx|].
  cbn in Hs. apply StronglySorted_inv in Hs as [Hs Hz].
  rewrite Forall_forall in Hz. apply elem_of_cons in Hx as [->|Hx]; [|by apply IH].
  apply Hz. apply elem_of_app. by right.
Qed.
End board.

Lemma elem_of_cut {A} `{!Posted A} cap (l : list A) x : x ∈ take cap (newest_first l) -> x ∈ l.
Proof.
  intros Hx. rewrite <- (newest_first_perm l).
  eapply elem_of_submseteq; [exact Hx|]. apply sublist_submseteq, sublist_take.
Qed.
