(* ===== verification/Games.v ===== *)
(** * The game shelf (client/src/lib/games.js)

    The registry's normalizers, the scheme check on what an activity frame may
    load, the shelf's filter and order, and the two expiring claims (presence
    and rallies).  Not here: the device-local tallies in [localStorage] and the
    two functions that need a URL parser. *)

From S2P Require Import Prelude JsNum JsString JsValue.
From stdpp Require Import base list numbers option strings.
From Stdlib Require Import ZArith Lia Sorting.Sorted.
Open Scope Z_scope.

Definition GAMES_MAX : nat := 24.
Definition GAME_NAME_MAX : nat := 60.
Definition GAME_URL_MAX : nat := 2048.
Definition GAME_NOTE_MAX : nat := 140.

Inductive kind := activity | server.

#[global] Instance kind_eq_dec : EqDecision kind.
Proof. solve_decision. Defined.

(** [KINDS.has(v) ? v : 'activity']. *)
Definition normalize_kind (v : val) : kind :=
  if strict_eq (VStr (js "server")) v then server else activity.

Record game := {
  g_id : jstr;
  g_name : jstr;
  g_url : jstr;
  g_kind : kind;
  g_note : option jstr;
  g_glyph : option jstr;
}.

(** A game reference: what a chat card or a presence claim names, with no
    URL. *)
Record game_ref := {
  gr_id : jstr;
  gr_name : jstr;
  gr_kind : kind;
}.

(** ** What an activity may load *)

Definition ascii_lower (c : N) : N := if (N.leb 65 c && N.leb c 90)%bool then (c + 32)%N else c.

(** [/^https:\/\//i.test(url)]. *)
Definition https_url (url : jstr) : bool := starts_with (js "https://") (ascii_lower <$> url).

(** [/^\/[^/\\]/.test(url)]. *)
Definition rooted_path (url : jstr) : bool :=
  match url with
  | 47%N :: c :: _ => negb (N.eqb c 47) && negb (N.eqb c 92)
  | _ => false
  end.

Definition activitySrc (url : jstr) : option jstr :=
  if https_url url then Some url
  else if rooted_path url then Some url
  else None.

(** ** The registry *)

Definition normalizeGame (g : val) : res (option game) :=
  if not_an_object g then Ok None else
  let* id := clip 40 g.["id"] in
  let* name := clip_trim GAME_NAME_MAX g.["name"] in
  let* url := clip_trim GAME_URL_MAX g.["url"] in
  let k := normalize_kind g.["kind"] in
  let* note := clip_trim GAME_NOTE_MAX g.["note"] in
  let* glyph0 := text_of g.["glyph"] in
  let glyph := slice0 4 (trim glyph0) in
  if is_empty id || is_empty name || is_empty url then Ok None else
  if bool_decide (k = activity) && bool_decide (activitySrc url = None) then Ok None else
  Ok (Some {| g_id := id; g_name := name; g_url := url; g_kind := k;
              g_note := opt_text note; g_glyph := opt_text glyph |}).

Definition normalizeGames (v : val) : res (list game) :=
  let* gs := rmap normalizeGame (take GAMES_MAX (array_or_empty v)) in
  Ok (somes gs).

Definition normalizeGameRef (g : val) : res (option game_ref) :=
  if not_an_object g then Ok None else
  let* id := clip 40 g.["id"] in
  let* name := clip_trim GAME_NAME_MAX g.["name"] in
  let k := normalize_kind g.["kind"] in
  if is_empty id || is_empty name then Ok None else
  Ok (Some {| gr_id := id; gr_name := name; gr_kind := k |}).

(** ** The shelf *)

(** The accessors the hub passes in. *)
Record facts := {
  isLive : jstr -> bool;
  isFav : jstr -> bool;
  playedAt : jstr -> option num;
}.

Inductive shelf_filter := f_all | f_live | f_favorites | f_recent | f_web | f_servers.

Definition matchesFilter (g : game) (f : shelf_filter) (fs : facts) : bool :=
  match f with
  | f_live => isLive fs (g_id g)
  | f_favorites => isFav fs (g_id g)
  | f_recent => bool_decide (is_Some (playedAt fs (g_id g)))
  | f_web => bool_decide (g_kind g <> server)
  | f_servers => bool_decide (g_kind g = server)
  | f_all => true
  end.

Definition flag (b : bool) : num := if b then int 1 else Fin 0.

(** The comparator of [sortGames], on games paired with their position. *)
Definition shelf_cmp (fs : facts) (a b : game * nat) : num :=
  let live := nsub (flag (isLive fs (g_id b.1))) (flag (isLive fs (g_id a.1))) in
  if ntruthy live then live else
  let fav := nsub (flag (isFav fs (g_id b.1))) (flag (isFav fs (g_id a.1))) in
  if ntruthy fav then fav else
  let played := nsub (default (Fin 0) (playedAt fs (g_id b.1)))
                     (default (Fin 0) (playedAt fs (g_id a.1))) in
  if ntruthy played then played else
  nsub (int (Z.of_nat a.2)) (int (Z.of_nat b.2)).

Definition sortGames (games : list game) (fs : facts) : list game :=
  (sort_by (fun a b => Fin 0 <ₙ shelf_cmp fs a b) (imap (fun i g => (g, i)) games)).*1.

(** ** Presence and rallies *)

Definition PRESENCE_TTL : num := int (4 * 3600000).
Definition WANT_TTL : num := int (20 * 60000).

Record claim := {
  cl_game : option game_ref;
  cl_ts : num;
}.

(** A sane claimed timestamp, clamped to the present. *)
Definition claim_ts (ts now : num) : num :=
  if nfinite ts && (Fin 0 <ₙ ts) then nmin ts now else now.

Definition normalizePresence (p : val) (now : num) : res claim :=
  if not_an_object p then Ok {| cl_game := None; cl_ts := now |} else
  let* playing := normalizeGameRef p.["playing"] in
  let* ts := to_number p.["ts"] in
  Ok {| cl_game := playing; cl_ts := claim_ts ts now |}.

Definition fresh (ttl : num) (entry : option claim) (now : num) : option game_ref :=
  match entry with
  | Some e =>
      match cl_game e with
      | Some g => if nsub now (cl_ts e) <ₙ ttl then Some g else None
      | None => None
      end
  | None => None
  end.

Definition freshPresence (entry : option claim) (now : num) : option game_ref :=
  fresh PRESENCE_TTL entry now.

Definition normalizeWant (w : val) (now : num) : res claim :=
  if not_an_object w then Ok {| cl_game := None; cl_ts := now |} else
  let* want := normalizeGameRef w.["want"] in
  let* ts := to_number w.["ts"] in
  Ok {| cl_game := want; cl_ts := claim_ts ts now |}.

Definition freshWant (entry : option claim) (now : num) : option game_ref :=
  fresh WANT_TTL entry now.

Section shelf.
Context (fs : facts).

Definition played_units (g : game) : Z :=
  match default (Fin 0) (playedAt fs (g_id g)) with Fin z => z | _ => 0 end.

Definition played_finite (g : game) : Prop :=
  nfinite (default (Fin 0) (playedAt fs (g_id g))) = true.

(** The shelf's order as it is meant: live games, then starred ones, then the
    most recently played, then registry order. *)
Definition shelf_before (a b : game * nat) : Prop :=
  let live g := Z.b2z (isLive fs (g_id g.1)) in
  let fav g := Z.b2z (isFav fs (g_id g.1)) in
  let played g := played_units g.1 in
  live b < live a \/ live a = live b /\
  (fav b < fav a \/ fav a = fav b /\
  (played b < played a \/ played a = played b /\ (a.2 <= b.2)%nat)).

Lemma flag_int b : flag b = int (Z.b2z b).
Proof. by destruct b. Qed.

Lemma shelf_cmp_before a b :
  played_finite a.1 -> played_finite b.1 ->
  (Fin 0 <ₙ shelf_cmp fs a b) = false <-> shelf_before a b.
Proof.
  unfold played_finite, shelf_cmp, shelf_before, played_units; cbn zeta.
  destruct (default (Fin 0) (playedAt fs (g_id a.1))) as [| |pa]; cbn [nfinite]; try done.
  destruct (default (Fin 0) (playedAt fs (g_id b.1))) as [| |pb]; cbn [nfinite]; try done.
  intros _ _. rewrite !flag_int, !nsub_int_truthy, nsub_truthy.
  generalize (Z.b2z (isLive fs (g_id a.1))) (Z.b2z (isLive fs (g_id b.1)))
    (Z.b2z (isFav fs (g_id a.1))) (Z.b2z (isFav fs (g_id b.1))) (a.2) (b.2).
  intros la lb fa fb ia ib.
  destruct (Z.eqb_spec lb la); cbn [negb]; [|rewrite nsub_int_gt0; lia].
  destruct (Z.eqb_spec fb fa); cbn [negb]; [|rewrite nsub_int_gt0; lia].
  destruct (Z.eqb_spec pb pa); cbn [negb]; [|rewrite nsub_gt0; lia].
  rewrite nsub_int_gt0; lia.
Qed.

(** The shelf is a permutation of the registry in the intended order:
    live games first, then starred ones, then the most recently played, then
    registry order, which makes the order total. *)
Theorem sortGames_sorted games :
  Forall played_finite games ->
  exists p, p ≡ₚ imap (fun i g => (g, i)) games /\
            sortGames games fs = p.*1 /\ StronglySorted shelf_before p.
Proof.
  intros Hf. set (q := imap (fun i g => (g, i)) games).
  assert (Forall (fun a : game * nat => played_finite a.1) q) as Hq.
  { apply Forall_lookup. intros i x. unfold q. rewrite list_lookup_imap.
    intros (g & Hg & ->)%fmap_Some. cbn. by eapply Forall_lookup_1. }
  exists (sort_by (fun a b => Fin 0 <ₙ shelf_cmp fs a b) q).
  split_and!; [apply sort_by_perm | done |].
  eapply (sort_by_in_order _ (fun a => played_finite a.1)) in Hq as Hs.
  - eapply (in_order_impl _ (fun a => played_finite a.1)); [|by rewrite sort_by_perm|exact Hs].
    intros a b Ha Hb. by apply shelf_cmp_before.
  - intros a b Ha Hb. rewrite <- not_false_iff_true, !shelf_cmp_before by done.
    unfold shelf_before. lia.
  - intros a b c Ha Hb Hc. rewrite !shelf_cmp_before by done. unfold shelf_before. lia.
Qed.
End shelf.

(** ** Theorems *)

(** What a stored game is: bounded text, never blank, and an activity loads
    only over https or from a path of this app. *)
Record game_ok (g : game) : Prop := {
  go_id : (0 < length (g_id g) <= 40)%nat;
  go_name : (0 < length (g_name g) <= GAME_NAME_MAX)%nat;
  go_url : (0 < length (g_url g) <= GAME_URL_MAX)%nat;
  go_note : forall n, g_note g = Some n -> (0 < length n <= GAME_NOTE_MAX)%nat;
  go_glyph : forall n, g_glyph g = Some n -> (0 < length n <= 4)%nat;
  go_src : g_kind g = activity -> https_url (g_url g) = true \/ rooted_path (g_url g) = true;
}.

Lemma activitySrc_Some url s :
  activitySrc url = Some s -> s = url /\ (https_url url = true \/ rooted_path url = true).
Proof. unfold activitySrc. destruct (https_url url), (rooted_path url); naive_solver. Qed.

Lemma normalizeGame_ok v g : normalizeGame v = Ok (Some g) -> game_ok g.
Proof.
  unfold normalizeGame. intros H. case_match; [done|]. inv_ok.
  destruct (is_empty a || is_empty a0 || is_empty a1) eqn:He; inv_ok.
  rewrite !orb_false_iff in He. destruct He as [[Hi Hn] Hu].
  destruct (bool_decide _ && bool_decide _) eqn:Hs; inv_ok.
  split; cbn; eauto using nonempty_bounded with js.
  - intros n Hx. apply opt_text_Some in Hx as [-> Hx]. eauto using nonempty_bounded with js.
  - intros n Hx. apply opt_text_Some in Hx as [-> Hx]. apply nonempty_bounded; [done|].
    unfold slice0. rewrite length_take. lia.
  - intros Hk. rewrite Hk, bool_decide_true in Hs by done. cbn in Hs.
    apply bool_decide_eq_false in Hs. destruct (activitySrc a1) as [s|] eqn:E'; [|done].
    by apply activitySrc_Some in E' as [_ ?].
Qed.

Lemma normalizeGames_bounds v gs :
  normalizeGames v = Ok gs -> (length gs <= GAMES_MAX)%nat /\ Forall game_ok gs.
Proof.
  unfold normalizeGames. intros H. inv_ok. split.
  - etransitivity; [apply somes_length|]. erewrite <- rmap_length by done.
    rewrite length_take. lia.
  - eapply rmap_somes_Forall; [|done]. intros ? ?. apply normalizeGame_ok.
Qed.

Lemma claim_ts_past ts now : nfinite now = true ->
  exists t, claim_ts ts now = Fin t /\ (Fin t <=ₙ now) = true.
Proof.
  intros [n ->]%nfinite_Fin. unfold claim_ts. destruct ts as [| |t]; cbn [nfinite andb].
  1,2: exists n; rewrite nleb_Fin; split; [done|lia].
  case_match; [|exists n; rewrite nleb_Fin; split; [done|lia]].
  unfold nmin. cbn. destruct (Z.ltb_spec n t); eexists; (split; [done|]); rewrite nleb_Fin; lia.
Qed.

Lemma fresh_expires ttl c n n' t :
  0 < ttl < 2 ^ 53 -> cl_ts c = Fin t -> t <= n -> n + ttl * scale <= n' ->
  fresh (int ttl) (Some c) (Fin n') = None.
Proof.
  intros Ht Hc Hn Hn'. unfold fresh. destruct (cl_game c); [|done].
  rewrite Hc, nsub_ge_int by lia. done.
Qed.

(** A claim built from any timestamp is over [ttl] after its receipt. *)
Lemma claim_expires ttl g ts n n' :
  0 < ttl < 2 ^ 53 -> n + ttl * scale <= n' ->
  fresh (int ttl) (Some {| cl_game := g; cl_ts := claim_ts ts (Fin n) |}) (Fin n') = None.
Proof.
  intros Ht Hn. destruct (claim_ts_past ts (Fin n) eq_refl) as (t & Hc & Hle).
  rewrite nleb_Fin in Hle. eapply fresh_expires with (n := n) (t := t); cbn; [lia|done|lia|lia].
Qed.

Lemma claim_ts_now n : claim_ts NaN n = n.
Proof. done. Qed.

(** A presence claim or a rally, whatever timestamp its sender wrote on
    it, is over for a reader once four hours (twenty minutes) have passed
    since it was received: a claim from the future cannot stay up longer. *)
Theorem claims_expire v n n' :
  (forall c, normalizePresence v (Fin n) = Ok c -> n + 4 * 3600000 * scale <= n' ->
     freshPresence (Some c) (Fin n') = None) /\
  (forall c, normalizeWant v (Fin n) = Ok c -> n + 20 * 60000 * scale <= n' ->
     freshWant (Some c) (Fin n') = None).
Proof.
  split; intros c; [unfold normalizePresence, freshPresence, PRESENCE_TTL
                   |unfold normalizeWant, freshWant, WANT_TTL];
    intros H Hn'; (case_match; inv_ok; [by rewrite <- (claim_ts_now (Fin n)) at 1; apply claim_expires|]);
    apply claim_expires; lia.
Qed.

(** ** Witnesses *)

Definition shelf_payload : val :=
  VArr [jobj [("id", VStr (js "g1")); ("name", VStr (js "chess")); ("url", VStr (js "HTTPS://chess.example/"))];
        jobj [("id", VStr (js "g2")); ("name", VStr (js "bad")); ("url", VStr (js "javascript:alert(1)"))];
        jobj [("id", VStr (js "g3")); ("name", VStr (js "bad")); ("url", VStr (js "//evil.example/"))];
        jobj [("id", VStr (js "g4")); ("name", VStr (js "mine")); ("url", VStr (js "play.example:25565"));
              ("kind", VStr (js "server"))]]%string.

Definition shelf_games : list game :=
  [{| g_id := js "g1"; g_name := js "chess"; g_url := js "HTTPS://chess.example/";
      g_kind := activity; g_note := None; g_glyph := None |};
   {| g_id := js "g4"; g_name := js "mine"; g_url := js "play.example:25565";
      g_kind := server; g_note := None; g_glyph := None |}].

Definition shelf_facts : facts :=
  {| isLive := fun id => str_eqb id (js "g4"); isFav := fun _ => false;
     playedAt := fun id => if str_eqb id (js "g1") then Some (int 10) else None |}.

Lemma sortGames_sorted_witness :
  exists p, p ≡ₚ imap (fun i g => (g, i)) shelf_games /\
            sortGames shelf_games shelf_facts = p.*1 /\ StronglySorted (shelf_before shelf_facts) p.
Proof. apply (sortGames_sorted shelf_facts shelf_games). repeat constructor. Defined.

Definition future_claim : val :=
  jobj [("playing", jobj [("id", VStr (js "g1")); ("name", VStr (js "chess"))]);
        ("ts", VNum (int 9000000))]%string.

Lemma claims_expire_witness :
  freshPresence
    (Some {| cl_game := Some {| gr_id := js "g1"; gr_name := js "chess"; gr_kind := activity |};
             cl_ts := int 1000 |}) (int 14401000) = None.
Proof.
  apply (proj1 (claims_expire future_claim (1000 * scale) (14401000 * scale))).
  - vm_compute. reflexivity.
  - unfold scale. lia.
Defined.
