(* ===== verification/Overview.v ===== *)
(** * The circle's home base (client/src/lib/overview.js, glyphs of crest.js)

    The admin-edited page, the schedule of events with its legacy mirror, and
    the noticeboard, all normalized on receive. *)

From stdpp Require Import base list numbers option strings.
From Stdlib Require Import ZArith Lia Sorting.Sorted.
From S2P Require Import Prelude JsNum JsString JsValue Board Games.
Open Scope Z_scope.

Definition BLURB_MAX : nat := 4000.
Definition LINKS_MAX : nat := 12.
Definition NOTICE_MAX : nat := 500.
Definition NOTICES_MAX : nat := 30.
Definition EVENTS_MAX : nat := 12.

Definition MIN : num := int 60000.
Definition HOUR : num := int 3600000.
Definition DAY : num := int 86400000.
Definition EVENT_GRACE : num := nmul (int 6) HOUR.

(** ** Glyphs *)

Inductive glyph := people | games_glyph | photo | project.

#[global] Instance glyph_eq_dec : EqDecision glyph.
Proof. solve_decision. Defined.

Definition glyph_name (g : glyph) : jstr :=
  match g with
  | people => js "people"
  | games_glyph => js "games"
  | photo => js "photo"
  | project => js "project"
  end.

Definition CIRCLE_GLYPH_KEYS : list glyph := [people; games_glyph; photo; project].
Definition DEFAULT_GLYPH : glyph := people.

Definition normalizeGlyph (v : val) : glyph :=
  default DEFAULT_GLYPH
    (head (filter (fun g => strict_eq (VStr (glyph_name g)) v = true) CIRCLE_GLYPH_KEYS)).

(** ** Events *)

Record event := {
  ev_id : jstr;
  ev_title : jstr;
  ev_at : num;
  ev_note : option jstr;
  ev_gameId : option jstr;
}.

(** The single event an older client reads. *)
Record legacy_event := {
  le_title : jstr;
  le_at : num;
  le_note : option jstr;
}.

Definition normalizeEvent (ev : val) : res (option event) :=
  if not_an_object ev then Ok None else
  let* title := clip_trim 120 ev.["title"] in
  let* at_ := to_number ev.["at"] in
  let* note := clip_trim 280 ev.["note"] in
  if is_empty title || negb (nfinite at_) || (at_ <=ₙ Fin 0) then Ok None else
  let* id0 := clip_trim 40 ev.["id"] in
  let id := if is_empty id0 then js "e" ++ num_to_base36 (nround at_) else id0 in
  let* gameId := clip_trim 40 ev.["gameId"] in
  Ok (Some {| ev_id := id; ev_title := title; ev_at := at_;
              ev_note := opt_text note; ev_gameId := opt_text gameId |}).

(** [events.sort((a, b) => a.at - b.at)]. *)
Definition soonest_first (l : list event) : list event :=
  sort_by (fun a b => Fin 0 <ₙ nsub (ev_at a) (ev_at b)) l.

(** The loop of [normalizeEvents]; its [seen] set is the ids of [out]. *)
Fixpoint collect_events (l : list val) (out : list event) : res (list event) :=
  match l with
  | [] => Ok out
  | e :: r =>
      let* ev := normalizeEvent e in
      match ev with
      | None => collect_events r out
      | Some ev =>
          if bool_decide (ev_id ev ∈ ev_id <$> out) then collect_events r out
          else let out' := out ++ [ev] in
               if (EVENTS_MAX <=? length out')%nat then Ok out'
               else collect_events r out'
      end
  end.

Definition normalizeEvents (v : val) : res (list event) :=
  let* out := collect_events (array_or_empty v) [] in
  Ok (soonest_first out).

(** ** The page *)

Record link := { l_label : jstr; l_url : jstr }.

Record overview := {
  ov_blurb : jstr;
  ov_links : list link;
  ov_glyph : option glyph;
  ov_events : list event;  (** absent when empty *)
  ov_event : option legacy_event;
  ov_games : list game;    (** absent when empty *)
}.

Definition normalizeLink (l : val) : res link :=
  let* label := clip_trim 120 l.["label"] in
  let* url := clip_trim 2048 l.["url"] in
  Ok {| l_label := label; l_url := url |}.

Definition in_grace (now at_ : num) : bool := at_ >=ₙ nsub now EVENT_GRACE.

Definition legacyEventMirror (events : list event) (now : num) : option legacy_event :=
  let mirror e := {| le_title := ev_title e; le_at := ev_at e; le_note := ev_note e |} in
  match filter (fun e => in_grace now (ev_at e) = true) events with
  | pick :: _ => Some (mirror pick)
  | [] => mirror <$> last events
  end.

Definition normalizeOverview (ov : val) (now : num) : res (option overview) :=
  if not_an_object ov then Ok None else
  let blurb := match ov.["blurb"] with VStr s => trim (slice0 BLURB_MAX s) | _ => [] end in
  let* links0 := rmap normalizeLink (take LINKS_MAX (array_or_empty ov.["links"])) in
  let links := filter (fun l => is_empty (l_url l) = false) links0 in
  let* events := normalizeEvents
    (ov.["events"] ⁇ (if truthy ov.["event"] then VArr [ov.["event"]] else VArr [])) in
  let* games := normalizeGames ov.["games"] in
  let chosen := normalizeGlyph ov.["glyph"] in
  let glyph := if bool_decide (chosen = DEFAULT_GLYPH) then None else Some chosen in
  if is_empty blurb && bool_decide (links = []) && bool_decide (events = [])
     && bool_decide (games = []) && bool_decide (glyph = None)
  then Ok None
  else Ok (Some {| ov_blurb := blurb; ov_links := links; ov_glyph := glyph;
                   ov_events := events; ov_event := legacyEventMirror events now;
                   ov_games := games |}).

Definition upcomingEvents (o : option overview) (now : num) : list event :=
  let events :=
    match o with
    | None => []
    | Some o =>
        match ov_events o with
        | _ :: _ => ov_events o
        | [] =>
            match ov_event o with
            | Some e => [ {| ev_id := js "legacy"; ev_title := le_title e; ev_at := le_at e;
                             ev_note := le_note e; ev_gameId := None |} ]
            | None => []
            end
        end
    end in
  soonest_first (filter (fun e => in_grace now (ev_at e) = true) events).

Definition soonestEvent (o : option overview) (now : num) : option event :=
  head (upcomingEvents o now).

(** ** The noticeboard *)

Record notice := {
  n_id : jstr;
  n_text : jstr;
  n_ts : num;
  n_author : jstr;
}.

#[global] Instance notice_posted : Posted notice := {| post_id := n_id; post_ts := n_ts |}.

(** A claimed timestamp orders the board: nonsense and the future become now. *)
Definition sane_ts (ts now : num) : num :=
  if negb (nfinite ts) || (ts <=ₙ Fin 0) || (ts >ₙ nadd now MIN) then now else ts.

Definition normalizeNotice (n author : val) (now : num) : res (option notice) :=
  if not_an_object n then Ok None else
  let* id := clip 40 n.["id"] in
  let* text := clip_trim NOTICE_MAX n.["text"] in
  let* ts0 := to_number n.["ts"] in
  let ts := sane_ts ts0 now in
  if is_empty id || is_empty text then Ok None else
  let* who := text_of author in
  Ok (Some {| n_id := id; n_text := text; n_ts := ts; n_author := who |}).

Definition upsertNotice (l : option (list notice)) (n : option notice) : list notice :=
  match n with
  | None => default [] l
  | Some n => take NOTICES_MAX
                (newest_first (n :: without_id (VStr (n_id n)) (default [] l)))
  end.

Definition mergeNotices (mine : option (list notice)) (incoming : list notice) : list notice :=
  take NOTICES_MAX (newest_first (default [] mine ++ not_in_ids (default [] mine) incoming)).

Definition canRemoveNotice (n : option notice) (requester : jstr) (isAdmin : bool) : bool :=
  match n with
  | None => false
  | Some n => str_eqb requester (n_author n) || isAdmin
  end.

(** The list half of a snapshot: [notices.map(normalize).filter(Boolean)],
    newest first and cut. *)
Definition reconcileNotices (l : list val) (now : num) : res (list notice) :=
  let* ns := rmap (fun n => normalizeNotice n n.["author"] now) l in
  Ok (take NOTICES_MAX (newest_first (somes ns))).

(** ** Labels *)

Definition describeAgo (ts now : num) : jstr :=
  let d := nmax (Fin 0) (nsub now ts) in
  let say unit_ suffix := num_to_string (nround (ndiv d unit_)) ++ js suffix in
  if d <ₙ MIN then js "just now"
  else if d <ₙ nmul (int 2) HOUR then say MIN " min ago"%string
  else if d <ₙ nmul (int 2) DAY then say HOUR " h ago"%string
  else say DAY " days ago"%string.

Definition describeUntil (at_ now : num) : jstr :=
  let d := nsub at_ now in
  let say unit_ suffix := js "in " ++ num_to_string (nround (ndiv d unit_)) ++ js suffix in
  if d <=ₙ Fin 0 then
    if d >ₙ nmul (int (-6)) HOUR then js "now" else describeAgo at_ now
  else if d <ₙ MIN then js "in under a minute"
  else if d <ₙ nmul (int 2) HOUR then say MIN " min"%string
  else if d <ₙ nmul (int 2) DAY then say HOUR " h"%string
  else say DAY " days"%string.

Definition describeCallLength (since now : num) : jstr :=
  let d := nmax (Fin 0) (nsub now since) in
  if d <ₙ MIN then js "just now"
  else if d <ₙ nmul (int 2) HOUR then num_to_string (nfloor (ndiv d MIN)) ++ js " min"
  else num_to_string (nfloor (ndiv d HOUR)) ++ js " h "
       ++ num_to_string (nfloor (ndiv (nrem d HOUR) MIN)) ++ js " min".

(** ** The schedule *)

Record event_ok (e : event) : Prop := {
  eo_id : ev_id e <> [];
  eo_title : (0 < length (ev_title e) <= 120)%nat;
  eo_at : exists z, ev_at e = Fin z /\ 0 < z;
  eo_note : forall n, ev_note e = Some n -> (0 < length n <= 280)%nat;
  eo_game : forall n, ev_gameId e = Some n -> (0 < length n <= 40)%nat;
}.

(** No later than. *)
Definition sooner (a b : event) : Prop := (ev_at a <=ₙ ev_at b) = true.

Lemma normalizeEvent_ok v e : normalizeEvent v = Ok (Some e) -> event_ok e.
Proof.
  unfold normalizeEvent. intros H. case_match; [done|]. inv_ok.
  destruct (is_empty a || _ || _) eqn:Hv; inv_ok.
  rewrite !orb_false_iff in Hv. destruct Hv as [[Ht Hf] Hp].
  apply negb_false_iff, nfinite_Fin in Hf as [z ->]. rewrite nleb_Fin in Hp.
  inv_ok. split; cbn -[opt_text].
  - case_match; [by cbn | by apply is_empty_false].
  - eauto using nonempty_bounded with js.
  - exists z. split; [done|lia].
  - intros n [-> Hn]%opt_text_Some. eauto using nonempty_bounded with js.
  - intros n [-> Hn]%opt_text_Some. eauto using nonempty_bounded with js.
Qed.

Lemma collect_events_ok l out r :
  collect_events l out = Ok r -> Forall event_ok out -> NoDup (ev_id <$> out) ->
  (length out < EVENTS_MAX)%nat ->
  Forall event_ok r /\ NoDup (ev_id <$> r) /\ (length r <= EVENTS_MAX)%nat.
Proof.
  revert out. induction l as [|v l IH]; intros out; cbn [collect_events]; intros H Hok Hnd Hlen.
  { inv_ok. split_and!; [done..|lia]. }
  inv_ok. destruct a as [e|]; [|by eapply IH]. apply normalizeEvent_ok in E.
  case_bool_decide; [by eapply IH|].
  assert (Forall event_ok (out ++ [e])) by (apply Forall_app; auto).
  assert (NoDup (ev_id <$> out ++ [e])).
  { rewrite fmap_app. by apply NoDup_snoc. }
  pose proof (length_app out [e]) as Hl. cbn in Hl.
  destruct (EVENTS_MAX <=? _)%nat eqn:Hc; inv_ok; [split_and!; [done..|lia]|].
  eapply IH; eauto. apply Nat.leb_gt. exact Hc.
Qed.

Lemma soonest_first_sorted l : Forall event_ok l -> StronglySorted sooner (soonest_first l).
Proof.
  intros Hl. set (P e := nfinite (ev_at e) = true).
  assert (Forall P l) as HP.
  { eapply Forall_impl; [exact Hl|]. intros e [_ _ (z & Hz & _) _ _]. unfold P. by rewrite Hz. }
  assert (forall a b, P a -> P b -> exists x y, ev_at a = Fin x /\ ev_at b = Fin y) as Hfin.
  { intros a b [x Hx]%nfinite_Fin [y Hy]%nfinite_Fin. eauto. }
  eapply (in_order_impl _ P); [|unfold soonest_first; by rewrite sort_by_perm|apply sort_by_in_order with (P := P); [..|done]].
  - intros a b Ha Hb. destruct (Hfin a b Ha Hb) as (x & y & Hx & Hy).
    rewrite Hx, Hy, nsub_gt0. unfold sooner. rewrite Hx, Hy, nleb_Fin. lia.
  - intros a b Ha Hb. destruct (Hfin a b Ha Hb) as (x & y & -> & ->). rewrite !nsub_gt0. lia.
  - intros a b c Ha Hb [z Hz]%nfinite_Fin. destruct (Hfin a b Ha Hb) as (x & y & -> & ->).
    rewrite Hz, !nsub_gt0. lia.
Qed.

(** The schedule an overview keeps. *)
Record schedule_ok (l : list event) : Prop := {
  so_events : Forall event_ok l;
  so_ids : NoDup (ev_id <$> l);
  so_len : (length l <= EVENTS_MAX)%nat;
  so_sorted : StronglySorted sooner l;
}.

Lemma normalizeEvents_ok v l : normalizeEvents v = Ok l -> schedule_ok l.
Proof.
  unfold normalizeEvents. intros H. inv_ok.
  destruct (collect_events_ok _ _ _ E) as (Hok & Hnd & Hlen); try done.
  { constructor. } { unfold EVENTS_MAX; cbn; lia. }
  split; [unfold soonest_first; by rewrite sort_by_perm | | |by apply soonest_first_sorted].
  - unfold soonest_first. by rewrite sort_by_perm.
  - unfold soonest_first. by rewrite sort_by_length.
Qed.

(** Sorting a sorted schedule changes nothing. *)
Lemma soonest_first_id l :
  Forall event_ok l -> StronglySorted sooner l -> soonest_first l = l.
Proof.
  intros Hok Hs. apply sort_by_id. unfold in_order. revert Hok.
  induction Hs as [|a l Hs IH Ha]; intros Hok; constructor; apply Forall_cons in Hok as [H1 H2]; [auto|].
  rewrite Forall_forall in Ha, H2 |- *. intros b Hb. specialize (Ha b Hb). destruct (H2 b Hb) as [_ _ (y & Hy & _) _ _].
  destruct H1 as [_ _ (x & Hx & _) _ _]. unfold sooner in Ha. rewrite Hx, Hy in *.
  rewrite nleb_Fin in Ha. rewrite nsub_gt0. lia.
Qed.

(** ** The page *)

Record page_ok (o : overview) : Prop := {
  pg_blurb : (length (ov_blurb o) <= BLURB_MAX)%nat;
  pg_links : (length (ov_links o) <= LINKS_MAX)%nat /\
    Forall (fun l => (length (l_label l) <= 120)%nat /\ (0 < length (l_url l) <= 2048)%nat) (ov_links o);
  pg_events : schedule_ok (ov_events o);
  pg_games : (length (ov_games o) <= GAMES_MAX)%nat /\ Forall game_ok (ov_games o);
  pg_glyph : ov_glyph o <> Some DEFAULT_GLYPH;
}.

Lemma normalizeOverview_inv v now o :
  normalizeOverview v now = Ok (Some o) ->
  exists links0 ev,
    ov_links o = filter (fun l => is_empty (l_url l) = false) links0 /\
    rmap normalizeLink (take LINKS_MAX (array_or_empty v.["links"])) = Ok links0 /\
    normalizeEvents ev = Ok (ov_events o) /\ normalizeGames v.["games"] = Ok (ov_games o) /\
    ov_event o = legacyEventMirror (ov_events o) now /\
    (length (ov_blurb o) <= BLURB_MAX)%nat /\ ov_glyph o <> Some DEFAULT_GLYPH.
Proof.
  unfold normalizeOverview. intros H. case_match; [done|]. inv_ok.
  destruct (_ && _); inv_ok. cbn. do 2 eexists. split_and!; try done.
  - destruct (v.["blurb"]); cbn; try lia. etransitivity; [apply trim_length|].
    unfold slice0. rewrite length_take. lia.
  - case_bool_decide; [done|]. congruence.
Qed.

Lemma normalizeLink_bounds v l :
  normalizeLink v = Ok l -> (length (l_label l) <= 120)%nat /\ (length (l_url l) <= 2048)%nat.
Proof. unfold normalizeLink. intros H. inv_ok. split; eapply clip_trim_length; eassumption. Qed.

(** The two ways an event is read, reduced to what both carry. *)
Definition seen_event (e : event) : jstr * num * option jstr := (ev_title e, ev_at e, ev_note e).

Lemma filter_sorted (P : event -> Prop) `{!forall x, Decision (P x)} l :
  StronglySorted sooner l -> StronglySorted sooner (filter P l).
Proof.
  intros Hs. induction Hs as [|x l Hs IH Hx]; [constructor|].
  rewrite filter_cons. case_decide; [|done]. constructor; [done|]. by apply Forall_filter.
Qed.

Lemma soonest_first_singleton e : soonest_first [e] = [e].
Proof. done. Qed.

(** Whatever value arrives as the home base, what is stored is within
    bounds: the blurb, at most [LINKS_MAX] links with an address, at most
    [EVENTS_MAX] events with distinct ids in order of time, and only games
    that are safe to load. *)
Theorem normalizeOverview_bounded v now o :
  normalizeOverview v now = Ok (Some o) -> page_ok o.
Proof.
  intros (links0 & ev & Hl & Hl0 & He & Hg & _ & Hb & Hgl)%normalizeOverview_inv.
  split; [done| | |by apply normalizeGames_bounds in Hg|done].
  - rewrite Hl. split.
    + etransitivity; [apply length_filter|]. erewrite <- rmap_length by done. rewrite length_take. lia.
    + apply Forall_forall. intros l [Hu Hin]%list_elem_of_filter.
      apply rmap_Ok_Forall2 in Hl0. apply list_elem_of_lookup in Hin as [i Hi].
      destruct (Forall2_lookup_r _ _ _ _ _ Hl0 Hi) as (x & _ & Hx).
      apply normalizeLink_bounds in Hx as [? ?]. split; [done|]. by apply nonempty_bounded.
  - by eapply normalizeEvents_ok.
Qed.

(** An old client, which reads only the single mirrored event, and a
    current one, which reads the schedule, name the same next event at the
    moment the page is written, or both name none. *)
Theorem legacy_mirror_agrees v now o :
  normalizeOverview v now = Ok (Some o) ->
  seen_event <$> soonestEvent (Some o) now =
  seen_event <$> soonestEvent
    (Some {| ov_blurb := ov_blurb o; ov_links := ov_links o; ov_glyph := ov_glyph o;
             ov_events := []; ov_event := ov_event o; ov_games := ov_games o |}) now.
Proof.
  intros (links0 & ev & _ & _ & He & _ & Hm & _)%normalizeOverview_inv.
  apply normalizeEvents_ok in He as [Hok _ _ Hs].
  unfold soonestEvent, upcomingEvents; cbn [ov_events ov_event]. rewrite !Hm. clear Hm.
  destruct (ov_events o) as [|e0 es]; [done|].
  revert Hok Hs. generalize (e0 :: es) as l. intros l Hok Hs.
  rewrite (soonest_first_id (filter _ l)) by (by apply Forall_filter || by apply filter_sorted).
  unfold legacyEventMirror.
  destruct (filter _ l) as [|p ps] eqn:Hf.
  - destruct (last l) as [z|] eqn:Hz; [|done]. cbn -[filter]. rewrite filter_cons.
    apply last_Some_elem_of in Hz. cbn. rewrite decide_False; [done|]. intros Hg.
    exact (filter_nil_not_elem_of _ l z Hf Hg Hz).
  - cbn -[filter]. rewrite filter_cons. cbn.
    assert (p ∈ filter (fun e => in_grace now (ev_at e) = true) l) as Hp by (rewrite Hf; by left).
    apply list_elem_of_filter in Hp as [Hp _]. by rewrite decide_True.
Qed.

(** ** The board *)

Record notice_ok (now : num) (n : notice) : Prop := {
  no_id : (0 < length (n_id n) <= 40)%nat;
  no_text : (0 < length (n_text n) <= NOTICE_MAX)%nat;
  no_ts : nfinite (n_ts n) = true;
  no_future : (n_ts n <=ₙ nadd now MIN) = true \/ n_ts n = now;
}.

Lemma sane_ts_finite ts now : nfinite now = true -> nfinite (sane_ts ts now) = true.
Proof.
  unfold sane_ts; intros H. destruct (_ || _) eqn:E; [done|].
  repeat apply orb_false_iff in E as [E _]. by apply negb_false_iff in E.
Qed.

Lemma nle_total a b : nfinite a = true -> b <> NaN -> (b <ₙ a) = false -> (a <=ₙ b) = true.
Proof.
  intros [x ->]%nfinite_Fin Hb. destruct b as [|[]|y]; cbn; try done.
  rewrite nleb_Fin. lia.
Qed.

Lemma nadd_not_nan a b : nfinite a = true -> nfinite b = true -> nadd a b <> NaN.
Proof.
  intros [x ->]%nfinite_Fin [y ->]%nfinite_Fin. cbn. unfold round_rat. by case_match.
Qed.

Lemma sane_ts_not_future ts now :
  nfinite now = true -> (sane_ts ts now <=ₙ nadd now MIN) = true \/ sane_ts ts now = now.
Proof.
  intros Hn. unfold sane_ts. destruct (_ || _ || _) eqn:E; [by right|left].
  rewrite !orb_false_iff in E. destruct E as [[Hf _] Hlt]. apply negb_false_iff in Hf.
  apply nle_total; [done| |done]. by apply nadd_not_nan.
Qed.

Lemma normalizeNotice_ok n author now x :
  nfinite now = true -> normalizeNotice n author now = Ok (Some x) -> notice_ok now x.
Proof.
  intros Hnow. unfold normalizeNotice. intros H. case_match; [done|]. inv_ok.
  destruct (is_empty _ || is_empty _) eqn:He; inv_ok. apply orb_false_iff in He as [? ?].
  split; cbn -[sane_ts]; eauto using nonempty_bounded, sane_ts_finite, sane_ts_not_future with js.
Qed.

(** Pinning a normalized notice, unpinning one and merging another
    member's board keep a noticeboard well formed (distinct ids, newest first,
    at most [NOTICES_MAX] long), and a pin is the only notice under its id. *)
Theorem noticeboard_preserved l incoming payload author now n id :
  board_ok NOTICES_MAX l -> board_ok NOTICES_MAX incoming -> nfinite now = true ->
  normalizeNotice payload author now = Ok (Some n) ->
  board_ok NOTICES_MAX (upsertNotice (Some l) (Some n)) /\
  (forall x, x ∈ upsertNotice (Some l) (Some n) -> n_id x = n_id n -> x = n) /\
  board_ok NOTICES_MAX (without_id id l) /\
  board_ok NOTICES_MAX (mergeNotices (Some l) incoming).
Proof.
  intros Hl Hi Hnow Hn%normalizeNotice_ok; [|done]. split_and!.
  - change (board_ok NOTICES_MAX (put_first NOTICES_MAX n l)).
    by eapply put_first_ok; [|apply Hn].
  - intros x [->|Hx]%elem_of_cut%elem_of_cons Hid; [done|].
    apply elem_of_without_id in Hx as [_ Hx]. cbn in Hx. congruence.
  - by apply board_ok_filter.
  - change (board_ok NOTICES_MAX (union_first NOTICES_MAX l incoming)).
    by eapply union_first_ok.
Qed.

(** Two members whose boards agree on the notices they share, no two
    notices of one instant, end with the same board whichever of them merges
    the other's. *)
Theorem mergeNotices_converges l1 l2 :
  board_ok NOTICES_MAX l1 -> board_ok NOTICES_MAX l2 ->
  (forall x y, x ∈ l1 -> y ∈ l2 -> n_id x = n_id y -> x = y) ->
  (forall x y, x ∈ l1 ++ l2 -> y ∈ l1 ++ l2 -> n_ts x = n_ts y -> x = y) ->
  mergeNotices (Some l1) l2 = mergeNotices (Some l2) l1.
Proof. exact (union_first_comm (A := notice) NOTICES_MAX _ _ l1 l2). Qed.

(** ** Witnesses *)

Definition page_payload : val :=
  jobj [("blurb", VStr (js "  hello  "));
        ("links", VArr [jobj [("label", VStr (js "map")); ("url", VStr (js "https://map.example"))];
                        jobj [("label", VStr (js "empty"))]]);
        ("events", VArr [jobj [("id", VStr (js "e2")); ("title", VStr (js "late")); ("at", VNum (int 900))];
                         jobj [("id", VStr (js "e1")); ("title", VStr (js "early")); ("at", VStr (js "500"))];
                         jobj [("id", VStr (js "e2")); ("title", VStr (js "again")); ("at", VNum (int 1))]])]%string.

Definition page : overview :=
  {| ov_blurb := js "hello";
     ov_links := [{| l_label := js "map"; l_url := js "https://map.example" |}];
     ov_glyph := None;
     ov_events :=
       [{| ev_id := js "e1"; ev_title := js "early"; ev_at := int 500; ev_note := None; ev_gameId := None |};
        {| ev_id := js "e2"; ev_title := js "late"; ev_at := int 900; ev_note := None; ev_gameId := None |}];
     ov_event := Some {| le_title := js "early"; le_at := int 500; le_note := None |};
     ov_games := [] |}.

Lemma normalizeOverview_bounded_witness :
  normalizeOverview page_payload (int 1000) = Ok (Some page) /\ page_ok page.
Proof.
  assert (normalizeOverview page_payload (int 1000) = Ok (Some page)) as E by (vm_compute; reflexivity).
  split; [exact E|]. exact (normalizeOverview_bounded page_payload (int 1000) page E).
Defined.

Lemma legacy_mirror_agrees_witness :
  seen_event <$> soonestEvent (Some page) (int 1000) =
  seen_event <$> soonestEvent
    (Some {| ov_blurb := ov_blurb page; ov_links := ov_links page; ov_glyph := ov_glyph page;
             ov_events := []; ov_event := ov_event page; ov_games := ov_games page |}) (int 1000).
Proof. apply (legacy_mirror_agrees page_payload (int 1000) page). vm_compute. reflexivity. Defined.

Definition note_at (id : string) (t : Z) : notice :=
  {| n_id := js id; n_text := js "start 8:40"; n_ts := int t; n_author := js "alice" |}.

Lemma note_board_ok id t : board_ok NOTICES_MAX [note_at id t].
Proof.
  split; [apply NoDup_singleton | by repeat constructor | by repeat constructor |].
  unfold NOTICES_MAX; cbn; lia.
Qed.

Definition pin_payload : val :=
  jobj [("id", VStr (js "n2")); ("text", VStr (js "start 8:40")); ("ts", VNum (int 70))]%string.

Lemma noticeboard_preserved_witness :
  board_ok NOTICES_MAX (upsertNotice (Some [note_at "n1" 50]) (Some (note_at "n2" 70))) /\
  upsertNotice (Some [note_at "n1" 50]) (Some (note_at "n2" 70)) = [note_at "n2" 70; note_at "n1" 50].
Proof.
  split; [|vm_compute; reflexivity].
  apply (noticeboard_preserved [note_at "n1" 50] [note_at "n1" 50] pin_payload
           (VStr (js "alice")) (int 1000) (note_at "n2" 70) VNull);
    [apply note_board_ok | apply note_board_ok | reflexivity | vm_compute; reflexivity].
Defined.

Lemma mergeNotices_converges_witness :
  mergeNotices (Some [note_at "n1" 50]) [note_at "n2" 70] =
  mergeNotices (Some [note_at "n2" 70]) [note_at "n1" 50].
Proof.
  apply (mergeNotices_converges [note_at "n1" 50] [note_at "n2" 70]); try apply note_board_ok.
  - intros x y ->%list_elem_of_singleton ->%list_elem_of_singleton. discriminate.
  - intros x y Hx Hy. cbn in Hx, Hy. rewrite !elem_of_cons, elem_of_nil in Hx, Hy.
    destruct Hx as [->|[->|[]]], Hy as [->|[->|[]]]; try done; intros Ht%int_inj; discriminate.
Defined.
