(* ===== verification/Offers.v ===== *)
(** * Lifts and kit (client/src/lib/offers.js)

    The board of offers: a line, posted by a member, sometimes with a limited
    number of seats that others take. *)

From stdpp Require Import base list numbers option strings.
From Stdlib Require Import ZArith Lia Sorting.Sorted.
From S2P Require Import Prelude JsNum JsString JsValue Board Games Overview.
Open Scope Z_scope.

Definition OFFER_MAX : nat := 200.
Definition OFFERS_MAX : nat := 24.
Definition SEATS_MAX : Z := 32.

Record offer := {
  o_id : jstr;
  o_text : jstr;
  o_note : option jstr;
  o_seats : num;
  o_ts : num;
  o_author : jstr;
  o_takers : option (list jstr);  (** absent in a record older than seats *)
}.

#[global] Instance offer_posted : Posted offer := {| post_id := o_id; post_ts := o_ts |}.

(** [o.takers ?? []]. *)
Definition takers (o : offer) : list jstr := default [] (o_takers o).

Definition set_takers (o : offer) (t : list jstr) : offer :=
  {| o_id := o_id o; o_text := o_text o; o_note := o_note o; o_seats := o_seats o;
     o_ts := o_ts o; o_author := o_author o; o_takers := Some t |}.

Definition clamp_seats (s : num) : num :=
  let s' := if negb (nfinite s) || (s <ₙ Fin 0) then Fin 0 else s in
  nmin (int SEATS_MAX) (nfloor s').

Definition normalizeOffer (o author : val) (now : num) : res (option offer) :=
  if not_an_object o then Ok None else
  let* id := clip 40 o.["id"] in
  let* text := clip_trim OFFER_MAX o.["text"] in
  let* note := clip_trim OFFER_MAX o.["note"] in
  let* seats0 := to_number o.["seats"] in
  let seats := clamp_seats seats0 in
  let* ts0 := to_number o.["ts"] in
  let ts := sane_ts ts0 now in
  if is_empty id || is_empty text then Ok None else
  let* who := text_of author in
  Ok (Some {| o_id := id; o_text := text; o_note := opt_text note; o_seats := seats;
              o_ts := ts; o_author := who; o_takers := Some [] |}).

Definition upsertOffer (l : option (list offer)) (o : option offer) : list offer :=
  match o with
  | None => default [] l
  | Some o =>
      let kept := match find_id (VStr (o_id o)) (default [] l) with
                  | Some prior => set_takers o (takers prior)
                  | None => o
                  end in
      take OFFERS_MAX (newest_first (kept :: without_id (VStr (o_id o)) (default [] l)))
  end.

Definition seatsLeft (o : offer) : option num :=
  if ntruthy (o_seats o)
  then Some (nmax (Fin 0) (nsub (o_seats o) (int (Z.of_nat (length (takers o))))))
  else None.

(** One line of [applyTake]'s map. *)
Definition take_seat (id : val) (who : jstr) (taking : bool) (o : offer) : offer :=
  if negb (strict_eq (VStr (o_id o)) id) then o else
  let ts := takers o in
  if negb taking then set_takers o (filter (fun t => t <> who) ts) else
  if bool_decide (who ∈ ts) then o else
  if negb (ntruthy (o_seats o)) || (int (Z.of_nat (length ts)) >=ₙ o_seats o) then o else
  set_takers o (ts ++ [who]).

Definition applyTake (l : option (list offer)) (id : val) (who : jstr) (taking : bool) : list offer :=
  take_seat id who taking <$> default [] l.

Definition canRemoveOffer (o : option offer) (requester : jstr) (isAdmin : bool) : bool :=
  match o with
  | None => false
  | Some o => str_eqb (o_author o) requester || isAdmin
  end.

Definition mergeOffers (mine : option (list offer)) (incoming : list offer) : list offer :=
  take OFFERS_MAX (newest_first (default [] mine ++ not_in_ids (default [] mine) incoming)).

(** First occurrences, in order: [[...new Set(l)]] on strings. *)
Definition dedup_str (l : list jstr) : list jstr :=
  fold_left (fun acc x => if bool_decide (x ∈ acc) then acc else acc ++ [x]) l [].

(** [l.slice(0, n)] for a number [n] that is a non-negative integer. *)
Definition slice_num {A} (l : list A) (n : num) : list A :=
  match n with
  | Fin z => take (Z.to_nat (z / scale)) l
  | Inf false => l
  | _ => []
  end.

Definition normalizeOffersItem (now : num) (o : val) : res (option offer) :=
  let* base := normalizeOffer o o.["author"] now in
  match base with
  | None => Ok None
  | Some base =>
      let* names := rmap to_string (array_or_empty o.["takers"]) in
      let ts := filter (fun t => is_empty t = false)
                  (take (Z.to_nat SEATS_MAX) (dedup_str names)) in
      Ok (Some (set_takers base
            (if ntruthy (o_seats base) then slice_num ts (o_seats base) else [])))
  end.

Definition normalizeOffers (v : val) (now : num) : res (list offer) :=
  let* os := rmap (normalizeOffersItem now) (array_or_empty v) in
  Ok (take OFFERS_MAX (newest_first (somes os))).

(** ** Theorems *)

(** An offer's seats are an integer from 0 to the maximum; nobody sits twice. *)
Record offer_ok (o : offer) : Prop := {
  of_seats : exists n, o_seats o = int n /\ 0 <= n <= SEATS_MAX;
  of_nodup : NoDup (takers o);
  of_ts : nfinite (o_ts o) = true;
}.

(** No more takers than seats. *)
Definition not_overfull (o : offer) : Prop :=
  forall n, o_seats o = int n -> Z.of_nat (length (takers o)) <= Z.max 0 n.

Lemma clamp_seats_int s : exists n, clamp_seats s = int n /\ 0 <= n <= SEATS_MAX.
Proof.
  pose proof scale_pos as Hs. unfold clamp_seats.
  assert (exists n, nmin (int SEATS_MAX) (nfloor (Fin 0)) = int n /\ 0 <= n <= SEATS_MAX) as H0.
  { exists 0. split; [vm_compute; reflexivity | unfold SEATS_MAX; lia]. }
  destruct s as [|neg|z]; [exact H0 | exact H0 |].
  cbn [nfinite negb orb nltb]. destruct (Z.ltb_spec z 0) as [H|H]; [exact H0|].
  cbn [nfloor]. assert (0 <= z / scale) by (apply Z.div_pos; lia).
  unfold nmin, int; cbn [nltb].
  destruct (Z.ltb_spec (z / scale * scale) (SEATS_MAX * scale)).
  - exists (z / scale). split; [done|]. nia.
  - exists SEATS_MAX. split; [done|]. unfold SEATS_MAX; lia.
Qed.

Lemma dedup_str_NoDup_aux (l acc : list jstr) :
  NoDup acc -> NoDup (fold_left (fun acc x => if bool_decide (x ∈ acc) then acc else acc ++ [x]) l acc).
Proof.
  revert acc; induction l as [|x l IH]; intros acc Hn; cbn; [done|].
  apply IH. case_bool_decide; [done|].
  apply NoDup_app. split; [done|]. split; [|apply NoDup_singleton].
  intros y Hy ->%list_elem_of_singleton. done.
Qed.

Lemma dedup_str_NoDup l : NoDup (dedup_str l).
Proof. apply dedup_str_NoDup_aux, NoDup_nil_2. Qed.

Lemma normalizeOffer_ok o author now x :
  nfinite now = true -> normalizeOffer o author now = Ok (Some x) ->
  offer_ok x /\ takers x = [].
Proof.
  intros Hnow; unfold normalizeOffer; intros H. case_match; [done|]. inv_ok.
  destruct (is_empty _ || is_empty _); inv_ok. split; [|done].
  split; cbn; [apply clamp_seats_int | apply NoDup_nil_2 | by apply sane_ts_finite].
Qed.

(** Taking a seat keeps an offer well formed and never adds a taker past the
    last seat. *)
Lemma take_seat_ok id who taking o :
  offer_ok o -> offer_ok (take_seat id who taking o).
Proof.
  intros [Hs Hn Ht]. unfold take_seat. repeat case_match; try done; split; try done.
  - cbn. by apply NoDup_filter.
  - cbn. apply NoDup_app. split; [done|]. split; [|apply NoDup_singleton].
    intros y Hy ->%list_elem_of_singleton. by case_bool_decide.
Qed.

Lemma take_seat_not_overfull id who taking o :
  offer_ok o -> not_overfull o -> not_overfull (take_seat id who taking o).
Proof.
  intros [(n & Hn & Hb) _ _] Ho. unfold take_seat.
  destruct (negb (strict_eq _ _)); [done|]. destruct (negb taking).
  { intros m Hm; cbn in *. specialize (Ho m Hm).
    pose proof (length_filter (fun t => t <> who) (takers o)). lia. }
  case_bool_decide; [done|]. rewrite Hn, nleb_int.
  destruct (negb (ntruthy (int n)) || _) eqn:E; [done|].
  apply orb_false_iff in E as [_ E%Z.leb_gt].
  intros m Hm; cbn in Hm |- *. rewrite Hn in Hm. apply int_inj in Hm as <-.
  unfold takers; cbn. rewrite length_app; cbn. unfold takers in E. lia.
Qed.

Lemma applyTake_posts l id who taking :
  board_ok OFFERS_MAX l -> board_ok OFFERS_MAX (applyTake (Some l) id who taking).
Proof.
  apply board_ok_map; intros o; unfold take_seat; cbn; by repeat case_match.
Qed.

(** Taking or leaving a seat, by anyone and under any id, keeps the board
    (distinct ids, newest first, capped), keeps every offer well formed
    (nobody sits twice, seats an integer up to the maximum), and puts nobody
    on an offer that has no seat left. *)
Theorem applyTake_preserves l id who taking :
  board_ok OFFERS_MAX l -> Forall offer_ok l -> Forall not_overfull l ->
  board_ok OFFERS_MAX (applyTake (Some l) id who taking) /\
  Forall offer_ok (applyTake (Some l) id who taking) /\
  Forall not_overfull (applyTake (Some l) id who taking).
Proof.
  intros Hb Hok Hfull. split; [by apply applyTake_posts|].
  unfold applyTake; cbn [default]. rewrite !Forall_fmap. split.
  - eapply Forall_impl; [exact Hok|]. intros o. apply take_seat_ok.
  - rewrite Forall_forall in *. intros o Ho. apply take_seat_not_overfull; auto.
Qed.

(** *** The race for the last seat *)

(** Everyone in [ws] asks for a seat, in that order. *)
Definition all_take (id : jstr) (ws : list jstr) (l : list offer) : list offer :=
  fold_left (fun l w => applyTake (Some l) (VStr id) w true) ws l.

Lemma all_take_snoc id ws w l :
  all_take id (ws ++ [w]) l = take_seat (VStr id) w true <$> all_take id ws l.
Proof. unfold all_take. by rewrite fold_left_app. Qed.

Lemma dedup_str_snoc ws w :
  dedup_str (ws ++ [w]) = if bool_decide (w ∈ dedup_str ws) then dedup_str ws else dedup_str ws ++ [w].
Proof. unfold dedup_str. by rewrite fold_left_app. Qed.

Lemma take_seat_other id w b o : o_id o <> id -> take_seat (VStr id) w b o = o.
Proof. intros Hid. unfold take_seat. cbn. by rewrite (proj2 (str_eqb_neq _ _) Hid). Qed.

Lemma take_seat_first_come ws w o n :
  o_seats o = int n -> 0 < n -> takers o = take (Z.to_nat n) (dedup_str ws) ->
  takers (take_seat (VStr (o_id o)) w true o) = take (Z.to_nat n) (dedup_str (ws ++ [w])).
Proof.
  intros Hs Hn Ht. unfold take_seat. cbn [strict_eq]. rewrite str_eqb_refl. cbn [negb].
  rewrite dedup_str_snoc, Ht, Hs, nleb_int.
  assert (ntruthy (int n) = true) as ->.
  { unfold int; cbn. pose proof scale_pos. apply negb_true_iff, Z.eqb_neq. nia. }
  cbn [negb orb]. rewrite length_take.
  destruct (bool_decide (w ∈ take _ _)) eqn:Hin.
  - rewrite bool_decide_true; [done|]. apply bool_decide_eq_true in Hin.
    by eapply elem_of_take in Hin as (i & Hi & _); eapply list_elem_of_lookup_2.
  - destruct (Z.leb_spec n (Z.of_nat (Z.to_nat n `min` length (dedup_str ws)))) as [Hfull|Hfull].
    + rewrite Ht. destruct (bool_decide (w ∈ dedup_str ws)); [done|].
      by rewrite take_app_le by lia.
    + rewrite bool_decide_false.
      * rewrite !take_ge by (rewrite ?length_app; cbn; lia). done.
      * apply bool_decide_eq_false in Hin. by rewrite take_ge in Hin by lia.
Qed.

Lemma take_seat_keeps id w b o :
  o_id (take_seat id w b o) = o_id o /\ o_seats (take_seat id w b o) = o_seats o.
Proof. unfold take_seat. by repeat case_match. Qed.

(** Seats go to the first that ask: after any sequence of members take a
    seat on an offer that had nobody, its takers are the first [n] distinct
    names of that sequence, [n] its seats, and no other offer changes. *)
Theorem seats_first_come l i o n ws :
  l !! i = Some o -> takers o = [] -> o_seats o = int n -> 0 < n ->
  (exists o', all_take (o_id o) ws l !! i = Some o' /\
     takers o' = take (Z.to_nat n) (dedup_str ws)) /\
  (forall j x, l !! j = Some x -> o_id x <> o_id o -> all_take (o_id o) ws l !! j = Some x).
Proof.
  intros Hi Ht Hs Hn. split.
  - assert (exists o', all_take (o_id o) ws l !! i = Some o' /\ o_id o' = o_id o /\
      o_seats o' = int n /\ takers o' = take (Z.to_nat n) (dedup_str ws)) as (o' & ? & _ & _ & ?); [|eauto].
    induction ws as [|w ws IH] using rev_ind.
    { exists o. cbn. by rewrite take_nil. }
    destruct IH as (o' & Ho' & Hid & Hso & Hto). rewrite all_take_snoc.
    exists (take_seat (VStr (o_id o)) w true o').
    rewrite list_lookup_fmap, Ho'. destruct (take_seat_keeps (VStr (o_id o)) w true o') as [-> ->].
    split_and!; try done. rewrite <- Hid. by apply take_seat_first_come.
  - intros j x Hj Hx. induction ws as [|w ws IH] using rev_ind; [done|].
    rewrite all_take_snoc, list_lookup_fmap, IH. cbn. by rewrite take_seat_other.
Qed.

(** A rebroadcast offer is well formed and holds no more takers than seats. *)
Lemma normalizeOffersItem_ok now v o :
  nfinite now = true -> normalizeOffersItem now v = Ok (Some o) -> offer_ok o /\ not_overfull o.
Proof.
  intros Hnow. unfold normalizeOffersItem. intros H. inv_ok. destruct a as [base|]; [|done].
  inv_ok. apply normalizeOffer_ok in E as [[(n & Hn & Hb) _ Ht] _]; [|done].
  assert (NoDup (filter (fun t => is_empty t = false)
            (take (Z.to_nat SEATS_MAX) (dedup_str a)))) as Hnd.
  { apply NoDup_filter. eapply sublist_NoDup; [apply dedup_str_NoDup|apply sublist_take]. }
  rewrite Hn. unfold slice_num, int. cbn [ntruthy]. pose proof scale_pos as Hsc.
  destruct (Z.eqb_spec (n * scale) 0) as [Hz|Hz]; cbn [negb].
  - split; [split; cbn; [eauto|constructor|done]|].
    intros m Hm; cbn. lia.
  - rewrite Z.div_mul by lia. split; [split; cbn -[take filter]; [eauto| |done]|].
    + eapply sublist_NoDup; [exact Hnd|apply sublist_take].
    + intros m Hm; cbn -[take filter] in *. rewrite Hn in Hm. apply int_inj in Hm as <-.
      unfold takers; cbn -[take filter]. rewrite length_take. lia.
Qed.

(** C40: whatever list of offers a rebroadcast carries, what is read from it is
    at most [OFFERS_MAX] offers, newest first, each with an integral number of
    seats up to the maximum, no taker twice and no more takers than seats. *)
Theorem normalizeOffers_safe v now l :
  nfinite now = true -> normalizeOffers v now = Ok l ->
  (length l <= OFFERS_MAX)%nat /\ Forall offer_ok l /\ Forall not_overfull l /\
  StronglySorted no_later l.
Proof.
  intros Hnow. unfold normalizeOffers. intros H. inv_ok.
  assert (Forall (fun o => offer_ok o /\ not_overfull o) (somes a)) as Hok.
  { eapply rmap_somes_Forall; [|done]. intros ? ?. by apply normalizeOffersItem_ok. }
  assert (Forall finite_ts (somes a)) as Hfin.
  { eapply Forall_impl; [exact Hok|]. intros o [[_ _ Ht] _]. exact Ht. }
  apply Forall_and in Hok as [Hok Hfull].
  assert (forall P : offer -> Prop, Forall P (somes a) -> Forall P (take OFFERS_MAX (newest_first (somes a)))) as Hcut.
  { intros P HP. apply Forall_take. by rewrite newest_first_perm. }
  split_and!; [rewrite length_take; lia | by apply Hcut | by apply Hcut |].
  apply in_order_sorted; [by apply Hcut|]. by apply in_order_take, newest_first_in_order.
Qed.

(** ** Witnesses *)

Definition lift_offer (seats : Z) (who : list jstr) : offer :=
  {| o_id := js "o1"; o_text := js "lift from the station"; o_note := None; o_seats := int seats;
     o_ts := int 5; o_author := js "alice"; o_takers := Some who |}.

Lemma applyTake_preserves_witness :
  applyTake (Some [lift_offer 1 [js "bob"]]) (VStr (js "o1")) (js "carol") true
    = [lift_offer 1 [js "bob"]] /\
  Forall not_overfull (applyTake (Some [lift_offer 1 [js "bob"]]) (VStr (js "o1")) (js "carol") true).
Proof.
  split; [vm_compute; reflexivity|].
  apply (applyTake_preserves [lift_offer 1 [js "bob"]] (VStr (js "o1")) (js "carol") true).
  - split; [apply NoDup_singleton | by repeat constructor | by repeat constructor |].
    unfold OFFERS_MAX; cbn; lia.
  - constructor; [|constructor].
    split; [exists 1; split; [done|unfold SEATS_MAX; lia] | apply NoDup_singleton | done].
  - constructor; [|constructor]. intros m Hm%int_inj. cbn. lia.
Defined.

Lemma seats_first_come_witness :
  exists o', all_take (js "o1") [js "bob"; js "bob"; js "carol"; js "dave"] [lift_offer 2 []] !! 0%nat = Some o' /\
    takers o' = [js "bob"; js "carol"].
Proof.
  destruct (seats_first_come [lift_offer 2 []] 0 (lift_offer 2 []) 2
              [js "bob"; js "bob"; js "carol"; js "dave"]) as [(o' & Ho & Ht) _];
    [reflexivity | reflexivity | reflexivity | lia |].
  exists o'. split; [exact Ho|]. rewrite Ht. vm_compute. reflexivity.
Defined.

Lemma normalizeOffers_safe_witness :
  Forall not_overfull [lift_offer 1 [js "bob"]].
Proof.
  apply (normalizeOffers_safe
    (VArr [jobj [("id", VStr (js "o1")); ("text", VStr (js "lift from the station"));
                 ("seats", VStr (js "1.9")); ("ts", VNum (int 5)); ("author", VStr (js "alice"));
                 ("takers", VArr [VStr (js "bob"); VStr (js "bob"); VStr (js "carol")])]])%string
    (int 1000) [lift_offer 1 [js "bob"]]); [reflexivity | vm_compute; reflexivity].
Defined.
