(* ===== verification/Quorum.v ===== *)
(** * Membership by signature (client/src/lib/quorum.js)

    The ledger of proposals: who put whom forward, who signed, who objected,
    and when a proposal carries.  Case folding of handles is the host's
    Unicode table, a parameter of the model ([CaseFold]). *)

From stdpp Require Import base list numbers option strings.
From Stdlib Require Import ZArith Lia Sorting.Sorted Sorting.Permutation.
From S2P Require Import Prelude JsNum JsString JsValue Board Games Overview Offers.
Open Scope Z_scope.

(** [String.prototype.toLowerCase], whose table is the host's. *)
Class CaseFold := toLowerCase : jstr -> jstr.

Definition WHY_MAX : nat := 400.
Definition PROPOSALS_MAX : nat := 16.
Definition VOICES_MAX : nat := 64.

Record signature := { s_who : jstr; s_at : num }.
Record objection := { ob_who : jstr; ob_why : jstr; ob_at : num }.

Record proposal := {
  p_id : jstr;
  p_handle : jstr;
  p_why : option jstr;
  p_by : jstr;
  p_at : num;
  p_signatures : list signature;
  p_objections : list objection;
}.

#[global] Instance proposal_posted : Posted proposal := {| post_id := p_id; post_ts := p_at |}.

Definition with_voices (p : proposal) (ss : list signature) (os : list objection) : proposal :=
  {| p_id := p_id p; p_handle := p_handle p; p_why := p_why p; p_by := p_by p; p_at := p_at p;
     p_signatures := ss; p_objections := os |}.

(** ** The threshold *)

(** [Math.max(1, Number(memberCount) || 1)]. *)
Definition circle_size (memberCount : num) : num :=
  nmax (int 1) (if ntruthy memberCount then memberCount else int 1).

Definition defaultThreshold (memberCount : num) : num :=
  let n := circle_size memberCount in
  if neqb n (int 1) then int 1
  else nmax (int 2) (nceil (ndiv n (int 2))).

Definition normalizeThreshold (value : val) (memberCount : num) : res num :=
  let n := circle_size memberCount in
  let* v0 := to_number value in
  let v := nfloor v0 in
  if negb (nfinite v) then Ok (defaultThreshold n)
  else Ok (nmin n (nmax (if neqb n (int 1) then int 1 else int 2) v)).

(** ** Signing and objecting *)

Definition signed_by (who : jstr) (p : proposal) : bool :=
  bool_decide (who ∈ s_who <$> p_signatures p).

Definition objected_by (who : jstr) (p : proposal) : bool :=
  bool_decide (who ∈ ob_who <$> p_objections p).

Definition sign_one (id : val) (who : jstr) (at_ : num) (p : proposal) : proposal :=
  if negb (strict_eq (VStr (p_id p)) id) then p else
  if signed_by who p then p else
  if (VOICES_MAX <=? length (p_signatures p))%nat then p else
  with_voices p (p_signatures p ++ [ {| s_who := who; s_at := at_ |} ])
    (filter (fun o => ob_who o <> who) (p_objections p)).

Definition applySignature (l : option (list proposal)) (id : val) (who : jstr) (at_ : num)
  : list proposal := sign_one id who at_ <$> default [] l.

Definition object_one (id : val) (who reason : jstr) (at_ : num) (p : proposal) : proposal :=
  if negb (strict_eq (VStr (p_id p)) id) then p else
  if (VOICES_MAX <=? length (p_objections p))%nat && negb (objected_by who p) then p else
  with_voices p (filter (fun s => s_who s <> who) (p_signatures p))
    (filter (fun o => ob_who o <> who) (p_objections p)
     ++ [ {| ob_who := who; ob_why := reason; ob_at := at_ |} ]).

Definition applyObjection (l : option (list proposal)) (id : val) (who : jstr) (why : val)
    (at_ : num) : res (list proposal) :=
  let* reason := clip_trim WHY_MAX why in
  if is_empty reason then Ok (default [] l)
  else Ok (object_one id who reason at_ <$> default [] l).

(** ** Carrying *)

Definition standingSignatures (p : proposal) (members : list jstr) : list signature :=
  filter (fun s => s_who s ∈ members) (p_signatures p).

Definition isCarried (p : proposal) (threshold : num) (members : list jstr) : bool :=
  int (Z.of_nat (length (standingSignatures p members))) >=ₙ nmax (int 1) threshold.

Definition awaitingFrom (p : option proposal) (who : jstr) : bool :=
  match p with
  | None => false
  | Some p => negb (signed_by who p) && negb (objected_by who p)
  end.

Definition canWithdraw (p : option proposal) (requester : jstr) (isAdmin : bool) : bool :=
  match p with
  | None => false
  | Some p => str_eqb (p_by p) requester || isAdmin
  end.

(** [roles?.[m] === 'admin']. *)
Definition role_is_admin (roles : option obj) (m : jstr) : bool :=
  match roles with
  | None => false
  | Some r => strict_eq (VStr (js "admin")) (prop (VObj r) m)
  end.

Definition admitter (roles : option obj) (members : option (list jstr)) : option jstr :=
  head (sort_strings (filter (fun m => role_is_admin roles m = true) (default [] members))).

(** ** Proposals off the wire *)

Section fold_case.
Context `{CaseFold}.

(** [by] is the sender, or on a rebroadcast the name the payload gives. *)
Definition normalizeProposal (p by_ : val) (now : num) : res (option proposal) :=
  if not_an_object p then Ok None else
  let* id := clip 40 p.["id"] in
  let* handle0 := clip_trim 64 p.["handle"] in
  let handle := toLowerCase handle0 in
  let* why := clip_trim WHY_MAX p.["why"] in
  let* at0 := to_number p.["at"] in
  let at_ := sane_ts at0 now in
  if is_empty id || is_empty handle || negb (truthy by_) then Ok None else
  let* who := to_string by_ in
  Ok (Some {| p_id := id; p_handle := handle; p_why := opt_text why; p_by := who; p_at := at_;
              p_signatures := [ {| s_who := who; s_at := at_ |} ]; p_objections := [] |}).

(** The [voices] helper of [normalizeProposals], for the two lists it
    cleans: signatures carry no reason, objections must. *)
Definition voice_at (v : val) (base_at : num) : res num :=
  let* a := to_number v.["at"] in
  Ok (if nfinite a && (Fin 0 <ₙ a) then a else base_at).

Definition read_signature (base_at : num) (v : val) : res (option signature) :=
  let* who := text_of v.["who"] in
  let* a := voice_at v base_at in
  if is_empty who then Ok None else Ok (Some {| s_who := who; s_at := a |}).

Definition read_objection (base_at : num) (v : val) : res (option objection) :=
  let* who := text_of v.["who"] in
  let* a := voice_at v base_at in
  if is_empty who then Ok None else
  let* why := clip_trim WHY_MAX v.["why"] in
  if is_empty why then Ok None
  else Ok (Some {| ob_who := who; ob_why := why; ob_at := a |}).

Definition normalizeProposalsItem (now : num) (p : val) : res (option proposal) :=
  let* base := normalizeProposal p p.["by"] now in
  match base with
  | None => Ok None
  | Some base =>
      let* ss := rmap (read_signature (p_at base)) (array_or_empty p.["signatures"]) in
      let signatures := take VOICES_MAX (somes ss) in
      let* os := rmap (read_objection (p_at base)) (array_or_empty p.["objections"]) in
      Ok (Some (with_voices base
            (if bool_decide (p_by base ∈ s_who <$> signatures) then signatures
             else signatures ++ [ {| s_who := p_by base; s_at := p_at base |} ])
            (take VOICES_MAX (somes os))))
  end.

Definition normalizeProposals (v : val) (now : num) : res (list proposal) :=
  let* ps := rmap (normalizeProposalsItem now) (array_or_empty v) in
  Ok (take PROPOSALS_MAX (newest_first (somes ps))).
End fold_case.

Definition upsertProposal (l : option (list proposal)) (p : option proposal) : list proposal :=
  match p with
  | None => default [] l
  | Some p =>
      let kept := match find_id (VStr (p_id p)) (default [] l) with
                  | Some prior => with_voices p (p_signatures prior) (p_objections prior)
                  | None => p
                  end in
      take PROPOSALS_MAX (newest_first (kept :: without_id (VStr (p_id p)) (default [] l)))
  end.

Definition mergeProposals (mine : option (list proposal)) (incoming : list proposal)
  : list proposal :=
  take PROPOSALS_MAX (newest_first (default [] mine ++ not_in_ids (default [] mine) incoming)).

(** ** What waits on a member *)

(** What the strip reads of a circle. *)
Record circle_row := {
  cr_members : option (list jstr);
  cr_proposals : option (list proposal);
  cr_threshold : val;
}.

Record decision := {
  de_server : circle_row;
  de_proposal : proposal;
  de_signed : nat;
  de_threshold : num;
}.

Definition decision_on (s : circle_row) (p : proposal) : res decision :=
  let members := default [] (cr_members s) in
  let* t := normalizeThreshold (cr_threshold s) (int (Z.of_nat (length members))) in
  Ok {| de_server := s; de_proposal := p; de_signed := length (standingSignatures p members); de_threshold := t |}.

Definition decisions_in (s : circle_row) (me : jstr) : res (list decision) :=
  rmap (decision_on s) (filter (fun p => awaitingFrom (Some p) me = true) (default [] (cr_proposals s))).

Definition decisionsFor (servers : option (list circle_row)) (me : jstr) : res (list decision) :=
  let* ds := rmap (fun s => decisions_in s me) (default [] servers) in Ok (concat ds).

(** ** Theorems *)

Lemma circle_size_int n : 1 <= n -> circle_size (int n) = int n.
Proof.
  intros Hn. unfold circle_size. assert (ntruthy (int n) = true) as ->.
  { unfold int; cbn. pose proof scale_pos. apply negb_true_iff, Z.eqb_neq. nia. }
  rewrite nmax_int. f_equal; lia.
Qed.

(** What a threshold must be in a circle of [n]. *)
Definition reachable (n t : Z) : Prop := (if n =? 1 then 1 else 2) <= t <= n.

Lemma defaultThreshold_reachable n :
  1 <= n < 2 ^ 53 ->
  exists t, defaultThreshold (int n) = int t /\ reachable n t /\ n <= 2 * t.
Proof.
  intros Hn. unfold defaultThreshold, reachable. rewrite circle_size_int, neqb_int by lia.
  destruct (Z.eqb_spec n 1) as [->|]; [by exists 1; repeat split|].
  rewrite nceil_half, nmax_int by lia. eexists; split; [done|].
  generalize (Z.div_mod (n + 1) 2) (Z.mod_pos_bound (n + 1) 2). lia.
Qed.

Lemma normalizeThreshold_reachable_aux value n r :
  1 <= n < 2 ^ 53 -> normalizeThreshold value (int n) = Ok r ->
  exists t, r = int t /\ reachable n t.
Proof.
  intros Hn. unfold normalizeThreshold. rewrite circle_size_int, neqb_int by lia.
  intros H; inv_ok. destruct (negb (nfinite (nfloor a))) eqn:Ef; inv_ok.
  - destruct (defaultThreshold_reachable n Hn) as (t & -> & ? & _); eauto.
  - assert (nfinite a = true) as Ha by by destruct a.
    destruct (nfloor_int a Ha) as [v ->]. unfold reachable.
    destruct (n =? 1) eqn:E1; cbn match; rewrite nmax_int, nmin_int;
      eexists; (split; [done|]); lia.
Qed.

(** One voice per member, and nobody both signs and objects. *)
Record proposal_ok (p : proposal) : Prop := {
  po_signers : NoDup (s_who <$> p_signatures p);
  po_objectors : NoDup (ob_who <$> p_objections p);
  po_disjoint : forall w, w ∈ s_who <$> p_signatures p -> w ∉ ob_who <$> p_objections p;
}.

Lemma elem_of_fmap_filter_ne {A} (f : A -> jstr) (l : list A) who w :
  w ∈ f <$> filter (fun o => f o <> who) l <-> w ∈ f <$> l /\ w <> who.
Proof.
  rewrite !list_elem_of_fmap. setoid_rewrite list_elem_of_filter. naive_solver.
Qed.

Lemma NoDup_fmap_filter_ne {A} (f : A -> jstr) (l : list A) who :
  NoDup (f <$> l) -> NoDup (f <$> filter (fun o => f o <> who) l).
Proof. intros H. eapply sublist_NoDup; [exact H|]. apply fmap_sublist, sublist_filter. Qed.

Lemma sign_one_ok id who at_ p : proposal_ok p -> proposal_ok (sign_one id who at_ p).
Proof.
  intros Hp. unfold sign_one. repeat (case_match; [done|]).
  destruct Hp as [Hs Ho Hd]. assert (who ∉ s_who <$> p_signatures p) as Hw.
  { unfold signed_by in *. by eapply bool_decide_eq_false_1. }
  split; cbn.
  - rewrite fmap_app. by apply NoDup_snoc.
  - by apply NoDup_fmap_filter_ne.
  - intros w. rewrite fmap_app, elem_of_app, elem_of_fmap_filter_ne. cbn.
    rewrite list_elem_of_singleton. naive_solver.
Qed.

Lemma object_one_ok id who reason at_ p :
  proposal_ok p -> proposal_ok (object_one id who reason at_ p).
Proof.
  intros Hp. unfold object_one. repeat (case_match; [done|]).
  destruct Hp as [Hs Ho Hd]. split; cbn.
  - by apply NoDup_fmap_filter_ne.
  - rewrite fmap_app. apply NoDup_snoc; [by apply NoDup_fmap_filter_ne|].
    rewrite elem_of_fmap_filter_ne. naive_solver.
  - intros w. rewrite fmap_app, elem_of_app, !elem_of_fmap_filter_ne. cbn.
    rewrite list_elem_of_singleton. naive_solver.
Qed.

(** The signers that count, as distinct members. *)
Lemma standing_distinct p members :
  proposal_ok p ->
  NoDup (s_who <$> standingSignatures p members) /\
  s_who <$> standingSignatures p members ⊆ members /\
  s_who <$> standingSignatures p members ⊆ s_who <$> p_signatures p.
Proof.
  intros [Hs _ _]. unfold standingSignatures. split; [|split].
  - eapply sublist_NoDup; [exact Hs|]. apply fmap_sublist, sublist_filter.
  - intros w (s & -> & [Hw _]%list_elem_of_filter)%list_elem_of_fmap. done.
  - intros w (s & -> & [_ Hw]%list_elem_of_filter)%list_elem_of_fmap.
    by apply list_elem_of_fmap_2.
Qed.

Lemma isCarried_int p t members :
  isCarried p (int t) members = true <->
  Z.max 1 t <= Z.of_nat (length (standingSignatures p members)).
Proof. unfold isCarried. rewrite nmax_int, nleb_int. apply Z.leb_le. Qed.


(** ** The ledger as a machine *)

(** What a member does to the ledger about an existing proposal. *)
Inductive voice :=
| Sign (id : val) (who : jstr) (at_ : num)
| Object (id : val) (who : jstr) (why : val) (at_ : num).

Definition hear (l : list proposal) (v : voice) : res (list proposal) :=
  match v with
  | Sign id who at_ => Ok (applySignature (Some l) id who at_)
  | Object id who why at_ => applyObjection (Some l) id who why at_
  end.

(** The ledgers reachable by voices from one. *)
Inductive heard : list proposal -> list proposal -> Prop :=
| heard_none l : heard l l
| heard_one l1 v l2 l3 : hear l1 v = Ok l2 -> heard l2 l3 -> heard l1 l3.

Definition voices_bounded (p : proposal) : Prop :=
  (length (p_signatures p) <= VOICES_MAX)%nat /\ (length (p_objections p) <= VOICES_MAX)%nat.

Lemma sign_one_bounded id who at_ p : voices_bounded p -> voices_bounded (sign_one id who at_ p).
Proof.
  intros [Hs Ho]. unfold sign_one. repeat (case_match; [done|]). split; cbn.
  - rewrite length_app; cbn.
    match goal with E : (_ <=? _)%nat = false |- _ => apply Nat.leb_gt in E; lia end.
  - etransitivity; [apply length_filter|done].
Qed.

Lemma filter_ne_shorter {A} (f : A -> jstr) (l : list A) who :
  who ∈ f <$> l -> (length (filter (fun o => f o <> who) l) < length l)%nat.
Proof.
  induction l as [|y l IH]; cbn [fmap list_fmap]; [by intros H%elem_of_nil|].
  rewrite elem_of_cons, filter_cons. pose proof (length_filter (fun o => f o <> who) l).
  intros [->|Hw]; [rewrite decide_False by naive_solver; cbn; lia|].
  specialize (IH Hw). case_decide; cbn; lia.
Qed.

Lemma object_one_bounded id who reason at_ p :
  voices_bounded p -> voices_bounded (object_one id who reason at_ p).
Proof.
  intros [Hs Ho]. unfold object_one. case_match; [done|].
  destruct (_ && _) eqn:E; [done|]. split; cbn.
  - etransitivity; [apply length_filter|done].
  - rewrite length_app; cbn. apply andb_false_iff in E as [E%Nat.leb_gt|E].
    + pose proof (length_filter (fun o => ob_who o <> who) (p_objections p)). lia.
    + apply negb_false_iff in E. unfold objected_by in E. apply bool_decide_eq_true in E.
      apply filter_ne_shorter in E. lia.
Qed.

Lemma hear_Forall (P : proposal -> Prop) l v l' :
  (forall id who at_ p, P p -> P (sign_one id who at_ p)) ->
  (forall id who reason at_ p, P p -> P (object_one id who reason at_ p)) ->
  hear l v = Ok l' -> Forall P l -> Forall P l'.
Proof.
  intros Hsign Hobj. destruct v as [id who at_|id who why at_]; cbn.
  - intros [= <-] Hl. unfold applySignature; cbn. apply Forall_fmap.
    eapply Forall_impl; [exact Hl|]. intros p; apply Hsign.
  - unfold applyObjection; cbn. intros H Hl. inv_ok. case_match; inv_ok; [done|].
    apply Forall_fmap. eapply Forall_impl; [exact Hl|]. intros p; apply Hobj.
Qed.

(** Whatever members sign and object, in any order and any number of
    times, every proposal keeps one voice per member, nobody is both for and
    against, and the two lists stay within [VOICES_MAX]. *)
Theorem heard_one_voice_each l l' :
  heard l l' -> Forall proposal_ok l -> Forall voices_bounded l ->
  Forall proposal_ok l' /\ Forall voices_bounded l'.
Proof.
  intros H; induction H as [l|l1 v l2 l3 Hv _ IH]; [done|]. intros Hok Hb.
  apply IH; eapply hear_Forall; try exact Hv; try done.
  - intros; by apply sign_one_ok.
  - intros; by apply object_one_ok.
  - intros; by apply sign_one_bounded.
  - intros; by apply object_one_bounded.
Qed.

(** The last word stands: after a member signs a proposal that has room,
    she is among its signers and not its objectors; after she objects with a
    reason, the other way round; other members' voices are untouched. *)
Theorem last_voice_stands who reason at_ p :
  (length (p_signatures p) < VOICES_MAX)%nat -> (length (p_objections p) < VOICES_MAX)%nat ->
  (forall w, w ∈ ob_who <$> p_objections p -> w ∉ s_who <$> p_signatures p) ->
  (forall w, w ∈ s_who <$> p_signatures (sign_one (VStr (p_id p)) who at_ p) <->
     w = who \/ w ∈ s_who <$> p_signatures p) /\
  (forall w, w ∈ ob_who <$> p_objections (sign_one (VStr (p_id p)) who at_ p) <->
     w <> who /\ w ∈ ob_who <$> p_objections p) /\
  (forall w, w ∈ ob_who <$> p_objections (object_one (VStr (p_id p)) who reason at_ p) <->
     w = who \/ w ∈ ob_who <$> p_objections p) /\
  (forall w, w ∈ s_who <$> p_signatures (object_one (VStr (p_id p)) who reason at_ p) <->
     w <> who /\ w ∈ s_who <$> p_signatures p).
Proof.
  intros Hs Ho Hd. unfold sign_one, object_one. cbn [strict_eq]. rewrite str_eqb_refl. cbn [negb].
  rewrite !(proj2 (Nat.leb_gt _ _)) by done. cbn [andb].
  unfold signed_by. split_and!; try (case_bool_decide as Hw); intros w; cbn;
    rewrite ?fmap_app, ?elem_of_app, ?elem_of_fmap_filter_ne; cbn; rewrite ?list_elem_of_singleton;
    try (destruct (decide (w = who)) as [->|]); try naive_solver.
Qed.

(** C9: a proposal with one voice per member is carried at threshold [t]
    exactly when [max 1 t] distinct current members have signed it; what a
    departed member signed does not count. *)
Theorem carried_by_distinct_members p t members :
  proposal_ok p ->
  isCarried p (int t) members = true <->
  exists ws, NoDup ws /\ Z.of_nat (length ws) = Z.max 1 t /\
    (forall w, w ∈ ws -> w ∈ members /\ w ∈ s_who <$> p_signatures p).
Proof.
  intros Hp. destruct (standing_distinct p members Hp) as (Hnd & Hm & Hs).
  rewrite isCarried_int, <- (length_fmap s_who). split.
  - intros Hc. exists (take (Z.to_nat (Z.max 1 t)) (s_who <$> standingSignatures p members)).
    split_and!.
    + eapply sublist_NoDup; [exact Hnd|apply sublist_take].
    + rewrite length_take. lia.
    + intros w Hw. eapply elem_of_take in Hw as (i & Hi & _). apply list_elem_of_lookup_2 in Hi. auto.
  - intros (ws & Hws & Hlen & Hin). rewrite <- Hlen. apply inj_le.
    apply NoDup_incl_length; [by apply NoDup_ListNoDup|].
    intros w Hw%list_elem_of_In. apply list_elem_of_In. destruct (Hin w Hw) as [Hmem Hsig].
    apply list_elem_of_fmap in Hsig as (s & -> & Hsig). apply list_elem_of_fmap_2.
    unfold standingSignatures. by apply list_elem_of_filter.
Qed.

(** Whatever value is asked for, the threshold a circle of [n] members
    keeps is an integer it can reach and, unless it is a circle of one, at
    least two; with nothing asked for it is at least half the circle. *)
Theorem threshold_reachable value n r :
  1 <= n < 2 ^ 53 -> normalizeThreshold value (int n) = Ok r ->
  exists t, r = int t /\ (if n =? 1 then 1 else 2) <= t <= n /\
    (value = VUndef -> n <= 2 * t).
Proof.
  intros Hn H. destruct (normalizeThreshold_reachable_aux value n r Hn H) as (t & -> & Ht).
  exists t. split_and!; try apply Ht; [done|]. intros ->.
  unfold normalizeThreshold in H. cbn in H. injection H as H.
  rewrite circle_size_int in H by lia.
  destruct (defaultThreshold_reachable n Hn) as (t' & Ht' & _ & Hh). rewrite Ht' in H.
  by apply int_inj in H as <-.
Qed.

(** Every device names the same executor for a carried proposal: the
    admitter depends on who the members and admins are, not on the order a
    device lists them in; it is an admin of the circle, and there is one
    whenever the circle has an admin. *)
Theorem admitter_agreed roles ms1 ms2 :
  ms1 ≡ₚ ms2 ->
  admitter roles (Some ms1) = admitter roles (Some ms2) /\
  (forall m, admitter roles (Some ms1) = Some m -> m ∈ ms1 /\ role_is_admin roles m = true) /\
  (forall m, m ∈ ms1 -> role_is_admin roles m = true -> is_Some (admitter roles (Some ms1))).
Proof.
  intros Hp. unfold admitter; cbn [from_option]; unfold id.
  set (f := filter (fun m => role_is_admin roles m = true)).
  assert (forall l m, m ∈ sort_strings (f l) <-> m ∈ l /\ role_is_admin roles m = true) as Hel.
  { intros l m. unfold sort_strings. rewrite sort_by_perm. unfold f. rewrite list_elem_of_filter. tauto. }
  split_and!.
  - f_equal. apply sort_strings_canonical. unfold f. by apply filter_Permutation.
  - intros m Hm. apply Hel. revert Hm. destruct (sort_strings (f ms1)); [done|].
    cbn. intros [= ->]. by left.
  - intros m Hm Ha. assert (m ∈ sort_strings (f ms1)) as Hin by by apply Hel.
    revert Hin. destruct (sort_strings (f ms1)); [by intros ?%elem_of_nil|eauto].
Qed.

(** The strip and the board of a circle say the same: what is listed is what
    waits on the member, each with the count and the threshold that decide
    whether the board calls it carried. *)
Theorem strip_agrees_with_board servers me ds d :
  decisionsFor (Some servers) me = Ok ds -> d ∈ ds ->
  de_server d ∈ servers /\ de_proposal d ∈ default [] (cr_proposals (de_server d)) /\ awaitingFrom (Some (de_proposal d)) me = true /\
  let members := default [] (cr_members (de_server d)) in
  normalizeThreshold (cr_threshold (de_server d)) (int (Z.of_nat (length members))) = Ok (de_threshold d) /\
  isCarried (de_proposal d) (de_threshold d) members = (nmax (int 1) (de_threshold d) <=ₙ int (Z.of_nat (de_signed d))).
Proof.
  unfold decisionsFor. cbn [from_option id]. intros H Hd. inv_ok. match goal with E : rmap _ servers = Ok _ |- _ => apply rmap_Ok_Forall2 in E as E2 end.
  rewrite list_elem_of_In, in_concat in Hd. destruct Hd as (l & Hl & Hd). rewrite <- list_elem_of_In in Hl. rewrite <- list_elem_of_In in Hd.
  apply list_elem_of_lookup in Hl as [i Hi]. destruct (Forall2_lookup_r _ _ _ _ _ E2 Hi) as (s & Hs & Es).
  apply rmap_Ok_Forall2 in Es. apply list_elem_of_lookup in Hd as [j Hj]. destruct (Forall2_lookup_r _ _ _ _ _ Es Hj) as (p & Hp & Ep).
  unfold decision_on in Ep. inv_ok. apply list_elem_of_lookup_2 in Hs, Hp. apply list_elem_of_filter in Hp as [Ha Hp].
  cbn [de_server de_proposal de_threshold de_signed]. done.
Qed.

(** ** Witnesses *)

Definition put_forward : proposal :=
  {| p_id := js "p1"; p_handle := js "dave"; p_why := None; p_by := js "alice"; p_at := int 5;
     p_signatures := [ {| s_who := js "alice"; s_at := int 5 |} ]; p_objections := [] |}.

Lemma put_forward_ok : proposal_ok put_forward /\ voices_bounded put_forward.
Proof.
  split; [split|split]; cbn; try (unfold VOICES_MAX; lia).
  - apply NoDup_singleton.
  - apply NoDup_nil_2.
  - intros w _ ?%elem_of_nil. done.
Qed.

Definition heard_ledger : list proposal :=
  [with_voices put_forward [ {| s_who := js "alice"; s_at := int 5 |} ]
     [ {| ob_who := js "bob"; ob_why := js "not yet"; ob_at := int 8 |} ]].

Lemma heard_one_voice_each_witness :
  heard [put_forward] heard_ledger /\ Forall proposal_ok heard_ledger.
Proof.
  assert (heard [put_forward] heard_ledger) as Hh.
  { eapply heard_one with (v := Sign (VStr (js "p1")) (js "bob") (int 7)); [reflexivity|].
    eapply heard_one with (v := Object (VStr (js "p1")) (js "bob") (VStr (js " not yet ")) (int 8));
      [vm_compute; reflexivity|]. apply heard_none. }
  split; [exact Hh|].
  apply (heard_one_voice_each [put_forward] heard_ledger Hh);
    constructor; try apply Forall_nil_2; apply put_forward_ok.
Defined.

Lemma last_voice_stands_witness :
  js "bob" ∈ s_who <$> p_signatures (sign_one (VStr (js "p1")) (js "bob") (int 7) put_forward).
Proof.
  apply (proj1 (last_voice_stands (js "bob") (js "no") (int 7) put_forward
           ltac:(cbn; unfold VOICES_MAX; lia) ltac:(cbn; unfold VOICES_MAX; lia)
           ltac:(intros w ?%elem_of_nil; done)) (js "bob")).
  by left.
Defined.

Lemma carried_by_distinct_members_witness :
  isCarried put_forward (int 1) [js "alice"; js "bob"] = true /\
  exists ws, NoDup ws /\ Z.of_nat (length ws) = Z.max 1 1 /\
    (forall w, w ∈ ws -> w ∈ [js "alice"; js "bob"] /\ w ∈ s_who <$> p_signatures put_forward).
Proof.
  split; [vm_compute; reflexivity|].
  apply (carried_by_distinct_members put_forward 1 [js "alice"; js "bob"] (proj1 put_forward_ok)).
  vm_compute; reflexivity.
Defined.

Lemma threshold_reachable_witness :
  exists t, int 5 = int t /\ (if 5 =? 1 then 1 else 2) <= t <= 5 /\ (VStr (js "99") = VUndef -> 5 <= 2 * t).
Proof.
  apply (threshold_reachable (VStr (js "99")) 5 (int 5)); [lia | vm_compute; reflexivity].
Defined.

Lemma admitter_agreed_witness :
  admitter (Some [(js "carol", VStr (js "admin")); (js "bob", VStr (js "admin"))])
    (Some [js "carol"; js "alice"; js "bob"]) = Some (js "bob") /\
  admitter (Some [(js "carol", VStr (js "admin")); (js "bob", VStr (js "admin"))])
    (Some [js "carol"; js "alice"; js "bob"]) =
  admitter (Some [(js "carol", VStr (js "admin")); (js "bob", VStr (js "admin"))])
    (Some [js "alice"; js "carol"; js "bob"]).
Proof.
  split; [vm_compute; reflexivity|].
  apply (admitter_agreed (Some [(js "carol", VStr (js "admin")); (js "bob", VStr (js "admin"))])
           [js "carol"; js "alice"; js "bob"] [js "alice"; js "carol"; js "bob"]).
  apply perm_swap.
Defined.
