(* ===== verification/ChanKeys.v ===== *)
(** * A channel's settings and room keys ([mergeChanKeys] of envelope.js)

    Two views of one channel's settings are merged without losing a key.
    The views are unvalidated objects off the wire, so the function works on
    values.  Log ids are strings in every message the client writes; an id
    that is itself an object counts here as a reference of its own. *)

From stdpp Require Import base list numbers option strings.
From Stdlib Require Import ZArith Lia Sorting.Sorted Sorting.Permutation.
From S2P Require Import Prelude JsNum JsString JsValue.
Open Scope Z_scope.

(** The four fields that are keys rather than settings. *)
Definition key_fields : list jstr := js <$> ["hid"; "hkey"; "hkeys"; "alts"]%string.

(** [const { hid, hkey, hkeys, alts, ...settings } = side ?? {}]. *)
Definition settings_of (side : val) : obj :=
  filter (fun kv => kv.1 ∉ key_fields) (own_props side).

(** The [logs] map: a log id with the keys seen for it, in insertion order. *)
Notation logs := (list (val * list val)).

Fixpoint logs_get (m : logs) (hid : val) : option (list val) :=
  match m with
  | [] => None
  | (h, s) :: r => if same_value h hid then Some s else logs_get r hid
  end.

Fixpoint logs_set (m : logs) (hid : val) (s : list val) : logs :=
  match m with
  | [] => [(hid, s)]
  | (h, s') :: r => if same_value h hid then (h, s) :: r else (h, s') :: logs_set r hid s
  end.

(** [for (const k of keys) if (k) set.add(k)]. *)
Definition add_keys (s : list val) (keys : list val) : list val :=
  fold_left (fun acc k => if truthy k && negb (includes acc k) then acc ++ [k] else acc) keys s.

Definition note (m : logs) (hid : val) (keys : list val) : logs :=
  if truthy hid then logs_set m hid (add_keys (default [] (logs_get m hid)) keys) else m.

Definition note_side (m : logs) (side : val) : res logs :=
  if negb (truthy side) then Ok m else
  let* hkeys := iterate (side.["hkeys"] ⁇ VArr []) in
  let m1 := note m side.["hid"] (side.["hkey"] :: hkeys) in
  let* alts := iterate (side.["alts"] ⁇ VArr []) in
  let m2 := fold_left (fun m alt => note m alt.["hid"] [alt.["hkey"]]) alts m1 in
  Ok (note m2 side.["hid"] hkeys).

(** [values.sort()] with no comparator: by string form; one element is never
    converted. *)
Definition sort_values (l : list val) : res (list val) :=
  if (length l <? 2)%nat then Ok l else
  let* ss := rmap (fun v => let* s := to_string v in Ok (s, v)) l in
  Ok (sort_by (fun a b => str_ltb b.1 a.1) ss).*2.

(** [side?.hid === primary && side.hkey], kept when truthy. *)
Definition preferred_key (side primary : val) : list val :=
  if strict_eq side.["hid"] primary && truthy side.["hkey"] then [side.["hkey"]] else [].

Definition first_key (m : logs) (hid : val) : val :=
  default VUndef (head (default [] (logs_get m hid))).

(** Does the value stand for an absent argument?  [undefined] takes the
    default [{}]. *)
Definition or_empty (side : val) : val := match side with VUndef => VObj [] | _ => side end.

(** The object the merge returns: the settings, then the keys it has. *)
Definition keyed (settings : obj) (primary hkey : val) (hkeys alts : list val) : obj :=
  let o1 := obj_put settings (js "hid") primary in
  let o2 := if truthy hkey then obj_put o1 (js "hkey") hkey else o1 in
  let o3 := if bool_decide (length hkeys = 0%nat) then o2 else obj_put o2 (js "hkeys") (VArr hkeys) in
  if bool_decide (length alts = 0%nat) then o3 else obj_put o3 (js "alts") (VArr alts).

Definition mergeChanKeys (mine0 theirs0 : val) (mineWins : bool) : res val :=
  let mine := or_empty mine0 in
  let theirs := or_empty theirs0 in
  let settings :=
    if mineWins then obj_spread (settings_of theirs) (settings_of mine)
    else obj_spread (settings_of mine) (settings_of theirs) in
  let* m1 := note_side [] mine in
  let* m := note_side m1 theirs in
  if bool_decide (length m = 0%nat) then Ok (VObj settings) else
  let* hids := sort_values m.*1 in
  let primary := default VUndef (head hids) in
  let* preferred := sort_values (preferred_key mine primary ++ preferred_key theirs primary) in
  let hkey := default (first_key m primary) (head preferred) in
  let hkeys := filter (fun k => truthy k && negb (strict_eq k hkey) = true)
                 (dedup (concat m.*2)) in
  let alts := filter (fun a => truthy a.["hkey"] = true)
    ((fun hid => VObj [(js "hid", hid); (js "hkey", first_key m hid)]) <$> tail hids) in
  Ok (VObj (keyed settings primary hkey hkeys alts)).

(** [channelKeys] of the controller: every key that may open an entry. *)
Definition channelKeys (meta : val) : res (list val) :=
  let* hkeys := iterate (meta.["hkeys"] ⁇ VArr []) in
  match meta.["alts"] ⁇ VArr [] with
  | VArr alts =>
      Ok (filter (fun k => truthy k = true)
            (meta.["hkey"] :: hkeys ++ ((fun a => a.["hkey"]) <$> alts)))
  | _ => Throw TypeError
  end.

(** ** What a view mentions *)

(** [h] is a log id the view knows. *)
Definition mentions_log (side : val) (h : val) : Prop :=
  truthy h = true /\
  (h = side.["hid"] \/
   exists alts alt, iterate (side.["alts"] ⁇ VArr []) = Ok alts /\ alt ∈ alts /\ h = alt.["hid"]).

(** [k] is a key the view knows for some log. *)
Definition mentions_key (side : val) (k : val) : Prop :=
  truthy k = true /\
  ((truthy side.["hid"] = true /\
    (k = side.["hkey"] \/
     exists hkeys, iterate (side.["hkeys"] ⁇ VArr []) = Ok hkeys /\ k ∈ hkeys)) \/
   exists alts alt, iterate (side.["alts"] ⁇ VArr []) = Ok alts /\ alt ∈ alts /\
     truthy alt.["hid"] = true /\ k = alt.["hkey"]).

(** *** The map of logs *)

Definition log_keys (m : logs) : list val := concat m.*2.

Lemma elem_of_log_keys m k : k ∈ log_keys m <-> exists h s, (h, s) ∈ m /\ k ∈ s.
Proof.
  unfold log_keys. rewrite list_elem_of_In, in_concat. setoid_rewrite <- list_elem_of_In.
  setoid_rewrite list_elem_of_fmap. split.
  - intros (s & ([h s'] & -> & Hm) & Hk). eauto.
  - intros (h & s & Hm & Hk). exists s. split; [|done]. by exists (h, s).
Qed.

Lemma elem_of_add_keys s keys k :
  k ∈ add_keys s keys <-> k ∈ s \/ k ∈ keys /\ truthy k = true.
Proof.
  unfold add_keys. revert s. induction keys as [|x keys IH]; intros s; cbn.
  - rewrite elem_of_nil. tauto.
  - rewrite IH, elem_of_cons. clear IH.
    destruct (truthy x) eqn:Ht; cbn.
    2: { split; [tauto|]. intros [?|[[->|?] ?]]; [tauto|congruence|tauto]. }
    destruct (includes s x) eqn:Hi; cbn.
    + apply includes_elem in Hi. split; [tauto|]. intros [?|[[->|?] ?]]; tauto.
    + rewrite elem_of_app, list_elem_of_singleton. split; [|tauto].
      intros [[?| ->]|?]; tauto.
Qed.

Lemma logs_get_elem m h s : logs_get m h = Some s -> exists h', (h', s) ∈ m /\ same_value h' h = true.
Proof.
  induction m as [|[h0 s0] m IH]; cbn; [done|]. destruct (same_value h0 h) eqn:E.
  - intros [= ->]. exists h0. split; [by left|done].
  - intros (h' & ? & ?)%IH. exists h'. split; [by right|done].
Qed.

Lemma logs_set_keys m h s k :
  (forall s', logs_get m h = Some s' -> s' ⊆ s) ->
  k ∈ log_keys (logs_set m h s) <-> k ∈ log_keys m \/ k ∈ s.
Proof.
  unfold log_keys. induction m as [|[h0 s0] m IH]; cbn; intros Hsub.
  - rewrite app_nil_r, elem_of_nil. tauto.
  - destruct (same_value h0 h) eqn:E; cbn; rewrite !elem_of_app.
    + specialize (Hsub s0 eq_refl). naive_solver.
    + rewrite IH by done. tauto.
Qed.

Lemma logs_set_hids m h s x :
  x ∈ (logs_set m h s).*1 <-> x ∈ m.*1 \/ (x = h /\ logs_get m h = None).
Proof.
  induction m as [|[h0 s0] m IH]; cbn.
  - rewrite list_elem_of_singleton, elem_of_nil. naive_solver.
  - destruct (same_value h0 h) eqn:E; cbn; rewrite !elem_of_cons; [naive_solver|].
    rewrite IH. naive_solver.
Qed.

Lemma note_keys m h ks k :
  k ∈ log_keys (note m h ks) <-> k ∈ log_keys m \/ (truthy h = true /\ k ∈ ks /\ truthy k = true).
Proof.
  unfold note. destruct (truthy h) eqn:Ht; [|naive_solver].
  rewrite logs_set_keys.
  - rewrite elem_of_add_keys. destruct (logs_get m h) as [s|] eqn:E; cbn.
    + apply logs_get_elem in E as (h' & Hm & _).
      assert (k ∈ s -> k ∈ log_keys m) by (intros; apply elem_of_log_keys; eauto). naive_solver.
    + rewrite elem_of_nil. naive_solver.
  - intros s ->. cbn. intros x Hx. apply elem_of_add_keys. by left.
Qed.

Lemma logs_get_None m h : logs_get m h = None <-> includes m.*1 h = false.
Proof.
  induction m as [|[h0 s0] m IH]; cbn; [done|]. rewrite includes_cons.
  destruct (same_value h0 h); cbn; [done|exact IH].
Qed.

Lemma note_hids m h ks x :
  x ∈ (note m h ks).*1 <-> x ∈ m.*1 \/ (truthy h = true /\ x = h).
Proof.
  unfold note. destruct (truthy h) eqn:Ht; [|naive_solver].
  rewrite logs_set_hids, logs_get_None.
  destruct (includes m.*1 h) eqn:E; [|naive_solver].
  apply includes_elem in E. naive_solver.
Qed.

Lemma note_alts_keys alts m k :
  k ∈ log_keys (fold_left (fun m alt => note m alt.["hid"] [alt.["hkey"]]) alts m) <->
  k ∈ log_keys m \/
  exists alt, alt ∈ alts /\ truthy alt.["hid"] = true /\ k = alt.["hkey"] /\ truthy k = true.
Proof.
  revert m. induction alts as [|a alts IH]; intros m; cbn [fold_left].
  - setoid_rewrite elem_of_nil. naive_solver.
  - rewrite IH, note_keys, list_elem_of_singleton. setoid_rewrite elem_of_cons. naive_solver.
Qed.

Lemma note_alts_hids alts m x :
  x ∈ (fold_left (fun m alt => note m alt.["hid"] [alt.["hkey"]]) alts m).*1 <->
  x ∈ m.*1 \/ exists alt, alt ∈ alts /\ truthy alt.["hid"] = true /\ x = alt.["hid"].
Proof.
  revert m. induction alts as [|a alts IH]; intros m; cbn [fold_left].
  - setoid_rewrite elem_of_nil. naive_solver.
  - rewrite IH, note_hids. setoid_rewrite elem_of_cons. naive_solver.
Qed.

Lemma note_side_inv m side m' :
  note_side m side = Ok m' ->
  (side = VUndef \/ side = VNull \/ truthy side = false) /\ m' = m \/
  exists hkeys alts,
    iterate (side.["hkeys"] ⁇ VArr []) = Ok hkeys /\ iterate (side.["alts"] ⁇ VArr []) = Ok alts /\
    m' = note (fold_left (fun m alt => note m alt.["hid"] [alt.["hkey"]]) alts
                 (note m side.["hid"] (side.["hkey"] :: hkeys))) side.["hid"] hkeys.
Proof.
  unfold note_side. destruct (truthy side) eqn:Ht; cbn [negb]; intros H; inv_ok; [right; eauto|left].
  auto.
Qed.

(** A falsy view has nothing to mention: reading a property of [0], [false]
    or the empty string finds no key. *)
Lemma falsy_mentions side :
  truthy side = false ->
  side.["hid"] = VUndef /\ side.["hkey"] = VUndef /\ side.["hkeys"] = VUndef /\ side.["alts"] = VUndef.
Proof.
  by destruct side as [| |b|a|s| | |].
Qed.

#[local] Opaque getq.

Lemma note_side_keys m side m' k :
  note_side m side = Ok m' -> k ∈ log_keys m' <-> k ∈ log_keys m \/ mentions_key side k.
Proof.
  intros [[Hf ->]|(hkeys & alts & Hk & Ha & ->)]%note_side_inv.
  - assert (truthy side = false) as Ht by (destruct Hf as [->|[->|]]; done).
    destruct (falsy_mentions side Ht) as (H1 & H2 & H3 & H4). unfold mentions_key.
    rewrite H1, H4. cbn. split; [tauto|].
    intros [|[_ [[??]|(alts & alt & [= <-] & ?%elem_of_nil & _)]]]; done.
  - rewrite note_keys, note_alts_keys, note_keys, elem_of_cons. unfold mentions_key.
    rewrite Hk, Ha. split.
    + intros [[[Hm|(Hh & Hkey & Ht)]|(alt & Hin & Hh & Hkey & Ht)]|(Hh & Hin & Ht)].
      * by left.
      * right. split; [done|]. left. split; [done|]. destruct Hkey; [by left|right]. by exists hkeys.
      * right. split; [done|]. right. by exists alts, alt.
      * right. split; [done|]. left. split; [done|]. right. by exists hkeys.
    + intros [Hm|[Ht [[Hh [Hkey|(ks & [= <-] & Hin)]]|(as_ & alt & [= <-] & Hin & Hh & Hkey)]]].
      * tauto.
      * tauto.
      * tauto.
      * left. right. by exists alt.
Qed.

Lemma note_side_hids m side m' h :
  note_side m side = Ok m' -> h ∈ m'.*1 <-> h ∈ m.*1 \/ mentions_log side h.
Proof.
  intros [[Hf ->]|(hkeys & alts & Hk & Ha & ->)]%note_side_inv.
  - assert (truthy side = false) as Ht by (destruct Hf as [->|[->|]]; done).
    destruct (falsy_mentions side Ht) as (H1 & H2 & H3 & H4). unfold mentions_log.
    rewrite H1, H4. cbn. split; [tauto|].
    intros [|[Hh [->|(alts & alt & [= <-] & ?%elem_of_nil & _)]]]; done.
  - rewrite note_hids, note_alts_hids, note_hids. unfold mentions_log. rewrite Ha. split.
    + intros [[[Hm|(Ht & ->)]|(alt & Hin & Ht & ->)]|(Ht & ->)]; [tauto|tauto| |tauto].
      right. split; [done|]. right. by exists alts, alt.
    + intros [Hm|[Ht [->|(as_ & alt & [= <-] & Hin & ->)]]]; [tauto|tauto|].
      left. right. by exists alt.
Qed.

#[local] Transparent getq.

Lemma or_empty_mentions side k h :
  (mentions_key (or_empty side) k <-> mentions_key side k) /\
  (mentions_log (or_empty side) h <-> mentions_log side h).
Proof. by destruct side. Qed.

(** Every key kept in the map is truthy. *)
Lemma mentions_key_truthy side k : mentions_key side k -> truthy k = true.
Proof. by intros [? _]. Qed.

(** *** Reading the result *)

Lemma settings_of_get side k : k ∈ key_fields -> obj_get (settings_of side) k = None.
Proof.
  intros Hk. apply obj_get_None. unfold obj_keys, settings_of.
  intros ([k' v] & -> & [Hn _]%list_elem_of_filter)%list_elem_of_fmap. done.
Qed.

Lemma obj_spread_get {A} (o1 o2 : list (jstr * A)) k :
  obj_get o1 k = None -> obj_get o2 k = None -> obj_get (obj_spread o1 o2) k = None.
Proof.
  unfold obj_spread. revert o1. induction o2 as [|[k' v] o2 IH]; intros o1 H1 H2; cbn; [done|].
  cbn in H2. destruct (str_eqb k' k) eqn:E; [done|]. apply IH; [|done].
  by rewrite obj_get_put, E.
Qed.

Lemma elem_of_dedup_from l acc x : x ∈ dedup_from l acc <-> x ∈ acc \/ x ∈ l.
Proof.
  revert acc. induction l as [|y l IH]; intros acc; cbn; [rewrite elem_of_nil; tauto|].
  fold (dedup_from l (if includes acc y then acc else acc ++ [y])).
  rewrite IH, elem_of_cons. destruct (includes acc y) eqn:E.
  - apply includes_elem in E. split; [tauto|]. intros [?|[->|?]]; tauto.
  - rewrite elem_of_app, list_elem_of_singleton. tauto.
Qed.

Lemma elem_of_dedup l x : x ∈ dedup l <-> x ∈ l.
Proof. unfold dedup. fold (dedup_from l []). rewrite elem_of_dedup_from, elem_of_nil. tauto. Qed.

Lemma first_key_elem m h : truthy (first_key m h) = true -> first_key m h ∈ log_keys m.
Proof.
  unfold first_key. destruct (logs_get m h) as [[|k s]|] eqn:E; cbn; try done. intros _.
  apply logs_get_elem in E as (h' & Hm & _). apply elem_of_log_keys. exists h', (k :: s).
  split; [done|by left].
Qed.

Lemma preferred_key_elem side primary k :
  k ∈ preferred_key side primary -> truthy primary = true -> mentions_key side k.
Proof.
  unfold preferred_key. destruct (strict_eq _ _) eqn:E, (truthy side.["hkey"]) eqn:Ht; cbn;
    rewrite ?elem_of_nil; try done.
  intros ->%list_elem_of_singleton Hp. apply strict_eq_eq in E as <-. split; [done|]. auto.
Qed.

Lemma sort_values_perm l l' : sort_values l = Ok l' -> l' ≡ₚ l.
Proof.
  unfold sort_values. case_match; intros Hs; inv_ok; [done|].
  rewrite sort_by_perm. apply rmap_Ok_Forall2 in E.
  clear -E. induction E as [|x [s y] l ss Hx _ IH]; cbn; [done|]. inv_ok. by constructor.
Qed.

Section result.
Context (settings : obj) (primary hkey : val) (hkeys alts : list val).
Context (Hset : forall k, k ∈ key_fields -> obj_get settings k = None).

Lemma keyed_fields :
  getq (VObj (keyed settings primary hkey hkeys alts)) "hid" = primary /\
  getq (VObj (keyed settings primary hkey hkeys alts)) "hkey" = (if truthy hkey then hkey else VUndef) /\
  getq (VObj (keyed settings primary hkey hkeys alts)) "hkeys" ⁇ VArr [] = VArr hkeys /\
  getq (VObj (keyed settings primary hkey hkeys alts)) "alts" ⁇ VArr [] = VArr alts.
Proof.
  assert (obj_get settings (js "hkey") = None /\ obj_get settings (js "hkeys") = None /\
          obj_get settings (js "alts") = None) as (Hk & Hks & Ha).
  { split_and!; apply Hset, list_elem_of_In; cbn; tauto. }
  unfold getq, prop, keyed.
  destruct (truthy hkey), hkeys as [|k ks], alts as [|a as_];
    cbn [length bool_decide]; repeat case_bool_decide; try done;
    repeat rewrite obj_get_put; lit; rewrite ?Hk, ?Hks, ?Ha; done.
Qed.

Lemma channelKeys_keyed :
  exists ks, channelKeys (VObj (keyed settings primary hkey hkeys alts)) = Ok ks /\
    forall k, k ∈ ks <-> truthy k = true /\
      (k = hkey \/ k ∈ hkeys \/ exists a, a ∈ alts /\ k = a.["hkey"]).
Proof.
  destruct keyed_fields as (_ & Hk & Hks & Ha). unfold channelKeys. rewrite Hks. cbn [iterate rbind].
  rewrite Ha, Hk. eexists. split; [done|]. intros k.
  rewrite list_elem_of_filter, elem_of_cons, elem_of_app, list_elem_of_fmap.
  assert (forall k, (exists a, k = a.["hkey"] /\ a ∈ alts) <-> exists a, a ∈ alts /\ k = a.["hkey"]) as Hex.
  { intros k'. split; intros (a & ? & ?); by exists a. }
  rewrite Hex. destruct (truthy hkey) eqn:Ht; [done|].
  split; (intros [Hkt [Hc|Hc]]; [|by auto]); rewrite Hc in Hkt; [done|congruence].
Qed.
End result.

(** The settings a merge spreads hold none of the key fields. *)
Lemma spread_settings_get s1 s2 (b : bool) k :
  k ∈ key_fields ->
  obj_get (if b then obj_spread (settings_of s2) (settings_of s1)
           else obj_spread (settings_of s1) (settings_of s2)) k = None.
Proof. intros Hk. destruct b; apply obj_spread_get; by apply settings_of_get. Qed.

Lemma no_key_fields_channelKeys o :
  (forall k, k ∈ key_fields -> obj_get o k = None) -> channelKeys (VObj o) = Ok [].
Proof.
  intros Ho. unfold channelKeys, getq, prop.
  rewrite !Ho by (apply list_elem_of_In; cbn; tauto). done.
Qed.

(** What a merge that succeeds was made of. *)
Lemma mergeChanKeys_inv mine theirs w m :
  mergeChanKeys mine theirs w = Ok m ->
  exists ls settings,
    (forall k, k ∈ log_keys ls <-> mentions_key mine k \/ mentions_key theirs k) /\
    (forall h, h ∈ ls.*1 <-> mentions_log mine h \/ mentions_log theirs h) /\
    (forall k, k ∈ key_fields -> obj_get settings k = None) /\
    (ls = [] /\ m = VObj settings \/
     exists hids preferred,
       ls <> [] /\ sort_values ls.*1 = Ok hids /\
       let primary := default VUndef (head hids) in
       sort_values (preferred_key (or_empty mine) primary ++ preferred_key (or_empty theirs) primary)
         = Ok preferred /\
       let hkey := default (first_key ls primary) (head preferred) in
       m = VObj (keyed settings primary hkey
             (filter (fun k => truthy k && negb (strict_eq k hkey) = true) (dedup (log_keys ls)))
             (filter (fun a => truthy a.["hkey"] = true)
                ((fun hid => VObj [(js "hid", hid); (js "hkey", first_key ls hid)]) <$> tail hids)))).
Proof.
  unfold mergeChanKeys. intros H. inv_ok. rename a into m1, a0 into ls. exists ls.
  eexists. split_and!; [| |intros k Hk; by apply spread_settings_get|].
  - intros k. rewrite (note_side_keys _ _ _ k E0), (note_side_keys _ _ _ k E).
    rewrite !(proj1 (or_empty_mentions _ k VUndef)). cbn. rewrite elem_of_nil. tauto.
  - intros h. rewrite (note_side_hids _ _ _ h E0), (note_side_hids _ _ _ h E).
    rewrite !(proj2 (or_empty_mentions _ VUndef h)). cbn. rewrite elem_of_nil. tauto.
  - case_bool_decide as Hl; inv_ok.
    + left. split; [by destruct ls|done].
    + right. do 2 eexists. split_and!; [by intros ->|eauto..].
Qed.

(** Log ids are truthy; those of the program's own messages are strings. *)
Lemma mentions_log_truthy side h : mentions_log side h -> truthy h = true.
Proof. by intros [? _]. Qed.

Lemma head_elem {A} (l : list A) x : head l = Some x -> x ∈ l.
Proof. destruct l; [done|]. intros [= ->]. by left. Qed.

Lemma alt_hkey h k : getq (VObj [(js "hid", h); (js "hkey", k)]) "hkey" = k.
Proof. done. Qed.

(** The first log id in order is one that is known. *)
Lemma primary_known (ls : logs) hids :
  ls <> [] -> sort_values ls.*1 = Ok hids ->
  exists h r, hids = h :: r /\ h ∈ ls.*1.
Proof.
  intros Hne Hs. apply sort_values_perm in Hs. destruct hids as [|h r].
  - apply Permutation_nil in Hs. by destruct ls.
  - exists h, r. split; [done|]. rewrite <- Hs. by left.
Qed.

#[local] Opaque getq.

(** Merging two views of a channel's keys loses none and invents none:
    the keys a reader will try afterwards are exactly those that either view
    knew for some log, whichever side owned the settings. *)
Theorem mergeChanKeys_keeps_keys mine theirs w m :
  mergeChanKeys mine theirs w = Ok m ->
  exists ks, channelKeys m = Ok ks /\
    forall k, k ∈ ks <-> mentions_key mine k \/ mentions_key theirs k.
Proof.
  intros (ls & settings & Hks & Hhs & Hset & [[-> ->]|(hids & preferred & Hne & Hh & Hp & ->)])%mergeChanKeys_inv.
  { rewrite no_key_fields_channelKeys by done. exists []. split; [done|].
    intros k. by rewrite <- Hks. }
  destruct (primary_known ls hids Hne Hh) as (h & r & -> & Hin). cbn [head default from_option tail] in *.
  unfold id in *. assert (truthy h = true) as Hht.
  { apply Hhs in Hin as [Hin|Hin]; by eapply mentions_log_truthy. }
  match goal with |- context [keyed settings ?p ?hk ?ks ?alts] =>
    destruct (channelKeys_keyed settings p hk ks alts Hset) as (ks' & Hck & Hel); set (hkey := hk) in * end.
  exists ks'. split; [done|]. intros k. rewrite Hel, <- Hks. clear Hel Hck. split.
  - intros [Ht [->|[Hk|(a & [_ Ha]%list_elem_of_filter & ->)]]].
    + unfold hkey in *. destruct (head preferred) as [p|] eqn:E; [|by apply first_key_elem].
      apply head_elem in E. rewrite (sort_values_perm _ _ Hp), elem_of_app in E.
      apply Hks. rewrite <- (proj1 (or_empty_mentions mine _ VUndef)),
        <- (proj1 (or_empty_mentions theirs _ VUndef)).
      destruct E as [E|E]; [left|right]; by eapply preferred_key_elem.
    + apply list_elem_of_filter in Hk as [_ Hk]. by apply elem_of_dedup.
    + apply list_elem_of_fmap in Ha as (h' & -> & _).
      rewrite alt_hkey in *. by apply first_key_elem.
  - intros Hk. assert (truthy k = true) as Hkt.
    { apply Hks in Hk as [Hk|Hk]; by eapply mentions_key_truthy. }
    split; [done|].
    destruct (strict_eq k hkey) eqn:E; [left; by apply strict_eq_eq|right; left].
    apply list_elem_of_filter. split; [|by apply elem_of_dedup]. by rewrite E, Hkt.
Qed.

(** The head of a sorted list of strings is its least. *)
Lemma sort_values_least l h r :
  Forall (fun v => is_str v = true) l -> sort_values l = Ok (h :: r) ->
  exists s, h = VStr s /\ forall t, VStr t ∈ l -> str_ltb t s = false.
Proof.
  intros Hstr. unfold sort_values. destruct (length l <? 2)%nat eqn:Hlen.
  - intros [= ->]. apply Nat.ltb_lt in Hlen. destruct r; [|cbn in Hlen; lia].
    apply Forall_cons in Hstr as [Hh _]. destruct h; try done.
    eexists. split; [done|]. intros t [= ->]%list_elem_of_singleton. apply str_ltb_irrefl.
  - intros Hs. inv_ok. apply rmap_Ok_Forall2 in E.
    assert (Forall (fun p : jstr * val => p.2 = VStr p.1) a) as Ha.
    { clear -E Hstr. induction E as [|x p l ps Hx _ IH]; constructor;
        apply Forall_cons in Hstr as [Hx' Hstr]; [|auto]. destruct x; try done. cbn in Hx. by inv_ok. }
    assert (forall t, VStr t ∈ l -> (t, VStr t) ∈ a) as Hel.
    { clear -E. intros t Ht. apply list_elem_of_lookup in Ht as [i Hi].
      destruct (Forall2_lookup_l _ _ _ _ _ E Hi) as (p & Hp & Hx). cbn in Hx. inv_ok.
      by eapply list_elem_of_lookup_2. }
    pose proof (sort_by_in_order (fun a b : jstr * val => str_ltb b.1 a.1) (fun _ => True)) as Hso.
    specialize (Hso ltac:(intros x y _ _; apply str_ltb_asym)
                    ltac:(intros x y z _ _ _; apply str_geb_trans) a ltac:(by apply Forall_true)).
    pose proof (sort_by_perm (fun a b : jstr * val => str_ltb b.1 a.1) a) as Hperm.
    destruct (sort_by _ a) as [|[s v] ps]; [done|]. injection Hs as -> _.
    rewrite <- Hperm in Ha. apply Forall_cons in Ha as [Hsv _]. cbn in Hsv.
    exists s. split; [done|]. intros t Ht%Hel. rewrite <- Hperm in Ht.
    unfold in_order in Hso. apply StronglySorted_inv in Hso as [_ Hso].
    apply elem_of_cons in Ht as [[= -> _]|Ht]; [apply str_ltb_irrefl|].
    rewrite Forall_forall in Hso. by apply (Hso (t, VStr t)).
Qed.

#[local] Transparent getq.

(** The log a merge writes to is the least known, and there is one unless
    none is known. *)
Lemma mergeChanKeys_primary x y w m :
  (forall h, mentions_log x h \/ mentions_log y h -> is_str h = true) ->
  mergeChanKeys x y w = Ok m ->
  (m.["hid"] = VUndef /\ forall h, ~ (mentions_log x h \/ mentions_log y h)) \/
  exists s, m.["hid"] = VStr s /\ (mentions_log x (VStr s) \/ mentions_log y (VStr s)) /\
    forall t, mentions_log x (VStr t) \/ mentions_log y (VStr t) -> str_ltb t s = false.
Proof.
  intros Hstr
    (ls & settings & _ & Hhs & Hset & [[-> ->]|(hids & pr & Hne & Hh & _ & ->)])%mergeChanKeys_inv.
  - left. split; [|intros h Hm; by apply Hhs, elem_of_nil in Hm].
    unfold getq, prop. rewrite Hset; [done|]. apply list_elem_of_In; cbn; tauto.
  - right. destruct (primary_known ls hids Hne Hh) as (h & r & -> & Hin).
    destruct (sort_values_least ls.*1 h r) as (s & -> & Hs); [|done|].
    { apply Forall_forall. intros v Hv. by apply Hstr, Hhs. }
    exists s. rewrite (proj1 (keyed_fields _ _ _ _ _ Hset)). split_and!; [done|by apply Hhs|].
    intros t Ht. by apply Hs, Hhs.
Qed.

(** Two members who each merge the other's view of a channel agree on the
    log to write to, the least log id either knew, so a channel that was split
    by two members minting keys at once converges without a message. *)
Theorem mergeChanKeys_converges a b w1 w2 m1 m2 :
  (forall h, mentions_log a h \/ mentions_log b h -> is_str h = true) ->
  mergeChanKeys a b w1 = Ok m1 -> mergeChanKeys b a w2 = Ok m2 ->
  m1.["hid"] = m2.["hid"] /\
  (forall s t, m1.["hid"] = VStr s -> mentions_log a (VStr t) \/ mentions_log b (VStr t) ->
     str_ltb t s = false).
Proof.
  intros Hstr H1 H2.
  assert (forall h, mentions_log b h \/ mentions_log a h -> is_str h = true) as Hstr'.
  { intros h Hh. apply Hstr. tauto. }
  destruct (mergeChanKeys_primary a b w1 m1 Hstr H1) as [[Hu1 Hno1]|(s1 & Hs1 & Hk1 & Hl1)],
    (mergeChanKeys_primary b a w2 m2 Hstr' H2) as [[Hu2 Hno2]|(s2 & Hs2 & Hk2 & Hl2)].
  - split; [congruence|]. intros s t Hs. congruence.
  - exfalso. apply (Hno1 (VStr s2)). tauto.
  - exfalso. apply (Hno2 (VStr s1)). tauto.
  - split.
    + rewrite Hs1, Hs2. f_equal. apply str_ltb_trichotomy; [apply Hl2|apply Hl1]; tauto.
    + intros s t Hs Ht. rewrite Hs1 in Hs. injection Hs as <-. by apply Hl1.
Qed.

(** ** Witnesses *)

Definition view_a : val :=
  jobj [("topic", VStr (js "start")); ("hid", VStr (js "log-b")); ("hkey", VStr (js "k1"));
        ("hkeys", VArr [VStr (js "k0")])]%string.
Definition view_b : val :=
  jobj [("hid", VStr (js "log-a")); ("hkey", VStr (js "k2"))]%string.

Definition merged_ab : val :=
  jobj [("topic", VStr (js "start")); ("hid", VStr (js "log-a")); ("hkey", VStr (js "k2"));
        ("hkeys", VArr [VStr (js "k1"); VStr (js "k0")]);
        ("alts", VArr [jobj [("hid", VStr (js "log-b")); ("hkey", VStr (js "k1"))]])]%string.
Definition merged_ba : val :=
  jobj [("topic", VStr (js "start")); ("hid", VStr (js "log-a")); ("hkey", VStr (js "k2"));
        ("hkeys", VArr [VStr (js "k1"); VStr (js "k0")]);
        ("alts", VArr [jobj [("hid", VStr (js "log-b")); ("hkey", VStr (js "k1"))]])]%string.

Lemma views_string_logs h : mentions_log view_a h \/ mentions_log view_b h -> is_str h = true.
Proof.
  intros [[_ [->|(alts & alt & Ha & Hin & _)]]|[_ [->|(alts & alt & Ha & Hin & _)]]]; try done;
    vm_compute in Ha; injection Ha as <-; by apply elem_of_nil in Hin.
Qed.

Lemma mergeChanKeys_keeps_keys_witness :
  mergeChanKeys view_a view_b false = Ok merged_ab /\
  exists ks, channelKeys merged_ab = Ok ks /\
    forall k, k ∈ ks <-> mentions_key view_a k \/ mentions_key view_b k.
Proof.
  assert (mergeChanKeys view_a view_b false = Ok merged_ab) as E by (vm_compute; reflexivity).
  split; [exact E|]. exact (mergeChanKeys_keeps_keys view_a view_b false merged_ab E).
Defined.

Lemma mergeChanKeys_converges_witness : merged_ab.["hid"] = merged_ba.["hid"].
Proof.
  apply (mergeChanKeys_converges view_a view_b false true merged_ab merged_ba views_string_logs);
    vm_compute; reflexivity.
Defined.
