(* ===== verification/Envelope.v ===== *)
(** * The reducer (client/src/lib/envelope.js)

    What an authenticated envelope means for a circle's record.
    [applyEnvelope] mutates the record in place and lists effect descriptors;
    here it is a computation in a state-and-exception monad [M] whose state is
    the record with the effects emitted so far.  An exception keeps the
    mutations already made, as it does in the program, and loses the effects,
    which the caller then never receives.

    [Date.now()] is read as one instant [dateNow] per envelope. *)

From stdpp Require Import base list numbers option strings.
From Stdlib Require Import ZArith Lia.
From S2P Require Import Prelude JsNum JsString JsValue Board Games Overview Offers Quorum ChanKeys.
Open Scope Z_scope.

(** ** Data *)

Record rsvp := { rs_at : num; rs_ts : num }.

(** The fields of a circle's record the reducer reads or writes.  Channel
    names and channel settings come off the wire unvalidated. *)
Record circle := {
  c_id : jstr;
  c_name : val;
  c_channels : list val;
  c_voiceChannels : option (list val);
  c_deletedChannels : option (list val);
  c_deletedVoice : option (list val);
  c_chanMeta : option obj;
  c_overview : option overview;
  c_notices : option (list notice);
  c_offers : option (list offer);
  c_proposals : option (list proposal);
  c_threshold : option num;
  c_rsvps : option (list (jstr * rsvp));
  c_members : option (list jstr);
  c_pendingMetaSync : bool;
}.

Record reply := { rp_sender : jstr; rp_ts : num; rp_text : jstr }.

Inductive body := BText (text : val) | BGame (g : game_ref) | BFile (file : val).

Record message := {
  m_server : jstr;
  m_channel : val;
  m_sender : jstr;
  m_body : body;
  m_ts : num;
  m_reply : option reply;
}.

Inductive react_op := op_add | op_del.

Inductive effect :=
| EClearTyping (server sender : jstr)
| EStoreMessage (m : message)
| EPresence (server sender : jstr) (value : claim)
| EWant (server sender : jstr) (value : claim)
| ETyping (server sender : jstr) (channel : val)
| EReaction (server channel target_sender : jstr) (target_ts : num) (emo : jstr)
    (op : react_op) (by_ : jstr) (at_ : num)
| EEditMessage (server channel sender : jstr) (ts : num) (text : jstr) (at_ : num)
| EDeleteMessage (server channel sender : jstr) (ts : num) (at_ : num)
| ERefreshMessages
| ESystemMessage (server text : jstr) (channel : option val)
| EApplyRetention (channel : val)
| EBackfillHistory
| EBackup
| EQuorumCheck (id : val)
| ERenameMessages (server : jstr) (from to : val)
| EDeleteMessages (server : jstr) (channel : val)
| ELeaveVoice
| ERefreshRoles (server : jstr).

(** The context the controller resolves before the reducer runs. *)
Record context := {
  ctx_isAdmin : option bool;
  ctx_now : num;
  ctx_inCall : option (jstr * val);  (** server, channel *)
  ctx_dateNow : num;
}.

Definition is_admin (c : context) : bool := bool_decide (ctx_isAdmin c = Some true).

(** ** Record updates *)

Definition set_name (r : circle) (x : val) : circle :=
  {| c_id := c_id r; c_name := x; c_channels := c_channels r; c_voiceChannels := c_voiceChannels r;
     c_deletedChannels := c_deletedChannels r; c_deletedVoice := c_deletedVoice r;
     c_chanMeta := c_chanMeta r; c_overview := c_overview r; c_notices := c_notices r;
     c_offers := c_offers r; c_proposals := c_proposals r; c_threshold := c_threshold r;
     c_rsvps := c_rsvps r; c_members := c_members r; c_pendingMetaSync := c_pendingMetaSync r |}.
Definition set_channels (r : circle) (x : list val) : circle :=
  {| c_id := c_id r; c_name := c_name r; c_channels := x; c_voiceChannels := c_voiceChannels r;
     c_deletedChannels := c_deletedChannels r; c_deletedVoice := c_deletedVoice r;
     c_chanMeta := c_chanMeta r; c_overview := c_overview r; c_notices := c_notices r;
     c_offers := c_offers r; c_proposals := c_proposals r; c_threshold := c_threshold r;
     c_rsvps := c_rsvps r; c_members := c_members r; c_pendingMetaSync := c_pendingMetaSync r |}.
Definition set_voiceChannels (r : circle) (x : option (list val)) : circle :=
  {| c_id := c_id r; c_name := c_name r; c_channels := c_channels r; c_voiceChannels := x;
     c_deletedChannels := c_deletedChannels r; c_deletedVoice := c_deletedVoice r;
     c_chanMeta := c_chanMeta r; c_overview := c_overview r; c_notices := c_notices r;
     c_offers := c_offers r; c_proposals := c_proposals r; c_threshold := c_threshold r;
     c_rsvps := c_rsvps r; c_members := c_members r; c_pendingMetaSync := c_pendingMetaSync r |}.
Definition set_deletedChannels (r : circle) (x : option (list val)) : circle :=
  {| c_id := c_id r; c_name := c_name r; c_channels := c_channels r;
     c_voiceChannels := c_voiceChannels r; c_deletedChannels := x;
     c_deletedVoice := c_deletedVoice r; c_chanMeta := c_chanMeta r; c_overview := c_overview r;
     c_notices := c_notices r; c_offers := c_offers r; c_proposals := c_proposals r;
     c_threshold := c_threshold r; c_rsvps := c_rsvps r; c_members := c_members r;
     c_pendingMetaSync := c_pendingMetaSync r |}.
Definition set_deletedVoice (r : circle) (x : option (list val)) : circle :=
  {| c_id := c_id r; c_name := c_name r; c_channels := c_channels r;
     c_voiceChannels := c_voiceChannels r; c_deletedChannels := c_deletedChannels r;
     c_deletedVoice := x; c_chanMeta := c_chanMeta r; c_overview := c_overview r;
     c_notices := c_notices r; c_offers := c_offers r; c_proposals := c_proposals r;
     c_threshold := c_threshold r; c_rsvps := c_rsvps r; c_members := c_members r;
     c_pendingMetaSync := c_pendingMetaSync r |}.
Definition set_chanMeta (r : circle) (x : option obj) : circle :=
  {| c_id := c_id r; c_name := c_name r; c_channels := c_channels r;
     c_voiceChannels := c_voiceChannels r; c_deletedChannels := c_deletedChannels r;
     c_deletedVoice := c_deletedVoice r; c_chanMeta := x; c_overview := c_overview r;
     c_notices := c_notices r; c_offers := c_offers r; c_proposals := c_proposals r;
     c_threshold := c_threshold r; c_rsvps := c_rsvps r; c_members := c_members r;
     c_pendingMetaSync := c_pendingMetaSync r |}.
Definition set_overview (r : circle) (x : option overview) : circle :=
  {| c_id := c_id r; c_name := c_name r; c_channels := c_channels r;
     c_voiceChannels := c_voiceChannels r; c_deletedChannels := c_deletedChannels r;
     c_deletedVoice := c_deletedVoice r; c_chanMeta := c_chanMeta r; c_overview := x;
     c_notices := c_notices r; c_offers := c_offers r; c_proposals := c_proposals r;
     c_threshold := c_threshold r; c_rsvps := c_rsvps r; c_members := c_members r;
     c_pendingMetaSync := c_pendingMetaSync r |}.
Definition set_notices (r : circle) (x : option (list notice)) : circle :=
  {| c_id := c_id r; c_name := c_name r; c_channels := c_channels r;
     c_voiceChannels := c_voiceChannels r; c_deletedChannels := c_deletedChannels r;
     c_deletedVoice := c_deletedVoice r; c_chanMeta := c_chanMeta r; c_overview := c_overview r;
     c_notices := x; c_offers := c_offers r; c_proposals := c_proposals r;
     c_threshold := c_threshold r; c_rsvps := c_rsvps r; c_members := c_members r;
     c_pendingMetaSync := c_pendingMetaSync r |}.
Definition set_offers (r : circle) (x : option (list offer)) : circle :=
  {| c_id := c_id r; c_name := c_name r; c_channels := c_channels r;
     c_voiceChannels := c_voiceChannels r; c_deletedChannels := c_deletedChannels r;
     c_deletedVoice := c_deletedVoice r; c_chanMeta := c_chanMeta r; c_overview := c_overview r;
     c_notices := c_notices r; c_offers := x; c_proposals := c_proposals r;
     c_threshold := c_threshold r; c_rsvps := c_rsvps r; c_members := c_members r;
     c_pendingMetaSync := c_pendingMetaSync r |}.
Definition set_proposals (r : circle) (x : option (list proposal)) : circle :=
  {| c_id := c_id r; c_name := c_name r; c_channels := c_channels r;
     c_voiceChannels := c_voiceChannels r; c_deletedChannels := c_deletedChannels r;
     c_deletedVoice := c_deletedVoice r; c_chanMeta := c_chanMeta r; c_overview := c_overview r;
     c_notices := c_notices r; c_offers := c_offers r; c_proposals := x;
     c_threshold := c_threshold r; c_rsvps := c_rsvps r; c_members := c_members r;
     c_pendingMetaSync := c_pendingMetaSync r |}.
Definition set_threshold (r : circle) (x : option num) : circle :=
  {| c_id := c_id r; c_name := c_name r; c_channels := c_channels r;
     c_voiceChannels := c_voiceChannels r; c_deletedChannels := c_deletedChannels r;
     c_deletedVoice := c_deletedVoice r; c_chanMeta := c_chanMeta r; c_overview := c_overview r;
     c_notices := c_notices r; c_offers := c_offers r; c_proposals := c_proposals r;
     c_threshold := x; c_rsvps := c_rsvps r; c_members := c_members r;
     c_pendingMetaSync := c_pendingMetaSync r |}.
Definition set_rsvps (r : circle) (x : option (list (jstr * rsvp))) : circle :=
  {| c_id := c_id r; c_name := c_name r; c_channels := c_channels r;
     c_voiceChannels := c_voiceChannels r; c_deletedChannels := c_deletedChannels r;
     c_deletedVoice := c_deletedVoice r; c_chanMeta := c_chanMeta r; c_overview := c_overview r;
     c_notices := c_notices r; c_offers := c_offers r; c_proposals := c_proposals r;
     c_threshold := c_threshold r; c_rsvps := x; c_members := c_members r;
     c_pendingMetaSync := c_pendingMetaSync r |}.
Definition set_pendingMetaSync (r : circle) (x : bool) : circle :=
  {| c_id := c_id r; c_name := c_name r; c_channels := c_channels r;
     c_voiceChannels := c_voiceChannels r; c_deletedChannels := c_deletedChannels r;
     c_deletedVoice := c_deletedVoice r; c_chanMeta := c_chanMeta r; c_overview := c_overview r;
     c_notices := c_notices r; c_offers := c_offers r; c_proposals := c_proposals r;
     c_threshold := c_threshold r; c_rsvps := c_rsvps r; c_members := c_members r;
     c_pendingMetaSync := x |}.

(** ** The monad *)

Notation state := (circle * list effect)%type.
Definition M (A : Type) : Type := state -> res A * state.

Definition mret {A} (a : A) : M A := fun s => (Ok a, s).
Definition mbind {A B} (m : M A) (k : A -> M B) : M B := fun s =>
  match m s with
  | (Ok a, s') => k a s'
  | (Throw e, s') => (Throw e, s')
  end.
(** A pure computation that may throw. *)
Definition lift {A} (r : res A) : M A := fun s => (r, s).
Definition record : M circle := fun s => (Ok s.1, s).
Definition modify (f : circle -> circle) : M unit := fun s => (Ok tt, (f s.1, s.2)).
Definition emit (e : effect) : M unit := fun s => (Ok tt, (s.1, s.2 ++ [e])).
Definition when (b : bool) (m : M unit) : M unit := if b then m else mret tt.

Notation "'let!' x ':=' m 'in' k" := (mbind m (fun x => k))
  (at level 10, x binder, m at level 100, k at level 200,
   format "'[v' 'let!'  x  ':='  m  'in' '//' k ']'") : js_scope.
Notation "m ;;; k" := (mbind m (fun _ => k)) (at level 60, right associativity) : js_scope.

(** ** Helpers *)

Definition REPLY_TEXT_MAX : nat := 140.
Definition DELETED_MAX : nat := 200.

Definition normalizeReply (r : val) : res (option reply) :=
  if not_an_object r then Ok None else
  let* sender := clip_trim 64 r.["sender"] in
  let* ts := to_number r.["ts"] in
  if is_empty sender || negb (nfinite ts) || (ts <=ₙ Fin 0) then Ok None else
  let* text := clip REPLY_TEXT_MAX r.["text"] in
  Ok (Some {| rp_sender := sender; rp_ts := ts; rp_text := text |}).

Definition messageTs (claimed : val) (now : num) : res num :=
  let* t := to_number claimed in
  Ok (if nfinite t && (Fin 0 <ₙ t) then t else now).

Definition isCallChat (channel : val) : bool :=
  match channel with VStr s => starts_with (js "voice:") s | _ => false end.

Definition callChatChannel (room : jstr) : jstr := js "voice:" ++ room.

Definition describeRetention (seconds : val) : res jstr :=
  if negb (truthy seconds) then Ok (js "off") else
  let* n := to_number seconds in
  if neqb (nrem n (int 86400)) (Fin 0) then
    let d := ndiv n (int 86400) in
    Ok (if neqb d (int 1) then js "1 day" else num_to_string d ++ js " days")
  else if neqb (nrem n (int 3600)) (Fin 0) then
    let h := ndiv n (int 3600) in
    Ok (if neqb h (int 1) then js "1 hour" else num_to_string h ++ js " hours")
  else let* s := to_string seconds in Ok (s ++ js "s").

(** [meta] defaults to [{}] when [undefined]; reading [null] throws. *)
Definition describeChanMeta (meta0 : val) : res jstr :=
  let meta := or_empty meta0 in
  let* retention := get meta "retention" in
  let* first := if truthy retention
    then let* d := describeRetention retention in Ok (js "auto-delete: " ++ d)
    else Ok (js "auto-delete: off") in
  let* topic := get meta "topic" in
  let* rest := if truthy topic
    then let* t := to_string topic in Ok [js "topic: “" ++ t ++ js "”"]
    else Ok [] in
  Ok (js " (" ++ str_join (js ", ") (first :: rest) ++ js ")").

(** *** Tombstones *)

(** [(l ?? []).includes(ch)]. *)
Definition in_opt (l : option (list val)) (ch : val) : bool := includes (default [] l) ch.

Definition push_channel (ch : val) (r : circle) : circle := set_channels r (c_channels r ++ [ch]).

Definition ensureChannel (r : circle) (ch : val) : circle :=
  if isCallChat ch || includes (c_channels r) ch then r
  else if in_opt (c_deletedChannels r) ch then r
  else push_channel ch r.

(** [[...new Set([...(l ?? []), ch])].slice(-DELETED_MAX)]. *)
Definition entomb (l : option (list val)) (ch : val) : list val :=
  let s := dedup (default [] l ++ [ch]) in drop (length s - DELETED_MAX) s.

(** [if (l?.length) l = l.filter((c) => c !== ch)]. *)
Definition exhume (l : option (list val)) (ch : val) : option (list val) :=
  match l with
  | Some (x :: r) => Some (filter (fun c => strict_eq c ch = false) (x :: r))
  | _ => l
  end.

Definition markChannelDeleted (r : circle) (ch : val) : circle :=
  set_deletedChannels r (Some (entomb (c_deletedChannels r) ch)).
Definition clearChannelDeleted (r : circle) (ch : val) : circle :=
  set_deletedChannels r (exhume (c_deletedChannels r) ch).
Definition markVoiceDeleted (r : circle) (ch : val) : circle :=
  set_deletedVoice r (Some (entomb (c_deletedVoice r) ch)).
Definition clearVoiceDeleted (r : circle) (ch : val) : circle :=
  set_deletedVoice r (exhume (c_deletedVoice r) ch).

(** *** The admin gate *)

Record requirement := { destructive : bool; authorMayPass : bool }.

Definition is_kind (content : val) (k : string) : bool := strict_eq (VStr (js k)) content.["k"].
Definition is_op (content : val) (op : string) : bool := strict_eq (VStr (js op)) content.["op"].

Definition adminRequirement (content : val) : option requirement :=
  let k := is_kind content in
  if k "chan" || k "vchan" || k "overview"
  then Some {| destructive := false; authorMayPass := false |}
  else if k "chanset" || k "chan-ren" || k "chan-del" || k "vchan-ren" || k "vchan-del"
  then Some {| destructive := true; authorMayPass := false |}
  else if k "notice" || k "offer"
  then if is_op content "del" then Some {| destructive := true; authorMayPass := true |} else None
  else if k "quorum"
  then if is_op content "withdraw" then Some {| destructive := true; authorMayPass := true |} else None
  else if k "threshold"
  then Some {| destructive := true; authorMayPass := false |}
  else None.

Definition LOUNGE : list val := [VStr (js "lounge")].
Definition rooms_of (r : circle) : list val := default LOUNGE (c_voiceChannels r).

(** [record.chanMeta?.[ch]]: through the prototype, like any indexing. *)
Definition chanMeta_at (r : circle) (ch : jstr) : val :=
  match c_chanMeta r with None => VUndef | Some o => prop (VObj o) ch end.

(** ** Snapshots ([reconcileMeta] and [applyMeta]) *)

Section reducer.
Context `{CaseFold}.

(** [Object.entries(v).slice(0, 64)] read as answers: handle to [{at, ts}]. *)
Definition read_rsvp (dateNow : num) (v : val) : res (option rsvp) :=
  let* at_ := to_number v.["at"] in
  if negb (nfinite at_) then Ok None else
  let* ts := to_number v.["ts"] in
  Ok (Some {| rs_at := at_; rs_ts := if ntruthy ts then ts else dateNow |}).

Fixpoint reconcileRsvps (dateNow : num) (entries : obj) (acc : list (jstr * rsvp))
  : res (list (jstr * rsvp)) :=
  match entries with
  | [] => Ok acc
  | (handle, v) :: r =>
      let* a := read_rsvp dateNow v in
      reconcileRsvps dateNow r
        (match a with Some a => obj_assign acc (slice0 64 handle) a | None => acc end)
  end.

(** The fields a snapshot carries, each [None] when it does not carry it. *)
Record snapshot := {
  sn_channels : option (list val);
  sn_voiceChannels : option (list val);
  sn_overview : option (option overview);
  sn_chanMeta : option obj;
  sn_offers : option (list offer);
  sn_notices : option (list notice);
  sn_rsvps : option (list (jstr * rsvp));
}.

Definition nonempty_array (v : val) : option (list val) :=
  match v with VArr (x :: r) => Some (x :: r) | _ => None end.

Definition reconcileMeta (content : val) (dateNow : num) : res snapshot :=
  let channels := dedup <$> nonempty_array content.["channels"] in
  let voice := dedup <$> nonempty_array content.["voiceChannels"] in
  let* ov := match content.["overview"] with
             | VUndef => Ok None
             | v => let* o := normalizeOverview v dateNow in Ok (Some o)
             end in
  let meta := if not_an_object content.["chanMeta"] then None
              else Some (own_props content.["chanMeta"]) in
  let* offers := match content.["offers"] with
                 | VArr l => let* o := normalizeOffers (VArr l) dateNow in Ok (Some o)
                 | _ => Ok None
                 end in
  let* notices := match content.["notices"] with
                  | VArr l => let* n := reconcileNotices l dateNow in Ok (Some n)
                  | _ => Ok None
                  end in
  let* rsvps := if not_an_object content.["rsvps"] then Ok None
                else let* r := reconcileRsvps dateNow (take 64 (own_props content.["rsvps"])) [] in
                     Ok (Some r) in
  Ok {| sn_channels := channels; sn_voiceChannels := voice; sn_overview := ov;
        sn_chanMeta := meta; sn_offers := offers; sn_notices := notices; sn_rsvps := rsvps |}.

Definition or_keep {A} (x : option A) (set : circle -> A -> circle) (r : circle) : circle :=
  match x with Some a => set r a | None => r end.

(** [Object.assign(record, snapshot)]. *)
Definition adopt (s : snapshot) (r : circle) : circle :=
  or_keep (sn_channels s) set_channels $
  or_keep (sn_voiceChannels s) (fun r x => set_voiceChannels r (Some x)) $
  or_keep (sn_overview s) set_overview $
  or_keep (sn_chanMeta s) (fun r x => set_chanMeta r (Some x)) $
  or_keep (sn_offers s) (fun r x => set_offers r (Some x)) $
  or_keep (sn_notices s) (fun r x => set_notices r (Some x)) $
  or_keep (sn_rsvps s) (fun r x => set_rsvps r (Some x)) r.

(** Drop from a tombstone list whatever now exists. *)
Definition drop_existing (l : option (list val)) (existing : list val) : option (list val) :=
  match l with
  | Some (x :: r) => Some (filter (fun c => includes existing c = false) (x :: r))
  | _ => l
  end.

(** [for (const ch of incoming) if (!rooms.includes(ch) && !deleted.includes(ch)) rooms.push(ch)]. *)
Definition gap_fill (rooms : list val) (deleted : option (list val)) (incoming : list val)
  : list val :=
  fold_left (fun acc ch => if includes acc ch || in_opt deleted ch then acc else acc ++ [ch])
    incoming rooms.

(** Union a board in, when the payload has a non-empty list and the result
    is longer than what was held. *)
Definition adopt_longer {A} (mine : option (list A)) (merged : list A)
    (set : circle -> option (list A) -> circle) : M unit :=
  if bool_decide (length merged = length (default [] mine)) then mret tt
  else modify (fun r => set r (Some merged)) ;;; emit EBackup.

Fixpoint gap_fill_rsvps (dateNow : num) (entries : obj) (acc : list (jstr * rsvp))
  : res (list (jstr * rsvp)) :=
  match entries with
  | [] => Ok acc
  | (handle, v) :: r =>
      let* at_ := to_number v.["at"] in
      (* [merged[handle]] is truthy for any answer held, and for any name an
         object inherits *)
      let taken := match obj_get acc handle with
                   | Some _ => true
                   | None => truthy (proto_method [] handle)
                   end in
      if negb (nfinite at_) || taken then gap_fill_rsvps dateNow r acc else
      let* ts := to_number v.["ts"] in
      gap_fill_rsvps dateNow r
        (obj_assign acc (slice0 64 handle)
           {| rs_at := at_; rs_ts := if ntruthy ts then ts else dateNow |})
  end.

(** [mine[ch] = mergeChanKeys(mine[ch], meta, { mineWins: true })] over the
    entries; settings merged before an exception stay merged. *)
Fixpoint merge_all_keys (entries : obj) (mine : obj) : obj * res unit :=
  match entries with
  | [] => (mine, Ok tt)
  | (ch, meta) :: r =>
      match mergeChanKeys (prop (VObj mine) ch) meta true with
      | Ok v => merge_all_keys r (obj_assign mine ch v)
      | Throw e => (mine, Throw e)
      end
  end.

Definition applyMeta (content : val) (dateNow : num) : M unit :=
  modify (fun r => set_name r (content.["name"] ⁇ c_name r)) ;;;
  let! r0 := record in
  if c_pendingMetaSync r0 then
    modify (fun r => set_pendingMetaSync r false) ;;;
    let! s := lift (reconcileMeta content dateNow) in
    modify (adopt s) ;;;
    modify (fun r => set_deletedChannels r (drop_existing (c_deletedChannels r) (c_channels r))) ;;;
    modify (fun r => set_deletedVoice r
              (drop_existing (c_deletedVoice r) (default [] (c_voiceChannels r)))) ;;;
    emit EBackfillHistory ;;;
    emit EBackup
  else
    let! chans := lift (iterate (content.["channels"] ⁇ VArr [])) in
    modify (fun r => set_channels r (gap_fill (c_channels r) (c_deletedChannels r) chans)) ;;;
    when (truthy content.["voiceChannels"])
      (let! voice := lift (iterate content.["voiceChannels"]) in
       modify (fun r => set_voiceChannels r
                 (Some (gap_fill (rooms_of r) (c_deletedVoice r) voice)))) ;;;
    let! r1 := record in
    (match content.["overview"], c_overview r1 with
     | VUndef, _ | _, Some _ => mret tt
     | ov, None =>
         let! adopted := lift (normalizeOverview ov dateNow) in
         match adopted with
         | Some o => modify (fun r => set_overview r (Some o)) ;;; emit EBackup
         | None => mret tt
         end
     end) ;;;
    (match content.["notices"] with
     | VArr (x :: l) =>
         let! ns := lift (rmap (fun n => normalizeNotice n n.["author"] dateNow) (x :: l)) in
         let! r := record in
         adopt_longer (c_notices r) (mergeNotices (c_notices r) (somes ns)) set_notices
     | _ => mret tt
     end) ;;;
    (match content.["offers"] with
     | VArr (x :: l) =>
         let! os := lift (normalizeOffers (VArr (x :: l)) dateNow) in
         let! r := record in
         adopt_longer (c_offers r) (mergeOffers (c_offers r) os) set_offers
     | _ => mret tt
     end) ;;;
    (match content.["proposals"] with
     | VArr (x :: l) =>
         let! ps := lift (normalizeProposals (VArr (x :: l)) dateNow) in
         let! r := record in
         adopt_longer (c_proposals r) (mergeProposals (c_proposals r) ps) set_proposals
     | _ => mret tt
     end) ;;;
    (match content.["threshold"], c_threshold r1 with
     | VUndef, _ | _, Some _ => mret tt
     | t, None =>
         let! n := lift (normalizeThreshold t (int (Z.of_nat (length (default [] (c_members r1)))))) in
         modify (fun r => set_threshold r (Some n)) ;;; emit EBackup
     end) ;;;
    when (negb (not_an_object content.["rsvps"]))
      (let! merged := lift (gap_fill_rsvps dateNow (take 64 (own_props content.["rsvps"]))
                              (default [] (c_rsvps r1))) in
       modify (fun r => set_rsvps r (Some merged))) ;;;
    when (truthy content.["chanMeta"])
      (let '(mine, outcome) := merge_all_keys (own_props content.["chanMeta"])
                                 (default [] (c_chanMeta r1)) in
       match outcome with
       | Ok _ => modify (fun r => set_chanMeta r (Some mine)) ;;; emit EBackfillHistory
       | Throw e =>
           (* the object is shared with the record only if the record had one *)
           modify (fun r => set_chanMeta r (match c_chanMeta r1 with
                                            | Some _ => Some mine
                                            | None => None
                                            end)) ;;;
           lift (Throw e)
       end).

(** ** The cases of the switch *)

(** A string between double quotes. *)
Definition quoted (s : jstr) : jstr := [34%N] ++ s ++ [34%N].

Section cases.
Context (sender : jstr) (content : val) (ctx : context).
Let ch : val := content.["ch"].
Let to_ : val := content.["to"].
Let now : num := ctx_now ctx.
Let dateNow : num := ctx_dateNow ctx.

Definition inThisCall (r : circle) (room : val) : bool :=
  match ctx_inCall ctx with
  | Some (srv, c) => str_eqb srv (c_id r) && strict_eq c room
  | None => false
  end.

Definition store (b : body) (rep : option reply) : M unit :=
  let! r := record in
  let! ts := lift (messageTs content.["ts"] now) in
  emit (EStoreMessage {| m_server := c_id r; m_channel := ch; m_sender := sender;
                         m_body := b; m_ts := ts; m_reply := rep |}).

(** [emit({ t: 'systemMessage', server: record.id, text, channel })]. *)
Definition announce (text : res jstr) (channel : option val) : M unit :=
  let! r := record in
  let! t := lift text in
  emit (ESystemMessage (c_id r) t channel).

Definition on_chat : M unit :=
  modify (fun r => ensureChannel r ch) ;;;
  let! r := record in
  emit (EClearTyping (c_id r) sender) ;;;
  let! rep := lift (normalizeReply content.["reply"]) in
  store (BText content.["text"]) rep.

Definition on_game : M unit :=
  let! g := lift (normalizeGameRef content.["game"]) in
  match g with
  | None => mret tt
  | Some g => modify (fun r => ensureChannel r ch) ;;; store (BGame g) None
  end.

Definition on_file : M unit :=
  modify (fun r => ensureChannel r ch) ;;; store (BFile content.["file"]) None.

Definition on_pres : M unit :=
  let! r := record in
  let! c := lift (normalizePresence content dateNow) in
  emit (EPresence (c_id r) sender c).

Definition on_want : M unit :=
  let! r := record in
  let! c := lift (normalizeWant content dateNow) in
  emit (EWant (c_id r) sender c).

Definition on_type : M unit :=
  let! r := record in emit (ETyping (c_id r) sender ch).

Definition on_react : M unit :=
  let! emo := lift (clip_trim 8 content.["emo"]) in
  let target := to_ ⁇ VObj [] in
  let op := if is_op content "del" then op_del else op_add in
  if is_empty emo || negb (truthy target.["sender"]) then mret tt else
  let! tts := lift (to_number target.["ts"]) in
  if negb (nfinite tts) then mret tt else
  let! r := record in
  let! chan := lift (text_of ch) in
  let! tsender := lift (to_string target.["sender"]) in
  let! at_ := lift (messageTs content.["ts"] now) in
  emit (EReaction (c_id r) chan tsender tts emo op sender at_) ;;;
  emit ERefreshMessages.

Definition on_edit : M unit :=
  let! ts := lift (to_number to_.["ts"]) in
  let! text := lift (text_of content.["text"]) in
  if negb (nfinite ts) || is_empty text then mret tt else
  let! r := record in
  let! chan := lift (text_of ch) in
  let! at_ := lift (messageTs content.["ts"] now) in
  emit (EEditMessage (c_id r) chan sender ts text at_) ;;;
  emit ERefreshMessages.

Definition on_del : M unit :=
  let! ts := lift (to_number to_.["ts"]) in
  if negb (nfinite ts) then mret tt else
  let! r := record in
  let! chan := lift (text_of ch) in
  let! at_ := lift (messageTs content.["ts"] now) in
  emit (EDeleteMessage (c_id r) chan sender ts at_) ;;;
  emit ERefreshMessages.

Definition on_rsvp : M unit :=
  let! at_ := lift (to_number content.["at"]) in
  if negb (nfinite at_) then mret tt else
  modify (fun r =>
    let answers := default [] (c_rsvps r) in
    set_rsvps r (Some (if truthy content.["going"]
                       then obj_assign answers sender {| rs_at := at_; rs_ts := now |}
                       else obj_delete answers sender))).

Definition on_chanset : M unit :=
  modify (fun r => if includes (c_channels r) ch then r else push_channel ch r) ;;;
  let! key := lift (to_string ch) in
  let! r := record in
  let! merged := lift (mergeChanKeys (chanMeta_at r key) (content.["meta"] ⁇ VObj []) false) in
  modify (fun r => set_chanMeta r (Some (obj_put (default [] (c_chanMeta r)) key merged))) ;;;
  announce (let* d := describeChanMeta content.["meta"] in
            Ok (js "#" ++ key ++ js " settings changed by " ++ sender ++ d)) (Some ch) ;;;
  emit (EApplyRetention ch) ;;;
  emit EBackfillHistory ;;;
  emit EBackup.

Definition on_overview : M unit :=
  let! ov := lift (normalizeOverview content.["ov"] dateNow) in
  modify (fun r => set_overview r ov) ;;;
  announce (Ok (js "home base updated by " ++ sender)) None ;;;
  emit EBackup.

Definition on_notice : M unit :=
  if is_op content "add" then
    let! n := lift (normalizeNotice content.["n"] (VStr sender) dateNow) in
    match n with
    | Some n => modify (fun r => set_notices r (Some (upsertNotice (c_notices r) (Some n)))) ;;;
                emit EBackup
    | None => mret tt
    end
  else if is_op content "del" then
    let! r := record in
    let target := find_id content.["id"] (default [] (c_notices r)) in
    when (canRemoveNotice target sender (is_admin ctx))
      (modify (fun r => set_notices r
                 (Some (without_id content.["id"] (default [] (c_notices r))))) ;;;
       emit EBackup)
  else mret tt.

Definition on_offer : M unit :=
  if is_op content "add" then
    let! o := lift (normalizeOffer content.["o"] (VStr sender) dateNow) in
    match o with
    | Some o => modify (fun r => set_offers r (Some (upsertOffer (c_offers r) (Some o)))) ;;;
                emit EBackup
    | None => mret tt
    end
  else if is_op content "take" then
    modify (fun r => set_offers r
      (Some (applyTake (c_offers r) content.["id"] sender
               (negb (strict_eq content.["taking"] (VBool false)))))) ;;;
    emit EBackup
  else if is_op content "del" then
    let! r := record in
    let target := find_id content.["id"] (default [] (c_offers r)) in
    when (canRemoveOffer target sender (is_admin ctx))
      (modify (fun r => set_offers r
                 (Some (without_id content.["id"] (default [] (c_offers r))))) ;;;
       emit EBackup)
  else mret tt.

Definition on_quorum : M unit :=
  if is_op content "propose" then
    let! p := lift (normalizeProposal content.["p"] (VStr sender) dateNow) in
    match p with
    | Some p =>
        modify (fun r => set_proposals r (Some (upsertProposal (c_proposals r) (Some p)))) ;;;
        emit (EQuorumCheck (VStr (p_id p))) ;;;
        emit EBackup
    | None => mret tt
    end
  else if is_op content "sign" then
    modify (fun r => set_proposals r
      (Some (applySignature (c_proposals r) content.["id"] sender dateNow))) ;;;
    emit (EQuorumCheck content.["id"]) ;;;
    emit EBackup
  else if is_op content "object" then
    let! r := record in
    let! ps := lift (applyObjection (c_proposals r) content.["id"] sender content.["why"] dateNow) in
    modify (fun r => set_proposals r (Some ps)) ;;;
    emit EBackup
  else if is_op content "withdraw" then
    let! r := record in
    let target := find_id content.["id"] (default [] (c_proposals r)) in
    when (canWithdraw target sender (is_admin ctx))
      (modify (fun r => set_proposals r
                 (Some (without_id content.["id"] (default [] (c_proposals r))))) ;;;
       emit EBackup)
  else mret tt.

Definition on_threshold : M unit :=
  let! r := record in
  let! t := lift (normalizeThreshold content.["n"]
                    (int (Z.of_nat (length (default [] (c_members r)))))) in
  modify (fun r => set_threshold r (Some t)) ;;;
  announce (Ok (sender ++ js " set the signatures a new member needs to " ++ num_to_string t)) None ;;;
  emit EBackup.

Definition on_chan : M unit :=
  modify (fun r => clearChannelDeleted r ch) ;;;
  let! r := record in
  if includes (c_channels r) ch then mret tt else
  modify (push_channel ch) ;;;
  announce (let* c := to_string ch in Ok (js "#" ++ c ++ js " created by " ++ sender)) (Some ch) ;;;
  emit EBackup.

Definition on_vchan : M unit :=
  modify (fun r => clearVoiceDeleted r ch) ;;;
  let! r := record in
  let rooms := rooms_of r in
  if includes rooms ch then mret tt else
  modify (fun r => set_voiceChannels r (Some (rooms ++ [ch]))) ;;;
  announce (let* c := to_string ch in
            Ok (js "voice room " ++ quoted c ++ js " created by " ++ sender)) None.

(** [c === from ? to : c] over a list of rooms. *)
Definition rename_in (l : list val) (from to : val) : list val :=
  (fun c => if strict_eq c from then to else c) <$> l.

Definition on_chan_ren : M unit :=
  let! r0 := record in
  if negb (includes (c_channels r0) ch && negb (includes (c_channels r0) to_)) then mret tt else
  modify (fun r => set_channels r (rename_in (c_channels r) ch to_)) ;;;
  modify (fun r => markChannelDeleted r ch) ;;;
  modify (fun r => clearChannelDeleted r to_) ;;;
  let! r := record in
  (match c_chanMeta r with
   | None => mret tt
   | Some o =>
       let! from := lift (to_string ch) in
       when (truthy (prop (VObj o) from))
         (let! to_key := lift (to_string to_) in
          modify (fun r => set_chanMeta r
            (Some (obj_delete (obj_put o to_key (prop (VObj o) from)) from))))
   end) ;;;
  emit (ERenameMessages (c_id r) ch to_) ;;;
  announce (let* c := to_string ch in let* t := to_string to_ in
            Ok (js "#" ++ c ++ js " renamed to #" ++ t)) (Some to_) ;;;
  emit ERefreshMessages ;;;
  emit EBackup.

Definition on_chan_del : M unit :=
  let! r0 := record in
  if negb (includes (c_channels r0) ch && (1 <? length (c_channels r0))%nat) then mret tt else
  modify (fun r => set_channels r (filter (fun c => strict_eq c ch = false) (c_channels r))) ;;;
  modify (fun r => markChannelDeleted r ch) ;;;
  let! r := record in
  (match c_chanMeta r with
   | None => mret tt
   | Some o =>
       let! key := lift (to_string ch) in
       when (truthy (prop (VObj o) key))
         (modify (fun r => set_chanMeta r (Some (obj_delete o key))))
   end) ;;;
  emit (EDeleteMessages (c_id r) ch) ;;;
  announce (let* c := to_string ch in Ok (js "#" ++ c ++ js " deleted by " ++ sender)) None ;;;
  emit EBackup.

Definition on_vchan_ren : M unit :=
  let! r0 := record in
  let rooms := rooms_of r0 in
  if negb (includes rooms ch && negb (includes rooms to_)) then mret tt else
  modify (fun r => set_voiceChannels r (Some (rename_in rooms ch to_))) ;;;
  modify (fun r => markVoiceDeleted r ch) ;;;
  modify (fun r => clearVoiceDeleted r to_) ;;;
  when (inThisCall r0 ch) (emit ELeaveVoice) ;;;
  announce (let* c := to_string ch in let* t := to_string to_ in
            Ok (js "voice room " ++ quoted c ++ js " renamed to " ++ quoted t)) None ;;;
  emit EBackup.

Definition on_vchan_del : M unit :=
  let! r0 := record in
  let rooms := rooms_of r0 in
  if negb (includes rooms ch) then mret tt else
  modify (fun r => set_voiceChannels r (Some (filter (fun c => strict_eq c ch = false) rooms))) ;;;
  modify (fun r => markVoiceDeleted r ch) ;;;
  when (inThisCall r0 ch) (emit ELeaveVoice) ;;;
  announce (let* c := to_string ch in
            Ok (js "voice room " ++ quoted c ++ js " deleted by " ++ sender)) None ;;;
  emit EBackup.

Definition on_role : M unit :=
  announce (let* u := to_string content.["user"] in
            Ok (u ++ js " is now "
                ++ (if strict_eq (VStr (js "admin")) content.["role"]
                    then js "an admin" else js "a regular member")
                ++ js " (changed by " ++ sender ++ js ")")) None ;;;
  let! r := record in
  emit (ERefreshRoles (c_id r)).

(** The switch, in the source's order. *)
Definition dispatch : M unit :=
  let k := is_kind content in
  if k "chat" then on_chat
  else if k "game" then on_game
  else if k "file" then on_file
  else if k "pres" then on_pres
  else if k "want" then on_want
  else if k "type" then on_type
  else if k "react" then on_react
  else if k "edit" then on_edit
  else if k "del" then on_del
  else if k "rsvp" then on_rsvp
  else if k "meta" then applyMeta content dateNow
  else if k "chanset" then on_chanset
  else if k "overview" then on_overview
  else if k "notice" then on_notice
  else if k "offer" then on_offer
  else if k "quorum" then on_quorum
  else if k "threshold" then on_threshold
  else if k "chan" then on_chan
  else if k "vchan" then on_vchan
  else if k "chan-ren" then on_chan_ren
  else if k "chan-del" then on_chan_del
  else if k "vchan-ren" then on_vchan_ren
  else if k "vchan-del" then on_vchan_del
  else if k "role" then on_role
  else mret tt.

(** The gate, then the switch. *)
Definition reduce : M unit :=
  let refused := match adminRequirement content with
                 | Some need => negb (authorMayPass need) && negb (is_admin ctx)
                 | None => false
                 end in
  if refused then mret tt
  else match content with
       | VUndef | VNull => lift (Throw TypeError)
       | _ => dispatch
       end.
End cases.

(** The record after the call, with the effects or the exception. *)
Definition applyEnvelope (r : circle) (sender : jstr) (content : val) (ctx : context)
  : circle * res (list effect) :=
  match reduce sender content ctx (r, []) with
  | (Ok _, (r', effects)) => (r', Ok effects)
  | (Throw e, (r', _)) => (r', Throw e)
  end.
End reducer.
