(* ===== verification/Reducer.v ===== *)
(** * Theorems about the reducer

    A small program logic for the monad of Envelope.v ([holds]: what is true
    of the state however the computation ends, exception or not), and with it
    the invariants every envelope preserves and the limits on what a sender
    who is not an admin can do. *)

From stdpp Require Import base list numbers option strings.
From Stdlib Require Import ZArith Lia Sorting.Sorted Sorting.Permutation.
From S2P Require Import Prelude JsNum JsString JsValue Board Games Overview Offers Quorum ChanKeys Envelope.
Open Scope Z_scope.

Create HintDb cases.

(** ** The logic *)

(** [Q] is true of the state [m] ends in. *)
Definition holds {A} (m : M A) (Q : state -> Prop) (s : state) : Prop := Q (m s).2.

Section logic.
Context (Q : state -> Prop).

Lemma holds_ret {A} (a : A) s : Q s -> holds (mret a) Q s.
Proof. done. Qed.
Lemma holds_throw {A} e s : Q s -> holds (lift (Throw e : res A)) Q s.
Proof. done. Qed.
Lemma holds_modify f s : Q (f s.1, s.2) -> holds (modify f) Q s.
Proof. done. Qed.
Lemma holds_emit e s : Q (s.1, s.2 ++ [e]) -> holds (emit e) Q s.
Proof. done. Qed.

Lemma holds_bind_lift {A B} (x : res A) (k : A -> M B) s :
  Q s -> (forall a, x = Ok a -> holds (k a) Q s) -> holds (mbind (lift x) k) Q s.
Proof. intros Hs Hk. unfold holds, mbind, lift. destruct x; [by apply Hk | done]. Qed.
Lemma holds_bind_record {B} (k : circle -> M B) s :
  holds (k s.1) Q s -> holds (mbind record k) Q s.
Proof. done. Qed.
Lemma holds_bind_modify {B} f (k : unit -> M B) s :
  holds (k tt) Q (f s.1, s.2) -> holds (mbind (modify f) k) Q s.
Proof. done. Qed.
Lemma holds_bind_emit {B} e (k : unit -> M B) s :
  holds (k tt) Q (s.1, s.2 ++ [e]) -> holds (mbind (emit e) k) Q s.
Proof. done. Qed.
Lemma holds_bind_ret {A B} (a : A) (k : A -> M B) s :
  holds (k a) Q s -> holds (mbind (mret a) k) Q s.
Proof. done. Qed.
Lemma holds_bind_bind {A B C} (m : M A) (k1 : A -> M B) (k2 : B -> M C) s :
  holds (mbind m (fun a => mbind (k1 a) k2)) Q s -> holds (mbind (mbind m k1) k2) Q s.
Proof. unfold holds, mbind. by destruct (m s) as [[a|e] s']. Qed.
End logic.

Lemma holds_when (b : bool) (m : M unit) (Q : state -> Prop) s :
  (b = true -> holds m Q s) -> (b = false -> Q s) -> holds (when b m) Q s.
Proof. intros Ht Hf. destruct b; [by apply Ht | by apply Hf]. Qed.

Lemma holds_bind_when {B} (b : bool) (m : M unit) (k : unit -> M B) (Q : state -> Prop) s :
  (b = true -> holds (mbind m k) Q s) -> (b = false -> holds (k tt) Q s) ->
  holds (mbind (when b m) k) Q s.
Proof. intros Ht Hf. destruct b; [by apply Ht | by apply Hf]. Qed.

(** One step of symbolic execution: leaves the goals [Q s]. *)
Ltac step :=
  match goal with
  | |- holds (mret _) _ _ => apply holds_ret
  | |- holds (lift (Throw _)) _ _ => apply holds_throw
  | |- holds (modify _) _ _ => apply holds_modify
  | |- holds (emit _) _ _ => apply holds_emit
  | |- holds (when _ _) _ _ => apply holds_when; intros ?
  | |- holds (mbind (lift _) _) _ _ => apply holds_bind_lift; [| intros ? ?]
  | |- holds (mbind record _) _ _ => apply holds_bind_record
  | |- holds (mbind (modify _) _) _ _ => apply holds_bind_modify
  | |- holds (mbind (emit _) _) _ _ => apply holds_bind_emit
  | |- holds (mbind (mret _) _) _ _ => apply holds_bind_ret
  | |- holds (mbind (when _ _) _) _ _ => apply holds_bind_when; intros ?
  | |- holds (mbind (mbind _ _) _) _ _ => apply holds_bind_bind
  | |- holds (mbind (announce _ _) _) _ _ => unfold announce
  | |- holds (announce _ _) _ _ => unfold announce
  | |- holds (mbind (adopt_longer _ _ _) _) _ _ => unfold adopt_longer
  | |- holds (store _ _ _ _ _) _ _ => unfold store
  | |- holds (mbind (match ?x with _ => _ end) _) _ _ => destruct x eqn:?
  | |- holds (match ?x with _ => _ end) _ _ => destruct x eqn:?
  end.
Ltac walk := repeat (step; cbn [fst snd] in * ).

(** A property of the state that a computation keeps, whatever the state it
    starts in: composes without following every path. *)
Section keeps.
Context (I : state -> Prop).

Definition keeps {A} (m : M A) : Prop := forall s, I s -> holds m I s.

Lemma keeps_ret {A} (a : A) : keeps (mret a).
Proof. by intros s Hs. Qed.
Lemma keeps_lift {A} (x : res A) : keeps (lift x).
Proof. by intros s Hs. Qed.
Lemma keeps_emit e : (forall r es, I (r, es) -> I (r, es ++ [e])) -> keeps (emit e).
Proof. intros He [r es] Hs. by apply He. Qed.
Lemma keeps_modify f : (forall r es, I (r, es) -> I (f r, es)) -> keeps (modify f).
Proof. intros Hf [r es] Hs. by apply Hf. Qed.
Lemma keeps_bind {A B} (m : M A) (k : A -> M B) :
  keeps m -> (forall a, keeps (k a)) -> keeps (mbind m k).
Proof.
  intros Hm Hk s Hs. specialize (Hm s Hs). unfold holds, mbind in *.
  destruct (m s) as [[a|e] s']; [by apply Hk | done].
Qed.
Lemma keeps_bind_lift {A B} (x : res A) (k : A -> M B) :
  (forall a, x = Ok a -> keeps (k a)) -> keeps (mbind (lift x) k).
Proof.
  intros Hk s Hs. unfold holds, mbind, lift. destruct x; [by apply Hk | done].
Qed.
Lemma keeps_bind_record {B} (k : circle -> M B) :
  (forall r es, I (r, es) -> keeps (k r)) -> keeps (mbind record k).
Proof. intros Hk [r es] Hs. by apply (Hk r es). Qed.
Lemma keeps_when b m : (b = true -> keeps m) -> keeps (when b m).
Proof. intros Hm. destruct b; [by apply Hm | apply keeps_ret]. Qed.
End keeps.

Ltac keep :=
  repeat match goal with
  | |- keeps _ (mbind (lift _) _) => apply keeps_bind_lift; intros ? ?
  | |- keeps _ (mbind record _) => apply keeps_bind_record; intros ? ? ?
  | |- keeps _ (mbind _ _) => apply keeps_bind; [| intros ?]
  | |- keeps _ (mret _) => apply keeps_ret
  | |- keeps _ (lift _) => apply keeps_lift
  | |- keeps _ (emit _) => apply keeps_emit; intros ? ? ?
  | |- keeps _ (when _ _) => apply keeps_when; intros ?
  | |- keeps _ (modify _) => apply keeps_modify; intros ? ? ?
  | |- keeps _ (adopt_longer _ _ _) => unfold adopt_longer
  | |- keeps _ (announce _ _) => unfold announce
  | |- keeps _ (store _ _ _ _ _) => unfold store
  | |- keeps _ (match ?x with _ => _ end) => destruct x eqn:?
  end.

#[export] Hint Unfold on_chat on_game on_file on_pres on_want on_type on_react on_edit on_del
  on_rsvp on_chanset on_overview on_notice on_offer on_quorum on_threshold on_chan on_vchan
  on_chan_ren on_chan_del on_vchan_ren on_vchan_del on_role : cases.

(** One goal per case of the switch. *)
Ltac split_kinds :=
  repeat lazymatch goal with
  | |- holds (if is_kind ?c ?k then _ else _) _ _ => destruct (is_kind c k); [|]
  end.

(** ** The gate *)

Section gate.
Context `{CaseFold}.

(** What the final record satisfies, for any envelope. *)
Lemma applyEnvelope_holds r sender content ctx (P : circle -> Prop) :
  P r -> holds (dispatch sender content ctx) (fun s => P s.1) (r, []) ->
  P (applyEnvelope r sender content ctx).1.
Proof.
  intros Hr Hd. unfold applyEnvelope, reduce.
  destruct (match adminRequirement content with Some _ => _ | None => _ end); [done|].
  unfold holds in Hd.
  destruct content; try done;
    destruct (dispatch _ _ _ _) as [[?|?] [??]]; done.
Qed.

(** A kind that needs an admin and did not get one changes nothing. *)
Lemma applyEnvelope_refused r sender content ctx need :
  adminRequirement content = Some need -> authorMayPass need = false ->
  is_admin ctx = false -> applyEnvelope r sender content ctx = (r, Ok []).
Proof.
  intros Hn Ha Hi. unfold applyEnvelope, reduce. by rewrite Hn, Ha, Hi.
Qed.
End gate.

(** ** Rooms *)

Lemma gap_fill_grows rooms del incoming :
  exists extra, gap_fill rooms del incoming = rooms ++ extra /\
    Forall (fun c => in_opt del c = false) extra.
Proof.
  unfold gap_fill. revert rooms. induction incoming as [|x l IH]; intros rooms; cbn.
  - exists []. by rewrite app_nil_r.
  - destruct (includes rooms x || in_opt del x) eqn:E; [apply IH|].
    apply orb_false_iff in E as [_ E]. destruct (IH (rooms ++ [x])) as (ex & -> & Hex).
    exists (x :: ex). rewrite <- app_assoc. split; [done|by constructor].
Qed.

Lemma gap_fill_distinct rooms del incoming :
  distinct rooms -> distinct (gap_fill rooms del incoming).
Proof.
  unfold gap_fill. revert rooms. induction incoming as [|x l IH]; intros rooms Hr; cbn; [done|].
  apply IH. destruct (includes rooms x) eqn:E; cbn; [done|].
  destruct (in_opt del x); [done|]. by apply distinct_snoc.
Qed.

Lemma ensureChannel_distinct r ch :
  distinct (c_channels r) -> distinct (c_channels (ensureChannel r ch)).
Proof.
  unfold ensureChannel. intros Hd. destruct (isCallChat ch || _) eqn:E; [done|].
  destruct (in_opt _ _); [done|]. apply orb_false_iff in E as [_ E]. by apply distinct_snoc.
Qed.

Lemma rename_in_distinct l from to :
  distinct l -> includes l to = false -> distinct (rename_in l from to).
Proof.
  induction l as [|x l IH]; cbn; [done|]. rewrite includes_cons.
  intros [Hx Hl] [Hxt Ht]%orb_false_iff. split; [|by apply IH]. apply includes_false. intros z (y & -> & Hy)%list_elem_of_fmap.
  rewrite includes_false in Hx, Ht.
  destruct (strict_eq x from) eqn:Ex, (strict_eq y from) eqn:Ey; try done.
  - apply strict_eq_eq in Ey as ->. apply strict_same in Ex.
    specialize (Hx from Hy). by rewrite same_value_sym, Ex in Hx.
  - by apply Ht.
  - by rewrite same_value_sym.
  - by apply Hx.
Qed.

Lemma rename_in_nonempty l from to : l <> [] -> rename_in l from to <> [].
Proof. by destruct l. Qed.

(** With no repeated name, removing one of several leaves one. *)
Lemma remove_one_nonempty l ch :
  distinct l -> (1 < length l)%nat -> filter (fun c => strict_eq c ch = false) l <> [].
Proof.
  destruct l as [|x [|y l]]; [cbn; lia | cbn; lia |]. intros [Hxy _] _.
  rewrite includes_cons in Hxy. apply orb_false_iff in Hxy as [Hxy _].
  rewrite !filter_cons. destruct (decide (strict_eq x ch = false)) as [|Hx]; [done|].
  destruct (decide (strict_eq y ch = false)) as [|Hy]; [done|].
  apply not_false_is_true in Hx, Hy. apply strict_eq_eq in Hy as <-.
  apply strict_same in Hx. by rewrite same_value_sym, Hx in Hxy.
Qed.

(** A circle always has a text channel, and no name twice. *)
Definition rooms_ok (r : circle) : Prop := c_channels r <> [] /\ distinct (c_channels r).

Lemma app_nonempty {A} (l1 l2 : list A) : l1 <> [] -> l1 ++ l2 <> [].
Proof. by destruct l1. Qed.

Lemma gap_fill_nonempty rooms del incoming : rooms <> [] -> gap_fill rooms del incoming <> [].
Proof.
  destruct (gap_fill_grows rooms del incoming) as (ex & -> & _). apply app_nonempty.
Qed.

Lemma ensureChannel_rooms_ok r ch : rooms_ok r -> rooms_ok (ensureChannel r ch).
Proof.
  intros [Hn Hd]; split; [|by apply ensureChannel_distinct].
  unfold ensureChannel. repeat case_match; try done. by apply app_nonempty.
Qed.

Lemma push_channel_rooms_ok r ch :
  rooms_ok r -> includes (c_channels r) ch = false -> rooms_ok (push_channel ch r).
Proof. intros [Hn Hd] Hc; split; [by apply app_nonempty | by apply distinct_snoc]. Qed.

Lemma push_absent_rooms_ok r ch :
  rooms_ok r -> rooms_ok (if includes (c_channels r) ch then r else push_channel ch r).
Proof. intros Hr. case_match; [done|]. by apply push_channel_rooms_ok. Qed.

Lemma rooms_ok_channels r l : c_channels r = l -> l <> [] -> distinct l -> rooms_ok r.
Proof. by intros <- ??; split. Qed.

Lemma rooms_ok_ext r r' : c_channels r = c_channels r' -> rooms_ok r' -> rooms_ok r.
Proof. intros E [Hn Hd]. by split; rewrite E. Qed.

Section rooms.
Context `{CaseFold}.

Lemma nonempty_array_Some v l : nonempty_array v = Some l -> l <> [].
Proof. destruct v as [| | | | |[|x r]| |]; cbn; try done. by intros [= <-]. Qed.

Lemma reconcileMeta_channels content dn s :
  reconcileMeta content dn = Ok s ->
  forall l, sn_channels s = Some l -> l <> [] /\ distinct l.
Proof.
  unfold reconcileMeta. intros Hs; inv_ok. cbn. intros l.
  destruct (nonempty_array content.["channels"]) as [l0|] eqn:Hna; cbn; [|done].
  intros [= <-]. split; [|apply dedup_distinct]. apply dedup_nonempty.
  by eapply nonempty_array_Some.
Qed.

Lemma adopt_channels s r :
  c_channels (adopt s r) = default (c_channels r) (sn_channels s).
Proof.
  unfold adopt, or_keep. destruct (sn_channels s); cbn; [done|].
  by repeat case_match.
Qed.

Lemma applyMeta_rooms_ok content dn : keeps (fun s => rooms_ok s.1) (applyMeta content dn).
Proof.
  unfold applyMeta. keep; cbn [fst] in *; try done.
  - match goal with E : reconcileMeta _ _ = Ok _, Hr : rooms_ok _ |- _ =>
      pose proof (reconcileMeta_channels _ _ _ E) as Hc; destruct Hr as [Hn Hd] end.
    unfold rooms_ok. rewrite adopt_channels. destruct (sn_channels _); cbn; auto.
  - match goal with Hr : rooms_ok ?r |- rooms_ok (set_channels ?r _) => destruct Hr end.
    split; cbn; [by apply gap_fill_nonempty | by apply gap_fill_distinct].
Qed.

(** Every case of the switch keeps [rooms_ok]. *)
Lemma dispatch_rooms_ok sender content ctx r :
  rooms_ok r -> holds (dispatch sender content ctx) (fun s => rooms_ok s.1) (r, []).
Proof.
  intros Hr. pose proof Hr as [Hn Hd].
  unfold dispatch. cbn zeta. split_kinds.
  all: autounfold with cases.
  all: try (walk; by auto using ensureChannel_rooms_ok).
  1: by apply applyMeta_rooms_ok.
  all: walk; try done.
  all: try (eapply rooms_ok_ext; [|by apply push_absent_rooms_ok]; reflexivity).
  all: try (by apply push_channel_rooms_ok).
  all: match goal with E : negb (_ && _) = false |- _ =>
         apply negb_false_iff, andb_true_iff in E as [_ E] end.
  all: eapply rooms_ok_channels; [reflexivity| |]; cbn -[filter rename_in].
  all: auto using rename_in_nonempty, distinct_filter.
  all: first [apply remove_one_nonempty; [done|by apply Nat.ltb_lt]
             |apply rename_in_distinct; [done|by apply negb_true_iff]].
Qed.
End rooms.

(** ** What a sender who is not an admin can do *)

(** Rooms are only added, and never one that was deleted; what admins set
    stays set. *)
Record grows (r r' : circle) : Prop := {
  gr_channels : exists extra, c_channels r' = c_channels r ++ extra /\
    Forall (fun c => in_opt (c_deletedChannels r) c = false) extra;
  gr_voice : exists extra, rooms_of r' = rooms_of r ++ extra /\
    Forall (fun c => in_opt (c_deletedVoice r) c = false) extra;
  gr_tombs : c_deletedChannels r' = c_deletedChannels r;
  gr_voice_tombs : c_deletedVoice r' = c_deletedVoice r;
  gr_threshold : is_Some (c_threshold r) -> c_threshold r' = c_threshold r;
  gr_overview : is_Some (c_overview r) -> c_overview r' = c_overview r;
  gr_members : c_members r' = c_members r;
  gr_id : c_id r' = c_id r;
}.

Lemma extend_nil {A} (P : A -> Prop) l : exists extra, l = l ++ extra /\ Forall P extra.
Proof. exists []. by rewrite app_nil_r. Qed.

Lemma grows_refl r : grows r r.
Proof. split; auto using extend_nil. Qed.

Lemma extend_trans {A} (P : A -> Prop) l1 l2 l3 :
  (exists e, l2 = l1 ++ e /\ Forall P e) -> (exists e, l3 = l2 ++ e /\ Forall P e) ->
  exists e, l3 = l1 ++ e /\ Forall P e.
Proof.
  intros (e1 & -> & H1) (e2 & -> & H2). exists (e1 ++ e2).
  rewrite app_assoc. split; [done|]. by apply Forall_app.
Qed.

Lemma grows_trans r1 r2 r3 : grows r1 r2 -> grows r2 r3 -> grows r1 r3.
Proof.
  intros H1 H2. destruct H1, H2. split; try congruence.
  - rewrite gr_tombs0 in *. by eapply extend_trans.
  - rewrite gr_voice_tombs0 in *. by eapply extend_trans.
  - intros Ht. rewrite gr_threshold1 by (by rewrite gr_threshold0). auto.
  - intros Ht. rewrite gr_overview1 by (by rewrite gr_overview0). auto.
Qed.

Lemma ensureChannel_grows r ch : grows r (ensureChannel r ch).
Proof.
  unfold ensureChannel. case_match; [apply grows_refl|]. case_match; [apply grows_refl|].
  split; cbn; auto using extend_nil. exists [ch]. repeat constructor. done.
Qed.

(** Filling a gap keeps what was set: there was nothing. *)
Lemma grows_overview_gap r0 r1 r2 x :
  grows r0 r1 -> c_overview r1 = None -> grows r0 r2 -> grows r0 (set_overview r2 x).
Proof.
  intros [_ _ _ _ _ Ho _ _] Hn []. split; cbn; auto.
  intros Hs. specialize (Ho Hs). rewrite Hn in Ho. rewrite <- Ho in Hs. by destruct Hs.
Qed.

Lemma grows_threshold_gap r0 r1 r2 x :
  grows r0 r1 -> c_threshold r1 = None -> grows r0 r2 -> grows r0 (set_threshold r2 x).
Proof.
  intros [_ _ _ _ Ho _ _ _] Hn []. split; cbn; auto.
  intros Hs. specialize (Ho Hs). rewrite Hn in Ho. rewrite <- Ho in Hs. by destruct Hs.
Qed.

Section members.
Context `{CaseFold}.

(** The kinds whose sender must be an admin. *)
Definition admin_kinds : list string :=
  ["chan"; "vchan"; "overview"; "chanset"; "chan-ren"; "chan-del"; "vchan-ren";
   "vchan-del"; "threshold"]%string.

Lemma gated_kind content k :
  is_kind content k = true -> k ∈ admin_kinds ->
  exists need, adminRequirement content = Some need /\ authorMayPass need = false.
Proof.
  unfold adminRequirement, is_kind. intros Hk%strict_eq_str Hin. rewrite Hk.
  repeat (apply elem_of_cons in Hin as [->|Hin]; [by eexists|]). by inversion Hin.
Qed.

(** Without a pending snapshot the metadata union only adds. *)
Lemma applyMeta_grows content dn r0 r es :
  c_pendingMetaSync r = false -> grows r0 r ->
  holds (applyMeta content dn) (fun s => grows r0 s.1) (r, es).
Proof.
  intros Hp Hg. unfold applyMeta. step; cbn [fst snd]. step; cbn [fst snd].
  replace (c_pendingMetaSync _) with false by done. cbn match.
  assert (forall r1 r2, grows r0 r1 -> grows r1 r2 -> grows r0 r2) as Ht by eauto using grows_trans.
  match goal with |- holds ?m _ (?r', _) => assert (grows r0 r') as Hg' end.
  { eapply Ht; [exact Hg|]. split; auto using extend_nil. }
  revert Hg'. generalize (set_name r (content.["name"] ⁇ c_name r)). clear r Hp Hg. intros r Hg.
  match goal with |- holds ?m _ _ => assert (keeps (fun s => grows r0 s.1) m) as Hk; [|by apply Hk] end.
  keep; cbn [fst] in *; try done; eauto using grows_overview_gap, grows_threshold_gap.
  all: eapply Ht; [eassumption|].
  all: try (split; by auto using extend_nil).
  - split; cbn; auto using extend_nil, gap_fill_grows.
  - split; cbn; auto using extend_nil, gap_fill_grows.
Qed.

(** Every case a sender who is not an admin reaches. *)
Lemma dispatch_grows sender content ctx r :
  (forall need, adminRequirement content = Some need -> authorMayPass need = true) ->
  c_pendingMetaSync r = false ->
  holds (dispatch sender content ctx) (fun s => grows r s.1) (r, []).
Proof.
  intros Hgate Hp. pose proof (grows_refl r) as Hr.
  unfold dispatch. cbn zeta.
  repeat lazymatch goal with
  | |- holds (if is_kind content ?k then _ else _) _ _ =>
      let E := fresh "Hk" in destruct (is_kind content k) eqn:E; [|clear E]
  end.
  all: try (match goal with Hk : is_kind _ _ = true |- _ =>
         destruct (gated_kind _ _ Hk) as (need & Hn & Ha); [apply list_elem_of_In; cbn; tauto|];
         by rewrite (Hgate _ Hn) in Ha end).
  1-10,12-14: autounfold with cases; walk; try done; auto using ensureChannel_grows.
  all: try (split; by auto using extend_nil).
  - by apply applyMeta_grows.
  - autounfold with cases; walk; done.
Qed.
End members.

Section growth.
Context `{CaseFold}.

(** C4: on a device that does not wait for a snapshot (one that does takes what
    it waits for from whoever sends it), an envelope from a sender who is not an
    admin only ever adds rooms, never one the circle has deleted, and leaves the
    tombstones, a set threshold and a set home base as they were. *)
Theorem members_only_add_rooms r sender content ctx :
  is_admin ctx = false -> c_pendingMetaSync r = false ->
  grows r (applyEnvelope r sender content ctx).1.
Proof.
  intros Ha Hp.
  destruct (adminRequirement content) as [need|] eqn:Hn.
  - destruct (authorMayPass need) eqn:Hm.
    + apply applyEnvelope_holds; [apply grows_refl|]. apply dispatch_grows; [|done].
      intros ? [= <-]%(eq_trans (eq_sym Hn)). done.
    + rewrite (applyEnvelope_refused _ _ _ _ need) by done. apply grows_refl.
  - apply applyEnvelope_holds; [apply grows_refl|]. apply dispatch_grows; [|done].
    intros ? E. by rewrite Hn in E.
Qed.

(** C10: every envelope, from anyone and with any payload, leaves a circle
    that had a text channel and no repeated name with a text channel and no
    repeated name, also when applying it throws half way. *)
Theorem envelope_keeps_rooms r sender content ctx :
  rooms_ok r -> rooms_ok (applyEnvelope r sender content ctx).1.
Proof. intros Hr. by apply applyEnvelope_holds; [|apply dispatch_rooms_ok]. Qed.

(** An envelope whose kind needs an admin, from a sender not resolved as
    one, changes nothing and asks for no effect; the kinds that need one are
    creating, renaming and deleting rooms, channel settings, the home base
    and the threshold. *)
Theorem gate_fails_closed r sender content ctx k :
  is_kind content k = true -> k ∈ admin_kinds -> is_admin ctx = false -> applyEnvelope r sender content ctx = (r, Ok []).
Proof.
  intros Hk Hin Ha. destruct (gated_kind content k Hk Hin) as (need & Hn & Hm).
  by apply (applyEnvelope_refused _ _ _ _ need).
Qed.
End growth.

(** ** Witnesses *)

(** Case folding on ASCII, for concrete runs. *)
Definition ascii_fold : CaseFold := fun s => ascii_lower <$> s.

Definition no_boards : circle :=
  {| c_id := js "circle"; c_name := VStr (js "race team");
     c_channels := [VStr (js "general"); VStr (js "start")];
     c_voiceChannels := None; c_deletedChannels := Some [VStr (js "old")]; c_deletedVoice := None;
     c_chanMeta := None; c_overview := None; c_notices := None; c_offers := None;
     c_proposals := None; c_threshold := Some (int 2); c_rsvps := None;
     c_members := Some [js "alice"; js "bob"; js "carol"; js "mallory"];
     c_pendingMetaSync := false |}.

Definition as_member : context :=
  {| ctx_isAdmin := Some false; ctx_now := int 1000; ctx_inCall := None; ctx_dateNow := int 1000 |}.
Definition as_admin : context :=
  {| ctx_isAdmin := Some true; ctx_now := int 1000; ctx_inCall := None; ctx_dateNow := int 1000 |}.

Definition delete_start : val :=
  jobj [("k", VStr (js "chan-del")); ("ch", VStr (js "start"))]%string.

Lemma members_only_add_rooms_witness :
  grows no_boards (@applyEnvelope ascii_fold no_boards (js "mallory") delete_start as_member).1.
Proof.
  apply (@members_only_add_rooms ascii_fold no_boards (js "mallory") delete_start as_member);
    reflexivity.
Defined.

Lemma envelope_keeps_rooms_witness :
  rooms_ok (@applyEnvelope ascii_fold no_boards (js "alice") delete_start as_admin).1 /\
  c_channels (@applyEnvelope ascii_fold no_boards (js "alice") delete_start as_admin).1
    = [VStr (js "general")].
Proof.
  split; [|vm_compute; reflexivity].
  apply (@envelope_keeps_rooms ascii_fold no_boards (js "alice") delete_start as_admin).
  split; [discriminate | repeat split].
Defined.

Lemma gate_fails_closed_witness :
  @applyEnvelope ascii_fold no_boards (js "mallory") delete_start as_member = (no_boards, Ok []).
Proof.
  apply (@gate_fails_closed ascii_fold no_boards (js "mallory") delete_start as_member "chan-del").
  - vm_compute; reflexivity.
  - repeat constructor.
  - reflexivity.
Defined.
