(* ===== verification/Ledger.v ===== *)
(** * Who the boards speak for

    Live envelopes put only the sender's own name on a board: the author of a
    notice or an offer, the taker of a seat, the signer and the objector of a
    proposal are the authenticated sender or were there before. *)

From stdpp Require Import base list numbers option strings.
From Stdlib Require Import ZArith Lia Sorting.Sorted Sorting.Permutation.
From S2P Require Import Prelude JsNum JsString JsValue Board Games Overview Offers Quorum ChanKeys Envelope Reducer.
Open Scope Z_scope.

Notation notices_of r := (default [] (c_notices r)).
Notation offers_of r := (default [] (c_offers r)).
Notation proposals_of r := (default [] (c_proposals r)).

(** Every name on the boards of [r'] is [sender]'s or stood there in [r]. *)
Record speaks_for (sender : jstr) (r r' : circle) : Prop := {
  sf_notices : forall n, n ∈ notices_of r' -> n_author n = sender \/ n ∈ notices_of r;
  sf_authors : forall o', o' ∈ offers_of r' -> o_author o' = sender \/
    exists o, o ∈ offers_of r /\ o_id o = o_id o' /\ o_author o = o_author o';
  sf_takers : forall o' t, o' ∈ offers_of r' -> t ∈ takers o' -> t = sender \/
    exists o, o ∈ offers_of r /\ o_id o = o_id o' /\ t ∈ takers o;
  sf_proposers : forall p', p' ∈ proposals_of r' -> p_by p' = sender \/
    exists p, p ∈ proposals_of r /\ p_id p = p_id p' /\ p_by p = p_by p';
  sf_signers : forall p' s, p' ∈ proposals_of r' -> s ∈ p_signatures p' -> s_who s = sender \/
    exists p, p ∈ proposals_of r /\ p_id p = p_id p' /\ s ∈ p_signatures p;
  sf_objectors : forall p' o, p' ∈ proposals_of r' -> o ∈ p_objections p' -> ob_who o = sender \/
    exists p, p ∈ proposals_of r /\ p_id p = p_id p' /\ o ∈ p_objections p;
}.

Lemma speaks_for_refl sender r : speaks_for sender r r.
Proof. split; eauto 6. Qed.

Lemma speaks_for_frame sender r r1 r2 :
  c_notices r1 = c_notices r2 -> c_offers r1 = c_offers r2 -> c_proposals r1 = c_proposals r2 ->
  speaks_for sender r r1 -> speaks_for sender r r2.
Proof. intros H1 H2 H3 []. split; by rewrite <- ?H1, <- ?H2, <- ?H3. Qed.

(** *** The operations *)

Lemma upsertNotice_elem l n x :
  x ∈ upsertNotice l (Some n) -> x = n \/ x ∈ default [] l.
Proof.
  intros [->|Hx]%elem_of_cut%elem_of_cons; [by left|right].
  by apply elem_of_without_id in Hx as [Hx _].
Qed.

Lemma upsertOffer_elem l o x :
  x ∈ upsertOffer l (Some o) ->
  x ∈ default [] l \/ x = o \/
  exists prior, prior ∈ default [] l /\ o_id prior = o_id o /\ x = set_takers o (takers prior).
Proof.
  intros [->|Hx]%elem_of_cut%elem_of_cons.
  - destruct (find_id _ _) as [prior|] eqn:E; [|by auto].
    apply find_id_Some in E as [Hp Hid]. right; right. exists prior. naive_solver.
  - left. by apply elem_of_without_id in Hx as [Hx _].
Qed.

Lemma upsertProposal_elem l p x :
  x ∈ upsertProposal l (Some p) ->
  x ∈ default [] l \/ x = p \/
  exists prior, prior ∈ default [] l /\ p_id prior = p_id p /\
    x = with_voices p (p_signatures prior) (p_objections prior).
Proof.
  intros [->|Hx]%elem_of_cut%elem_of_cons.
  - destruct (find_id _ _) as [prior|] eqn:E; [|by auto].
    apply find_id_Some in E as [Hp Hid]. right; right. exists prior. naive_solver.
  - left. by apply elem_of_without_id in Hx as [Hx _].
Qed.

Lemma take_seat_elem id who taking o :
  o_id (take_seat id who taking o) = o_id o /\
  o_author (take_seat id who taking o) = o_author o /\
  forall t, t ∈ takers (take_seat id who taking o) -> t = who \/ t ∈ takers o.
Proof.
  unfold take_seat. repeat case_match; try (by auto).
  - split_and!; try done. intros t; cbn. rewrite list_elem_of_filter. naive_solver.
  - split_and!; try done. intros t; cbn. rewrite elem_of_app, list_elem_of_singleton. naive_solver.
Qed.

Lemma sign_one_elem id who at_ p :
  p_id (sign_one id who at_ p) = p_id p /\ p_by (sign_one id who at_ p) = p_by p /\
  (forall s, s ∈ p_signatures (sign_one id who at_ p) -> s_who s = who \/ s ∈ p_signatures p) /\
  (forall o, o ∈ p_objections (sign_one id who at_ p) -> o ∈ p_objections p).
Proof.
  unfold sign_one. repeat case_match; try (by auto). split_and!; try done; cbn.
  - intros s. rewrite elem_of_app, list_elem_of_singleton. naive_solver.
  - intros o. rewrite list_elem_of_filter. naive_solver.
Qed.

Lemma object_one_elem id who reason at_ p :
  p_id (object_one id who reason at_ p) = p_id p /\ p_by (object_one id who reason at_ p) = p_by p /\
  (forall s, s ∈ p_signatures (object_one id who reason at_ p) -> s ∈ p_signatures p) /\
  (forall o, o ∈ p_objections (object_one id who reason at_ p) -> ob_who o = who \/ o ∈ p_objections p).
Proof.
  unfold object_one. repeat case_match; try (by auto). split_and!; try done; cbn.
  - intros s. rewrite list_elem_of_filter. naive_solver.
  - intros o. rewrite elem_of_app, list_elem_of_filter, list_elem_of_singleton. naive_solver.
Qed.

(** *** The three boards *)

Section boards.
Context (sender : jstr) (r : circle).

Lemma speaks_for_notices l :
  (forall n, n ∈ l -> n_author n = sender \/ n ∈ notices_of r) ->
  speaks_for sender r (set_notices r (Some l)).
Proof. intros Hl. split; cbn; eauto 6. Qed.

Lemma speaks_for_offers l :
  (forall o', o' ∈ l -> o_author o' = sender \/
     exists o, o ∈ offers_of r /\ o_id o = o_id o' /\ o_author o = o_author o') ->
  (forall o' t, o' ∈ l -> t ∈ takers o' -> t = sender \/
     exists o, o ∈ offers_of r /\ o_id o = o_id o' /\ t ∈ takers o) ->
  speaks_for sender r (set_offers r (Some l)).
Proof. intros Ha Ht. split; cbn; eauto 6. Qed.

Lemma speaks_for_proposals l :
  (forall p', p' ∈ l -> p_by p' = sender \/
     exists p, p ∈ proposals_of r /\ p_id p = p_id p' /\ p_by p = p_by p') ->
  (forall p' s, p' ∈ l -> s ∈ p_signatures p' -> s_who s = sender \/
     exists p, p ∈ proposals_of r /\ p_id p = p_id p' /\ s ∈ p_signatures p) ->
  (forall p' o, p' ∈ l -> o ∈ p_objections p' -> ob_who o = sender \/
     exists p, p ∈ proposals_of r /\ p_id p = p_id p' /\ o ∈ p_objections p) ->
  speaks_for sender r (set_proposals r (Some l)).
Proof. intros Hb Hs Ho. split; cbn; eauto 6. Qed.

Lemma upsertNotice_speaks n :
  n_author n = sender ->
  speaks_for sender r (set_notices r (Some (upsertNotice (c_notices r) (Some n)))).
Proof. intros Hn. apply speaks_for_notices. intros x [->|Hx]%upsertNotice_elem; auto. Qed.

Lemma upsertOffer_speaks o :
  o_author o = sender -> takers o = [] ->
  speaks_for sender r (set_offers r (Some (upsertOffer (c_offers r) (Some o)))).
Proof.
  intros Ha Ht. apply speaks_for_offers.
  - intros x [Hx|[->|(prior & _ & _ & ->)]]%upsertOffer_elem; eauto 6.
  - intros x t [Hx|[->|(prior & Hp & Hid & ->)]]%upsertOffer_elem Hxt; eauto 6.
    rewrite Ht in Hxt. by inversion Hxt.
Qed.

Lemma applyTake_speaks id taking :
  speaks_for sender r (set_offers r (Some (applyTake (c_offers r) id sender taking))).
Proof.
  apply speaks_for_offers.
  - intros x (o & -> & Ho)%list_elem_of_fmap.
    destruct (take_seat_elem id sender taking o) as (Hi & Ha & _). eauto 6.
  - intros x t (o & -> & Ho)%list_elem_of_fmap Hxt.
    destruct (take_seat_elem id sender taking o) as (Hi & _ & Ht).
    destruct (Ht t Hxt) as [->|]; eauto 6.
Qed.

Lemma upsertProposal_speaks p :
  p_by p = sender -> (forall s, s ∈ p_signatures p -> s_who s = sender) -> p_objections p = [] ->
  speaks_for sender r (set_proposals r (Some (upsertProposal (c_proposals r) (Some p)))).
Proof.
  intros Hb Hs Ho. apply speaks_for_proposals.
  - intros x [Hx|[->|(prior & _ & _ & ->)]]%upsertProposal_elem; eauto 6.
  - intros x s [Hx|[->|(prior & Hp & Hid & ->)]]%upsertProposal_elem Hxs; eauto 6.
  - intros x o [Hx|[->|(prior & Hp & Hid & ->)]]%upsertProposal_elem Hxo; eauto 6.
    rewrite Ho in Hxo. by inversion Hxo.
Qed.

Lemma applySignature_speaks id at_ :
  speaks_for sender r (set_proposals r (Some (applySignature (c_proposals r) id sender at_))).
Proof.
  apply speaks_for_proposals; intros x; [|intros v..];
    intros (p & -> & Hp)%list_elem_of_fmap;
    destruct (sign_one_elem id sender at_ p) as (Hi & Hb & Hs & Ho); [eauto 6|..]; intros Hv.
  - destruct (Hs v Hv); eauto 6.
  - right. eauto 6.
Qed.

Lemma object_speaks id reason at_ :
  speaks_for sender r
    (set_proposals r (Some (object_one id sender reason at_ <$> proposals_of r))).
Proof.
  apply speaks_for_proposals; intros x; [|intros v..];
    intros (p & -> & Hp)%list_elem_of_fmap;
    destruct (object_one_elem id sender reason at_ p) as (Hi & Hb & Hs & Ho); [eauto 6|..]; intros Hv.
  - right. eauto 6.
  - destruct (Ho v Hv); eauto 6.
Qed.
End boards.

Section live.
Context `{CaseFold}.

Lemma normalizeNotice_author n sender now x :
  normalizeNotice n (VStr sender) now = Ok (Some x) -> n_author x = sender.
Proof.
  unfold normalizeNotice. intros Hn. case_match; [done|]. inv_ok.
  destruct (_ || _); inv_ok. unfold text_of in *; cbn in *. congruence.
Qed.

Lemma normalizeOffer_author o sender now x :
  normalizeOffer o (VStr sender) now = Ok (Some x) -> o_author x = sender /\ takers x = [].
Proof.
  unfold normalizeOffer. intros Hn. case_match; [done|]. inv_ok.
  destruct (_ || _); inv_ok. unfold text_of in *; cbn in *. split; congruence.
Qed.

Lemma normalizeProposal_by p sender now x :
  normalizeProposal p (VStr sender) now = Ok (Some x) ->
  p_by x = sender /\ (exists a, p_signatures x = [ {| s_who := sender; s_at := a |} ]) /\
  p_objections x = [].
Proof.
  unfold normalizeProposal. intros Hn. case_match; [done|]. inv_ok.
  destruct (_ || _); inv_ok. cbn in *. simplify_eq. split_and!; eauto.
Qed.

Lemma applyObjection_cases l id who why at_ ps :
  applyObjection l id who why at_ = Ok ps ->
  ps = default [] l \/ exists reason, reason <> [] /\ ps = object_one id who reason at_ <$> default [] l.
Proof.
  unfold applyObjection. intros Ho. inv_ok. destruct (is_empty a) eqn:He; inv_ok; [by left|].
  right. exists a. split; [by apply is_empty_false|done].
Qed.

Lemma dispatch_speaks_for sender content ctx r :
  is_kind content "meta" = false ->
  holds (dispatch sender content ctx) (fun s => speaks_for sender r s.1) (r, []).
Proof.
  intros Hmeta. pose proof (speaks_for_refl sender r) as Hr.
  unfold dispatch. rewrite Hmeta. cbn zeta. split_kinds.
  all: autounfold with cases; walk; try done.
  all: try (eapply speaks_for_frame; [..|exact Hr]; cbn; unfold ensureChannel;
            repeat case_match; reflexivity).
  - by eapply upsertNotice_speaks, normalizeNotice_author.
  - apply speaks_for_notices. intros n [Hn _]%elem_of_without_id. auto.
  - match goal with E : normalizeOffer _ _ _ = _ |- _ => apply normalizeOffer_author in E as [??] end.
    by apply upsertOffer_speaks.
  - apply applyTake_speaks.
  - apply speaks_for_offers; intros o; [|intros t]; intros [Ho _]%elem_of_without_id; eauto 6.
  - match goal with E : normalizeProposal _ _ _ = _ |- _ =>
      apply normalizeProposal_by in E as (? & [a0 Ha] & ?) end.
    apply upsertProposal_speaks; [done| |done]. rewrite Ha. by intros s ->%list_elem_of_singleton.
  - apply applySignature_speaks.
  - match goal with E : applyObjection _ _ _ _ _ = _ |- _ =>
      apply applyObjection_cases in E as [->|(reason & _ & ->)] end.
    + apply speaks_for_proposals; eauto 6.
    + apply object_speaks.
  - apply speaks_for_proposals; intros p; [|intros v..]; intros [Hp _]%elem_of_without_id; eauto 6.
Qed.

(** C5: an envelope other than a metadata rebroadcast puts no name on the
    boards but its authenticated sender's: every author, proposer, taker,
    signer and objector after it is the sender or was recorded under the
    same id before. *)
Theorem boards_speak_for_sender r sender content ctx :
  is_kind content "meta" = false ->
  speaks_for sender r (applyEnvelope r sender content ctx).1.
Proof.
  intros Hm. by apply applyEnvelope_holds; [apply speaks_for_refl|apply dispatch_speaks_for].
Qed.
End live.

(** ** Witnesses and findings *)

Definition propose (id handle : string) : val :=
  jobj [("k", VStr (js "quorum")); ("op", VStr (js "propose"));
        ("p", jobj [("id", VStr (js id)); ("handle", VStr (js handle)); ("at", VNum (int 5))])]%string.
Definition sign (id : string) : val :=
  jobj [("k", VStr (js "quorum")); ("op", VStr (js "sign")); ("id", VStr (js id))]%string.

(** Envelopes from members, applied in order. *)
Fixpoint replay (l : list (string * val)) (r : circle) : circle :=
  match l with
  | [] => r
  | (who, e) :: rest => replay rest (@applyEnvelope ascii_fold r (js who) e as_member).1
  end.

Lemma boards_speak_for_sender_witness :
  speaks_for (js "bob") (replay [("alice", propose "p1" "dave")] no_boards)
    (replay [("alice", propose "p1" "dave"); ("bob", sign "p1")] no_boards)%string.
Proof.
  apply (@boards_speak_for_sender ascii_fold
           (replay [("alice", propose "p1" "dave")] no_boards)%string (js "bob") (sign "p1") as_member).
  vm_compute; reflexivity.
Defined.

(** A re-proposal under an id already on the ledger replaces the candidate
    and keeps the signatures: after alice puts dave forward and bob signs, an
    envelope from mallory makes it a carried proposal to admit eve, signed by
    alice and bob. *)
Theorem reproposal_moves_signatures :
  match c_proposals (replay [("alice", propose "p1" "dave"); ("bob", sign "p1");
                             ("mallory", propose "p1" "eve")] no_boards)%string with
  | Some [p] =>
      p_handle p = js "eve" /\ p_by p = js "mallory" /\
      s_who <$> p_signatures p = [js "alice"; js "bob"] /\
      isCarried p (int 2) (default [] (c_members no_boards)) = true
  | _ => False
  end.
Proof. vm_compute. repeat split. Qed.

Definition forged_meta : val :=
  jobj [("k", VStr (js "meta"));
        ("proposals", VArr [jobj
           [("id", VStr (js "p9")); ("handle", VStr (js "eve")); ("by", VStr (js "alice"));
            ("at", VNum (int 5));
            ("signatures", VArr [jobj [("who", VStr (js "bob"))]; jobj [("who", VStr (js "bob"))]])]])]%string.

(** A metadata rebroadcast, which any member may send, adds a proposal
    signed in other members' names: one envelope from mallory puts on an empty
    ledger a proposal by alice that bob has signed twice, and it carries. *)
Theorem meta_writes_other_names :
  match c_proposals (replay [("mallory", forged_meta)] no_boards)%string with
  | Some [p] =>
      p_by p = js "alice" /\ s_who <$> p_signatures p = [js "bob"; js "bob"; js "alice"] /\
      isCarried p (int 3) [js "alice"; js "bob"; js "carol"; js "mallory"] = true
  | _ => False
  end.
Proof. vm_compute. repeat split. Qed.

Definition pin (id text : string) : val :=
  jobj [("k", VStr (js "notice")); ("op", VStr (js "add"));
        ("n", jobj [("id", VStr (js id)); ("text", VStr (js text)); ("ts", VNum (int 5))])]%string.

(** Pinning under the id of another member's notice replaces it, author
    included, although the same sender may not unpin it. *)
Theorem repin_replaces_other_author :
  n_author <$> default [] (c_notices (replay [("alice", pin "n1" "start 8:40")] no_boards)%string)
    = [js "alice"] /\
  (forall n, find_id (VStr (js "n1"))
       (default [] (c_notices (replay [("alice", pin "n1" "start 8:40")] no_boards)%string)) = Some n ->
     canRemoveNotice (Some n) (js "mallory") false = false) /\
  n_author <$> default [] (c_notices (replay [("alice", pin "n1" "start 8:40");
                                              ("mallory", pin "n1" "cancelled")] no_boards)%string)
    = [js "mallory"].
Proof.
  split; [vm_compute; reflexivity|]. split; [|vm_compute; reflexivity].
  intros n Hn. vm_compute in Hn. injection Hn as <-. vm_compute. reflexivity.
Qed.
