(* ===== verification/Log.v ===== *)
(** * A channel's log (client/src/lib/log.js)

    The relay's append-only log, folded into the messages a reader shows:
    content entries make lines, mutation entries (edit, delete, react) are
    replayed over them on every render.  Entries are values off the wire; a
    JavaScript [Map] is an association list in insertion order.  A fold that
    throws half way keeps what it had already added. *)

From stdpp Require Import base list numbers option strings.
From Stdlib Require Import ZArith NArith Lia Sorting.Sorted Sorting.Permutation.
From S2P Require Import Prelude JsNum JsString JsValue Games Envelope.
Open Scope Z_scope.

Definition REACT_MAX : nat := 8.

(** What an entry's signature is worth (see History.v). *)
Inductive auth := signed | unsigned | unknown | forged.

#[global] Instance auth_eq_dec : EqDecision auth.
Proof. solve_decision. Defined.

(** The body of a line; a tombstone has none. *)
Inductive line_body := LText (text : jstr) | LFile (file : val) | LGame (g : game_ref) | LGone.

Record line := {
  ln_server : jstr;
  ln_channel : val;
  ln_sender : jstr;
  ln_ts : num;
  ln_body : line_body;
  ln_reply : option reply;
  ln_auth : option auth;  (** absent on a system line *)
  ln_seq : option num;
  ln_local : bool;
  ln_system : bool;
  ln_failed : bool;  (** its append did not reach the relay *)
  ln_edited : bool;
  ln_deleted : bool;
  ln_reacts : option obj;
}.

Record mutation := { mu_seq : num; mu_entry : val }.

Record channel_log := {
  base : list (jstr * line);
  mutations : list (jstr * mutation);
  oldest : option num;
  complete : bool;
  newest : num;
  localSeq : num;
}.

Definition createChannelLog : channel_log :=
  {| base := []; mutations := []; oldest := None; complete := false; newest := Fin 0;
     localSeq := int (2 ^ 52 - 1) |}.

Definition messageId (sender : jstr) (ts : num) : jstr := sender ++ js ":" ++ num_to_string ts.

(** [`${entry.sender}:${entry.k}:${entry.ts}`]. *)
Definition mutationId (entry : val) : res jstr :=
  let* s := to_string entry.["sender"] in
  let* k := to_string entry.["k"] in
  let* t := to_string entry.["ts"] in
  Ok (s ++ js ":" ++ k ++ js ":" ++ t).

(** ** Adding entries *)

Definition entryToMessage (entry : val) (server : jstr) (channel : val) (au : auth) (seq : option num)
  : res (option line) :=
  let* sender := text_of entry.["sender"] in
  let* ts := to_number entry.["ts"] in
  if is_empty sender || negb (ntruthy ts) then Ok None else
  let* game := if truthy entry.["game"] then normalizeGameRef entry.["game"] else Ok None in
  let* rep := normalizeReply entry.["reply"] in
  let* body :=
    if truthy entry.["file"] then Ok (LFile entry.["file"])
    else match game with
         | Some g => Ok (LGame g)
         | None => let* t := text_of entry.["text"] in Ok (LText t)
         end in
  Ok (Some {| ln_server := server; ln_channel := channel; ln_sender := sender; ln_ts := ts;
              ln_body := body; ln_reply := rep; ln_auth := Some au; ln_seq := seq;
              ln_local := false; ln_system := false; ln_failed := false; ln_edited := false; ln_deleted := false;
              ln_reacts := None |}).

(** One item of [addEntries]: a relay entry has a sequence number, a local
    echo has none. *)
Record item := {
  it_seq : option num;
  it_entry : val;
  it_auth : auth;
  it_local : bool;
}.

Definition CONTENT_KINDS : list val := VStr <$> [js "chat"; js "file"; js "game"].
Definition MUTATION_KINDS : list val := VStr <$> [js "edit"; js "del"; js "react"].

Definition set_base (log : channel_log) (b : list (jstr * line)) : channel_log :=
  {| base := b; mutations := mutations log; oldest := oldest log; complete := complete log;
     newest := newest log; localSeq := localSeq log |}.
Definition set_mutations (log : channel_log) (m : list (jstr * mutation)) (next : num) : channel_log :=
  {| base := base log; mutations := m; oldest := oldest log; complete := complete log;
     newest := newest log; localSeq := next |}.
Definition mark_local (m : line) : line :=
  {| ln_server := ln_server m; ln_channel := ln_channel m; ln_sender := ln_sender m; ln_ts := ln_ts m;
     ln_body := ln_body m; ln_reply := ln_reply m; ln_auth := ln_auth m; ln_seq := ln_seq m;
     ln_local := true; ln_system := ln_system m; ln_failed := ln_failed m; ln_edited := ln_edited m;
     ln_deleted := ln_deleted m; ln_reacts := ln_reacts m |}.

(** The sequence number, when it is one ([Number.isFinite]). *)
Definition finite_seq (seq : option num) : option num :=
  match seq with Some s => if nfinite s then Some s else None | None => None end.

(** The cursors move with every relay entry that is not forged. *)
Definition move_cursors (log : channel_log) (seq : option num) : channel_log :=
  match finite_seq seq with
  | Some s =>
      {| base := base log; mutations := mutations log;
         oldest := Some (match oldest log with None => s | Some o => nmin o s end);
         complete := complete log; newest := nmax (newest log) s; localSeq := localSeq log |}
  | None => log
  end.

Definition add_content (log : channel_log) (server : jstr) (channel : val) (it : item)
  : channel_log * res nat :=
  match entryToMessage (it_entry it) server channel (it_auth it) (it_seq it) with
  | Throw e => (log, Throw e)
  | Ok None => (log, Ok 0%nat)
  | Ok (Some m0) =>
      let m := if it_local it then mark_local m0 else m0 in
      let id := messageId (ln_sender m) (ln_ts m) in
      let superseded := match obj_get (base log) id with
                        | None => true
                        | Some prior => ln_local prior && negb (it_local it)
                        end in
      if superseded then (set_base log (map_set (base log) id m), Ok 1%nat) else (log, Ok 0%nat)
  end.

Definition add_mutation (log : channel_log) (it : item) : channel_log * res nat :=
  if bool_decide (it_auth it <> signed) then (log, Ok 0%nat) else
  match mutationId (it_entry it) with
  | Throw e => (log, Throw e)
  | Ok id =>
      match obj_get (mutations log) id with
      | Some _ => (log, Ok 0%nat)
      | None =>
          let '(s, next) := match finite_seq (it_seq it) with
                            | Some s => (s, localSeq log)
                            | None => (localSeq log, nadd (localSeq log) (int 1))
                            end in
          (set_mutations log (map_set (mutations log) id {| mu_seq := s; mu_entry := it_entry it |}) next,
           Ok 1%nat)
      end
  end.

Definition add_entry (log : channel_log) (server : jstr) (channel : val) (it : item)
  : channel_log * res nat :=
  if negb (truthy (it_entry it)) || bool_decide (it_auth it = forged) then (log, Ok 0%nat) else
  let kind := (it_entry it).["k"] ⁇ VStr (js "chat") in
  let log1 := move_cursors log (it_seq it) in
  if includes CONTENT_KINDS kind then add_content log1 server channel it
  else if includes MUTATION_KINDS kind then add_mutation log1 it
  else (log1, Ok 0%nat).

(** The log after the call, and how many entries were new or the exception. *)
Fixpoint addEntries (log : channel_log) (items : list item) (server : jstr) (channel : val)
  : channel_log * res nat :=
  match items with
  | [] => (log, Ok 0%nat)
  | it :: r =>
      match add_entry log server channel it with
      | (log1, Throw e) => (log1, Throw e)
      | (log1, Ok n) =>
          match addEntries log1 r server channel with
          | (log2, Throw e) => (log2, Throw e)
          | (log2, Ok m) => (log2, Ok (n + m)%nat)
          end
      end
  end.

Definition addSystemMessage (log : channel_log) (server : jstr) (channel : val) (text : jstr) (ts : num)
  : channel_log * jstr :=
  let id := js "sys:" ++ num_to_string ts ++ js ":" ++ digits 10 (Z.of_nat (length (base log))) in
  (set_base log (map_set (base log) id
     {| ln_server := server; ln_channel := channel; ln_sender := []; ln_ts := ts;
        ln_body := LText text; ln_reply := None; ln_auth := None; ln_seq := None;
        ln_local := false; ln_system := true; ln_failed := false; ln_edited := false; ln_deleted := false;
        ln_reacts := None |}), id).

Definition addLocalEntry (log : channel_log) (entry : val) (server : jstr) (channel : val)
  : channel_log * res nat :=
  addEntries log [ {| it_seq := None; it_entry := entry; it_auth := signed; it_local := true |} ]
    server channel.

(** ** Replaying mutations *)

Definition set_text (m : line) (text : jstr) : line :=
  {| ln_server := ln_server m; ln_channel := ln_channel m; ln_sender := ln_sender m; ln_ts := ln_ts m;
     ln_body := LText text; ln_reply := ln_reply m; ln_auth := ln_auth m; ln_seq := ln_seq m;
     ln_local := ln_local m; ln_system := ln_system m; ln_failed := ln_failed m; ln_edited := true;
     ln_deleted := ln_deleted m; ln_reacts := ln_reacts m |}.
Definition tombstone (m : line) : line :=
  {| ln_server := ln_server m; ln_channel := ln_channel m; ln_sender := ln_sender m; ln_ts := ln_ts m;
     ln_body := LGone; ln_reply := None; ln_auth := ln_auth m; ln_seq := ln_seq m;
     ln_local := false; ln_system := false; ln_failed := false; ln_edited := false; ln_deleted := true;
     ln_reacts := None |}.
Definition set_reacts (m : line) (r : obj) : line :=
  {| ln_server := ln_server m; ln_channel := ln_channel m; ln_sender := ln_sender m; ln_ts := ln_ts m;
     ln_body := ln_body m; ln_reply := ln_reply m; ln_auth := ln_auth m; ln_seq := ln_seq m;
     ln_local := ln_local m; ln_system := ln_system m; ln_failed := ln_failed m; ln_edited := ln_edited m;
     ln_deleted := ln_deleted m; ln_reacts := Some r |}.

Notation lines := (list (jstr * line)).

Definition has_text (m : line) : bool := match ln_body m with LFile _ | LGame _ => false | _ => true end.

Definition applyEdit (messages : lines) (entry : val) : res lines :=
  let* sender := to_string entry.["sender"] in
  let* ts := to_number entry.["to"].["ts"] in
  let id := messageId sender ts in
  match obj_get messages id with
  | None => Ok messages
  | Some target =>
      if ln_deleted target || negb (has_text target) then Ok messages else
      let* text := text_of entry.["text"] in
      if is_empty text then Ok messages else Ok (map_set messages id (set_text target text))
  end.

Definition applyDelete (messages : lines) (entry : val) : res lines :=
  let* sender := to_string entry.["sender"] in
  let* ts := to_number entry.["to"].["ts"] in
  let id := messageId sender ts in
  match obj_get messages id with
  | None => Ok messages
  | Some target => Ok (map_set messages id (tombstone target))
  end.

(** The new reactions of a line: [None] when the line's emoji are full. *)
Definition react (reacts : obj) (emo : jstr) (adding : bool) (who : val) : res (option obj) :=
  let held := prop (VObj reacts) emo in
  if adding && strict_eq held VUndef && (REACT_MAX <=? length (obj_keys reacts))%nat then Ok None else
  let* names := iterate (held ⁇ VArr []) in
  let set0 := dedup names in
  let set1 := if adding then (if includes set0 who then set0 else set0 ++ [who])
              else filter (fun x => same_value x who = false) set0 in
  Ok (Some (match set1 with
            | [] => obj_delete reacts emo
            | _ => obj_assign reacts emo (VArr set1)
            end)).

Definition applyReaction (messages : lines) (entry : val) : res lines :=
  let to_ := entry.["to"] ⁇ VObj [] in
  let* tsender := text_of to_.["sender"] in
  let* tts := to_number to_.["ts"] in
  let id := messageId tsender tts in
  match obj_get messages id with
  | None => Ok messages
  | Some target =>
      if ln_deleted target then Ok messages else
      let* emo := clip_trim 8 entry.["emo"] in
      if is_empty emo then Ok messages else
      let adding := negb (is_op entry "del") in
      let* r := react (default [] (ln_reacts target)) emo adding entry.["sender"] in
      match r with
      | None => Ok messages
      | Some r => Ok (map_set messages id (set_reacts target r))
      end
  end.

Definition apply_mutation (messages : lines) (entry : val) : res lines :=
  if is_kind entry "edit" then applyEdit messages entry
  else if is_kind entry "del" then applyDelete messages entry
  else if is_kind entry "react" then applyReaction messages entry
  else Ok messages.

Fixpoint replay_mutations (messages : lines) (ms : list mutation) : res lines :=
  match ms with
  | [] => Ok messages
  | m :: r => let* messages' := apply_mutation messages (mu_entry m) in replay_mutations messages' r
  end.

(** [sort((a, b) => a.seq - b.seq)] and [sort((a, b) => a.ts - b.ts)]. *)
Definition in_seq_order (ms : list mutation) : list mutation :=
  sort_by (fun a b => Fin 0 <ₙ nsub (mu_seq a) (mu_seq b)) ms.
Definition in_time_order (ls : list line) : list line :=
  sort_by (fun a b => Fin 0 <ₙ nsub (ln_ts a) (ln_ts b)) ls.

Definition renderLog (log : channel_log) : res (list line) :=
  let* messages := replay_mutations (base log) (in_seq_order (mutations log).*2) in
  Ok (in_time_order messages.*2).

(** ** Retention *)

Definition prune_base (b : lines) (beforeTs : num) : lines :=
  filter (fun kv : jstr * line => (ln_ts kv.2 <ₙ beforeTs) = false) b.

(** The loop deletes as it goes: an exception keeps what it had deleted. *)
Fixpoint prune_mutations (l : list (jstr * mutation)) (beforeTs : num)
  : list (jstr * mutation) * res unit :=
  match l with
  | [] => ([], Ok tt)
  | (id, m) :: r =>
      match to_number (mu_entry m).["ts"] with
      | Throw e => (l, Throw e)
      | Ok ts =>
          let '(r', outcome) := prune_mutations r beforeTs in
          (if ts <ₙ beforeTs then r' else (id, m) :: r', outcome)
      end
  end.

Definition pruneLog (log : channel_log) (beforeTs : num) : channel_log * res nat :=
  let b := prune_base (base log) beforeTs in
  let '(ms, outcome) := prune_mutations (mutations log) beforeTs in
  (set_mutations (set_base log b) ms (localSeq log),
   let* _ := outcome in Ok (length (base log) - length b)%nat).

(** ** What a log is made of *)

Section made_of.
Context (server : jstr) (channel : val).

(** A log built from [its], by any mix of adding, announcing and pruning. *)
Inductive built : list item -> channel_log -> Prop :=
| built_new : built [] createChannelLog
| built_add its log more :
    built its log -> built (its ++ more) (addEntries log more server channel).1
| built_system its log ch text ts :
    built its log -> built its (addSystemMessage log server ch text ts).1
| built_prune its log beforeTs :
    built its log -> built its (pruneLog log beforeTs).1.

(** The line is what one of the entries says, or a device-local notice. *)
Definition line_from (its : list item) (id : jstr) (m : line) : Prop :=
  (ln_system m = true /\ ln_auth m = None) \/
  (exists it m0, it ∈ its /\ it_auth it <> forged /\
     entryToMessage (it_entry it) server channel (it_auth it) (it_seq it) = Ok (Some m0) /\
     m = (if it_local it then mark_local m0 else m0) /\ id = messageId (ln_sender m) (ln_ts m)).

Definition mutation_from (its : list item) (mu : mutation) : Prop :=
  exists it, it ∈ its /\ it_auth it = signed /\ it_entry it = mu_entry mu.

Record log_ok (its : list item) (log : channel_log) : Prop := {
  lo_base : forall id m, (id, m) ∈ base log -> line_from its id m;
  lo_mutations : forall id mu, (id, mu) ∈ mutations log -> mutation_from its mu;
  lo_keys : NoDup (obj_keys (base log));
  lo_plain : forall id m, (id, m) ∈ base log ->
    ln_edited m = false /\ ln_deleted m = false /\ ln_reacts m = None;
}.

Lemma line_from_more its more id m : line_from its id m -> line_from (its ++ more) id m.
Proof.
  intros [?|(it & m0 & Hin & Hrest)]; [by left|right]. exists it, m0.
  split; [|done]. apply elem_of_app. by left.
Qed.

Lemma mutation_from_more its more mu : mutation_from its mu -> mutation_from (its ++ more) mu.
Proof. intros (it & Hin & Hrest). exists it. split; [|done]. apply elem_of_app. by left. Qed.

Lemma log_ok_more its more log : log_ok its log -> log_ok (its ++ more) log.
Proof.
  intros [Hb Hm Hk Hp]. split; eauto using line_from_more, mutation_from_more.
Qed.

Lemma log_ok_base its log log' :
  base log' = base log -> mutations log' = mutations log -> log_ok its log -> log_ok its log'.
Proof. intros E1 E2 [Hb Hm Hk Hp]. split; by rewrite ?E1, ?E2. Qed.

Lemma move_cursors_ok its log seq : log_ok its log -> log_ok its (move_cursors log seq).
Proof. apply log_ok_base; unfold move_cursors; by case_match. Qed.

Lemma entryToMessage_plain entry au seq m :
  entryToMessage entry server channel au seq = Ok (Some m) ->
  ln_edited m = false /\ ln_deleted m = false /\ ln_reacts m = None /\ ln_system m = false /\
  ln_auth m = Some au /\ ln_seq m = seq /\ ln_server m = server /\ ln_channel m = channel /\
  text_of entry.["sender"] = Ok (ln_sender m) /\ to_number entry.["ts"] = Ok (ln_ts m).
Proof.
  unfold entryToMessage. intros H. inv_ok. destruct (is_empty a || _); inv_ok. done.
Qed.

Lemma mark_local_fields m :
  ln_sender (mark_local m) = ln_sender m /\ ln_ts (mark_local m) = ln_ts m /\
  ln_auth (mark_local m) = ln_auth m /\ ln_system (mark_local m) = ln_system m /\
  ln_edited (mark_local m) = ln_edited m /\ ln_deleted (mark_local m) = ln_deleted m /\
  ln_reacts (mark_local m) = ln_reacts m /\ ln_body (mark_local m) = ln_body m.
Proof. done. Qed.

Lemma add_content_ok its log it :
  log_ok its log -> it_auth it <> forged -> log_ok (its ++ [it]) (add_content log server channel it).1.
Proof.
  intros Hok Hf. pose proof (log_ok_more its [it] log Hok) as Hok'. unfold add_content.
  destruct (entryToMessage _ _ _ _ _) as [[m0|]|e] eqn:E; [|done..].
  case_match; [|done]. cbn [fst].
  pose proof (entryToMessage_plain _ _ _ _ E) as (He & Hd & Hr & _).
  destruct Hok' as [Hb Hm Hk Hp]. split; cbn [base mutations set_base].
  - intros id m [[= -> ->]|Hin]%elem_of_map_set; [|by apply Hb]. right.
    exists it, m0. split_and!; try done. apply elem_of_app. right. by apply list_elem_of_singleton.
  - done.
  - by apply map_set_NoDup.
  - intros id m [[= -> ->]|Hin]%elem_of_map_set; [|by eapply Hp]. by destruct (it_local it).
Qed.

Lemma add_mutation_ok its log it :
  log_ok its log -> log_ok (its ++ [it]) (add_mutation log it).1.
Proof.
  intros Hok. pose proof (log_ok_more its [it] log Hok) as Hok'. unfold add_mutation.
  case_bool_decide as Ha; [done|]. destruct (mutationId _) as [id|e]; [|done].
  case_match; [done|]. destruct (match finite_seq _ with Some _ => _ | None => _ end) as [s next].
  cbn [fst]. destruct Hok' as [Hb Hm Hk Hp]. split; cbn [base mutations set_mutations]; try done.
  intros id' mu [[= -> ->]|Hin]%elem_of_map_set; [|by eapply Hm].
  exists it. split_and!; [|by destruct (decide (it_auth it = signed))|done].
  apply elem_of_app. right. by apply list_elem_of_singleton.
Qed.

Lemma add_entry_ok its log it :
  log_ok its log -> log_ok (its ++ [it]) (add_entry log server channel it).1.
Proof.
  intros Hok. unfold add_entry. destruct (negb _ || _) eqn:Hs; [by apply log_ok_more|].
  apply orb_false_iff in Hs as [_ Hf]. apply bool_decide_eq_false in Hf.
  cbn zeta. case_match; [by apply add_content_ok, Hf; apply move_cursors_ok|].
  case_match; [by apply add_mutation_ok, move_cursors_ok|].
  by apply log_ok_more, move_cursors_ok.
Qed.

Lemma addEntries_ok its log more :
  log_ok its log -> log_ok (its ++ more) (addEntries log more server channel).1.
Proof.
  revert its log. induction more as [|it more IH]; intros its log Hok; cbn [addEntries].
  { by rewrite app_nil_r. }
  pose proof (add_entry_ok its log it Hok) as Hit.
  replace (its ++ it :: more) with ((its ++ [it]) ++ more) by by rewrite <- app_assoc.
  destruct (add_entry log server channel it) as [log1 [n|e]]; cbn [fst] in Hit |- *;
    [|by apply log_ok_more].
  specialize (IH _ _ Hit). by destruct (addEntries log1 more server channel) as [log2 [k|e]].
Qed.

Lemma prune_mutations_sub l beforeTs x :
  x ∈ (prune_mutations l beforeTs).1 -> x ∈ l.
Proof.
  induction l as [|[id m] l IH]; cbn; [done|].
  destruct (to_number _); [|done]. destruct (prune_mutations l beforeTs) as [r' o].
  case_match; cbn; rewrite ?elem_of_cons; naive_solver.
Qed.

Lemma pruneLog_ok its log beforeTs : log_ok its log -> log_ok its (pruneLog log beforeTs).1.
Proof.
  intros [Hb Hm Hk Hp]. unfold pruneLog.
  pose proof (prune_mutations_sub (mutations log) beforeTs) as Hsub.
  destruct (prune_mutations _ _) as [ms o]. cbn [fst] in *. split; cbn [base mutations set_mutations set_base].
  - intros id m [_ Hin]%list_elem_of_filter. auto.
  - intros id mu Hin%Hsub. eauto.
  - eapply sublist_NoDup; [exact Hk|]. apply fmap_sublist, sublist_filter.
  - intros id m [_ Hin]%list_elem_of_filter. eauto.
Qed.

Lemma addSystemMessage_ok its log ch text ts :
  log_ok its log -> log_ok its (addSystemMessage log server ch text ts).1.
Proof.
  intros [Hb Hm Hk Hp]. split; cbn [base mutations set_base addSystemMessage fst].
  - intros id m [[= -> ->]|Hin]%elem_of_map_set; [by left|auto].
  - done.
  - by apply map_set_NoDup.
  - intros id m [[= -> ->]|Hin]%elem_of_map_set; [done|eauto].
Qed.

Lemma built_ok its log : built its log -> log_ok its log.
Proof.
  induction 1; auto using addEntries_ok, addSystemMessage_ok, pruneLog_ok.
  split; cbn; try (intros ?? []%elem_of_nil). apply NoDup_nil_2.
Qed.
End made_of.

(** ** What a reader sees *)

(** A signed entry of [its] that names [id] through its own sender. *)
Definition own_entry (its : list item) (k : string) (id : jstr) (e : val) : Prop :=
  (exists it, it ∈ its /\ it_auth it = signed /\ it_entry it = e) /\ is_kind e k = true /\
  exists s t, to_string e.["sender"] = Ok s /\ id = messageId s t.

(** A signed reaction of [its] cast by [w]. *)
Definition own_reaction (its : list item) (w : val) : Prop :=
  exists it, it ∈ its /\ it_auth it = signed /\ is_kind (it_entry it) "react" = true /\
    (it_entry it).["sender"] = w.

(** How the line [m'] a reader sees comes from the line [m] as written. *)
Record vouched (its : list item) (id : jstr) (m m' : line) : Prop := {
  vo_place : ln_server m' = ln_server m /\ ln_channel m' = ln_channel m /\
    ln_sender m' = ln_sender m /\ ln_ts m' = ln_ts m /\ ln_auth m' = ln_auth m /\ ln_seq m' = ln_seq m;
  vo_body : ln_body m' = ln_body m \/
    (exists e text, own_entry its "edit" id e /\ text_of e.["text"] = Ok text /\ ln_body m' = LText text) \/
    (exists e, own_entry its "del" id e /\ ln_body m' = LGone);
  vo_names : forall emo v, obj_get (default [] (ln_reacts m')) emo = Some v ->
    exists names, v = VArr names /\ forall w, w ∈ names -> own_reaction its w;
  vo_bound : (length (obj_keys (default [] (ln_reacts m'))) <= REACT_MAX)%nat;
}.

Lemma vouched_refl its id m : ln_reacts m = None -> vouched its id m m.
Proof. intros Hr. split; [done|by left| |]; rewrite Hr; cbn; [done|lia]. Qed.

(** The emoji is short, so a name every object inherits is a method: a set
    cannot be made of it. *)
Lemma proto_short emo : (length emo <= 8)%nat ->
  proto_method [] emo = VUndef \/ exists f, proto_method [] emo = VFun f.
Proof.
  intros Hl. unfold proto_method. case_match; [eauto|]. case_match; [|eauto].
  match goal with E : str_eqb emo _ = true |- _ => apply str_eqb_eq in E as -> end.
  vm_compute in Hl. lia.
Qed.

Lemma elem_of_dedup' l x : x ∈ dedup l -> x ∈ l.
Proof.
  unfold dedup. fold (dedup_from l []). assert (forall acc, x ∈ dedup_from l acc -> x ∈ acc \/ x ∈ l) as H.
  { induction l as [|y l IH]; intros acc; cbn; [by left|].
    fold (dedup_from l (if includes acc y then acc else acc ++ [y])).
    intros [Ha|Hl]%IH; rewrite elem_of_cons; [|tauto].
    destruct (includes acc y); [tauto|]. rewrite elem_of_app, list_elem_of_singleton in Ha. tauto. }
  intros [[]%elem_of_nil|]%H. done.
Qed.

Section render.
Context (its : list item).

Definition names_ok (r : obj) : Prop := forall emo v, obj_get r emo = Some v ->
  exists names, v = VArr names /\ forall w, w ∈ names -> own_reaction its w.

Lemma react_ok r emo adding who r' :
  names_ok r -> (length (obj_keys r) <= REACT_MAX)%nat -> (length emo <= 8)%nat ->
  own_reaction its who -> react r emo adding who = Ok (Some r') ->
  names_ok r' /\ (length (obj_keys r') <= REACT_MAX)%nat.
Proof.
  intros Hn Hb Hl Hw. unfold react. cbn [prop].
  destruct (adding && _ && _) eqn:Hfull; [done|]. intros H. inv_ok.
  set (set1 := if adding then _ else _).
  assert (forall w, w ∈ set1 -> own_reaction its w) as Hset.
  { assert (forall w, w ∈ dedup a -> own_reaction its w) as Hd.
    { intros w Hin%elem_of_dedup'. destruct (obj_get r emo) as [v|] eqn:Ev.
      - destruct (Hn emo v Ev) as (names & -> & Hnames). cbn in E. injection E as <-. auto.
      - cbn in E. destruct (proto_short emo Hl) as [Hp|[f Hp]]; rewrite Hp in E; cbn in E; [|done].
        injection E as <-. by apply elem_of_nil in Hin. }
    unfold set1. intros w. destruct adding.
    - destruct (includes _ _); [apply Hd|]. rewrite elem_of_app, list_elem_of_singleton.
      intros [?| ->]; auto.
    - intros [_ Hin]%list_elem_of_filter. auto. }
  destruct set1 as [|x s1] eqn:Es.
  - split; [|by etransitivity; [apply obj_delete_length|]].
    intros k v. rewrite obj_get_delete. case_match; [done|]. apply Hn.
  - unfold obj_assign. destruct (str_eqb emo (js "__proto__") && _); [done|]. split.
    + intros k v. rewrite obj_get_put. case_match; [|apply Hn]. intros [= <-]. eauto.
    + rewrite obj_put_length. destruct (obj_get r emo) eqn:Ev; [done|].
      cbn [from_option] in E, Hfull.
      destruct (proto_short emo Hl) as [Hp|[f Hp]]; rewrite Hp in E, Hfull; [|done].
      cbn in E. injection E as <-. cbn [strict_eq] in Hfull. unfold set1 in Es. destruct adding; [|done].
      cbn [andb] in Hfull. apply Nat.leb_gt in Hfull. lia.
Qed.
(** Replaying keeps the lines and vouches for each. *)
Record shown (b cur : lines) : Prop := {
  sh_keys : obj_keys cur = obj_keys b;
  sh_lines : forall id m', obj_get cur id = Some m' ->
    exists m, obj_get b id = Some m /\ vouched its id m m';
}.

Lemma shown_set b cur id m0 m0' m' :
  shown b cur -> obj_get b id = Some m0 -> obj_get cur id = Some m0' -> vouched its id m0 m' ->
  shown b (map_set cur id m').
Proof.
  intros [Hk Hl] Hb Hc Hv. split.
  - rewrite <- Hk. unfold map_set. rewrite Hc. apply obj_keys_update.
  - intros k m. rewrite obj_get_map_set. destruct (str_eqb id k) eqn:E; [|apply Hl].
    apply str_eqb_eq in E as <-. intros [= <-]. eauto.
Qed.

Context (e : val) (He : exists it, it ∈ its /\ it_auth it = signed /\ it_entry it = e).

Lemma applyEdit_shown b cur cur' :
  is_kind e "edit" = true -> applyEdit cur e = Ok cur' -> shown b cur -> shown b cur'.
Proof.
  intros Hk. unfold applyEdit. intros H Hs. inv_ok. destruct (obj_get cur _) as [t|] eqn:Et; inv_ok; [|done].
  destruct (ln_deleted t || _); inv_ok; [done|]. destruct (is_empty _); inv_ok; [done|].
  destruct (sh_lines b cur Hs _ _ Et) as (m & Hm & [Hp Hb Hn Hc]).
  eapply shown_set; [exact Hs|exact Hm|exact Et|]. split; [exact Hp| |exact Hn|exact Hc].
  right; left. eexists e, _. split_and!; [split_and!; [done..|eauto]|eassumption|done].
Qed.

Lemma applyDelete_shown b cur cur' :
  is_kind e "del" = true -> applyDelete cur e = Ok cur' -> shown b cur -> shown b cur'.
Proof.
  intros Hk. unfold applyDelete. intros H Hs. inv_ok. destruct (obj_get cur _) as [t|] eqn:Et; inv_ok; [|done].
  destruct (sh_lines b cur Hs _ _ Et) as (m & Hm & [Hp Hb Hn Hc]).
  eapply shown_set; [exact Hs|exact Hm|exact Et|]. split; [exact Hp| |done|cbn; lia].
  right; right. exists e. split; [split_and!; [done..|eauto]|done].
Qed.

Lemma applyReaction_shown b cur cur' :
  is_kind e "react" = true -> applyReaction cur e = Ok cur' -> shown b cur -> shown b cur'.
Proof.
  intros Hk. unfold applyReaction. intros H Hs. inv_ok. destruct (obj_get cur _) as [t|] eqn:Et; inv_ok; [|done].
  destruct (ln_deleted t); inv_ok; [done|]. destruct (is_empty _); inv_ok; [done|].
  match goal with E : react _ _ _ _ = Ok ?x |- _ => destruct x as [r|]; inv_ok; [|done]; rename E into Er end.
  destruct (sh_lines b cur Hs _ _ Et) as (m & Hm & [Hp Hb Hn Hc]).
  eapply shown_set; [exact Hs|exact Hm|exact Et|].
  destruct He as (it & Hin & Ha & Hie).
  apply react_ok in Er as [Hn' Hc']; [|done|done|eauto with js|by exists it; rewrite Hie].
  split; done.
Qed.

Lemma apply_mutation_shown b cur cur' :
  apply_mutation cur e = Ok cur' -> shown b cur -> shown b cur'.
Proof.
  unfold apply_mutation.
  destruct (is_kind e "edit") eqn:H1; [by apply applyEdit_shown|].
  destruct (is_kind e "del") eqn:H2; [by apply applyDelete_shown|].
  destruct (is_kind e "react") eqn:H3; [by apply applyReaction_shown|]. by intros [= <-].
Qed.
End render.

Lemma replay_shown its b ms cur cur' :
  Forall (mutation_from its) ms -> replay_mutations cur ms = Ok cur' -> shown its b cur ->
  shown its b cur'.
Proof.
  intros Hms. revert cur. induction Hms as [|mu ms Hmu Hms IH]; intros cur; cbn [replay_mutations].
  - by intros [= <-].
  - intros H Hs. inv_ok. eapply IH; [done|]. by eapply apply_mutation_shown.
Qed.

Lemma shown_refl its b :
  (forall id m, (id, m) ∈ b -> ln_reacts m = None) -> shown its b b.
Proof.
  intros Hr. split; [done|]. intros id m Hm. exists m. split; [done|].
  apply vouched_refl. by eapply Hr, obj_get_elem.
Qed.

Lemma elem_of_obj_get {A} (o : list (jstr * A)) v :
  NoDup (obj_keys o) -> v ∈ o.*2 -> exists k, obj_get o k = Some v.
Proof. intros Hn ([k v'] & -> & Hin)%list_elem_of_fmap. exists k. by apply obj_get_NoDup. Qed.

(** Every rendered line stands in the base and is vouched for. *)
Lemma renderLog_vouched server channel its log ls m' :
  built server channel its log -> renderLog log = Ok ls -> m' ∈ ls ->
  exists id m, (id, m) ∈ base log /\ line_from server channel its id m /\ vouched its id m m'.
Proof.
  intros [Hb Hm Hk Hp]%built_ok. unfold renderLog. intros H. inv_ok.
  unfold in_time_order. rewrite sort_by_perm. intros Hin.
  assert (shown its (base log) a) as Hs.
  { eapply replay_shown; [|exact E|].
    - unfold in_seq_order. rewrite sort_by_perm. apply Forall_forall.
      intros mu ([id mu'] & -> & Hmu)%list_elem_of_fmap. by eapply Hm.
    - apply shown_refl. intros id m ?. by eapply Hp. }
  apply elem_of_obj_get in Hin as [id Hid]; [|rewrite (sh_keys _ _ _ Hs); done].
  destruct (sh_lines _ _ _ Hs id m' Hid) as (m & Hbm & Hv). apply obj_get_elem in Hbm. eauto 6.
Qed.

(** C3: every line a reader sees with an author was written by an entry that
    names that author and that instant and was not forged; and if its text is
    not the one of that entry, then an entry with a verified signature by the
    same author edited or deleted it.  Holding the room key is not enough to
    reword or remove another member's line. *)
Theorem lines_speak_for_author server channel its log ls m au :
  built server channel its log -> renderLog log = Ok ls -> m ∈ ls -> ln_auth m = Some au ->
  exists it m0, it ∈ its /\ it_auth it = au /\ au <> forged /\
    entryToMessage (it_entry it) server channel au (it_seq it) = Ok (Some m0) /\
    ln_sender m = ln_sender m0 /\ ln_ts m = ln_ts m0 /\
    text_of (it_entry it).["sender"] = Ok (ln_sender m) /\
    (ln_body m = ln_body m0 \/
     exists it', it' ∈ its /\ it_auth it' = signed /\
       to_string (it_entry it').["sender"] = Ok (ln_sender m) /\
       (is_kind (it_entry it') "edit" = true /\ LText <$> text_of (it_entry it').["text"] = Ok (ln_body m) \/
        is_kind (it_entry it') "del" = true /\ ln_body m = LGone)).
Proof.
  intros Hbuilt Hr Hin Ha.
  destruct (renderLog_vouched _ _ _ _ _ _ Hbuilt Hr Hin) as (id & mb & _ & Hfrom & [Hp Hb _ _]).
  destruct Hp as (Hsv & Hch & Hse & Hts & Hau & Hsq).
  destruct Hfrom as [[_ Hno]|(it & m0 & Hit & Hf & He & -> & Hid)]; [congruence|].
  pose proof (entryToMessage_plain _ _ _ _ _ _ He) as (_ & _ & _ & _ & Ham & _ & _ & _ & Hsender & _).
  assert (ln_sender m = ln_sender m0 /\ ln_ts m = ln_ts m0 /\ au = it_auth it) as (Hs0 & Ht0 & ->).
  { rewrite Hse, Hts. destruct (it_local it); cbn in *; split_and!; congruence. }
  exists it, m0. split_and!; try done; [by rewrite Hs0|].
  assert (forall e k, own_entry its k id e -> to_string e.["sender"] = Ok (ln_sender m)) as Hown.
  { intros e k (_ & _ & s & t & Hs & Hst). rewrite Hid in Hst.
    apply colon_split in Hst as [<- _]; [|apply num_to_string_plain..]. by rewrite Hse. }
  destruct Hb as [Hb|[(e & text & Hoe & Htext & Hb)|(e & Hoe & Hb)]].
  - left. rewrite Hb. by destruct (it_local it).
  - right. pose proof Hoe as ((it' & Hin' & Hsig & <-) & Hk & _). exists it'.
    split_and!; eauto. left. split; [done|]. by rewrite Htext, Hb.
  - right. pose proof Hoe as ((it' & Hin' & Hsig & <-) & Hk & _). exists it'.
    split_and!; eauto.
Qed.

(** Every name under an emoji is the sender of a reaction with a verified
    signature, and no line carries more than [REACT_MAX] emoji, whatever the
    entries are. *)
Theorem reactions_in_own_name server channel its log ls m :
  built server channel its log -> renderLog log = Ok ls -> m ∈ ls ->
  (length (obj_keys (default [] (ln_reacts m))) <= REACT_MAX)%nat /\
  forall emo v, obj_get (default [] (ln_reacts m)) emo = Some v ->
    exists names, v = VArr names /\ forall w, w ∈ names ->
      exists it, it ∈ its /\ it_auth it = signed /\ is_kind (it_entry it) "react" = true /\
        (it_entry it).["sender"] = w.
Proof.
  intros Hbuilt Hr Hin.
  destruct (renderLog_vouched _ _ _ _ _ _ Hbuilt Hr Hin) as (id & mb & _ & _ & [_ _ Hn Hb]).
  split; [done|exact Hn].
Qed.

(** The relay's copy of a line replaces the echo this device showed when
    it was sent, and keeps its place; an echo never replaces anything, and
    neither does a second relay copy. *)
Theorem relay_copy_supersedes_echo log server channel it m prior :
  truthy (it_entry it) = true -> it_auth it <> forged ->
  includes CONTENT_KINDS ((it_entry it).["k"] ⁇ VStr (js "chat")) = true ->
  entryToMessage (it_entry it) server channel (it_auth it) (it_seq it) = Ok (Some m) ->
  obj_get (base log) (messageId (ln_sender m) (ln_ts m)) = Some prior ->
  obj_keys (base (add_entry log server channel it).1) = obj_keys (base log) /\
  obj_get (base (add_entry log server channel it).1) (messageId (ln_sender m) (ln_ts m)) =
    Some (if ln_local prior && negb (it_local it) then m else prior).
Proof.
  intros Ht Hf Hk He Hp. unfold add_entry. rewrite Ht, bool_decide_false, Hk by done.
  cbn [negb orb]. unfold add_content. rewrite He.
  assert (base (move_cursors log (it_seq it)) = base log) as Hmc.
  { unfold move_cursors. by case_match. }
  assert (forall b : bool, messageId (ln_sender (if b then mark_local m else m))
            (ln_ts (if b then mark_local m else m)) = messageId (ln_sender m) (ln_ts m)) as Hid by by intros [].
  rewrite Hid, Hmc, Hp. destruct (ln_local prior && negb (it_local it)) eqn:E; cbn [fst base set_base].
  - apply andb_true_iff in E as [_ E%negb_true_iff]. rewrite E.
    unfold map_set. rewrite Hp, obj_keys_update. split; [done|].
    by rewrite obj_get_update, str_eqb_refl, Hp.
  - by rewrite Hmc.
Qed.

(** After auto-delete, no line older than the bound is left, every line at
    or after it is still there as it was, and no mutation is added. *)
Theorem pruneLog_drops_old log beforeTs :
  (forall id m, (id, m) ∈ base (pruneLog log beforeTs).1 <->
     (id, m) ∈ base log /\ (ln_ts m <ₙ beforeTs) = false) /\
  (forall x, x ∈ mutations (pruneLog log beforeTs).1 -> x ∈ mutations log).
Proof.
  unfold pruneLog. pose proof (prune_mutations_sub (mutations log) beforeTs) as Hsub.
  destruct (prune_mutations _ _) as [ms o]. cbn [fst] in *. split; cbn [base mutations set_mutations set_base].
  - intros id m. unfold prune_base. rewrite list_elem_of_filter. cbn. tauto.
  - exact Hsub.
Qed.

(** ** Witnesses and findings *)

Definition entry (k : string) (who : string) (ts : Z) (more : list (string * val)) : val :=
  jobj ([("k", VStr (js k)); ("sender", VStr (js who)); ("ts", VNum (int ts))]%string ++ more).
Definition target (who : string) (ts : Z) : val :=
  jobj [("sender", VStr (js who)); ("ts", VNum (int ts))]%string.

Definition relay_item (seq : Z) (e : val) (a : auth) : item :=
  {| it_seq := Some (int seq); it_entry := e; it_auth := a; it_local := false |}.

Definition said : item := relay_item 1 (entry "chat" "alice" 1000 [("text", VStr (js "8:40"))]%string) signed.
Definition edited : item :=
  relay_item 2 (entry "edit" "alice" 1001 [("to", target "alice" 1000); ("text", VStr (js "9:10"))]%string) signed.
Definition tampered : item :=
  relay_item 3 (entry "edit" "alice" 1002 [("to", target "alice" 1000); ("text", VStr (js "cancelled"))]%string) unsigned.
Definition thumbs (seq : Z) : item :=
  relay_item seq (entry "react" "bob" 1003 [("to", target "alice" 1000); ("emo", VStr (js "+1"))]%string) signed.

Definition room : jstr := js "circle".
Definition chan : val := VStr (js "general").
Definition history : list item := [said; edited; tampered; thumbs 4].
Definition history_log : channel_log := (addEntries createChannelLog history room chan).1.

Lemma history_built : built room chan history history_log.
Proof. apply (built_add room chan [] createChannelLog history). constructor. Qed.

Definition shown_line : line :=
  {| ln_server := room; ln_channel := chan; ln_sender := js "alice"; ln_ts := int 1000;
     ln_body := LText (js "9:10"); ln_reply := None; ln_auth := Some signed; ln_seq := Some (int 1);
     ln_local := false; ln_system := false; ln_failed := false; ln_edited := true; ln_deleted := false;
     ln_reacts := Some [(js "+1", VArr [VStr (js "bob")])] |}.

Lemma lines_speak_for_author_witness :
  renderLog history_log = Ok [shown_line] /\
  exists it m0, it ∈ history /\ it_auth it = signed /\ signed <> forged /\
    entryToMessage (it_entry it) room chan signed (it_seq it) = Ok (Some m0) /\
    ln_sender shown_line = ln_sender m0 /\ ln_ts shown_line = ln_ts m0 /\
    text_of (it_entry it).["sender"] = Ok (ln_sender shown_line) /\
    (ln_body shown_line = ln_body m0 \/
     exists it', it' ∈ history /\ it_auth it' = signed /\
       to_string (it_entry it').["sender"] = Ok (ln_sender shown_line) /\
       (is_kind (it_entry it') "edit" = true /\
          LText <$> text_of (it_entry it').["text"] = Ok (ln_body shown_line) \/
        is_kind (it_entry it') "del" = true /\ ln_body shown_line = LGone)).
Proof.
  assert (renderLog history_log = Ok [shown_line]) as E by (vm_compute; reflexivity).
  split; [exact E|].
  exact (lines_speak_for_author room chan history history_log [shown_line] shown_line signed
           history_built E (proj2 (list_elem_of_singleton _ _) eq_refl) eq_refl).
Defined.

Lemma reactions_in_own_name_witness :
  (length (obj_keys (default [] (ln_reacts shown_line))) <= REACT_MAX)%nat.
Proof.
  assert (renderLog history_log = Ok [shown_line]) as E by (vm_compute; reflexivity).
  exact (proj1 (reactions_in_own_name room chan history history_log [shown_line] shown_line
           history_built E (proj2 (list_elem_of_singleton _ _) eq_refl))).
Defined.

Definition echo : item :=
  {| it_seq := None; it_entry := it_entry said; it_auth := signed; it_local := true |}.
Definition echo_log : channel_log := (addEntries createChannelLog [echo] room chan).1.
Definition plain_line (seq : option num) (local : bool) : line :=
  {| ln_server := room; ln_channel := chan; ln_sender := js "alice"; ln_ts := int 1000;
     ln_body := LText (js "8:40"); ln_reply := None; ln_auth := Some signed; ln_seq := seq;
     ln_local := local; ln_system := false; ln_failed := false; ln_edited := false; ln_deleted := false; ln_reacts := None |}.

Lemma relay_copy_supersedes_echo_witness :
  obj_get (base (add_entry echo_log room chan said).1) (js "alice:1000")
    = Some (plain_line (Some (int 1)) false).
Proof.
  apply (relay_copy_supersedes_echo echo_log room chan said (plain_line (Some (int 1)) false)
           (plain_line None true)); try discriminate; vm_compute; reflexivity.
Defined.

(** One signed reaction whose emoji is the name of a method every object
    has makes every later render of the channel throw: a member can make a
    channel unreadable for everyone, its earlier lines included. *)
Theorem prototype_emoji_breaks_render :
  let poison := relay_item 5
    (entry "react" "mallory" 1004 [("to", target "alice" 1000); ("emo", VStr (js "toString"))]%string) signed in
  renderLog (addEntries createChannelLog [said; poison] room chan).1 = Throw TypeError /\
  (addEntries createChannelLog [said; poison] room chan).2 = Ok 2%nat.
Proof. split; vm_compute; reflexivity. Qed.

(** One entry whose sender is an object that cannot be printed stops the
    page it is in: the exception leaves the later entries out, and no
    signature is needed for it. *)
Theorem unprintable_sender_stops_page :
  let bad := relay_item 1 (jobj [("sender", jobj [("toString", VNum (int 1))]); ("ts", VNum (int 1))]%string) unsigned in
  addEntries createChannelLog [bad; said] room chan
    = (move_cursors createChannelLog (Some (int 1)), Throw TypeError).
Proof. vm_compute. reflexivity. Qed.

Definition bodies (log : channel_log) : res (list line_body) :=
  let* ls := renderLog log in Ok (ln_body <$> ls).

(** The echo of an edit this device made is never replaced by the relay's
    copy, so it stays ordered after every relay entry: a device that echoed
    its edit shows it over a later one by the same author, which every other
    reader of the same log shows. *)
Theorem edit_echo_outlives_relay_order :
  let first := entry "edit" "alice" 1001 [("to", target "alice" 1000); ("text", VStr (js "9:10"))]%string in
  let second := entry "edit" "alice" 1002 [("to", target "alice" 1000); ("text", VStr (js "9:30"))]%string in
  let page := [said; relay_item 2 first signed; relay_item 3 second signed] in
  let here := (addEntries (addLocalEntry createChannelLog first room chan).1 page room chan).1 in
  let there := (addEntries createChannelLog page room chan).1 in
  bodies here = Ok [LText (js "9:10")] /\
  bodies there = Ok [LText (js "9:30")].
Proof. split; vm_compute; reflexivity. Qed.
