(* ===== verification/LogOrder.v ===== *)
(** * Readers of one log converge (client/src/lib/log.js)

    Pages of a log arrive in any order.  Two readers that were given the same
    entries show the same lines, because mutations are replayed over the base
    in relay order on every render.  Maps that answer alike are equal here
    ([map_eq]), whatever order they were filled in. *)

From stdpp Require Import base list numbers option strings sorting.
From Stdlib Require Import ZArith NArith Lia Sorting.Sorted Sorting.Permutation.
From S2P Require Import Prelude JsNum JsString JsValue Games Envelope Log.
Open Scope Z_scope.

(** Both return related values, or both throw the same. *)
Definition res_rel {A} (R : A -> A -> Prop) (x y : res A) : Prop :=
  match x, y with
  | Ok a, Ok b => R a b
  | Throw e, Throw e' => e = e'
  | _, _ => False
  end.

Lemma res_rel_bind {A B} (R : B -> B -> Prop) (x : res A) (f g : A -> res B) :
  (forall a, x = Ok a -> res_rel R (f a) (g a)) -> res_rel R (rbind x f) (rbind x g).
Proof. intros H. destruct x; cbn; auto. Qed.

#[global] Instance applyEdit_proper : Proper (map_eq ==> eq ==> res_rel map_eq) applyEdit.
Proof.
  intros a b Hab e ? <-. unfold applyEdit. do 2 (apply res_rel_bind; intros ? _). rewrite Hab.
  destruct (obj_get b _); [|done]. case_match; [done|]. apply res_rel_bind; intros ? _.
  case_match; [done|]. cbn. by rewrite Hab.
Qed.

#[global] Instance applyDelete_proper : Proper (map_eq ==> eq ==> res_rel map_eq) applyDelete.
Proof.
  intros a b Hab e ? <-. unfold applyDelete. do 2 (apply res_rel_bind; intros ? _). rewrite Hab.
  destruct (obj_get b _); [|done]. cbn. by rewrite Hab.
Qed.

#[global] Instance applyReaction_proper : Proper (map_eq ==> eq ==> res_rel map_eq) applyReaction.
Proof.
  intros a b Hab e ? <-. unfold applyReaction. do 2 (apply res_rel_bind; intros ? _). rewrite Hab.
  destruct (obj_get b _); [|done]. case_match; [done|]. apply res_rel_bind; intros ? _.
  case_match; [done|]. apply res_rel_bind; intros r _. case_match; [|done]. cbn. by rewrite Hab.
Qed.

#[global] Instance apply_mutation_proper : Proper (map_eq ==> eq ==> res_rel map_eq) apply_mutation.
Proof.
  intros a b Hab e ? <-. unfold apply_mutation.
  case_match; [by apply applyEdit_proper|]. case_match; [by apply applyDelete_proper|].
  case_match; [by apply applyReaction_proper|]. done.
Qed.

#[global] Instance replay_proper : Proper (map_eq ==> eq ==> res_rel map_eq) replay_mutations.
Proof.
  intros a b Hab ms ? <-. revert a b Hab. induction ms as [|m ms IH]; intros a b Hab; cbn; [done|].
  pose proof (apply_mutation_proper a b Hab (mu_entry m) _ eq_refl) as H.
  destruct (apply_mutation a _), (apply_mutation b _); cbn in *; try done. by apply IH.
Qed.

(** ** What a page contributes *)

Section pages.
Context (server : jstr) (channel : val).

Definition kind_of (it : item) : val := (it_entry it).["k"] ⁇ VStr (js "chat").

(** Does the fold look at the item at all? *)
Definition seen (it : item) : bool := truthy (it_entry it) && bool_decide (it_auth it <> forged).

(** The line an item adds under its id. *)
Definition content_of (it : item) : option (jstr * line) :=
  if seen it && includes CONTENT_KINDS (kind_of it) then
    match entryToMessage (it_entry it) server channel (it_auth it) (it_seq it) with
    | Ok (Some m) => Some (messageId (ln_sender m) (ln_ts m), m)
    | _ => None
    end
  else None.

(** The mutation an item adds under its id. *)
Definition mutation_of (it : item) : option (jstr * mutation) :=
  if seen it && negb (includes CONTENT_KINDS (kind_of it)) && includes MUTATION_KINDS (kind_of it)
     && bool_decide (it_auth it = signed) then
    match mutationId (it_entry it), it_seq it with
    | Ok id, Some s => Some (id, {| mu_seq := s; mu_entry := it_entry it |})
    | _, _ => None
    end
  else None.

(** Entries as one relay log gives them: each with its own sequence number,
    one content per message id and one mutation per mutation id. *)
Record relay_page (its : list item) : Prop := {
  rp_relay : forall it, it ∈ its -> it_local it = false /\ exists s, it_seq it = Some s /\ nfinite s = true;
  rp_content : forall it it' id m m', it ∈ its -> it' ∈ its ->
    content_of it = Some (id, m) -> content_of it' = Some (id, m') -> m = m';
  rp_mutation : forall it it' id mu mu', it ∈ its -> it' ∈ its ->
    mutation_of it = Some (id, mu) -> mutation_of it' = Some (id, mu') -> mu = mu';
  rp_seq : forall it it' id id' mu mu', it ∈ its -> it' ∈ its ->
    mutation_of it = Some (id, mu) -> mutation_of it' = Some (id', mu') ->
    mu_seq mu = mu_seq mu' -> mu = mu';
}.

(** The log holds exactly what the items say. *)
Record holds_page (its : list item) (log : channel_log) : Prop := {
  hp_base : forall id m, obj_get (base log) id = Some m <->
    exists it, it ∈ its /\ content_of it = Some (id, m);
  hp_mutations : forall id mu, obj_get (mutations log) id = Some mu <->
    exists it, it ∈ its /\ mutation_of it = Some (id, mu);
  hp_keys : NoDup (obj_keys (base log));
  hp_mkeys : NoDup (obj_keys (mutations log));
  hp_relay : forall id m, obj_get (base log) id = Some m -> ln_local m = false;
}.

Lemma relay_page_sub its its' : (forall it, it ∈ its' -> it ∈ its) -> relay_page its -> relay_page its'.
Proof. intros Hsub []. split; eauto. Qed.

Lemma entryToMessage_relay e au seq m :
  entryToMessage e server channel au seq = Ok (Some m) -> ln_local m = false.
Proof. unfold entryToMessage. intros H. inv_ok. destruct (is_empty a || _); inv_ok. done. Qed.

Lemma content_of_relay it id m : content_of it = Some (id, m) -> ln_local m = false.
Proof.
  unfold content_of. destruct (_ && _); [|done].
  destruct (entryToMessage _ _ _ _ _) as [[m0|]|] eqn:E; [|done..].
  intros [= _ <-]. by eapply entryToMessage_relay.
Qed.

(** What adding one item does, in terms of what it says. *)
Lemma add_entry_effect log it n log' :
  it_local it = false -> (exists s, it_seq it = Some s /\ nfinite s = true) ->
  (forall id m, obj_get (base log) id = Some m -> ln_local m = false) ->
  add_entry log server channel it = (log', Ok n) ->
  base log' = match content_of it with
              | Some (id, m) => match obj_get (base log) id with
                                | Some _ => base log
                                | None => map_set (base log) id m
                                end
              | None => base log
              end /\
  mutations log' = match mutation_of it with
                   | Some (id, mu) => match obj_get (mutations log) id with
                                      | Some _ => mutations log
                                      | None => map_set (mutations log) id mu
                                      end
                   | None => mutations log
                   end.
Proof.
  intros Hl (s & Hs & Hf) Hrel. unfold add_entry, content_of, mutation_of, seen, kind_of. cbn zeta.
  assert (base (move_cursors log (it_seq it)) = base log /\
          mutations (move_cursors log (it_seq it)) = mutations log) as [Hb Hm].
  { unfold move_cursors. by case_match. }
  destruct (truthy (it_entry it)); cbn [negb orb andb]; [|by intros [= <- <-]].
  destruct (decide (it_auth it = forged)) as [Hfo|Hfo].
  { rewrite (bool_decide_true (it_auth it = forged)), (bool_decide_false (it_auth it <> forged)) by tauto.
    by intros [= <- <-]. }
  rewrite (bool_decide_false (it_auth it = forged)), (bool_decide_true (it_auth it <> forged)) by tauto.
  cbn [andb]. destruct (includes CONTENT_KINDS _) eqn:Hc; cbn [negb andb].
  - unfold add_content. destruct (entryToMessage _ _ _ _ _) as [[m|]|e]; [|by intros [= <- <-]|done].
    rewrite Hl. cbn zeta match. rewrite Hb. destruct (obj_get (base log) _) as [prior|] eqn:Ep.
    + rewrite (Hrel _ _ Ep). cbn [andb]. by intros [= <- <-].
    + intros [= <- <-]. by cbn.
  - destruct (includes MUTATION_KINDS _); cbn [andb]; [|by intros [= <- <-]].
    unfold add_mutation. destruct (decide (it_auth it = signed)) as [Hsg|Hsg].
    2: { rewrite (bool_decide_true (it_auth it <> signed)), (bool_decide_false (it_auth it = signed)) by done.
         by intros [= <- <-]. }
    rewrite (bool_decide_false (it_auth it <> signed)), (bool_decide_true (it_auth it = signed)) by tauto.
    destruct (mutationId _) as [id|e]; [|done].
    unfold finite_seq. rewrite Hs, Hf in *. rewrite Hm.
    destruct (obj_get (mutations log) id); intros [= <- <-]; [done|]. cbn. by rewrite Hb.
Qed.

(** A first-come map, after one more item that says [x]. *)
Lemma first_come_get {A} (m : list (jstr * A)) (x : option (jstr * A)) k v :
  (forall k v v', x = Some (k, v) -> obj_get m k = Some v' -> v = v') ->
  obj_get (match x with
           | Some (k0, v0) => match obj_get m k0 with Some _ => m | None => map_set m k0 v0 end
           | None => m
           end) k = Some v <-> obj_get m k = Some v \/ x = Some (k, v).
Proof.
  intros Hc. destruct x as [[k0 v0]|]; [|naive_solver].
  destruct (obj_get m k0) as [v1|] eqn:E.
  - split; [tauto|]. intros [?|[= -> ->]]; [done|]. by rewrite (Hc _ _ _ eq_refl E).
  - rewrite obj_get_map_set. destruct (str_eqb k0 k) eqn:Ek.
    + apply str_eqb_eq in Ek as <-. rewrite E. naive_solver.
    + apply str_eqb_neq in Ek. naive_solver.
Qed.

Lemma first_come_NoDup {A} (m : list (jstr * A)) (x : option (jstr * A)) :
  NoDup (obj_keys m) ->
  NoDup (obj_keys (match x with
           | Some (k0, v0) => match obj_get m k0 with Some _ => m | None => map_set m k0 v0 end
           | None => m
           end)).
Proof. intros Hn. destruct x as [[k0 v0]|]; [|done]. case_match; [done|]. by apply map_set_NoDup. Qed.

Lemma add_entry_page its log it n log' :
  relay_page (its ++ [it]) -> holds_page its log ->
  add_entry log server channel it = (log', Ok n) -> holds_page (its ++ [it]) log'.
Proof.
  intros Hpage [Hb Hm Hk Hmk Hrel] Ha.
  assert (it ∈ its ++ [it]) as Hit by (apply elem_of_app; right; by apply list_elem_of_singleton).
  assert (forall x, x ∈ its -> x ∈ its ++ [it]) as Hsub by (intros; apply elem_of_app; by left).
  destruct (rp_relay _ Hpage it Hit) as [Hl Hs].
  destruct (add_entry_effect log it n log' Hl Hs Hrel Ha) as [Eb Em].
  assert (forall id m m', content_of it = Some (id, m) -> obj_get (base log) id = Some m' -> m = m') as Hcb.
  { intros id m m' H1 (it' & Hin & H2)%Hb. eapply (rp_content _ Hpage it it'); eauto. }
  assert (forall id m m', mutation_of it = Some (id, m) -> obj_get (mutations log) id = Some m' -> m = m') as Hcm.
  { intros id m m' H1 (it' & Hin & H2)%Hm. eapply (rp_mutation _ Hpage it it'); eauto. }
  assert (forall B (f : item -> option (jstr * B)) id v,
    (exists x, x ∈ its ++ [it] /\ f x = Some (id, v)) <->
    (exists x, x ∈ its /\ f x = Some (id, v)) \/ f it = Some (id, v)) as Hsplit.
  { intros B f id v. setoid_rewrite elem_of_app. setoid_rewrite list_elem_of_singleton. naive_solver. }
  split; rewrite ?Eb, ?Em.
  - intros id m. by rewrite first_come_get, Hb, Hsplit by done.
  - intros id mu. by rewrite first_come_get, Hm, Hsplit by done.
  - by apply first_come_NoDup.
  - by apply first_come_NoDup.
  - intros id m. rewrite first_come_get by done. intros [?|?]; [eauto|by eapply content_of_relay].
Qed.

Lemma addEntries_page its log more n log' :
  relay_page (its ++ more) -> holds_page its log ->
  addEntries log more server channel = (log', Ok n) -> holds_page (its ++ more) log'.
Proof.
  revert its log n. induction more as [|it more IH]; intros its log n Hpage Hlog; cbn [addEntries].
  { rewrite app_nil_r. by intros [= <- _]. }
  replace (its ++ it :: more) with ((its ++ [it]) ++ more) in Hpage |- * by by rewrite <- app_assoc.
  destruct (add_entry log server channel it) as [log1 [n1|e]] eqn:E1; [|done].
  destruct (addEntries log1 more server channel) as [log2 [n2|e]] eqn:E2; [|done].
  intros [= <- _]. eapply IH; [done| |exact E2]. eapply add_entry_page; [|done|exact E1].
  eapply relay_page_sub; [|exact Hpage]. intros x Hx. apply elem_of_app. by left.
Qed.

(** Whether adding throws depends on the items alone, not on their order. *)
Definition readable (it : item) : Prop :=
  exists n, (add_entry createChannelLog server channel it).2 = Ok n.

Lemma add_entry_readable log it :
  (exists n, (add_entry log server channel it).2 = Ok n) <-> readable it.
Proof.
  unfold readable, add_entry. cbn zeta. case_match; [done|].
  case_match; [unfold add_content|case_match; [unfold add_mutation|]]; cbn zeta.
  - destruct (entryToMessage _ _ _ _ _) as [[m|]|e]; [|done..].
    split; intros _; case_match; eauto.
  - case_match; [naive_solver|]. destruct (mutationId _) as [id|e]; [|done].
    split; intros _; repeat case_match; cbn; eauto.
  - cbn. split; eauto.
Qed.

Lemma addEntries_readable log its :
  (exists n, (addEntries log its server channel).2 = Ok n) <-> Forall readable its.
Proof.
  revert log. induction its as [|it its IH]; intros log; cbn [addEntries]; [cbn; split; eauto|].
  rewrite Forall_cons, <- (add_entry_readable log it).
  destruct (add_entry log server channel it) as [log1 [n1|e]]; cbn [snd].
  - rewrite <- (IH log1). destruct (addEntries log1 its server channel) as [log2 [n2|e]]; cbn; naive_solver.
  - naive_solver.
Qed.

(** ** The two renders *)

Lemma new_holds_page : holds_page [] createChannelLog.
Proof.
  split; cbn; try (apply NoDup_nil_2); try done; intros ??;
    (split; [done|]); by intros (it & []%elem_of_nil & _).
Qed.

Definition seq_before (a b : mutation) : Prop := (Fin 0 <ₙ nsub (mu_seq a) (mu_seq b)) = false.

Lemma in_seq_order_sorted ms :
  Forall (fun m => nfinite (mu_seq m) = true) ms -> StronglySorted seq_before (in_seq_order ms).
Proof.
  apply sort_by_in_order.
  - intros a b [x Hx]%nfinite_Fin [y Hy]%nfinite_Fin. rewrite Hx, Hy, !nsub_gt0. lia.
  - intros a b c [x Hx]%nfinite_Fin [y Hy]%nfinite_Fin [z Hz]%nfinite_Fin.
    rewrite Hx, Hy, Hz, !nsub_gt0. lia.
Qed.

Lemma mutation_of_seq it id mu : mutation_of it = Some (id, mu) -> it_seq it = Some (mu_seq mu).
Proof.
  unfold mutation_of. case_match; [|done]. destruct (mutationId _); [|done].
  destruct (it_seq it); [|done]. by intros [= _ <-].
Qed.

(** Both logs replay one and the same sequence of mutations. *)
Lemma same_mutations its1 its2 log1 log2 :
  its1 ≡ₚ its2 -> relay_page its1 -> holds_page its1 log1 -> holds_page its2 log2 ->
  in_seq_order (mutations log1).*2 = in_seq_order (mutations log2).*2.
Proof.
  intros Hp Hpage H1 H2.
  assert (forall its log mu, holds_page its log -> its ≡ₚ its1 -> mu ∈ (mutations log).*2 ->
            exists it id, it ∈ its1 /\ mutation_of it = Some (id, mu)) as Hfrom.
  { intros its log mu H Hperm Hin. apply elem_of_obj_get in Hin as [id Hid]; [|apply H].
    apply (hp_mutations _ _ H) in Hid as (it & Hit & Hmu). rewrite Hperm in Hit. eauto. }
  assert (forall its log, holds_page its log -> its ≡ₚ its1 ->
            StronglySorted seq_before (in_seq_order (mutations log).*2)) as Hsorted.
  { intros its log H Hperm. apply in_seq_order_sorted, Forall_forall. intros mu Hin.
    destruct (Hfrom _ _ _ H Hperm Hin) as (it & id & Hit & Hmu%mutation_of_seq).
    destruct (rp_relay _ Hpage it Hit) as [_ (s & Hs & Hf)]. congruence. }
  eapply (StronglySorted_unique_strong seq_before); [|by eapply Hsorted|by eapply Hsorted|].
  - intros a b Ha Hb Hab Hba. unfold in_seq_order in Ha, Hb. rewrite sort_by_perm in Ha, Hb.
    destruct (Hfrom _ _ _ H1 ltac:(done) Ha) as (it & id & Hit & Hmu).
    destruct (Hfrom _ _ _ H2 ltac:(done) Hb) as (it' & id' & Hit' & Hmu').
    eapply (rp_seq _ Hpage it it'); eauto.
    apply mutation_of_seq in Hmu, Hmu'.
    destruct (rp_relay _ Hpage it Hit) as [_ (s & Hs & [x Hx]%nfinite_Fin)].
    destruct (rp_relay _ Hpage it' Hit') as [_ (s' & Hs' & [y Hy]%nfinite_Fin)].
    unfold seq_before in *. replace (mu_seq a) with (Fin x) in * by congruence.
    replace (mu_seq b) with (Fin y) in * by congruence. rewrite !nsub_gt0 in *. f_equal. lia.
  - unfold in_seq_order. rewrite !sort_by_perm. apply fmap_Permutation, map_eq_perm; [apply H1|apply H2|].
    intros id. apply option_eq. intros mu. rewrite (hp_mutations _ _ H1), (hp_mutations _ _ H2).
    by setoid_rewrite Hp.
Qed.

Lemma same_base its1 its2 log1 log2 :
  its1 ≡ₚ its2 -> holds_page its1 log1 -> holds_page its2 log2 -> map_eq (base log1) (base log2).
Proof.
  intros Hp H1 H2 id. apply option_eq. intros m. rewrite (hp_base _ _ H1), (hp_base _ _ H2).
  by setoid_rewrite Hp.
Qed.
End pages.

Lemma map_set_keys_held {A} (m : list (jstr * A)) k v v' :
  obj_get m k = Some v' -> obj_keys (map_set m k v) = obj_keys m.
Proof. intros H. unfold map_set. rewrite H. apply obj_keys_update. Qed.

(** Replaying neither adds nor drops a line. *)
Lemma replay_keys ms a b : replay_mutations a ms = Ok b -> obj_keys b = obj_keys a.
Proof.
  revert a. induction ms as [|m ms IH]; intros a; cbn; [by intros [= <-]|]. intros H. inv_ok.
  rewrite (IH _ H). clear IH H. unfold apply_mutation, applyEdit, applyDelete, applyReaction in E.
  repeat (case_match; inv_ok; try done); by eapply map_set_keys_held.
Qed.

Definition time_before (a b : line) : Prop := (Fin 0 <ₙ nsub (ln_ts a) (ln_ts b)) = false.

Lemma in_time_order_sorted ls :
  Forall (fun m => nfinite (ln_ts m) = true) ls -> StronglySorted time_before (in_time_order ls).
Proof.
  apply sort_by_in_order.
  - intros a b [x Hx]%nfinite_Fin [y Hy]%nfinite_Fin. rewrite Hx, Hy, !nsub_gt0. lia.
  - intros a b c [x Hx]%nfinite_Fin [y Hy]%nfinite_Fin [z Hz]%nfinite_Fin.
    rewrite Hx, Hy, Hz, !nsub_gt0. lia.
Qed.

(** No two lines of one instant, every instant finite. *)
Definition told_apart (ls : list line) : Prop :=
  Forall (fun m => nfinite (ln_ts m) = true) ls /\
  forall a b, a ∈ ls -> b ∈ ls -> ln_ts a = ln_ts b -> a = b.

Lemma in_time_order_unique l1 l2 :
  l1 ≡ₚ l2 -> told_apart l1 -> in_time_order l1 = in_time_order l2.
Proof.
  intros Hp [Hf Hd]. eapply (StronglySorted_unique_strong time_before).
  - intros a b Ha Hb Hab Hba. unfold in_time_order in Ha, Hb. rewrite sort_by_perm in Ha, Hb.
    rewrite <- Hp in Hb. apply Hd; [done..|]. rewrite Forall_forall in Hf.
    destruct (proj1 (nfinite_Fin _) (Hf a Ha)) as [x Hx], (proj1 (nfinite_Fin _) (Hf b Hb)) as [y Hy].
    unfold time_before in *. rewrite Hx, Hy in *. rewrite !nsub_gt0 in *. f_equal. lia.
  - by apply in_time_order_sorted.
  - apply in_time_order_sorted. by rewrite <- Hp.
  - unfold in_time_order. by rewrite !sort_by_perm.
Qed.

(** C6: two readers given the same entries of a relay log, in whatever order
    the pages arrive, fold them all or neither does, and render alike: the
    same lines with the same edits, deletions and reactions, or the same
    exception; and the same list when no two lines carry one timestamp.  The
    entries are taken to be ones of a relay ([relay_page]): numbered, no two
    lines of one author and instant, no two mutations of one id; of two that
    clash the fold keeps the one it reads first. *)
Theorem readers_converge server channel its1 its2 log1 n1 :
  its1 ≡ₚ its2 -> relay_page server channel its1 ->
  addEntries createChannelLog its1 server channel = (log1, Ok n1) ->
  exists log2 n2, addEntries createChannelLog its2 server channel = (log2, Ok n2) /\
    res_rel (fun l1 l2 => l1 ≡ₚ l2 /\ (told_apart l1 -> l1 = l2)) (renderLog log1) (renderLog log2).
Proof.
  intros Hp Hpage H1.
  assert (exists n2, (addEntries createChannelLog its2 server channel).2 = Ok n2) as [n2 H2].
  { rewrite addEntries_readable, <- Hp, <- (addEntries_readable _ _ createChannelLog), H1. eauto. }
  destruct (addEntries createChannelLog its2 server channel) as [log2 o2] eqn:E2. cbn in H2. subst o2.
  exists log2, n2. split; [done|].
  assert (relay_page server channel its2) as Hpage2.
  { eapply relay_page_sub; [|exact Hpage]. intros it. by rewrite Hp. }
  pose proof (addEntries_page _ _ [] _ its1 _ _ Hpage (new_holds_page _ _) H1) as P1.
  pose proof (addEntries_page _ _ [] _ its2 _ _ Hpage2 (new_holds_page _ _) E2) as P2.
  cbn [app] in P1, P2. unfold renderLog.
  rewrite (same_mutations _ _ _ _ _ _ Hp Hpage P1 P2).
  pose proof (replay_proper _ _ (same_base _ _ _ _ _ _ Hp P1 P2)
                (in_seq_order (mutations log2).*2) _ eq_refl) as Hr.
  destruct (replay_mutations (base log1) _) as [a|] eqn:Ea, (replay_mutations (base log2) _) as [b|] eqn:Eb;
    cbn in Hr |- *; try done.
  assert (a.*2 ≡ₚ b.*2) as Hab.
  { apply fmap_Permutation, map_eq_perm; [..|done].
    - rewrite (replay_keys _ _ _ Ea). apply P1.
    - rewrite (replay_keys _ _ _ Eb). apply P2. }
  split; [unfold in_time_order; by rewrite !sort_by_perm|].
  intros [Hf Hd]. apply in_time_order_unique; [done|].
  unfold in_time_order in Hf, Hd. rewrite sort_by_perm in Hf. setoid_rewrite sort_by_perm in Hd. done.
Qed.

(** ** Witness *)

Definition pages_forward : list item := [said; edited; thumbs 4].
Definition pages_backward : list item := [thumbs 4; said; edited].

Lemma said_content : content_of room chan said = Some (js "alice:1000", plain_line (Some (int 1)) false).
Proof. vm_compute. reflexivity. Qed.
Lemma edited_content : content_of room chan edited = None.
Proof. vm_compute. reflexivity. Qed.
Lemma thumbs_content : content_of room chan (thumbs 4) = None.
Proof. vm_compute. reflexivity. Qed.
Lemma said_mutation : mutation_of said = None.
Proof. vm_compute. reflexivity. Qed.
Lemma edited_mutation :
  mutation_of edited = Some (js "alice:edit:1001", {| mu_seq := int 2; mu_entry := it_entry edited |}).
Proof. vm_compute. reflexivity. Qed.
Lemma thumbs_mutation :
  mutation_of (thumbs 4) = Some (js "bob:react:1003", {| mu_seq := int 4; mu_entry := it_entry (thumbs 4) |}).
Proof. vm_compute. reflexivity. Qed.

Lemma edit_is_not_react : js "alice:edit:1001" <> js "bob:react:1003".
Proof. vm_compute. discriminate. Qed.

Lemma elem_of_pages it : it ∈ pages_forward -> it = said \/ it = edited \/ it = thumbs 4.
Proof. unfold pages_forward. rewrite !elem_of_cons, elem_of_nil. tauto. Qed.

Lemma Some_pair_inj {A B} (a a' : A) (b b' : B) : Some (a, b) = Some (a', b') -> a = a' /\ b = b'.
Proof. by intros [= -> ->]. Qed.

Lemma pages_relay : relay_page room chan pages_forward.
Proof.
  pose proof edit_is_not_react as Hne. pose proof said_content as C1. pose proof edited_content as C2.
  pose proof thumbs_content as C3. pose proof said_mutation as M1. pose proof edited_mutation as M2.
  pose proof thumbs_mutation as M3.
  split.
  - intros it [->|[->| ->]]%elem_of_pages; (split; [done|]); eexists; (split; reflexivity).
  - intros it it' id m m' [->|[->| ->]]%elem_of_pages [->|[->| ->]]%elem_of_pages; congruence.
  - intros it it' id m m' [->|[->| ->]]%elem_of_pages [->|[->| ->]]%elem_of_pages; congruence.
  - intros it it' id id' m m' [->|[->| ->]]%elem_of_pages [->|[->| ->]]%elem_of_pages H1 H2 Hs; try congruence.
    + exfalso. rewrite M2 in H1. rewrite M3 in H2. apply Some_pair_inj in H1 as [_ <-], H2 as [_ <-].
      cbn in Hs. by apply int_inj in Hs.
    + exfalso. rewrite M3 in H1. rewrite M2 in H2. apply Some_pair_inj in H1 as [_ <-], H2 as [_ <-].
      cbn in Hs. by apply int_inj in Hs.
Qed.

Lemma readers_converge_witness :
  exists log2 n2, addEntries createChannelLog pages_backward room chan = (log2, Ok n2) /\
    res_rel (fun l1 l2 => l1 ≡ₚ l2 /\ (told_apart l1 -> l1 = l2))
      (renderLog (addEntries createChannelLog pages_forward room chan).1) (renderLog log2).
Proof.
  apply (readers_converge room chan pages_forward pages_backward
           (addEntries createChannelLog pages_forward room chan).1 3%nat).
  - unfold pages_forward, pages_backward. symmetry. apply (Permutation_cons_append [said; edited] (thumbs 4)).
  - exact pages_relay.
  - vm_compute. reflexivity.
Defined.
