(* ===== verification/Json.v ===== *)
(** * JSON, canonical and not ([JSON.parse], [JSON.stringify] and
      [canonicalJson] of client/src/lib/history.js)

    Everything that leaves a device is JSON, and a signature is over the
    canonical form: object keys sorted at every depth.  The printer and the
    parser are the language's; the theorems are that the parser reads back
    what either printer wrote, hence that two values with one canonical form
    are the same value up to the order of their keys. *)

From stdpp Require Import base list numbers option strings sorting.
From Stdlib Require Import ZArith NArith Lia Sorting.Sorted Sorting.Permutation.
From S2P Require Import Prelude JsNum JsString JsValue.
Open Scope Z_scope.

(** ** Strings *)

Definition is_high (c : N) : bool := (N.leb 55296 c && N.leb c 56319)%bool.
Definition is_low (c : N) : bool := (N.leb 56320 c && N.leb c 57343)%bool.

Definition hex_digit (v : N) : N := if N.ltb v 10 then (48 + v)%N else (87 + v)%N.

(** [\uXXXX]. *)
Definition unicode_escape (c : N) : jstr :=
  [92; 117; hex_digit (c / 4096); hex_digit (c / 256 mod 16);
   hex_digit (c / 16 mod 16); hex_digit (c mod 16)]%N.

(** One code unit that is not half of a surrogate pair. *)
Definition quote_unit (c : N) : jstr :=
  if N.eqb c 8 then [92; 98]%N
  else if N.eqb c 9 then [92; 116]%N
  else if N.eqb c 10 then [92; 110]%N
  else if N.eqb c 12 then [92; 102]%N
  else if N.eqb c 13 then [92; 114]%N
  else if N.eqb c 34 then [92; 34]%N
  else if N.eqb c 92 then [92; 92]%N
  else if (N.ltb c 32 || is_high c || is_low c)%bool then unicode_escape c
  else [c].

Fixpoint quote_body (s : jstr) : jstr :=
  match s with
  | [] => []
  | c :: r =>
      match r with
      | d :: r' =>
          if (is_high c && is_low d)%bool then c :: d :: quote_body r'
          else quote_unit c ++ quote_body r
      | [] => quote_unit c
      end
  end.

Definition json_quote (s : jstr) : jstr := [34%N] ++ quote_body s ++ [34%N].

(** ** Printing *)

Definition json_number (a : num) : jstr := if nfinite a then num_to_string a else js "null".

(** A list of printed pieces between brackets. *)
Definition bracket (l r : N) (pieces : list jstr) : jstr := [l] ++ str_join (js ",") pieces ++ [r].
Definition member (k v : jstr) : jstr := json_quote k ++ js ":" ++ v.

Definition is_undefined (v : val) : bool := match v with VUndef => true | _ => false end.
Definition unprintable (v : val) : bool := match v with VUndef | VFun _ => true | _ => false end.

(** The members that are not skipped, each value passed through [f]. *)
Definition keep_members {B} (skip : val -> bool) (f : val -> B) : obj -> list (jstr * B) :=
  fix go o :=
    match o with
    | [] => []
    | (k, x) :: r => if skip x then go r else (k, f x) :: go r
    end.

Definition print_members (l : list (jstr * jstr)) : jstr :=
  bracket 123 125 (map (fun kv => member kv.1 kv.2) l).

(** [JSON.stringify(v)]: members that are [undefined] or a function are left
    out, such elements print as [null]. *)
Fixpoint stringify (v : val) : jstr :=
  match v with
  | VUndef | VNull | VFun _ => js "null"
  | VBool b => if b then js "true" else js "false"
  | VNum a => json_number a
  | VStr s => json_quote s
  | VArr l => bracket 91 93 (map stringify l)
  | VObj o => print_members (keep_members unprintable stringify o)
  end.

(** [keys.sort()], each key with what it leads to. *)
Definition sort_members {A} (l : list (jstr * A)) : list (jstr * A) :=
  sort_by (fun a b => str_ltb b.1 a.1) l.

Fixpoint canonicalJson (v : val) : jstr :=
  match v with
  | VArr l => bracket 91 93 (map canonicalJson l)
  | VObj o => print_members (sort_members (keep_members is_undefined canonicalJson o))
  | VFun _ => js "undefined"
  | _ => stringify v
  end.

(** ** Parsing *)

Fixpoint skip_ws (s : jstr) : jstr :=
  match s with
  | c :: r => if (N.eqb c 32 || N.eqb c 9 || N.eqb c 10 || N.eqb c 13)%bool then skip_ws r else s
  | [] => []
  end.

Definition hex_value (c : N) : option N := Z.to_N <$> digit_value 16 c.

Definition read_hex4 (a b c d : N) : option N :=
  match hex_value a, hex_value b, hex_value c, hex_value d with
  | Some a, Some b, Some c, Some d => Some (a * 4096 + b * 256 + c * 16 + d)%N
  | _, _, _, _ => None
  end.

(** The rest of a string literal: the string and what follows it. *)
Fixpoint read_string (s : jstr) : option (jstr * jstr) :=
  let put c (rest : option (jstr * jstr)) :=
    match rest with Some (s, r) => Some (c :: s, r) | None => None end in
  match s with
  | [] => None
  | c :: r =>
      if N.eqb c 34 then Some ([], r)
      else if N.eqb c 92 then
        match r with
        | [] => None
        | e :: r =>
            if (N.eqb e 34 || N.eqb e 92 || N.eqb e 47)%bool then put e (read_string r)
            else if N.eqb e 98 then put 8%N (read_string r)
            else if N.eqb e 102 then put 12%N (read_string r)
            else if N.eqb e 110 then put 10%N (read_string r)
            else if N.eqb e 114 then put 13%N (read_string r)
            else if N.eqb e 116 then put 9%N (read_string r)
            else if N.eqb e 117 then
              match r with
              | a :: b :: c :: d :: r' =>
                  match read_hex4 a b c d with
                  | Some u => put u (read_string r')
                  | None => None
                  end
              | _ => None
              end
            else None
        end
      else if N.ltb c 32 then None
      else put c (read_string r)
  end.

(** The exponent of a number literal, 0 when there is none. *)
Definition read_exponent (s : jstr) : option (Z * jstr) :=
  match s with
  | c :: t =>
      if (N.eqb c 101 || N.eqb c 69)%bool then
        let '(sg, t') := read_sign t in
        let '(e, ec, t'') := read_digits 10 0 0 t' in
        if ec =? 0 then None else Some (if sg then - e else e, t'')
      else Some (0, s)
  | [] => Some (0, s)
  end.

(** A number literal without its sign: no leading zero, digits on both sides
    of a point. *)
Definition read_magnitude (s : jstr) : option (num * jstr) :=
  let '(ip, ic, r) := match s with
                      | c :: t => if N.eqb c 48 then (0, 1, t) else read_digits 10 0 0 s
                      | [] => (0, 0, [])
                      end in
  if ic =? 0 then None else
  let '(m, fc, r', ok) :=
    match r with
    | 46%N :: t => let '(m, fc, r') := read_digits 10 ip 0 t in (m, fc, r', negb (fc =? 0))
    | _ => (ip, 0, r, true)
    end in
  if negb ok then None else
  match read_exponent r' with
  | None => None
  | Some (e, r'') => Some (dec_value m (e - fc), r'')
  end.

Definition read_number (s : jstr) : option (num * jstr) :=
  match s with
  | c :: r =>
      if N.eqb c 45
      then match read_magnitude r with Some (a, r') => Some (nneg a, r') | None => None end
      else read_magnitude s
  | [] => None
  end.

(** [if (s.startsWith(p)) v]: a keyword. *)
Definition read_word (p : jstr) (v : val) (s : jstr) : option (val * jstr) :=
  if starts_with p s then Some (v, drop (length p) s) else None.

Fixpoint read_value (fuel : nat) (s : jstr) : option (val * jstr) :=
  match fuel with
  | O => None
  | S f =>
      match s with
      | [] => None
      | c :: r =>
          if N.eqb c 34 then
            match read_string r with Some (x, r') => Some (VStr x, r') | None => None end
          else if N.eqb c 91 then
            match skip_ws r with
            | 93%N :: r' => Some (VArr [], r')
            | _ => match read_elements f r with Some (l, r') => Some (VArr l, r') | None => None end
            end
          else if N.eqb c 123 then
            match skip_ws r with
            | 125%N :: r' => Some (VObj [], r')
            | _ => match read_members f r [] with Some (o, r') => Some (VObj o, r') | None => None end
            end
          else if N.eqb c 110 then read_word (js "null") VNull s
          else if N.eqb c 116 then read_word (js "true") (VBool true) s
          else if N.eqb c 102 then read_word (js "false") (VBool false) s
          else match read_number s with Some (a, r') => Some (VNum a, r') | None => None end
      end
  end
with read_elements (fuel : nat) (s : jstr) : option (list val * jstr) :=
  match fuel with
  | O => None
  | S f =>
      match read_value f (skip_ws s) with
      | None => None
      | Some (v, r) =>
          match skip_ws r with
          | 44%N :: r' =>
              match read_elements f r' with Some (l, r'') => Some (v :: l, r'') | None => None end
          | 93%N :: r' => Some ([v], r')
          | _ => None
          end
      end
  end
with read_members (fuel : nat) (s : jstr) (o : obj) : option (obj * jstr) :=
  match fuel with
  | O => None
  | S f =>
      match skip_ws s with
      | 34%N :: r =>
          match read_string r with
          | None => None
          | Some (k, r1) =>
              match skip_ws r1 with
              | 58%N :: r2 =>
                  match read_value f (skip_ws r2) with
                  | None => None
                  | Some (v, r3) =>
                      match skip_ws r3 with
                      | 44%N :: r4 => read_members f r4 (obj_put o k v)
                      | 125%N :: r4 => Some (obj_put o k v, r4)
                      | _ => None
                      end
                  end
              | _ => None
              end
          end
      | _ => None
      end
  end.

(** Every value and every list cell takes a character, so this is enough. *)
Definition parse_fuel (s : jstr) : nat := 2 * length s + 2.

Definition json_parse (s : jstr) : res val :=
  match read_value (parse_fuel s) (skip_ws s) with
  | Some (v, r) => match skip_ws r with [] => Ok v | _ => Throw OtherError end
  | None => Throw OtherError
  end.

(** Literals with double quotes, written with single ones. *)
Definition dq (s : string) : jstr := (fun c => if N.eqb c 39 then 34%N else c) <$> js s.

Example parse_nested :
  json_parse (dq " {  'b' : [1, -2.5e1, null, true], '7':{},'b':'\u00e9\n' } ")
    = Ok (VObj [(js "7", VObj []); (js "b", VStr (js "é" ++ [10%N]))]).
Proof. vm_compute. reflexivity. Qed.
Example parse_trailing : json_parse (dq "[1,]") = Throw OtherError.
Proof. vm_compute. reflexivity. Qed.
Example parse_leading_zero : json_parse (dq "01") = Throw OtherError.
Proof. vm_compute. reflexivity. Qed.
Example canonical_sorted :
  canonicalJson (VObj [(js "ts", VNum (int 5)); (js "a", VUndef); (js "k", VArr [VNull; VStr (js "x")])])
    = dq "{'k':[null,'x'],'ts':5}".
Proof. vm_compute. reflexivity. Qed.

(** ** Reading back strings *)

Definition unit16 (c : N) : Prop := (c < 65536)%N.

Lemma hex_value_digit v : (v < 16)%N -> hex_value (hex_digit v) = Some v.
Proof.
  intros Hv. destruct v as [|p]; [done|].
  do 5 (destruct p as [p|p|]; try reflexivity; try lia).
Qed.

Lemma read_hex4_escape c :
  unit16 c -> read_hex4 (hex_digit (c / 4096)) (hex_digit (c / 256 mod 16))
                (hex_digit (c / 16 mod 16)) (hex_digit (c mod 16)) = Some c.
Proof.
  unfold unit16. intros Hc. unfold read_hex4.
  rewrite !hex_value_digit by (first [apply N.mod_lt; lia | apply N.Div0.div_lt_upper_bound; lia]).
  f_equal. pose proof (N.div_mod c 16). pose proof (N.div_mod (c / 16) 16).
  pose proof (N.div_mod (c / 256) 16). rewrite !N.Div0.div_div in *. change (16 * 16)%N with 256%N in *.
  change (256 * 16)%N with 4096%N in *. lia.
Qed.

Lemma read_string_escape c t :
  unit16 c -> read_string (unicode_escape c ++ t) =
    match read_string t with Some (s, r) => Some (c :: s, r) | None => None end.
Proof. intros Hc. unfold unicode_escape. cbn -[read_hex4 hex_digit]. by rewrite read_hex4_escape. Qed.

Lemma read_string_plain c t :
  (32 <= c)%N -> c <> 34%N -> c <> 92%N -> read_string (c :: t) =
    match read_string t with Some (s, r) => Some (c :: s, r) | None => None end.
Proof.
  intros Hc H1 H2. cbn [read_string]. rewrite (proj2 (N.eqb_neq c 34)), (proj2 (N.eqb_neq c 92)) by done.
  by rewrite (proj2 (N.ltb_ge c 32)) by lia.
Qed.

Lemma read_string_unit c t :
  unit16 c -> read_string (quote_unit c ++ t) =
    match read_string t with Some (s, r) => Some (c :: s, r) | None => None end.
Proof.
  intros Hc. unfold quote_unit.
  do 7 (match goal with |- context [N.eqb c ?k] =>
          let E := fresh "E" in
          destruct (N.eqb c k) eqn:E; [apply N.eqb_eq in E; subst c; reflexivity|] end).
  destruct (_ || _ || _)%bool eqn:E'; [by apply read_string_escape|].
  rewrite !orb_false_iff, N.ltb_ge in E'. apply read_string_plain; [tauto|by apply N.eqb_neq..].
Qed.

Lemma quote_body_cons2 c d r :
  quote_body (c :: d :: r) =
    if (is_high c && is_low d)%bool then c :: d :: quote_body r else quote_unit c ++ quote_body (d :: r).
Proof. done. Qed.

Lemma read_string_quote s t :
  Forall unit16 s -> read_string (quote_body s ++ 34%N :: t) = Some (s, t).
Proof.
  remember (length s) as n eqn:Hn. revert s Hn. induction (lt_wf n) as [n _ IH]. intros s -> Hs.
  destruct s as [|c [|d r]]; [done| |].
  - apply Forall_cons in Hs as [Hc _]. cbn [quote_body]. by rewrite read_string_unit.
  - apply Forall_cons in Hs as [Hc Hs]. rewrite quote_body_cons2.
    destruct (is_high c && is_low d)%bool eqn:E.
    + apply Forall_cons in Hs as [Hd Hs]. apply andb_true_iff in E as [Eh El].
      unfold is_high, is_low in *. rewrite andb_true_iff, !N.leb_le in Eh, El.
      cbn [app]. rewrite !read_string_plain by lia.
      by rewrite (IH (length r) ltac:(cbn; lia) r eq_refl Hs).
    + rewrite <- app_assoc, read_string_unit by done.
      by rewrite (IH (length (d :: r)) ltac:(cbn; lia) (d :: r) eq_refl Hs).
Qed.

(** ** Reading back numbers *)

Definition is_digit (c : N) : Prop := (48 <= c <= 57)%N.

(** What may follow a value. *)
Definition delimited (rest : jstr) : Prop :=
  match rest with [] => True | c :: _ => c = 44%N \/ c = 93%N \/ c = 125%N end.

Lemma digit_value_10 c : is_digit c -> digit_value 10 c = Some (Z.of_N c - 48).
Proof.
  unfold is_digit, digit_value. intros Hc.
  rewrite (proj2 (Z.leb_le 48 _)), (proj2 (Z.leb_le _ 57)) by lia. cbn [andb].
  by rewrite (proj2 (Z.ltb_lt _ 10)) by lia.
Qed.

Lemma read_digits_run ds rest acc cnt :
  Forall is_digit ds -> delimited rest ->
  read_digits 10 acc cnt (ds ++ rest) = (eval10 acc ds, cnt + Z.of_nat (length ds), rest).
Proof.
  intros Hds Hr. revert acc cnt. induction Hds as [|c ds Hc Hds IH]; intros acc cnt.
  - cbn [app length eval10 fold_left]. rewrite Z.add_0_r. destruct rest as [|c r]; [done|].
    cbn in Hr. by destruct Hr as [->|[->| ->]].
  - cbn [app read_digits]. rewrite digit_value_10, IH by done. cbn [length]. f_equal. f_equal. lia.
Qed.

Lemma digits_fuel_digits f n acc :
  Forall is_digit acc -> Forall is_digit (digits_fuel f 10 n acc).
Proof.
  revert n acc. induction f as [|f IH]; intros n acc Ha; cbn [digits_fuel]; [done|].
  assert (is_digit (digit_unit (n mod 10))).
  { unfold is_digit, digit_unit. pose proof (Z.mod_pos_bound n 10).
    rewrite (proj2 (Z.ltb_lt _ _)) by lia. lia. }
  case_match; [|apply IH]; by constructor.
Qed.

Lemma digits_digits n : Forall is_digit (digits 10 n).
Proof. apply digits_fuel_digits. constructor. Qed.

Lemma digits_fuel_head f n acc :
  0 < n < 2 ^ Z.of_nat f ->
  exists c r, digits_fuel f 10 n acc = c :: r /\ c <> 48%N.
Proof.
  revert n acc. induction f as [|f IH]; intros n acc Hn; cbn [digits_fuel].
  { change (2 ^ Z.of_nat 0) with 1 in Hn. lia. }
  rewrite Nat2Z.inj_succ, Z.pow_succ_r in Hn by lia. destruct (Z.ltb_spec n 10).
  - do 2 eexists. split; [done|]. unfold digit_unit. rewrite Z.mod_small by lia.
    rewrite (proj2 (Z.ltb_lt _ _)) by lia. lia.
  - apply IH. split; [apply Z.div_str_pos; lia|]. apply Z.div_lt_upper_bound; lia.
Qed.

Lemma digits_head n : 0 < n -> exists c r, digits 10 n = c :: r /\ c <> 48%N /\ is_digit c.
Proof.
  intros Hn. destruct (digits_fuel_head (S (Z.to_nat (Z.log2 n))) n []) as (c & r & E & Hc).
  - pose proof (Z.log2_nonneg n). rewrite Nat2Z.inj_succ, Z2Nat.id by lia.
    split; [done|]. by apply Z.log2_spec.
  - exists c, r. split_and!; [done..|]. pose proof (digits_digits n) as Hd. unfold digits in Hd.
    rewrite E in Hd. by apply Forall_cons in Hd as [? _].
Qed.

Lemma digits_fuel_length f n acc : (length (digits_fuel f 10 n acc) <= f + length acc)%nat.
Proof.
  revert n acc. induction f as [|f IH]; intros n acc; cbn [digits_fuel]; [lia|].
  case_match; cbn [length]; [lia|]. etransitivity; [apply IH|]. cbn. lia.
Qed.

Definition safe (n : Z) : Prop := Z.abs n < 2 ^ 53.

Lemma dec_value_int m : 0 <= m < 2 ^ 53 -> dec_value m 0 = int m.
Proof.
  intros Hm. unfold dec_value. destruct (Z.eqb_spec m 0) as [->|]; [done|].
  assert (Z.of_nat (length (digits 10 m)) <= 400) as Hl.
  { unfold digits. pose proof (digits_fuel_length (S (Z.to_nat (Z.log2 m))) m []) as Hl. cbn [length] in Hl.
    assert (Z.log2 m < 53) by (apply Z.log2_lt_pow2; lia). lia. }
  rewrite (proj2 (Z.ltb_ge 400 _)), (proj2 (Z.ltb_ge _ (-400))) by lia.
  unfold num_of_dec. cbn [Z.leb Z.compare]. rewrite Z.pow_0_r, Z.mul_1_r.
  pose proof (nsub_int m 0) as Hs. rewrite Z.sub_0_r in Hs. rewrite <- Hs by lia.
  unfold nsub, int. cbn [nneg nadd]. f_equal. lia.
Qed.

Lemma num_to_string_int n : safe n -> num_to_string (int n) = int_to_string n.
Proof.
  unfold safe. intros Hn. unfold num_to_string, int. pose proof scale_pos.
  rewrite Z.mod_mul, Z.div_mul by lia. cbn [Z.eqb andb]. by rewrite (proj2 (Z.ltb_lt _ _)) by lia.
Qed.

(** The unsigned part, then nothing else that belongs to a number. *)
Lemma read_exponent_none rest : delimited rest -> read_exponent rest = Some (0, rest).
Proof. destruct rest as [|c r]; [done|]. by intros [->|[->| ->]]. Qed.

Lemma read_magnitude_int n rest :
  0 <= n < 2 ^ 53 -> delimited rest -> read_magnitude (digits 10 n ++ rest) = Some (int n, rest).
Proof.
  intros Hn Hr. unfold read_magnitude.
  assert (exists ic, ic <> 0 /\
    match digits 10 n ++ rest with
    | c :: t => if N.eqb c 48 then (0, 1, t) else read_digits 10 0 0 (digits 10 n ++ rest)
    | [] => (0, 0, [])
    end = (n, ic, rest)) as (ic & Hic & ->).
  { destruct (Z.eq_dec n 0) as [->|]; [by exists 1|].
    destruct (digits_head n ltac:(lia)) as (c & r & Ed & Hc & _).
    exists (Z.of_nat (length (digits 10 n))). split; [rewrite Ed; cbn; lia|].
    rewrite read_digits_run, digits_eval by (auto using digits_digits || lia).
    rewrite Ed. cbn [app]. by rewrite (proj2 (N.eqb_neq _ _)) by done. }
  rewrite (proj2 (Z.eqb_neq _ _)) by done.
  assert (match rest with
          | 46%N :: t => let '(m, fc, r') := read_digits 10 n 0 t in (m, fc, r', negb (fc =? 0))
          | _ => (n, 0, rest, true)
          end = (n, 0, rest, true)) as ->.
  { destruct rest as [|c r]; [done|]. by destruct Hr as [->|[->| ->]]. }
  cbn [negb]. rewrite read_exponent_none by done. rewrite Z.sub_0_r. by rewrite dec_value_int.
Qed.

Lemma int_to_string_head n : exists c r, int_to_string n = c :: r /\ (c = 45%N \/ is_digit c).
Proof.
  unfold int_to_string. case_match; [by eexists _, _; split; [done|left]|].
  destruct (Z.eq_dec n 0) as [->|]; [exists 48%N, []; split; [done|right; unfold is_digit; lia]|].
  destruct (digits_head n ltac:(lia)) as (c & r & -> & _ & Hc). eauto.
Qed.

Lemma read_number_int n rest :
  safe n -> delimited rest -> read_number (int_to_string n ++ rest) = Some (int n, rest).
Proof.
  unfold safe. intros Hn Hr. unfold int_to_string. destruct (Z.ltb_spec n 0).
  - cbn [app]. change (js "-") with [45%N]. cbn [app]. unfold read_number. cbn [N.eqb Pos.eqb].
    rewrite read_magnitude_int by (done || lia). f_equal. f_equal. unfold int. cbn. f_equal. lia.
  - assert (exists c r, digits 10 n = c :: r /\ is_digit c) as (c & r & E & Hc).
    { destruct (Z.eq_dec n 0) as [->|]; [exists 48%N, []; split; [done|unfold is_digit; lia]|].
      destruct (digits_head n ltac:(lia)) as (c & r & ? & _ & ?). eauto. }
    unfold read_number. rewrite E. cbn [app]. unfold is_digit in Hc.
    rewrite (proj2 (N.eqb_neq c 45)) by lia. change (c :: r ++ rest) with ((c :: r) ++ rest).
    rewrite <- E. by apply read_magnitude_int; [lia|].
Qed.

(** ** Reading back values *)

(** A value as it travels: safe integers, UTF-16 text, keys all different. *)
Fixpoint jsonable (v : val) : Prop :=
  match v with
  | VNull | VBool _ => True
  | VNum a => exists n, a = int n /\ safe n
  | VStr s => Forall unit16 s
  | VArr l => (fix go l := match l with [] => True | x :: r => jsonable x /\ go r end) l
  | VObj o => NoDup o.*1 /\
      (fix go (o : obj) := match o with [] => True | (k, x) :: r => Forall unit16 k /\ jsonable x /\ go r end) o
  | VUndef | VFun _ => False
  end.

Lemma jsonable_arr l : jsonable (VArr l) <-> Forall jsonable l.
Proof. induction l as [|x l IH]; cbn in *; [done|]. rewrite Forall_cons. naive_solver. Qed.

Lemma jsonable_obj o :
  jsonable (VObj o) <-> NoDup o.*1 /\ Forall (fun kv => Forall unit16 kv.1 /\ jsonable kv.2) o.
Proof.
  cbn [jsonable]. apply and_iff_compat_l.
  induction o as [|[k x] o IH]; cbn in *; [done|]. rewrite Forall_cons. cbn. naive_solver.
Qed.

(** What the parser builds from the printed form: members in the order
    properties enumerate. *)
Fixpoint rebuild (v : val) : val :=
  match v with
  | VArr l => VArr (map rebuild l)
  | VObj o => VObj ((fix go (o acc : obj) := match o with
                     | [] => acc
                     | (k, x) :: r => go r (obj_put acc k (rebuild x))
                     end) o [])
  | _ => v
  end.

Definition put_all (o : list (jstr * val)) (acc : obj) : obj :=
  fold_left (fun acc kv => obj_put acc kv.1 (rebuild kv.2)) o acc.

Lemma rebuild_obj o : rebuild (VObj o) = VObj (put_all o []).
Proof.
  cbn [rebuild]. f_equal. generalize (@nil (jstr * val)) as acc.
  induction o as [|[k x] o IH]; intros acc; cbn; [done|]. by rewrite IH.
Qed.

Definition printed (o : obj) : list (jstr * jstr) := (fun kv => (kv.1, stringify kv.2)) <$> o.

Lemma keep_members_all {B} (skip : val -> bool) (f : val -> B) (o : obj) :
  Forall (fun kv => skip kv.2 = false) o -> keep_members skip f o = (fun kv => (kv.1, f kv.2)) <$> o.
Proof.
  intros Ho. induction Ho as [|[k x] o Hx Ho IH]; cbn; [done|]. cbn in Hx. by rewrite Hx, IH.
Qed.

Lemma jsonable_printable v : jsonable v -> unprintable v = false /\ is_undefined v = false.
Proof. by destruct v. Qed.

Lemma stringify_obj o :
  Forall (fun kv : jstr * val => jsonable kv.2) o -> stringify (VObj o) = print_members (printed o).
Proof.
  intros Ho. cbn [stringify]. f_equal. apply keep_members_all.
  eapply Forall_impl; [exact Ho|]. intros kv Hk. by apply jsonable_printable.
Qed.

(** The fuel reading a printed value takes. *)
Fixpoint need (v : val) : nat :=
  match v with
  | VArr l => S ((fix go l := match l with [] => O | x :: r => S (need x + go r) end) l)
  | VObj o => S ((fix go (o : obj) := match o with [] => O | (_, x) :: r => S (need x + go r) end) o)
  | _ => 1
  end.

Fixpoint needs (l : list val) : nat :=
  match l with [] => O | x :: r => S (need x + needs r) end.

Lemma need_arr l : need (VArr l) = S (needs l).
Proof. done. Qed.
Lemma need_obj o : need (VObj o) = S (needs o.*2).
Proof. cbn [need]. f_equal. induction o as [|[k x] o IH]; cbn; [done|]. by rewrite IH. Qed.

Lemma str_join_cons2 sep x y l : str_join sep (x :: y :: l) = x ++ sep ++ str_join sep (y :: l).
Proof. done. Qed.

(** A printed value starts with a character that is neither blank nor a
    closing bracket. *)
Definition opens (c : N) : Prop := (33 <= c)%N /\ c <> 93%N /\ c <> 44%N /\ c <> 125%N.

Lemma stringify_opens v : jsonable v -> exists c r, stringify v = c :: r /\ opens c.
Proof.
  assert (forall c, (33 <= c)%N -> c <> 93%N -> c <> 44%N -> c <> 125%N -> opens c) as Ho by (unfold opens; auto).
  destruct v as [| |b|a|s|l|o|f]; try done.
  - intros _. exists 110%N. eexists. split; [done|]. apply Ho; lia.
  - intros _. destruct b; [exists 116%N|exists 102%N]; eexists; (split; [done|]); apply Ho; lia.
  - intros (n & -> & Hn). cbn [stringify]. unfold json_number. cbn [nfinite int].
    rewrite num_to_string_int by done. destruct (int_to_string_head n) as (c & r & -> & Hc).
    exists c, r. split; [done|]. unfold is_digit in Hc. apply Ho; lia.
  - intros _. exists 34%N. eexists. split; [done|]. apply Ho; lia.
  - intros _. exists 91%N. eexists. split; [done|]. apply Ho; lia.
  - intros _. exists 123%N. eexists. split; [done|]. apply Ho; lia.
Qed.

Lemma skip_ws_opens c r : opens c -> skip_ws (c :: r) = c :: r.
Proof.
  intros (Hc & _). cbn. rewrite !(proj2 (N.eqb_neq c _)) by lia. done.
Qed.

(** Reading a value from its printed form, whatever follows. *)
Definition reads_back (v : val) : Prop := forall fuel rest,
  (need v <= fuel)%nat -> delimited rest ->
  read_value fuel (stringify v ++ rest) = Some (rebuild v, rest).

Lemma read_value_number n fuel rest :
  safe n -> delimited rest ->
  read_value (S fuel) (int_to_string n ++ rest) = Some (VNum (int n), rest).
Proof.
  intros Hn Hr. pose proof (read_number_int n rest Hn Hr) as E.
  destruct (int_to_string_head n) as (c & r & Eh & Hc). rewrite Eh in E |- *. cbn [app read_value] in E |- *.
  unfold is_digit in Hc. rewrite !(proj2 (N.eqb_neq c _)) by lia. by rewrite E.
Qed.

Lemma read_elements_back l fuel rest :
  Forall jsonable l -> Forall reads_back l -> l <> [] -> (needs l <= fuel)%nat ->
  read_elements fuel (str_join (js ",") (map stringify l) ++ 93%N :: rest) = Some (map rebuild l, rest).
Proof.
  revert fuel. induction l as [|x l IH]; [done|]. intros fuel [Hj Hjs]%Forall_cons [Hx Hxs]%Forall_cons _ Hf.
  cbn [needs] in Hf. destruct fuel as [|f]; [lia|]. cbn [read_elements].
  destruct (stringify_opens x Hj) as (c & r & Eo & Ho).
  destruct l as [|y l].
  - cbn [map str_join]. rewrite Eo. cbn [app]. rewrite skip_ws_opens by done.
    change (c :: r ++ 93%N :: rest) with ((c :: r) ++ 93%N :: rest). rewrite <- Eo.
    rewrite Hx; [done|lia|by right; left].
  - cbn [map]. rewrite str_join_cons2, <- !app_assoc. rewrite Eo. cbn [app]. rewrite skip_ws_opens by done.
    change (c :: r ++ js "," ++ ?t) with ((c :: r) ++ js "," ++ t). rewrite <- Eo.
    rewrite Hx; [|lia|by left]. change (js ",") with [44%N] at 1. cbn [app skip_ws N.eqb Pos.eqb orb].
    cbn [needs] in Hf. rewrite IH; [done|done|done|done|]. cbn [needs]. lia.
Qed.

Lemma read_members_back o fuel rest acc :
  Forall (fun kv => Forall unit16 kv.1 /\ jsonable kv.2) o -> Forall (fun kv => reads_back kv.2) o ->
  o <> [] -> (needs o.*2 <= fuel)%nat ->
  read_members fuel (str_join (js ",") (map (fun kv => member kv.1 kv.2) (printed o)) ++ 125%N :: rest) acc
    = Some (put_all o acc, rest).
Proof.
  revert fuel acc. induction o as [|[k x] o IH]; [done|].
  intros fuel acc [[Hk Hj] Hjs]%Forall_cons [Hx Hxs]%Forall_cons _ Hf. cbn [fst snd] in *.
  cbn [needs fmap list_fmap snd] in Hf. destruct fuel as [|f]; [lia|].
  destruct (stringify_opens x Hj) as (c & r & Eo & Ho).
  assert (forall t, delimited t -> read_members (S f) (member k (stringify x) ++ t) acc =
    match skip_ws t with
    | 44%N :: r4 => read_members f r4 (obj_put acc k (rebuild x))
    | 125%N :: r4 => Some (obj_put acc k (rebuild x), r4)
    | _ => None
    end) as Hone.
  { intros t Ht. unfold member, json_quote. rewrite <- !app_assoc. cbn [app read_members].
    rewrite skip_ws_opens by (unfold opens; lia). cbn match.
    rewrite read_string_quote by done. change (js ":") with [58%N]. cbn [app skip_ws N.eqb Pos.eqb orb].
    rewrite Eo. cbn [app]. rewrite skip_ws_opens by done.
    change (c :: r ++ t) with ((c :: r) ++ t). rewrite <- Eo, Hx by (done || lia). done. }
  destruct o as [|[k' y] o].
  - cbn [printed fmap list_fmap map str_join fst snd]. rewrite Hone by (by right; right). done.
  - cbn [printed fmap list_fmap map fst snd] in *. rewrite str_join_cons2, <- !app_assoc.
    rewrite Hone by (by left). change (js ",") with [44%N] at 1. cbn [app skip_ws N.eqb Pos.eqb orb].
    specialize (IH f (obj_put acc k (rebuild x)) Hjs Hxs ltac:(done)).
    rewrite IH by (cbn [needs] in *; lia). done.
Qed.

Lemma skip_ws_cons_opens (c : N) r t : opens c -> skip_ws ((c :: r) ++ t) = (c :: r) ++ t.
Proof. intros. cbn [app]. by apply skip_ws_opens. Qed.

Lemma print_nonempty_opens (p : list jstr) t :
  p <> [] -> Forall (fun s => exists c r, s = c :: r /\ opens c) p ->
  exists c r, str_join (js ",") p ++ t = c :: r /\ opens c.
Proof.
  intros Hne Hp. destruct Hp as [|s p (c & r & -> & Hc) Hp]; [done|].
  destruct p as [|s' p].
  - eexists c, _. split; [done|done].
  - rewrite str_join_cons2. eexists c, _. split; [done|done].
Qed.

Lemma read_value_back v : jsonable v -> reads_back v.
Proof.
  induction v as [| |b|a|s|l IH|o IH|g] using val_ind'; try done; intros Hj fuel rest Hf Hr.
  - destruct fuel; [cbn in Hf; lia|]. done.
  - destruct fuel; [cbn in Hf; lia|]. by destruct b.
  - destruct Hj as (n & -> & Hn). destruct fuel; [cbn in Hf; lia|]. cbn [stringify rebuild].
    unfold json_number. cbn [nfinite int]. rewrite num_to_string_int by done.
    by apply read_value_number.
  - destruct fuel; [cbn in Hf; lia|]. cbn [stringify rebuild]. unfold json_quote.
    rewrite <- !app_assoc. cbn [app read_value N.eqb Pos.eqb]. by rewrite read_string_quote.
  - rewrite need_arr in Hf. destruct fuel as [|f]; [lia|]. apply jsonable_arr in Hj.
    assert (Forall reads_back l) as Hb.
    { rewrite Forall_forall in IH, Hj |- *. auto. }
    cbn [stringify rebuild]. unfold bracket. rewrite <- !app_assoc. cbn [app read_value N.eqb Pos.eqb].
    destruct l as [|x l]; [done|].
    destruct (print_nonempty_opens (map stringify (x :: l)) (93%N :: rest)) as (c & r & E & Ho); [done| |].
    { clear -Hj. induction Hj; cbn; constructor; eauto using stringify_opens. }
    rewrite E, skip_ws_opens by done. rewrite <- E.
    rewrite read_elements_back by (done || lia).
    destruct Ho as (_ & Hc & _). clear -Hc. destruct (N.eq_dec c 93); [done|].
    destruct c as [|p]; [done|]. do 7 (destruct p as [p|p|]; try done).
  - rewrite need_obj in Hf. destruct fuel as [|f]; [lia|]. apply jsonable_obj in Hj as [Hnd Hj].
    assert (Forall (fun kv => reads_back kv.2) o) as Hb.
    { rewrite Forall_forall in IH, Hj |- *. intros kv Hkv. apply IH, Hj; done. }
    rewrite stringify_obj, rebuild_obj by (eapply Forall_impl; [exact Hj|]; by intros ? []).
    unfold print_members, bracket. rewrite <- !app_assoc. cbn [app read_value N.eqb Pos.eqb].
    destruct o as [|[k x] o]; [done|].
    destruct (print_nonempty_opens (map (fun kv => member kv.1 kv.2) (printed ((k, x) :: o))) (125%N :: rest))
      as (c & r & E & Ho); [done| |].
    { apply Forall_forall. intros s (kv & <- & _)%list_elem_of_In%in_map_iff. unfold member, json_quote.
      eexists 34%N, _. split; [done|]. unfold opens. lia. }
    rewrite E, skip_ws_opens by done. rewrite <- E.
    rewrite read_members_back by (done || lia).
    destruct Ho as (_ & _ & _ & Hc). clear -Hc. destruct c as [|p]; [done|].
    do 7 (destruct p as [p|p|]; try done).
Qed.

(** ** Round trip *)

Lemma bracket_length l r p :
  (length (bracket l r p) >= 2 + sum_list (length <$> p) + (length p - 1))%nat.
Proof.
  unfold bracket. rewrite !length_app. cbn [length].
  enough (length (str_join (js ",") p) >= sum_list (length <$> p) + (length p - 1))%nat by lia.
  induction p as [|x [|y p] IH]; [cbn; lia|cbn; lia|].
  rewrite str_join_cons2, !length_app. change (length (js ",")) with 1%nat.
  change (sum_list (length <$> x :: y :: p)) with (length x + sum_list (length <$> y :: p))%nat.
  cbn [length] in *. lia.
Qed.

Definition member_lengths (o : obj) : nat :=
  sum_list (length <$> map (fun kv => member kv.1 kv.2) (printed o)).

Lemma needs_members (o : obj) :
  Forall (fun kv => need kv.2 <= 2 * length (stringify kv.2))%nat o ->
  (needs o.*2 <= length o + 2 * member_lengths o)%nat.
Proof.
  intros Ho. induction Ho as [|[k x] o Hx Ho IH]; [done|].
  change (needs ((k, x) :: o).*2) with (S (need x + needs o.*2)).
  change (member_lengths ((k, x) :: o)) with (length (member k (stringify x)) + member_lengths o)%nat.
  unfold member. rewrite !length_app. cbn [length snd] in *. lia.
Qed.

Lemma need_length v : jsonable v -> (need v <= 2 * length (stringify v))%nat.
Proof.
  induction v as [| |b|a|s|l IH|o IH|g] using val_ind'; try done; intros Hj.
  1-4: match goal with |- (need ?v <= _)%nat =>
         destruct (stringify_opens v Hj) as (c & r & -> & _); cbn [need length]; lia end.
  - rewrite need_arr. apply jsonable_arr in Hj.
    assert (needs l <= length l + 2 * sum_list (length <$> map stringify l))%nat as Hn.
    { clear -IH Hj. induction l as [|x l IHl]; cbn; [lia|].
      apply Forall_cons in IH as [Hx IH], Hj as [Hjx Hj]. specialize (IHl IH Hj). specialize (Hx Hjx). lia. }
    pose proof (bracket_length 91 93 (map stringify l)) as Hb. rewrite length_map in Hb.
    change (stringify (VArr l)) with (bracket 91 93 (map stringify l)). lia.
  - rewrite need_obj. apply jsonable_obj in Hj as [_ Hj].
    rewrite stringify_obj by (eapply Forall_impl; [exact Hj|]; by intros ? []).
    pose proof (bracket_length 123 125 (map (fun kv => member kv.1 kv.2) (printed o))) as Hb.
    fold (member_lengths o) in Hb. unfold printed in Hb at 2. rewrite length_map, length_fmap in Hb.
    unfold print_members. enough (needs o.*2 <= length o + 2 * member_lengths o)%nat by lia.
    apply needs_members. rewrite Forall_forall in IH, Hj |- *. intros kv Hkv. apply IH, Hj; done.
Qed.

Lemma json_parse_stringify v : jsonable v -> json_parse (stringify v) = Ok (rebuild v).
Proof.
  intros Hj. unfold json_parse, parse_fuel.
  destruct (stringify_opens v Hj) as (c & r & E & Ho).
  assert (skip_ws (stringify v) = stringify v ++ []) as ->.
  { rewrite app_nil_r, E. by apply skip_ws_opens. }
  pose proof (need_length v Hj). rewrite (read_value_back v Hj); [done|lia|done].
Qed.

(** An object whose properties are listed the way they enumerate. *)
Fixpoint enumerated (v : val) : Prop :=
  match v with
  | VArr l => (fix go l := match l with [] => True | x :: r => enumerated x /\ go r end) l
  | VObj o =>
      StronglySorted (fun a b => key_before b.1 a.1 = false) o /\
      (fix go (o : obj) := match o with [] => True | (_, x) :: r => enumerated x /\ go r end) o
  | _ => True
  end.

Lemma obj_add_last {A} (o : list (jstr * A)) k v :
  Forall (fun kv => key_before k kv.1 = false) o -> obj_add o k v = o ++ [(k, v)].
Proof.
  intros Ho. induction Ho as [|[k' v'] o Hk Ho IH]; cbn; [done|]. cbn in Hk. by rewrite Hk, IH.
Qed.

Lemma put_all_enumerated o acc :
  NoDup (acc ++ o).*1 -> StronglySorted (fun a b => key_before b.1 a.1 = false) (acc ++ o) ->
  Forall (fun kv => rebuild kv.2 = kv.2) o -> put_all o acc = acc ++ o.
Proof.
  revert acc. induction o as [|[k x] o IH]; intros acc Hn Hs Hr; cbn; [by rewrite app_nil_r|].
  apply Forall_cons in Hr as [Hx Hr]. cbn in Hx. rewrite Hx.
  assert (obj_put acc k x = acc ++ [(k, x)]) as ->.
  { unfold obj_put. rewrite fmap_app in Hn. cbn in Hn. apply NoDup_app in Hn as (_ & Hd & _).
    rewrite (proj2 (obj_get_None acc k)).
    - apply obj_add_last. clear -Hs. induction acc as [|a acc IH]; cbn in *; [done|].
      apply StronglySorted_inv in Hs as [Hs Ha]. constructor; [|auto].
      rewrite Forall_app, Forall_cons in Ha. tauto.
    - intros Hin. apply (Hd k Hin). by left. }
  rewrite (app_assoc acc [(k, x)] o : acc ++ (k, x) :: o = _) in Hn, Hs |- *. by apply IH.
Qed.

Lemma rebuild_enumerated v : jsonable v -> enumerated v -> rebuild v = v.
Proof.
  induction v as [| |b|a|s|l IH|o IH|g] using val_ind'; try done; intros Hj He.
  - apply jsonable_arr in Hj. cbn [rebuild]. f_equal. cbn in He.
    induction l as [|x l IHl]; [done|]. apply Forall_cons in IH as [Hx IH], Hj as [Hjx Hj].
    destruct He as [He1 He2]. cbn. rewrite Hx by done. f_equal. by apply IHl.
  - apply jsonable_obj in Hj as [Hn Hj]. destruct He as [Hs He]. rewrite rebuild_obj. f_equal.
    apply (put_all_enumerated o []); [done..|]. clear Hn Hs.
    induction o as [|[k x] o IHo]; constructor; apply Forall_cons in IH as [Hx IH], Hj as [[_ Hjx] Hj];
      destruct He as [He1 He2]; [by apply Hx|by apply IHo].
Qed.

(** ** The canonical form *)

(** The value with the keys of every object sorted. *)
Fixpoint canon (v : val) : val :=
  match v with
  | VArr l => VArr (map canon l)
  | VObj o => VObj (sort_members (keep_members is_undefined canon o))
  | _ => v
  end.

Definition on_values {A B} (f : A -> B) (o : list (jstr * A)) : list (jstr * B) :=
  (fun kv => (kv.1, f kv.2)) <$> o.

Lemma insert_member_fmap {A B} (f : A -> B) kv (o : list (jstr * A)) :
  insert_sorted (fun a b => str_ltb b.1 a.1) (kv.1, f kv.2) (on_values f o)
    = on_values f (insert_sorted (fun a b => str_ltb b.1 a.1) kv o).
Proof.
  unfold on_values. induction o as [|kv' o IH]; cbn; [done|]. case_match; cbn; [by rewrite IH|done].
Qed.

Lemma sort_members_fmap {A B} (f : A -> B) (o : list (jstr * A)) :
  sort_members (on_values f o) = on_values f (sort_members o).
Proof.
  unfold sort_members. induction o as [|kv o IH]; [done|]. cbn [sort_by].
  rewrite <- insert_member_fmap, <- IH. done.
Qed.

Lemma sort_members_perm {A} (o : list (jstr * A)) : sort_members o ≡ₚ o.
Proof. apply sort_by_perm. Qed.

(** Members with different keys have one sorted order. *)
Lemma sort_members_unique {A} (o1 o2 : list (jstr * A)) :
  NoDup (obj_keys o1) -> o1 ≡ₚ o2 -> sort_members o1 = sort_members o2.
Proof.
  intros Hn Hp. eapply (StronglySorted_unique_strong (fun a b => str_ltb b.1 a.1 = false)).
  - intros [k v] [k' v'] Hx Hy H1 H2. cbn in *. rewrite sort_members_perm in Hx, Hy.
    rewrite <- Hp in Hy. apply str_ltb_trichotomy in H1 as Hk; [|done]. subst k'. f_equal.
    apply (obj_get_NoDup o1) in Hx, Hy; [congruence|done..].
  - apply sort_by_in_order with (P := fun _ => True); auto using str_ltb_asym, Forall_true.
    intros a b c _ _ _. apply str_geb_trans.
  - apply sort_by_in_order with (P := fun _ => True); auto using str_ltb_asym, Forall_true.
    intros a b c _ _ _. apply str_geb_trans.
  - by rewrite !sort_members_perm.
Qed.

Lemma canon_obj o :
  Forall (fun kv : jstr * val => jsonable kv.2) o ->
  canon (VObj o) = VObj (on_values canon (sort_members o)) /\
  canonicalJson (VObj o) = print_members (on_values canonicalJson (sort_members o)).
Proof.
  intros Ho. assert (Forall (fun kv : jstr * val => is_undefined kv.2 = false) o) as Hu.
  { eapply Forall_impl; [exact Ho|]. intros kv Hk. by apply jsonable_printable. }
  cbn [canon canonicalJson]. rewrite !keep_members_all by done.
  fold (on_values canon o) (on_values canonicalJson o). by rewrite !sort_members_fmap.
Qed.

Lemma jsonable_canon v : jsonable v -> jsonable (canon v).
Proof.
  induction v as [| |b|a|s|l IH|o IH|g] using val_ind'; try done; intros Hj.
  - apply jsonable_arr in Hj. apply jsonable_arr. apply Forall_map.
    rewrite Forall_forall in IH, Hj |- *. auto.
  - apply jsonable_obj in Hj as [Hn Hj].
    rewrite (proj1 (canon_obj o ltac:(eapply Forall_impl; [exact Hj|]; by intros ? []))).
    apply jsonable_obj. split.
    + change (NoDup (obj_keys (on_values canon (sort_members o)))). unfold on_values.
      rewrite obj_keys_fmap. unfold obj_keys. by rewrite sort_members_perm.
    + unfold on_values. apply Forall_fmap. rewrite sort_members_perm.
      rewrite Forall_forall in IH, Hj |- *. intros kv Hkv. cbn. split; [by apply Hj|].
      apply IH, Hj; done.
Qed.

Lemma canonicalJson_canon v : jsonable v -> canonicalJson v = stringify (canon v).
Proof.
  induction v as [| |b|a|s|l IH|o IH|g] using val_ind'; try done; intros Hj.
  - apply jsonable_arr in Hj. cbn [canonicalJson canon stringify]. f_equal.
    rewrite map_map. apply map_ext_in. intros x Hx%list_elem_of_In.
    rewrite Forall_forall in IH, Hj. auto.
  - apply jsonable_obj in Hj as [Hn Hj].
    assert (Forall (fun kv : jstr * val => jsonable kv.2) o) as Hv by (eapply Forall_impl; [exact Hj|]; by intros ? []).
    destruct (canon_obj o Hv) as [-> ->]. rewrite stringify_obj.
    + f_equal. unfold on_values, printed. rewrite <- list_fmap_compose. apply list_fmap_ext.
      intros i kv Hkv%list_elem_of_lookup_2. cbn. rewrite sort_members_perm in Hkv.
      rewrite Forall_forall in IH, Hv. f_equal. apply IH, Hv; done.
    + unfold on_values. apply Forall_fmap. rewrite sort_members_perm.
      eapply Forall_impl; [exact Hv|]. intros kv Hkv. cbn. by apply jsonable_canon.
Qed.

(** Equal up to the order of keys, at every depth. *)
Inductive same : val -> val -> Prop :=
| same_leaf v : (forall l, v <> VArr l) -> (forall o, v <> VObj o) -> same v v
| same_arr l l' : Forall2 same l l' -> same (VArr l) (VArr l')
| same_obj o o' :
    (forall k, option_Forall2 same (obj_get o k) (obj_get o' k)) -> same (VObj o) (VObj o').

Lemma put_all_get o acc k :
  NoDup (obj_keys o) ->
  obj_get (put_all o acc) k =
    match obj_get o k with Some x => Some (rebuild x) | None => obj_get acc k end.
Proof.
  revert acc. induction o as [|[k' x] o IH]; intros acc; cbn; [done|].
  intros [Hk Hn]%NoDup_cons. unfold put_all in IH. rewrite IH by done. rewrite obj_get_put.
  destruct (str_eqb k' k) eqn:E; [|done]. apply str_eqb_eq in E as ->.
  by rewrite (proj2 (obj_get_None o k) Hk).
Qed.

Lemma map_eq_obj_perm {A} (o1 o2 : list (jstr * A)) k :
  NoDup (obj_keys o1) -> o1 ≡ₚ o2 -> obj_get o1 k = obj_get o2 k.
Proof.
  intros Hn Hp. apply option_eq. intros v. split; intros H%obj_get_elem; apply obj_get_NoDup;
    unfold obj_keys; rewrite <- ?Hp; try done; by rewrite Hp.
Qed.

Lemma normal_obj_get o k :
  jsonable (VObj o) ->
  exists r, rebuild (canon (VObj o)) = VObj r /\
    obj_get r k = (fun x => rebuild (canon x)) <$> obj_get o k.
Proof.
  intros [Hn Hj]%jsonable_obj.
  rewrite (proj1 (canon_obj o ltac:(eapply Forall_impl; [exact Hj|]; by intros ? []))), rebuild_obj.
  eexists. split; [done|].
  assert (NoDup (obj_keys (sort_members o))) as Hs by (unfold obj_keys; by rewrite sort_members_perm).
  rewrite put_all_get by (unfold on_values; by rewrite obj_keys_fmap).
  unfold on_values. rewrite obj_get_fmap.
  rewrite (map_eq_obj_perm (sort_members o) o k Hs (sort_members_perm o)). by destruct (obj_get o k).
Qed.

Lemma jsonable_get o k x : jsonable (VObj o) -> obj_get o k = Some x -> jsonable x.
Proof.
  intros [_ Hj]%jsonable_obj Hx%obj_get_elem. rewrite Forall_forall in Hj. by destruct (Hj _ Hx).
Qed.

(** What a canonical form reads as determines the value. *)
Lemma normal_same v w :
  jsonable v -> jsonable w -> rebuild (canon v) = rebuild (canon w) -> same v w.
Proof.
  revert w. induction v as [| |b|a|s|l IH|o IH|g] using val_ind'; try done; intros w Hv Hw E.
  1-4: destruct w; try done; cbn in E; try (injection E as ->); by constructor.
  - destruct w as [| | | | |l'| |]; try done. cbn in E. injection E as E. constructor.
    apply jsonable_arr in Hv, Hw. revert l' Hw E. induction l as [|x l IHl]; intros [|y l'] Hw E; try done.
    cbn in E. injection E as Exy E. apply Forall_cons in IH as [Hx IH], Hv as [Hvx Hv], Hw as [Hwy Hw].
    constructor; [by apply Hx|by apply IHl].
  - destruct w as [| | | | | |o'|]; try done. constructor. intros k.
    destruct (normal_obj_get o k Hv) as (r & Er & Hr), (normal_obj_get o' k Hw) as (r' & Er' & Hr').
    rewrite Er, Er' in E. injection E as ->. rewrite Hr in Hr'.
    destruct (obj_get o k) as [x|] eqn:Ex, (obj_get o' k) as [y|] eqn:Ey; try done; [|constructor].
    constructor. cbn in Hr'. injection Hr' as Hxy. rewrite Forall_forall in IH.
    apply (IH (k, x)); [by apply obj_get_elem|exact (jsonable_get o k x Hv Ex)|exact (jsonable_get o' k y Hw Ey)|done].
Qed.

(** The other way: the order of keys does not show. *)
Lemma same_canonical v w : jsonable v -> jsonable w -> same v w -> canonicalJson v = canonicalJson w.
Proof.
  revert w. induction v as [| |b|a|s|l IH|o IH|g] using val_ind'; try done; intros w Hv Hw Hs.
  1-4: by inversion Hs; subst.
  - inversion Hs as [? Hno|l1 l' H2|]; subst; [by destruct (Hno l)|].
    cbn [canonicalJson]. f_equal. apply jsonable_arr in Hv, Hw. clear Hs.
    induction H2 as [|x y l l' Hxy H2 IHl]; [done|]. cbn.
    apply Forall_cons in IH as [Hx IH], Hv as [Hvx Hv], Hw as [Hwy Hw].
    rewrite (Hx y) by done. f_equal. by apply IHl.
  - inversion Hs as [? _ Hno| |o1 o' H2]; subst; [by destruct (Hno o)|].
    pose proof Hv as [Hn Hj]%jsonable_obj. pose proof Hw as [Hn' Hj']%jsonable_obj.
    rewrite (proj2 (canon_obj o ltac:(eapply Forall_impl; [exact Hj|]; by intros ? []))).
    rewrite (proj2 (canon_obj o' ltac:(eapply Forall_impl; [exact Hj'|]; by intros ? []))).
    f_equal. rewrite <- !sort_members_fmap. unfold on_values. apply sort_members_unique.
    { by rewrite obj_keys_fmap. }
    apply map_eq_perm; [by rewrite obj_keys_fmap..|].
    intros k. rewrite !obj_get_fmap. specialize (H2 k).
    destruct (obj_get o k) as [x|] eqn:Ex, (obj_get o' k) as [y|] eqn:Ey; inversion H2; subst; [|done].
    cbn. f_equal. rewrite Forall_forall in IH.
    apply (IH (k, x)); [by apply obj_get_elem|exact (jsonable_get o k x Hv Ex)|exact (jsonable_get o' k y Hw Ey)|done].
Qed.

Lemma canonicalJson_parse v : jsonable v -> json_parse (canonicalJson v) = Ok (rebuild (canon v)).
Proof. intros Hj. rewrite canonicalJson_canon by done. by apply json_parse_stringify, jsonable_canon. Qed.

Lemma canonicalJson_same v w :
  jsonable v -> jsonable w -> canonicalJson v = canonicalJson w <-> same v w.
Proof.
  intros Hv Hw. split; [|by apply same_canonical]. intros E. apply normal_same; [done..|].
  assert (Ok (rebuild (canon v)) = Ok (rebuild (canon w))) as [=->]; [|done].
  by rewrite <- (canonicalJson_parse v Hv), <- (canonicalJson_parse w Hw), E.
Qed.

(** What one device prints, another reads: parsing the JSON of a value of
    the wire (safe integers, any text, lone surrogates included, keys listed
    as they enumerate) gives the value back. *)
Theorem json_roundtrip v :
  jsonable v -> enumerated v -> json_parse (stringify v) = Ok v.
Proof. intros Hj He. rewrite json_parse_stringify by done. by rewrite rebuild_enumerated. Qed.

(** ** Witness *)

Definition sample : val :=
  VObj [(js "7", VNum (int 40)); (js "text", VStr (js "é—x" ++ [10; 34; 55357; 92]%N));
        (js "to", VArr [VNull; VBool true; VObj []])].

Lemma json_roundtrip_witness : json_parse (stringify sample) = Ok sample.
Proof.
  apply (json_roundtrip sample).
  - apply jsonable_obj. split.
    + apply (bool_decide_eq_true_1 _). vm_compute. reflexivity.
    + assert (forall s : jstr, forallb (fun c => N.ltb c 65536) s = true -> Forall unit16 s) as Hu.
      { intros s Hs. apply Forall_forall. intros c Hc. apply N.ltb_lt.
        rewrite forallb_forall in Hs. by apply Hs, list_elem_of_In. }
      repeat constructor; try (apply Hu; vm_compute; reflexivity).
      exists 40. split; [done|unfold safe; cbn; lia].
  - repeat constructor.
Defined.
