(* ===== verification/JsonFuel.v ===== *)
(** * The parser always finishes

    [read_value] recurses on fuel.  Every value and every separator takes a
    character, so the fuel [json_parse] starts with is never used up: more of
    it gives the same answer, on every text, well formed or not. *)

From stdpp Require Import base list numbers option strings.
From Stdlib Require Import ZArith NArith Lia.
From S2P Require Import Prelude JsNum JsString JsValue Json.
Open Scope Z_scope.

Lemma skip_ws_length s : (length (skip_ws s) <= length s)%nat.
Proof. induction s as [|c s IH]; cbn; [lia|]. destruct (_ || _)%bool; cbn; lia. Qed.

Lemma read_digits_length b v c s v' c' r :
  read_digits b v c s = (v', c', r) -> c <= c' /\ Z.of_nat (length r) + (c' - c) = Z.of_nat (length s).
Proof.
  revert v c. induction s as [|d s IH]; intros v c; cbn [read_digits].
  - intros [= <- <- <-]. cbn. lia.
  - destruct (digit_value b d) as [x|].
    + intros [? ?]%IH. cbn [length]. lia.
    + intros [= <- <- <-]. lia.
Qed.

Lemma read_string_length s x r : read_string s = Some (x, r) -> (length r < length s)%nat.
Proof.
  revert x r. induction s as [s IH] using (induction_ltof1 _ (@length N)). unfold ltof in IH.
  intros x r. destruct s as [|c s]; [done|]. cbn [read_string length].
  assert (forall t y (p : N), (length t < S (length s))%nat ->
    match read_string t with Some (s', r') => Some (p :: s', r') | None => None end = Some (y, r) -> (length r < S (length s))%nat) as Hput.
  { intros t y p Ht. destruct (read_string t) as [[s' r']|] eqn:E; [|done]. intros [= _ <-].
    apply IH in E; [|cbn; lia]. lia. }
  destruct (N.eqb c 34); [intros [= _ <-]; lia|]. destruct (N.eqb c 92).
  - destruct s as [|e s]; [done|]. cbn [length] in *.
    repeat match goal with |- (if ?b then _ else _) = _ -> _ => destruct b end; try (by apply Hput; cbn; lia); try done.
    destruct s as [|a [|b [|d [|g s]]]]; try done. destruct (read_hex4 a b d g); [|done]. apply Hput. cbn. lia.
  - destruct (N.ltb c 32); [done|]. apply Hput. lia.
Qed.

Lemma read_sign_length s b r : read_sign s = (b, r) -> (length r <= length s)%nat.
Proof. unfold read_sign. repeat case_match; intros [= _ <-]; cbn; lia. Qed.

Lemma read_exponent_length s e r : read_exponent s = Some (e, r) -> (length r <= length s)%nat.
Proof.
  unfold read_exponent. destruct s as [|c s]; [intros [= _ <-]; lia|]. case_match; [|intros [= _ <-]; lia].
  destruct (read_sign s) as [sg t] eqn:Es. apply read_sign_length in Es.
  destruct (read_digits 10 0 0 t) as [[e0 ec] t2] eqn:Ed. apply read_digits_length in Ed as [? ?].
  case_match; [done|]. intros [= _ <-]. cbn. lia.
Qed.

(** A point and the digits after it. *)
Lemma fraction_length ip r m fc r' ok :
  (match r with
   | 46%N :: t => let '(m, fc, r') := read_digits 10 ip 0 t in (m, fc, r', negb (fc =? 0))
   | _ => (ip, 0, r, true)
   end) = (m, fc, r', ok) -> (length r' <= length r)%nat.
Proof.
  destruct r as [|c t]; [intros [= _ _ <- _]; lia|]. destruct (N.eq_dec c 46) as [->|Hn].
  - destruct (read_digits 10 ip 0 t) as [[m1 f1] r1] eqn:E. apply read_digits_length in E as [? ?].
    intros [= _ _ <- _]. cbn. lia.
  - intros E. enough (r' = c :: t) by (subst; lia). revert E. repeat case_match; by intros [=].
Qed.

Lemma read_magnitude_length s a r : read_magnitude s = Some (a, r) -> (length r < length s)%nat.
Proof.
  unfold read_magnitude. destruct (match s with [] => _ | _ => _ end) as [[ip ic] r0] eqn:E0.
  assert ((ic =? 0) = false -> (length r0 < length s)%nat) as H0.
  { destruct s as [|c s]; [by injection E0 as _ <- _|]. destruct (N.eqb c 48).
    - injection E0 as _ _ <-. cbn. lia.
    - apply read_digits_length in E0 as [? ?]. rewrite Z.eqb_neq. lia. }
  destruct (ic =? 0); [done|]. specialize (H0 eq_refl).
  destruct (match r0 with [] => _ | _ => _ end) as [[[m fc] r1] ok] eqn:E1. apply fraction_length in E1.
  destruct (negb ok); [done|]. destruct (read_exponent r1) as [[e r2]|] eqn:E2; [|done]. apply read_exponent_length in E2.
  intros [= _ <-]. lia.
Qed.

Lemma read_number_length s a r : read_number s = Some (a, r) -> (length r < length s)%nat.
Proof.
  unfold read_number. destruct s as [|c s]; [done|]. destruct (N.eqb c 45); [|apply read_magnitude_length].
  destruct (read_magnitude s) as [[x t]|] eqn:E; [|done]. apply read_magnitude_length in E. intros [= _ <-]. cbn. lia.
Qed.

Lemma read_word_length p v s x r : p <> [] -> read_word p v s = Some (x, r) -> (length r < length s)%nat.
Proof.
  unfold read_word. intros Hp. destruct (starts_with p s) eqn:E; [|done]. intros [= _ <-]. rewrite length_drop.
  destruct p as [|c p], s as [|c' s]; cbn in *; try done; lia.
Qed.

(** *** One step of the parser, looking at one character at a time *)

Definition after_char (n : N) (l : jstr) : option jstr :=
  match l with c :: r => if N.eqb c n then Some r else None | [] => None end.

Lemma after_char_length n l r : after_char n l = Some r -> (length r < length l)%nat.
Proof. destruct l as [|c l]; cbn; [done|]. destruct (N.eqb c n); [|done]. intros [= <-]. lia. Qed.

(** The two shapes of the parser's matches on a character. *)
Lemma one_char {A} (n : N) (l : jstr) (f : jstr -> A) (k : jstr -> A) (d : A) :
  f [] = d -> (forall r, f (n :: r) = k r) -> (forall c r, c <> n -> f (c :: r) = d) ->
  f l = match after_char n l with Some r => k r | None => d end.
Proof.
  intros H0 H1 H2. destruct l as [|c r]; [done|]. cbn. destruct (N.eqb_spec c n) as [->|Hn]; [done|by apply H2].
Qed.

Lemma two_chars {A} (n1 n2 : N) (l : jstr) (f : jstr -> A) (k1 k2 : jstr -> A) (d : A) :
  n1 <> n2 -> f [] = d -> (forall r, f (n1 :: r) = k1 r) -> (forall r, f (n2 :: r) = k2 r) ->
  (forall c r, c <> n1 -> c <> n2 -> f (c :: r) = d) ->
  f l = match after_char n1 l with Some r => k1 r | None =>
        match after_char n2 l with Some r => k2 r | None => d end end.
Proof.
  intros Hn H0 H1 H2 H3. destruct l as [|c r]; [done|]. cbn. destruct (N.eqb_spec c n1) as [->|Hn1]; [done|].
  destruct (N.eqb_spec c n2) as [->|Hn2]; [done|by apply H3].
Qed.

Ltac other_char :=
  let x := fresh "x" in let p := fresh "p" in
  intros x; intros; destruct x as [|p]; [done|]; repeat (destruct p as [p|p|]; try done).

Lemma read_value_step f c r :
  read_value (S f) (c :: r) =
    if N.eqb c 34 then match read_string r with Some (x, r') => Some (VStr x, r') | None => None end
    else if N.eqb c 91 then
      match after_char 93 (skip_ws r) with
      | Some r' => Some (VArr [], r')
      | None => match read_elements f r with Some (l, r') => Some (VArr l, r') | None => None end
      end
    else if N.eqb c 123 then
      match after_char 125 (skip_ws r) with
      | Some r' => Some (VObj [], r')
      | None => match read_members f r [] with Some (o, r') => Some (VObj o, r') | None => None end
      end
    else if N.eqb c 110 then read_word (js "null") VNull (c :: r)
    else if N.eqb c 116 then read_word (js "true") (VBool true) (c :: r)
    else if N.eqb c 102 then read_word (js "false") (VBool false) (c :: r)
    else match read_number (c :: r) with Some (a, r') => Some (VNum a, r') | None => None end.
Proof.
  cbn [read_value]. destruct (N.eqb c 34); [done|]. destruct (N.eqb c 91); [|destruct (N.eqb c 123); [|done]].
  - apply (one_char 93 (skip_ws r) (fun l => match l with 93%N :: r' => Some (VArr [], r')
      | _ => match read_elements f r with Some (l, r') => Some (VArr l, r') | None => None end end)); [done|done|other_char].
  - apply (one_char 125 (skip_ws r) (fun l => match l with 125%N :: r' => Some (VObj [], r')
      | _ => match read_members f r [] with Some (o, r') => Some (VObj o, r') | None => None end end)); [done|done|other_char].
Qed.

Lemma read_elements_step f s :
  read_elements (S f) s =
    match read_value f (skip_ws s) with
    | None => None
    | Some (v, r) =>
        match after_char 44 (skip_ws r) with
        | Some r' => match read_elements f r' with Some (l, r'') => Some (v :: l, r'') | None => None end
        | None => match after_char 93 (skip_ws r) with Some r' => Some ([v], r') | None => None end
        end
    end.
Proof.
  cbn [read_elements]. destruct (read_value f (skip_ws s)) as [[v r]|]; [|done].
  apply (two_chars 44 93 (skip_ws r) (fun l => match l with
    | 44%N :: r' => match read_elements f r' with Some (l, r'') => Some (v :: l, r'') | None => None end
    | 93%N :: r' => Some ([v], r') | _ => None end)); [done..|other_char].
Qed.

Lemma read_members_step f s o :
  read_members (S f) s o =
    match after_char 34 (skip_ws s) with
    | None => None
    | Some r =>
        match read_string r with
        | None => None
        | Some (k, r1) =>
            match after_char 58 (skip_ws r1) with
            | None => None
            | Some r2 =>
                match read_value f (skip_ws r2) with
                | None => None
                | Some (v, r3) =>
                    match after_char 44 (skip_ws r3) with
                    | Some r4 => read_members f r4 (obj_put o k v)
                    | None => match after_char 125 (skip_ws r3) with Some r4 => Some (obj_put o k v, r4) | None => None end
                    end
                end
            end
        end
    end.
Proof.
  cbn [read_members].
  set (inner := fun r => match read_string r with None => None | Some (k, r1) => match after_char 58 (skip_ws r1) with
    | None => None | Some r2 => match read_value f (skip_ws r2) with None => None | Some (v, r3) =>
      match after_char 44 (skip_ws r3) with Some r4 => read_members f r4 (obj_put o k v)
      | None => match after_char 125 (skip_ws r3) with Some r4 => Some (obj_put o k v, r4) | None => None end end end end end).
  transitivity (match after_char 34 (skip_ws s) with None => None | Some r => inner r end); [|done].
  etransitivity; [|apply (one_char 34 (skip_ws s) (fun l => match l with 34%N :: r => inner r | _ => None end) inner None);
    [done|done|other_char]].
  destruct (skip_ws s) as [|c r]; [done|]. destruct (N.eq_dec c 34) as [->|Hc].
  2: { destruct c as [|p]; [done|]. repeat (destruct p as [p|p|]; try done). }
  unfold inner. destruct (read_string r) as [[k r1]|]; [|done].
  etransitivity; [apply (one_char 58 (skip_ws r1) (fun l => match l with 58%N :: r2 =>
    match read_value f (skip_ws r2) with None => None | Some (v, r3) =>
      match skip_ws r3 with 44%N :: r4 => read_members f r4 (obj_put o k v) | 125%N :: r4 => Some (obj_put o k v, r4) | _ => None end end
    | _ => None end)); [done|intros r2; reflexivity|other_char]|].
  destruct (after_char 58 _) as [r2|]; [|done]. destruct (read_value f (skip_ws r2)) as [[v r3]|]; [|done].
  apply (two_chars 44 125 (skip_ws r3) (fun l => match l with 44%N :: r4 => read_members f r4 (obj_put o k v)
    | 125%N :: r4 => Some (obj_put o k v, r4) | _ => None end)); [done..|other_char].
Qed.

(** *** What is read is shorter than what was there *)

Lemma read_shorter f :
  (forall s v r, read_value f s = Some (v, r) -> (length r < length s)%nat) /\
  (forall s l r, read_elements f s = Some (l, r) -> (length r < length s)%nat) /\
  (forall s o o' r, read_members f s o = Some (o', r) -> (length r < length s)%nat).
Proof.
  induction f as [|f (IHv & IHe & IHm)]; [done|]. split_and!.
  - intros [|c s] v r; [done|]. rewrite read_value_step. cbn [length]. pose proof (skip_ws_length s) as Hw.
    destruct (N.eqb c 34); [destruct (read_string s) as [[? ?]|] eqn:E; [|done]; apply read_string_length in E; intros [= _ <-]; lia|].
    destruct (N.eqb c 91).
    { destruct (after_char 93 _) as [r'|] eqn:E; [apply after_char_length in E; intros [= _ <-]; lia|].
      destruct (read_elements f s) as [[? ?]|] eqn:Ee; [|done]. apply IHe in Ee. intros [= _ <-]. lia. }
    destruct (N.eqb c 123).
    { destruct (after_char 125 _) as [r'|] eqn:E; [apply after_char_length in E; intros [= _ <-]; lia|].
      destruct (read_members f s []) as [[? ?]|] eqn:Ee; [|done]. apply IHm in Ee. intros [= _ <-]. lia. }
    do 3 (case_match; [by apply (read_word_length _ _ (c :: s))|]).
    destruct (read_number (c :: s)) as [[? ?]|] eqn:E; [|done]. apply read_number_length in E. by intros [= _ <-].
  - intros s l r. rewrite read_elements_step. pose proof (skip_ws_length s) as Hw.
    destruct (read_value f (skip_ws s)) as [[v r1]|] eqn:E; [|done]. apply IHv in E. pose proof (skip_ws_length r1) as Hw1.
    destruct (after_char 44 _) as [r2|] eqn:E2.
    + apply after_char_length in E2. destruct (read_elements f r2) as [[l2 r3]|] eqn:E3; [|done]. apply IHe in E3.
      intros [= _ <-]. lia.
    + destruct (after_char 93 _) as [r2'|] eqn:E3; [|done]. apply after_char_length in E3. intros [= _ <-]. lia.
  - intros s o o' r. rewrite read_members_step. pose proof (skip_ws_length s) as Hw.
    destruct (after_char 34 _) as [r0|] eqn:E0; [|done]. apply after_char_length in E0.
    destruct (read_string r0) as [[k r1]|] eqn:E1; [|done]. apply read_string_length in E1. pose proof (skip_ws_length r1) as Hw1.
    destruct (after_char 58 _) as [r2|] eqn:E2; [|done]. apply after_char_length in E2. pose proof (skip_ws_length r2) as Hw2.
    destruct (read_value f (skip_ws r2)) as [[v r3]|] eqn:E3; [|done]. apply IHv in E3. pose proof (skip_ws_length r3) as Hw3.
    destruct (after_char 44 _) as [r4|] eqn:E4.
    + apply after_char_length in E4. intros E5%IHm. lia.
    + destruct (after_char 125 _) as [r4'|] eqn:E5; [|done]. apply after_char_length in E5. intros [= _ <-]. lia.
Qed.

(** *** Fuel *)

Lemma fuel_irrelevant n :
  (forall s f g, (length s <= n)%nat -> (2 * n + 1 <= f)%nat -> (2 * n + 1 <= g)%nat -> read_value f s = read_value g s) /\
  (forall s f g, (length s <= n)%nat -> (2 * n + 2 <= f)%nat -> (2 * n + 2 <= g)%nat -> read_elements f s = read_elements g s) /\
  (forall s o f g, (length s <= n)%nat -> (2 * n + 2 <= f)%nat -> (2 * n + 2 <= g)%nat -> read_members f s o = read_members g s o).
Proof.
  induction n as [|n (IHv & IHe & IHm)].
  - assert (forall s f g, (length s <= 0)%nat -> (1 <= f)%nat -> (1 <= g)%nat -> read_value f s = read_value g s) as Hv.
    { intros [|] [|f] [|g]; cbn; try lia. done. }
    split_and!; [intros; apply Hv; lia| |].
    + intros s [|f] [|g] Hs Hf Hg; try lia. rewrite !read_elements_step. pose proof (skip_ws_length s).
      rewrite (Hv (skip_ws s) f g) by lia. destruct (skip_ws s); [|cbn in *; lia]. by destruct g.
    + intros s o [|f] [|g] Hs Hf Hg; try lia. rewrite !read_members_step. pose proof (skip_ws_length s).
      destruct (skip_ws s); [done|cbn in *; lia].
  - assert (forall s f g, (length s <= S n)%nat -> (2 * S n + 1 <= f)%nat -> (2 * S n + 1 <= g)%nat -> read_value f s = read_value g s) as Hv.
    { intros [|c s] [|f] [|g] Hs Hf Hg; cbn [length] in *; try lia; [done|]. rewrite !read_value_step.
      by rewrite (IHe s f g), (IHm s [] f g) by lia. }
    split_and!; [done| |].
    + intros s [|f] [|g] Hs Hf Hg; try lia. rewrite !read_elements_step. pose proof (skip_ws_length s).
      rewrite (Hv (skip_ws s) f g) by lia. destruct (read_value g (skip_ws s)) as [[v r]|] eqn:E; [|done].
      apply read_shorter in E. pose proof (skip_ws_length r). destruct (after_char 44 _) as [r2|] eqn:E2; [|done].
      apply after_char_length in E2. by rewrite (IHe r2 f g) by lia.
    + intros s o [|f] [|g] Hs Hf Hg; try lia. rewrite !read_members_step. pose proof (skip_ws_length s).
      destruct (after_char 34 _) as [r0|] eqn:E0; [|done]. apply after_char_length in E0.
      destruct (read_string r0) as [[k r1]|] eqn:E1; [|done]. apply read_string_length in E1. pose proof (skip_ws_length r1).
      destruct (after_char 58 _) as [r2|] eqn:E2; [|done]. apply after_char_length in E2. pose proof (skip_ws_length r2).
      rewrite (Hv (skip_ws r2) f g) by lia. destruct (read_value g (skip_ws r2)) as [[v r3]|] eqn:E3; [|done].
      apply read_shorter in E3. pose proof (skip_ws_length r3). destruct (after_char 44 _) as [r4|] eqn:E4; [|done].
      apply after_char_length in E4. by rewrite (IHm r4 _ f g) by lia.
Qed.

(** With any more steps than the parser is given, its answer is the same. *)
Lemma read_value_enough s fuel :
  (parse_fuel s <= fuel)%nat -> read_value fuel (skip_ws s) = read_value (parse_fuel s) (skip_ws s).
Proof.
  intros Hf. unfold parse_fuel in *. pose proof (skip_ws_length s).
  apply (proj1 (fuel_irrelevant (length s))); lia.
Qed.
