(* ===== verification/Bytes.v ===== *)
(** * Bytes: UTF-8 and base64 (b64 of client/src/lib/relay.js, b64url of
      client/src/lib/invite.js)

    [btoa], [atob] and [TextEncoder] are the platform's, written out from
    their standards; [b64] and [b64url] are the program's wrappers.  A byte is
    an [N] below 256. *)

From stdpp Require Import base list numbers option strings.
From Stdlib Require Import ZArith NArith Lia ZifyN ZifyNat.
From S2P Require Import Prelude JsNum JsString JsValue Json.
Open Scope N_scope.

Notation bytes := (list N).
Definition byte (b : N) : Prop := b < 256.

(** ** Base64 *)

Definition b64_char (v : N) : N :=
  if v <? 26 then 65 + v
  else if v <? 52 then 71 + v
  else if v <? 62 then v - 4
  else if v =? 62 then 43 else 47.

Definition b64_value (c : N) : option N :=
  if (65 <=? c) && (c <=? 90) then Some (c - 65)
  else if (97 <=? c) && (c <=? 122) then Some (c - 71)
  else if (48 <=? c) && (c <=? 57) then Some (c + 4)
  else if c =? 43 then Some 62
  else if c =? 47 then Some 63
  else None.

(** [btoa] of a string of bytes. *)
Fixpoint btoa (l : bytes) : jstr :=
  match l with
  | a :: b :: c :: r =>
      [b64_char (a / 4); b64_char (a mod 4 * 16 + b / 16);
       b64_char (b mod 16 * 4 + c / 64); b64_char (c mod 64)] ++ btoa r
  | [a; b] => [b64_char (a / 4); b64_char (a mod 4 * 16 + b / 16); b64_char (b mod 16 * 4); 61]
  | [a] => [b64_char (a / 4); b64_char (a mod 4 * 16); 61; 61]
  | [] => []
  end.

(** ASCII white space, which [atob] ignores. *)
Definition ascii_space (c : N) : bool :=
  (c =? 9) || (c =? 10) || (c =? 12) || (c =? 13) || (c =? 32).

(** One or two padding signs, when the length is a multiple of four. *)
Definition strip_one (s : jstr) : option jstr :=
  match reverse s with
  | c :: r => if c =? 61 then Some (reverse r) else None
  | [] => None
  end.

Definition strip_padding (s : jstr) : jstr :=
  if Nat.eqb (length s mod 4) 0 then
    match strip_one s with
    | None => s
    | Some s1 => default s1 (strip_one s1)
    end
  else s.

(** Six-bit groups to bytes; spare bits are dropped. *)
Fixpoint from_sextets (l : list N) : option bytes :=
  match l with
  | a :: b :: c :: d :: r =>
      (fun t => [a * 4 + b / 16; b mod 16 * 16 + c / 4; c mod 4 * 64 + d] ++ t) <$> from_sextets r
  | [a; b; c] => Some [a * 4 + b / 16; b mod 16 * 16 + c / 4]
  | [a; b] => Some [a * 4 + b / 16]
  | [_] => None
  | [] => Some []
  end.

Fixpoint sextets (s : jstr) : option (list N) :=
  match s with
  | [] => Some []
  | c :: r => match b64_value c, sextets r with
              | Some v, Some vs => Some (v :: vs)
              | _, _ => None
              end
  end.

Definition atob (s : jstr) : res bytes :=
  match sextets (strip_padding (filter (fun c => ascii_space c = false) s)) with
  | None => Throw OtherError
  | Some vs => match from_sextets vs with Some b => Ok b | None => Throw OtherError end
  end.

(** [b64.enc]: the bytes go to the string in chunks of 0x8000. *)
Definition CHUNK : nat := Z.to_nat 32768.

Fixpoint chunks (fuel : nat) (l : bytes) : list bytes :=
  match fuel with
  | O => []
  | S f => match l with [] => [] | _ => take CHUNK l :: chunks f (drop CHUNK l) end
  end.

Definition b64_enc (l : bytes) : jstr := btoa (concat (chunks (length l) l)).

(** [b64.dec], whose argument [atob] turns into a string. *)
Definition b64_dec (v : val) : res bytes := let* s := to_string v in atob s.

(** [b64url]: the alphabet of URLs and no padding. *)
Definition to_url (c : N) : N := if c =? 43 then 45 else if c =? 47 then 95 else c.
Definition from_url (c : N) : N := if c =? 45 then 43 else if c =? 95 then 47 else c.

(** [s.replace(/=+$/, '')]. *)
Fixpoint drop_eq (s : jstr) : jstr :=
  match s with
  | c :: r => if c =? 61 then drop_eq r else s
  | [] => []
  end.

Definition b64url_enc (l : bytes) : jstr := reverse (drop_eq (reverse (to_url <$> btoa l))).
Definition b64url_dec (s : jstr) : res bytes := atob (from_url <$> s).

Example btoa_1 : btoa [72; 105; 33; 255] = js "SGkh/w==".
Proof. vm_compute. reflexivity. Qed.
Example b64url_1 : b64url_enc [251; 255; 191] = js "-_-_".
Proof. vm_compute. reflexivity. Qed.
Example atob_bad : atob (js "a") = Throw OtherError.
Proof. vm_compute. reflexivity. Qed.
Example atob_ws : atob (js "SG kh") = Ok [72; 105; 33].
Proof. vm_compute. reflexivity. Qed.

(** ** UTF-8 *)

Definition utf8_point (p : N) : bytes :=
  if p <? 128 then [p]
  else if p <? 2048 then [192 + p / 64; 128 + p mod 64]
  else if p <? 65536 then [224 + p / 4096; 128 + p / 64 mod 64; 128 + p mod 64]
  else [240 + p / 262144; 128 + p / 4096 mod 64; 128 + p / 64 mod 64; 128 + p mod 64].

(** [TextEncoder.encode]: a lone surrogate becomes U+FFFD. *)
Fixpoint utf8_encode (s : jstr) : bytes :=
  match s with
  | [] => []
  | c :: r =>
      match r with
      | d :: r' =>
          if is_high c && is_low d
          then utf8_point (65536 + (c - 55296) * 1024 + (d - 56320)) ++ utf8_encode r'
          else utf8_point (if is_high c || is_low c then 65533 else c) ++ utf8_encode r
      | [] => utf8_point (if is_high c || is_low c then 65533 else c)
      end
  end.

(** No surrogate stands alone. *)
Fixpoint well_formed (s : jstr) : bool :=
  match s with
  | [] => true
  | c :: r =>
      match r with
      | d :: r' =>
          if is_high c && is_low d then well_formed r'
          else negb (is_high c || is_low c) && (c <? 65536) && well_formed r
      | [] => negb (is_high c || is_low c) && (c <? 65536)
      end
  end.

Example utf8_1 : utf8_encode (js "aé—🐟") = bytes_of "aé—🐟".
Proof. vm_compute. reflexivity. Qed.

(** ** Round trips *)

#[local] Ltac Zify.zify_post_hook ::= Z.div_mod_to_equations.

Lemma b64_value_char v : v < 64 -> b64_value (b64_char v) = Some v.
Proof.
  intros Hv. unfold b64_char.
  destruct (N.ltb_spec v 26); [|destruct (N.ltb_spec v 52); [|destruct (N.ltb_spec v 62);
    [|destruct (N.eqb_spec v 62) as [->|]; [done|replace v with 63 by lia; done]]]];
  unfold b64_value; repeat (case_match; try (f_equal; lia));
  repeat match goal with H : (_ && _)%bool = true |- _ => apply andb_true_iff in H as [?%N.leb_le ?%N.leb_le]
                       | H : (_ && _)%bool = false |- _ => apply andb_false_iff in H as [?%N.leb_gt|?%N.leb_gt]
                       | H : (_ =? _) = true |- _ => apply N.eqb_eq in H
                       | H : (_ =? _) = false |- _ => apply N.eqb_neq in H end; lia.
Qed.

Lemma b64_char_not v : v < 64 -> b64_char v <> 61 /\ ascii_space (b64_char v) = false.
Proof.
  intros Hv. assert (33 <= b64_char v /\ b64_char v <> 61) as [H1 H2].
  { unfold b64_char. repeat case_match;
      repeat match goal with H : (_ <? _) = _ |- _ => first [apply N.ltb_lt in H|apply N.ltb_ge in H] end; lia. }
  split; [done|]. unfold ascii_space. rewrite !(proj2 (N.eqb_neq _ _)) by lia. done.
Qed.

(** Three bytes at a time. *)
Lemma triples_ind (P : bytes -> Prop) :
  P [] -> (forall a, P [a]) -> (forall a b, P [a; b]) ->
  (forall a b c r, P r -> P (a :: b :: c :: r)) -> forall l, P l.
Proof.
  intros H0 H1 H2 H3. fix IH 1. intros [|a [|b [|c r]]]; [exact H0|apply H1|apply H2|apply H3, IH].
Qed.

(** The six-bit groups of the bytes, without padding. *)
Fixpoint groups (l : bytes) : list N :=
  match l with
  | a :: b :: c :: r => [a / 4; a mod 4 * 16 + b / 16; b mod 16 * 4 + c / 64; c mod 64] ++ groups r
  | [a; b] => [a / 4; a mod 4 * 16 + b / 16; b mod 16 * 4]
  | [a] => [a / 4; a mod 4 * 16]
  | [] => []
  end.

Lemma groups_small l : Forall byte l -> Forall (fun v => v < 64) (groups l).
Proof.
  unfold byte. induction l as [|a|a b|a b c r IH] using triples_ind; rewrite ?Forall_cons; intros H;
    cbn [groups app]; repeat (constructor; [lia|]); try constructor. apply IH. tauto.
Qed.

Lemma from_sextets_groups l : Forall byte l -> from_sextets (groups l) = Some l.
Proof.
  unfold byte. induction l as [|a|a b|a b c r IH] using triples_ind; rewrite ?Forall_cons; intros H;
    cbn [groups app from_sextets].
  - done.
  - do 2 f_equal. lia.
  - do 2 f_equal; [lia|]. f_equal. lia.
  - rewrite IH by tauto. cbn. do 2 f_equal; [lia|]. f_equal; [lia|]. f_equal. lia.
Qed.

Definition padding (l : bytes) : jstr :=
  match (length l mod 3)%nat with 1%nat => [61; 61] | 2%nat => [61] | _ => [] end.

Lemma padding_step a b c r : padding (a :: b :: c :: r) = padding r.
Proof.
  unfold padding. cbn [length]. replace (S (S (S (length r)))) with (length r + 1 * 3)%nat by lia.
  by rewrite Nat.Div0.mod_add.
Qed.

Lemma btoa_groups l : btoa l = (b64_char <$> groups l) ++ padding l.
Proof.
  induction l as [|a|a b|a b c r IH] using triples_ind; try done.
  rewrite padding_step. cbn [btoa groups]. rewrite IH, fmap_app, <- app_assoc. done.
Qed.

Lemma sextets_groups (g : list N) :
  Forall (fun v => v < 64) g -> sextets (b64_char <$> g) = Some g.
Proof.
  intros Hg. induction Hg as [|v g Hv Hg IH]; cbn; [done|]. by rewrite b64_value_char, IH.
Qed.

Lemma filter_keep (g : list N) :
  Forall (fun v => v < 64) g -> filter (fun c => ascii_space c = false) (b64_char <$> g) = b64_char <$> g.
Proof.
  intros Hg. induction Hg as [|v g Hv Hg IH]; [done|].
  rewrite fmap_cons, filter_cons, decide_True, IH; [done|].
  by apply b64_char_not.
Qed.

Lemma groups_length l :
  ((length (groups l) + length (padding l)) mod 4 = 0)%nat /\
  (length (groups l) mod 4 = match length (padding l) with 2 => 2 | 1 => 3 | _ => 0 end)%nat.
Proof.
  induction l as [|a|a b|a b c r IH] using triples_ind; try done.
  rewrite padding_step. cbn [groups]. rewrite length_app. cbn [length].
  replace (4 + length (groups r))%nat with (length (groups r) + 1 * 4)%nat by lia.
  rewrite Nat.Div0.mod_add. destruct IH as [IH1 IH2]. split; [|done]. lia.
Qed.

Lemma strip_one_pad s : strip_one (s ++ [61]) = Some s.
Proof. unfold strip_one. rewrite reverse_app, reverse_singleton. cbn [app N.eqb Pos.eqb]. by rewrite reverse_involutive. Qed.

Lemma strip_one_none s : 61 ∉ s -> strip_one s = None.
Proof.
  unfold strip_one. intros Hs. destruct (reverse s) as [|c r] eqn:E; [done|].
  destruct (N.eqb_spec c 61) as [->|]; [|done]. exfalso. apply Hs.
  rewrite <- (reverse_involutive s), E, reverse_cons. apply elem_of_app. right. by left.
Qed.

(** Stripping what [btoa] padded leaves the groups. *)
Lemma strip_padding_groups l :
  Forall byte l -> strip_padding ((b64_char <$> groups l) ++ padding l) = b64_char <$> groups l.
Proof.
  intros Hl. pose proof (groups_small l Hl) as Hg. destruct (groups_length l) as [H1 _].
  unfold strip_padding. rewrite length_app, length_fmap, H1. cbn [Nat.eqb].
  assert (61 ∉ b64_char <$> groups l) as Hno.
  { intros (v & Hv & Hin)%list_elem_of_fmap. rewrite Forall_forall in Hg.
    by destruct (b64_char_not v (Hg v Hin)). }
  unfold padding. destruct (length l mod 3)%nat as [|[|[|]]].
  - by rewrite app_nil_r, strip_one_none.
  - change ([61; 61]) with ([61] ++ [61]). rewrite app_assoc, !strip_one_pad. done.
  - by rewrite strip_one_pad, strip_one_none.
  - by rewrite app_nil_r, strip_one_none.
Qed.

Lemma atob_btoa l : Forall byte l -> atob (btoa l) = Ok l.
Proof.
  intros Hl. pose proof (groups_small l Hl) as Hg. unfold atob. rewrite btoa_groups.
  rewrite filter_app, filter_keep by done.
  assert (filter (fun c => ascii_space c = false) (padding l) = padding l) as ->.
  { unfold padding. by destruct (length l mod 3)%nat as [|[|[|]]]. }
  rewrite strip_padding_groups, sextets_groups, from_sextets_groups by done. done.
Qed.

Lemma chunks_concat fuel l : (length l <= fuel)%nat -> concat (chunks fuel l) = l.
Proof.
  revert l. induction fuel as [|f IH]; intros l Hl; cbn [chunks].
  { destruct l; [done|cbn in Hl; lia]. }
  destruct l as [|x l]; [done|]. assert (0 < CHUNK)%nat as Hc by (unfold CHUNK; lia).
  revert Hc. generalize CHUNK as n. intros n Hn. cbn [concat].
  pose proof (length_drop (x :: l) n) as Hd. cbn [length] in *.
  rewrite IH by lia. by rewrite take_drop.
Qed.

Lemma b64_enc_btoa l : b64_enc l = btoa l.
Proof. unfold b64_enc. by rewrite chunks_concat. Qed.

(** *** The URL alphabet *)

Lemma url_back c : c <> 45 -> c <> 95 -> from_url (to_url c) = c.
Proof.
  intros H1 H2. unfold to_url. destruct (N.eqb_spec c 43) as [->|]; [done|].
  destruct (N.eqb_spec c 47) as [->|]; [done|]. unfold from_url.
  by rewrite (proj2 (N.eqb_neq c 45)), (proj2 (N.eqb_neq c 95)).
Qed.

Lemma b64_char_url v : v < 64 ->
  b64_char v <> 45 /\ b64_char v <> 95 /\ to_url (b64_char v) <> 61.
Proof.
  intros Hv. destruct (b64_char_not v Hv) as [Hne _]. split_and!.
  3: { unfold to_url. repeat case_match; try done. }
  all: unfold b64_char; repeat case_match;
      repeat match goal with H : (_ <? _) = _ |- _ => first [apply N.ltb_lt in H|apply N.ltb_ge in H] end; lia.
Qed.

Lemma drop_eq_pad n s : drop_eq (replicate n 61 ++ s) = drop_eq s.
Proof. induction n as [|n IH]; cbn; [done|exact IH]. Qed.

Lemma drop_eq_id s : 61 ∉ s -> drop_eq s = s.
Proof.
  destruct s as [|c s]; [done|]. rewrite not_elem_of_cons. intros [Hc _]. cbn.
  by rewrite (proj2 (N.eqb_neq c 61)).
Qed.

Lemma b64url_enc_groups l :
  Forall byte l -> b64url_enc l = to_url <$> (b64_char <$> groups l).
Proof.
  intros Hl. pose proof (groups_small l Hl) as Hg. unfold b64url_enc. rewrite btoa_groups.
  assert (61 ∉ to_url <$> (b64_char <$> groups l)) as Hno.
  { intros (c & Hc & (v & -> & Hin)%list_elem_of_fmap)%list_elem_of_fmap. rewrite Forall_forall in Hg.
    by destruct (b64_char_url v (Hg v Hin)) as (_ & _ & ?). }
  rewrite fmap_app, reverse_app.
  assert (exists n, reverse (to_url <$> padding l) = replicate n 61) as [n ->].
  { unfold padding. destruct (length l mod 3)%nat as [|[|[|]]]; [by exists 0%nat|by exists 2%nat|by exists 1%nat|by exists 0%nat]. }
  rewrite drop_eq_pad, drop_eq_id; [by rewrite reverse_involutive|].
  by rewrite elem_of_reverse.
Qed.

Lemma b64url_back l : Forall byte l -> b64url_dec (b64url_enc l) = Ok l.
Proof.
  intros Hl. pose proof (groups_small l Hl) as Hg. unfold b64url_dec. rewrite b64url_enc_groups by done.
  assert (from_url <$> (to_url <$> (b64_char <$> groups l)) = b64_char <$> groups l) as ->.
  { rewrite <- !list_fmap_compose. apply list_fmap_ext. intros i v Hv%list_elem_of_lookup_2. cbn.
    rewrite Forall_forall in Hg. destruct (b64_char_url v (Hg v Hv)) as (? & ? & _). by apply url_back. }
  unfold atob. rewrite filter_keep by done.
  assert (strip_padding (b64_char <$> groups l) = b64_char <$> groups l) as ->.
  { unfold strip_padding. case_match; [|done]. rewrite strip_one_none; [done|].
    intros (v & Hv & Hin)%list_elem_of_fmap. rewrite Forall_forall in Hg.
    by destruct (b64_char_not v (Hg v Hin)). }
  rewrite sextets_groups, from_sextets_groups by done. done.
Qed.

(** Bytes survive the wire: what [b64.enc] prints, in whatever number of
    chunks, [b64.dec] reads back, and so do the unpadded URL forms; so two
    different byte strings never print alike. *)
Theorem base64_roundtrip l :
  Forall byte l ->
  b64_dec (VStr (b64_enc l)) = Ok l /\ b64url_dec (b64url_enc l) = Ok l.
Proof. intros Hl. rewrite b64_enc_btoa. split; [by apply atob_btoa|by apply b64url_back]. Qed.

Lemma base64_roundtrip_witness : b64url_dec (js "-_-_AQ") = Ok [251; 255; 191; 1].
Proof.
  apply (base64_roundtrip [251; 255; 191; 1]). unfold byte. repeat constructor; lia.
Defined.

(** *** UTF-8 *)

(** The UTF-16 units of a code point. *)
Definition units (p : N) : jstr :=
  if p <? 65536 then [p] else [55296 + (p - 65536) / 1024; 56320 + (p - 65536) mod 1024].

Lemma utf16_of_point p t :
  p < 1114112 -> utf16_of_utf8 (utf8_point p ++ t) = units p ++ utf16_of_utf8 t.
Proof.
  intros Hp. unfold utf8_point, units.
  destruct (N.ltb_spec p 128); [|destruct (N.ltb_spec p 2048); [|destruct (N.ltb_spec p 65536)]].
  - rewrite (proj2 (N.ltb_lt p 65536)) by lia. cbn [app utf16_of_utf8].
    by rewrite (proj2 (N.ltb_lt p 128)).
  - rewrite (proj2 (N.ltb_lt p 65536)) by lia. cbn [app utf16_of_utf8].
    rewrite (proj2 (N.ltb_ge _ 128)), (proj2 (N.ltb_lt _ 224)) by lia. f_equal. lia.
  - cbn [app utf16_of_utf8].
    rewrite (proj2 (N.ltb_ge _ 128)), (proj2 (N.ltb_ge _ 224)), (proj2 (N.ltb_lt _ 240)) by lia.
    f_equal. lia.
  - cbn [app utf16_of_utf8].
    rewrite (proj2 (N.ltb_ge _ 128)), (proj2 (N.ltb_ge _ 224)), (proj2 (N.ltb_ge _ 240)) by lia.
    assert ((240 + p / 262144) mod 8 * 262144 + (128 + p / 4096 mod 64) mod 64 * 4096
            + (128 + p / 64 mod 64) mod 64 * 64 + (128 + p mod 64) mod 64 = p) as -> by lia.
    done.
Qed.

Lemma utf8_encode_cons2 c d r :
  utf8_encode (c :: d :: r) =
    if is_high c && is_low d
    then utf8_point (65536 + (c - 55296) * 1024 + (d - 56320)) ++ utf8_encode r
    else utf8_point (if is_high c || is_low c then 65533 else c) ++ utf8_encode (d :: r).
Proof. done. Qed.

Lemma well_formed_cons2 c d r :
  well_formed (c :: d :: r) =
    if is_high c && is_low d then well_formed r
    else negb (is_high c || is_low c) && (c <? 65536) && well_formed (d :: r).
Proof. done. Qed.

Lemma utf8_decode_encode s : well_formed s = true -> utf16_of_utf8 (utf8_encode s) = s.
Proof.
  remember (length s) as n eqn:Hn. revert s Hn. induction (lt_wf n) as [n _ IH]. intros s -> Hs.
  assert (forall c t, negb (is_high c || is_low c) && (c <? 65536) = true ->
    utf16_of_utf8 (utf8_point (if is_high c || is_low c then 65533 else c) ++ t) = c :: utf16_of_utf8 t) as Hone.
  { intros c t [Hc%negb_true_iff Hb%N.ltb_lt]%andb_true_iff. rewrite Hc, utf16_of_point by lia.
    unfold units. by rewrite (proj2 (N.ltb_lt _ _)). }
  destruct s as [|c [|d r]]; [done| |].
  - cbn [well_formed] in Hs. cbn [utf8_encode]. rewrite <- (app_nil_r (utf8_point _)). by rewrite Hone.
  - rewrite well_formed_cons2 in Hs. rewrite utf8_encode_cons2.
    destruct (is_high c && is_low d) eqn:E.
    + apply andb_true_iff in E as [Eh El]. unfold is_high, is_low in *.
      rewrite andb_true_iff, !N.leb_le in Eh, El. rewrite utf16_of_point by lia.
      rewrite (IH (length r) ltac:(cbn; lia) r eq_refl Hs). unfold units.
      rewrite (proj2 (N.ltb_ge _ _)) by lia. cbn [app]. f_equal; [lia|]. f_equal. lia.
    + apply andb_true_iff in Hs as [Hc Hs]. rewrite Hone by done. f_equal.
      apply (IH (length (d :: r)) ltac:(cbn; lia) (d :: r) eq_refl Hs).
Qed.

Lemma utf8_encode_inj s t :
  well_formed s = true -> well_formed t = true -> utf8_encode s = utf8_encode t -> s = t.
Proof. intros Hs Ht E. by rewrite <- (utf8_decode_encode s), <- (utf8_decode_encode t), E. Qed.

Lemma utf8_point_bytes p : p < 1114112 -> Forall byte (utf8_point p).
Proof.
  intros Hp. unfold utf8_point, byte. destruct (N.ltb_spec p 128); [by constructor; [lia|]|].
  destruct (N.ltb_spec p 2048); [repeat (constructor; [lia|]); constructor|].
  destruct (N.ltb_spec p 65536); repeat (constructor; [lia|]); constructor.
Qed.

Lemma utf8_bytes s : Forall unit16 s -> Forall byte (utf8_encode s).
Proof.
  remember (length s) as n eqn:Hn. revert s Hn. induction (lt_wf n) as [n _ IH]. intros s -> Hs.
  assert (forall c, unit16 c -> Forall byte (utf8_point (if is_high c || is_low c then 65533 else c))) as Hone.
  { unfold unit16. intros c Hc. apply utf8_point_bytes. case_match; lia. }
  destruct s as [|c [|d r]]; [constructor| |].
  - apply Forall_cons in Hs as [Hc _]. by apply Hone.
  - apply Forall_cons in Hs as [Hc Hs]. rewrite utf8_encode_cons2.
    destruct (is_high c && is_low d) eqn:E.
    + apply Forall_cons in Hs as [Hd Hs]. apply andb_true_iff in E as [Eh El]. unfold is_high, is_low in *.
      rewrite andb_true_iff, !N.leb_le in Eh, El. apply Forall_app. split; [apply utf8_point_bytes; lia|].
      by apply (IH (length r) ltac:(cbn; lia) r eq_refl).
    + apply Forall_app. split; [by apply Hone|].
      by apply (IH (length (d :: r)) ltac:(cbn; lia) (d :: r) eq_refl).
Qed.

(** *** Well-formed text *)

Lemma well_formed_app s t : well_formed s = true -> well_formed t = true -> well_formed (s ++ t) = true.
Proof.
  remember (length s) as n eqn:Hn. revert s Hn. induction (lt_wf n) as [n _ IH]. intros s -> Hs Ht.
  destruct s as [|c [|d r]]; [done| |].
  - cbn [well_formed] in Hs. cbn [app]. apply andb_true_iff in Hs as [Hc Hb].
    destruct t as [|d r]; [cbn [well_formed]; by rewrite Hc, Hb|]. rewrite well_formed_cons2.
    apply negb_true_iff, orb_false_iff in Hc as [Hh Hl]. rewrite Hh. cbn [andb]. by rewrite Hl, Hb.
  - rewrite well_formed_cons2 in Hs. cbn [app]. rewrite well_formed_cons2.
    destruct (is_high c && is_low d).
    + apply (IH (length r) ltac:(cbn; lia) r eq_refl Hs Ht).
    + apply andb_true_iff in Hs as [Hc Hs]. rewrite Hc. cbn [andb].
      apply (IH (length (d :: r)) ltac:(cbn; lia) (d :: r) eq_refl Hs Ht).
Qed.

(** Plain units: neither surrogate half. *)
Definition basic (c : N) : Prop := c < 55296.

Lemma well_formed_basic s : Forall basic s -> well_formed s = true.
Proof.
  unfold basic. intros Hs. induction Hs as [|c s Hc Hs IH]; [done|].
  assert (is_high c = false /\ is_low c = false) as [Hh Hl].
  { unfold is_high, is_low. rewrite (proj2 (N.leb_gt 55296 c)), (proj2 (N.leb_gt 56320 c)) by lia. done. }
  assert ((c <? 65536) = true) as Hb by (apply N.ltb_lt; lia).
  destruct s as [|d r]; [cbn [well_formed]; by rewrite Hh, Hl, Hb|].
  rewrite well_formed_cons2, Hh, Hl, Hb. done.
Qed.

Lemma hex_digit_basic v : v < 16 -> basic (hex_digit v).
Proof. unfold basic, hex_digit. intros. case_match; lia. Qed.

Lemma quote_unit_well_formed c : unit16 c -> well_formed (quote_unit c) = true.
Proof.
  unfold unit16. intros Hc. unfold quote_unit.
  do 7 (case_match; [done|]). destruct (_ || _ || _) eqn:E.
  - apply well_formed_basic. unfold unicode_escape.
    repeat first [apply Forall_nil_2 | apply Forall_cons; split];
      try (unfold basic; lia); apply hex_digit_basic; lia.
  - rewrite !orb_false_iff in E. destruct E as [[_ Hh] Hl]. cbn [well_formed]. rewrite Hh, Hl. cbn.
    by apply N.ltb_lt.
Qed.

Lemma quote_body_well_formed s : Forall unit16 s -> well_formed (quote_body s) = true.
Proof.
  remember (length s) as n eqn:Hn. revert s Hn. induction (lt_wf n) as [n _ IH]. intros s -> Hs.
  destruct s as [|c [|d r]]; [done| |].
  - apply Forall_cons in Hs as [Hc _]. by apply quote_unit_well_formed.
  - apply Forall_cons in Hs as [Hc Hs]. rewrite quote_body_cons2. destruct (is_high c && is_low d) eqn:E.
    + rewrite well_formed_cons2, E. apply Forall_cons in Hs as [_ Hs].
      by apply (IH (length r) ltac:(cbn; lia) r eq_refl).
    + apply well_formed_app; [by apply quote_unit_well_formed|].
      by apply (IH (length (d :: r)) ltac:(cbn; lia) (d :: r) eq_refl).
Qed.

Lemma json_quote_well_formed s : Forall unit16 s -> well_formed (json_quote s) = true.
Proof.
  intros Hs. unfold json_quote. apply well_formed_app; [done|].
  apply well_formed_app; [by apply quote_body_well_formed|done].
Qed.

Lemma str_join_well_formed sep l :
  well_formed sep = true -> Forall (fun s => well_formed s = true) l -> well_formed (str_join sep l) = true.
Proof.
  intros Hsep Hl. induction Hl as [|x [|y l] Hx Hl IH]; [done|done|].
  rewrite str_join_cons2. auto using well_formed_app.
Qed.

Lemma bracket_well_formed a b l :
  basic a -> basic b -> Forall (fun s => well_formed s = true) l -> well_formed (bracket a b l) = true.
Proof.
  intros Ha Hb Hl. unfold bracket. repeat apply well_formed_app.
  - apply well_formed_basic. by constructor.
  - by apply str_join_well_formed.
  - apply well_formed_basic. by constructor.
Qed.

(** JSON is always well-formed text: a lone surrogate is printed as an
    escape. *)
Lemma stringify_well_formed v : jsonable v -> well_formed (stringify v) = true.
Proof.
  induction v as [| |b|a|s|l IH|o IH|g] using val_ind'; try done; intros Hj.
  - by destruct b.
  - destruct Hj as (n & -> & Hn). cbn [stringify]. unfold json_number.
    change (nfinite (int n)) with true. cbn match.
    rewrite num_to_string_int by done. apply well_formed_basic. unfold int_to_string.
    assert (forall n, Forall basic (digits 10 n)) as Hd.
    { intros m. eapply Forall_impl; [apply digits_digits|]. unfold is_digit, basic. intros; lia. }
    case_match; [|apply Hd]. apply Forall_app. split; [|apply Hd]. repeat constructor.
  - by apply json_quote_well_formed.
  - apply jsonable_arr in Hj. cbn [stringify]. apply bracket_well_formed; [done|done|].
    apply Forall_map. rewrite Forall_forall in IH, Hj |- *. auto.
  - apply jsonable_obj in Hj as [_ Hj].
    rewrite stringify_obj by (eapply Forall_impl; [exact Hj|]; by intros ? []).
    unfold print_members. apply bracket_well_formed; [done|done|]. apply Forall_map.
    unfold printed. apply Forall_fmap. rewrite Forall_forall in IH, Hj |- *. intros kv Hkv.
    destruct (Hj kv Hkv) as [Hk Hv]. unfold compose, member. cbn [fst snd].
    apply well_formed_app; [by apply json_quote_well_formed|].
    apply well_formed_app; [done|]. by apply IH.
Qed.

Lemma canonicalJson_well_formed v : jsonable v -> well_formed (canonicalJson v) = true.
Proof. intros Hj. rewrite canonicalJson_canon by done. by apply stringify_well_formed, jsonable_canon. Qed.

Lemma well_formed_units s : well_formed s = true -> Forall unit16 s.
Proof.
  remember (length s) as n eqn:Hn. revert s Hn. induction (lt_wf n) as [n _ IH]. intros s -> Hs.
  destruct s as [|c [|d r]]; [constructor| |].
  - cbn [well_formed] in Hs. rewrite andb_true_iff, N.ltb_lt in Hs. by constructor; [apply Hs|].
  - rewrite well_formed_cons2 in Hs. destruct (is_high c && is_low d) eqn:E.
    + unfold is_high, is_low in E. rewrite !andb_true_iff, !N.leb_le in E.
      constructor; [unfold unit16; lia|]. constructor; [unfold unit16; lia|].
      by apply (IH (length r) ltac:(cbn; lia) r eq_refl).
    + rewrite andb_true_iff in Hs. destruct Hs as [Hc Hs].
      constructor; [unfold unit16; rewrite andb_true_iff, N.ltb_lt in Hc; tauto|].
      by apply (IH (length (d :: r)) ltac:(cbn; lia) (d :: r) eq_refl).
Qed.

(** Printed JSON is sent as bytes. *)
Lemma json_bytes v : jsonable v -> Forall byte (utf8_encode (stringify v)).
Proof. intros Hj. by apply utf8_bytes, well_formed_units, stringify_well_formed. Qed.

(** No text of JSON begins with a byte-order mark. *)
Lemma stringify_no_bom v : jsonable v -> head (stringify v) <> Some 65279.
Proof.
  destruct v as [| |b|a|s|l|o|g]; try done; intros Hj; [by destruct b|].
  destruct Hj as (n & -> & Hn). cbn [stringify]. unfold json_number.
  change (nfinite (int n)) with true. cbn match. rewrite num_to_string_int by done.
  destruct (int_to_string_head n) as (c & r & -> & Hc). cbn. intros [= ->]. unfold is_digit in Hc. lia.
Qed.
