(* ===== verification/History.v ===== *)
(** * Channel log crypto (client/src/lib/history.js), the blobs of invite.js
      and the key directory (client/src/lib/keys.js)

    What an author signs, how an entry is sealed for the relay and opened by
    a reader, and what its signature is worth.  The ciphers, the hash, the
    text decoder and the signature scheme are the platform's and the crypto
    worker's: a class [Web] of operations, and a class [WebLaws] of what they
    document. *)

From stdpp Require Import base list numbers option strings.
From Stdlib Require Import ZArith NArith Lia Sorting.Permutation.
From S2P Require Import Prelude JsNum JsString JsValue Json Bytes Games Envelope Log.
Open Scope Z_scope.

(** ** The platform *)

Class Web := {
  (** AES-GCM under a raw key: key, iv, data. *)
  aes_encrypt : bytes -> bytes -> bytes -> bytes;
  aes_decrypt : bytes -> bytes -> bytes -> option bytes;
  sha256 : bytes -> bytes;
  (** [TextDecoder.decode]. *)
  text_decode : bytes -> jstr;
  (** The worker: sign with this device's identity; check one signature
      (public key, message, signature). *)
  sign : bytes -> bytes;
  verify : bytes -> bytes -> bytes -> bool;
}.

(** [aes_roundtrip] is about keys the browser imports: the code draws 32 bytes
    for each, and for a length it does not know [importKey] throws before
    anything is sealed. *)
Class WebLaws `{Web} := {
  aes_roundtrip : forall key iv data, aes_decrypt key iv (aes_encrypt key iv data) = Some data;
  aes_bytes : forall key iv data, Forall byte data -> Forall byte (aes_encrypt key iv data);
  (** a byte-order mark at the start is not part of the text *)
  text_roundtrip : forall s, well_formed s = true -> head s <> Some 65279%N -> text_decode (utf8_encode s) = s;
  sign_bytes : forall m, Forall byte (sign m);
}.

Section history.
Context `{Web}.

Definition LOG_ENTRY_VERSION : val := VNum (int 1).
Definition SIGNING_CONTEXT : jstr := js "quorum-log-entry-v1".
Definition FIELD_SEP : jstr := [0%N].

(** ** Blobs: iv || ciphertext *)

Definition encryptBlob (rawKey iv data : bytes) : bytes := iv ++ aes_encrypt rawKey iv data.

Definition decryptBlob (rawKey b : bytes) : res bytes :=
  match aes_decrypt rawKey (take 12 b) (drop 12 b) with
  | Some d => Ok d
  | None => Throw OtherError
  end.

(** ** What is signed *)

(** [const { sig: _sig, ...signed } = entry]. *)
Definition without_sig (entry : val) : val :=
  VObj (filter (fun kv => kv.1 <> js "sig") (own_props entry)).

Definition signing_text (group hid : jstr) (entry : val) : jstr :=
  str_join FIELD_SEP [SIGNING_CONTEXT; group; hid; canonicalJson (without_sig entry)].

Definition entrySigningBytes (group hid : jstr) (entry : val) : bytes :=
  utf8_encode (signing_text group hid entry).

(** ** Sealing and opening an entry; the random iv is an argument *)

Definition sealed_entry (group hid : jstr) (entry : obj) : obj :=
  let body := obj_spread [(js "v", LOG_ENTRY_VERSION)] entry in
  obj_put body (js "sig") (VStr (b64_enc (sign (entrySigningBytes group hid (VObj body))))).

Definition sealLogEntry (hkeyB64 group hid : jstr) (entry : obj) (iv : bytes) : res jstr :=
  let data := utf8_encode (stringify (VObj (sealed_entry group hid entry))) in
  let* key := b64_dec (VStr hkeyB64) in
  Ok (b64_enc (encryptBlob key iv data)).

Definition openLogEntry (hkeyB64 payloadB64 : val) : res val :=
  let* key := b64_dec hkeyB64 in
  let* payload := b64_dec payloadB64 in
  let* plain := decryptBlob key payload in
  json_parse (text_decode plain).

(** ** What a signature is worth *)

Record check := { ck_key : bytes; ck_message : bytes; ck_sig : bytes }.

(** One entry before the batch is verified: its verdict, or what to ask. *)
Definition pre_verdict (group hid : jstr) (keys entry : val) : res (auth + check) :=
  if negb (truthy entry) || negb (is_str entry.["sig"]) then Ok (inl unsigned) else
  let* name := if nullish keys then Ok [] else to_string entry.["sender"] in
  let key := prop keys name in
  if negb (truthy key) then Ok (inl unknown) else
  let* k := b64_dec key in
  let* s := b64_dec entry.["sig"] in
  Ok (inr {| ck_key := k; ck_message := entrySigningBytes group hid entry; ck_sig := s |}).

(** The answers are consumed in order; one that is missing is a refusal. *)
Fixpoint fill (verdicts : list (auth + check)) (results : list bool) : list auth :=
  match verdicts with
  | [] => []
  | inl a :: r => a :: fill r results
  | inr _ :: r =>
      (if default false (head results) then signed else forged) :: fill r (tail results)
  end.

Definition checks_of (verdicts : list (auth + check)) : list check :=
  omap (fun v => match v with inr c => Some c | inl _ => None end) verdicts.

(** The worker's answer to a batch. *)
Definition verifyBatch (cs : list check) : list bool :=
  (fun c => verify (ck_key c) (ck_message c) (ck_sig c)) <$> cs.

Definition verifyEntries (group hid : jstr) (entries : list val) (keys : val) : res (list auth) :=
  let* verdicts := rmap (pre_verdict group hid keys) entries in
  Ok (fill verdicts (verifyBatch (checks_of verdicts))).

(** ** Content identity *)

Definition messageFingerprint (m : val) : res jstr :=
  let* body :=
    if truthy m.["file"] then let* b := to_string m.["file"].["blob"] in Ok (js "f:" ++ b)
    else if truthy m.["game"] then let* g := to_string m.["game"].["id"] in Ok (js "g:" ++ g)
    else let* t := to_string (m.["text"] ⁇ VStr []) in Ok (js "t:" ++ t) in
  let* s := to_string m.["sender"] in
  let* t := to_string m.["ts"] in
  Ok (s ++ js "|" ++ t ++ js "|" ++ body).

(** ** The circles backup *)

Definition deriveBackupKey (identity : bytes) : bytes :=
  sha256 (utf8_encode (js "quorum-circles-backup-v1") ++ identity).

Definition sealBackup (identity : bytes) (record : val) (iv : bytes) : jstr :=
  b64_enc (encryptBlob (deriveBackupKey identity) iv (utf8_encode (stringify record))).

Definition openBackup (identity : bytes) (payloadB64 : val) : res val :=
  let* payload := b64_dec payloadB64 in
  let* plain := decryptBlob (deriveBackupKey identity) payload in
  json_parse (text_decode plain).
End history.

(** ** The key directory *)

(** One handle of the roster. *)
Definition merge_key (st : obj * list jstr * bool) (entry : jstr * bytes) : obj * list jstr * bool :=
  let '(keys, conflicts, changed) := st in
  let '(handle, raw) := entry in
  if is_empty handle || bool_decide (raw = []) then st else
  let encoded := VStr (b64_enc raw) in
  let held := prop (VObj keys) handle in
  if strict_eq held encoded then st else
  (obj_assign keys handle encoded,
   if truthy held then conflicts ++ [handle] else conflicts, true).

(** The new [record.keys] (unchanged when nothing is), [changed] and
    [conflicts]. *)
Definition mergeKeyDirectory (keys : option obj) (roster : list (jstr * bytes))
  : option obj * bool * list jstr :=
  let '(merged, conflicts, changed) := fold_left merge_key roster (default [] keys, [], false) in
  (if changed then Some merged else keys, changed, conflicts).

Definition keyDirectory (keys : option obj) : obj := default [] keys.

(** ** Theorems *)

(** *** Objects of the wire *)

Lemma obj_get_filter_key (o : obj) (key k : jstr) :
  obj_get (filter (fun kv => kv.1 <> key) o) k = if str_eqb key k then None else obj_get o k.
Proof.
  induction o as [|[k' x] o IH]; [by destruct (str_eqb key k)|].
  rewrite filter_cons. cbn [fst]. case_decide as Hk; cbn [obj_get].
  - rewrite IH. destruct (str_eqb k' k) eqn:E; [|done]. apply str_eqb_eq in E as ->.
    apply not_eq_sym in Hk. by rewrite (proj2 (str_eqb_neq key k)).
  - subst k'. rewrite IH. by destruct (str_eqb key k).
Qed.

Lemma jsonable_filter (o : obj) (P : jstr * val -> Prop) `{!forall x, Decision (P x)} :
  jsonable (VObj o) -> jsonable (VObj (filter P o)).
Proof.
  intros [Hn Hj]%jsonable_obj. apply jsonable_obj. split; [|by apply Forall_filter].
  eapply sublist_NoDup; [exact Hn|]. apply fmap_sublist, sublist_filter.
Qed.

Lemma obj_put_NoDup {A} (o : list (jstr * A)) k v :
  NoDup (obj_keys o) -> NoDup (obj_keys (obj_put o k v)).
Proof.
  intros Hn. unfold obj_put. destruct (obj_get o k) eqn:E; [by rewrite obj_keys_update|].
  unfold obj_keys. rewrite obj_add_perm. apply NoDup_cons. split; [|done]. by apply obj_get_None.
Qed.

Lemma elem_of_obj_update {A} (o : list (jstr * A)) k v kv :
  kv ∈ obj_update o k v -> kv = (k, v) \/ kv ∈ o.
Proof.
  induction o as [|[k0 v0] o IH]; cbn; [intros []%elem_of_nil|].
  destruct (str_eqb k0 k) eqn:E; rewrite !elem_of_cons.
  - apply str_eqb_eq in E as ->. tauto.
  - intros [?|?%IH]; tauto.
Qed.

Lemma elem_of_obj_put {A} (o : list (jstr * A)) k v kv : kv ∈ obj_put o k v -> kv = (k, v) \/ kv ∈ o.
Proof.
  unfold obj_put. case_match; [apply elem_of_obj_update|]. rewrite obj_add_perm, elem_of_cons. tauto.
Qed.

Lemma jsonable_put (o : obj) k v :
  jsonable (VObj o) -> Forall unit16 k -> jsonable v -> jsonable (VObj (obj_put o k v)).
Proof.
  intros [Hn Hj]%jsonable_obj Hk Hv. apply jsonable_obj. split; [by apply (obj_put_NoDup o)|].
  apply Forall_forall. intros kv [->|Hin]%elem_of_obj_put; [done|].
  rewrite Forall_forall in Hj. auto.
Qed.

Lemma jsonable_spread (o1 o2 : obj) :
  jsonable (VObj o1) -> jsonable (VObj o2) -> jsonable (VObj (obj_spread o1 o2)).
Proof.
  intros H1 [_ Hj]%jsonable_obj. unfold obj_spread. revert o1 H1.
  induction Hj as [|[k v] o2 [Hk Hv] Hj IH]; intros o1 H1; cbn; [done|]. apply IH. by apply jsonable_put.
Qed.

(** Reading back what was printed gives the same value. *)
Lemma same_rebuild v : jsonable v -> same v (rebuild v).
Proof.
  induction v as [| |b|a|s|l IH|o IH|g] using val_ind'; try done; intros Hj; try (by constructor).
  - apply jsonable_arr in Hj. cbn [rebuild]. constructor.
    induction l as [|x l IHl]; cbn; constructor; apply Forall_cons in IH as [Hx IH], Hj as [Hjx Hj]; auto.
  - pose proof Hj as [Hn Hjs]%jsonable_obj. rewrite rebuild_obj. constructor. intros k.
    rewrite put_all_get by done. destruct (obj_get o k) as [x|] eqn:E; [|constructor].
    constructor. rewrite Forall_forall in IH. apply (IH (k, x)); [by apply obj_get_elem|].
    by eapply jsonable_get.
Qed.

Lemma put_all_NoDup o acc : NoDup (obj_keys acc) -> NoDup (obj_keys (put_all o acc)).
Proof.
  revert acc. unfold put_all. induction o as [|kv o IH]; intros acc Hn; cbn; [done|].
  by apply IH, obj_put_NoDup.
Qed.

Lemma elem_of_put_all o acc kv :
  kv ∈ put_all o acc -> kv ∈ acc \/ exists x, (kv.1, x) ∈ o /\ kv.2 = rebuild x.
Proof.
  revert acc. unfold put_all. induction o as [|[k x] o IH]; intros acc; cbn; [by left|].
  intros [Hp|(y & Hy & Hr)]%IH.
  - apply elem_of_obj_put in Hp as [->|?]; [right|by left]. exists x. split; [by left|done].
  - right. exists y. split; [by right|done].
Qed.

Lemma jsonable_rebuild v : jsonable v -> jsonable (rebuild v).
Proof.
  induction v as [| |b|a|s|l IH|o IH|g] using val_ind'; try done; intros Hj.
  - apply jsonable_arr in Hj. cbn [rebuild]. apply jsonable_arr, Forall_map.
    rewrite Forall_forall in IH, Hj |- *. auto.
  - apply jsonable_obj in Hj as [_ Hj]. rewrite rebuild_obj. apply jsonable_obj. split.
    + apply (put_all_NoDup o []). apply NoDup_nil_2.
    + apply Forall_forall. intros kv [[]%elem_of_nil|(x & Hx & ->)]%elem_of_put_all.
      rewrite Forall_forall in IH, Hj. destruct (Hj _ Hx) as [Hk Hv]. split; [exact Hk|].
      by apply (IH (kv.1, x)).
Qed.

(** *** What the signature binds *)

Section binds.
Context `{Web}.

Lemma nul_split (s1 s2 t1 t2 : jstr) :
  0%N ∉ s1 -> 0%N ∉ s2 -> s1 ++ 0%N :: t1 = s2 ++ 0%N :: t2 -> s1 = s2 /\ t1 = t2.
Proof.
  revert s2. induction s1 as [|c s1 IH]; intros [|c' s2] H1 H2 E; cbn in E.
  - injection E as ->. done.
  - injection E as <- _. exfalso. apply H2. by left.
  - injection E as -> _. exfalso. apply H1. by left.
  - injection E as -> E. rewrite not_elem_of_cons in H1, H2.
    apply IH in E as [-> ->]; tauto.
Qed.

Definition signable (entry : val) : Prop := match entry with VObj _ => jsonable entry | _ => False end.

Lemma jsonable_without_sig entry : signable entry -> jsonable (without_sig entry).
Proof. destruct entry; try done. intros Hj. by apply jsonable_filter. Qed.

Lemma signing_text_eq group hid entry :
  signing_text group hid entry =
    SIGNING_CONTEXT ++ 0%N :: group ++ 0%N :: hid ++ 0%N :: canonicalJson (without_sig entry).
Proof. done. Qed.

Lemma signing_text_well_formed group hid entry :
  well_formed group = true -> well_formed hid = true -> signable entry ->
  well_formed (signing_text group hid entry) = true.
Proof.
  intros Hg Hh Hs. unfold signing_text. apply str_join_well_formed; [done|].
  repeat (apply Forall_cons; split); try done.
  by apply canonicalJson_well_formed, jsonable_without_sig.
Qed.

(** A place in a circle: no NUL, and well-formed text. *)
Definition place_ok (s : jstr) : Prop := 0%N ∉ s /\ well_formed s = true.

(** C7: the bytes an author signs determine the circle, the log and the whole
    entry (but for its signature and the order of its keys), and depend on
    nothing else: a signature cannot be moved to another channel, and no field
    can be added, dropped or reworded under it; nor does the order in which a
    client lists the fields make a valid entry look forged. *)
Theorem signature_binds g1 h1 e1 g2 h2 e2 :
  place_ok g1 -> place_ok h1 -> place_ok g2 -> place_ok h2 -> signable e1 -> signable e2 ->
  entrySigningBytes g1 h1 e1 = entrySigningBytes g2 h2 e2 <->
  g1 = g2 /\ h1 = h2 /\ same (without_sig e1) (without_sig e2).
Proof.
  intros [Hg1 Wg1] [Hh1 Wh1] [Hg2 Wg2] [Hh2 Wh2] He1 He2.
  rewrite <- canonicalJson_same by (by apply jsonable_without_sig). unfold entrySigningBytes. split.
  - intros E. apply utf8_encode_inj in E; [|by apply signing_text_well_formed..].
    rewrite !signing_text_eq in E. apply app_inv_head in E. injection E as E.
    apply nul_split in E as [-> E]; [|done..]. by apply nul_split in E as [-> E].
  - intros (-> & -> & E). rewrite !signing_text_eq. by rewrite E.
Qed.
End binds.

(** *** Sealing, opening and judging an entry *)

Section seal.
Context `{WebLaws}.

Lemma same_refl v : jsonable v -> same v v.
Proof. intros Hj. by apply canonicalJson_same. Qed.

Lemma same_gets (o o' : obj) :
  jsonable (VObj o) -> (forall k, obj_get o k = obj_get o' k) -> same (VObj o) (VObj o').
Proof.
  intros Hj E. constructor. intros k. rewrite <- E. destruct (obj_get o k) eqn:Ek; constructor.
  by eapply same_refl, jsonable_get.
Qed.

Lemma same_without_sig (o o' : obj) :
  same (VObj o) (VObj o') -> same (without_sig (VObj o)) (without_sig (VObj o')).
Proof.
  inversion 1 as [? ? Hno|?|? ? Hg]; subst; [by destruct (Hno o')|]. constructor. intros k.
  cbn [own_props]. rewrite !obj_get_filter_key. case_match; [constructor|apply Hg].
Qed.

Lemma signing_bytes_same group hid e1 e2 :
  signable e1 -> signable e2 -> same (without_sig e1) (without_sig e2) ->
  entrySigningBytes group hid e1 = entrySigningBytes group hid e2.
Proof.
  intros H1 H2 Hs. unfold entrySigningBytes. rewrite !signing_text_eq.
  rewrite (proj2 (canonicalJson_same _ _ (jsonable_without_sig _ H1) (jsonable_without_sig _ H2)) Hs). done.
Qed.

Lemma without_sig_put (o : obj) s :
  jsonable (VObj o) -> same (without_sig (VObj o)) (without_sig (VObj (obj_put o (js "sig") (VStr s)))).
Proof.
  intros Hj. apply same_gets; [by apply jsonable_filter|]. intros k. cbn [own_props].
  rewrite !obj_get_filter_key, obj_get_put. by destruct (str_eqb (js "sig") k).
Qed.

(** A blob opens under its key. *)
Lemma decrypt_encrypt key iv data :
  length iv = 12%nat -> decryptBlob key (encryptBlob key iv data) = Ok data.
Proof.
  intros Hl. unfold decryptBlob, encryptBlob.
  rewrite take_app_length', drop_app_length' by done. by rewrite aes_roundtrip.
Qed.

Lemma b64_dec_enc l : Forall byte l -> b64_dec (VStr (b64_enc l)) = Ok l.
Proof. intros Hl. rewrite b64_enc_btoa. by apply atob_btoa. Qed.

Lemma encrypt_bytes key iv data :
  Forall byte iv -> Forall byte data -> Forall byte (encryptBlob key iv data).
Proof. intros Hi Hd. apply Forall_app. split; [done|by apply aes_bytes]. Qed.

(** What was printed, encoded, sealed, opened, decoded and parsed. *)
Lemma open_sealed_text key iv v :
  length iv = 12%nat -> jsonable v ->
  rbind (decryptBlob key (encryptBlob key iv (utf8_encode (stringify v))))
    (fun plain => json_parse (text_decode plain)) = Ok (rebuild v).
Proof.
  intros Hl Hj. rewrite decrypt_encrypt by done. cbn [rbind].
  rewrite text_roundtrip; [by apply json_parse_stringify|by apply stringify_well_formed|by apply stringify_no_bom].
Qed.

(** The opened form of an object. *)
Lemma rebuild_get (o : obj) k :
  jsonable (VObj o) -> exists o', rebuild (VObj o) = VObj o' /\ obj_get o' k = rebuild <$> obj_get o k.
Proof.
  intros [Hn _]%jsonable_obj. exists (put_all o []). rewrite rebuild_obj. split; [done|].
  rewrite put_all_get by done. by destruct (obj_get o k).
Qed.

Lemma obj_get_spread_other (o1 o2 : obj) k : obj_get o2 k = None -> obj_get (obj_spread o1 o2) k = obj_get o1 k.
Proof.
  unfold obj_spread. revert o1. induction o2 as [|[k' v] o2 IH]; intros o1; cbn; [done|].
  destruct (str_eqb k' k) eqn:E; [done|]. intros Hn. rewrite IH by done. by rewrite obj_get_put, E.
Qed.

Lemma obj_get_spread (o1 o2 : obj) k v :
  NoDup (obj_keys o2) -> obj_get o2 k = Some v -> obj_get (obj_spread o1 o2) k = Some v.
Proof.
  unfold obj_spread. revert o1. induction o2 as [|[k' v'] o2 IH]; intros o1; cbn; [done|].
  intros [Hk Hn]%NoDup_cons. destruct (str_eqb k' k) eqn:E; [|by apply IH].
  intros [= ->]. apply str_eqb_eq in E as ->.
  fold (obj_spread (obj_put o1 k v) o2). rewrite obj_get_spread_other by (by apply obj_get_None).
  by rewrite obj_get_put, str_eqb_refl.
Qed.

Definition body_of (entry : obj) : obj := obj_spread [(js "v", LOG_ENTRY_VERSION)] entry.

Lemma jsonable_body entry : jsonable (VObj entry) -> jsonable (VObj (body_of entry)).
Proof.
  apply jsonable_spread, jsonable_obj. split; [apply NoDup_singleton|].
  apply Forall_singleton. split; [|by exists 1]. repeat constructor.
Qed.

Lemma unit16_sextets l : Forall byte l -> Forall unit16 (b64_enc l).
Proof.
  intros Hl. rewrite b64_enc_btoa, btoa_groups. apply Forall_app. split.
  - apply Forall_map. eapply Forall_impl; [by apply groups_small|]. intros v Hv.
    cbn beta in Hv. unfold compose, unit16, b64_char. repeat case_match; lia.
  - unfold padding. repeat case_match; repeat constructor; unfold unit16; lia.
Qed.

Lemma jsonable_sealed group hid entry :
  jsonable (VObj entry) -> jsonable (VObj (sealed_entry group hid entry)).
Proof.
  intros Hj. apply jsonable_put; [by apply jsonable_body|repeat constructor|].
  apply unit16_sextets, sign_bytes.
Qed.

(** The author's own client opens what it sealed, to the same entry. *)
Lemma open_seal hkey group hid entry iv :
  jsonable (VObj entry) -> Forall byte hkey -> length iv = 12%nat -> Forall byte iv ->
  exists payload,
    sealLogEntry (b64_enc hkey) group hid entry iv = Ok payload /\
    openLogEntry (VStr (b64_enc hkey)) (VStr payload) = Ok (rebuild (VObj (sealed_entry group hid entry))).
Proof.
  intros Hj Hk Hl Hi. unfold sealLogEntry, openLogEntry. rewrite !b64_dec_enc by done. cbn [rbind].
  eexists. split; [reflexivity|]. rewrite b64_dec_enc by (by apply encrypt_bytes, json_bytes, jsonable_sealed).
  cbn [rbind]. by apply open_sealed_text, jsonable_sealed.
Qed.

(** The bytes a reader checks are the bytes the author signed. *)
Lemma opened_signing_bytes group hid entry :
  jsonable (VObj entry) ->
  entrySigningBytes group hid (rebuild (VObj (sealed_entry group hid entry))) =
  entrySigningBytes group hid (VObj (body_of entry)).
Proof.
  intros Hj. pose proof (jsonable_sealed group hid entry Hj) as Hs.
  pose proof (jsonable_body entry Hj) as Hb. pose proof (jsonable_rebuild _ Hs) as Hr.
  rewrite rebuild_obj in *. rewrite <- (signing_bytes_same group hid (VObj (sealed_entry group hid entry)));
    [|done|done|].
  - symmetry. apply signing_bytes_same; [done|done|]. by apply without_sig_put.
  - apply same_without_sig. rewrite <- rebuild_obj. by apply same_rebuild.
Qed.

(** The fields a reader finds in the opened entry. *)
Lemma opened_value group hid entry k v :
  jsonable (VObj entry) -> js "sig" <> js k -> obj_get entry (js k) = Some v ->
  getq (rebuild (VObj (sealed_entry group hid entry))) k = rebuild v.
Proof.
  intros Hj Hk Hg. pose proof (jsonable_sealed group hid entry Hj) as Hs.
  destruct (rebuild_get _ (js k) Hs) as (o' & -> & E). unfold getq. cbn [prop]. rewrite E.
  unfold sealed_entry. rewrite obj_get_put, (proj2 (str_eqb_neq _ _) Hk).
  apply jsonable_obj in Hj as [Hn _]. by rewrite (obj_get_spread _ _ _ _ Hn Hg).
Qed.

Lemma opened_absent group hid entry k :
  jsonable (VObj entry) -> js "sig" <> js k -> js "v" <> js k -> obj_get entry (js k) = None ->
  getq (rebuild (VObj (sealed_entry group hid entry))) k = proto_method [] (js k).
Proof.
  intros Hj Hk Hv Hg. pose proof (jsonable_sealed group hid entry Hj) as Hs.
  destruct (rebuild_get _ (js k) Hs) as (o' & -> & E). unfold getq. cbn [prop]. rewrite E.
  unfold sealed_entry. rewrite obj_get_put, (proj2 (str_eqb_neq _ _) Hk).
  rewrite (obj_get_spread_other _ _ _ Hg). cbn [obj_get]. by rewrite (proj2 (str_eqb_neq _ _) Hv).
Qed.

Lemma opened_sig group hid entry :
  jsonable (VObj entry) ->
  getq (rebuild (VObj (sealed_entry group hid entry))) "sig" =
    VStr (b64_enc (sign (entrySigningBytes group hid (VObj (body_of entry))))).
Proof.
  intros Hj. pose proof (jsonable_sealed group hid entry Hj) as Hs.
  destruct (rebuild_get _ (js "sig") Hs) as (o' & -> & E). unfold getq. cbn [prop]. rewrite E.
  unfold sealed_entry. by rewrite obj_get_put, str_eqb_refl.
Qed.

Lemma b64_enc_nonempty l : l <> [] -> truthy (VStr (b64_enc l)) = true.
Proof. intros Hl. rewrite b64_enc_btoa. by destruct l as [|? [|? [|? ?]]]. Qed.

(** A reader whose directory holds the author's key accepts it. *)
Lemma opened_signed group hid entry keys who pub :
  jsonable (VObj entry) -> obj_get entry (js "sender") = Some (VStr who) ->
  obj_get keys who = Some (VStr (b64_enc pub)) -> Forall byte pub -> pub <> [] ->
  (forall m, verify pub m (sign m) = true) ->
  verifyEntries group hid [rebuild (VObj (sealed_entry group hid entry))] (VObj keys) = Ok [signed].
Proof.
  intros Hj Hs Hd Hp Hne Hv. assert (js "sig" <> js "sender") as Hns by (by apply str_eqb_neq).
  pose proof (opened_value group hid entry "sender" _ Hj Hns Hs) as Ef. change (rebuild (VStr who)) with (VStr who) in Ef.
  pose proof (opened_sig group hid entry Hj) as Eg. pose proof (opened_signing_bytes group hid entry Hj) as Em.
  unfold verifyEntries. cbn [rmap]. unfold pre_verdict. rewrite Eg, Ef, Em. rewrite rebuild_obj.
  cbn [truthy is_str negb orb nullish to_string rbind prop]. rewrite Hd. cbn [from_option id].
  rewrite b64_enc_nonempty by done. cbn [negb]. rewrite !b64_dec_enc by (done || apply sign_bytes).
  cbn [rbind]. unfold checks_of, verifyBatch.
  cbn [omap list_omap fmap list_fmap fill head tail from_option id ck_key ck_message ck_sig].
  rewrite Hv. reflexivity.
Qed.

(** C26: an entry sealed with a channel's key opens under it to the same
    fields, with a signature every reader whose directory holds the author's
    key accepts; nothing on the way (base64, the cipher, UTF-8, JSON and the
    order of the keys) turns an honest entry into a forged one. *)
Theorem seal_open_verifies hkey group hid entry iv keys who pub :
  jsonable (VObj entry) -> Forall byte hkey -> length iv = 12%nat -> Forall byte iv ->
  obj_get entry (js "sender") = Some (VStr who) ->
  obj_get keys who = Some (VStr (b64_enc pub)) -> Forall byte pub -> pub <> [] ->
  (forall m, verify pub m (sign m) = true) ->
  exists payload opened,
    sealLogEntry (b64_enc hkey) group hid entry iv = Ok payload /\
    openLogEntry (VStr (b64_enc hkey)) (VStr payload) = Ok opened /\
    same (VObj (sealed_entry group hid entry)) opened /\
    verifyEntries group hid [opened] (VObj keys) = Ok [signed].
Proof.
  intros Hj Hk Hl Hi Hs Hd Hp Hne Hv.
  destruct (open_seal hkey group hid entry iv Hj Hk Hl Hi) as (payload & Es & Eo).
  exists payload, (rebuild (VObj (sealed_entry group hid entry))).
  split_and!; [done|done|by apply same_rebuild, jsonable_sealed|by eapply opened_signed].
Qed.
End seal.

(** *** What each verdict means *)

Section verdicts.
Context `{Web}.

(** What the entry says for itself and what the directory holds: the key, the
    exact bytes and the signature to check. *)
Definition attests (group hid : jstr) (keys entry : val) (ok : bool) : Prop :=
  exists name key sig,
    to_string entry.["sender"] = Ok name /\ b64_dec (prop keys name) = Ok key /\
    b64_dec entry.["sig"] = Ok sig /\ verify key (entrySigningBytes group hid entry) sig = ok.

Definition worth (group hid : jstr) (keys entry : val) (a : auth) : Prop :=
  match a with
  | unsigned => truthy entry = false \/ is_str entry.["sig"] = false
  | unknown => is_str entry.["sig"] = true /\
      (nullish keys = true \/ exists name, to_string entry.["sender"] = Ok name /\ truthy (prop keys name) = false)
  | signed => is_str entry.["sig"] = true /\ attests group hid keys entry true
  | forged => is_str entry.["sig"] = true /\ attests group hid keys entry false
  end.

#[local] Opaque getq entrySigningBytes.

Lemma pre_verdict_worth group hid keys entry v :
  pre_verdict group hid keys entry = Ok v ->
  match v with
  | inl a => worth group hid keys entry a
  | inr c => worth group hid keys entry
               (if verify (ck_key c) (ck_message c) (ck_sig c) then signed else forged)
  end.
Proof.
  unfold pre_verdict. intros E. destruct (truthy entry) eqn:Et; cbn [negb orb] in E; [|injection E as <-; by left].
  destruct (is_str entry.["sig"]) eqn:Es; cbn [negb] in E; [|injection E as <-; by right].
  apply rbind_Ok in E as (name & En & E).
  destruct (truthy (prop keys name)) eqn:Ek; cbn [negb] in E.
  - apply rbind_Ok in E as (k & Hk & E). apply rbind_Ok in E as (s & Hs & E). injection E as <-.
    cbn [ck_key ck_message ck_sig].
    assert (nullish keys = false) as Hn by (by destruct keys).
    rewrite Hn in En. destruct (verify _ _ _) eqn:Ev; (split; [done|]); by exists name, k, s.
  - injection E as <-. split; [done|]. destruct (nullish keys) eqn:Hn; [by left|].
    right. by exists name.
Qed.

(** The answers land on the entries they were asked for. *)
Lemma fill_in_order verdicts :
  fill verdicts (verifyBatch (checks_of verdicts)) =
  (fun v => match v with
            | inl a => a
            | inr c => if verify (ck_key c) (ck_message c) (ck_sig c) then signed else forged
            end) <$> verdicts.
Proof.
  induction verdicts as [|[a|c] r IH]; [done| |]; cbn.
  - f_equal. exact IH.
  - f_equal. exact IH.
Qed.

(** Each entry of a page gets the verdict its own signature earns: signed
    when the key the directory holds under its sender accepts its signature on
    exactly its own signing bytes at this place, forged when that key refuses,
    unknown when the directory holds none, unsigned when there is nothing to
    check. *)
Theorem verdicts_match_entries group hid entries keys vs :
  verifyEntries group hid entries keys = Ok vs -> Forall2 (worth group hid keys) entries vs.
Proof.
  unfold verifyEntries. intros (pre & Hp & E)%rbind_Ok. injection E as <-. rewrite fill_in_order.
  apply rmap_Ok_Forall2 in Hp. apply Forall2_fmap_r. eapply Forall2_impl; [exact Hp|].
  intros entry v E%pre_verdict_worth. by destruct v.
Qed.
End verdicts.

(** *** The directory follows the roster *)

Definition usable (entry : jstr * bytes) : Prop := entry.1 <> [] /\ entry.2 <> [].
Definition encoded (raw : bytes) : val := VStr (b64_enc raw).

Lemma merge_key_usable keys conflicts changed h raw :
  usable (h, raw) ->
  merge_key (keys, conflicts, changed) (h, raw) =
    if strict_eq (prop (VObj keys) h) (encoded raw) then (keys, conflicts, changed)
    else (obj_assign keys h (encoded raw),
          if truthy (prop (VObj keys) h) then conflicts ++ [h] else conflicts, true).
Proof.
  intros [Hh Hr]. cbn in Hh, Hr. unfold merge_key.
  assert (is_empty h || bool_decide (raw = []) = false) as ->; [|done].
  apply orb_false_iff. split; [by destruct h|by apply bool_decide_eq_false].
Qed.

Lemma merge_key_skip st h raw : ~ usable (h, raw) -> merge_key st (h, raw) = st.
Proof.
  intros Hu. destruct st as [[keys conflicts] changed]. unfold merge_key.
  assert (is_empty h || bool_decide (raw = []) = true) as ->; [|done].
  apply orb_true_iff. rewrite bool_decide_eq_true. destruct h; [by left|]. destruct raw; [by right|].
  by destruct Hu.
Qed.

Lemma strict_eq_text v s : strict_eq v (VStr s) = true <-> v = VStr s.
Proof. destruct v; cbn; try done. rewrite str_eqb_eq. naive_solver. Qed.

Lemma obj_get_assign {A} (o : list (jstr * A)) k k' v :
  k <> js "__proto__" -> obj_get (obj_assign o k v) k' = if str_eqb k k' then Some v else obj_get o k'.
Proof.
  intros Hk. unfold obj_assign. rewrite (proj2 (str_eqb_neq k _) Hk). cbn [andb]. apply obj_get_put.
Qed.

Definition own_text (o : obj) (k s : jstr) : Prop := obj_get o k = Some (VStr s).

Lemma prop_own_text (o : obj) k s : k <> js "__proto__" -> prop (VObj o) k = VStr s <-> own_text o k s.
Proof.
  intros Hk. unfold own_text. cbn [prop]. destruct (obj_get o k); cbn [from_option id]; [naive_solver|].
  unfold proto_method. rewrite (proj2 (str_eqb_neq k _) Hk). by case_match.
Qed.

(** One roster entry, on the directory alone. *)
Lemma merge_key_gets keys conflicts changed h raw keys' conflicts' changed' k :
  h <> js "__proto__" ->
  merge_key (keys, conflicts, changed) (h, raw) = (keys', conflicts', changed') ->
  (usable (h, raw) -> own_text keys' h (b64_enc raw)) /\
  (k <> h -> obj_get keys' k = obj_get keys k) /\
  (changed' = false -> keys' = keys /\ conflicts' = conflicts /\ changed = false).
Proof.
  intros Hp E. destruct (decide (usable (h, raw))) as [Hu|Hu].
  - rewrite merge_key_usable in E by done. destruct (strict_eq _ _) eqn:Es; simplify_eq.
    + apply strict_eq_text, prop_own_text in Es; [|done]. by split_and!.
    + split_and!; [intros _|intros Hk|done].
      * unfold own_text. by rewrite obj_get_assign, str_eqb_refl.
      * rewrite obj_get_assign by done. by rewrite (proj2 (str_eqb_neq h k) (not_eq_sym Hk)).
  - rewrite merge_key_skip in E by done. by simplify_eq.
Qed.

(** A handle whose held key is another one. *)
Definition conflicting (keys : obj) (e : jstr * bytes) : Prop :=
  usable e /\ truthy (prop (VObj keys) e.1) = true /\ prop (VObj keys) e.1 <> encoded e.2.

#[global] Instance conflicting_dec keys e : Decision (conflicting keys e).
Proof.
  unfold conflicting. destruct (strict_eq (prop (VObj keys) e.1) (encoded e.2)) eqn:E.
  - apply strict_eq_text in E. right. naive_solver.
  - assert (prop (VObj keys) e.1 <> encoded e.2) as Hn.
    { intros Hs. unfold encoded in *. rewrite Hs in E. cbn in E. by rewrite str_eqb_refl in E. }
    destruct (decide (usable e)); [|right; tauto].
    destruct (truthy _); [by left|right; naive_solver].
Defined.

Lemma merge_key_conflicts keys conflicts changed h raw :
  (merge_key (keys, conflicts, changed) (h, raw)).1.2 =
    conflicts ++ (if decide (conflicting keys (h, raw)) then [h] else []).
Proof.
  destruct (decide (usable (h, raw))) as [Hu|Hu].
  - rewrite merge_key_usable by done. destruct (strict_eq _ _) eqn:Es.
    + apply strict_eq_text in Es. rewrite decide_False by (by intros (_ & _ & Hn)). by rewrite app_nil_r.
    + cbn [fst snd]. destruct (truthy _) eqn:Et.
      * rewrite decide_True; [done|]. split_and!; [done|done|]. cbn [fst snd]. intros Hs.
        apply (strict_eq_text _ (b64_enc raw)) in Hs. unfold encoded in Es. congruence.
      * rewrite decide_False by (intros (_ & Ht & _); cbn [fst] in Ht; congruence). by rewrite app_nil_r.
  - rewrite merge_key_skip by done. rewrite decide_False by (by intros []). by rewrite app_nil_r.
Qed.

Lemma conflicting_agree keys keys' e :
  obj_get keys' e.1 = obj_get keys e.1 -> conflicting keys' e <-> conflicting keys e.
Proof. intros E. unfold conflicting. cbn [prop]. by rewrite E. Qed.

Lemma filter_agree {A} (P Q : A -> Prop) `{!forall x, Decision (P x), !forall x, Decision (Q x)} l :
  Forall (fun x => P x <-> Q x) l -> filter P l = filter Q l.
Proof.
  induction 1 as [|x l Hx Hl IH]; [done|]. rewrite !filter_cons, IH. repeat case_decide; naive_solver.
Qed.

Lemma merge_fold roster keys conflicts changed keys' conflicts' changed' :
  fold_left merge_key roster (keys, conflicts, changed) = (keys', conflicts', changed') ->
  NoDup roster.*1 -> js "__proto__" ∉ roster.*1 ->
  (forall e, e ∈ roster -> usable e -> own_text keys' e.1 (b64_enc e.2)) /\
  (forall k, k ∉ roster.*1 -> obj_get keys' k = obj_get keys k) /\
  conflicts' = conflicts ++ (filter (conflicting keys) roster).*1 /\
  (changed' = false -> keys' = keys /\ changed = false).
Proof.
  revert keys conflicts changed. induction roster as [|[h raw] roster IH]; intros keys conflicts changed E.
  { cbn in E. simplify_eq. intros _ _. split_and!; [by intros ? []%elem_of_nil|done| |done].
    by rewrite app_nil_r. }
  rewrite fmap_cons. cbn [fst]. intros [Hh Hn]%NoDup_cons [Hp Hps]%not_elem_of_cons.
  cbn [fold_left] in E. destruct (merge_key _ _) as [[keys1 conflicts1] changed1] eqn:E1.
  pose proof (merge_key_conflicts keys conflicts changed h raw) as Hc. rewrite E1 in Hc. cbn [fst snd] in Hc.
  pose proof (fun k => merge_key_gets _ _ _ _ _ _ _ _ k (not_eq_sym Hp) E1) as Hg.
  destruct (IH _ _ _ E Hn Hps) as (I1 & I2 & I3 & I4).
  assert (obj_get keys' h = obj_get keys1 h) as Hkeep by (by apply I2).
  split_and!.
  - intros e [->|He]%elem_of_cons Hu; [|by apply I1]. unfold own_text. cbn [fst snd]. rewrite Hkeep.
    by apply (Hg h).
  - intros k [Hkh Hk]%not_elem_of_cons. rewrite I2 by done. by apply (Hg k).
  - rewrite I3, Hc, <- app_assoc. f_equal. rewrite filter_cons.
    assert (filter (conflicting keys1) roster = filter (conflicting keys) roster) as ->.
    { apply filter_agree, Forall_forall. intros e He. apply conflicting_agree. apply (Hg e.1).
      intros E'. apply Hh. rewrite <- E'. by apply list_elem_of_fmap_2. }
    by destruct (decide _).
  - intros Hf. apply I4 in Hf as [-> Hf]. by apply (Hg h) in Hf as (-> & _ & ->).
Qed.

Lemma merge_fold_idle roster keys :
  (forall e, e ∈ roster -> usable e -> own_text keys e.1 (b64_enc e.2)) ->
  fold_left merge_key roster (keys, [], false) = (keys, [], false).
Proof.
  intros Hall. induction roster as [|[h raw] roster IH]; [done|]. cbn [fold_left].
  assert (merge_key (keys, [], false) (h, raw) = (keys, [], false)) as ->.
  - destruct (decide (usable (h, raw))) as [Hu|Hu]; [|by apply merge_key_skip].
    rewrite merge_key_usable by done. unfold encoded. rewrite (proj2 (strict_eq_text _ _)); [done|].
    cbn [prop]. pose proof (Hall (h, raw) (list_elem_of_here _ _) Hu) as Ho. unfold own_text in Ho.
    cbn [fst snd] in Ho. by rewrite Ho.
  - apply IH. intros e He. apply Hall. by right.
Qed.

(** After a roster is folded in, the directory holds the roster's key
    under every handle the roster names and keeps every other handle's key;
    the conflicts are exactly the handles, in roster order, that already read
    as another key; and folding the same roster again changes and reports
    nothing. *)
Theorem directory_follows_roster keys roster keys' changed conflicts :
  NoDup roster.*1 -> js "__proto__" ∉ roster.*1 ->
  mergeKeyDirectory keys roster = (keys', changed, conflicts) ->
  (forall h raw, (h, raw) ∈ roster -> h <> [] -> raw <> [] ->
     obj_get (keyDirectory keys') h = Some (VStr (b64_enc raw))) /\
  (forall h, h ∉ roster.*1 -> obj_get (keyDirectory keys') h = obj_get (keyDirectory keys) h) /\
  conflicts = (filter (conflicting (keyDirectory keys)) roster).*1 /\
  mergeKeyDirectory keys' roster = (keys', false, []).
Proof.
  intros Hn Hp E. unfold mergeKeyDirectory in E. fold (keyDirectory keys) in E.
  destruct (fold_left _ _ _) as [[merged cs] ch] eqn:Ef.
  destruct (merge_fold _ _ _ _ _ _ _ Ef Hn Hp) as (I1 & I2 & I3 & I4). cbn [app] in I3.
  assert (merged = keyDirectory keys') as Em.
  { destruct ch; simplify_eq; [done|]. by destruct I4. }
  assert (changed = ch /\ conflicts = cs) as [-> ->] by (by simplify_eq). rewrite Em in I1, I2.
  split_and!; [|exact I2|exact I3|].
  - intros h raw Hin Hh Hr. by apply (I1 (h, raw)).
  - unfold mergeKeyDirectory. fold (keyDirectory keys'). rewrite merge_fold_idle by exact I1. done.
Qed.

Lemma directory_follows_roster_witness :
  (mergeKeyDirectory (Some [(js "ada", VStr (js "AQ=="))]) [(js "ada", [2%N]); (js "bob", [3%N])]).2 = [js "ada"].
Proof.
  destruct (mergeKeyDirectory _ _) as [[k c] l] eqn:E. cbn [snd].
  apply directory_follows_roster in E as (_ & _ & -> & _).
  - vm_compute. reflexivity.
  - by apply (bool_decide_unpack _); vm_compute.
  - by apply (bool_decide_unpack _); vm_compute.
Defined.

(** A directory is a plain object, so a handle that names an inherited
    method, such as constructor, is reported as a key conflict the first time
    it is seen. *)
Theorem inherited_handle_conflicts :
  mergeKeyDirectory None [(js "constructor", [2%N])]
    = (Some [(js "constructor", VStr (js "Ag=="))], true, [js "constructor"]).
Proof. vm_compute. reflexivity. Qed.

(** *** The circles backup *)

Section backup.
Context `{WebLaws}.

(** A backup sealed under an identity opens under the same identity to
    the record that was sealed. *)
Theorem backup_roundtrip identity record iv :
  jsonable record -> length iv = 12%nat -> Forall byte iv ->
  exists back, openBackup identity (VStr (sealBackup identity record iv)) = Ok back /\ same record back.
Proof.
  intros Hj Hl Hi. exists (rebuild record). split; [|by apply same_rebuild].
  unfold openBackup, sealBackup. rewrite b64_dec_enc by (by apply encrypt_bytes, json_bytes).
  cbn [rbind]. by apply open_sealed_text.
Qed.
End backup.

(** ** A concrete platform

    A cipher that does nothing and a signature that is a checksum: enough to
    run the operations. *)
Module Toy.
Definition checksum (m : bytes) : bytes := [foldr (fun b a => (b + a) mod 256)%N 0%N m].

#[export] Instance web : Web := {|
  aes_encrypt := fun _ _ data => data;
  aes_decrypt := fun _ _ data => Some data;
  sha256 := fun m => take 32 ((fun b => b mod 256)%N <$> m ++ replicate 32 0%N);
  text_decode := utf16_of_utf8;
  sign := checksum;
  verify := fun _ m s => bool_decide (s = checksum m);
|}.

#[export] Instance laws : WebLaws.
Proof.
  split; cbn; [done|done|by intros; apply utf8_decode_encode|].
  intros m. apply Forall_singleton. unfold byte. destruct m; cbn; [lia|]. by apply N.mod_lt.
Qed.

Definition key : bytes := [7%N; 7%N].
Definition iv : bytes := replicate 12 9%N.
Definition entry : obj :=
  [(js "sender", VStr (js "ada")); (js "text", VStr (js "hi")); (js "ts", VNum (int 5))].
Definition keys : obj := [(js "ada", VStr (b64_enc [1%N; 2%N]))].
End Toy.

Module ToyFacts.
Export Toy.

Lemma entry_jsonable : jsonable (VObj entry).
Proof.
  apply jsonable_obj. split; [by apply (bool_decide_unpack _); vm_compute|].
  repeat constructor; cbn; try (by exists 5); repeat constructor.
Qed.

Lemma iv_bytes : Forall byte iv.
Proof. repeat constructor. Qed.
End ToyFacts.
Import ToyFacts.

Lemma signature_binds_witness :
  entrySigningBytes (js "g") (js "h") (VObj entry) <> entrySigningBytes (js "g") (js "other") (VObj entry).
Proof.
  intros E. apply signature_binds in E as (_ & E & _); try exact entry_jsonable; try done;
    (split; [by apply (bool_decide_unpack _); vm_compute|done]).
Defined.

Lemma seal_open_verifies_witness :
  exists payload opened,
    sealLogEntry (b64_enc key) (js "g") (js "h") entry iv = Ok payload /\
    openLogEntry (VStr (b64_enc key)) (VStr payload) = Ok opened /\
    same (VObj (sealed_entry (js "g") (js "h") entry)) opened /\
    verifyEntries (js "g") (js "h") [opened] (VObj keys) = Ok [signed].
Proof.
  apply (seal_open_verifies key (js "g") (js "h") entry iv keys (js "ada") [1%N; 2%N]);
    [exact entry_jsonable|repeat constructor|done|exact iv_bytes|done|done|repeat constructor|done|].
  intros m. by apply bool_decide_eq_true.
Defined.

Lemma verdicts_match_entries_witness :
  Forall2 (worth (js "g") (js "h") (VObj keys))
    [VObj entry; VObj (sealed_entry (js "g") (js "h") entry); VObj (sealed_entry (js "g") (js "i") entry)]
    [unsigned; signed; forged].
Proof. apply verdicts_match_entries. vm_compute. reflexivity. Defined.

Lemma backup_roundtrip_witness :
  exists back, openBackup key (VStr (sealBackup key (VObj entry) iv)) = Ok back /\ same (VObj entry) back.
Proof. apply backup_roundtrip; [exact entry_jsonable|done|exact iv_bytes]. Defined.

(** An entry that names an inherited method as its sender stops the whole
    page: the directory answers with a function, base64 decoding throws, and
    no entry of the page gets a verdict. *)
Theorem inherited_sender_stops_page :
  verifyEntries (js "g") (js "h")
    [VObj (sealed_entry (js "g") (js "h") entry);
     jobj [("sender", VStr (js "constructor")); ("sig", VStr (js "AQ=="))]] (VObj keys) = Throw OtherError.
Proof. vm_compute. reflexivity. Qed.
