(* ===== verification/Desk.v ===== *)
(** * Request tables

    The relay connection (relay.js) and the crypto worker's client (rpc.js)
    share a scheme: a counter numbers the requests, a [Map] from number to
    promise holds those still waiting, and a request leaves the table when it
    is answered.  What a caller relies on is stated here once, against an
    interface: no request is lost, none is answered twice, and numbers are
    never reused.  The two components discharge the interface. *)

From stdpp Require Import base list list_numbers numbers option.
From Stdlib Require Import ZArith Lia Sorting.Permutation.
From S2P Require Import Prelude JsNum JsString JsValue.
Open Scope Z_scope.

Lemma seqZ_one m : seqZ m 1 = [m].
Proof. done. Qed.

(** A machine that numbers requests: [settles o] is the request an output
    answers, if it answers one. *)
Class Desk (S I O : Type) := {
  desk_step : S -> I -> S * list O;
  desk_next : S -> Z;
  desk_waiting : S -> list Z;
  settles : O -> option Z;
}.

(** Numbers are handed out in order. *)
Definition desk_ok {S I O : Type} `{Desk S I O} (s : S) : Prop := Forall (fun rid => rid < desk_next s) (desk_waiting s).

(** The requests a step numbered and those that were waiting are, after it,
    waiting or answered, each once. *)
Class DeskLaws (S I O : Type) `{!Desk S I O} := {
  desk_conserves : forall s i s' os,
    desk_ok s -> desk_step s i = (s', os) ->
    desk_next s <= desk_next s' /\
    desk_waiting s ++ seqZ (desk_next s) (desk_next s' - desk_next s)
      ≡ₚ desk_waiting s' ++ omap settles os;
}.

Section desk.
Context {S I O : Type} `{DeskLaws S I O}.

(** A run over a sequence of inputs, with everything it put out. *)
Fixpoint desk_run (s : S) (inputs : list I) : S * list O :=
  match inputs with
  | [] => (s, [])
  | i :: r => let '(s1, o1) := desk_step s i in let '(s2, o2) := desk_run s1 r in (s2, o1 ++ o2)
  end.

Lemma desk_ok_step s i s' os : desk_ok s -> desk_step s i = (s', os) -> desk_ok s'.
Proof.
  unfold desk_ok. intros Hok E. destruct (desk_conserves _ _ _ _ Hok E) as [Hn Hp].
  assert (Forall (fun rid => rid < desk_next s') (desk_waiting s' ++ omap settles os)) as Hall.
  { rewrite <- Hp. apply Forall_app. split.
    - rewrite Forall_forall in Hok |- *. intros rid Hr. specialize (Hok rid Hr). cbn in Hok. lia.
    - apply Forall_seqZ. lia. }
  by apply Forall_app in Hall as [? _].
Qed.

Lemma desk_run_conserves s inputs s' os :
  desk_ok s -> desk_run s inputs = (s', os) ->
  desk_next s <= desk_next s' /\
  desk_waiting s ++ seqZ (desk_next s) (desk_next s' - desk_next s)
    ≡ₚ desk_waiting s' ++ omap settles os.
Proof.
  revert s s' os. induction inputs as [|i r IH]; intros s s' os Hok; cbn [desk_run].
  - intros [= <- <-]. split; [lia|]. by rewrite Z.sub_diag, seqZ_nil by lia.
  - destruct (desk_step s i) as [s1 o1] eqn:E1. destruct (desk_run s1 r) as [s2 o2] eqn:E2.
    intros [= <- <-]. destruct (desk_conserves _ _ _ _ Hok E1) as [Hn1 Hp1].
    destruct (IH _ _ _ (desk_ok_step _ _ _ _ Hok E1) E2) as [Hn2 Hp2]. split; [lia|]. rewrite omap_app.
    replace (desk_next s2 - desk_next s)
      with ((desk_next s1 - desk_next s) + (desk_next s2 - desk_next s1)) by lia.
    rewrite seqZ_app by lia.
    replace (desk_next s + (desk_next s1 - desk_next s)) with (desk_next s1) by lia.
    rewrite (app_assoc (desk_waiting s)), Hp1.
    rewrite <- (app_assoc _ (omap _ _)), (Permutation_app_comm (omap _ _)), app_assoc, Hp2.
    rewrite <- !app_assoc. f_equiv. apply Permutation_app_comm.
Qed.

(** A table opened empty. *)
Definition fresh_desk (s : S) : Prop := desk_next s = 1 /\ desk_waiting s = [].

Lemma fresh_desk_ok s : fresh_desk s -> desk_ok s.
Proof. intros [_ Hw]. unfold desk_ok. rewrite Hw. constructor. Qed.

Lemma desk_run_ok s inputs s' os : desk_ok s -> desk_run s inputs = (s', os) -> desk_ok s'.
Proof.
  revert s s' os. induction inputs as [|i r IH]; intros s s' os Hok; cbn [desk_run]; [by intros [= <- <-]|].
  destruct (desk_step s i) as [s1 o1] eqn:E1. destruct (desk_run s1 r) as [s2 o2] eqn:E2.
  intros [= <- <-]. eapply IH; [|exact E2]. by eapply desk_ok_step.
Qed.

Lemma desk_accounts s inputs s' os :
  fresh_desk s -> desk_run s inputs = (s', os) ->
  desk_waiting s' ++ omap settles os ≡ₚ seqZ 1 (desk_next s' - 1).
Proof.
  intros Hf E. destruct (desk_run_conserves _ _ _ _ (fresh_desk_ok _ Hf) E) as [_ Hp].
  destruct Hf as [Hn Hw]. rewrite Hn, Hw in Hp. cbn [app] in Hp. by symmetry.
Qed.

(** Every numbered request is waiting or answered, never both, and no request
    is answered twice. *)
Lemma desk_once s inputs s' os :
  fresh_desk s -> desk_run s inputs = (s', os) ->
  NoDup (omap settles os) /\
  forall rid, 1 <= rid < desk_next s' ->
    (rid ∈ desk_waiting s' /\ rid ∉ omap settles os) \/ (rid ∉ desk_waiting s' /\ rid ∈ omap settles os).
Proof.
  intros Hf E. pose proof (desk_accounts _ _ _ _ Hf E) as Hp.
  assert (NoDup (desk_waiting s' ++ omap settles os)) as Hnd by (rewrite Hp; apply NoDup_seqZ).
  apply list.NoDup_app in Hnd as (_ & Hd & Hnd). split; [done|]. intros rid Hr.
  assert (rid ∈ desk_waiting s' ++ omap settles os) as Hin by (rewrite Hp; apply elem_of_seqZ; lia).
  apply elem_of_app in Hin as [?|?]; [left|right]; split; auto. intros ?. by eapply Hd.
Qed.
End desk.

(** ** The table itself: a [Map] from request number to what is kept with it *)

Section table.
Context {A : Type}.
Implicit Types t : list (Z * A).

(** [map.get(rid)]. *)
Fixpoint table_get t (rid : Z) : option A :=
  match t with
  | [] => None
  | (k, a) :: r => if k =? rid then Some a else table_get r rid
  end.

(** [map.set(rid, a)]: a new key goes last, an old one keeps its place. *)
Fixpoint table_set t (rid : Z) (a : A) : list (Z * A) :=
  match t with
  | [] => [(rid, a)]
  | (k, b) :: r => if k =? rid then (k, a) :: r else (k, b) :: table_set r rid a
  end.

(** [map.delete(rid)]. *)
Fixpoint table_delete t (rid : Z) : list (Z * A) :=
  match t with
  | [] => []
  | (k, b) :: r => if k =? rid then r else (k, b) :: table_delete r rid
  end.

Lemma table_set_fresh t rid a : rid ∉ t.*1 -> table_set t rid a = t ++ [(rid, a)].
Proof.
  induction t as [|[k b] t IH]; cbn; [done|]. rewrite not_elem_of_cons. intros [Hk Ht].
  destruct (Z.eqb_spec k rid); [congruence|]. by rewrite IH.
Qed.

Lemma table_delete_perm t rid a :
  table_get t rid = Some a -> t.*1 ≡ₚ rid :: (table_delete t rid).*1.
Proof.
  induction t as [|[k b] t IH]; cbn; [done|]. destruct (Z.eqb_spec k rid) as [->|Hk]; [done|].
  intros Ht. cbn. rewrite (IH Ht). apply Permutation_swap.
Qed.

Lemma table_get_None t rid : table_get t rid = None <-> rid ∉ t.*1.
Proof.
  induction t as [|[k b] t IH]; cbn; [split; [intros _; apply not_elem_of_nil|done]|].
  rewrite not_elem_of_cons. destruct (Z.eqb_spec k rid) as [->|Hk]; [naive_solver|]. rewrite IH.
  split; [|tauto]. intros ?. split; [by apply not_eq_sym|done].
Qed.

Lemma table_get_Some t rid : rid ∈ t.*1 -> is_Some (table_get t rid).
Proof.
  intros Hin. destruct (table_get t rid) eqn:E; [by eexists|]. by apply table_get_None in E.
Qed.
End table.

(** The request a number on the wire names: a key of the table is an integer,
    and only the same number matches it. *)
Definition request_number (v : val) : option Z :=
  match v with
  | VNum (Fin z) => if z mod scale =? 0 then Some (z / scale) else None
  | _ => None
  end.

Lemma request_number_int n : request_number (VNum (int n)) = Some n.
Proof.
  assert (0 < scale) as Hs by (apply Z.pow_pos_nonneg; lia).
  unfold request_number, int. by rewrite Z_mod_mult, Z.div_mul by lia.
Qed.

(** A number names at most one request. *)
Lemma request_number_inv v n : request_number v = Some n -> v = VNum (int n).
Proof.
  assert (0 < scale) as Hs by (apply Z.pow_pos_nonneg; lia).
  unfold request_number, int. destruct v as [| | |[]| | | |]; try done.
  case_match eqn:E; [|done]. intros [= <-]. apply Z.eqb_eq in E. do 2 f_equal.
  rewrite Z.mul_comm. by apply Z_div_exact_full_2; [lia|].
Qed.
