(* ===== verification/Rpc.v ===== *)
(** * The crypto worker's client (client/src/lib/rpc.js)

    Calls into the crypto worker: each is numbered, posted and kept until the
    worker answers it; a worker that fails takes every waiting call with it,
    and every later one. *)

From stdpp Require Import base list list_numbers numbers option strings.
From Stdlib Require Import ZArith Lia Sorting.Permutation.
From S2P Require Import Prelude JsNum JsString JsValue Desk.
Open Scope Z_scope.

Module Rpc.

(** The closure's state: [nextId], [pending] (a waiting call is its two
    promise functions), [dead]. *)
Record client := {
  nextId : Z;
  pending : list (Z * unit);
  dead : option jstr;
}.

Definition createCrypto : client := {| nextId := 1; pending := []; dead := None |}.

Inductive input :=
| Call (cmd : jstr) (args : obj)       (** the returned function *)
| OnMessage (data : val)
| OnError (message : option jstr)      (** [e.message] *)
| OnMessageError.

Inductive output :=
| PostMessage (data : val)
| Resolve (id : Z) (result : val)
| Reject (id : Z) (error : val)
| Refuse (error : val).                (** rejected without being numbered *)

Definition killAll (s : client) (message : jstr) : client * list output :=
  ({| nextId := nextId s; pending := []; dead := Some message |},
   (fun e => Reject e.1 (VStr message)) <$> pending s).

Definition onmessage (s : client) (data : val) : client * list output :=
  if nullish data then (s, []) else
  match request_number data.["id"] with
  | None => (s, [])
  | Some id =>
      match table_get (pending s) id with
      | None => (s, [])
      | Some _ =>
          ({| nextId := nextId s; pending := table_delete (pending s) id; dead := dead s |},
           [if truthy data.["ok"] then Resolve id data.["result"] else Reject id data.["error"]])
      end
  end.

Definition onerror (s : client) (message : option jstr) : client * list output :=
  killAll s (js "the encryption worker failed to start: " ++ default (js "unknown error") message).

Definition onmessageerror (s : client) : client * list output :=
  killAll s (js "the encryption worker sent an unreadable message").

Definition call (s : client) (cmd : jstr) (args : obj) : client * list output :=
  match dead s with
  | Some e => (s, [Refuse (VStr e)])
  | None =>
      let id := nextId s in
      ({| nextId := id + 1; pending := table_set (pending s) id (); dead := None |},
       [PostMessage (VObj (obj_spread [(js "id", VNum (int id)); (js "cmd", VStr cmd)] args))])
  end.

Definition step (s : client) (i : input) : client * list output :=
  match i with
  | Call cmd args => call s cmd args
  | OnMessage data => onmessage s data
  | OnError m => onerror s m
  | OnMessageError => onmessageerror s
  end.

(** The call an output answers. *)
Definition answers (o : output) : option Z :=
  match o with Resolve id _ | Reject id _ => Some id | _ => None end.

#[export] Instance desk : Desk client input output :=
  {| desk_step := step; desk_next := nextId; desk_waiting := fun s => (pending s).*1; settles := answers |}.

(** ** Theorems *)

Lemma omap_answers_kill (l : list (Z * unit)) m : omap answers ((fun e => Reject e.1 m) <$> l) = l.*1.
Proof. induction l as [|[k []] l IH]; cbn; [done|]. by f_equal. Qed.

Lemma killAll_conserves s m s' os :
  killAll s m = (s', os) ->
  nextId s <= nextId s' /\
  (pending s).*1 ++ seqZ (nextId s) (nextId s' - nextId s) ≡ₚ (pending s').*1 ++ omap answers os.
Proof.
  intros [= <- <-]. cbn. split; [lia|]. rewrite omap_answers_kill, Z.sub_diag, seqZ_nil by lia.
  by rewrite app_nil_r.
Qed.

#[export] Instance desk_laws : DeskLaws client input output.
Proof.
  split. intros s i s' os Hok E. unfold desk_ok in Hok. cbn in Hok |- *.
  destruct i as [cmd args|data|m|]; cbn [desk_step desk step] in E; [| |by eapply killAll_conserves..].
  - unfold call in E. destruct (dead s); simplify_eq; cbn.
    + split; [lia|]. by rewrite Z.sub_diag, seqZ_nil by lia.
    + split; [lia|]. rewrite table_set_fresh.
      * rewrite fmap_app. cbn. replace (nextId s + 1 - nextId s) with 1 by lia.
        by rewrite app_nil_r, seqZ_one.
      * rewrite Forall_forall in Hok. intros Hin%Hok. lia.
  - assert (forall o : list Z, o = [] -> nextId s <= nextId s /\
      (pending s).*1 ++ seqZ (nextId s) (nextId s - nextId s) ≡ₚ (pending s).*1 ++ o) as Hsame.
    { intros o ->. split; [lia|]. by rewrite Z.sub_diag, seqZ_nil by lia. }
    unfold onmessage in E. destruct (nullish data); [simplify_eq; by apply Hsame|].
    destruct (request_number _) as [id|]; [|simplify_eq; by apply Hsame].
    destruct (table_get _ id) as [u|] eqn:Eg; [|simplify_eq; by apply Hsame]. simplify_eq. cbn. split; [lia|].
    rewrite Z.sub_diag, seqZ_nil, app_nil_r by lia. rewrite (table_delete_perm _ _ _ Eg).
    destruct (truthy _); cbn; by rewrite Permutation_app_comm.
Qed.

Lemma fresh_start : fresh_desk createCrypto.
Proof. done. Qed.

(** Every call made to the worker is either still waiting or was settled,
    never both, and none is settled twice, whatever the worker sends. *)
Theorem calls_settle_once inputs s os :
  desk_run createCrypto inputs = (s, os) ->
  NoDup (omap answers os) /\
  forall id, 1 <= id < nextId s ->
    (id ∈ (pending s).*1 /\ id ∉ omap answers os) \/ (id ∉ (pending s).*1 /\ id ∈ omap answers os).
Proof. exact (desk_once createCrypto inputs s os fresh_start). Qed.

Lemma calls_settle_once_witness :
  NoDup (omap answers (desk_run createCrypto
    [Call (js "boot") []; Call (js "sign") []; OnMessage (jobj [("id", VNum (int 1)); ("ok", VBool true)]);
     OnMessage (jobj [("id", VNum (int 1)); ("ok", VBool true)]); OnMessageError]).2).
Proof.
  eapply (proj1 (calls_settle_once _ _ _ (surjective_pairing _))).
Defined.

Lemma dead_stays s i : dead s <> None -> pending s = [] ->
  dead (step s i).1 <> None /\ pending (step s i).1 = [].
Proof.
  intros Hd Hp. destruct i; cbn [step]; [| |by split..].
  - unfold call. destruct (dead s) eqn:E; cbn; [by rewrite E|done].
  - unfold onmessage. rewrite Hp. destruct (nullish data); [done|]. by destruct (request_number _).
Qed.

Lemma dead_stays_run inputs s : dead s <> None -> pending s = [] ->
  dead (desk_run s inputs).1 <> None /\ pending (desk_run s inputs).1 = [].
Proof.
  revert s. induction inputs as [|i r IH]; intros s Hd Hp; [done|]. cbn [desk_run].
  destruct (dead_stays s i Hd Hp) as [Hd' Hp']. specialize (IH _ Hd' Hp').
  change (desk_step s i) with (step s i). destruct (step s i) as [s1 o1]. cbn [fst] in *.
  destruct (desk_run s1 r). done.
Qed.

(** Once the worker has failed, nothing waits any more: every call that
    was waiting has been rejected, and every later call is refused at once. *)
Theorem dead_worker_strands_nobody before failure after s os cmd args :
  (exists m, failure = OnError m) \/ failure = OnMessageError ->
  desk_run createCrypto (before ++ failure :: after) = (s, os) ->
  (forall id, 1 <= id < nextId s -> id ∈ omap answers os) /\
  exists e, call s cmd args = (s, [Refuse (VStr e)]).
Proof.
  intros Hf E.
  assert (dead s <> None /\ pending s = []) as [Hd Hp].
  { revert E. generalize createCrypto as s0. revert os. induction before as [|i r IH]; intros os s0 E.
    - cbn [app desk_run] in E. destruct (desk_step s0 failure) as [s1 o1] eqn:E1.
      assert (dead s1 <> None /\ pending s1 = []) as [Hd Hp].
      { destruct Hf as [[m ->]| ->]; injection E1 as <- _; done. }
      pose proof (dead_stays_run after s1 Hd Hp) as Hr. destruct (desk_run s1 after). by simplify_eq.
    - cbn [app desk_run] in E. destruct (desk_step s0 i) as [s1 o1].
      destruct (desk_run s1 _) as [s2 o2] eqn:E2. simplify_eq. by eapply IH. }
  split.
  - intros id Hid. destruct (desk_once createCrypto _ _ _ fresh_start E) as [_ Ho].
    destruct (Ho id Hid) as [[Hin _]|[_ Hin]]; [|done]. cbn in Hin. rewrite Hp in Hin. by apply elem_of_nil in Hin.
  - unfold call. destruct (dead s) as [e|]; [by exists e|done].
Qed.

Lemma dead_worker_strands_nobody_witness :
  1 ∈ omap answers (desk_run createCrypto ([Call (js "boot") []] ++ OnError None :: [])).2.
Proof.
  eapply (proj1 (dead_worker_strands_nobody [Call (js "boot") []] (OnError None) [] _ _ [] []
    (or_introl (ex_intro _ None eq_refl)) (surjective_pairing _))).
  vm_compute. split; [discriminate|reflexivity].
Defined.
End Rpc.
