(* ===== verification/Relay.v ===== *)
(** * The relay connection (client/src/lib/relay.js)

    The handshake, numbered requests, the heartbeat and the reconnection with
    backoff, as a machine that reacts to what the socket, the timers and the
    callers do.  A handler that awaits is two inputs: what it asks for is an
    output, and its continuation is a later input. *)

From stdpp Require Import base list list_numbers numbers option strings relations.
From Stdlib Require Import ZArith NArith Lia Sorting.Permutation.
From S2P Require Import Prelude JsNum JsString JsValue Json Bytes Desk.
Open Scope Z_scope.

Module Relay.

Definition AUTH_CONTEXT : jstr := js "relay-auth-v2".
Definition REQUEST_TIMEOUT_MS : Z := 20000.
Definition PROTOCOL_VERSION : val := VNum (int 1).
Definition BACKOFF_MIN : Z := 500.
Definition BACKOFF_MAX : Z := 15000.

(** A socket object. *)
Notation sock := Z (only parsing).

Record conn := {
  ws : option sock;
  ready : bool;
  nextRid : Z;
  pending : list (Z * jstr);  (** with the [t] its timer would name *)
  backoff : Z;
  closed : bool;
  hb : bool;                  (** the heartbeat interval is running *)
}.

Definition init : conn :=
  {| ws := None; ready := false; nextRid := 1; pending := []; backoff := BACKOFF_MIN; closed := false; hb := false |}.

Definition set_ws w r := {| ws := w; ready := ready r; nextRid := nextRid r; pending := pending r;
  backoff := backoff r; closed := closed r; hb := hb r |}.
Definition set_ready b r := {| ws := ws r; ready := b; nextRid := nextRid r; pending := pending r;
  backoff := backoff r; closed := closed r; hb := hb r |}.
Definition set_pending p r := {| ws := ws r; ready := ready r; nextRid := nextRid r; pending := p;
  backoff := backoff r; closed := closed r; hb := hb r |}.
Definition set_next n r := {| ws := ws r; ready := ready r; nextRid := n; pending := pending r;
  backoff := backoff r; closed := closed r; hb := hb r |}.
Definition set_backoff b r := {| ws := ws r; ready := ready r; nextRid := nextRid r; pending := pending r;
  backoff := b; closed := closed r; hb := hb r |}.
Definition set_closed r := {| ws := ws r; ready := ready r; nextRid := nextRid r; pending := pending r;
  backoff := backoff r; closed := true; hb := hb r |}.
Definition set_hb b r := {| ws := ws r; ready := ready r; nextRid := nextRid r; pending := pending r;
  backoff := backoff r; closed := closed r; hb := b |}.

Inductive output :=
| Status (s : jstr)                    (** [opts.onStatus] *)
| OpenSocket (w : sock)
| Send (w : sock) (text : jstr)
| AskSign (w : sock) (message : bytes) (** [opts.sign], awaited *)
| AuthError (message : val)            (** [opts.onAuthError] *)
| Event (msg : val)                    (** [opts.onEvent] *)
| Resolve (rid : Z) (msg : val)
| Reject (rid : Z) (error : val)
| Refuse (error : val)                 (** a request rejected unnumbered *)
| SendFailed (rid : Z)                 (** no socket to send on *)
| Reconnect (delay : Z)                (** [setTimeout(connect, delay)] *)
| ArmDeadline (rid : Z) (delay : Z)    (** the heartbeat's, for one ping *)
| CloseSocket (w : sock).

Notation reply := (conn * list output)%type.

(** ** The handlers *)

Definition connect (w : sock) (r : conn) : reply :=
  if closed r then (r, []) else (set_ws (Some w) r, [Status (js "connecting"); OpenSocket w]).

(** [ws.onopen], after [getPubkey]; [invite] is [getInvite?.() ?? null]. *)
Definition onopen (name : jstr) (w : sock) (pubkey : bytes) (invite : val) (r : conn) : reply :=
  (r, [Send w (stringify (jobj [("t", VStr (js "hello")); ("user", VStr name);
    ("pubkey", VStr (b64_enc pubkey)); ("invite", invite); ("v", PROTOCOL_VERSION)]))]).

(** A [Uint32], big-endian. *)
Definition be32 (n : N) : bytes :=
  [n / 16777216 mod 256; n / 65536 mod 256; n / 256 mod 256; n mod 256]%N.

(** What proves who answers a challenge. *)
Definition challenge_bytes (name : jstr) (nonce : bytes) : bytes :=
  let n := utf8_encode name in
  utf8_encode AUTH_CONTEXT ++ nonce ++ be32 (N.of_nat (length n)) ++ n.

Definition stopHeartbeat (r : conn) : conn := set_hb false r.
Definition startHeartbeat (r : conn) : conn := set_hb true (stopHeartbeat r).

Definition onmessage (name : jstr) (w : sock) (data : jstr) (r : conn) : reply :=
  match json_parse data with
  | Throw _ => (r, [])
  | Ok msg =>
      if nullish msg then (r, []) else
      let tagged t := strict_eq msg.["t"] (VStr (js t)) in
      if tagged "error" && negb (ready r) then (set_closed r, [AuthError msg.["message"]]) else
      if tagged "challenge" then
        match b64_dec msg.["nonce"] with
        | Throw _ => (r, [])
        | Ok nonce => (r, [AskSign w (challenge_bytes name nonce)])
        end else
      if tagged "ready" then
        (startHeartbeat (set_backoff BACKOFF_MIN (set_ready true r)), [Status (js "online"); Event msg]) else
      match request_number msg.["rid"] with
      | None => (r, [Event msg])
      | Some rid =>
          match table_get (pending r) rid with
          | None => (r, [Event msg])
          | Some _ =>
              (set_pending (table_delete (pending r) rid) r,
               [if tagged "error" then Reject rid msg.["message"] else Resolve rid msg])
          end
      end
  end.

(** The rest of the challenge, once the signature is there. *)
Definition signed_challenge (w : sock) (sig : bytes) (r : conn) : reply :=
  (r, [Send w (stringify (jobj [("t", VStr (js "auth")); ("sig", VStr (b64_enc sig))]))]).

Definition dropped : jstr := js "the connection dropped — reconnecting".

Definition onclose (r : conn) : reply :=
  let rejected := (fun e => Reject e.1 (VStr dropped)) <$> pending r in
  let r1 := set_pending [] (stopHeartbeat (set_ready false r)) in
  if closed r then (r1, rejected ++ [Status (js "offline")])
  else (set_backoff (Z.min (backoff r * 2) BACKOFF_MAX) r1,
        rejected ++ [Status (js "offline"); Reconnect (backoff r)]).

Definition request (t : jstr) (fields : obj) (r : conn) : reply :=
  if negb (ready r) then (r, [Refuse (VStr (js "offline"))]) else
  let rid := nextRid r in
  let msg := obj_put ((js "t", VStr t) :: fields) (js "rid") (VNum (int rid)) in
  (set_pending (table_set (pending r) rid t) (set_next (rid + 1) r),
   [match ws r with Some w => Send w (stringify (VObj msg)) | None => SendFailed rid end]).

(** The timer of a request. *)
Definition timed_out (rid : Z) (r : conn) : reply :=
  match table_get (pending r) rid with
  | None => (r, [])
  | Some t =>
      (set_pending (table_delete (pending r) rid) r,
       [Reject rid (VStr (js "the relay did not answer " ++ [34%N] ++ t ++ [34%N] ++ js " in time"))])
  end.

(** One beat: a ping, and a deadline its answer clears. *)
Definition heartbeat (r : conn) : reply :=
  if negb (ready r) then (r, []) else
  let '(r', o) := request (js "ping") [] r in (r', ArmDeadline (nextRid r) 10000 :: o).

Definition close_ws (r : conn) : list output :=
  match ws r with Some w => [CloseSocket w] | None => [] end.

Definition heartbeat_deadline (r : conn) : reply := (r, close_ws r).

Definition close (r : conn) : reply := let r1 := stopHeartbeat (set_closed r) in (r1, close_ws r1).

Inductive input :=
| Connect (w : sock)
| OnOpen (w : sock) (pubkey : bytes) (invite : val)
| OnMessage (w : sock) (data : jstr)
| Signed (w : sock) (sig : bytes)
| OnClose
| Beat
| Deadline
| Request (t : jstr) (fields : obj)
| TimedOut (rid : Z)
| Close.

Definition step (name : jstr) (r : conn) (i : input) : reply :=
  match i with
  | Connect w => connect w r
  | OnOpen w pubkey invite => onopen name w pubkey invite r
  | OnMessage w data => onmessage name w data r
  | Signed w sig => signed_challenge w sig r
  | OnClose => onclose r
  | Beat => heartbeat r
  | Deadline => heartbeat_deadline r
  | Request t fields => request t fields r
  | TimedOut rid => timed_out rid r
  | Close => close r
  end.

Definition answers (o : output) : option Z :=
  match o with Resolve rid _ | Reject rid _ => Some rid | _ => None end.

(** ** Requests *)

Section requests.
Context (name : jstr).

#[local] Instance desk : Desk conn input output :=
  {| desk_step := step name; desk_next := nextRid; desk_waiting := fun r => (pending r).*1; settles := answers |}.

Lemma omap_answers_reject {A} (l : list (Z * A)) m :
  omap answers ((fun e => Reject e.1 m) <$> l) = l.*1.
Proof. induction l as [|[k a] l IH]; cbn; [done|]. by f_equal. Qed.

(** A step that numbers and answers nothing. *)
Definition quiet (r r' : conn) (os : list output) : Prop :=
  nextRid r' = nextRid r /\ pending r' = pending r /\ omap answers os = [].

Definition conserves (r r' : conn) (os : list output) : Prop :=
  nextRid r <= nextRid r' /\
  (pending r).*1 ++ seqZ (nextRid r) (nextRid r' - nextRid r) ≡ₚ (pending r').*1 ++ omap answers os.

Lemma quiet_conserves r r' os : quiet r r' os -> conserves r r' os.
Proof.
  intros (Hn & Hp & Ho). unfold conserves. rewrite Hn, Hp, Ho. split; [lia|].
  by rewrite Z.sub_diag, seqZ_nil by lia.
Qed.

(** A step that answers one waiting request. *)
Lemma answer_conserves r rid t (o : output) :
  table_get (pending r) rid = Some t -> answers o = Some rid ->
  conserves r (set_pending (table_delete (pending r) rid) r) [o].
Proof.
  intros Hg Ho. unfold conserves. cbn. rewrite Ho. split; [lia|].
  rewrite Z.sub_diag, seqZ_nil, app_nil_r by lia. rewrite (table_delete_perm _ _ _ Hg).
  by rewrite Permutation_app_comm.
Qed.

Lemma onmessage_conserves w data r : conserves r (onmessage name w data r).1 (onmessage name w data r).2.
Proof.
  unfold onmessage. destruct (json_parse data) as [msg|]; [|by apply quiet_conserves].
  destruct (nullish msg); [by apply quiet_conserves|].
  destruct (_ && _); [by apply quiet_conserves|].
  destruct (strict_eq _ _); [destruct (b64_dec _); by apply quiet_conserves|].
  destruct (strict_eq _ _); [by apply quiet_conserves|].
  destruct (request_number _) as [rid|]; [|by apply quiet_conserves].
  destruct (table_get _ _) eqn:Eg; [|by apply quiet_conserves].
  eapply answer_conserves; [exact Eg|]. by destruct (strict_eq _ _).
Qed.

Lemma request_conserves t fields r :
  Forall (fun rid => rid < nextRid r) (pending r).*1 ->
  conserves r (request t fields r).1 (request t fields r).2.
Proof.
  intros Hok. unfold request. destruct (ready r); cbn [negb]; [|by apply quiet_conserves].
  unfold conserves. cbn [fst snd set_pending set_next nextRid pending]. split; [lia|].
  rewrite table_set_fresh by (rewrite Forall_forall in Hok; intros Hin%Hok; lia).
  replace (nextRid r + 1 - nextRid r) with 1 by lia. rewrite seqZ_one, fmap_app. cbn.
  destruct (ws r); by rewrite app_nil_r.
Qed.

Lemma onclose_conserves r : conserves r (onclose r).1 (onclose r).2.
Proof.
  unfold conserves, onclose. destruct (closed r); cbn [fst snd set_backoff set_pending nextRid pending];
    (split; [cbn; lia|]); rewrite omap_app, omap_answers_reject; cbn;
    by rewrite Z.sub_diag, seqZ_nil, !app_nil_r by lia.
Qed.

#[local] Instance desk_laws : DeskLaws conn input output.
Proof.
  split. intros r i r' os Hok E. unfold desk_ok in Hok. cbn in Hok, E |- *.
  change (conserves r r' os).
  assert (r' = (step name r i).1) as -> by (by rewrite E).
  assert (os = (step name r i).2) as -> by (by rewrite E). clear E.
  destruct i; cbn [step]; try (by apply quiet_conserves).
  - unfold connect. destruct (closed r); by apply quiet_conserves.
  - apply onmessage_conserves.
  - apply onclose_conserves.
  - unfold heartbeat. destruct (ready r) eqn:Er; cbn [negb]; [|by apply quiet_conserves].
    pose proof (request_conserves (js "ping") [] r Hok) as Hc. by destruct (request _ _ r).
  - unfold heartbeat_deadline, close_ws. destruct (ws r); by apply quiet_conserves.
  - by apply request_conserves.
  - unfold timed_out. destruct (table_get _ rid) eqn:Eg; [|by apply quiet_conserves].
    by eapply answer_conserves.
  - unfold close, close_ws. cbn. destruct (ws r); by apply quiet_conserves.
Qed.

Definition run (inputs : list input) : conn * list output := desk_run init inputs.

Lemma fresh_init : fresh_desk init.
Proof. done. Qed.

(** C23: every request that got a number is waiting or settled, never both, and
    none is settled twice, in whatever order answers, drops, timeouts and new
    requests come. *)
Theorem requests_settle_once inputs r os :
  run inputs = (r, os) ->
  NoDup (omap answers os) /\
  forall rid, 1 <= rid < nextRid r ->
    (rid ∈ (pending r).*1 /\ rid ∉ omap answers os) \/ (rid ∉ (pending r).*1 /\ rid ∈ omap answers os).
Proof. exact (desk_once init inputs r os fresh_init). Qed.
End requests.

Lemma requests_settle_once_witness :
  NoDup (omap answers (run (js "ada")
    [Connect 1; OnMessage 1 (dq "{'t':'ready'}"); Request (js "send") []; Request (js "logs") [];
     OnMessage 1 (dq "{'t':'ok','rid':1}"); TimedOut 1; OnClose; TimedOut 2]).2) /\
  omap answers (run (js "ada")
    [Connect 1; OnMessage 1 (dq "{'t':'ready'}"); Request (js "send") []; Request (js "logs") [];
     OnMessage 1 (dq "{'t':'ok','rid':1}"); TimedOut 1; OnClose; TimedOut 2]).2 = [1; 2].
Proof.
  split; [eapply (proj1 (requests_settle_once _ _ _ _ (surjective_pairing _)))|]. vm_compute. reflexivity.
Defined.

(** ** The connection and its environment

    The sockets whose [onclose] has not fired and the reconnections that are
    scheduled.  A socket delivers messages only while it lives; the controller
    calls [connect] once. *)

Record world := { w_conn : conn; w_live : list sock; w_timers : nat }.

Definition reconnects (os : list output) : nat :=
  length (omap (fun o => match o with Reconnect _ => Some tt | _ => None end) os).
Definition opened (os : list output) : list sock :=
  omap (fun o => match o with OpenSocket w => Some w | _ => None end) os.

(** What may happen next: the sockets and the timers that are left, and what
    the connection does. *)
Inductive moves (name : jstr) (w : world) : list sock -> nat -> reply -> Prop :=
| scheduled_connect n s : w_timers w = S n -> s ∉ w_live w -> moves name w (w_live w) n (connect s (w_conn w))
| socket_opens s pubkey invite : s ∈ w_live w ->
    moves name w (w_live w) (w_timers w) (onopen name s pubkey invite (w_conn w))
| message_arrives s data : s ∈ w_live w ->
    moves name w (w_live w) (w_timers w) (onmessage name s data (w_conn w))
| signature_done s sig : moves name w (w_live w) (w_timers w) (signed_challenge s sig (w_conn w))
| socket_closes s : s ∈ w_live w ->
    moves name w (filter (fun x => x <> s) (w_live w)) (w_timers w) (onclose (w_conn w))
| heart_beats : hb (w_conn w) = true -> moves name w (w_live w) (w_timers w) (heartbeat (w_conn w))
| deadline_passes : moves name w (w_live w) (w_timers w) (heartbeat_deadline (w_conn w))
| caller_requests t fields : moves name w (w_live w) (w_timers w) (request t fields (w_conn w))
| request_times_out rid : moves name w (w_live w) (w_timers w) (timed_out rid (w_conn w))
| caller_closes : moves name w (w_live w) (w_timers w) (close (w_conn w)).

Definition happens (name : jstr) (w w' : world) : Prop :=
  exists live timers r, moves name w live timers r /\
    w' = {| w_conn := r.1; w_live := opened r.2 ++ live; w_timers := (reconnects r.2 + timers)%nat |}.

(** The controller makes the connection and calls [connect]. *)
Definition boot (s : sock) : world := {| w_conn := (connect s init).1; w_live := [s]; w_timers := 0 |}.

Definition reachable (name : jstr) (w : world) : Prop := exists s, rtc (happens name) (boot s) w.

(** One socket, or none and at most one reconnection on its way. *)
Definition one_path (w : world) : Prop :=
  match w_live w with
  | [s] => ws (w_conn w) = Some s /\ w_timers w = 0%nat
  | [] => ready (w_conn w) = false /\ (w_timers w <= 1)%nat /\ (closed (w_conn w) = false -> w_timers w = 1%nat)
  | _ => False
  end.

Definition sound (w : world) : Prop :=
  one_path w /\
  ws (w_conn w) <> None /\
  (ready (w_conn w) = true -> closed (w_conn w) = false -> hb (w_conn w) = true) /\
  BACKOFF_MIN <= backoff (w_conn w) <= BACKOFF_MAX.

(** A step that leaves the socket, the flags and the backoff alone. *)
Definition steady (r : conn) (p : reply) : Prop :=
  ws p.1 = ws r /\ ready p.1 = ready r /\ closed p.1 = closed r /\ hb p.1 = hb r /\
  backoff p.1 = backoff r /\ opened p.2 = [] /\ reconnects p.2 = 0%nat.

Lemma steady_sound w p :
  sound w -> steady (w_conn w) p ->
  sound {| w_conn := p.1; w_live := opened p.2 ++ w_live w; w_timers := (reconnects p.2 + w_timers w)%nat |}.
Proof.
  intros Hs (Ew & Er & Ec & Eh & Eb & Eo & En). unfold sound, one_path in *. cbn.
  rewrite Ew, Er, Ec, Eh, Eb, Eo, En. exact Hs.
Qed.

Lemma request_steady t fields r : steady r (request t fields r).
Proof. unfold steady, request. destruct (ready r) eqn:E; cbn; [|by split_and!]. by destruct (ws r). Qed.

Lemma onmessage_steady name w data r :
  steady r (onmessage name w data r) \/
  (exists msg, ready r = false /\ onmessage name w data r = (set_closed r, [AuthError msg])) \/
  (exists msg, onmessage name w data r =
     (startHeartbeat (set_backoff BACKOFF_MIN (set_ready true r)), [Status (js "online"); Event msg])).
Proof.
  unfold onmessage. destruct (json_parse data) as [msg|]; [|by left].
  destruct (nullish msg); [by left|]. cbv zeta.
  destruct (strict_eq msg.["t"] (VStr (js "error"))) eqn:Ee; cbn [andb].
  - destruct (ready r) eqn:Er; cbn [negb]; [|right; left; by eexists].
    assert (forall t, str_eqb (js "error") t = false -> strict_eq msg.["t"] (VStr t) = false) as Hne.
    { intros t Ht. destruct (msg.["t"]); try done. cbn in Ee |- *. apply str_eqb_eq in Ee. by rewrite Ee. }
    rewrite !Hne by done. left.
    repeat (case_match; [|try done]); try done.
    all: repeat case_match; done.
  - destruct (strict_eq _ (VStr (js "challenge"))); [left; by destruct (b64_dec _)|].
    destruct (strict_eq _ (VStr (js "ready"))); [right; right; by exists msg|].
    left. destruct (request_number _) as [rid|]; [|done]. by destruct (table_get _ rid).
Qed.

Lemma connect_sound w s n :
  sound w -> w_timers w = S n ->
  let p := connect s (w_conn w) in
  sound {| w_conn := p.1; w_live := opened p.2 ++ w_live w; w_timers := (reconnects p.2 + n)%nat |}.
Proof.
  intros (Hp & Hw & Hh & Hb) Hn. unfold connect, sound, one_path in *. cbv zeta.
  destruct (w_live w) as [|s' [|? ?]] eqn:El; [|by rewrite Hn in Hp; destruct Hp as [_ [=]]|done].
  destruct Hp as (Hr & Ht & Hcl). destruct (closed (w_conn w)) eqn:Ec; cbn.
  - rewrite Ec. split_and!; try done; lia.
  - split_and!; try done; [lia|congruence|lia..].
Qed.

Lemma onclose_sound w s :
  sound w -> s ∈ w_live w ->
  let p := onclose (w_conn w) in
  sound {| w_conn := p.1; w_live := opened p.2 ++ filter (fun x => x <> s) (w_live w);
           w_timers := (reconnects p.2 + w_timers w)%nat |}.
Proof.
  intros (Hp & Hw & Hh & Hb) Hin. unfold sound, one_path in *. cbv zeta.
  destruct (w_live w) as [|s' [|? ?]] eqn:El; [by apply elem_of_nil in Hin| |done].
  apply list_elem_of_singleton in Hin as ->. destruct Hp as [_ Ht]. rewrite filter_cons_False by tauto.
  assert (forall (l : list (Z * jstr)) m os, opened ((fun e => Reject e.1 m) <$> l) ++ opened os = opened os) as Ho.
  { intros l m os. by induction l. }
  assert (forall (l : list (Z * jstr)) m, reconnects ((fun e => Reject e.1 m) <$> l) = 0%nat) as Hr.
  { intros l m. by induction l. }
  unfold onclose, opened, reconnects in *. destruct (closed (w_conn w)) eqn:Ec;
    cbn [fst snd]; rewrite !omap_app, length_app, Ho, Hr, Ht; cbn; rewrite ?Ec; unfold BACKOFF_MIN, BACKOFF_MAX in *;
    split_and!; try done; lia.
Qed.

Lemma happens_sound name w w' : sound w -> happens name w w' -> sound w'.
Proof.
  intros Hs (live & timers & p & Hm & ->). destruct Hm as [n s Hn Hni|s pk inv Hin|s data Hin|s sig|s Hin|Hh| |t f|rid|];
    try (by apply steady_sound).
  - by apply connect_sound.
  - destruct (onmessage_steady name s data (w_conn w)) as [Hst|[(msg & Hr & ->)|[msg ->]]].
    + by apply steady_sound.
    + destruct Hs as (Hp & Hw & Hh & Hb). unfold sound, one_path in *. cbn. split_and!; try done; [|lia..].
      destruct (w_live w) as [|? [|? ?]]; [|tauto..]. split_and!; [tauto|tauto|done].
    + destruct Hs as (Hp & Hw & Hh & Hb). unfold sound, one_path in *. cbn. unfold BACKOFF_MIN, BACKOFF_MAX in *.
      split_and!; try done; try lia.
      destruct (w_live w) as [|? [|? ?]]; [by apply elem_of_nil in Hin|done|done].
  - by apply onclose_sound.
  - apply steady_sound; [done|]. unfold heartbeat. destruct (ready (w_conn w)) eqn:Er; cbn [negb]; [|done].
    pose proof (request_steady (js "ping") [] (w_conn w)) as Hst. destruct (request _ _ _). exact Hst.
  - apply steady_sound; [done|]. unfold heartbeat_deadline, close_ws, steady. cbn.
    destruct (ws (w_conn w)); by split_and!.
  - by apply steady_sound, request_steady.
  - apply steady_sound; [done|]. unfold timed_out. by destruct (table_get _ rid).
  - destruct Hs as (Hp & Hw & Hh & Hb). unfold sound, one_path, close, close_ws in *. cbn.
    destruct (ws (w_conn w)) eqn:Ew; [|done]. cbn. split_and!; try done; try lia.
    destruct (w_live w) as [|? [|? ?]]; cbn; [|tauto..]. split_and!; [tauto|tauto|done].
Qed.

Lemma reachable_sound name w : reachable name w -> sound w.
Proof.
  intros (s & Hr). assert (sound (boot s)) as H0.
  { unfold sound, one_path, boot, BACKOFF_MIN, BACKOFF_MAX. cbn. split_and!; done. }
  induction Hr as [|x y z Hxy _ IH]; [done|]. apply IH. by eapply happens_sound.
Qed.

(** At every moment the client has one socket or one scheduled
    reconnection, never two of anything, and exactly one of them until it is
    closed; it counts itself ready only on the socket it sends on, and while it
    is ready the heartbeat runs; the backoff stays between half a second and
    fifteen seconds. *)
Theorem one_connection name w :
  reachable name w ->
  let r := w_conn w in
  (length (w_live w) + w_timers w <= 1)%nat /\
  (closed r = false -> (length (w_live w) + w_timers w = 1)%nat) /\
  (ready r = true -> exists s, ws r = Some s /\ w_live w = [s]) /\
  (ready r = true -> closed r = false -> hb r = true) /\
  500 <= backoff r <= 15000.
Proof.
  intros (Hp & Hw & Hh & Hb)%reachable_sound. cbv zeta. unfold one_path, BACKOFF_MIN, BACKOFF_MAX in *.
  destruct (w_live w) as [|s [|? ?]]; [| |done]; cbn [length].
  - destruct Hp as (Hr & Ht & Hc). split_and!; try done; try lia; congruence.
  - destruct Hp as (Hs & Ht). split_and!; try done; try lia. intros _. by exists s.
Qed.

(** *** Giving up *)

Definition reopens (o : output) : bool :=
  match o with OpenSocket _ | Reconnect _ => true | _ => false end.

Lemma closed_step name r i :
  closed r = true -> closed (step name r i).1 = true /\ Forall (fun o => reopens o = false) (step name r i).2.
Proof.
  intros Hc. destruct i; cbn [step]; try (by split; [|repeat constructor]).
  - unfold connect. rewrite Hc. by split; [|constructor].
  - destruct (onmessage_steady name w data r) as [Hst|[(msg & _ & ->)|[msg ->]]]; [|by split; [|repeat constructor]..].
    destruct Hst as (_ & _ & Ec & _ & _ & Eo & En). split; [by rewrite Ec|]. apply Forall_forall. intros o Ho.
    destruct o; try done; exfalso.
    + unfold opened in Eo. assert (w0 ∈ omap (fun o => match o with OpenSocket w => Some w | _ => None end) (onmessage name w data r).2) as Hin
        by (apply list_elem_of_omap; by eexists). rewrite Eo in Hin. by apply elem_of_nil in Hin.
    + unfold reconnects in En. apply length_zero_iff_nil in En.
      assert (tt ∈ omap (fun o => match o with Reconnect _ => Some tt | _ => None end) (onmessage name w data r).2) as Hin
        by (apply list_elem_of_omap; by eexists). rewrite En in Hin. by apply elem_of_nil in Hin.
  - unfold onclose. rewrite Hc. split; [done|]. apply Forall_app. split; [|repeat constructor].
    apply Forall_fmap, Forall_true. done.
  - unfold heartbeat, request. destruct (ready r); cbn; [|by split]. split; [done|].
    destruct (ws r); repeat constructor.
  - unfold heartbeat_deadline, close_ws. split; [done|]. cbn. destruct (ws r); repeat constructor.
  - unfold request. destruct (ready r); cbn; [|by split; [|repeat constructor]]. split; [done|].
    destruct (ws r); repeat constructor.
  - unfold timed_out. destruct (table_get _ rid); by split; [|repeat constructor].
  - unfold close, close_ws. split; [done|]. cbn. destruct (ws r); repeat constructor.
Qed.

(** After [close], or after the relay has refused the handshake, no input
    ever opens a socket or schedules a reconnection again. *)
Theorem closed_is_final name r inputs :
  closed r = true -> Forall (fun o => reopens o = false) (desk_run (Desk0 := desk name) r inputs).2.
Proof.
  revert r. induction inputs as [|i rest IH]; intros r Hc; [constructor|]. cbn [desk_run].
  destruct (closed_step name r i Hc) as [Hc' Ho]. specialize (IH _ Hc').
  change (desk_step r i) with (step name r i). destruct (step name r i) as [r1 o1]. cbn [fst snd] in *.
  destruct (desk_run r1 rest) as [r2 o2]. cbn [snd] in *. by apply Forall_app.
Qed.

Lemma closed_is_final_witness :
  Forall (fun o => reopens o = false)
    (desk_run (Desk0 := desk (js "ada")) (close (connect 1 init).1).1 [OnClose; Connect 2]).2.
Proof. apply closed_is_final. reflexivity. Defined.

(** *** Backoff *)

(** Drops in a row, each followed by the attempt it scheduled. *)
Fixpoint delays (n : nat) (r : conn) : list Z :=
  match n with
  | O => []
  | S m =>
      let '(r1, os) := onclose r in
      omap (fun o => match o with Reconnect d => Some d | _ => None end) os ++ delays m (connect 0 r1).1
  end.

Lemma onclose_delay r :
  closed r = false ->
  omap (fun o => match o with Reconnect d => Some d | _ => None end) (onclose r).2 = [backoff r] /\
  closed (onclose r).1 = false /\ backoff (onclose r).1 = Z.min (backoff r * 2) BACKOFF_MAX.
Proof.
  intros Hc. unfold onclose. rewrite Hc. cbn [fst snd]. split_and!; [|exact Hc|reflexivity].
  rewrite omap_app.
  assert (forall (l : list (Z * jstr)) m,
    omap (fun o => match o with Reconnect d => Some d | _ => None end) ((fun e => Reject e.1 m) <$> l) = []) as ->;
    [|reflexivity]. intros l m. by induction l.
Qed.

Lemma connect_open s r : closed r = false -> closed (connect s r).1 = false /\ backoff (connect s r).1 = backoff r.
Proof. intros Hc. unfold connect. by rewrite Hc. Qed.

Lemma delays_from r n k :
  closed r = false -> backoff r = Z.min (BACKOFF_MIN * 2 ^ k) BACKOFF_MAX -> 0 <= k ->
  delays n r = (fun i => Z.min (BACKOFF_MIN * 2 ^ i) BACKOFF_MAX) <$> seqZ k (Z.of_nat n).
Proof.
  revert r k. induction n as [|n IH]; intros r k Hc Hb Hk; [done|]. cbn [delays].
  destruct (onclose_delay r Hc) as (Hd & Hc1 & Hb1). destruct (onclose r) as [r1 os]. cbn [fst snd] in *.
  rewrite Hd, seqZ_cons by lia. cbn [fmap list_fmap app]. rewrite Hb. f_equal.
  destruct (connect_open 0 r1 Hc1) as [Hc2 Hb2].
  rewrite (IH _ (Z.succ k) Hc2); [do 2 f_equal; lia| |lia].
  rewrite Hb2, Hb1, Hb, Z.pow_succ_r by lia. unfold BACKOFF_MIN, BACKOFF_MAX.
  assert (0 < 2 ^ k) by (apply Z.pow_pos_nonneg; lia). lia.
Qed.

(** The k-th reconnection in a row waits 500 ms doubled k times, capped at
    15 seconds, from a connection that has just been made or has just been
    ready. *)
Theorem backoff_schedule n r :
  closed r = false -> backoff r = 500 ->
  delays n r = (fun k => Z.min (500 * 2 ^ k) 15000) <$> seqZ 0 (Z.of_nat n).
Proof. intros Hc Hb. by apply (delays_from r n 0). Qed.

Lemma backoff_schedule_witness : delays 7 init = [500; 1000; 2000; 4000; 8000; 15000; 15000].
Proof. rewrite backoff_schedule by reflexivity. vm_compute. reflexivity. Defined.

(** *** The environment of the witness *)

Lemma one_connection_witness :
  exists s, ws (onmessage (js "ada") 1 (dq "{'t':'ready'}") (connect 1 init).1).1 = Some s /\ [1] = [s].
Proof.
  assert (reachable (js "ada") {| w_conn := (onmessage (js "ada") 1 (dq "{'t':'ready'}") (connect 1 init).1).1;
    w_live := [1]; w_timers := 0 |}) as Hr.
  { exists 1. apply rtc_once. exists [1], 0%nat, (onmessage (js "ada") 1 (dq "{'t':'ready'}") (connect 1 init).1).
    split; [apply (message_arrives (js "ada") (boot 1) 1); by left|]. vm_compute. reflexivity. }
  destruct (one_connection _ _ Hr) as (_ & _ & Hready & _). apply Hready. vm_compute. reflexivity.
Defined.

(** *** Answers *)

(** A request is resolved only by a message from the relay that carries
    the request's own number, while the request is waiting. *)
Theorem answers_reach_their_caller name r i rid msg :
  Resolve rid msg ∈ (step name r i).2 ->
  exists w data, i = OnMessage w data /\ json_parse data = Ok msg /\
    msg.["rid"] = VNum (int rid) /\ rid ∈ (pending r).*1.
Proof.
  assert (forall (l : list (Z * jstr)) m, Resolve rid msg ∉ (fun e => Reject e.1 m) <$> l) as Hno.
  { intros l m Hin. apply list_elem_of_fmap in Hin as (? & [=] & _). }
  destruct i; cbn [step]; intros Hin.
  - unfold connect in Hin. destruct (closed r); cbn [snd] in Hin; set_solver.
  - cbn [onopen snd] in Hin. set_solver.
  - exists w, data. unfold onmessage in Hin. destruct (json_parse data) as [m|]; [|cbn in Hin; set_solver].
    destruct (nullish m); [cbn in Hin; set_solver|]. cbv zeta in Hin.
    destruct (_ && _); [cbn [snd] in Hin; set_solver|].
    destruct (strict_eq _ _); [destruct (b64_dec _); cbn [snd] in Hin; set_solver|].
    destruct (strict_eq _ _); [cbn [snd] in Hin; set_solver|].
    destruct (request_number _) as [rid'|] eqn:En; [|cbn [snd] in Hin; set_solver].
    destruct (table_get _ rid') eqn:Eg; [|cbn [snd] in Hin; set_solver]. cbn [snd] in Hin.
    apply list_elem_of_singleton in Hin. destruct (strict_eq _ _); [done|]. injection Hin as -> ->.
    apply request_number_inv in En. split_and!; [done|done|done|].
    rewrite (table_delete_perm _ _ _ Eg). by left.
  - cbn [signed_challenge snd] in Hin. set_solver.
  - unfold onclose in Hin. exfalso. destruct (closed r); cbn [snd] in Hin;
      apply elem_of_app in Hin as [Hin|Hin]; try (by eapply Hno); set_solver.
  - unfold heartbeat, request in Hin. destruct (ready r); cbn [negb snd] in Hin; destruct (ws r); set_solver.
  - unfold heartbeat_deadline, close_ws in Hin. cbn [snd] in Hin. destruct (ws r); set_solver.
  - unfold request in Hin. destruct (ready r); cbn [negb snd] in Hin; destruct (ws r); set_solver.
  - unfold timed_out in Hin. destruct (table_get _ _); cbn [snd] in Hin; set_solver.
  - unfold close, close_ws in Hin. cbn [snd] in Hin. destruct (ws _); set_solver.
Qed.

Lemma answers_reach_their_caller_witness :
  exists w data, OnMessage 1 (dq "{'t':'ok','rid':1}") = OnMessage w data /\
    json_parse data = Ok (jobj [("t", VStr (js "ok")); ("rid", VNum (int 1))]%string) /\
    (jobj [("t", VStr (js "ok")); ("rid", VNum (int 1))]%string).["rid"] = VNum (int 1) /\
    1 ∈ (pending (run (js "ada") [Connect 1; OnMessage 1 (dq "{'t':'ready'}"); Request (js "send") []]).1).*1.
Proof.
  apply (answers_reach_their_caller (js "ada")
    (run (js "ada") [Connect 1; OnMessage 1 (dq "{'t':'ready'}"); Request (js "send") []]).1
    (OnMessage 1 (dq "{'t':'ok','rid':1}")) 1). vm_compute. by left.
Defined.

(** *** The challenge *)

(** The signed challenge binds the relay's nonce and the whole handle: two
    handles, or two nonces of the same length, never give the same bytes, so a
    signature made for one login is good for no other. *)
Theorem challenge_binds name1 nonce1 name2 nonce2 :
  well_formed name1 = true -> well_formed name2 = true -> length nonce1 = length nonce2 ->
  challenge_bytes name1 nonce1 = challenge_bytes name2 nonce2 <-> name1 = name2 /\ nonce1 = nonce2.
Proof.
  intros H1 H2 Hl. split; [|by intros [-> ->]]. unfold challenge_bytes. intros E.
  apply app_inv_head in E. apply app_inj_1 in E as [-> E]; [|done].
  apply app_inj_1 in E as [_ E]; [|done]. by apply utf8_encode_inj in E.
Qed.

Lemma challenge_binds_witness :
  challenge_bytes (js "ada") [1%N] <> challenge_bytes (js "bob") [1%N].
Proof. intros E. apply challenge_binds in E as [[=] _]; reflexivity. Defined.
End Relay.
