(* ===== verification/Link.v ===== *)
(** * Handing an identity over: device links (link.js), recovery files
      (recovery.js) and invite links (invite.js)

    The key agreement, the key derivations and the query-string parser are the
    platform's: a class of operations with what they document.  Random values
    are arguments. *)

From stdpp Require Import base list list_numbers numbers option strings.
From Stdlib Require Import ZArith NArith Lia.
From S2P Require Import Prelude JsNum JsString JsValue Json Bytes Games Envelope Log History.
Open Scope Z_scope.

Class Keys := {
  (** P-256: the raw public key of a private key, and the agreed bits; a raw
      key that is no point of the curve is refused. *)
  private_key : Type;
  public_raw : private_key -> bytes;
  agree : private_key -> bytes -> option bytes;
  (** HKDF-SHA-256 with an empty salt (material, info), and PBKDF2-SHA-256
      (passphrase, salt, iterations), to an AES key. *)
  hkdf : bytes -> bytes -> bytes;
  pbkdf2 : bytes -> bytes -> Z -> bytes;
  toUpperCase : jstr -> jstr;
  (** [new URLSearchParams(search).get(key)] and the text of a
      [URLSearchParams] with one pair. *)
  query_get : jstr -> jstr -> option jstr;
  query_text : jstr -> jstr -> jstr;
}.

(** [[A-Za-z0-9_-]]. *)
Definition key_char (c : N) : bool :=
  ((65 <=? c) && (c <=? 90) || (97 <=? c) && (c <=? 122) || (48 <=? c) && (c <=? 57)
   || (c =? 95) || (c =? 45))%N.

Class KeysLaws `{Web, Keys} := {
  agree_sym : forall a b, is_Some (agree a (public_raw b)) /\ agree a (public_raw b) = agree b (public_raw a);
  public_length : forall k, length (public_raw k) = 65%nat;
  public_bytes : forall k, Forall byte (public_raw k);
  digest_length : forall m, length (sha256 m) = 32%nat;
  digest_bytes : forall m, Forall byte (sha256 m);
  (** a value of letters, digits, [_] and [-] stands for itself *)
  query_plain : forall v, Forall (fun c => key_char c = true) v -> query_get (js "?link=" ++ v) (js "link") = Some v;
  query_roundtrip : forall k v, well_formed k = true -> well_formed v = true -> query_get (js "?" ++ query_text k v) k = Some v;
}.

(** ** Device links *)

Module Link.
Section link.
Context `{Web, Keys}.

Definition INFO : bytes := utf8_encode (js "quorum/device-link/v1").
Definition PUB_LEN : nat := 65.
Definition IV_LEN : nat := 12.

Definition sharedKey (privateKey : private_key) (peerPubRaw : bytes) : res bytes :=
  match agree privateKey peerPubRaw with
  | Some bits => Ok (hkdf bits INFO)
  | None => Throw OtherError
  end.

(** [s.padStart(n, '0')]. *)
Definition pad_start (n : nat) (s : jstr) : jstr := replicate (n - length s) 48%N ++ s.

Definition verifyCode (pubRaw : bytes) : jstr :=
  let h := sha256 pubRaw in
  let at_ i := Z.of_N (default 0%N (h !! i)) in
  let n := Z.lor (Z.lor (Z.shiftl (at_ 0%nat) 16) (Z.shiftl (at_ 1%nat) 8)) (at_ 2%nat) mod 1000000 in
  pad_start 6 (int_to_string n).

Record offer := { url : jstr; blobId : jstr; privateKey : private_key; pub : bytes; code : jstr }.

Definition createLinkOffer (origin : jstr) (kp : private_key) (random : bytes) : offer :=
  let p := public_raw kp in
  let id := b64url_enc random in
  {| url := origin ++ js "/?link=" ++ id ++ js "#k=" ++ b64url_enc p;
     blobId := id; privateKey := kp; pub := p; code := verifyCode p |}.

(** [loc.hash.match(/k=([A-Za-z0-9_-]+)/)]: the first [k=] that a key
    character follows, and the characters up to the next other one. *)
Fixpoint key_run (s : jstr) : jstr :=
  match s with
  | c :: r => if key_char c then c :: key_run r else []
  | [] => []
  end.

Fixpoint match_key (s : jstr) : option jstr :=
  match s with
  | [] => None
  | c :: r =>
      match r with
      | d :: r' => if (c =? 107)%N && (d =? 61)%N && negb (is_empty (key_run r')) then Some (key_run r')
                   else match_key r
      | [] => None
      end
  end.

(** What the code reads of [location]. *)
Record location := { origin : jstr; pathname : jstr; search : jstr; hash : jstr }.

Definition parseLinkUrl (loc : location) : res (option (jstr * bytes)) :=
  match query_get (search loc) (js "link"), match_key (hash loc) with
  | Some blobId, Some k =>
      if is_empty blobId then Ok None else let* p := b64url_dec k in Ok (Some (blobId, p))
  | _, _ => Ok None
  end.

(** The sealed bytes and the check code; the ephemeral key and the iv are
    drawn by the caller. *)
Definition sealIdentity (pubRaw identity : bytes) (eph : private_key) (iv : bytes) : res (bytes * jstr) :=
  let* key := sharedKey eph pubRaw in
  Ok (public_raw eph ++ iv ++ aes_encrypt key iv identity, verifyCode pubRaw).

Definition openSealed (privateKey : private_key) (payload : bytes) : res bytes :=
  if Nat.ltb (length payload) (PUB_LEN + IV_LEN) then Throw OtherError else
  let ephPub := take PUB_LEN payload in
  let iv := take IV_LEN (drop PUB_LEN payload) in
  let ct := drop (PUB_LEN + IV_LEN) payload in
  let* key := sharedKey privateKey ephPub in
  match aes_decrypt key iv ct with Some pt => Ok pt | None => Throw OtherError end.
End link.
End Link.

(** ** Recovery files *)

Module Recovery.
Section recovery.
Context `{Web, Keys}.

Definition ALPHABET : jstr := js "ABCDEFGHJKMNPQRSTVWXYZ23456789".

(** The code of sixteen random bytes. *)
Definition generateCode (raw : bytes) : jstr :=
  let chars := (fun b => default 0%N (ALPHABET !! N.to_nat (b mod N.of_nat (length ALPHABET)))) <$> raw in
  let part i := take 4 (drop (4 * i) chars) in
  str_join (js "-") [part 0%nat; part 1%nat; part 2%nat; part 3%nat].

(** [code.replaceAll('-', '').toUpperCase()]. *)
Definition normal_code (code : jstr) : jstr := toUpperCase (filter (fun c => c <> 45%N) code).

Definition deriveKey (code : jstr) (salt : bytes) : bytes :=
  pbkdf2 (utf8_encode (normal_code code)) salt 310000.

Definition recovery_file (salt iv ct : bytes) : val :=
  jobj [("v", VNum (int 1)); ("kdf", VStr (js "PBKDF2-SHA256-310k"));
        ("salt", VStr (btoa salt)); ("iv", VStr (btoa iv)); ("ct", VStr (btoa ct))].

Definition wrapIdentity (identity : bytes) (code : jstr) (salt iv : bytes) : bytes :=
  utf8_encode (stringify (recovery_file salt iv (aes_encrypt (deriveKey code salt) iv identity))).

Definition unwrapIdentity (fileBytes : bytes) (code : jstr) : res bytes :=
  let* file := json_parse (text_decode fileBytes) in
  let* v := get file "v" in
  if negb (strict_eq v (VNum (int 1))) then Throw OtherError else
  let* salt := b64_dec file.["salt"] in
  let* iv := b64_dec file.["iv"] in
  let* ct := b64_dec file.["ct"] in
  match aes_decrypt (deriveKey code salt) iv ct with Some pt => Ok pt | None => Throw OtherError end.
End recovery.
End Recovery.

(** ** Invite links *)

Module Invite.
Import Link.
Section invite.
Context `{Web, Keys}.

Definition parseInviteUrl (loc : location) : option (jstr * jstr) :=
  match query_get (search loc) (js "j"), match_key (hash loc) with
  | Some id, Some k => if is_empty id then None else Some (id, k)
  | _, _ => None
  end.

(** The query and the fragment of the link. *)
Definition invite_search (id : jstr) : jstr := js "?" ++ query_text (js "j") id.
Definition invite_hash (rawKey : bytes) : jstr := js "#k=" ++ b64url_enc rawKey.

Definition buildInviteUrl (loc : location) (id : jstr) (rawKey : bytes) : jstr :=
  origin loc ++ pathname loc ++ invite_search id ++ invite_hash rawKey.
End invite.
End Invite.

(** ** Theorems *)

Section theorems.
Context `{WebLaws, !Keys, !KeysLaws}.

Lemma key_char_url v : (v < 64)%N -> key_char (to_url (b64_char v)) = true.
Proof.
  intros Hv. assert (v ∈ (N.of_nat <$> seq 0 64)) as Hin.
  { apply list_elem_of_fmap. exists (N.to_nat v). split; [lia|]. apply elem_of_seq. lia. }
  assert (Forall (fun v => key_char (to_url (b64_char v)) = true) (N.of_nat <$> seq 0 64)) as Hall
    by (vm_compute; repeat constructor).
  rewrite Forall_forall in Hall. by apply Hall.
Qed.

Lemma b64url_chars l : Forall byte l -> Forall (fun c => key_char c = true) (b64url_enc l).
Proof.
  intros Hl. rewrite b64url_enc_groups by done. rewrite !Forall_fmap.
  eapply Forall_impl; [by apply groups_small|]. intros v Hv. by apply key_char_url.
Qed.

Lemma key_run_all s : Forall (fun c => key_char c = true) s -> Link.key_run s = s.
Proof. induction 1 as [|c s Hc Hs IH]; cbn; [done|]. by rewrite Hc, IH. Qed.

Lemma match_key_hash l :
  Forall byte l -> l <> [] -> Link.match_key (js "#k=" ++ b64url_enc l) = Some (b64url_enc l).
Proof.
  intros Hl Hne. pose proof (b64url_chars l Hl) as Hc.
  assert (b64url_enc l <> []) as Hn.
  { rewrite b64url_enc_groups by done. by destruct l as [|? [|? [|? ?]]]. }
  change (js "#k=") with [35%N; 107%N; 61%N]. cbn. rewrite key_run_all by done.
  by destruct (b64url_enc l).
Qed.

Lemma seal_open_identity kp eph identity iv :
  length iv = 12%nat ->
  exists payload,
    Link.sealIdentity (public_raw kp) identity eph iv = Ok (payload, Link.verifyCode (public_raw kp)) /\
    Link.openSealed kp payload = Ok identity.
Proof.
  intros Hi. unfold Link.sealIdentity, Link.sharedKey. destruct (agree_sym eph kp) as [[bits Eb] Es].
  rewrite Eb. cbn [rbind]. eexists. split; [reflexivity|].
  pose proof (public_length eph) as Hp. unfold Link.openSealed, Link.PUB_LEN, Link.IV_LEN.
  rewrite !length_app, Hp, Hi. cbn [Nat.ltb Nat.leb Nat.add].
  rewrite take_app_length', drop_app_length' by done. rewrite take_app_length' by done.
  assert (forall k, drop 77 (public_raw eph ++ iv ++ aes_encrypt k iv identity) = aes_encrypt k iv identity) as ->.
  { intros k. rewrite app_assoc. apply drop_app_length'. rewrite length_app. lia. }
  unfold Link.sharedKey. rewrite <- Es, Eb. cbn [rbind]. by rewrite aes_roundtrip.
Qed.

(** The link a new device shows carries its own key: the signed-in device
    reads the offer back from it, shows the same check code, and the identity
    it seals to that key opens on the new device, and comes out as it went in. *)
Theorem link_roundtrip origin kp random eph identity iv :
  Forall byte random -> random <> [] -> length iv = 12%nat ->
  let o := Link.createLinkOffer origin kp random in
  let search := js "?link=" ++ Link.blobId o in
  let hash := js "#k=" ++ b64url_enc (Link.pub o) in
  Link.url o = origin ++ js "/" ++ search ++ hash /\
  (forall loc, Link.search loc = search -> Link.hash loc = hash ->
     Link.parseLinkUrl loc = Ok (Some (Link.blobId o, Link.pub o))) /\
  exists payload,
    Link.sealIdentity (Link.pub o) identity eph iv = Ok (payload, Link.code o) /\
    Link.openSealed (Link.privateKey o) payload = Ok identity.
Proof.
  intros Hr Hne Hi. cbv zeta. cbn [Link.createLinkOffer Link.blobId Link.pub Link.url Link.code Link.privateKey].
  split_and!; [done| |by apply seal_open_identity].
  intros loc Es Eh. pose proof (public_bytes kp) as Hb. unfold Link.parseLinkUrl. rewrite Es, Eh.
  rewrite query_plain by (by apply b64url_chars). rewrite match_key_hash.
  - rewrite b64url_back by done. cbn [rbind].
    assert (is_empty (b64url_enc random) = false) as ->; [|done].
    apply bool_decide_eq_false. rewrite b64url_enc_groups by done. by destruct random as [|? [|? [|? ?]]].
  - done.
  - intros E. pose proof (public_length kp) as Hl. by rewrite E in Hl.
Qed.

(** *** Recovery *)

Lemma btoa_units l : Forall byte l -> Forall unit16 (btoa l).
Proof. intros Hl. rewrite <- b64_enc_btoa. by apply unit16_sextets. Qed.

Lemma recovery_file_jsonable salt iv ct :
  Forall byte salt -> Forall byte iv -> Forall byte ct -> jsonable (Recovery.recovery_file salt iv ct).
Proof.
  intros Hs Hi Hc. apply jsonable_obj. split; [by apply (bool_decide_unpack _); vm_compute|].
  repeat (apply Forall_cons; split); [..|apply Forall_nil_2]; cbn [fst snd];
    (split; [by apply (bool_decide_unpack _); vm_compute|]).
  - by exists 1.
  - by apply (bool_decide_unpack _); vm_compute.
  - by apply btoa_units.
  - by apply btoa_units.
  - by apply btoa_units.
Qed.

Lemma recovery_file_rebuild a b c :
  let file := jobj [("v", VNum (int 1)); ("kdf", VStr (js "PBKDF2-SHA256-310k"));
                    ("salt", VStr a); ("iv", VStr b); ("ct", VStr c)] in
  rebuild file = file /\ get file "v" = Ok (VNum (int 1)) /\
  file.["salt"] = VStr a /\ file.["iv"] = VStr b /\ file.["ct"] = VStr c.
Proof. vm_compute. by split_and!. Qed.

(** A recovery file opens to the identity it was made from under any
    spelling of its code: dashes and letter case do not matter. *)
Theorem recovery_roundtrip identity code typed salt iv :
  Forall byte identity -> Forall byte salt -> Forall byte iv ->
  Recovery.normal_code typed = Recovery.normal_code code ->
  Recovery.unwrapIdentity (Recovery.wrapIdentity identity code salt iv) typed = Ok identity.
Proof.
  intros Hd Hs Hi Hc. unfold Recovery.unwrapIdentity, Recovery.wrapIdentity.
  assert (forall s, Recovery.deriveKey typed s = Recovery.deriveKey code s) as Hk.
  { intros s. unfold Recovery.deriveKey. by rewrite Hc. }
  set (ct := aes_encrypt _ _ _). assert (Forall byte ct) as Hct by (by apply aes_bytes).
  pose proof (recovery_file_jsonable salt iv ct Hs Hi Hct) as Hj.
  rewrite text_roundtrip; [|by apply stringify_well_formed|by apply stringify_no_bom].
  rewrite json_parse_stringify by done. cbn [rbind].
  destruct (recovery_file_rebuild (btoa salt) (btoa iv) (btoa ct)) as (Er & Ev & Es & Ei & Ec).
  unfold Recovery.recovery_file. rewrite Er, Ev. cbn [rbind]. rewrite Es, Ei, Ec.
  change (negb (strict_eq (VNum (int 1)) (VNum (int 1)))) with false. cbn match.
  rewrite <- !b64_enc_btoa, !b64_dec_enc by done. cbn [rbind]. rewrite Hk. unfold ct. by rewrite aes_roundtrip.
Qed.

(** *** Invites *)

(** An invite link is read back as the id and the key it was built from,
    the key travelling in the fragment only. *)
Theorem invite_roundtrip id rawKey :
  well_formed id = true -> id <> [] -> Forall byte rawKey -> rawKey <> [] ->
  forall loc, Link.search loc = Invite.invite_search id -> Link.hash loc = Invite.invite_hash rawKey ->
  Invite.buildInviteUrl loc id rawKey =
    Link.origin loc ++ Link.pathname loc ++ Link.search loc ++ Link.hash loc /\
  Invite.parseInviteUrl loc = Some (id, b64url_enc rawKey) /\ b64url_dec (b64url_enc rawKey) = Ok rawKey.
Proof.
  intros Hw Hid Hk Hne loc Es Eh. unfold Invite.parseInviteUrl, Invite.buildInviteUrl. rewrite Es, Eh.
  unfold Invite.invite_search. rewrite query_roundtrip by done. unfold Invite.invite_hash.
  rewrite match_key_hash by done. split_and!; [done| |by apply b64url_back]. by destruct id.
Qed.

(** *** The check code *)

Lemma eval10_ge s v : Forall is_digit s -> 0 <= v -> v * 10 ^ Z.of_nat (length s) <= eval10 v s.
Proof.
  intros Hs. revert v. unfold eval10. induction Hs as [|c s Hc Hs IH]; intros v Hv; cbn [length fold_left]; [lia|].
  unfold is_digit in Hc. rewrite Nat2Z.inj_succ, Z.pow_succ_r by lia.
  pose proof (IH (v * 10 + (Z.of_N c - 48)) ltac:(lia)) as Hi.
  assert (0 < 10 ^ Z.of_nat (length s)) by (apply Z.pow_pos_nonneg; lia). nia.
Qed.

Lemma digits_short n k : 0 <= n < 10 ^ Z.of_nat k -> (0 < k)%nat -> (length (digits 10 n) <= k)%nat.
Proof.
  intros Hn Hk. destruct (decide (n = 0)) as [->|Hz]; [cbn; lia|].
  destruct (digits_head n ltac:(lia)) as (c & r & E & Hc & Hd). rewrite E. cbn [length].
  pose proof (digits_eval n ltac:(lia)) as Ev. rewrite E in Ev. unfold eval10 in Ev. cbn [fold_left] in Ev.
  pose proof (digits_digits n) as Ha. rewrite E in Ha. apply Forall_cons in Ha as [_ Ha].
  unfold is_digit in Hd. pose proof (eval10_ge r (0 * 10 + (Z.of_N c - 48)) Ha ltac:(lia)) as Hg.
  unfold eval10 in Hg. rewrite Ev in Hg.
  assert (10 ^ Z.of_nat (length r) < 10 ^ Z.of_nat k) as Hp by nia.
  apply Z.pow_lt_mono_r_iff in Hp; lia.
Qed.

(** The check code both devices show is always six digits. *)
Theorem check_code_six_digits pub :
  length (Link.verifyCode pub) = 6%nat /\ Forall is_digit (Link.verifyCode pub).
Proof.
  unfold Link.verifyCode. cbv zeta. set (n := _ mod 1000000).
  assert (0 <= n < 10 ^ Z.of_nat 6) as Hn by (apply Z.mod_pos_bound; lia).
  assert (int_to_string n = digits 10 n) as ->.
  { unfold int_to_string. by rewrite (proj2 (Z.ltb_ge n 0)) by lia. }
  pose proof (digits_short n 6 Hn ltac:(lia)) as Hl. unfold Link.pad_start.
  rewrite length_app, length_replicate. split; [lia|]. apply Forall_app. split; [|apply digits_digits].
  apply Forall_replicate. unfold is_digit. lia.
Qed.
End theorems.

(** ** A concrete key agreement *)

Module ToyKeys.
Export ToyFacts.

(** [s] without the prefix [p]. *)
Fixpoint after (p s : jstr) : option jstr :=
  match p, s with
  | [], _ => Some s
  | a :: p', b :: s' => if N.eqb a b then after p' s' else None
  | _, [] => None
  end.

Lemma after_app p s : after p (p ++ s) = Some s.
Proof. induction p as [|a p IH]; cbn; [done|]. by rewrite N.eqb_refl. Qed.

#[export] Instance keys_ops : Keys := {|
  private_key := N;
  public_raw := fun k => replicate 65 (k mod 256)%N;
  agree := fun k p => Some [((k mod 256 + default 0 (head p)) mod 256)%N];
  hkdf := fun m _ => m;
  pbkdf2 := fun c _ _ => c;
  toUpperCase := fun s => (fun c => if (N.leb 97 c && N.leb c 122)%bool then (c - 32)%N else c) <$> s;
  query_get := fun s k => after (js "?" ++ k ++ js "=") s;
  query_text := fun k v => k ++ js "=" ++ v;
|}.

#[export] Instance keys_laws : KeysLaws.
Proof.
  split.
  - intros a b. split; [by eexists|]. cbn. do 2 f_equal. by rewrite N.add_comm.
  - intros k. apply length_replicate.
  - intros k. apply Forall_replicate. by apply N.mod_lt.
  - intros m. cbn [sha256 web]. rewrite length_take, length_fmap, length_app, length_replicate. lia.
  - intros m. cbn [sha256 web]. apply Forall_take, Forall_fmap, Forall_true. intros b. by apply N.mod_lt.
  - intros v _. cbn [query_get keys_ops]. rewrite <- (after_app (js "?link=") v). done.
  - intros k v _ _. cbn [query_get query_text keys_ops].
    rewrite <- (after_app (js "?" ++ k ++ js "=") v). by rewrite <- !app_assoc.
Qed.
End ToyKeys.
Import ToyKeys.

Lemma link_roundtrip_witness :
  exists payload,
    Link.sealIdentity (public_raw (7%N : private_key)) [1%N; 2%N] (9%N : private_key) iv
      = Ok (payload, Link.verifyCode (public_raw (7%N : private_key))) /\
    Link.openSealed (7%N : private_key) payload = Ok [1%N; 2%N].
Proof.
  refine (proj2 (proj2 (link_roundtrip (js "https://q") (7%N : private_key) [1%N] (9%N : private_key) [1%N; 2%N] iv _ _ _)));
    [repeat constructor|discriminate|reflexivity].
Defined.

Lemma recovery_roundtrip_witness :
  Recovery.unwrapIdentity (Recovery.wrapIdentity [1%N; 2%N] (js "ABCD-EF23") [5%N] iv) (js "abcdef23") = Ok [1%N; 2%N].
Proof. apply recovery_roundtrip; [repeat constructor|repeat constructor|exact iv_bytes|vm_compute; reflexivity]. Defined.

Lemma invite_roundtrip_witness :
  let loc := {| Link.origin := []; Link.pathname := []; Link.search := Invite.invite_search (js "abc");
                Link.hash := Invite.invite_hash [1%N] |} in
  Invite.parseInviteUrl loc = Some (js "abc", b64url_enc [1%N]).
Proof.
  cbv zeta. eapply (invite_roundtrip (js "abc") [1%N]); [reflexivity|discriminate|repeat constructor|discriminate|reflexivity..].
Defined.
