(* ===== verification/Circles.v ===== *)
(** * Where a circle's state lives (client/src/lib/circles.js) and what this
      device believes of its peers (client/src/lib/trust.js) *)

From stdpp Require Import base list numbers option strings relations.
From Stdlib Require Import ZArith NArith Lia.
From S2P Require Import Prelude JsNum JsString JsValue.
Open Scope Z_scope.

Module Circles.

Definition SHARED_FIELDS : list jstr := js <$>
  ["id"; "name"; "channels"; "voiceChannels"; "chanMeta"; "keys"; "overview"; "notices"; "offers";
   "proposals"; "threshold"; "rsvps"; "invites"; "deletedChannels"; "deletedVoice"]%string.

Definition DEVICE_FIELDS : list jstr := js <$>
  ["lastSeq"; "epoch"; "seen"; "verified"; "verifiedSn"; "mismatched"; "joinedAt"]%string.

Definition pick (source : val) (fields : list jstr) : obj :=
  fold_left (fun out f => match prop source f with VUndef => out | v => obj_assign out f v end) fields [].

(** The members of an object literal after its spread. *)
Definition put_fields (o : obj) (l : list (string * val)) : obj :=
  fold_left (fun o kv => obj_put o (js kv.1) kv.2) l o.

(** What a half always carries, whatever the record has. *)
Definition shared_defaults (record : val) (channels voice : list val) : list (string * val) :=
  [("channels", VArr channels); ("voiceChannels", VArr voice);
   ("chanMeta", record.["chanMeta"] ⁇ VObj []); ("keys", record.["keys"] ⁇ VObj []);
   ("notices", record.["notices"] ⁇ VArr []); ("rsvps", record.["rsvps"] ⁇ VObj []);
   ("invites", record.["invites"] ⁇ VArr []); ("overview", record.["overview"] ⁇ VNull)]%string.

Definition sharedHalf (record : val) : res obj :=
  let* channels :=
    if truthy record.["channels"].["length"] then iterate record.["channels"]
    else Ok [VStr (js "general")] in
  let* voice := iterate (record.["voiceChannels"] ⁇ VArr [VStr (js "lounge")]) in
  Ok (put_fields (pick record SHARED_FIELDS) (shared_defaults record channels voice)).

Definition device_defaults (record : val) : list (string * val) :=
  [("lastSeq", record.["lastSeq"] ⁇ VNum (int 0)); ("epoch", record.["epoch"] ⁇ VNum (int 0))]%string.

Definition deviceHalf (record : val) : obj :=
  put_fields (pick record DEVICE_FIELDS) (device_defaults record).

(** What [hydrate] adds to the shared half. *)
Definition device_fields (shared device : val) (now : num) : list (string * val) :=
  [("id", shared.["id"]); ("name", shared.["name"] ⁇ shared.["id"]);
   ("lastSeq", device.["lastSeq"] ⁇ VNum (int 0)); ("epoch", device.["epoch"] ⁇ VNum (int 0));
   ("seen", device.["seen"] ⁇ VObj []); ("verified", device.["verified"] ⁇ VArr []);
   ("verifiedSn", device.["verifiedSn"] ⁇ VObj []); ("mismatched", device.["mismatched"] ⁇ VObj []);
   ("joinedAt", device.["joinedAt"] ⁇ VNum now); ("members", VArr []); ("roles", VObj [])]%string.

Definition hydrate (shared device : val) (now : num) (live : bool) : res obj :=
  let* half := sharedHalf shared in
  let fields := put_fields half (device_fields shared device now) in
  Ok (if live then fields else put_fields fields [("restored"%string, VBool true)]).

(** A [Map] keyed by values. *)
Fixpoint vmap_set (m : list (val * val)) (k v : val) : list (val * val) :=
  match m with
  | [] => [(k, v)]
  | (k', v') :: r => if same_value k' k then (k', v) :: r else (k', v') :: vmap_set r k v
  end.

Definition by_id (m : list (val * val)) (circles : list val) : list (val * val) :=
  fold_left (fun m circle => if truthy circle.["id"] then vmap_set m circle.["id"] circle else m) circles m.

Definition mergeBackups (mine theirs : val) : res (list val) :=
  let* t := iterate (theirs ⁇ VArr []) in
  let* m := iterate (mine ⁇ VArr []) in
  Ok (by_id (by_id [] t) m).*2.
End Circles.

(** ** Trust *)

Module Trust.

(** The three fields of a record; absent before the first comparison. *)
Record trust := { verifiedSn : option obj; verified : option (list jstr); mismatched : option obj }.

Definition without (o : obj) (peer : jstr) : obj := filter (fun kv => kv.1 <> peer) o.

(** [o?.[peer]]. *)
Definition held (o : option obj) (peer : jstr) : val :=
  match o with Some o => prop (VObj o) peer | None => VUndef end.

Definition applyVerified (r : trust) (peer : jstr) (sn : val) : trust :=
  let v := obj_put (default [] (verifiedSn r)) peer sn in
  {| verifiedSn := Some v; verified := Some (obj_keys v);
     mismatched := if truthy (held (mismatched r) peer)
                   then Some (without (default [] (mismatched r)) peer) else mismatched r |}.

Definition applyMismatch (r : trust) (peer : jstr) (sn : val) : trust :=
  let m := Some (obj_put (default [] (mismatched r)) peer sn) in
  if truthy (held (verifiedSn r) peer) then
    let rest := without (default [] (verifiedSn r)) peer in
    {| verifiedSn := Some rest; verified := Some (obj_keys rest); mismatched := m |}
  else {| verifiedSn := verifiedSn r; verified := verified r; mismatched := m |}.

Definition retireMismatch (r : trust) (peer : jstr) (currentSn : val) : trust * bool :=
  if negb (truthy (held (mismatched r) peer)) then (r, false) else
  if strict_eq (held (mismatched r) peer) currentSn then (r, false) else
  ({| verifiedSn := verifiedSn r; verified := verified r;
      mismatched := (fun o => obj_delete o peer) <$> mismatched r |}, true).
End Trust.

(** ** Theorems *)

Section halves.
Import Circles.

(** The member of the literal that stands, the last of its name. *)
Fixpoint last_field (l : list (string * val)) (k : jstr) : option val :=
  match l with
  | [] => None
  | (f, v) :: r => match last_field r k with
                   | Some w => Some w
                   | None => if str_eqb (js f) k then Some v else None
                   end
  end.

Lemma put_fields_get l o k :
  obj_get (put_fields o l) k = match last_field l k with Some v => Some v | None => obj_get o k end.
Proof.
  unfold put_fields. revert o. induction l as [|[f v] l IH]; intros o; cbn [fold_left last_field]; [done|].
  rewrite IH. destruct (last_field l k); [done|]. cbn [fst snd]. rewrite obj_get_put. by destruct (str_eqb _ _).
Qed.

Lemma put_fields_prop l o k :
  prop (VObj (put_fields o l)) k = match last_field l k with Some v => v | None => prop (VObj o) k end.
Proof. cbn [prop]. rewrite put_fields_get. by destruct (last_field l k). Qed.

(** Names that no built-in prototype answers to. *)
Definition plain_name (k : jstr) : Prop := k ∉ object_proto /\ k <> js "__proto__".

Lemma plain_name_proto k : plain_name k -> proto_method [] k = VUndef.
Proof.
  intros [Ho Hp]. unfold proto_method. rewrite (proj2 (str_eqb_neq k _) Hp).
  by rewrite (bool_decide_false (k ∈ object_proto)), (bool_decide_false (k ∈ [])) by (done || apply not_elem_of_nil).
Qed.

Lemma assign_prop (o : obj) k v k' :
  plain_name k -> obj_get (obj_assign o k v) k' = if str_eqb k k' then Some v else obj_get o k'.
Proof.
  intros [_ Hp]. unfold obj_assign. rewrite (proj2 (str_eqb_neq k _) Hp). cbn [andb]. apply obj_get_put.
Qed.

Definition pick_one (source : val) (out : obj) (f : jstr) : obj :=
  match prop source f with VUndef => out | v => obj_assign out f v end.

Lemma pick_one_prop source out f k :
  plain_name f ->
  prop (VObj (pick_one source out f)) k =
    (if str_eqb f k then match prop source f with VUndef => prop (VObj out) k | v => v end else prop (VObj out) k).
Proof.
  intros Hf. unfold pick_one. destruct (prop source f) eqn:E; cbn [prop]; rewrite ?assign_prop by done;
    by destruct (str_eqb f k).
Qed.

Lemma pick_keeps source fields out k :
  Forall plain_name fields -> prop (VObj out) k = prop source k ->
  prop (VObj (fold_left (pick_one source) fields out)) k = prop source k.
Proof.
  intros Hf. revert out. induction Hf as [|f fields Hf Hfs IH]; intros out E; cbn [fold_left]; [done|].
  apply IH. rewrite pick_one_prop by done. destruct (str_eqb f k) eqn:Ek; [|done].
  apply str_eqb_eq in Ek as ->. by destruct (prop source k).
Qed.

Lemma pick_prop source fields k :
  Forall plain_name fields -> k ∈ fields -> prop (VObj (pick source fields)) k = prop source k.
Proof.
  intros Hf Hk. assert (prop (VObj []) k = VUndef) as He.
  { rewrite Forall_forall in Hf. by apply plain_name_proto, Hf. }
  change (prop (VObj (fold_left (pick_one source) fields [])) k = prop source k). generalize (@nil (jstr * val)) He.
  induction Hf as [|f fields Hf Hfs IH]; intros out Eo; [by apply elem_of_nil in Hk|]. cbn [fold_left].
  destruct (str_eqb f k) eqn:Ek.
  - apply pick_keeps; [done|]. rewrite pick_one_prop by done. rewrite Ek. apply str_eqb_eq in Ek as ->.
    by destruct (prop source k).
  - apply elem_of_cons in Hk as [->|Hk]; [by rewrite str_eqb_refl in Ek|]. apply IH; [done|].
    rewrite pick_one_prop by done. by rewrite Ek.
Qed.

Lemma obj_put_keys {A} (o : list (jstr * A)) k v x : x ∈ obj_keys (obj_put o k v) -> x = k \/ x ∈ obj_keys o.
Proof.
  unfold obj_put. destruct (obj_get o k).
  - rewrite obj_keys_update. by right.
  - unfold obj_keys. rewrite obj_add_perm. cbn. by rewrite elem_of_cons.
Qed.

Lemma pick_keys source fields x : x ∈ obj_keys (pick source fields) -> x ∈ fields.
Proof.
  change (x ∈ obj_keys (fold_left (pick_one source) fields []) -> x ∈ fields).
  assert (forall out, x ∈ obj_keys (fold_left (pick_one source) fields out) -> x ∈ obj_keys out \/ x ∈ fields) as Hall.
  { induction fields as [|f fields IH]; intros out; cbn [fold_left]; [by left|].
    intros [Hx|Hx]%IH; [|right; by right]. unfold pick_one in Hx. destruct (prop source f); try (by left);
      (unfold obj_assign in Hx; destruct (_ && _); [by left|]; apply obj_put_keys in Hx as [->|Hx]; [right; by left|by left]). }
  intros [[]%elem_of_nil|?]%Hall. done.
Qed.

Lemma put_fields_keys l o x : x ∈ obj_keys (put_fields o l) -> x ∈ obj_keys o \/ x ∈ (fun kv => js kv.1) <$> l.
Proof.
  unfold put_fields. revert o. induction l as [|[f v] l IH]; intros o; cbn [fold_left]; [by left|].
  intros [Hx|Hx]%IH; [|right; by right]. apply obj_put_keys in Hx as [->|Hx]; [right; by left|by left].
Qed.

Lemma fields_plain : Forall plain_name (SHARED_FIELDS ++ DEVICE_FIELDS).
Proof. apply (bool_decide_unpack _). vm_compute. done. Qed.

Lemma shared_half_inv record half :
  sharedHalf record = Ok half ->
  exists c v, half = put_fields (pick record SHARED_FIELDS) (shared_defaults record c v).
Proof.
  unfold sharedHalf. intros E. apply rbind_Ok in E as (c & _ & E). apply rbind_Ok in E as (v & _ & E).
  apply Ok_inj in E. by exists c, v.
Qed.

Lemma shared_half_keys record half x : sharedHalf record = Ok half -> x ∈ obj_keys half -> x ∈ SHARED_FIELDS.
Proof.
  intros (c & v & ->)%shared_half_inv [Hx|Hx]%put_fields_keys; [by eapply pick_keys|].
  assert (Forall (fun k => k ∈ SHARED_FIELDS) ((fun kv => js kv.1) <$> shared_defaults VUndef [] [])) as Hall
    by (apply (bool_decide_unpack _); vm_compute; done).
  rewrite Forall_forall in Hall. apply Hall. exact Hx.
Qed.

(** *** Losing nothing on the way *)

Definition shared_names : list string :=
  ["id"; "name"; "channels"; "voiceChannels"; "chanMeta"; "keys"; "overview"; "notices"; "offers";
   "proposals"; "threshold"; "rsvps"; "invites"; "deletedChannels"; "deletedVoice"]%string.
Definition device_names : list string :=
  ["lastSeq"; "epoch"; "seen"; "verified"; "verifiedSn"; "mismatched"; "joinedAt"]%string.

Definition fields_of (o : obj) (fields : list string) : Prop :=
  Forall (fun f => nullish (prop (VObj o) (js f)) = false) fields.

#[global] Instance fields_of_dec o fields : Decision (fields_of o fields).
Proof. unfold fields_of. apply _. Defined.

(** A record as the client holds it: it has rooms, and every field that a half
    would fill with a default. *)
Definition whole_shared (o : obj) : Prop :=
  (exists c cs, getq (VObj o) "channels" = VArr (c :: cs)) /\
  (exists vs, getq (VObj o) "voiceChannels" = VArr vs) /\
  getq (VObj o) "overview" <> VUndef /\
  fields_of o ["id"; "name"; "chanMeta"; "keys"; "notices"; "rsvps"; "invites"]%string.

Definition whole_device (o : obj) : Prop := fields_of o device_names.

#[global] Instance whole_device_dec o : Decision (whole_device o).
Proof. unfold whole_device. apply _. Defined.

Lemma coalesce_kept v d : nullish v = false -> (v ⁇ d) = v.
Proof. unfold coalesce. by intros ->. Qed.

Lemma shared_half_whole o c cs vs :
  getq (VObj o) "channels" = VArr (c :: cs) -> getq (VObj o) "voiceChannels" = VArr vs ->
  sharedHalf (VObj o) = Ok (put_fields (pick (VObj o) SHARED_FIELDS) (shared_defaults (VObj o) (c :: cs) vs)).
Proof.
  intros Hc Hv. unfold sharedHalf. rewrite Hc, Hv.
  assert (truthy (VArr (c :: cs)).["length"] = true) as ->.
  { unfold getq. cbn [prop]. change (str_eqb (js "length") (js "length")) with true. cbn [truthy].
    unfold ntruthy. done. }
  done.
Qed.

(** The value a literal gives to a field, by evaluating its keys. *)
Ltac field :=
  rewrite ?put_fields_prop; unfold shared_defaults, device_defaults, device_fields; cbn [last_field]; lit; cbn match.

(** [f] reads the same on both records. *)
Definition agrees (o1 o2 : obj) (f : string) : Prop := prop (VObj o1) (js f) = prop (VObj o2) (js f).

Lemma plain_shared : Forall plain_name SHARED_FIELDS.
Proof. exact (proj1 (proj1 (Forall_app _ _ _) fields_plain)). Qed.
Lemma plain_device : Forall plain_name DEVICE_FIELDS.
Proof. exact (proj2 (proj1 (Forall_app _ _ _) fields_plain)). Qed.

Ltac picked Hp := rewrite (pick_prop _ _ _ Hp); [done|by apply (bool_decide_unpack _); vm_compute].

Lemma shared_half_agrees o sh :
  whole_shared o -> sharedHalf (VObj o) = Ok sh -> Forall (agrees sh o) shared_names.
Proof.
  intros ((c & cs & Hc) & (vs & Hv) & Ho & Hf) E. rewrite (shared_half_whole o c cs vs Hc Hv) in E.
  apply Ok_inj in E. unfold fields_of in Hf. rewrite !Forall_cons in Hf.
  destruct Hf as (Hid & Hname & Hmeta & Hkeys & Hnot & Hrs & Hinv & _).
  unfold shared_names. repeat (apply Forall_cons; split); [..|apply Forall_nil_2]; unfold agrees; rewrite <- E; field;
    try (picked plain_shared); try (by apply coalesce_kept).
  - by symmetry.
  - by symmetry.
  - unfold getq in Ho |- *. by destruct (prop (VObj o) (js "overview")).
Qed.

Lemma device_half_agrees o : whole_device o -> Forall (agrees (deviceHalf (VObj o)) o) device_names.
Proof.
  intros Hf. unfold whole_device, fields_of, device_names in Hf. rewrite !Forall_cons in Hf.
  destruct Hf as (Hl & He & _). unfold device_names.
  repeat (apply Forall_cons; split); [..|apply Forall_nil_2]; unfold agrees, deviceHalf; field;
    try (picked plain_device); by apply coalesce_kept.
Qed.

(** Fields that read the same keep a record whole. *)
Lemma whole_shared_agrees o1 o2 : Forall (agrees o1 o2) shared_names -> whole_shared o2 -> whole_shared o1.
Proof.
  unfold shared_names, whole_shared, fields_of, agrees, getq. rewrite !Forall_cons.
  intros (-> & -> & -> & -> & -> & -> & -> & -> & _ & _ & _ & -> & -> & _) Hw. destruct_and! Hw. by split_and!.
Qed.

Lemma restored_prop o v k : k <> js "restored" ->
  prop (VObj (put_fields o [("restored"%string, v)])) k = prop (VObj o) k.
Proof. intros Hk. rewrite put_fields_prop. cbn [last_field]. by rewrite (proj2 (str_eqb_neq _ k) (not_eq_sym Hk)). Qed.

(** What [hydrate] makes of two halves, field by field. *)
Lemma hydrate_agrees sh dev now live rec :
  whole_shared sh -> whole_device dev -> hydrate (VObj sh) (VObj dev) now live = Ok rec ->
  Forall (agrees rec sh) shared_names /\ Forall (agrees rec dev) device_names.
Proof.
  intros Hs Hd E. unfold hydrate in E. apply rbind_Ok in E as (half & Eh & E). apply Ok_inj in E.
  pose proof (shared_half_agrees _ _ Hs Eh) as Ha.
  destruct Hs as (_ & _ & _ & Hf). unfold whole_device, fields_of, device_names in Hf, Hd. rewrite !Forall_cons in Hf, Hd.
  destruct Hf as (Hid & Hname & _). destruct Hd as (H1 & H2 & H3 & H4 & H5 & H6 & H7 & _).
  assert (Forall (agrees (put_fields half (device_fields (VObj sh) (VObj dev) now)) sh) shared_names /\
          Forall (agrees (put_fields half (device_fields (VObj sh) (VObj dev) now)) dev) device_names) as [G1 G2].
  { unfold shared_names, device_names in *. rewrite !Forall_cons in Ha. unfold agrees in *.
    destruct_and! Ha. split; rewrite !Forall_cons; split_and!; try apply Forall_nil_2; field; try done; by apply coalesce_kept. }
  destruct live; [by subst rec|]. split.
  - rewrite Forall_forall in G1 |- *. intros f Hin. unfold agrees. rewrite <- E, restored_prop; [by apply G1|].
    revert f Hin. apply Forall_forall. apply (bool_decide_unpack _). vm_compute. done.
  - rewrite Forall_forall in G2 |- *. intros f Hin. unfold agrees. rewrite <- E, restored_prop; [by apply G2|].
    revert f Hin. apply Forall_forall. apply (bool_decide_unpack _). vm_compute. done.
Qed.

Lemma whole_device_agrees o1 o2 : Forall (agrees o1 o2) device_names -> whole_device o2 -> whole_device o1.
Proof.
  unfold whole_device, fields_of, device_names, agrees, getq. rewrite !Forall_cons.
  intros (-> & -> & -> & -> & -> & -> & -> & _) Hw. destruct_and! Hw. by split_and!.
Qed.

Lemma agrees_trans o1 o2 o3 l : Forall (agrees o1 o2) l -> Forall (agrees o2 o3) l -> Forall (agrees o1 o3) l.
Proof.
  rewrite !Forall_forall. unfold agrees. intros H1 H2 f Hf. rewrite (H1 f Hf). by apply H2.
Qed.

Lemma shared_half_total o : whole_shared o -> exists sh, sharedHalf (VObj o) = Ok sh.
Proof.
  intros ((c & cs & Hc) & (vs & Hv) & _). eexists. exact (shared_half_whole o c cs vs Hc Hv).
Qed.

Lemma hydrate_total o device now live : whole_shared o -> exists rec, hydrate (VObj o) device now live = Ok rec.
Proof. intros [sh E]%shared_half_total. unfold hydrate. rewrite E. cbn [rbind]. by eexists. Qed.

Lemma device_not_shared k : k ∈ DEVICE_FIELDS -> k ∉ SHARED_FIELDS.
Proof.
  revert k. apply Forall_forall. apply (bool_decide_unpack _). vm_compute. done.
Qed.

(** A circle survives a restart: the half parked on the relay and the half
    kept on the device give back every field of the record, and the parked half
    carries no device state: no cursor and no comparison of safety numbers
    leaves the device. *)
Theorem halves_roundtrip o now live :
  whole_shared o -> whole_device o ->
  exists sh rec,
    sharedHalf (VObj o) = Ok sh /\
    hydrate (VObj sh) (VObj (deviceHalf (VObj o))) now live = Ok rec /\
    Forall (agrees rec o) (shared_names ++ device_names) /\
    (forall k, k ∈ DEVICE_FIELDS -> obj_get sh k = None).
Proof.
  intros Hs Hd. destruct (shared_half_total o Hs) as [sh E].
  pose proof (shared_half_agrees o sh Hs E) as Ha. pose proof (whole_shared_agrees _ _ Ha Hs) as Hs'.
  pose proof (device_half_agrees o Hd) as Hda. pose proof (whole_device_agrees _ _ Hda Hd) as Hd'.
  destruct (hydrate_total sh (VObj (deviceHalf (VObj o))) now live Hs') as [rec Eh].
  destruct (hydrate_agrees _ _ _ _ _ Hs' Hd' Eh) as [G1 G2].
  exists sh, rec. split; [exact E|]. split; [exact Eh|]. split.
  - apply Forall_app; split; by eapply agrees_trans.
  - intros k Hk. apply obj_get_None. intros Hin. apply (device_not_shared k Hk). by eapply shared_half_keys.
Qed.
End halves.

Lemma halves_roundtrip_witness :
  exists sh rec,
    Circles.sharedHalf (VObj (own_props (jobj
      [("id", VStr (js "c1")); ("name", VStr (js "home")); ("channels", VArr [VStr (js "general")]);
       ("voiceChannels", VArr []); ("chanMeta", VObj []); ("keys", VObj []); ("overview", VNull);
       ("notices", VArr []); ("rsvps", VObj []); ("invites", VArr []); ("lastSeq", VNum (int 7));
       ("epoch", VNum (int 2)); ("seen", VObj []); ("verified", VArr [VStr (js "bob")]);
       ("verifiedSn", jobj [("bob", VStr (js "123"))]); ("mismatched", VObj []); ("joinedAt", VNum (int 1))]%string))) = Ok sh /\
    getq (VObj rec) "verifiedSn" = jobj [("bob"%string, VStr (js "123"))].
Proof.
  match goal with |- context [own_props ?v] => set (o := own_props v) end.
  destruct (halves_roundtrip o (int 9) true) as (sh & rec & Es & _ & Ha & _).
  - split; [by eexists _, _|]. split; [by eexists|]. split; [by vm_compute|].
    apply (bool_decide_unpack _). vm_compute. done.
  - apply (bool_decide_unpack _). vm_compute. done.
  - exists sh, rec. split; [exact Es|]. rewrite Forall_forall in Ha.
    assert (agrees rec o "verifiedSn") as E by (apply Ha; by apply (bool_decide_unpack _); vm_compute).
    unfold getq. rewrite E. vm_compute. reflexivity.
Defined.

(** *** Two devices' backups *)

Section merge.
Import Circles.

Definition has_id (id : jstr) (c : val) : bool := strict_eq c.["id"] (VStr id).

(** The circle of that id a list ends up with. *)
Definition last_of (id : jstr) (l : list val) : option val := last (filter (fun c => has_id id c = true) l).

Lemma same_value_text k s : same_value k (VStr s) = true <-> k = VStr s.
Proof. destruct k as [| | |[]| | | |]; cbn; try done. rewrite str_eqb_eq. naive_solver. Qed.

Lemma same_value_text_l k s : same_value (VStr s) k = true <-> k = VStr s.
Proof. destruct k as [| | |[]| | | |]; cbn; try done. rewrite str_eqb_eq. naive_solver. Qed.

Lemma has_id_text id c : has_id id c = true <-> c.["id"] = VStr id.
Proof. unfold has_id. destruct c.["id"]; cbn; try done. rewrite str_eqb_eq. naive_solver. Qed.

(** Every entry is filed under its own id. *)
Definition filed (m : list (val * val)) : Prop :=
  Forall (fun e => forall id, e.1 = VStr id <-> has_id id e.2 = true) m.

Lemma vmap_set_filed m c : filed m -> filed (vmap_set m c.["id"] c).
Proof.
  assert (forall id, c.["id"] = VStr id <-> has_id id c = true) as Hc by (intros; by rewrite has_id_text).
  induction 1 as [|[k' v'] m Hk Hm IH]; cbn [vmap_set]; [by constructor; [exact Hc|constructor]|].
  destruct (same_value k' c.["id"]) eqn:E; constructor; [|done|done|done].
  intros id. rewrite <- Hc. cbn [fst]. split; intros Hs.
  - rewrite Hs in E. by apply same_value_text_l in E.
  - rewrite Hs in E. by apply same_value_text in E.
Qed.

Lemma vmap_set_shelf m c id x :
  filed m -> filter (fun c => has_id id c = true) m.*2 = option_list x ->
  filter (fun c => has_id id c = true) (vmap_set m c.["id"] c).*2
    = option_list (if has_id id c then Some c else x).
Proof.
  intros Hf. revert x. induction Hf as [|[k' v'] m Hk Hm IH]; intros x; cbn [vmap_set].
  - rewrite !fmap_cons, filter_cons. cbn. intros E. destruct (has_id id c) eqn:Ec; [done|by rewrite E].
  - rewrite fmap_cons, filter_cons. cbn [fst snd]. specialize (Hk id). cbn [fst snd] in Hk.
    destruct (same_value k' c.["id"]) eqn:Es; rewrite fmap_cons, filter_cons; cbn [snd].
    + assert (has_id id c = has_id id v') as ->.
      2: { destruct (has_id id v'); cbn; [|done]. destruct x; cbn; [|done]. by intros [= -> ->]. }
      apply eq_true_iff_eq. rewrite <- Hk, has_id_text. split; intros Hs.
      * rewrite Hs in Es. by apply same_value_text in Es.
      * rewrite Hs in Es. by apply same_value_text_l in Es.
    + destruct (has_id id v') eqn:Ev; cbn.
      * intros E. assert (has_id id c = false) as Ec.
        { apply not_true_iff_false. rewrite has_id_text. intros Hs. rewrite (proj2 Hk eq_refl), Hs in Es.
          cbn in Es. by rewrite str_eqb_refl in Es. }
        destruct x as [y|]; [|done]. cbn in E. injection E as -> E. rewrite Ec in IH |- *.
        by rewrite (IH None E).
      * by apply IH.
Qed.

Lemma by_id_shelf id l m x :
  id <> [] -> filed m -> filter (fun c => has_id id c = true) m.*2 = option_list x ->
  filed (by_id m l) /\
  filter (fun c => has_id id c = true) (by_id m l).*2
    = option_list (match last_of id l with Some c => Some c | None => x end).
Proof.
  intros Hid. unfold by_id, last_of. revert m x. induction l as [|c l IH]; intros m x Hf E; [done|].
  cbn [fold_left]. rewrite filter_cons. destruct (truthy c.["id"]) eqn:Et.
  - destruct (IH _ _ (vmap_set_filed m c Hf) (vmap_set_shelf m c id x Hf E)) as [H1 H2]. split; [done|].
    rewrite H2. f_equal. destruct (has_id id c) eqn:Ec; [|done].
    rewrite decide_True by done. rewrite last_cons. by destruct (last _).
  - destruct (IH m x Hf E) as [H1 H2]. split; [done|]. rewrite H2. f_equal.
    destruct (has_id id c) eqn:Ec; [|done]. apply has_id_text in Ec. rewrite Ec in Et. cbn in Et.
    apply negb_false_iff, bool_decide_eq_true in Et. done.
Qed.

(** When another device's backup got there first, the merge keeps every
    circle either side has, once: ours where both have it, theirs where only
    they do. *)
Theorem mergeBackups_loses_no_circle mine theirs out id :
  id <> [] -> mergeBackups (VArr mine) (VArr theirs) = Ok out ->
  filter (fun c => has_id id c = true) out
    = option_list (match last_of id mine with Some c => Some c | None => last_of id theirs end).
Proof.
  intros Hid E. unfold mergeBackups in E. cbn in E. apply Ok_inj in E as <-.
  assert (filed []) as H0 by constructor.
  destruct (by_id_shelf id theirs [] None Hid H0 eq_refl) as [H1 H2].
  destruct (by_id_shelf id mine _ _ Hid H1 H2) as [_ H3]. rewrite H3.
  by destruct (last_of id mine), (last_of id theirs).
Qed.
End merge.

Lemma mergeBackups_loses_no_circle_witness :
  filter (fun c => has_id (js "b") c = true)
    [jobj [("id"%string, VStr (js "b"))]; jobj [("id"%string, VStr (js "a")); ("name"%string, VStr (js "A"))]]
  = [jobj [("id"%string, VStr (js "b"))]].
Proof.
  apply (mergeBackups_loses_no_circle
    [jobj [("id"%string, VStr (js "a")); ("name"%string, VStr (js "A"))]]
    [jobj [("id"%string, VStr (js "b"))]; jobj [("id"%string, VStr (js "a"))]]); [discriminate|].
  vm_compute. reflexivity.
Defined.

(** *** Never both *)

Section trust.
Import Trust.

(** What a user and the key check do to a record; a safety number is not
    empty. *)
Inductive compares (r : trust) : trust -> Prop :=
| compares_right peer sn : sn <> [] -> compares r (applyVerified r peer (VStr sn))
| compares_wrong peer sn : sn <> [] -> compares r (applyMismatch r peer (VStr sn))
| key_changes peer sn : compares r (retireMismatch r peer (VStr sn)).1.

Definition fresh_trust : trust := {| verifiedSn := None; verified := None; mismatched := None |}.

Definition peers (o : option obj) : list jstr := obj_keys (default [] o).
Definition numbered (o : option obj) : Prop := Forall (fun kv => truthy kv.2 = true) (default [] o).

Definition exclusive (r : trust) : Prop :=
  (forall p, p ∈ peers (verifiedSn r) -> p ∉ peers (mismatched r)) /\
  default [] (verified r) = peers (verifiedSn r) /\
  numbered (verifiedSn r) /\ numbered (mismatched r).

Lemma held_truthy o p : numbered o -> p ∈ peers o -> truthy (held o p) = true.
Proof.
  unfold numbered, peers. destruct o as [o|]; cbn [from_option id]; [|by intros _ []%elem_of_nil].
  intros Hn Hp. cbn [held prop]. destruct (obj_get o p) as [v|] eqn:E; cbn [from_option id].
  - apply obj_get_elem in E. rewrite Forall_forall in Hn. by apply (Hn (p, v)).
  - by apply obj_get_None in E.
Qed.

Lemma peers_without o p k : k ∈ obj_keys (without o p) <-> k <> p /\ k ∈ obj_keys o.
Proof.
  unfold obj_keys, without. rewrite !list_elem_of_fmap. split.
  - intros (kv & -> & [Hk Hin]%list_elem_of_filter). split; [done|]. by exists kv.
  - intros [Hk (kv & -> & Hin)]. exists kv. split; [done|]. by apply list_elem_of_filter.
Qed.

Lemma numbered_put o p v : numbered o -> truthy v = true -> numbered (Some (obj_put (default [] o) p v)).
Proof.
  unfold numbered. cbn [from_option id]. rewrite !Forall_forall. intros Hn Hv [k w] Hin.
  unfold obj_put in Hin. destruct (obj_get (default [] o) p) eqn:E.
  - revert Hin. generalize (default [] o) Hn. intros l Hl. clear -Hl Hv.
    induction l as [|[k0 v0] l IH]; cbn; [intros []%elem_of_nil|].
    destruct (str_eqb k0 p); rewrite elem_of_cons; intros [[= -> ->]|Hin]; cbn; try done.
    + apply (Hl (k, w)). by right.
    + apply (Hl (k0, v0)). by left.
    + apply IH; [|done]. intros x Hx. apply Hl. by right.
  - rewrite obj_add_perm, elem_of_cons in Hin. destruct Hin as [[= -> ->]|Hin]; [done|by apply (Hn (k, w))].
Qed.

Lemma numbered_without o p : numbered o -> numbered (Some (without (default [] o) p)).
Proof. apply Forall_filter. Qed.

Lemma text_truthy s : s <> [] -> truthy (VStr s) = true.
Proof. intros Hs. cbn. by apply negb_true_iff, bool_decide_eq_false. Qed.

Lemma delete_without (o : obj) p : obj_delete o p = without o p.
Proof.
  unfold without. induction o as [|[k v] o IH]; cbn [obj_delete]; [done|]. rewrite filter_cons. cbn [fst].
  destruct (str_eqb k p) eqn:E; rewrite IH.
  - apply str_eqb_eq in E. rewrite decide_False; [done|]. by intros [].
  - apply str_eqb_neq in E. by rewrite decide_True.
Qed.

Lemma compares_exclusive r r' : exclusive r -> compares r r' -> exclusive r'.
Proof.
  intros (Hx & Hv & Hn & Hm) [p sn Hsn|p sn Hsn|p sn]; unfold exclusive.
  - cbn [applyVerified verifiedSn verified mismatched]. split_and!; [|done|by apply numbered_put, text_truthy|].
    + intros q [->|Hq]%obj_put_keys.
      * destruct (truthy (held (mismatched r) p)) eqn:Et.
        -- unfold peers. cbn [from_option id]. rewrite peers_without. tauto.
        -- intros Hin. by rewrite (held_truthy _ _ Hm Hin) in Et.
      * apply Hx in Hq. destruct (truthy _); [|done]. unfold peers. cbn [from_option id]. rewrite peers_without. tauto.
    + destruct (truthy _); [by apply numbered_without|done].
  - unfold applyMismatch. destruct (truthy (held (verifiedSn r) p)) eqn:Et;
      cbn [verifiedSn verified mismatched]; (split_and!; [|done| |by apply numbered_put, text_truthy]).
    + intros q. unfold peers. cbn [from_option id]. rewrite peers_without. intros [Hqp Hq] Hin.
      apply obj_put_keys in Hin as [->|Hin]; [done|]. by apply (Hx q).
    + by apply numbered_without.
    + intros q Hq Hin. apply obj_put_keys in Hin as [->|Hin]; [|by apply (Hx q)].
      by rewrite (held_truthy _ _ Hn Hq) in Et.
    + done.
  - unfold retireMismatch. destruct (truthy _); cbn [negb]; [|done]. destruct (strict_eq _ _); [done|].
    cbn [fst verifiedSn verified mismatched]. split_and!; [|done|done|].
    + intros q Hq. apply Hx in Hq. unfold peers in *. destruct (mismatched r) as [o|]; [|done].
      cbn [fmap option_fmap option_map from_option id] in *. rewrite delete_without, peers_without. tauto.
    + unfold numbered in *. destruct (mismatched r) as [o|]; [|done].
      cbn [fmap option_fmap option_map from_option id] in *. rewrite delete_without. by apply Forall_filter.
Qed.

(** However comparisons right and wrong and key changes follow each other,
    no peer is ever both verified and mismatched, and the list of verified
    peers is exactly those whose safety number is on record. *)
Theorem trust_never_both r :
  rtc compares fresh_trust r ->
  (forall p, p ∈ peers (verifiedSn r) -> p ∉ peers (mismatched r)) /\
  default [] (verified r) = peers (verifiedSn r).
Proof.
  intros Hr. assert (exclusive r) as (H1 & H2 & _); [|done].
  assert (exclusive fresh_trust) as H0.
  { split_and!; [intros p []%elem_of_nil|done|apply Forall_nil_2|apply Forall_nil_2]. }
  induction Hr as [|x y z Hxy _ IH]; [done|]. apply IH. by eapply compares_exclusive.
Qed.

(** The last comparison decides: after a match the peer is verified and not
    mismatched, after a failed one mismatched and not verified, and a changed
    key never makes a peer verified. *)
Theorem last_comparison_stands r p sn :
  exclusive r -> sn <> [] ->
  (p ∈ peers (verifiedSn (applyVerified r p (VStr sn))) /\ p ∉ peers (mismatched (applyVerified r p (VStr sn)))) /\
  (p ∈ peers (mismatched (applyMismatch r p (VStr sn))) /\ p ∉ peers (verifiedSn (applyMismatch r p (VStr sn)))) /\
  verifiedSn (retireMismatch r p (VStr sn)).1 = verifiedSn r.
Proof.
  intros He Hsn.
  assert (forall (o : obj) v, p ∈ obj_keys (obj_put o p v)) as Hput.
  { intros o v. destruct (decide (p ∈ obj_keys (obj_put o p v))) as [|Hn]; [done|].
    apply obj_get_None in Hn. by rewrite obj_get_put, str_eqb_refl in Hn. }
  pose proof (compares_exclusive r _ He (compares_right r p sn Hsn)) as (H1 & _).
  pose proof (compares_exclusive r _ He (compares_wrong r p sn Hsn)) as (H2 & _).
  assert (p ∈ peers (mismatched (applyMismatch r p (VStr sn)))) as Hm.
  { unfold applyMismatch. destruct (truthy _); apply Hput. }
  split_and!; [apply Hput|by apply H1, Hput|done| |].
  - intros Hv. by apply (H2 p).
  - unfold retireMismatch. destruct (truthy _); cbn [negb]; [|done]. by destruct (strict_eq _ _).
Qed.
End trust.

Lemma trust_never_both_witness :
  default [] (Trust.verified (Trust.applyMismatch (Trust.applyVerified fresh_trust (js "bob") (VStr (js "1"))) (js "bob") (VStr (js "2"))))
    = peers (Trust.verifiedSn (Trust.applyMismatch (Trust.applyVerified fresh_trust (js "bob") (VStr (js "1"))) (js "bob") (VStr (js "2")))).
Proof.
  apply (trust_never_both _). eapply rtc_l; [apply (compares_right _ (js "bob") (js "1")); discriminate|].
  apply rtc_once. apply (compares_wrong _ (js "bob") (js "2")). discriminate.
Defined.

Lemma last_comparison_stands_witness :
  js "bob" ∈ peers (Trust.verifiedSn (Trust.applyVerified fresh_trust (js "bob") (VStr (js "1")))).
Proof.
  apply (last_comparison_stands fresh_trust (js "bob") (js "1")); [|discriminate].
  split_and!; [intros p []%elem_of_nil|reflexivity|apply Forall_nil_2|apply Forall_nil_2].
Defined.
