(* ===== verification/Fold.v ===== *)
(** * Folding messages into groups (client/src/lib/fold.js)

    Day dividers, system chips and sender groups.  A group renders one header
    with the sender's trust badge, so which lines share a group decides what a
    badge vouches for.  The local calendar and the locale are the host's. *)

From stdpp Require Import base list numbers option strings.
From Stdlib Require Import ZArith NArith Lia.
From S2P Require Import Prelude JsNum JsString JsValue.
Open Scope Z_scope.

Class Calendar := {
  (** Year, month and day of the month of an instant in local time; an invalid
      date has none, and is on no day. *)
  civil : num -> option (Z * Z * Z);
  (** [d.setDate(d.getDate() - 1)]. *)
  day_before : num -> num;
  (** [toLocaleDateString] with weekday, month and day. *)
  locale_day : num -> jstr;
}.

Module Fold.
Section fold.
Context `{Calendar}.

Definition GROUP_WINDOW : num := int (5 * 60 * 1000).

Definition same_day (a b : num) : bool :=
  match civil a, civil b with
  | Some d, Some d' => bool_decide (d = d')
  | _, _ => false
  end.

Definition dayLabel (now ts : num) : jstr :=
  if same_day ts now then js "today"
  else if same_day ts (day_before now) then js "yesterday"
  else locale_day ts.

(** What the fold reads of a message. *)
Record msg := { ts : num; sender : val; system : val; m_auth : val; m_rest : val }.

Record group := { g_sender : val; g_ts : num; g_last : num; g_lines : list msg; g_auth : val; g_key : jstr }.

Inductive item :=
| IDay (label key : jstr)
| ISystem (m : msg) (key : jstr)
| IGroup (g : group).

(** The locals of the loop; [open_] is the place in [out] of the object the
    variable [group] refers to. *)
Record state := { out : list item; day : option jstr; open_ : option nat }.

Definition start : state := {| out := []; day := None; open_ := None |}.

Definition count (s : state) : jstr := digits 10 (Z.of_nat (length (out s))).

Definition divider (now : num) (m : msg) (s : state) : state :=
  let label := dayLabel now (ts m) in
  if bool_decide (day s = Some label) then s
  else {| out := out s ++ [IDay label (js "d" ++ num_to_string (ts m))]; day := Some label; open_ := None |}.

Definition auth_of (m : msg) : val := m_auth m ⁇ VStr (js "signed").

(** The group the message joins, if one is open for it. *)
Definition joins (m : msg) (s : state) : option (nat * group) :=
  match open_ s with
  | None => None
  | Some i =>
      match out s !! i with
      | Some (IGroup g) =>
          if strict_eq (g_sender g) (sender m) && strict_eq (g_auth g) (auth_of m)
             && nltb (nsub (ts m) (g_last g)) GROUP_WINDOW
          then Some (i, g) else None
      | _ => None
      end
  end.

Definition extend (g : group) (m : msg) : group :=
  {| g_sender := g_sender g; g_ts := g_ts g; g_last := ts m; g_lines := g_lines g ++ [m];
     g_auth := g_auth g; g_key := g_key g |}.

Definition place (m : msg) (s : state) : state :=
  if truthy (system m) then
    {| out := out s ++ [ISystem m (js "s" ++ num_to_string (ts m) ++ count s)]; day := day s; open_ := None |}
  else match joins m s with
       | Some (i, g) => {| out := <[i := IGroup (extend g m)]> (out s); day := day s; open_ := open_ s |}
       | None =>
           {| out := out s ++ [IGroup {| g_sender := sender m; g_ts := ts m; g_last := ts m; g_lines := [m];
                                         g_auth := auth_of m; g_key := js "g" ++ num_to_string (ts m) ++ count s |}];
              day := day s; open_ := Some (length (out s)) |}
       end.

Definition step (now : num) (s : state) (m : msg) : state := place m (divider now m s).

Definition fold (now : num) (messages : list msg) : list item := out (fold_left (step now) messages start).

(** ** Theorems *)

(** The messages an item shows. *)
Definition shown (i : item) : list msg :=
  match i with IDay _ _ => [] | ISystem m _ => [m] | IGroup g => g_lines g end.

(** Consecutive lines are less than five minutes apart. *)
Fixpoint close_lines (l : list msg) : Prop :=
  match l with
  | a :: r => match r with
              | b :: _ => nltb (nsub (ts b) (ts a)) GROUP_WINDOW = true /\ close_lines r
              | [] => True
              end
  | [] => True
  end.

(** One header, one sender, one kind of evidence. *)
Definition honest (i : item) : Prop :=
  match i with
  | IDay _ _ => True
  | ISystem m _ => truthy (system m) = true
  | IGroup g =>
      g_lines g <> [] /\ close_lines (g_lines g) /\ (ts <$> last (g_lines g)) = Some (g_last g) /\
      Forall (fun m => truthy (system m) = false /\ sender m = g_sender g /\ auth_of m = g_auth g) (g_lines g)
  end.

Definition open_last (s : state) : Prop :=
  match open_ s with None => True | Some i => S i = length (out s) end.

Lemma close_lines_snoc l a m :
  close_lines l -> last l = Some a -> nltb (nsub (ts m) (ts a)) GROUP_WINDOW = true -> close_lines (l ++ [m]).
Proof.
  induction l as [|x [|y l] IH]; cbn; [done| |].
  - intros _ [= ->] ?. done.
  - intros [Hxy Hc] Hl Hm. split; [done|]. by apply IH.
Qed.

(** The names on messages are texts. *)
Definition named (m : msg) : Prop := is_str (sender m) = true /\ (is_str (m_auth m) || nullish (m_auth m)) = true.

Lemma strict_eq_str_l v w : is_str w = true -> strict_eq v w = true -> w = v.
Proof. destruct w; try done. intros _. destruct v; cbn; try done. by intros ->%str_eqb_eq. Qed.

Lemma auth_of_str m : named m -> is_str (auth_of m) = true.
Proof. intros [_ Ha]. unfold auth_of, coalesce. by destruct (m_auth m). Qed.

Definition sound (s : state) (seen : list msg) : Prop :=
  Forall honest (out s) /\ concat (shown <$> out s) = seen /\ open_last s.

Lemma divider_sound now m s seen : sound s seen -> sound (divider now m s) seen.
Proof.
  intros (Hh & Hs & Ho). unfold divider. case_bool_decide; [done|]. split_and!; cbn [out];
    [|by rewrite fmap_app, concat_app, Hs; cbn; rewrite app_nil_r|done].
  apply Forall_app. split; [done|]. by repeat constructor.
Qed.

Lemma append_sound s seen i ms o d :
  sound s seen -> honest i -> shown i = ms -> open_last {| out := out s ++ [i]; day := d; open_ := o |} ->
  sound {| out := out s ++ [i]; day := d; open_ := o |} (seen ++ ms).
Proof.
  intros (Hh & Hs & _) Hi <- Ho. split_and!; cbn [out];
    [|by rewrite fmap_app, concat_app, Hs; cbn; rewrite app_nil_r|done].
  apply Forall_app. split; [done|]. by constructor.
Qed.

Lemma joins_spec m s i g :
  joins m s = Some (i, g) ->
  open_ s = Some i /\ out s !! i = Some (IGroup g) /\ strict_eq (g_sender g) (sender m) = true /\
  strict_eq (g_auth g) (auth_of m) = true /\ nltb (nsub (ts m) (g_last g)) GROUP_WINDOW = true.
Proof.
  unfold joins. destruct (open_ s) as [j|]; [|done]. destruct (out s !! j) as [[]|] eqn:E; try done.
  destruct (_ && _ && _) eqn:Ec; [|done]. intros [= <- <-]. rewrite !andb_true_iff in Ec.
  destruct Ec as [[? ?] ?]. by split_and!.
Qed.

Lemma extend_honest g m :
  named m -> truthy (system m) = false -> honest (IGroup g) ->
  strict_eq (g_sender g) (sender m) = true -> strict_eq (g_auth g) (auth_of m) = true ->
  nltb (nsub (ts m) (g_last g)) GROUP_WINDOW = true -> honest (IGroup (extend g m)).
Proof.
  intros Hm Hsys (Hne & Hc & Hl & Hall) Hsd Hau Hw. cbn. destruct (last (g_lines g)) as [a|] eqn:El; [|done].
  injection Hl as Hl. split_and!.
  - by destruct (g_lines g).
  - eapply close_lines_snoc; [done|exact El|]. by rewrite Hl.
  - by rewrite last_snoc.
  - apply Forall_app. split; [done|]. constructor; [|constructor]. split_and!; [done| |].
    + apply strict_eq_str_l; [apply Hm|done].
    + apply strict_eq_str_l; [by apply auth_of_str|done].
Qed.

Lemma place_sound m s seen : named m -> sound s seen -> sound (place m s) (seen ++ [m]).
Proof.
  intros Hm Hs. unfold place. destruct (truthy (system m)) eqn:Hsys.
  { apply append_sound; [exact Hs|exact Hsys|reflexivity|exact I]. }
  destruct (joins m s) as [[i g]|] eqn:Ej.
  - apply joins_spec in Ej as (Ho & Hi & Hsd & Hau & Hw). destruct Hs as (Hh & Hseen & Hlast).
    unfold open_last in Hlast. rewrite Ho in Hlast.
    assert (exists l, out s = l ++ [IGroup g] /\ length l = i) as (l & Eo & Hl).
    { exists (take i (out s)). split; [|rewrite length_take; lia].
      rewrite <- (take_drop i (out s)) at 1. f_equal. rewrite (drop_S _ _ _ Hi).
      by rewrite drop_ge by lia. }
    rewrite Eo in Hh. apply Forall_app in Hh as [Hh1 Hh2]. apply (proj1 (Forall_singleton _ _)) in Hh2.
    unfold sound, open_last. cbn [out open_]. rewrite Eo. rewrite <- Hl, insert_app_r_alt, Nat.sub_diag by lia.
    cbn [insert list_insert]. split_and!.
    + apply Forall_app. split; [done|]. apply Forall_singleton. exact (extend_honest g m Hm Hsys Hh2 Hsd Hau Hw).
    + rewrite <- Hseen, Eo, !fmap_app, !concat_app. cbn. by rewrite !app_nil_r, app_assoc.
    + rewrite Ho, Hlast, Eo, !length_app. cbn. lia.
  - eapply append_sound; [done| |done|].
    + cbn. split_and!; [done|done|done|]. by repeat constructor.
    + unfold open_last. cbn. rewrite length_app. cbn. lia.
Qed.

Lemma fold_sound now messages s seen :
  Forall named messages -> sound s seen -> sound (fold_left (step now) messages s) (seen ++ messages).
Proof.
  intros Hm. revert s seen. induction Hm as [|m ms Hm Hms IH]; intros s seen Hs; cbn [fold_left].
  - by rewrite app_nil_r.
  - rewrite cons_middle, app_assoc. apply IH. unfold step. by apply place_sound, divider_sound.
Qed.

(** Every line of a group has the sender and the evidence its header
    shows, no system line is in a group, lines are less than five minutes
    apart, and the folded page shows every message once and in order. *)
Theorem badge_speaks_for_its_lines now messages :
  Forall named messages ->
  Forall honest (fold now messages) /\ concat (shown <$> fold now messages) = messages.
Proof.
  intros Hm. destruct (fold_sound now messages start [] Hm) as (H1 & H2 & _); [|done].
  by split_and!; [constructor| |].
Qed.
End fold.
End Fold.

(** ** A concrete calendar: days of 86,400,000 ms, in universal time *)

Module ToyCalendar.
Definition ms_per_day : Z := 86400000 * scale.

#[export] Instance calendar : Calendar := {|
  civil := fun t => match t with Fin z => Some (0, 0, z / ms_per_day) | _ => None end;
  day_before := fun t => nsub t (int 86400000);
  locale_day := num_to_string;
|}.

Definition line (t : Z) (who au : val) : Fold.msg :=
  {| Fold.ts := int t; Fold.sender := who; Fold.system := VUndef; Fold.m_auth := au; Fold.m_rest := VUndef |}.
End ToyCalendar.
Import ToyCalendar.

Lemma badge_speaks_for_its_lines_witness :
  length (Fold.fold (int 1000)
    [line 1 (VStr (js "ada")) VUndef; line 2 (VStr (js "ada")) (VStr (js "signed"));
     line 3 (VStr (js "ada")) (VStr (js "unsigned"))]) = 3%nat /\
  Forall Fold.honest (Fold.fold (int 1000)
    [line 1 (VStr (js "ada")) VUndef; line 2 (VStr (js "ada")) (VStr (js "signed"));
     line 3 (VStr (js "ada")) (VStr (js "unsigned"))]).
Proof.
  split; [vm_compute; reflexivity|]. apply Fold.badge_speaks_for_its_lines.
  repeat (apply Forall_cons; split); try apply Forall_nil_2; split; reflexivity.
Defined.
