(* ===== verification/Fork.v ===== *)
(** * Fork detection (client/src/lib/fork.js)

    A tally per circle and sender of messages that should have opened and did
    not, and the verdict read from it. *)

From stdpp Require Import base list numbers option strings.
From Stdlib Require Import ZArith NArith Lia Sorting.Permutation.
From S2P Require Import Prelude JsNum JsString JsValue.
Open Scope Z_scope.

Module Fork.

Definition FORK_THRESHOLD : Z := 5.

Inductive reason := restored | replay | self | ahead | suspect.

#[global] Instance reason_eq_dec : EqDecision reason.
Proof. solve_decision. Defined.

(** What the caller knows of the blob that failed. *)
Record info := {
  i_sender : jstr; i_epoch : val; i_me : jstr; i_groupEpoch : val; i_restored : bool; i_replay : bool;
}.

(** [Number.isFinite]: no coercion. *)
Definition finite (v : val) : bool := match v with VNum a => nfinite a | _ => false end.

(** [a > b] on numbers. *)
Definition after (a b : val) : bool := match a, b with VNum x, VNum y => nltb y x | _, _ => false end.

Definition classifyFailure (i : info) : reason :=
  if i_restored i then restored
  else if i_replay i then replay
  else if str_eqb (i_sender i) (i_me i) then self
  else if finite (i_epoch i) && finite (i_groupEpoch i) && after (i_epoch i) (i_groupEpoch i) then ahead
  else suspect.

(** One circle: [counts] a [Map], [seen] a [Set], both in insertion order. *)
Record tally := { counts : list (jstr * Z); seen : list jstr }.
Definition no_tally : tally := {| counts := []; seen := [] |}.

(** [groups], the [Map] from circle to tally. *)
Definition watch := list (jstr * tally).

Definition set_add (l : list jstr) (x : jstr) : list jstr := if bool_decide (x ∈ l) then l else l ++ [x].

(** [#state(group)], created on first use. *)
Definition state (w : watch) (group : jstr) : tally := default no_tally (obj_get w group).

Definition succeeded (w : watch) (group sender : jstr) : watch :=
  let s := state w group in
  map_set w group {| counts := obj_delete (counts s) sender; seen := set_add (seen s) sender |}.

Definition failed (w : watch) (group : jstr) (i : info) : watch * reason :=
  let why := classifyFailure i in
  (if bool_decide (why = suspect) then
     let s := state w group in
     map_set w group
       {| counts := map_set (counts s) (i_sender i) (default 0 (obj_get (counts s) (i_sender i)) + 1);
          seen := set_add (seen s) (i_sender i) |}
   else w, why).

Record verdict_ := { stranded : list jstr; outOfSync : bool }.

Definition verdict (threshold : Z) (w : watch) (group : jstr) : verdict_ :=
  let s := state w group in
  let l := sort_strings (filter (fun e => threshold <= e.2) (counts s)).*1 in
  {| stranded := l;
     outOfSync := Nat.ltb 0 (length l) && Nat.eqb (length l) (length (seen s)) |}.

Definition clear (w : watch) (group : jstr) : watch := obj_delete w group.

Definition quoted (name : jstr) : jstr := [34%N] ++ name ++ [34%N].

Definition forkMessage (v : verdict_) (name : jstr) : option jstr :=
  if outOfSync v then
    Some (quoted name ++ js " is out of sync — this device is on a branch of its own and cannot read new messages. Ask a member for a fresh invite link and open it to rejoin.")
  else match stranded v with
       | [] => None
       | [s] => Some (js "messages from " ++ s ++ js " in " ++ quoted name
                      ++ js " cannot be read — their device may need to rejoin via a fresh invite link.")
       | l => Some (js "messages from " ++ str_join (js ", ") l ++ js " in " ++ quoted name
                    ++ js " cannot be read — their devices may need to rejoin via a fresh invite link.")
       end.

(** ** What happens to a circle *)

Inductive event :=
| Opened (sender : jstr)
| Failed (i : info)
| Cleared.

Definition hear (group : jstr) (w : watch) (e : event) : watch :=
  match e with
  | Opened sender => succeeded w group sender
  | Failed i => (failed w group i).1
  | Cleared => clear w group
  end.

(** The specification, read off the history of the circle: how many messages
    of a sender in a row could not be read for no good reason, and whether
    anything is known of the sender. *)
Definition count_one (sender : jstr) (n : Z) (e : event) : Z :=
  match e with
  | Opened s => if str_eqb s sender then 0 else n
  | Failed i => if bool_decide (classifyFailure i = suspect) && str_eqb (i_sender i) sender then n + 1 else n
  | Cleared => 0
  end.
Definition streak (events : list event) (sender : jstr) : Z := fold_left (count_one sender) events 0.

Definition judge_one (sender : jstr) (b : bool) (e : event) : bool :=
  match e with
  | Opened s => str_eqb s sender || b
  | Failed i => bool_decide (classifyFailure i = suspect) && str_eqb (i_sender i) sender || b
  | Cleared => false
  end.
Definition judged (events : list event) (sender : jstr) : bool := fold_left (judge_one sender) events false.

(** ** Theorems *)

(** What happens in the circles of a device, one event after the other. *)
Definition run (w : watch) (events : list (jstr * event)) : watch := fold_left (fun w ge => hear ge.1 w ge.2) events w.

(** What happened in one of them. *)
Definition history (group : jstr) (events : list (jstr * event)) : list event := (filter (fun ge => ge.1 = group) events).*2.

(** The tally is the history's. *)
Definition keeps (s : tally) (streaks : jstr -> Z) (known : jstr -> bool) : Prop :=
  NoDup (obj_keys (counts s)) /\ NoDup (seen s) /\
  (forall x, default 0 (obj_get (counts s) x) = streaks x /\ 0 <= streaks x) /\
  (forall x, x ∈ seen s <-> known x = true) /\
  (forall x, x ∈ obj_keys (counts s) -> x ∈ seen s).

Lemma set_add_NoDup l x : NoDup l -> NoDup (set_add l x).
Proof. intros Hl. unfold set_add. case_bool_decide; [done|]. by apply NoDup_snoc. Qed.

Lemma elem_of_set_add l x y : y ∈ set_add l x <-> x = y \/ y ∈ l.
Proof.
  unfold set_add. case_bool_decide; [naive_solver|]. rewrite elem_of_app, list_elem_of_singleton. naive_solver.
Qed.

Lemma obj_delete_keys {A} (o : list (jstr * A)) k x : x ∈ obj_keys (obj_delete o k) -> x ∈ obj_keys o.
Proof.
  unfold obj_keys. induction o as [|[k' v] o IH]; cbn; [done|]. destruct (str_eqb k' k); cbn; rewrite !elem_of_cons; tauto.
Qed.

Lemma obj_delete_NoDup {A} (o : list (jstr * A)) k : NoDup (obj_keys o) -> NoDup (obj_keys (obj_delete o k)).
Proof.
  induction o as [|[k' v] o IH]; cbn; [done|]. intros [Hk Hn]%NoDup_cons. destruct (str_eqb k' k); cbn; [by apply IH|].
  apply NoDup_cons. split; [|by apply IH]. intros Hin. apply Hk. by eapply obj_delete_keys.
Qed.

Lemma map_set_in {A} (m : list (jstr * A)) k v x : x ∈ obj_keys (map_set m k v) -> x = k \/ x ∈ obj_keys m.
Proof.
  destruct (map_set_keys m k v) as [->|[-> _]]; [by right|].
  rewrite elem_of_app, list_elem_of_singleton. tauto.
Qed.

Lemma keeps_ext s f g known known' :
  (forall x, f x = g x) -> (forall x, known x = known' x) -> keeps s f known -> keeps s g known'.
Proof.
  intros Hf Hk (H1 & H2 & H3 & H4 & H5). split_and!; [done|done| | |done].
  - intros x. rewrite <- Hf. apply H3.
  - intros x. rewrite <- Hk. apply H4.
Qed.

Lemma hear_keeps group w e f known :
  keeps (state w group) f known ->
  keeps (state (hear group w e) group) (fun x => count_one x (f x) e) (fun x => judge_one x (known x) e).
Proof.
  intros Hk. pose proof Hk as (H1 & H2 & H3 & H4 & H5). destruct e as [sender|i|]; cbn [hear].
  - unfold succeeded. unfold state at 1. rewrite obj_get_map_set, str_eqb_refl. cbn [from_option id].
    split_and!; cbn [counts seen].
    + by apply obj_delete_NoDup.
    + by apply set_add_NoDup.
    + intros x. cbn [count_one]. rewrite obj_get_delete. destruct (H3 x). by destruct (str_eqb sender x).
    + intros x. cbn [judge_one]. by rewrite elem_of_set_add, orb_true_iff, str_eqb_eq, H4.
    + intros x Hx%obj_delete_keys. apply elem_of_set_add. auto.
  - unfold failed. cbn [fst]. case_bool_decide as Hs.
    + unfold state at 1. rewrite obj_get_map_set, str_eqb_refl. cbn [from_option id].
      split_and!; cbn [counts seen].
      * by apply map_set_NoDup.
      * by apply set_add_NoDup.
      * intros x. cbn [count_one]. rewrite (bool_decide_true _ Hs), obj_get_map_set. cbn [andb].
        destruct (H3 x), (H3 (i_sender i)). destruct (str_eqb (i_sender i) x) eqn:E; [|done].
        apply str_eqb_eq in E as <-. cbn. lia.
      * intros x. cbn [judge_one]. rewrite (bool_decide_true _ Hs). cbn [andb].
        by rewrite elem_of_set_add, orb_true_iff, str_eqb_eq, H4.
      * intros x [->|Hx]%map_set_in; apply elem_of_set_add; auto.
    + eapply keeps_ext; [| |exact Hk]; intros x; cbn; by rewrite (bool_decide_false _ Hs).
  - unfold clear, state. rewrite obj_get_delete, str_eqb_refl. cbn.
    split_and!; cbn; [constructor|constructor|done| |by intros x []%elem_of_nil].
    intros x. split; [by intros []%elem_of_nil|done].
Qed.

(** An event of another circle. *)
Lemma hear_elsewhere group other w e : other <> group -> state (hear other w e) group = state w group.
Proof.
  intros Hne. apply str_eqb_neq in Hne. unfold state. destruct e as [sender|i|]; cbn [hear].
  - unfold succeeded. by rewrite obj_get_map_set, Hne.
  - unfold failed. cbn [fst]. case_bool_decide; [|done]. by rewrite obj_get_map_set, Hne.
  - unfold clear. by rewrite obj_get_delete, Hne.
Qed.

Lemma run_keeps group w events f known :
  keeps (state w group) f known ->
  keeps (state (run w events) group)
    (fun x => fold_left (count_one x) (history group events) (f x))
    (fun x => fold_left (judge_one x) (history group events) (known x)).
Proof.
  revert w f known. induction events as [|[g e] events IH]; intros w f known Hk; [done|].
  unfold run, history. cbn [fold_left fst snd]. rewrite filter_cons. cbn [fst]. destruct (decide (g = group)) as [->|Hne].
  - apply (IH (hear group w e)). by apply hear_keeps.
  - apply (IH (hear g w e)). by rewrite hear_elsewhere.
Qed.

(** Lists without repetition, one in the other, of the same length. *)
Lemma same_length_all (l k : list jstr) :
  NoDup l -> NoDup k -> (forall x, x ∈ l -> x ∈ k) ->
  Nat.eqb (length l) (length k) = true <-> forall x, x ∈ k -> x ∈ l.
Proof.
  intros Hl Hk Hin. assert (l ⊆+ k) as Hsub by (by apply NoDup_submseteq).
  rewrite Nat.eqb_eq. split.
  - intros Hlen x Hx. assert (l ≡ₚ k) as -> by (apply submseteq_length_Permutation; [done|lia]). done.
  - intros Hback. apply Permutation_length, list.NoDup_Permutation; [done|done|]. naive_solver.
Qed.

(** C24: the verdict on a circle is what its own history says, however the events
    of other circles fall between: a sender is stranded when as many of its
    messages in a row as the threshold could not be read without a good reason (a
    replay, our own echo, an epoch we have not reached, a restored stub), and the
    device counts itself out of sync when it can judge somebody and everybody it
    can judge is stranded. *)
Theorem verdict_reads_history threshold group events (own := history group events) :
  0 < threshold ->
  let v := verdict threshold (run [] events) group in
  (forall x, x ∈ stranded v <-> threshold <= streak own x) /\
  (outOfSync v = true <->
     (exists x, judged own x = true) /\ forall x, judged own x = true -> threshold <= streak own x).
Proof.
  intros Ht v.
  assert (keeps (state [] group) (fun _ => 0) (fun _ => false)) as H0.
  { split_and!; cbn; [constructor|constructor|done| |by intros x []%elem_of_nil].
    intros x. split; [by intros []%elem_of_nil|done]. }
  destruct (run_keeps group [] events _ _ H0) as (H1 & H2 & H3 & H4 & H5).
  set (s := state (run [] events) group) in *. fold own in H3, H4.
  assert (forall x, x ∈ stranded v <-> threshold <= streak own x) as Hst.
  { intros x. cbn [v verdict stranded]. fold s. unfold sort_strings. rewrite sort_by_perm, list_elem_of_fmap.
    destruct (H3 x) as [Hx _]. unfold streak. rewrite <- Hx. split.
    - intros ([k n] & -> & [Hn Hin]%list_elem_of_filter). cbn in *.
      rewrite (obj_get_NoDup _ _ _ H1 Hin). done.
    - intros Hn. destruct (obj_get (counts s) x) as [n|] eqn:E; cbn in Hn; [|lia].
      exists (x, n). split; [done|]. apply list_elem_of_filter. split; [done|]. by apply obj_get_elem. }
  split; [exact Hst|].
  assert (NoDup (stranded v)) as Hnd.
  { cbn [v verdict stranded]. unfold sort_strings. rewrite sort_by_perm.
    eapply sublist_NoDup; [exact H1|]. apply fmap_sublist, sublist_filter. }
  assert (forall x, x ∈ stranded v -> x ∈ seen s) as Hin.
  { intros x Hx. apply H5. apply Hst in Hx. destruct (H3 x) as [E _]. unfold streak in Hx.
    destruct (obj_get (counts s) x) eqn:Eg; cbn in E; [|lia]. apply obj_get_elem in Eg.
    unfold obj_keys. apply list_elem_of_fmap. by exists (x, z). }
  change (outOfSync v) with (Nat.ltb 0 (length (stranded v)) && Nat.eqb (length (stranded v)) (length (seen s))).
  rewrite andb_true_iff, (same_length_all _ _ Hnd H2 Hin), Nat.ltb_lt. split.
  - intros [Hlen Hall]. destruct (stranded v) as [|x l] eqn:El; [cbn in Hlen; lia|]. split.
    + exists x. apply H4, Hin. by left.
    + intros y Hy. apply Hst, Hall, H4, Hy.
  - intros [[x Hx] Hall]. split; [|intros y Hy; apply Hst, Hall, H4, Hy].
    assert (x ∈ stranded v) as Hxs by (apply Hst, Hall, Hx). destruct (stranded v); [by apply elem_of_nil in Hxs|cbn; lia].
Qed.

(** Carol cannot be read in [g], where Bob can, and has no trouble in [h]. *)
Lemma verdict_reads_history_witness :
  let carol := {| i_sender := js "carol"; i_epoch := VNum (int 3); i_me := js "ada"; i_groupEpoch := VNum (int 3);
                  i_restored := false; i_replay := false |} in
  let events := [(js "g", Failed carol); (js "h", Opened (js "carol")); (js "g", Failed carol); (js "g", Opened (js "bob"));
                 (js "g", Failed carol); (js "h", Opened (js "carol")); (js "g", Failed carol); (js "g", Failed carol)] in
  js "carol" ∈ stranded (verdict FORK_THRESHOLD (run [] events) (js "g")) /\
  outOfSync (verdict FORK_THRESHOLD (run [] events) (js "g")) <> true.
Proof.
  cbv zeta. split.
  - apply (proj1 (verdict_reads_history FORK_THRESHOLD (js "g") _ eq_refl)). vm_compute. discriminate.
  - intros E. apply (proj2 (verdict_reads_history FORK_THRESHOLD (js "g") _ eq_refl)) in E as [_ Hall].
    specialize (Hall (js "bob") ltac:(by vm_compute)). vm_compute in Hall. by apply Hall.
Defined.
End Fork.
