(* ===== verification/Presence.v ===== *)
(** * Who is here right now (client/src/lib/presence.js) *)

From stdpp Require Import base list numbers option strings.
From Stdlib Require Import ZArith NArith Lia.
From S2P Require Import Prelude JsNum JsString JsValue Games.
Open Scope Z_scope.

Module Presence.

(** [k in o]: own, or inherited. *)
Definition has_key {A} (o : list (jstr * A)) (k : jstr) : bool :=
  bool_decide (is_Some (obj_get o k)) || bool_decide (k ∈ object_proto) || str_eqb k (js "__proto__").

(** What the function reads of the circle and of the voice manager. *)
Record server := {
  s_id : jstr;
  s_voiceChannels : option (list jstr);
  s_presence : option (list (jstr * claim));
  s_members : option (list jstr);
}.

(** [voice?.presence]: who is in each room, under [circle/room]. *)
Definition voice := option (list (jstr * list jstr)).

Record circle_presence := {
  inRoom : list (jstr * jstr);
  playing : list (jstr * (game_ref * num));
  live : list jstr;
}.

Definition in_room (v : voice) (id room : jstr) : list jstr :=
  default [] (v ≫= fun p => obj_get p (id ++ js "/" ++ room)).

Definition note_room (room : jstr) (acc : list (jstr * jstr)) (p : jstr) : list (jstr * jstr) :=
  if has_key acc p then acc else obj_assign acc p room.

Definition rooms_of (s : server) (v : voice) : list (jstr * jstr) :=
  fold_left (fun acc room => fold_left (note_room room) (in_room v (s_id s) room) acc)
    (default [js "lounge"] (s_voiceChannels s)) [].

Definition note_game (now : num) (acc : list (jstr * (game_ref * num))) (e : jstr * claim) :=
  match freshPresence (Some e.2) now with
  | Some g => obj_assign acc e.1 (g, cl_ts e.2)
  | None => acc
  end.

Definition games_of (s : server) (now : num) : list (jstr * (game_ref * num)) :=
  fold_left (note_game now) (default [] (s_presence s)) [].

Definition circlePresence (s : server) (v : voice) (now : num) : circle_presence :=
  let r := rooms_of s v in
  let g := games_of s now in
  {| inRoom := r; playing := g;
     live := filter (fun m => has_key r m || has_key g m = true) (default [] (s_members s)) |}.

(** ** Theorems *)

Definition plain_handle (k : jstr) : Prop := k ∉ object_proto /\ k <> js "__proto__".

Lemma has_key_plain {A} (o : list (jstr * A)) k : plain_handle k -> has_key o k = true <-> is_Some (obj_get o k).
Proof.
  intros [Ho Hp]. unfold has_key. rewrite (bool_decide_false _ Ho), (proj2 (str_eqb_neq k _) Hp), !orb_false_r.
  apply bool_decide_eq_true.
Qed.

Lemma get_assign {A} (o : list (jstr * A)) p v k :
  plain_handle k -> obj_get (obj_assign o p v) k = if str_eqb p k then Some v else obj_get o k.
Proof.
  intros [_ Hk]. unfold obj_assign. destruct (_ && _) eqn:E; [|apply obj_get_put].
  apply andb_true_iff in E as [E _]. apply str_eqb_eq in E as ->.
  by rewrite (proj2 (str_eqb_neq _ k) (not_eq_sym Hk)).
Qed.

Lemma note_room_get room acc p k :
  plain_handle k ->
  obj_get (note_room room acc p) k =
    match obj_get acc k with Some r => Some r | None => if str_eqb p k then Some room else None end.
Proof.
  intros Hk. unfold note_room. destruct (has_key acc p) eqn:E.
  - destruct (obj_get acc k) eqn:Eg; [done|]. destruct (str_eqb p k) eqn:Ep; [|done].
    apply str_eqb_eq in Ep as ->. apply has_key_plain in E as [? E]; [|done]. by rewrite Eg in E.
  - rewrite get_assign by done. destruct (str_eqb p k) eqn:Ep; [|by destruct (obj_get acc k)].
    apply str_eqb_eq in Ep as ->. destruct (obj_get acc k) eqn:Eg; [|done].
    assert (has_key acc k = true) by (apply has_key_plain; [done|by eexists]). congruence.
Qed.

Lemma note_rooms_get room ps acc k :
  plain_handle k ->
  obj_get (fold_left (note_room room) ps acc) k =
    match obj_get acc k with Some r => Some r | None => if bool_decide (k ∈ ps) then Some room else None end.
Proof.
  intros Hk. revert acc. induction ps as [|p ps IH]; intros acc; cbn [fold_left].
  - rewrite bool_decide_false by apply not_elem_of_nil. by destruct (obj_get acc k).
  - rewrite IH, note_room_get by done. destruct (obj_get acc k); [done|].
    destruct (str_eqb p k) eqn:E.
    + apply str_eqb_eq in E as ->. by rewrite bool_decide_true by (by left).
    + apply str_eqb_neq in E. by rewrite (bool_decide_ext (k ∈ ps) (k ∈ p :: ps)) by (rewrite elem_of_cons; naive_solver).
Qed.

(** The first of the circle's rooms somebody is in. *)
Definition first_room (s : server) (v : voice) (k : jstr) : option jstr :=
  head (filter (fun room => k ∈ in_room v (s_id s) room) (default [js "lounge"] (s_voiceChannels s))).

Lemma rooms_of_get s v k : plain_handle k -> obj_get (rooms_of s v) k = first_room s v k.
Proof.
  intros Hk. unfold rooms_of, first_room. generalize (default [js "lounge"] (s_voiceChannels s)) as rooms. intros rooms.
  assert (forall acc, obj_get (fold_left (fun acc room => fold_left (note_room room) (in_room v (s_id s) room) acc) rooms acc) k
    = match obj_get acc k with Some r => Some r
      | None => head (filter (fun room => k ∈ in_room v (s_id s) room) rooms) end) as ->; [|done].
  induction rooms as [|room rooms IH]; intros acc; cbn [fold_left]; [by destruct (obj_get acc k)|].
  rewrite IH, note_rooms_get by done. destruct (obj_get acc k); [done|]. rewrite filter_cons.
  case_bool_decide; by case_decide.
Qed.

Lemma games_of_get s now k :
  plain_handle k ->
  is_Some (obj_get (games_of s now) k) <->
  exists c, (k, c) ∈ default [] (s_presence s) /\ is_Some (freshPresence (Some c) now).
Proof.
  intros Hk. unfold games_of. generalize (default [] (s_presence s)) as l. intros l.
  assert (forall acc, is_Some (obj_get (fold_left (note_game now) l acc) k) <->
    is_Some (obj_get acc k) \/ exists c, (k, c) ∈ l /\ is_Some (freshPresence (Some c) now)) as ->.
  2: { cbn. split; [intros [[? [=]]|?]; done|by right]. }
  induction l as [|[h c] l IH]; intros acc; cbn [fold_left].
  { split; [by left|]. intros [?|(? & []%elem_of_nil & _)]; done. }
  rewrite IH. unfold note_game. cbn [fst snd]. setoid_rewrite elem_of_cons.
  destruct (freshPresence (Some c) now) as [g|] eqn:Eg.
  - rewrite get_assign by done. destruct (str_eqb h k) eqn:E.
    + apply str_eqb_eq in E as ->. split; [|by left; eexists]. intros _. right. exists c. rewrite Eg. by eauto.
    + apply str_eqb_neq in E. naive_solver.
  - split; [naive_solver|]. intros [?|(c' & [[= -> ->]|?] & Hs)]; [by left| |by eauto].
    rewrite Eg in Hs. by destruct Hs.
Qed.

(** The people shown as here now are exactly the members, in roster order,
    who are in one of the circle's voice rooms or have a claim to be playing
    that has not expired; somebody who left the circle is never counted. *)
Theorem live_is_who_is_here s v now m :
  plain_handle m ->
  let p := circlePresence s v now in
  (m ∈ live p <->
     m ∈ default [] (s_members s) /\
     ((exists room, room ∈ default [js "lounge"] (s_voiceChannels s) /\ m ∈ in_room v (s_id s) room) \/
      (exists c, (m, c) ∈ default [] (s_presence s) /\ is_Some (freshPresence (Some c) now)))) /\
  obj_get (inRoom p) m = first_room s v m /\
  live p `sublist_of` default [] (s_members s).
Proof.
  intros Hm. cbn [circlePresence live inRoom]. split_and!; [|by apply rooms_of_get|apply sublist_filter].
  rewrite list_elem_of_filter, orb_true_iff, !has_key_plain, games_of_get, rooms_of_get by done.
  unfold first_room. split.
  - intros [[Hr|Hg] Hin]; (split; [done|]); [left|by right].
    destruct (filter _ _) as [|room l] eqn:E; [by destruct Hr|].
    assert (room ∈ room :: l) as Hroom by (by left). rewrite <- E in Hroom.
    apply list_elem_of_filter in Hroom as [? ?]. by exists room.
  - intros [Hin [(room & Hr & Hp)|Hg]]; (split; [|done]); [left|by right].
    assert (room ∈ filter (fun room => m ∈ in_room v (s_id s) room) (default [js "lounge"] (s_voiceChannels s))) as Hf
      by (by apply list_elem_of_filter).
    destruct (filter _ _); [by apply elem_of_nil in Hf|by eexists].
Qed.

Definition sample : server :=
  {| s_id := js "c"; s_voiceChannels := None; s_presence := None; s_members := Some [js "ada"; js "bob"] |}.

Lemma live_is_who_is_here_witness :
  js "bob" ∈ live (circlePresence sample (Some [(js "c/lounge", [js "eve"; js "bob"])]) (int 5)).
Proof.
  apply (proj1 (live_is_who_is_here sample (Some [(js "c/lounge", [js "eve"; js "bob"])]) (int 5) (js "bob")
    ltac:(split; by apply (bool_decide_unpack _); vm_compute))).
  split; [by apply (bool_decide_unpack _); vm_compute|]. left. exists (js "lounge").
  split; by apply (bool_decide_unpack _); vm_compute.
Defined.

(** The lookups see what an object inherits: a member whose handle names a
    built-in method, such as constructor, is shown as here always, and its room
    never. *)
Theorem inherited_handle_always_here :
  let s := {| s_id := js "c"; s_voiceChannels := None; s_presence := None; s_members := Some [js "constructor"] |} in
  live (circlePresence s None (int 5)) = [js "constructor"] /\
  inRoom (circlePresence s (Some [(js "c/lounge", [js "constructor"])]) (int 5)) = [].
Proof. vm_compute. done. Qed.
End Presence.
