(* ===== verification/Search.v ===== *)
(** * Local message search (client/src/lib/search.js)

    Terms, matching, the preview line and the ranking.  [toLowerCase] is the
    host's Unicode table. *)

From stdpp Require Import base list numbers option strings.
From Stdlib Require Import ZArith NArith Lia Sorting.Sorted Sorting.Permutation.
From S2P Require Import Prelude JsNum JsString JsValue Quorum.
Open Scope Z_scope.

Module Search.
Section search.
Context `{CaseFold}.

Definition SEARCH_LIMIT : nat := 40.
Definition MIN_QUERY : nat := 2.
Definition SNIPPET_WIDTH : Z := 72.

(** ** Terms *)

(** Up to the next quote, and what follows it. *)
Fixpoint to_quote (s : jstr) : option (jstr * jstr) :=
  match s with
  | [] => None
  | c :: r => if N.eqb c 34 then Some ([], r)
              else (fun p => (c :: p.1, p.2)) <$> to_quote r
  end.

(** [\S+]. *)
Fixpoint word (s : jstr) : jstr * jstr :=
  match s with
  | c :: r => if is_space c then ([], s) else let p := word r in (c :: p.1, p.2)
  | [] => ([], [])
  end.

(** The matches of a quoted run or a run of non-spaces, at each place the quoted form first. *)
Fixpoint tokens (fuel : nat) (s : jstr) : list jstr :=
  match fuel, s with
  | O, _ | _, [] => []
  | S f, c :: r =>
      if is_space c then tokens f r else
      match (if N.eqb c 34 then to_quote r else None) with
      | Some (inner, rest) => inner :: tokens f rest
      | None => let p := word s in p.1 :: tokens f p.2
      end
  end.

Definition parseQuery (query : val) : res (list jstr) :=
  let* q := text_of query in
  Ok (filter (fun t => t <> []) (toLowerCase <$> tokens (length q) q)).

(** ** Matching *)

Definition matchesTerms (text : jstr) (terms : list jstr) : bool :=
  match terms with
  | [] => false
  | _ => let hay := toLowerCase text in forallb (fun t => str_includes t hay) terms
  end.

Definition better (hay : jstr) (best : option nat) (t : jstr) : option nat :=
  match index_of t hay, best with
  | Some i, Some b => if Nat.ltb i b then Some i else Some b
  | Some i, None => Some i
  | None, _ => best
  end.

(** [None] for -1. *)
Definition firstHit (text : jstr) (terms : list jstr) : option nat :=
  fold_left (better (toLowerCase text)) terms None.

(** [s.replace(/\s+/g, ' ')]. *)
Fixpoint collapse (in_space : bool) (s : jstr) : jstr :=
  match s with
  | [] => []
  | c :: r => if is_space c then (if in_space then collapse true r else 32%N :: collapse true r)
              else c :: collapse false r
  end.

Record preview := { before : jstr; match_ : jstr; after : jstr }.

Definition ellipsis : jstr := js "…".

(** [s.slice(a, b)] for [0 <= a]. *)
Definition slice (a b : Z) (s : jstr) : jstr := take (Z.to_nat b - Z.to_nat a) (drop (Z.to_nat a) s).

(** The longest of the terms that start at the hit. *)
Definition hit_of (src : jstr) (terms : list jstr) (at_ : nat) : jstr :=
  fold_left (fun a b => if Nat.ltb (length a) (length b) then b else a)
    (filter (fun t => starts_with t (drop at_ (toLowerCase src)) = true) terms) [].

Definition snippet (text : jstr) (terms : list jstr) (width : Z) : preview :=
  let src := trim (collapse false text) in
  let len := Z.of_nat (length src) in
  match firstHit src terms with
  | None => {| before := if width <? len then slice 0 width src ++ ellipsis else src; match_ := []; after := [] |}
  | Some i =>
      let at_ := Z.of_nat i in
      let hit := hit_of src terms i in
      let hl := Z.of_nat (length hit) in
      let pad := Z.max 0 ((width - hl) / 2) in
      let from := Z.max 0 (at_ - pad) in
      let to := Z.min len (at_ + hl + pad) in
      {| before := (if 0 <? from then ellipsis else []) ++ slice from at_ src;
         match_ := slice at_ (at_ + hl) src;
         after := slice (at_ + hl) to src ++ (if to <? len then ellipsis else []) |}
  end.

(** [[m?.text, m?.file?.name].filter(Boolean).join(' ')]. *)
Definition searchableText (m : val) : res jstr :=
  let* parts := rmap to_string (filter (fun v => truthy v = true) [m.["text"]; m.["file"].["name"]]) in
  Ok (str_join (js " ") parts).

(** ** Ranking *)

Record hit := { h_server : val; h_channel : val; h_sender : val; h_ts : num; h_snippet : preview }.

Definition hit_row (terms : list jstr) (row : val) : res (option hit) :=
  let m := row.["message"] in
  if negb (truthy m) || truthy m.["system"] then Ok None else
  let* text := searchableText m in
  if negb (matchesTerms text terms) then Ok None else
  let* t := to_number m.["ts"] in
  Ok (Some {| h_server := row.["server"]; h_channel := row.["channel"]; h_sender := m.["sender"];
              h_ts := if ntruthy t then t else Fin 0; h_snippet := snippet text terms SNIPPET_WIDTH |}).

(** [b.ts - a.ts > 0]. *)
Definition older (a b : hit) : bool := nltb (Fin 0) (nsub (h_ts b) (h_ts a)).

Definition rankHits (rows : list val) (query : val) (limit : nat) : res (list hit * bool) :=
  let* terms := parseQuery query in
  let* q := text_of query in
  match terms with
  | [] => Ok ([], false)
  | _ =>
      if Nat.ltb (length (trim q)) MIN_QUERY then Ok ([], false) else
      let* found := rmap (hit_row terms) rows in
      let hits := sort_by older (somes found) in
      Ok (take limit hits, Nat.ltb limit (length hits))
  end.

(** ** Theorems *)

Definition finite_ts (h : hit) : Prop := exists z, h_ts h = Fin z.
Definition not_older (a b : hit) : Prop := forall x y, h_ts a = Fin x -> h_ts b = Fin y -> y <= x.

Lemma older_finite a b x y : h_ts a = Fin x -> h_ts b = Fin y -> older a b = (x <? y).
Proof. intros Ha Hb. unfold older. rewrite Ha, Hb. apply nsub_gt0. Qed.

Lemma sort_newest l :
  Forall finite_ts l -> StronglySorted not_older (sort_by older l).
Proof.
  intros Hl. assert (in_order older (sort_by older l)) as Hs.
  { apply (sort_by_in_order older finite_ts); [| |done].
    - intros a b [x Ha] [y Hb]. rewrite (older_finite a b x y), (older_finite b a y x) by done. lia.
    - intros a b c [x Ha] [y Hb] [z Hc].
      rewrite (older_finite a b x y), (older_finite b c y z), (older_finite a c x z) by done. lia. }
  eapply (in_order_impl _ finite_ts); [|by rewrite sort_by_perm|exact Hs]. intros a b _ _ Hab x y Ha Hb.
  rewrite (older_finite a b x y) in Hab by done. lia.
Qed.

(** A hit comes from a row whose text holds every term. *)
Definition found_in (rows : list val) (terms : list jstr) (h : hit) : Prop :=
  exists row text, row ∈ rows /\ truthy row.["message"].["system"] = false /\
    searchableText row.["message"] = Ok text /\ Forall (fun t => str_includes t (toLowerCase text) = true) terms /\
    h_sender h = row.["message"].["sender"].

Lemma matches_all text terms : matchesTerms text terms = true -> Forall (fun t => str_includes t (toLowerCase text) = true) terms.
Proof. 
  unfold matchesTerms. destruct terms; [done|]. rewrite forallb_forall, Forall_forall. intros Hf x Hx.
  by apply Hf, list_elem_of_In.
Qed.

Lemma hit_row_found rows terms found :
  rmap (hit_row terms) rows = Ok found -> Forall (found_in rows terms) (somes found).
Proof.
  intros Hr%rmap_Ok_Forall2. apply Forall_forall. intros h Hh%elem_of_somes.
  apply list_elem_of_lookup in Hh as [i Hi]. destruct (Forall2_lookup_r _ _ _ _ _ Hr Hi) as (row & Hrow & E).
  unfold hit_row in E. destruct (negb _ || _) eqn:Es; [done|]. apply orb_false_iff in Es as [_ Es].
  apply rbind_Ok in E as (text & Et & E). destruct (matchesTerms text terms) eqn:Em; cbn [negb] in E; [|done].
  apply rbind_Ok in E as (t & _ & E). apply Ok_inj in E. injection E as <-.
  exists row, text. split_and!; [by eapply list_elem_of_lookup_2|done|done|by apply matches_all|done].
Qed.

(** A search returns the newest matches: every hit holds every term of the
    query, hits come newest first, none of the matches left out is newer than
    one shown, and the list says it was cut exactly when something was. *)
Theorem newest_matches_first rows query limit terms found hits truncated :
  parseQuery query = Ok terms -> rmap (hit_row terms) rows = Ok found -> Forall finite_ts (somes found) ->
  rankHits rows query limit = Ok (hits, truncated) -> hits <> [] ->
  exists rest,
    hits ++ rest ≡ₚ somes found /\ StronglySorted not_older (hits ++ rest) /\
    (length hits <= limit)%nat /\ (truncated = true <-> rest <> []) /\
    Forall (found_in rows terms) hits.
Proof.
  intros Ht Hf Hts E Hne. unfold rankHits in E. rewrite Ht in E. cbn [rbind] in E.
  apply rbind_Ok in E as (q & _ & E).
  assert (hits = take limit (sort_by older (somes found)) /\
          truncated = Nat.ltb limit (length (sort_by older (somes found)))) as [-> ->].
  { destruct terms; [simplify_eq|]. destruct (Nat.ltb _ _); [simplify_eq|]. rewrite Hf in E. cbn [rbind] in E.
    by simplify_eq. }
  exists (drop limit (sort_by older (somes found))). rewrite take_drop.
  split_and!; [apply sort_by_perm|by apply sort_newest|rewrite length_take; lia| |].
  - rewrite Nat.ltb_lt. split.
    + intros Hl Hd. assert (length (drop limit (sort_by older (somes found))) = 0%nat) as Hz by (by rewrite Hd).
      rewrite length_drop in Hz. lia.
    + intros Hd. destruct (decide (limit < length (sort_by older (somes found)))%nat); [done|].
      destruct Hd. apply drop_ge. lia.
  - apply Forall_take. rewrite sort_by_perm. by apply hit_row_found.
Qed.

(** *** The preview *)

Lemma starts_with_app p s : starts_with p s = true <-> exists r, s = p ++ r.
Proof.
  revert s. induction p as [|a p IH]; intros [|b s]; cbn.
  - split; [by exists []|done].
  - split; [by eexists|done].
  - split; [done|by intros [? [=]]].
  - rewrite andb_true_iff, N.eqb_eq, IH. split; [intros [-> [r ->]]; by exists r|intros [r [= -> ->]]; eauto].
Qed.

Lemma index_of_spec p s i : index_of p s = Some i -> exists r, drop i s = p ++ r.
Proof.
  revert i. induction s as [|c s IH]; intros i; cbn [index_of].
  - destruct (starts_with p []) eqn:E; [|done]. intros [= <-]. by apply starts_with_app.
  - destruct (starts_with p (c :: s)) eqn:E; [intros [= <-]; by apply starts_with_app|].
    intros (j & Hj & ->)%fmap_Some. cbn. by apply IH.
Qed.

Lemma better_spec hay terms best i :
  fold_left (better hay) terms best = Some i -> best = Some i \/ exists t, t ∈ terms /\ index_of t hay = Some i.
Proof.
  revert best. induction terms as [|t terms IH]; intros best; cbn [fold_left]; [by left|].
  intros [Hb|(t' & Hin & Ht)]%IH; [|right; exists t'; split; [by right|done]].
  unfold better in Hb. destruct (index_of t hay) as [j|] eqn:Ej; [|by left].
  destruct best as [b|]; [destruct (Nat.ltb j b)|]; simplify_eq; try (by left); right; exists t; (split; [by left|done]).
Qed.

Lemma better_some hay terms best : is_Some best -> is_Some (fold_left (better hay) terms best).
Proof.
  revert best. induction terms as [|t terms IH]; intros best Hb; cbn [fold_left]; [done|]. apply IH.
  unfold better. destruct Hb as [b ->]. destruct (index_of t hay); [|by eexists]. by destruct (Nat.ltb _ b).
Qed.

Lemma firstHit_found text terms t : t ∈ terms -> str_includes t (toLowerCase text) = true -> is_Some (firstHit text terms).
Proof.
  unfold firstHit. intros Hin Ht%bool_decide_eq_true. generalize (@None nat) as best. revert Hin.
  induction terms as [|t' terms IH]; intros Hin best; [by apply elem_of_nil in Hin|]. cbn [fold_left].
  apply elem_of_cons in Hin as [<-|Hin]; [|by apply IH]. apply better_some. unfold better.
  destruct Ht as [i ->]. destruct best as [b|]; [|by eexists]. by destruct (Nat.ltb i b).
Qed.

(** The longest candidate is one of them, when one is not empty. *)
Lemma longest_in (l : list jstr) (a : jstr) :
  fold_left (fun a b : jstr => if Nat.ltb (length a) (length b) then b else a) l a = a \/
  fold_left (fun a b : jstr => if Nat.ltb (length a) (length b) then b else a) l a ∈ l.
Proof.
  revert a. induction l as [|b l IH]; intros a; cbn [fold_left]; [by left|].
  destruct (Nat.ltb _ _).
  - destruct (IH b) as [->|Hb]; right; [by left|by right].
  - destruct (IH a) as [->|Ha]; [by left|right; by right].
Qed.

Lemma longest_ge (l : list jstr) (a b : jstr) :
  b ∈ a :: l ->
  (length b <= length (fold_left (fun a b : jstr => if Nat.ltb (length a) (length b) then b else a) l a))%nat.
Proof.
  revert a b. induction l as [|c l IH]; intros a b; cbn [fold_left]; [by rewrite list_elem_of_singleton; intros ->|].
  rewrite !elem_of_cons. destruct (Nat.ltb_spec (length a) (length c)); intros [->|[->|Hb]].
  - pose proof (IH c c (list_elem_of_here _ _)). lia.
  - apply IH. by left.
  - apply IH. by right.
  - apply IH. by left.
  - pose proof (IH a a (list_elem_of_here _ _)). lia.
  - apply IH. by right.
Qed.

Lemma fold_drop (f : N -> N) (src : jstr) i t r :
  drop i (f <$> src) = t ++ r -> t = f <$> take (length t) (drop i src) /\ (length t <= length (drop i src))%nat.
Proof.
  rewrite <- fmap_drop. intros E.
  assert (take (length t) (f <$> drop i src) = t) as Et by (rewrite E; apply take_app_length).
  rewrite <- fmap_take in Et. split; [done|]. apply (f_equal length) in E. rewrite length_fmap, length_app in E. lia.
Qed.

(** Where lower-casing changes one code unit at a time, the preview of a
    line that holds one of the terms marks a term: the marked text is, but for
    case, a non-empty term of the query, and what stands around it is the text
    around it. *)
Theorem snippet_marks_a_term (f : N -> N) text terms width :
  (forall s, toLowerCase s = f <$> s) -> Forall (fun t => t <> []) terms ->
  let src := trim (collapse false text) in
  (exists t, t ∈ terms /\ str_includes t (toLowerCase src) = true) ->
  let p := snippet text terms width in
  toLowerCase (match_ p) ∈ terms /\ match_ p <> [] /\
  exists pre post, src = pre ++ match_ p ++ post /\
    (exists n, before p = drop n pre \/ before p = ellipsis ++ drop n pre) /\
    (exists n, after p = take n post \/ after p = take n post ++ ellipsis).
Proof.
  intros Hf Hne src (t & Hin & Ht). destruct (firstHit_found src terms t Hin Ht) as [i Hi].
  pose proof Hi as Hspec. unfold firstHit in Hspec. apply better_spec in Hspec as [[=]|(t0 & Hin0 & Hidx)].
  apply index_of_spec in Hidx as [r0 Hr0]. cbv zeta. unfold snippet. fold src. rewrite Hi. set (h := hit_of src terms i).
  assert (h ∈ terms /\ h <> [] /\ exists r, drop i (toLowerCase src) = h ++ r) as (Hh & Hhne & r & Hr).
  { assert (t0 ∈ filter (fun t => starts_with t (drop i (toLowerCase src)) = true) terms) as Ht0.
    { apply list_elem_of_filter. split; [|done]. apply starts_with_app. eauto. }
    assert (h <> []) as Hn.
    { intros E. pose proof (longest_ge _ [] t0 (list_elem_of_further _ _ _ Ht0)) as Hl.
      change (fold_left _ _ []) with h in Hl. rewrite E in Hl. rewrite Forall_forall in Hne. apply Hne in Hin0.
      destruct t0; [done|cbn in Hl; lia]. }
    destruct (longest_in (filter (fun t => starts_with t (drop i (toLowerCase src)) = true) terms) []) as [E|Hl];
      change (fold_left _ _ []) with h in *; [done|].
    apply list_elem_of_filter in Hl as [Hs Hl]. apply starts_with_app in Hs. eauto. }
  rewrite Hf in Hr. apply fold_drop in Hr as [Hh' Hlen].
  set (hl := length h) in *. set (from := Z.max 0 _). set (to := Z.min _ _).
  assert (slice (Z.of_nat i) (Z.of_nat i + Z.of_nat hl) src = take hl (drop i src)) as Em.
  { unfold slice. f_equal; [lia|]. by rewrite Nat2Z.id. }
  cbn [match_ before after]. rewrite Em. rewrite Hf, <- Hh'. rewrite length_drop in Hlen. split_and!; [done| |].
  - intros E. rewrite E in Hh'. done.
  - exists (take i src), (drop hl (drop i src)). split_and!.
    + by rewrite take_drop, take_drop.
    + exists (Z.to_nat from). assert (slice from (Z.of_nat i) src = drop (Z.to_nat from) (take i src)) as ->.
      { unfold slice. rewrite Nat2Z.id, skipn_firstn_comm. done. }
      destruct (0 <? from); [by right|by left].
    + exists (Z.to_nat to - (i + hl))%nat.
      assert (slice (Z.of_nat i + Z.of_nat hl) to src = take (Z.to_nat to - (i + hl)) (drop hl (drop i src))) as ->.
      { unfold slice. rewrite drop_drop. f_equal; [lia|]. f_equal. lia. }
      destruct (to <? _); [by right|left; by rewrite app_nil_r].
Qed.
End search.

(** Lower-casing can lengthen a text (U+0130 becomes two code units), and
    the preview uses the place of the hit in the lower-cased line to cut the
    line as it was: the marked text is then not the term. *)
Theorem preview_slips_after_long_lowercase (fold_ : CaseFold) :
  fold_ [304%N; 304%N; 32%N; 97%N; 98%N; 99%N] = [105; 775; 105; 775; 32; 97; 98; 99]%N ->
  match_ (@snippet fold_ [304%N; 304%N; 32%N; 97%N; 98%N; 99%N] [js "abc"] SNIPPET_WIDTH) = js "c".
Proof.
  intros E. unfold snippet, firstHit, hit_of.
  change (trim (collapse false [304%N; 304%N; 32%N; 97%N; 98%N; 99%N])) with [304%N; 304%N; 32%N; 97%N; 98%N; 99%N].
  unfold toLowerCase. rewrite E. vm_compute. reflexivity.
Qed.

(** ** A concrete fold *)

Definition ascii (c : N) : N := if (N.leb 65 c && N.leb c 90)%bool then (c + 32)%N else c.
#[local] Instance ascii_case : CaseFold := fun s => ascii <$> s.

Lemma preview_slips_after_long_lowercase_witness :
  match_ (@snippet (fun s => s ≫= fun c => if N.eqb c 304 then [105; 775]%N else [ascii c])
    [304%N; 304%N; 32%N; 97%N; 98%N; 99%N] [js "abc"] SNIPPET_WIDTH) = js "c".
Proof. apply preview_slips_after_long_lowercase. vm_compute. reflexivity. Defined.

Definition row (t : Z) (text : string) : val :=
  jobj [("server", VStr (js "c")); ("message", jobj [("text", VStr (js text)); ("ts", VNum (int t)); ("sender", VStr (js "ada"))])]%string.

Lemma finite_num a : nfinite a = true -> exists z, a = Fin z.
Proof. destruct a; try done. by eexists. Qed.

Definition rows : list val := [row 1 "Hello there"; row 3 "hello"; row 2 "bye"].

Lemma newest_matches_first_witness :
  exists hits truncated rest,
    rankHits rows (VStr (js "HELLO")) 1 = Ok (hits, truncated) /\
    StronglySorted not_older (hits ++ rest) /\ (truncated = true <-> rest <> []).
Proof.
  assert (parseQuery (VStr (js "HELLO")) = Ok [js "hello"]) as Hq by (vm_compute; reflexivity).
  pose (found := match rmap (hit_row [js "hello"]) rows with Ok f => f | Throw _ => [] end).
  pose (ranked := match rankHits rows (VStr (js "HELLO")) 1 with Ok r => r | Throw _ => ([], false) end).
  assert (rmap (hit_row [js "hello"]) rows = Ok found) as Hf by (vm_compute; reflexivity).
  assert (rankHits rows (VStr (js "HELLO")) 1 = Ok (ranked.1, ranked.2)) as Hr by (vm_compute; reflexivity).
  assert (Forall finite_ts (somes found)) as Hts.
  { apply Forall_forall. intros h Hh. unfold finite_ts.
    assert (Forall (fun h => nfinite (h_ts h) = true) (somes found)) as Hall
      by (vm_compute; repeat (apply Forall_cons_2; [reflexivity|]); apply Forall_nil_2).
    rewrite Forall_forall in Hall. exact (finite_num _ (Hall h Hh)). }
  assert (ranked.1 <> []) as Hne.
  { intros E%(f_equal length). vm_compute in E. discriminate E. }
  destruct (newest_matches_first _ _ _ _ _ _ _ Hq Hf Hts Hr Hne) as (rest & _ & Hs & _ & Ht & _).
  exists ranked.1, ranked.2, rest. split; [exact Hr|]. split; [exact Hs|exact Ht].
Defined.

Lemma snippet_marks_a_term_witness :
  toLowerCase (match_ (snippet (js "so, HELLO there") [js "hello"] 9)) ∈ [js "hello"].
Proof.
  apply (snippet_marks_a_term ascii (js "so, HELLO there") [js "hello"] 9); [done|by repeat constructor|].
  exists (js "hello"). split; [by left|vm_compute; reflexivity].
Defined.
End Search.
