(* ===== verification/Backup.v ===== *)
(** * Parking the circles on the relay (client/src/lib/controller.js, "circles
      on the relay")

    When the encrypted circles are written (the debounce with its ceiling),
    how a write that loses the compare-and-swap is merged and tried again, and
    how a device takes over what it reads.  Sealing is transparent here: what
    [openBackup] returns for a parked payload is the record that was sealed, up
    to the order of keys (the round trip of History.v).  The relay keeps one
    payload and its version: a write is accepted when it carries the version
    that is parked, and steps it by one; nothing parked is version 0. *)

From stdpp Require Import base list numbers option strings relations.
From Stdlib Require Import ZArith NArith Lia.
From S2P Require Import Prelude JsNum JsString JsValue Games Overview Json Circles.
Import Circles.
Open Scope Z_scope.

Module Backup.

Definition BACKUP_VERSION : Z := 2.
Definition BACKUP_DEBOUNCE : Z := 3000.
Definition BACKUP_MAX_WAIT : Z := 8000.

(** ** The cleaned home base and notices, as the values that are stored *)

Definition opt_field (k : string) (v : option jstr) : list (string * val) :=
  match v with Some s => [(k, VStr s)] | None => [] end.

Definition arr_field (k : string) (l : list val) : list (string * val) :=
  match l with [] => [] | _ => [(k, VArr l)] end.

Definition kind_val (k : kind) : val := VStr (match k with activity => js "activity" | server => js "server" end).

Definition game_val (g : game) : val := jobj
  ([("id", VStr (g_id g)); ("name", VStr (g_name g)); ("url", VStr (g_url g)); ("kind", kind_val (g_kind g))]%string
   ++ opt_field "note" (g_note g) ++ opt_field "glyph" (g_glyph g)).

Definition event_val (e : event) : val := jobj
  ([("id", VStr (ev_id e)); ("title", VStr (ev_title e)); ("at", VNum (ev_at e))]%string
   ++ opt_field "note" (ev_note e) ++ opt_field "gameId" (ev_gameId e)).

Definition legacy_val (e : legacy_event) : val := jobj
  ([("title", VStr (le_title e)); ("at", VNum (le_at e))]%string ++ opt_field "note" (le_note e)).

Definition link_val (l : link) : val := jobj [("label", VStr (l_label l)); ("url", VStr (l_url l))]%string.

Definition overview_val (o : option overview) : val :=
  match o with
  | None => VNull
  | Some o => jobj
      ([("blurb", VStr (ov_blurb o)); ("links", VArr (link_val <$> ov_links o))]%string
       ++ opt_field "glyph" (glyph_name <$> ov_glyph o)
       ++ arr_field "events" (event_val <$> ov_events o)
       ++ match ov_event o with Some e => [("event"%string, legacy_val e)] | None => [] end
       ++ arr_field "games" (game_val <$> ov_games o))
  end.

Definition notice_val (n : notice) : val := jobj
  [("id", VStr (n_id n)); ("text", VStr (n_text n)); ("ts", VNum (n_ts n)); ("author", VStr (n_author n))]%string.

(** ** A device *)

Record device := {
  servers : list (val * val);   (** the [Map] of records by id *)
  backupVersion : option Z;
  circlesLoaded : bool;
  deviceState : val;            (** what this device kept of each circle *)
  mlsGroups : list val;
}.

Definition set_servers (m : list (val * val)) (d : device) : device :=
  {| servers := m; backupVersion := backupVersion d; circlesLoaded := circlesLoaded d;
     deviceState := deviceState d; mlsGroups := mlsGroups d |}.

Definition set_version (v : Z) (d : device) : device :=
  {| servers := servers d; backupVersion := Some v; circlesLoaded := circlesLoaded d;
     deviceState := deviceState d; mlsGroups := mlsGroups d |}.

Definition vmap_has (m : list (val * val)) (k : val) : bool := includes m.*1 k.

Definition vmap_delete (m : list (val * val)) (k : val) : list (val * val) :=
  filter (fun e => same_value e.1 k = false) m.

(** What a change of the circle's shape is measured by. *)
Definition circleShape (d : device) : jstr :=
  stringify (VArr ((fun r => VArr [r.["id"]; r.["name"]; r.["channels"] ⁇ VArr []; r.["voiceChannels"] ⁇ VArr []])
                   <$> (servers d).*2)).

(** [deviceState?.[id]]. *)
Definition kept (d : device) (id : val) : res val :=
  if nullish (deviceState d) then Ok VUndef
  else let* k := to_string id in Ok (prop (deviceState d) k).

(** The record a parked half becomes. *)
Definition adopted (d : device) (now : num) (s : val) : res val :=
  let* dev := kept d s.["id"] in
  let* record := hydrate s dev now (includes (mlsGroups d) s.["id"]) in
  let* overview := normalizeOverview s.["overview"] now in
  let* notices := rmap (fun n => normalizeNotice n n.["author"] now) (array_or_empty s.["notices"]) in
  Ok (VObj (put_fields record
    [("overview", overview_val overview); ("notices", VArr (notice_val <$> somes notices))]%string)).

(** The loop of [adoptCircles]: an error leaves what came before in place. *)
Fixpoint adopt_all (d : device) (now : num) (l : list val) : device * res (list val) :=
  match l with
  | [] => (d, Ok [])
  | s :: r =>
      if negb (truthy s.["id"]) || vmap_has (servers d) s.["id"] then adopt_all d now r else
      match adopted d now s with
      | Throw e => (d, Throw e)
      | Ok record =>
          let '(d', fresh) := adopt_all (set_servers (vmap_set (servers d) s.["id"] record) d) now r in
          (d', let* f := fresh in Ok (record :: f))
      end
  end.

Definition adoptCircles (d : device) (now : num) (l : val) : device * res (list val) :=
  match iterate (l ⁇ VArr []) with
  | Throw e => (d, Throw e)
  | Ok l => adopt_all d now l
  end.

(** [fetchBackup], from the opened payload on: the circles, or a refusal. *)
Definition fetchBackup (payload : option val) : res val :=
  match payload with
  | None => Ok (VArr [])
  | Some backup =>
      let* v0 := get backup "v" in
      let* v := to_number v0 in
      if v >ₙ int BACKUP_VERSION then Throw OtherError
      else Ok (backup.["servers"] ⁇ VArr [])
  end.

(** [readCircles], given the reply to [backup_get]. *)
Definition readCircles (d : device) (now : num) (payload : option val) (version : Z) : device * res (list val) :=
  match fetchBackup payload with
  | Throw e => (d, Throw e)
  | Ok l =>
      let d' := {| servers := servers d; backupVersion := Some version; circlesLoaded := true;
                   deviceState := deviceState d; mlsGroups := mlsGroups d |} in
      adoptCircles d' now l
  end.

(** What an upload seals, before and after the merge. *)
Definition halves (d : device) : res (list val) := rmap (fun r => let* h := sharedHalf r in Ok (VObj h)) (servers d).*2.

Definition sealed (l : list val) : val := jobj [("v", VNum (int BACKUP_VERSION)); ("servers", VArr l)]%string.

(** ** An upload, split where it waits for the relay

    [First] and [Second] are a write on its way; [Done1] and [Done2] a write the
    relay took whose answer is on its way; [Lost] a write refused for its
    version, before the re-read. *)

Inductive phase :=
| Idle
| First (l : list val) (version : Z)
| Done1 (l : list val) (version : Z)
| Lost (l : list val)
| Second (l : list val) (version : Z)
| Done2 (l : list val) (version : Z).

(** Up to the first write; [None] when it declines. *)
Definition uploadBackup (ready : bool) (d : device) : option (res phase) :=
  if negb ready || negb (circlesLoaded d) then None else
  Some (let* l := halves d in Ok (First l (default 0 (backupVersion d)))).

(** After a conflict, from the answer to the re-read to the second write. *)
Definition retry (l : list val) (payload : option val) (version : Z) (d : device) : device * res phase :=
  match fetchBackup payload with
  | Throw e => (d, Throw e)
  | Ok parked =>
      (set_version version d, let* m := mergeBackups (VArr l) parked in Ok (Second m version))
  end.

(** The second write was taken. *)
Definition settle (l : list val) (version : Z) (now : num) (d : device) : device * res (list val) :=
  adoptCircles (set_version version d) now (VArr l).

(** ** When to upload *)

Record schedule := {
  backupDirty : bool;
  backupInFlight : bool;
  backupPendingSince : option Z;
  backupTimer : option Z;      (** when it fires *)
  backupRetry : bool;
  parkedShape : option jstr;
}.

Definition fresh_schedule : schedule :=
  {| backupDirty := false; backupInFlight := false; backupPendingSince := None; backupTimer := None;
     backupRetry := false; parkedShape := None |}.

Definition scheduleBackup (shape : jstr) (now : Z) (s : schedule) : schedule :=
  if backupInFlight s then
    {| backupDirty := true; backupInFlight := true; backupPendingSince := backupPendingSince s;
       backupTimer := backupTimer s; backupRetry := backupRetry s; parkedShape := parkedShape s |}
  else
    let since := default now (backupPendingSince s) in
    let structural := bool_decide (Some shape <> parkedShape s) in
    let wait := if structural && negb (backupRetry s) then 0
                else Z.max 0 (Z.min BACKUP_DEBOUNCE (since + BACKUP_MAX_WAIT - now)) in
    {| backupDirty := true; backupInFlight := false; backupPendingSince := Some since;
       backupTimer := Some (now + wait); backupRetry := backupRetry s; parkedShape := parkedShape s |}.

(** [flushBackup] up to the upload, when the timer fires. *)
Definition flush_start (s : schedule) : schedule :=
  {| backupDirty := false; backupInFlight := true; backupPendingSince := None; backupTimer := None;
     backupRetry := backupRetry s; parkedShape := parkedShape s |}.

Inductive outcome := Declined | Written | Failed.

(** [flushBackup] after the upload: [sent] is the shape it took before. *)
Definition flush_end (sent shape : jstr) (o : outcome) (now : Z) (s : schedule) : schedule :=
  let s' :=
    {| backupDirty := match o with Written => backupDirty s | _ => true end;
       backupInFlight := false; backupPendingSince := backupPendingSince s; backupTimer := backupTimer s;
       backupRetry := match o with Failed => true | _ => false end;
       parkedShape := match o with Written => Some sent | _ => parkedShape s end |} in
  if backupDirty s' then scheduleBackup shape now s' else s'.

End Backup.

(** ** Theorems *)

Module Parking.
Import Backup.

(** *** The ceiling *)

(** A device: its clock, its schedule and the shape the upload in the air took.
    The rest is what somebody watching it notes, and no code reads it: [owed]
    is the instant of the first change that no upload begun since has taken, and
    [ended] that of the end of the last upload. *)
Record desk := { clock : Z; sched : schedule; sent : jstr; owed : option Z; ended : Z }.

(** Time passes up to the next timer; a timer that is due fires first.  An
    upload takes every change before it; one that declines or fails gives back
    what it took. *)
Inductive tick : desk -> desk -> Prop :=
| tick_wait c s x f e c' :
    c <= c' -> (forall t, backupTimer s = Some t -> c' <= t) ->
    tick {| clock := c; sched := s; sent := x; owed := f; ended := e |}
         {| clock := c'; sched := s; sent := x; owed := f; ended := e |}
| tick_change c s x f e shape :
    tick {| clock := c; sched := s; sent := x; owed := f; ended := e |}
         {| clock := c; sched := scheduleBackup shape c s; sent := x; owed := Some (default c f); ended := e |}
| tick_fire c s x f e shape :
    backupTimer s = Some c ->
    tick {| clock := c; sched := s; sent := x; owed := f; ended := e |}
         {| clock := c; sched := flush_start s; sent := shape; owed := None; ended := e |}
| tick_end c s x f e shape o :
    backupInFlight s = true ->
    tick {| clock := c; sched := s; sent := x; owed := f; ended := e |}
         {| clock := c; sched := flush_end x shape o c s; sent := x;
            owed := match o with Written => f | _ => Some (default c f) end; ended := c |}.

Definition started (now : Z) : desk :=
  {| clock := now; sched := fresh_schedule; sent := []; owed := None; ended := now |}.

(** No timer while an upload is in the air; otherwise a timer for what is owed,
    within the ceiling of it, or of the end of the upload it had to wait for. *)
Record timed (d : desk) : Prop := {
  td_flight : backupInFlight (sched d) = true -> backupTimer (sched d) = None;
  td_clean : backupTimer (sched d) = None -> backupPendingSince (sched d) = None;
  td_past : ended d <= clock d /\ (forall f, owed d = Some f -> f <= clock d);
  td_dirty : backupDirty (sched d) = true <-> is_Some (owed d);
  td_timer : backupInFlight (sched d) = false -> forall f, owed d = Some f -> exists p t,
    backupTimer (sched d) = Some t /\ backupPendingSince (sched d) = Some p /\
    p = Z.max f (ended d) /\ clock d <= t /\ t <= p + BACKUP_MAX_WAIT;
  td_idle : owed d = None -> backupTimer (sched d) = None;
}.

(** A change, or the end of an upload that leaves something owed: the timer is
    set, and it is within the ceiling of what the schedule calls pending. *)
Lemma scheduleBackup_timer shape c s :
  backupInFlight s = false ->
  (forall p, backupPendingSince s = Some p -> p <= c <= p + BACKUP_MAX_WAIT) ->
  exists t, scheduleBackup shape c s =
    {| backupDirty := true; backupInFlight := false; backupPendingSince := Some (default c (backupPendingSince s));
       backupTimer := Some t; backupRetry := backupRetry s; parkedShape := parkedShape s |} /\
    c <= t <= default c (backupPendingSince s) + BACKUP_MAX_WAIT.
Proof.
  intros Ef Hp. unfold scheduleBackup. rewrite Ef. eexists. split; [done|].
  assert (default c (backupPendingSince s) <= c <= default c (backupPendingSince s) + BACKUP_MAX_WAIT).
  { destruct (backupPendingSince s) as [p|] eqn:E; cbn; [by apply Hp|]. unfold BACKUP_MAX_WAIT. lia. }
  unfold BACKUP_DEBOUNCE, BACKUP_MAX_WAIT in *. destruct (_ && _); lia.
Qed.

Lemma tick_timed d d' : tick d d' -> timed d -> timed d'.
Proof.
  intros H [Hf Hc [He Ho] Hd Ht Hi]. destruct H as [c s x f e c' Hc' Hl|c s x f e shape|c s x f e shape Hl|c s x f e shape o Hfl];
    cbn [clock sched sent owed ended] in *.
  - split; cbn [clock sched sent owed ended]; try done.
    + split; [lia|]. intros g E. specialize (Ho g E). lia.
    + intros Ef g E. destruct (Ht Ef g E) as (p & t & Et & Ep & Eq & Hle & Hb). exists p, t.
      specialize (Hl t Et). split_and!; try done; lia.
  - destruct (backupInFlight s) eqn:Ef.
    + unfold scheduleBackup. rewrite Ef. split; cbn; auto; try done. split; [lia|]. intros g [= <-].
      destruct f as [f|]; cbn; [by apply Ho|lia].
    + destruct (scheduleBackup_timer shape c s Ef) as (t & -> & Hb).
      { intros p Ep. destruct f as [f|]; [|by rewrite (Hc (Hi eq_refl)) in Ep].
        destruct (Ht eq_refl f eq_refl) as (p' & t & _ & Ep' & -> & ? & ?). rewrite Ep' in Ep. injection Ep as <-.
        specialize (Ho f eq_refl). lia. }
      split; cbn; try done.
      * split; [lia|]. intros g [= <-]. destruct f as [f|]; cbn; [by apply Ho|lia].
      * intros _ g [= <-]. eexists _, _. split_and!; try done; [|lia|lia].
        destruct f as [f|]; cbn.
        -- by destruct (Ht eq_refl f eq_refl) as (p' & t' & _ & -> & -> & _).
        -- rewrite (Hc (Hi eq_refl)). cbn. lia.
  - split; cbn; done.
  - pose proof (Hf Hfl) as E1. pose proof (Hc E1) as E2. unfold flush_end. cbn [backupDirty].
    assert (Hclock : forall g, match o with Written => f | _ => Some (default c f) end = Some g -> g <= c).
    { intros g. destruct f as [f|]; [specialize (Ho f eq_refl)|]; destruct o; cbn; naive_solver lia. }
    destruct (match o with Written => backupDirty s | _ => true end) eqn:Ed.
    + match goal with |- context[scheduleBackup shape c ?s] => set (s1 := s) end.
      destruct (scheduleBackup_timer shape c s1 eq_refl) as (t & -> & Hb).
      { cbn. by rewrite E2. }
      cbn in Hb. rewrite E2 in Hb. cbn in Hb. split; cbn; try done.
      * split; [|done]. intros _. destruct o; cbn in *; [by eexists|by apply Hd|by eexists].
      * intros _ g Eg. specialize (Hclock g Eg). eexists _, _. rewrite E2. cbn. split_and!; try done; lia.
      * destruct o; try done. intros ->. by apply Hd in Ed as [].
    + destruct o; try done. assert (f = None) as ->.
      { apply eq_None_not_Some. intros Hs%Hd. by rewrite Hs in Ed. }
      split; cbn; rewrite ?Ed, ?E1, ?E2; done.
Qed.

(** C25: however often changes keep arriving, a change that no upload has taken
    has an upload in the air or a timer within [BACKUP_MAX_WAIT] of the first
    such change, or of the end of the last upload if that is later: what an
    upload had to wait for, or failed to write, is counted from its end. *)
Theorem a_busy_circle_still_parks now d f :
  rtc tick (started now) d -> owed d = Some f ->
  backupInFlight (sched d) = true \/
  exists t, backupTimer (sched d) = Some t /\ clock d <= t /\ t <= Z.max f (ended d) + BACKUP_MAX_WAIT.
Proof.
  intros H Hd. assert (timed d) as [? ? ? ? Ht ?].
  { cut (forall a b, rtc tick a b -> timed a -> timed b);
      [intros Hi; apply (Hi _ _ H)|induction 1; eauto using tick_timed].
    split; cbn; done. }
  destruct (backupInFlight (sched d)); [by left|right].
  destruct (Ht eq_refl f Hd) as (p & t & ? & ? & -> & ? & ?). eauto.
Qed.

(** A circle joined, left or renamed parks at once, unless the last upload
    failed. *)
Theorem a_new_shape_parks_at_once shape now s :
  backupInFlight s = false -> backupRetry s = false -> parkedShape s <> Some shape ->
  backupTimer (scheduleBackup shape now s) = Some now.
Proof.
  intros H1 H2 H3. unfold scheduleBackup. rewrite H1, H2, bool_decide_true by done.
  cbn. f_equal. lia.
Qed.

(** An upload that declines to write (no relay, or nothing loaded yet) with
    a shape that was never parked is scheduled again for the same instant,
    without end: the comment expects it to wait for the next change. *)
Theorem declined_upload_spins shape now x n :
  parkedShape (sched x) <> Some shape -> backupTimer (sched x) = Some now -> clock x = now ->
  exists y, nsteps tick (2 * n) x y /\ clock y = now /\ backupTimer (sched y) = Some now.
Proof.
  intros Hs Ht Hc. induction n as [|n IH] in x, Hs, Ht, Hc |- *; [by exists x; split; [constructor|]|].
  destruct x as [c s old f e]. cbn in Hs, Ht, Hc. subst c.
  assert (Hr : scheduleBackup shape now
    {| backupDirty := true; backupInFlight := false; backupPendingSince := None; backupTimer := None;
       backupRetry := false; parkedShape := parkedShape s |} =
    {| backupDirty := true; backupInFlight := false; backupPendingSince := Some now; backupTimer := Some now;
       backupRetry := false; parkedShape := parkedShape s |}).
  { unfold scheduleBackup. cbn -[BACKUP_DEBOUNCE BACKUP_MAX_WAIT]. rewrite bool_decide_true by done. cbn.
    by rewrite Z.add_0_r. }
  destruct (IH {| clock := now; sched := flush_end shape shape Declined now (flush_start s); sent := shape;
                  owed := Some now; ended := now |})
    as (y & Hy & ? & ?).
  - unfold flush_end. cbn -[scheduleBackup]. by rewrite Hr.
  - unfold flush_end. cbn -[scheduleBackup]. by rewrite Hr.
  - done.
  - exists y. split; [|done]. replace (2 * S n)%nat with (S (S (2 * n))) by lia.
    eapply nsteps_l; [by apply (tick_fire now s old f e shape)|].
    eapply nsteps_l; [apply (tick_end now (flush_start s) shape None e shape Declined); done|]. done.
Qed.

(** *** No circle vanishes

    One device against a relay that every other device of the account writes
    as it likes.  [hist] is what has been parked, oldest first, so its length is
    the version; [late] the writes this device stopped waiting for, which the
    relay may still take; [gone] the circles this device left. *)

Record world := {
  dev : device; stage : phase; hist : list val; late : list (list val * Z); gone : list jstr;
}.

(** The payload that was parked at version [n]. *)
Definition parked (h : list val) (n : nat) : option val :=
  match n with O => None | S m => h !! m end.

Definition version (h : list val) : Z := Z.of_nat (length h).

(** Steps of the device and of the relay.  With [faults], also those that
    leave the device with a version whose circles it does not hold: the second
    write fails before the relay took it, or merging or taking over what was
    read throws. *)
Inductive step (faults : bool) : world -> world -> Prop :=
| st_join d p h q g c :
    truthy c.["id"] = true ->
    step faults {| dev := d; stage := p; hist := h; late := q; gone := g |}
      {| dev := set_servers (vmap_set (servers d) c.["id"] c) d; stage := p; hist := h; late := q; gone := g |}
| st_leave d p h q g id :
    step faults {| dev := d; stage := p; hist := h; late := q; gone := g |}
      {| dev := set_servers (vmap_delete (servers d) (VStr id)) d; stage := p; hist := h; late := q; gone := id :: g |}
| st_read d p h q g n now d' fresh :
    (n <= length h)%nat -> readCircles d now (parked h n) (Z.of_nat n) = (d', Ok fresh) ->
    step faults {| dev := d; stage := p; hist := h; late := q; gone := g |}
      {| dev := d'; stage := p; hist := h; late := q; gone := g |}
| st_upload d h q g p :
    uploadBackup true d = Some (Ok p) ->
    step faults {| dev := d; stage := Idle; hist := h; late := q; gone := g |}
      {| dev := d; stage := p; hist := h; late := q; gone := g |}
| st_taken1 d l v h q g :
    v = version h ->
    step faults {| dev := d; stage := First l v; hist := h; late := q; gone := g |}
      {| dev := d; stage := Done1 l (v + 1); hist := h ++ [sealed l]; late := q; gone := g |}
| st_answer1 d l v h q g :
    step faults {| dev := d; stage := Done1 l v; hist := h; late := q; gone := g |}
      {| dev := set_version v d; stage := Idle; hist := h; late := q; gone := g |}
| st_refused1 d l v h q g :
    v <> version h ->
    step faults {| dev := d; stage := First l v; hist := h; late := q; gone := g |}
      {| dev := d; stage := Lost l; hist := h; late := q; gone := g |}
| st_reread d l h q g n d' p :
    (n <= length h)%nat -> retry l (parked h n) (Z.of_nat n) d = (d', Ok p) ->
    step faults {| dev := d; stage := Lost l; hist := h; late := q; gone := g |}
      {| dev := d'; stage := p; hist := h; late := q; gone := g |}
| st_taken2 d l v h q g :
    v = version h ->
    step faults {| dev := d; stage := Second l v; hist := h; late := q; gone := g |}
      {| dev := d; stage := Done2 l (v + 1); hist := h ++ [sealed l]; late := q; gone := g |}
| st_answer2 d l v h q g now d' fresh :
    settle l v now d = (d', Ok fresh) ->
    step faults {| dev := d; stage := Done2 l v; hist := h; late := q; gone := g |}
      {| dev := d'; stage := Idle; hist := h; late := q; gone := g |}
| st_refused2 d l v h q g :
    v <> version h ->
    step faults {| dev := d; stage := Second l v; hist := h; late := q; gone := g |}
      {| dev := d; stage := Idle; hist := h; late := q; gone := g |}
| st_given_up d p h q g :
    (forall l v, p <> Second l v) ->
    step faults {| dev := d; stage := p; hist := h; late := q; gone := g |}
      {| dev := d; stage := Idle; hist := h;
         late := match p with First l v => (l, v) :: q | _ => q end; gone := g |}
| st_late d p h q g l v :
    (l, v) ∈ q -> v = version h ->
    step faults {| dev := d; stage := p; hist := h; late := q; gone := g |}
      {| dev := d; stage := p; hist := h ++ [sealed l]; late := q; gone := g |}
| st_other d p h q g b :
    step faults {| dev := d; stage := p; hist := h; late := q; gone := g |}
      {| dev := d; stage := p; hist := h ++ [b]; late := q; gone := g |}
| st_second_fails d l v h q g :
    faults = true ->
    step faults {| dev := d; stage := Second l v; hist := h; late := q; gone := g |}
      {| dev := d; stage := Idle; hist := h; late := q; gone := g |}
| st_read_throws d p h q g n now d' e :
    faults = true -> (n <= length h)%nat -> readCircles d now (parked h n) (Z.of_nat n) = (d', Throw e) ->
    step faults {| dev := d; stage := p; hist := h; late := q; gone := g |}
      {| dev := d'; stage := p; hist := h; late := q; gone := g |}
| st_reread_throws d l h q g n d' e :
    faults = true -> (n <= length h)%nat -> retry l (parked h n) (Z.of_nat n) d = (d', Throw e) ->
    step faults {| dev := d; stage := Lost l; hist := h; late := q; gone := g |}
      {| dev := d'; stage := Idle; hist := h; late := q; gone := g |}
| st_settle_throws d l v h q g now d' e :
    faults = true -> settle l v now d = (d', Throw e) ->
    step faults {| dev := d; stage := Done2 l v; hist := h; late := q; gone := g |}
      {| dev := d'; stage := Idle; hist := h; late := q; gone := g |}.

(** A device that has read nothing yet, on an account with anything parked. *)
Definition booted (d : device) (h : list val) : world :=
  {| dev := {| servers := []; backupVersion := None; circlesLoaded := false;
               deviceState := deviceState d; mlsGroups := mlsGroups d |};
     stage := Idle; hist := h; late := []; gone := [] |}.

(** The writes the relay has not taken yet. *)
Definition writes (w : world) : list (list val * Z) :=
  match stage w with First l v | Second l v => (l, v) :: late w | _ => late w end.

Definition lists (l : list val) (id : jstr) : bool := existsb (has_id id) l.

(** The circles of a parked record. *)
Definition holds (b : val) (id : jstr) : bool :=
  match iterate (b.["servers"] ⁇ VArr []) with Ok l => lists l id | Throw _ => false end.

(** [l] has every circle that is parked, those this device left aside, and what
    is parked can be read. *)
Definition covers (h : list val) (g : list jstr) (l : list val) : Prop :=
  forall b, last h = Some b ->
    (exists l, fetchBackup (Some b) = Ok l) /\
    forall id, id <> [] -> holds b id = true -> lists l id = true \/ id ∈ g.

(** The same, should [v] still be the version when it matters. *)
Definition safe_at (h : list val) (g : list jstr) (l : list val) (v : Z) : Prop :=
  v <= version h /\ (v = version h -> covers h g l).

(** **** Records keep their ids *)

Lemma shared_half_id record half : sharedHalf record = Ok half -> (VObj half).["id"] = record.["id"].
Proof.
  intros (c & v & ->)%shared_half_inv. unfold getq. rewrite put_fields_prop.
  replace (last_field _ _) with (@None val) by (vm_compute; reflexivity).
  apply pick_prop; [apply plain_shared|]. apply (bool_decide_unpack _). vm_compute. done.
Qed.

Lemma adopted_id d now s r : adopted d now s = Ok r -> r.["id"] = s.["id"].
Proof.
  unfold adopted, hydrate. intros E. apply rbind_Ok in E as (? & _ & E). apply rbind_Ok in E as (rec & Eh & E).
  apply rbind_Ok in E as (? & _ & E). apply rbind_Ok in E as (? & _ & E). apply Ok_inj in E as <-.
  apply rbind_Ok in Eh as (half & _ & Eh). apply Ok_inj in Eh as <-. unfold getq. rewrite put_fields_prop.
  replace (last_field _ _) with (@None val) by (vm_compute; reflexivity).
  assert (prop (VObj (put_fields half (device_fields s x now))) (js "id") = prop s (js "id")) as Hd.
  { rewrite put_fields_prop. by replace (last_field _ _) with (Some s.["id"]) by (vm_compute; reflexivity). }
  destruct (includes _ _); [done|]. rewrite put_fields_prop.
  by replace (last_field _ _) with (@None val) by (vm_compute; reflexivity).
Qed.

Lemma lists_elem l id : lists l id = true <-> exists c, c ∈ l /\ has_id id c = true.
Proof. unfold lists. rewrite existsb_exists. by setoid_rewrite list_elem_of_In. Qed.

Lemma has_id_eq id c c' : c.["id"] = c'.["id"] -> has_id id c = has_id id c'.
Proof. unfold has_id. by intros ->. Qed.

Lemma lists_set m c id : filed m ->
  lists m.*2 id = true \/ has_id id c = true -> lists (vmap_set m c.["id"] c).*2 id = true.
Proof.
  intros Hf. rewrite !lists_elem. induction Hf as [|[k v] m Hk Hm IH]; cbn [vmap_set].
  - intros [(x & []%elem_of_nil & _)|Hc]. exists c. split; [by left|done].
  - specialize (Hk id). cbn [fst snd] in Hk. destruct (same_value k c.["id"]) eqn:E; cbn [fmap list_fmap snd].
    + intros [(x & Hx & Hid)|Hc]; [|by exists c; split; [left|]].
      apply elem_of_cons in Hx as [->|Hx]; [|by exists x; split; [right|]]. exists c. split; [by left|].
      apply has_id_text. apply same_value_eq in E as <-. by apply Hk.
    + intros [(x & Hx & Hid)|Hc].
      * apply elem_of_cons in Hx as [->|Hx]; [by exists v; split; [left|]|].
        destruct IH as (y & ? & ?); [by eauto|]. exists y. split; [by right|done].
      * destruct IH as (y & ? & ?); [by eauto|]. exists y. split; [by right|done].
Qed.

Lemma lists_delete m k id : lists m.*2 id = true -> filed m -> id = k \/ lists (vmap_delete m (VStr k)).*2 id = true.
Proof.
  rewrite !lists_elem. intros (c & (e & -> & He)%list_elem_of_fmap & Hid) Hf. unfold filed in Hf.
  rewrite Forall_forall in Hf. pose proof (proj2 (Hf e He id) Hid) as Ek.
  destruct (decide (id = k)) as [|Hne]; [by left|right]. exists e.2. split; [|done].
  apply list_elem_of_fmap. exists e. split; [done|]. apply list_elem_of_filter. split; [|done].
  rewrite Ek. cbn. by apply str_eqb_neq.
Qed.

Lemma filed_delete m k : filed m -> filed (vmap_delete m k).
Proof. intros H. by apply Forall_filter. Qed.

Lemma lists_held m id : filed m -> vmap_has m (VStr id) = true -> lists m.*2 id = true.
Proof.
  unfold vmap_has. intros Hf (k & (e & -> & He)%list_elem_of_fmap & Hk)%includes_true.
  apply same_value_eq in Hk. rewrite lists_elem. unfold filed in Hf. rewrite Forall_forall in Hf.
  exists e.2. split; [apply list_elem_of_fmap; by exists e|]. by apply (Hf e He).
Qed.

(** What taking circles over leaves: everything that was held, and everything
    that was read. *)
Lemma adopt_all_lists l : forall d now d' fresh,
  adopt_all d now l = (d', Ok fresh) -> filed (servers d) ->
  filed (servers d') /\ backupVersion d' = backupVersion d /\ circlesLoaded d' = circlesLoaded d /\
  (forall id, lists (servers d).*2 id = true -> lists (servers d').*2 id = true) /\
  (forall id, id <> [] -> lists l id = true -> lists (servers d').*2 id = true).
Proof.
  induction l as [|s l IH]; intros d now d' fresh E Hf; cbn [adopt_all] in E.
  - injection E as -> _. by split_and!.
  - destruct (negb _ || _) eqn:Es.
    + destruct (IH _ _ _ _ E Hf) as (H1 & H2 & H3 & H4 & H5). split_and!; try done.
      intros id Hne. cbn. rewrite orb_true_iff. intros [Hid|Hid]; [|by apply H5]. apply H4.
      apply has_id_text in Hid. rewrite Hid in Es. apply lists_held; [done|].
      apply orb_true_iff in Es as [Es|Es]; [|done]. cbn in Es.
      apply negb_true_iff, negb_false_iff, bool_decide_eq_true in Es. done.
    + destruct (adopted d now s) as [record|] eqn:Ea; [|done].
      destruct (adopt_all _ now l) as [d1 f1] eqn:E1. injection E as <- E.
      destruct f1 as [f|]; [|done]. pose proof (adopted_id _ _ _ _ Ea) as Hr.
      destruct (IH _ _ _ _ E1) as (H1 & H2 & H3 & H4 & H5).
      { cbn. rewrite <- Hr. by apply vmap_set_filed. }
      split_and!; try done; cbn [set_servers servers] in H4.
      * intros id Hid. apply H4. rewrite <- Hr. apply lists_set; [done|by left].
      * intros id Hne. cbn. rewrite orb_true_iff. intros [Hid|Hid]; [|by apply H5]. apply H4. rewrite <- Hr.
        apply lists_set; [done|right]. by rewrite (has_id_eq _ _ _ Hr).
Qed.

Lemma halves_lists d l id : halves d = Ok l -> lists l id = lists (servers d).*2 id.
Proof.
  unfold halves. generalize (servers d).*2. intros m E. apply rmap_Ok_Forall2 in E.
  induction E as [|r h m l Hr _ IH]; [done|]. unfold lists in *. cbn [existsb]. rewrite IH. f_equal. apply has_id_eq.
  apply rbind_Ok in Hr as (o & Ho & [= <-]). by apply shared_half_id.
Qed.

Lemma merge_lists l theirs t m id :
  mergeBackups (VArr l) theirs = Ok m -> iterate (theirs ⁇ VArr []) = Ok t -> id <> [] ->
  lists l id = true \/ lists t id = true -> lists m id = true.
Proof.
  intros E Et Hid Hl. unfold mergeBackups in E. rewrite Et in E. cbn in E. apply Ok_inj in E as <-.
  assert (filed []) as H0 by constructor.
  destruct (by_id_shelf id t [] None Hid H0 eq_refl) as [H1 H2].
  destruct (by_id_shelf id l _ _ Hid H1 H2) as [_ H3].
  assert (forall k, lists k id = true -> is_Some (last_of id k)) as Hs.
  { intros k (c & Hc & Hh)%lists_elem. unfold last_of. apply last_is_Some.
    intros En. apply (not_elem_of_nil c). rewrite <- En. by apply list_elem_of_filter. }
  assert (exists c, c ∈ filter (fun c => has_id id c = true) (by_id (by_id [] t) l).*2) as (c & Hc).
  { rewrite H3. destruct (last_of id l) as [c|] eqn:El; [exists c; by left|].
    destruct Hl as [Hl|Hl]; apply Hs in Hl as [c Hc]; [by rewrite Hc in El|]. rewrite Hc. exists c. by left. }
  apply list_elem_of_filter in Hc as [? ?]. apply lists_elem. eauto.
Qed.

Lemma fetch_sealed l : fetchBackup (Some (sealed l)) = Ok (VArr l).
Proof. reflexivity. Qed.

Lemma holds_sealed l id : holds (sealed l) id = lists l id.
Proof. reflexivity. Qed.

Lemma fetch_holds b sv : fetchBackup (Some b) = Ok sv -> sv = (b.["servers"] ⁇ VArr []).
Proof.
  cbn [fetchBackup]. intros E. apply rbind_Ok in E as (v0 & _ & E). apply rbind_Ok in E as (v & _ & E).
  destruct (_ >ₙ _); [done|]. by apply Ok_inj in E.
Qed.

Lemma coalesce_twice a d : (coalesce (coalesce a (VArr d)) (VArr d)) = coalesce a (VArr d).
Proof. unfold coalesce. destruct (nullish a) eqn:E; cbn; by rewrite ?E. Qed.

(** **** What holds between the relay and the device *)

Definition bv (d : device) : Z := default 0 (backupVersion d).

(** What an upload in the air stands on. *)
Definition stage_ok (h : list val) (g : list jstr) (held : list val) (p : phase) : Prop :=
  match p with
  | First l _ => forall id, lists l id = true -> lists held id = true \/ id ∈ g
  | Done1 l v => (v <= version h /\ (v = version h -> last h = Some (sealed l))) /\
                 forall id, lists l id = true -> lists held id = true \/ id ∈ g
  | Done2 l v => v <= version h /\ (v = version h -> last h = Some (sealed l))
  | _ => True
  end.

Record sound (w : world) : Prop := {
  so_filed : filed (servers (dev w));
  so_version : bv (dev w) <= version (hist w);
  so_dev : circlesLoaded (dev w) = true ->
    safe_at (hist w) (gone w) (servers (dev w)).*2 (bv (dev w)) \/ exists l, stage w = Second l (bv (dev w));
  so_writes : Forall (fun lv => safe_at (hist w) (gone w) lv.1 lv.2) (writes w);
  so_stage : stage_ok (hist w) (gone w) (servers (dev w)).*2 (stage w);
}.

Lemma version_app h b : version (h ++ [b]) = version h + 1.
Proof. unfold version. rewrite length_app. cbn. lia. Qed.

Lemma safe_at_app h b g l v : v <= version h -> safe_at (h ++ [b]) g l v.
Proof. unfold safe_at. rewrite version_app. lia. Qed.

Lemma safe_at_mono h g g' l l' v :
  (forall id, id <> [] -> lists l id = true \/ id ∈ g -> lists l' id = true \/ id ∈ g') ->
  safe_at h g l v -> safe_at h g' l' v.
Proof.
  intros Hm [Hv Hc]. split; [done|]. intros E b Hb. destruct (Hc E b Hb) as [Hr Hids]. split; [done|].
  intros id Hne Hh. apply Hm; [done|]. by apply Hids.
Qed.

Lemma safe_at_le h g l v : safe_at h g l v -> v <= version h.
Proof. by intros []. Qed.

(** The relay took one more payload. *)
Lemma sound_grows d p h q g b :
  sound {| dev := d; stage := p; hist := h; late := q; gone := g |} ->
  sound {| dev := d; stage := p; hist := h ++ [b]; late := q; gone := g |}.
Proof.
  intros [Hf Hv Hd Hw Hs]; cbn [dev stage hist late gone writes] in *. split; cbn [dev stage hist late gone writes] in *.
  - done.
  - rewrite version_app. lia.
  - intros _. left. by apply safe_at_app.
  - eapply Forall_impl; [exact Hw|]. intros [l v] H%safe_at_le. by apply safe_at_app.
  - destruct p as [|?|? ? |?|?|? ?]; cbn [stage_ok] in *; try done; rewrite version_app;
      [destruct Hs as [Hs Hk]; split; [|done]|]; split; lia.
Qed.

(** The device holds at least as much, or left what it dropped. *)
Lemma sound_device d d' p h q g g' :
  sound {| dev := d; stage := p; hist := h; late := q; gone := g |} ->
  filed (servers d') -> bv d' <= version h ->
  (circlesLoaded d' = true -> safe_at h g' (servers d').*2 (bv d') \/ exists l, p = Second l (bv d')) ->
  (forall id, lists (servers d).*2 id = true -> lists (servers d').*2 id = true \/ id ∈ g') ->
  (forall id, id ∈ g -> id ∈ g') ->
  sound {| dev := d'; stage := p; hist := h; late := q; gone := g' |}.
Proof.
  intros [Hf Hv Hd Hw Hs] Hf' Hv' Hl Hm Hg; cbn [dev stage hist late gone writes] in *.
  split; cbn [dev stage hist late gone writes] in *; try done.
  - eapply Forall_impl; [exact Hw|]. intros [l v]. apply safe_at_mono. naive_solver.
  - destruct p; cbn [stage_ok] in *; naive_solver.
Qed.

Lemma covers_parked h g l b sv :
  last h = Some b -> fetchBackup (Some b) = Ok sv ->
  (forall id, id <> [] -> holds b id = true -> lists l id = true) -> covers h g l.
Proof. intros Hb Hf Hl b' Hb'. rewrite Hb in Hb'. injection Hb' as <-. eauto. Qed.

(** The payload of the newest version is the newest payload. *)
Lemma parked_newest h n : Z.of_nat n = version h -> parked h n = last h.
Proof.
  unfold version. intros E%Nat2Z.inj. subst n. rewrite last_lookup. by destruct h.
Qed.

(** Taking over what was read covers it. *)
Lemma read_safe h g n d sv l t :
  (n <= length h)%nat -> fetchBackup (parked h n) = Ok sv -> iterate (sv ⁇ VArr []) = Ok t ->
  (forall id, id <> [] -> lists t id = true -> lists l id = true) ->
  bv d = Z.of_nat n -> safe_at h g l (bv d).
Proof.
  intros Hn Hf Ht Hl Hv. rewrite Hv. split; [unfold version; lia|]. intros E. rewrite (parked_newest _ _ E) in Hf.
  intros b Hb. rewrite Hb in Hf. split; [by eauto|]. intros id Hne Hh. left. apply Hl; [done|].
  apply fetch_holds in Hf as ->. unfold holds in Hh. rewrite coalesce_twice in Ht. by rewrite Ht in Hh.
Qed.

Lemma read_sound d p h q g n now d' fresh :
  (n <= length h)%nat -> readCircles d now (parked h n) (Z.of_nat n) = (d', Ok fresh) ->
  sound {| dev := d; stage := p; hist := h; late := q; gone := g |} ->
  sound {| dev := d'; stage := p; hist := h; late := q; gone := g |}.
Proof.
  intros Hn Hr Hs. unfold readCircles in Hr. destruct (fetchBackup _) as [sv|] eqn:Ef; [|done].
  unfold adoptCircles in Hr. destruct (iterate _) as [t|] eqn:Et; [|done].
  destruct (adopt_all_lists _ _ _ _ _ Hr (so_filed _ Hs)) as (H1 & H2 & H3 & H4 & H5). cbn in H2, H3.
  assert (bv d' = Z.of_nat n) as Hv by (unfold bv; by rewrite H2).
  eapply sound_device; [done|done| | |naive_solver|done].
  - rewrite Hv. unfold version. lia.
  - intros _. left. eauto using read_safe.
Qed.

Lemma settle_sound d l v h q g now d' fresh :
  settle l v now d = (d', Ok fresh) ->
  sound {| dev := d; stage := Done2 l v; hist := h; late := q; gone := g |} ->
  sound {| dev := d'; stage := Idle; hist := h; late := q; gone := g |}.
Proof.
  intros E Hs. unfold settle, adoptCircles in E. cbn [coalesce nullish iterate] in E.
  destruct (adopt_all_lists _ _ _ _ _ E (so_filed _ Hs)) as (H1 & H2 & H3 & H4 & H5). cbn in H2.
  assert (bv d' = v) as Hv by (unfold bv; by rewrite H2).
  destruct (so_stage _ Hs) as [Hle Hlast]. cbn in Hle, Hlast. pose proof (so_writes _ Hs) as Hw.
  split; cbn [dev stage hist late gone writes] in *; [done|by rewrite Hv| |done|done].
  intros _. left. rewrite Hv. split; [done|]. intros E' . eapply covers_parked; [by apply Hlast|apply fetch_sealed|].
  intros id Hne. rewrite holds_sealed. by apply H5.
Qed.

Lemma retry_sound l d h q g n d' p :
  (n <= length h)%nat -> retry l (parked h n) (Z.of_nat n) d = (d', Ok p) ->
  sound {| dev := d; stage := Lost l; hist := h; late := q; gone := g |} ->
  sound {| dev := d'; stage := p; hist := h; late := q; gone := g |}.
Proof.
  intros Hn E [Hf Hv Hd Hw Hs]. cbn [dev stage hist late gone writes] in *. unfold retry in E.
  destruct (fetchBackup _) as [sv|] eqn:Esv; [|done]. injection E as <- E.
  apply rbind_Ok in E as (m & Em & E). apply Ok_inj in E as <-.
  assert (Z.of_nat n <= version h) as Hle by (unfold version; lia).
  split; cbn [dev stage hist late gone writes set_version servers]; [done|done| | |done].
  - intros _. right. by exists m.
  - constructor; [|done]. cbn [fst snd]. destruct (iterate (sv ⁇ VArr [])) as [t|] eqn:Et.
    + eapply (read_safe h g n (set_version (Z.of_nat n) d)); [done|done|done| |done].
      intros id Hne Ht. eapply merge_lists; eauto.
    + unfold mergeBackups in Em. by rewrite Et in Em.
Qed.

Lemma upload_sound d h q g p :
  uploadBackup true d = Some (Ok p) ->
  sound {| dev := d; stage := Idle; hist := h; late := q; gone := g |} ->
  sound {| dev := d; stage := p; hist := h; late := q; gone := g |}.
Proof.
  intros E [Hf Hv Hd Hw Hs]. cbn [dev stage hist late gone writes] in *. unfold uploadBackup in E.
  destruct (circlesLoaded d) eqn:El; [|done]. cbn in E. injection E as E.
  apply rbind_Ok in E as (l & Eh & E). apply Ok_inj in E as <-.
  destruct (Hd eq_refl) as [Hsafe|[? ?]]; [|done].
  assert (forall id, lists l id = lists (servers d).*2 id) as Hl by (intros; by apply halves_lists).
  split; cbn [dev stage hist late gone writes]; [done|done|by left| |].
  - constructor; [|done]. eapply safe_at_mono; [|exact Hsafe]. intros id _. by rewrite Hl.
  - intros id. rewrite Hl. by left.
Qed.

Lemma step_sound w w' : step false w w' -> sound w -> sound w'.
Proof.
  intros Hstep Hs. pose proof Hs as [Hf Hv Hd Hw Hst]. destruct Hstep; cbn [dev stage hist late gone writes] in *; try done.
  - assert (forall id, lists (servers d).*2 id = true -> lists (vmap_set (servers d) c.["id"] c).*2 id = true) as Hl
      by (intros; apply lists_set; [done|by left]).
    eapply sound_device; [done|by apply vmap_set_filed|done| |naive_solver|done].
    intros El. destruct (Hd El) as [Hsafe|?]; [left|by right].
    eapply safe_at_mono; [|exact Hsafe]. cbn [set_servers servers]. intros x _ [?|?]; [left; by apply Hl|by right].
  - assert (forall x, lists (servers d).*2 x = true -> lists (vmap_delete (servers d) (VStr id)).*2 x = true \/ x ∈ id :: g) as Hl.
    { intros x Hx. destruct (lists_delete _ id _ Hx Hf) as [->|?]; [right; by left|by left]. }
    eapply sound_device; [done|by apply filed_delete|done| |done|by intros ?; right].
    intros El. destruct (Hd El) as [Hsafe|?]; [left|by right].
    eapply safe_at_mono; [|exact Hsafe]. cbn [set_servers servers]. intros x _ [?|?]; [by apply Hl|right; by right].
  - eauto using read_sound.
  - eauto using upload_sound.
  - apply Forall_cons in Hw as [Hw1 Hw2]. split; cbn [dev stage hist late gone writes]; [done| | | |].
    + rewrite version_app. lia.
    + intros _. left. by apply safe_at_app.
    + eapply Forall_impl; [exact Hw2|]. intros [? ?] ?%safe_at_le. by apply safe_at_app.
    + cbn. rewrite version_app, last_snoc. split; [split; [lia|done]|done].
  - destruct Hst as [[Hle Hlast] Hkept]. split; cbn [dev stage hist late gone writes set_version servers bv] in *; [done|done| |done|done].
    intros _. left. split; [done|]. intros E b Hb. cbn in E. rewrite (Hlast E) in Hb. injection Hb as <-.
    split; [by eexists|]. intros id _. rewrite holds_sealed. apply Hkept.
  - apply Forall_cons in Hw as [Hw1 Hw2]. split; cbn [dev stage hist late gone writes]; try done.
    intros El. destruct (Hd El) as [?|[? ?]]; [by left|done].
  - eauto using retry_sound.
  - apply Forall_cons in Hw as [Hw1 Hw2]. split; cbn [dev stage hist late gone writes]; [done| | | |].
    + rewrite version_app. lia.
    + intros _. left. by apply safe_at_app.
    + eapply Forall_impl; [exact Hw2|]. intros [? ?] ?%safe_at_le. by apply safe_at_app.
    + cbn. rewrite version_app, last_snoc. split; [lia|done].
  - eauto using settle_sound.
  - apply Forall_cons in Hw as [Hw1 Hw2]. apply safe_at_le in Hw1. cbn in Hw1.
    split; cbn [dev stage hist late gone writes]; try done. intros El. left.
    destruct (Hd El) as [?|[l' E]]; [done|]. injection E as -> Ev. split; [done|]. rewrite <- Ev. done.
  - split; cbn [dev stage hist late gone writes]; try done.
    + intros El. destruct (Hd El) as [?|[l E]]; [by left|]. by destruct (H l _ E).
    + destruct p; try done. by destruct (H l version0).
  - by apply sound_grows.
  - by apply sound_grows.
Qed.


(** **** Small worlds *)

Definition circle_named (id : string) : val := jobj [("id", VStr (js id)); ("name", VStr (js id))]%string.

Definition fresh_device : device :=
  {| servers := []; backupVersion := None; circlesLoaded := false; deviceState := VUndef; mlsGroups := [] |}.

(** The half a circle of that name is parked as. *)
Definition parked_half (id : string) : val :=
  match sharedHalf (circle_named id) with Ok h => VObj h | Throw _ => VUndef end.

Definition after_read (l : list val) (n : nat) : device :=
  (readCircles fresh_device (int 1000) (Some (sealed l)) (Z.of_nat n)).1.

(** The second write of an upload fails before the relay takes it (a
    timeout, a refusal other than the conflict) while nobody else writes: the
    device now has the version of the other device's payload but not its
    circles, and the next upload parks over them. *)
Theorem failed_second_write_drops_circles :
  exists w l b, rtc (step true) (booted fresh_device [sealed [parked_half "a"]]) w /\
    (l, version (hist w)) ∈ writes w /\ last (hist w) = Some b /\
    holds b (js "b") = true /\ lists l (js "b") = false /\ gone w = [].
Proof.
  set (d := after_read [parked_half "a"] 1).
  set (h := [sealed [parked_half "a"]; sealed [parked_half "a"; parked_half "b"]]).
  set (l := match halves d with Ok l => l | _ => [] end).
  set (m := match mergeBackups (VArr l) (VArr [parked_half "a"; parked_half "b"]) with Ok m => m | _ => [] end).
  exists {| dev := set_version 2 d; stage := First l 2; hist := h; late := []; gone := [] |}, l,
    (sealed [parked_half "a"; parked_half "b"]).
  split; [|split_and!; [by left|done|vm_compute; reflexivity|vm_compute; reflexivity|done]].
  eapply rtc_l; [eapply (st_read true) with (n := 1%nat) (now := int 1000); [cbn; lia|vm_compute; reflexivity]|].
  eapply rtc_l; [apply st_upload with (p := First l 1); vm_compute; reflexivity|].
  eapply rtc_l; [apply st_other with (b := sealed [parked_half "a"; parked_half "b"])|].
  eapply rtc_l; [apply st_refused1; cbn; discriminate|].
  eapply rtc_l; [apply st_reread with (n := 2%nat) (p := Second m 2); [cbn; lia|vm_compute; reflexivity]|].
  eapply rtc_l; [by apply st_second_fails|].
  eapply rtc_l; [apply st_upload with (p := First l 2); vm_compute; reflexivity|].
  apply rtc_refl.
Qed.

(** It read circle [a] and joined circle [b]. *)
Definition joined_device : device :=
  let d := after_read [parked_half "a"] 1 in
  set_servers (vmap_set (servers d) (VStr (js "b")) (circle_named "b")) d.

Definition joined_halves : list val := match halves joined_device with Ok l => l | _ => [] end.


(** A second change two seconds after the first; the timer stays within the
    ceiling of the first. *)
Lemma a_busy_circle_still_parks_witness : exists t, 3000 <= t /\ t <= 1000 + BACKUP_MAX_WAIT.
Proof.
  destruct (a_busy_circle_still_parks 1000
    {| clock := 3000; sched := scheduleBackup (js "x") 3000 (scheduleBackup (js "x") 1000
         (flush_end (js "x") (js "x") Failed 1000 (flush_start (scheduleBackup (js "x") 1000 fresh_schedule))));
       sent := js "x"; owed := Some 1000; ended := 1000 |} 1000) as [H|(t & _ & H1 & H2)].
  - eapply rtc_l; [apply (tick_change 1000 fresh_schedule [] None 1000 (js "x"))|].
    eapply rtc_l; [apply (tick_fire 1000 _ [] (Some 1000) 1000 (js "x")); reflexivity|].
    eapply rtc_l; [apply (tick_end 1000 _ (js "x") None 1000 (js "x") Failed); reflexivity|].
    eapply rtc_l; [apply (tick_change 1000 _ (js "x") (Some 1000) 1000 (js "x"))|].
    eapply rtc_l; [apply (tick_wait 1000 _ (js "x") (Some 1000) 1000 3000); [lia|]|].
    + intros t [= <-]. vm_compute. discriminate.
    + eapply rtc_l; [apply (tick_change 3000 _ (js "x") (Some 1000) 1000 (js "x"))|apply rtc_refl].
  - reflexivity.
  - discriminate.
  - by exists t.
Defined.

Lemma a_new_shape_parks_at_once_witness : backupTimer (scheduleBackup (js "x") 7 fresh_schedule) = Some 7.
Proof. apply (a_new_shape_parks_at_once (js "x") 7 fresh_schedule); [done|done|discriminate]. Defined.

Lemma declined_upload_spins_witness :
  exists y, nsteps tick 10 {| clock := 0; sched := scheduleBackup (js "x") 0 fresh_schedule; sent := [];
    owed := Some 0; ended := 0 |} y /\
    clock y = 0 /\ backupTimer (sched y) = Some 0.
Proof. apply (declined_upload_spins (js "x") 0 _ 5); [discriminate|done|done]. Defined.
End Parking.
