(* ===== verification/Logs.v ===== *)
(** * Writing to and reading from the channel logs (client/src/lib/controller.js,
      "the channel log", loading of messages, key rotation)

    The controller's working copies of the channels' logs, what one member
    writes to the relay and what another makes of a page of it.  The relay's
    answers are arguments: [None] is a request that failed. *)

From stdpp Require Import base list numbers option strings.
From Stdlib Require Import ZArith NArith Lia Sorting.Permutation.
From S2P Require Import Prelude JsNum JsString JsValue Json Bytes Games ChanKeys Envelope Log History.
Open Scope Z_scope.

Module Logs.

Definition HISTORY_PAGE : nat := 50.
Definition LOG_SEP : jstr := [0%N].

Definition logKey (serverId channel : jstr) : jstr := serverId ++ LOG_SEP ++ channel.

(** A working copy, and whether its newest page was asked for. *)
Record slot := { sl_log : channel_log; sl_loaded : bool }.

(** The [logs] map. *)
Notation book := (list (jstr * slot)).

Definition channelLog (b : book) (serverId channel : jstr) : book * slot :=
  match obj_get b (logKey serverId channel) with
  | Some s => (b, s)
  | None => let s := {| sl_log := createChannelLog; sl_loaded := false |} in
            (map_set b (logKey serverId channel) s, s)
  end.

(** The log object is shared: writing to it writes to the map's copy. *)
Definition write_log (b : book) (key : jstr) (log : channel_log) : book :=
  match obj_get b key with
  | Some s => map_set b key {| sl_log := log; sl_loaded := sl_loaded s |}
  | None => b
  end.

Definition forgetChannelLog (b : book) (serverId channel : jstr) : book := obj_delete b (logKey serverId channel).

Definition forgetCircleLogs (b : book) (serverId : jstr) : book :=
  filter (fun kv => starts_with (serverId ++ LOG_SEP) kv.1 = false) b.

Definition set_channel (m : line) (ch : val) : line :=
  {| ln_server := ln_server m; ln_channel := ch; ln_sender := ln_sender m; ln_ts := ln_ts m;
     ln_body := ln_body m; ln_reply := ln_reply m; ln_auth := ln_auth m; ln_seq := ln_seq m;
     ln_local := ln_local m; ln_system := ln_system m; ln_failed := ln_failed m; ln_edited := ln_edited m;
     ln_deleted := ln_deleted m; ln_reacts := ln_reacts m |}.

Definition renameChannelLog (b : book) (serverId from to : jstr) : book :=
  match obj_get b (logKey serverId from) with
  | None => b
  | Some s =>
      let log := set_base (sl_log s) ((fun kv => (kv.1, set_channel kv.2 (VStr to))) <$> base (sl_log s)) in
      map_set (obj_delete b (logKey serverId from)) (logKey serverId to) {| sl_log := log; sl_loaded := sl_loaded s |}
  end.

(** Fold an entry in as this device's own copy. *)
Definition add_local (b : book) (serverId : jstr) (channel : val) (entry : val) : book * res nat :=
  match to_string channel with
  | Throw e => (b, Throw e)
  | Ok name =>
      let '(b1, s) := channelLog b serverId name in
      let '(log, r) := addLocalEntry (sl_log s) entry serverId channel in
      (write_log b1 (logKey serverId name) log, r)
  end.

Definition applyLiveEntry (b : book) (serverId : jstr) (channel : val) (entry : val) : book * res nat :=
  if negb (truthy entry.["sender"]) || negb (truthy entry.["ts"]) then (b, Ok 0%nat)
  else add_local b serverId channel entry.

(** ** Room keys *)

(** The channel's meta, with an id and a key it may lack; [None] when it had
    both.  The fresh id and key are arguments. *)
Definition ensureChannelKeys (r : circle) (channel hid hkey : jstr) : circle * option val :=
  let meta := chanMeta_at r channel in
  if truthy meta.["hid"] && truthy meta.["hkey"] then (r, None) else
  let next := VObj (obj_put (obj_put (own_props meta) (js "hid") (meta.["hid"] ⁇ VStr hid))
                      (js "hkey") (meta.["hkey"] ⁇ VStr hkey)) in
  (set_chanMeta r (Some (obj_put (default [] (c_chanMeta r)) channel next)), Some next).

Definition rotated_meta (meta : val) (key : jstr) (old : list val) : val :=
  VObj (obj_put (obj_put (own_props meta) (js "hkey") (VStr key)) (js "hkeys") (VArr (meta.["hkey"] :: old))).

Definition keyless (meta : val) : bool := negb (truthy meta.["hid"]) || negb (truthy meta.["hkey"]).

(** The loop of [rotateHistoryKeys] over the entries of [chanMeta]; the fresh
    keys are drawn in order.  An exception keeps what had rotated. *)
Fixpoint rotate_all (entries meta_of : obj) (fresh : list jstr) : obj * res (list jstr) :=
  match entries with
  | [] => (meta_of, Ok [])
  | (channel, meta) :: rest =>
      if keyless meta then rotate_all rest meta_of fresh else
      match iterate (meta.["hkeys"] ⁇ VArr []) with
      | Throw e => (meta_of, Throw e)
      | Ok old =>
          let meta' := rotated_meta meta (default [] (head fresh)) old in
          let '(m, rotated) := rotate_all rest (obj_put meta_of channel meta') (tail fresh) in
          (m, let* l := rotated in Ok (channel :: l))
      end
  end.

Definition rotateHistoryKeys (r : circle) (fresh : list jstr) : circle * res (list jstr) :=
  match c_chanMeta r with
  | None => (r, Ok [])
  | Some meta => let '(m, rotated) := rotate_all meta meta fresh in (set_chanMeta r (Some m), rotated)
  end.

(** ** Writing *)

Inductive request :=
| Announce (meta : val)                                            (** the [chanset] envelope *)
| Append (hid : val) (ts : num) (expires_at : val) (payload : jstr)
| Redact (hid : val) (seq : num).

Section logs.
Context `{Web}.

Definition seal_for (meta : val) (serverId : jstr) (full : obj) (iv : bytes) : res jstr :=
  let* hkey := to_string meta.["hkey"] in
  let* hid := to_string meta.["hid"] in
  sealLogEntry hkey serverId hid full iv.

(** [meta.retention ? tsSecs + meta.retention : null]; [+] joins text. *)
Definition expiry (meta : val) (tsSecs : num) : res val :=
  let retention := meta.["retention"] in
  if negb (truthy retention) then Ok VNull else
  match retention with
  | VNum _ | VBool _ => let* s := to_number retention in Ok (VNum (nadd tsSecs s))
  | _ => let* s := to_string retention in Ok (VStr (num_to_string tsSecs ++ s))
  end.

Record written := {
  wr_record : circle;
  wr_book : book;
  wr_requests : list request;
  wr_seq : option num;   (** what the relay numbered it, when it took it *)
}.

(** [appendLog] of a record at hand.  [hid], [hkey] and [iv] are fresh, [reply]
    is the relay's answer. *)
Definition appendLog (me : jstr) (r : circle) (b : book) (channel : jstr) (entry : obj)
    (hid hkey : jstr) (iv : bytes) (reply : option num) : res written :=
  let '(r1, minted) := ensureChannelKeys r channel hid hkey in
  let meta := chanMeta_at r1 channel in
  let announced := match minted with Some _ => [Announce meta] | None => [] end in
  let full := obj_spread [(js "sender", VStr me)] entry in
  let '(b1, echoed) := add_local b (c_id r) (VStr channel) (VObj full) in
  let* _ := echoed in
  let* ts := to_number (VObj full).["ts"] in
  let tsSecs := nfloor (ndiv ts (int 1000)) in
  match (let* payload := seal_for meta (c_id r) full iv in
         let* expires_at := expiry meta tsSecs in
         Ok (Append meta.["hid"] tsSecs expires_at payload)) with
  | Throw _ => Ok {| wr_record := r1; wr_book := b1; wr_requests := announced; wr_seq := None |}
  | Ok append => Ok {| wr_record := r1; wr_book := b1; wr_requests := announced ++ [append]; wr_seq := reply |}
  end.

(** [deliverChat] up to its log entry, without a quote. *)
Definition chat_entry (text : jstr) (ts : num) : obj :=
  [(js "k", VStr (js "chat")); (js "ts", VNum ts); (js "text", VStr text)].

(** [deleteMessage]: the tombstone, then the redaction. *)
Definition deleteMessage (me : jstr) (r : circle) (b : book) (channel : jstr) (m : line) (at_ : num)
    (hid hkey : jstr) (iv : bytes) (reply : option num) : res (option written) :=
  if negb (str_eqb (ln_sender m) me) then Ok None else
  let* w := appendLog me r b channel
    [(js "k", VStr (js "del")); (js "ts", VNum at_); (js "to", jobj [("ts"%string, VNum (ln_ts m))])] hid hkey iv reply in
  let hid' := (chanMeta_at (wr_record w) channel).["hid"] in
  let redaction := match finite_seq (ln_seq m) with
                   | Some s => if truthy hid' then [Redact hid' s] else []
                   | None => []
                   end in
  Ok (Some {| wr_record := wr_record w; wr_book := wr_book w; wr_requests := wr_requests w ++ redaction;
              wr_seq := wr_seq w |}).

(** ** Reading *)

(** One entry of a [history] reply. *)
Record parked_entry := { pe_seq : num; pe_payload : val }.

(** The first key that opens it; [null] when none does. *)
Fixpoint try_keys (keys : list val) (payload : val) : val :=
  match keys with
  | [] => VNull
  | k :: rest => match openLogEntry k payload with Ok entry => entry | Throw _ => try_keys rest payload end
  end.

Definition open_entries (keys : list val) (entries : list parked_entry) : list (num * val) :=
  filter (fun se => truthy se.2 = true) ((fun e => (pe_seq e, try_keys keys (pe_payload e))) <$> entries).

Definition openPage (r : circle) (directory : option obj) (channel : jstr) (entries : list parked_entry)
    (hid : option val) : res (list item) :=
  let meta := chanMeta_at r channel in
  if negb (truthy meta.["hid"]) then Ok [] else
  let* keys := channelKeys meta in
  let opened := open_entries keys entries in
  let* log_id := to_string (default meta.["hid"] hid) in
  let* auths := verifyEntries (c_id r) log_id opened.*2 (VObj (keyDirectory directory)) in
  Ok (zip_with (fun se a => {| it_seq := Some se.1; it_entry := se.2; it_auth := a; it_local := false |}) opened auths).

(** A page: its entries, and whether it reached the log's start. *)
Notation page := (option (list parked_entry * bool)).

(** [fetchPage], given the reply; [paging] when it asked for what is before a
    point. *)
Definition fetchPage (r : circle) (directory : option obj) (b : book) (channel : jstr) (paging : bool)
    (reply : page) : book * res (nat * bool) :=
  let meta := chanMeta_at r channel in
  if keyless meta then (b, Ok (0%nat, true)) else
  let '(b1, s) := channelLog b (c_id r) channel in
  match reply with
  | None => (b1, Ok (0%nat, false))
  | Some (entries, complete) =>
      match openPage r directory channel entries None with
      | Throw e => (b1, Throw e)
      | Ok opened =>
          match addEntries (sl_log s) opened (c_id r) (VStr channel) with
          | (log, Throw e) => (write_log b1 (logKey (c_id r) channel) log, Throw e)
          | (log, Ok added) =>
              let log' := if paging && complete
                then {| base := base log; mutations := mutations log; oldest := oldest log;
                        Log.complete := true; newest := newest log; localSeq := localSeq log |}
                else log in
              (write_log b1 (logKey (c_id r) channel) log', Ok (added, complete))
          end
      end
  end.

(** What the next request of a room asks for. *)
Definition MAX_SAFE_INTEGER : num := int (2 ^ 53 - 1).
Definition older_before (log : channel_log) : num := default MAX_SAFE_INTEGER (oldest log).

Definition loadOlderMessages (r : circle) (directory : option obj) (b : book) (channel : jstr) (reply : page)
  : book * res bool :=
  let '(b1, s) := channelLog b (c_id r) channel in
  if complete (sl_log s) then (b1, Ok false) else
  match fetchPage r directory b1 channel true reply with
  | (b2, Throw e) => (b2, Throw e)
  | (b2, Ok (_, complete)) => (b2, Ok (negb complete))
  end.

Definition hasOlderMessages (b : book) (serverId channel : jstr) : bool :=
  match obj_get b (logKey serverId channel) with
  | Some s => sl_loaded s && negb (complete (sl_log s))
  | None => false
  end.

(** One room of [catchUpLogs]: only rooms that were opened, one page of what
    came after the newest entry. *)
Definition catchUpRoom (r : circle) (directory : option obj) (b : book) (channel : jstr) (reply : page)
  : book * res nat :=
  match obj_get b (logKey (c_id r) channel) with
  | Some s =>
      if negb (sl_loaded s) then (b, Ok 0%nat) else
      match fetchPage r directory b channel false reply with
      | (b', Ok (added, _)) => (b', Ok added)
      | (b', Throw e) => (b', Throw e)
      end
  | None => (b, Ok 0%nat)
  end.

(** [catchUpLogs]: room after room; an exception ends it. *)
Fixpoint catchUpLogs (r : circle) (directory : option obj) (b : book) (channels : list val) (replies : jstr -> page)
  : book * res nat :=
  match channels with
  | [] => (b, Ok 0%nat)
  | c :: rest =>
      match to_string c with
      | Throw e => (b, Throw e)
      | Ok channel =>
          match catchUpRoom r directory b channel (replies channel) with
          | (b', Throw e) => (b', Throw e)
          | (b', Ok n) =>
              let '(b'', o) := catchUpLogs r directory b' rest replies in (b'', let* m := o in Ok (n + m)%nat)
          end
      end
  end.

Definition applyRetention (r : circle) (b : book) (channel : jstr) (now : num) : book * res nat :=
  let retention := (chanMeta_at r channel).["retention"] in
  if negb (truthy retention) then (b, Ok 0%nat) else
  match obj_get b (logKey (c_id r) channel) with
  | None => (b, Ok 0%nat)
  | Some s =>
      match to_number retention with
      | Throw e => (b, Throw e)
      | Ok secs =>
          let '(log, n) := pruneLog (sl_log s) (nsub now (nmul secs (int 1000))) in
          (write_log b (logKey (c_id r) channel) log, n)
      end
  end.

(** One alternate log, page after page until one is empty or twenty were
    read; a page that fails ends it.  Its entries move no cursor. *)
Fixpoint drain (r : circle) (directory : option obj) (channel : jstr) (hid : val) (log : channel_log)
    (pages : list (option (list parked_entry))) (fuel : nat) : channel_log * res unit :=
  match fuel, pages with
  | S fuel, Some ((_ :: _) as entries) :: rest =>
      match openPage r directory channel entries (Some hid) with
      | Throw e => (log, Throw e)
      | Ok opened =>
          let bare := (fun it => {| it_seq := None; it_entry := it_entry it; it_auth := it_auth it; it_local := it_local it |})
                      <$> opened in
          match addEntries log bare (c_id r) (VStr channel) with
          | (log', Throw e) => (log', Throw e)
          | (log', Ok _) => drain r directory channel hid log' rest fuel
          end
      end
  | _, _ => (log, Ok tt)
  end.

Definition ALT_PAGES : nat := 20.

(** [drainAlternateLogs]: [answers hid] are the relay's pages of that log. *)
Fixpoint drain_alts (r : circle) (directory : option obj) (channel : jstr) (alts : list val) (log : channel_log)
    (answers : val -> list (option (list parked_entry))) : channel_log * res unit :=
  match alts with
  | [] => (log, Ok tt)
  | alt :: rest =>
      if negb (truthy alt.["hid"]) then drain_alts r directory channel rest log answers else
      match drain r directory channel alt.["hid"] log (answers alt.["hid"]) ALT_PAGES with
      | (log', Throw e) => (log', Throw e)
      | (log', Ok _) => drain_alts r directory channel rest log' answers
      end
  end.

Definition drainAlternateLogs (r : circle) (directory : option obj) (b : book) (channel : jstr)
    (answers : val -> list (option (list parked_entry))) : book * res unit :=
  match iterate ((chanMeta_at r channel).["alts"] ⁇ VArr []) with
  | Throw e => (b, Throw e)
  | Ok [] => (b, Ok tt)
  | Ok alts =>
      let '(b1, s) := channelLog b (c_id r) channel in
      let '(log, o) := drain_alts r directory channel alts (sl_log s) answers in
      (write_log b1 (logKey (c_id r) channel) log, o)
  end.

Definition set_loaded (b : book) (key : jstr) : book :=
  match obj_get b key with Some s => map_set b key {| sl_log := sl_log s; sl_loaded := true |} | None => b end.

(** [loadMessages]: the newest page the first time, retention, then the fold. *)
Definition loadMessages (r : circle) (directory : option obj) (b : book) (channel : jstr) (reply : page)
    (answers : val -> list (option (list parked_entry))) (now : num) : book * res (list line) :=
  let key := logKey (c_id r) channel in
  let '(b1, s) := channelLog b (c_id r) channel in
  let '(b2, fetched) :=
    if sl_loaded s then (b1, Ok tt) else
    match fetchPage r directory (set_loaded b1 key) channel true reply with
    | (b', Throw e) => (b', Throw e)
    | (b', Ok _) => ((drainAlternateLogs r directory b' channel answers).1, Ok tt)
    end in
  match fetched with
  | Throw e => (b2, Throw e)
  | Ok _ =>
      match applyRetention r b2 channel now with
      | (b3, Throw e) => (b3, Throw e)
      | (b3, Ok _) =>
          (b3, match obj_get b3 key with Some s => renderLog (sl_log s) | None => Ok [] end)
      end
  end.
End logs.
End Logs.

(** ** Theorems *)

Module LogFacts.
Import Logs.

(** *** Rotation *)

Lemma rotated_meta_get meta key old k :
  keyless meta = false ->
  getq (rotated_meta meta key old) k =
    if str_eqb (js "hkeys") (js k) then VArr (meta.["hkey"] :: old)
    else if str_eqb (js "hkey") (js k) then VStr key else getq meta k.
Proof.
  intros Hk. unfold rotated_meta, getq. cbn [prop]. rewrite !obj_get_put.
  destruct (str_eqb (js "hkeys") (js k)); [done|]. destruct (str_eqb (js "hkey") (js k)); [done|].
  unfold keyless in Hk. destruct meta; try done. 
Qed.

Lemma rotate_all_get entries : forall meta_of fresh m rotated ch,
  NoDup entries.*1 -> (length entries <= length fresh)%nat -> rotate_all entries meta_of fresh = (m, Ok rotated) ->
  (forall meta, obj_get entries ch = Some meta -> keyless meta = false ->
     ch ∈ rotated /\ exists key old, key ∈ fresh /\ iterate (meta.["hkeys"] ⁇ VArr []) = Ok old /\
       obj_get m ch = Some (rotated_meta meta key old)) /\
  ((forall meta, obj_get entries ch = Some meta -> keyless meta = true) ->
     obj_get m ch = obj_get meta_of ch /\ ch ∉ rotated).
Proof.
  induction entries as [|[c meta] rest IH]; intros meta_of fresh m rotated ch Hn Hl E; cbn [rotate_all] in E.
  - injection E as <- <-. split; [done|]. intros _. split; [done|apply not_elem_of_nil].
  - cbn [fmap list_fmap fst] in Hn. apply NoDup_cons in Hn as [Hc Hn]. cbn [length] in Hl.
    assert (forall x, obj_get ((c, meta) :: rest) ch = Some x -> obj_get rest ch = Some x \/ (c = ch /\ x = meta)) as Hsplit.
    { intros x. cbn [obj_get]. destruct (str_eqb c ch) eqn:Ec; [|by left]. apply str_eqb_eq in Ec. naive_solver. }
    assert (obj_get rest c = None) as Hrest by (by apply obj_get_None).
    assert (obj_get ((c, meta) :: rest) c = Some meta) as Hhere by (cbn [obj_get]; by rewrite str_eqb_refl).
    destruct (keyless meta) eqn:Ek.
    + assert (length rest <= length fresh)%nat as Hl' by lia.
      destruct (IH meta_of fresh m rotated ch Hn Hl' E) as [H1 H2]. split.
      * intros x [Hx|[_ ->]]%Hsplit; [by apply H1|congruence].
      * intros Hall. apply H2. intros x Hx. apply Hall. cbn [obj_get]. destruct (str_eqb c ch) eqn:Ec; [|done].
        apply str_eqb_eq in Ec as ->. congruence.
    + destruct (iterate _) as [old|] eqn:Eo; [|done].
      destruct (rotate_all rest _ (tail fresh)) as [m1 r1] eqn:E1. injection E as <- E.
      destruct r1 as [l|]; [|done]. cbn [rbind] in E. apply Ok_inj in E as <-.
      destruct fresh as [|key fresh]; [cbn in Hl; lia|]. cbn [head tail from_option id] in E1.
      apply le_S_n in Hl. destruct (IH _ _ _ _ ch Hn Hl E1) as [H1 H2]. split.
      * intros x [Hx|[-> ->]]%Hsplit Hkx.
        -- destruct (H1 x Hx Hkx) as (Hin & key' & old' & Hf & ?). split; [by right|]. exists key', old'. split; [by right|done].
        -- split; [by left|]. exists key, old. split; [by left|]. split; [done|].
           destruct H2 as [-> _]; [congruence|]. by rewrite obj_get_put, str_eqb_refl.
      * intros Hall. destruct (str_eqb c ch) eqn:Ec.
        { apply str_eqb_eq in Ec as ->. rewrite (Hall meta Hhere) in Ek. done. }
        destruct H2 as [H2 H3].
        { intros x Hx. apply Hall. cbn [obj_get]. by rewrite Ec. }
        rewrite H2, obj_get_put, Ec. split; [done|]. apply str_eqb_neq in Ec. rewrite not_elem_of_cons. naive_solver.
Qed.

Lemma chanMeta_at_own r metas ch meta :
  c_chanMeta r = Some metas -> obj_get metas ch = Some meta -> chanMeta_at r ch = meta.
Proof. intros E Em. unfold chanMeta_at. rewrite E. cbn [prop]. by rewrite Em. Qed.

Lemma rotated_keys meta key old ks :
  keyless meta = false -> iterate (meta.["hkeys"] ⁇ VArr []) = Ok old -> channelKeys meta = Ok ks ->
  exists ks', channelKeys (rotated_meta meta key old) = Ok ks' /\ forall k, k ∈ ks -> k ∈ ks'.
Proof.
  intros Hk Ho. unfold channelKeys. rewrite !rotated_meta_get by done.
  replace (str_eqb (js "hkeys") (js "hkeys")) with true by (vm_compute; reflexivity).
  replace (str_eqb (js "hkeys") (js "hkey")) with false by (vm_compute; reflexivity).
  replace (str_eqb (js "hkey") (js "hkey")) with true by (vm_compute; reflexivity).
  replace (str_eqb (js "hkeys") (js "alts")) with false by (vm_compute; reflexivity).
  replace (str_eqb (js "hkey") (js "alts")) with false by (vm_compute; reflexivity).
  rewrite Ho. cbn [rbind coalesce nullish iterate].
  destruct (meta.["alts"] ⁇ VArr []); try done. intros E. apply Ok_inj in E as <-. eexists. split; [reflexivity|].
  intros k. rewrite !list_elem_of_filter, !elem_of_cons, !elem_of_app, !elem_of_cons. tauto.
Qed.

(** What a rotation makes of a channel with a log. *)
Lemma rotated_channel r fresh r' rotated metas ch meta :
  rotateHistoryKeys r fresh = (r', Ok rotated) -> c_chanMeta r = Some metas -> NoDup metas.*1 ->
  (length metas <= length fresh)%nat -> obj_get metas ch = Some meta -> keyless meta = false ->
  ch ∈ rotated /\ exists key old, key ∈ fresh /\ iterate (meta.["hkeys"] ⁇ VArr []) = Ok old /\
    (chanMeta_at r' ch).["hid"] = meta.["hid"] /\ (chanMeta_at r' ch).["hkey"] = VStr key /\
    (chanMeta_at r' ch).["hkeys"] = VArr (meta.["hkey"] :: old).
Proof.
  intros E Er Hn Hl Em Hk. unfold rotateHistoryKeys in E. rewrite Er in E.
  destruct (rotate_all metas metas fresh) as [m rot] eqn:Ea. injection E as <- ->.
  destruct (proj1 (rotate_all_get _ _ _ _ _ ch Hn Hl Ea) meta Em Hk) as (Hin & key & old & Hf & Ho & Hg).
  split; [done|]. exists key, old. rewrite (chanMeta_at_own (set_chanMeta r (Some m)) m ch _ eq_refl Hg).
  rewrite !rotated_meta_get by done. split_and!; try done; vm_compute; reflexivity.
Qed.

(** When a member is removed, every channel that has a log gets a key that
    was just drawn, and every key that opened its entries before is still one
    that is tried: nothing that was said becomes unreadable to those who stay. *)
Theorem rotation_keeps_every_key r fresh r' rotated metas ch meta ks :
  c_chanMeta r = Some metas -> NoDup metas.*1 -> (length metas <= length fresh)%nat ->
  rotateHistoryKeys r fresh = (r', Ok rotated) -> obj_get metas ch = Some meta -> channelKeys meta = Ok ks ->
  (ch ∈ rotated <-> keyless meta = false) /\
  (chanMeta_at r' ch).["hid"] = meta.["hid"] /\
  (ch ∈ rotated -> exists key, key ∈ fresh /\ (chanMeta_at r' ch).["hkey"] = VStr key) /\
  exists ks', channelKeys (chanMeta_at r' ch) = Ok ks' /\ forall k, k ∈ ks -> k ∈ ks'.
Proof.
  intros Er Hn Hl E Em Ek. unfold rotateHistoryKeys in E. rewrite Er in E.
  destruct (rotate_all metas metas fresh) as [m rot] eqn:Ea. injection E as <- ->.
  destruct (rotate_all_get _ _ _ _ _ ch Hn Hl Ea) as [H1 H2].
  destruct (keyless meta) eqn:Ekl.
  - destruct H2 as [Hg Hnot]; [intros x Hx; congruence|]. rewrite Em in Hg.
    rewrite (chanMeta_at_own (set_chanMeta r (Some m)) m ch meta eq_refl Hg). split_and!; [done|done|done|by eauto].
  - destruct (H1 meta Em Ekl) as (Hin & key & old & Hf & Ho & Hg).
    rewrite (chanMeta_at_own (set_chanMeta r (Some m)) m ch _ eq_refl Hg). split_and!; [done| | |by eapply rotated_keys].
    + rewrite rotated_meta_get by done.
      replace (str_eqb (js "hkeys") (js "hid")) with false by (vm_compute; reflexivity).
      by replace (str_eqb (js "hkey") (js "hid")) with false by (vm_compute; reflexivity).
    + intros _. exists key. split; [done|]. rewrite rotated_meta_get by done.
      replace (str_eqb (js "hkeys") (js "hkey")) with false by (vm_compute; reflexivity).
      by replace (str_eqb (js "hkey") (js "hkey")) with true by (vm_compute; reflexivity).
Qed.

(** *** The map of working copies *)

Definition log_of (b : list (jstr * slot)) (key : jstr) : channel_log :=
  match obj_get b key with Some s => sl_log s | None => createChannelLog end.

Lemma channelLog_get b server channel b1 s :
  channelLog b server channel = (b1, s) ->
  obj_get b1 (logKey server channel) = Some s /\ sl_log s = log_of b (logKey server channel).
Proof.
  unfold channelLog, log_of. destruct (obj_get b (logKey server channel)) as [s0|] eqn:E; intros [= <- <-].
  - by rewrite E.
  - by rewrite obj_get_map_set, str_eqb_refl.
Qed.

Lemma write_log_get b key log s :
  obj_get b key = Some s -> obj_get (write_log b key log) key = Some {| sl_log := log; sl_loaded := sl_loaded s |}.
Proof. intros E. unfold write_log. by rewrite E, obj_get_map_set, str_eqb_refl. Qed.

(** *** A line of chat *)

(** The line an entry of chat becomes. *)
Definition said_line (server channel who : jstr) (ts : num) (text : jstr) (au : auth) (seq : option num) (echo : bool) : line :=
  {| ln_server := server; ln_channel := VStr channel; ln_sender := who; ln_ts := ts; ln_body := LText text;
     ln_reply := None; ln_auth := Some au; ln_seq := seq; ln_local := echo; ln_system := false; ln_failed := false; ln_edited := false;
     ln_deleted := false; ln_reacts := None |}.

(** What a reader looks at in an entry of chat. *)
Record says (e : val) (who : jstr) (ts : num) (text : jstr) : Prop := {
  sy_truthy : truthy e = true;
  sy_kind : e.["k"] = VStr (js "chat");
  sy_sender : e.["sender"] = VStr who;
  sy_ts : e.["ts"] = VNum ts;
  sy_text : e.["text"] = VStr text;
  sy_file : e.["file"] = VUndef;
  sy_game : e.["game"] = VUndef;
  sy_reply : e.["reply"] = VUndef;
}.

#[local] Opaque getq.

Lemma says_message e who ts text server channel au seq :
  says e who ts text -> who <> [] -> ntruthy ts = true ->
  entryToMessage e server (VStr channel) au seq = Ok (Some (said_line server channel who ts text au seq false)).
Proof.
  intros [Ht Hk Hs Hts Htx Hf Hg Hr] Hw Hn. unfold entryToMessage. rewrite Hs, Hts, Htx, Hf, Hg, Hr.
  cbn [text_of coalesce nullish to_string rbind to_number truthy].
  rewrite Hn. rewrite (proj2 (is_empty_false who) Hw). reflexivity.
Qed.

(** Folding it in puts the line where no relay copy stands. *)
Lemma says_added log server channel e who ts text au seq echo :
  says e who ts text -> who <> [] -> ntruthy ts = true -> au <> forged ->
  (forall m, obj_get (base log) (messageId who ts) = Some m -> echo = false /\ ln_local m = true) ->
  exists log', addEntries log [{| it_seq := seq; it_entry := e; it_auth := au; it_local := echo |}] server (VStr channel)
    = (log', Ok 1%nat) /\
  obj_get (base log') (messageId who ts) = Some (said_line server channel who ts text au seq echo).
Proof.
  intros Hs Hw Hn Ha Hb. cbn [addEntries]. unfold add_entry. cbn [it_entry it_auth it_seq it_local].
  rewrite (sy_truthy _ _ _ _ Hs), (sy_kind _ _ _ _ Hs), bool_decide_false by done. cbn [negb orb coalesce nullish].
  replace (includes CONTENT_KINDS (VStr (js "chat"))) with true by (vm_compute; reflexivity).
  unfold add_content. cbn [it_entry it_auth it_seq it_local]. rewrite (says_message _ _ _ _ _ _ _ _ Hs Hw Hn).
  assert (base (move_cursors log seq) = base log) as Hmc by (unfold move_cursors; by case_match).
  set (m := if echo then _ else _).
  assert (m = said_line server channel who ts text au seq echo) as -> by (by destruct echo).
  cbn [ln_sender ln_ts said_line]. rewrite Hmc.
  assert ((match obj_get (base log) (messageId who ts) with None => true | Some prior => ln_local prior && negb echo end) = true) as ->.
  { destruct (obj_get _ _) as [x|]; [|done]. by destruct (Hb x eq_refl) as [-> ->]. }
  eexists. split; [reflexivity|]. cbn [base set_base]. by rewrite obj_get_map_set, str_eqb_refl.
Qed.

(** *** From one member to another *)

Section delivery.
Context `{WebLaws}.

(** The entry [deliverChat] writes, with its author. *)
Definition chat_full (me text : jstr) (ts : num) : obj :=
  [(js "sender", VStr me); (js "k", VStr (js "chat")); (js "ts", VNum ts); (js "text", VStr text)].

Lemma chat_full_spread me text ts : obj_spread [(js "sender", VStr me)] (chat_entry text ts) = chat_full me text ts.
Proof. vm_compute. reflexivity. Qed.

Lemma chat_full_jsonable me text n :
  Forall unit16 me -> Forall unit16 text -> safe n -> jsonable (VObj (chat_full me text (int n))).
Proof.
  intros Hm Ht Hn. apply jsonable_obj. split; [apply (bool_decide_unpack _); vm_compute; done|].
  unfold chat_full. rewrite !Forall_cons, Forall_nil. cbn [fst snd jsonable].
  split_and!; try done; try (apply (bool_decide_unpack _); vm_compute; done); eauto.
  all: repeat constructor.
Qed.

Lemma chat_full_says me text ts : says (VObj (chat_full me text ts)) me ts text.
Proof. split; try reflexivity; vm_compute; reflexivity. Qed.

Lemma chat_opened_says me text n group hid :
  Forall unit16 me -> Forall unit16 text -> safe n ->
  says (rebuild (VObj (sealed_entry group hid (chat_full me text (int n))))) me (int n) text.
Proof.
  intros Hm Ht Hn. pose proof (chat_full_jsonable me text n Hm Ht Hn) as Hj.
  assert (forall k, js "sig" <> js k -> js "v" <> js k -> obj_get (chat_full me text (int n)) (js k) = None ->
    proto_method [] (js k) = VUndef ->
    getq (rebuild (VObj (sealed_entry group hid (chat_full me text (int n))))) k = VUndef) as Habs.
  { intros k H1 H2 H3 <-. by apply opened_absent. }
  assert (forall k v, js "sig" <> js k -> obj_get (chat_full me text (int n)) (js k) = Some v -> rebuild v = v ->
    getq (rebuild (VObj (sealed_entry group hid (chat_full me text (int n))))) k = v) as Hval.
  { intros k v H1 H2 H3. etransitivity; [by apply opened_value|done]. }
  split; [by rewrite rebuild_obj|apply Hval|apply Hval|apply Hval|apply Hval|apply Habs|apply Habs|apply Habs];
    try (apply str_eqb_neq; vm_compute; reflexivity); vm_compute; reflexivity.
Qed.

Lemma try_keys_finds ks right_ payload e :
  right_ ∈ ks -> openLogEntry right_ payload = Ok e ->
  (forall k, k ∈ ks -> k = right_ \/ exists x, openLogEntry k payload = Throw x) -> try_keys ks payload = e.
Proof.
  intros Hin Ho Hall. induction ks as [|k ks IH]; [by apply elem_of_nil in Hin|]. cbn [try_keys].
  destruct (Hall k) as [->|[x Ex]]; [by left|by rewrite Ho|]. rewrite Ex.
  apply elem_of_cons in Hin as [->|Hin]; [congruence|]. apply IH; [done|]. intros k' Hk'. apply Hall. by right.
Qed.

(** The text is sealed under the channel's key; the echo never stops it. *)
Lemma chat_appended me r b channel text n hid hkey iv reply hk h :
  me <> [] -> Forall unit16 me -> Forall unit16 text -> 0 < n -> safe n ->
  (chanMeta_at r channel).["hid"] = VStr h -> h <> [] ->
  (chanMeta_at r channel).["hkey"] = VStr (b64_enc hk) -> hk <> [] -> Forall byte hk ->
  (chanMeta_at r channel).["retention"] = VUndef \/ (exists s, (chanMeta_at r channel).["retention"] = VNum s) ->
  length iv = 12%nat -> Forall byte iv ->
  exists w secs ex payload,
    appendLog me r b channel (chat_entry text (int n)) hid hkey iv reply = Ok w /\
    wr_requests w = [Append (VStr h) secs ex payload] /\
    openLogEntry (VStr (b64_enc hk)) (VStr payload)
      = Ok (rebuild (VObj (sealed_entry (c_id r) h (chat_full me text (int n))))).
Proof.
  intros Hme Um Ut Hn Sn Eh Hh Ek Hk Bk Hret Li Bi. unfold appendLog, ensureChannelKeys.
  rewrite Eh, Ek. assert (truthy (VStr h) && truthy (VStr (b64_enc hk)) = true) as ->.
  { rewrite b64_enc_nonempty by done. cbn. by rewrite bool_decide_false by done. }
  rewrite chat_full_spread. unfold add_local. cbn [to_string]. destruct (channelLog _ _ _) as [b1 s] eqn:Ec.
  assert (exists log k, addLocalEntry (sl_log s) (VObj (chat_full me text (int n))) (c_id r) (VStr channel) = (log, Ok k))
    as (log & k & Ea).
  { unfold addLocalEntry. cbn [addEntries]. unfold add_entry. cbn [it_entry it_auth it_seq it_local].
    pose proof (chat_full_says me text (int n)) as Hs. rewrite (sy_kind _ _ _ _ Hs). cbn [truthy negb orb coalesce nullish].
    rewrite bool_decide_false by done.
    replace (includes CONTENT_KINDS (VStr (js "chat"))) with true by (vm_compute; reflexivity).
    unfold add_content. cbn [it_entry it_auth it_seq it_local].
    rewrite (says_message _ _ _ _ _ _ _ _ Hs Hme) by (by destruct n).
    match goal with |- context [if ?c then (set_base _ _, _) else _] => destruct c end; by eexists _, _. }
  rewrite Ea. cbn [rbind]. rewrite (sy_ts _ _ _ _ (chat_full_says me text (int n))). cbn [to_number rbind].
  destruct (open_seal hk (c_id r) h _ iv (chat_full_jsonable me text n Um Ut Sn) Bk Li Bi) as (payload & Es & Eo).
  unfold seal_for. rewrite Eh, Ek. cbn [to_string rbind]. rewrite Es. cbn [rbind].
  set (secs := nfloor _). assert (exists ex, expiry (chanMeta_at r channel) secs = Ok ex) as [ex Ex].
  { unfold expiry. destruct Hret as [->|[x ->]]; [by eexists|]. case_match; [by eexists|]. by eexists. }
  rewrite Ex. cbn [rbind]. eexists _, secs, ex, payload. split_and!; [reflexivity|reflexivity|exact Eo].
Qed.

(** The verdicts of a page are those of its parts. *)
Lemma verifyEntries_app group hid l1 l2 keys v1 v2 :
  verifyEntries group hid l1 keys = Ok v1 -> verifyEntries group hid l2 keys = Ok v2 ->
  verifyEntries group hid (l1 ++ l2) keys = Ok (v1 ++ v2).
Proof.
  unfold verifyEntries. intros (p1 & E1 & F1)%rbind_Ok (p2 & E2 & F2)%rbind_Ok.
  injection F1 as <-. injection F2 as <-. rewrite !fill_in_order, <- fmap_app, (rmap_app _ _ _ _ _ E1 E2).
  cbn [rbind]. by rewrite fill_in_order.
Qed.

Lemma openPage_app r directory channel es1 es2 its1 its2 :
  openPage r directory channel es1 None = Ok its1 -> openPage r directory channel es2 None = Ok its2 ->
  openPage r directory channel (es1 ++ es2) None = Ok (its1 ++ its2).
Proof.
  unfold openPage. destruct (negb _).
  - intros [= <-] [= <-]. done.
  - intros E1 E2. destruct (channelKeys _) as [ks|]; [|done]. cbn [rbind] in *.
    destruct (to_string _) as [h|]; [|done]. cbn [rbind] in *.
    apply rbind_Ok in E1 as (v1 & V1 & E1), E2 as (v2 & V2 & E2). injection E1 as <-. injection E2 as <-.
    unfold open_entries in *. rewrite fmap_app, filter_app, fmap_app, (verifyEntries_app _ _ _ _ _ _ _ V1 V2).
    cbn [rbind]. f_equal. apply zip_with_app. apply verdicts_match_entries, Forall2_length in V1.
    by rewrite length_fmap in V1.
Qed.

Lemma addEntries_app log its1 its2 server channel log1 k :
  addEntries log its1 server channel = (log1, Ok k) ->
  (addEntries log (its1 ++ its2) server channel).1 = (addEntries log1 its2 server channel).1.
Proof.
  revert log k. induction its1 as [|it its IH]; intros log k E; cbn [addEntries app] in *; [by injection E as -> _|].
  destruct (add_entry log server channel it) as [l1 [n|e]]; [|done].
  destruct (addEntries l1 its server channel) as [l2 [m|e]] eqn:E1; [|done]. injection E as -> <-.
  rewrite <- (IH _ _ E1). by destruct (addEntries l1 (its ++ its2) server channel) as [? []].
Qed.

(** A line the relay gave stays as it is, whatever is read after it, also when
    reading throws. *)
Lemma add_entry_stays log server channel it id m :
  obj_get (base log) id = Some m -> ln_local m = false ->
  obj_get (base (add_entry log server channel it).1) id = Some m.
Proof.
  intros E Hl. assert (base (move_cursors log (it_seq it)) = base log) as Hmc by (unfold move_cursors; by case_match).
  unfold add_entry. destruct (_ || _); [done|]. destruct (includes CONTENT_KINDS _).
  - unfold add_content. destruct (entryToMessage _ _ _ _ _) as [[m0|]|]; cbn [fst]; [|by rewrite Hmc|by rewrite Hmc].
    set (m1 := if it_local it then _ else _). set (i := messageId _ _). rewrite Hmc. destruct (str_eqb i id) eqn:Ei.
    + apply str_eqb_eq in Ei. subst i. rewrite Ei, E, Hl. cbn. by rewrite Hmc.
    + match goal with |- context [if ?c then (set_base _ _, _) else _] => destruct c end; cbn [fst base set_base];
        [by rewrite obj_get_map_set, Ei|by rewrite Hmc].
  - destruct (includes MUTATION_KINDS _); cbn [fst]; rewrite ?Hmc; [|done]. unfold add_mutation.
    repeat case_match; cbn; by rewrite Hmc.
Qed.

Lemma addEntries_stays its server channel id m : forall log,
  obj_get (base log) id = Some m -> ln_local m = false ->
  obj_get (base (addEntries log its server channel).1) id = Some m.
Proof.
  induction its as [|it its IH]; intros log E Hl; cbn [addEntries]; [done|].
  pose proof (add_entry_stays log server channel it id m E Hl) as E1.
  destruct (add_entry log server channel it) as [l1 [n|e]]; [|done]. cbn [fst] in E1.
  pose proof (IH l1 E1 Hl) as E2. by destruct (addEntries l1 its server channel) as [? []].
Qed.

(** One readable entry of chat in a page, on a reader's side. *)
Lemma chat_fetched r directory b channel paging complete seq payload ks right_ e who ts text h
    before after its0 its1 log0 k0 :
  (chanMeta_at r channel).["hid"] = VStr h -> h <> [] -> truthy (chanMeta_at r channel).["hkey"] = true ->
  channelKeys (chanMeta_at r channel) = Ok ks -> right_ ∈ ks -> openLogEntry right_ payload = Ok e ->
  (forall k, k ∈ ks -> k = right_ \/ exists x, openLogEntry k payload = Throw x) ->
  says e who ts text -> who <> [] -> ntruthy ts = true ->
  verifyEntries (c_id r) h [e] (VObj (keyDirectory directory)) = Ok [signed] ->
  openPage r directory channel before None = Ok its0 -> openPage r directory channel after None = Ok its1 ->
  addEntries (log_of b (logKey (c_id r) channel)) its0 (c_id r) (VStr channel) = (log0, Ok k0) ->
  (forall m, obj_get (base log0) (messageId who ts) = Some m -> ln_local m = true) ->
  exists b' s,
    (fetchPage r directory b channel paging
       (Some (before ++ {| pe_seq := seq; pe_payload := payload |} :: after, complete))).1 = b' /\
    obj_get b' (logKey (c_id r) channel) = Some s /\
    obj_get (base (sl_log s)) (messageId who ts)
      = Some (said_line (c_id r) channel who ts text signed (Some seq) false).
Proof.
  intros Eh Hh Ek Eks Hin Ho Hall Hs Hw Hn Hv Hb Ha Hlog Hprior. unfold fetchPage.
  assert (truthy (VStr h) = true) as Et by (cbn; by rewrite bool_decide_false by done).
  unfold keyless. rewrite Eh, Et, Ek. cbn [negb orb]. destruct (channelLog _ _ _) as [b1 s] eqn:Ec.
  apply channelLog_get in Ec as [Es El].
  set (it := {| it_seq := Some seq; it_entry := e; it_auth := signed; it_local := false |}).
  assert (openPage r directory channel [{| pe_seq := seq; pe_payload := payload |}] None = Ok [it]) as Hit.
  { unfold openPage. rewrite Eh, Et, Eks. cbn [negb rbind]. unfold open_entries. cbn [fmap list_fmap pe_seq pe_payload].
    rewrite (try_keys_finds _ _ _ _ Hin Ho Hall), filter_cons. cbn [snd]. rewrite decide_True by apply (sy_truthy _ _ _ _ Hs).
    cbn [from_option id to_string rbind fmap list_fmap filter snd list_filter]. by rewrite Hv. }
  rewrite (openPage_app r directory channel before (_ :: after) its0 (it :: its1) Hb
    (openPage_app r directory channel [_] after [it] its1 Hit Ha)).
  destruct (says_added log0 (c_id r) channel e who ts text signed (Some seq) false Hs Hw Hn) as (log1 & Ea & Eb); [done|by auto|].
  assert (obj_get (base (addEntries (sl_log s) (its0 ++ it :: its1) (c_id r) (VStr channel)).1) (messageId who ts)
    = Some (said_line (c_id r) channel who ts text signed (Some seq) false)) as Hfin.
  { rewrite El, (addEntries_app _ _ (it :: its1) _ _ _ _ Hlog).
    pose proof (addEntries_app log0 [it] its1 _ _ _ _ Ea) as E1. cbn [app] in E1. rewrite E1. by apply addEntries_stays. }
  destruct (addEntries (sl_log s) (its0 ++ it :: its1) (c_id r) (VStr channel)) as [log2 [k|x]]; cbn [fst] in *;
    eexists _, _; (split; [reflexivity|]); (split; [by apply write_log_get|]); cbn [sl_log]; [|done].
  by destruct (paging && complete).
Qed.

(** C2: what a member writes in a room, every other member reads: the entry
    the author's device sends to the relay, when it comes back anywhere in a
    page, becomes the author's line with the text and the time it was sent with
    and a verified signature, for any reader who has the room's key among the
    keys it tries and the author's key in its directory, whatever echo of the
    line it already shows.  The page may hold any other entries as long as the
    verdicts on them can be computed, those before the line fold without an
    exception and none of them already stands under the line's author and time;
    what comes after may also throw. *)
Theorem written_line_is_read me r b channel text n hid hkey iv reply hk h :
  me <> [] -> Forall unit16 me -> Forall unit16 text -> 0 < n -> safe n ->
  (chanMeta_at r channel).["hid"] = VStr h -> h <> [] ->
  (chanMeta_at r channel).["hkey"] = VStr (b64_enc hk) -> hk <> [] -> Forall byte hk ->
  (chanMeta_at r channel).["retention"] = VUndef \/ (exists s, (chanMeta_at r channel).["retention"] = VNum s) ->
  length iv = 12%nat -> Forall byte iv ->
  exists w secs ex payload,
    appendLog me r b channel (chat_entry text (int n)) hid hkey iv reply = Ok w /\
    wr_requests w = [Append (VStr h) secs ex payload] /\
    forall r2 dir pub b2 seq paging complete ks before after its0 its1 log0 k0,
      c_id r2 = c_id r -> (chanMeta_at r2 channel).["hid"] = VStr h -> truthy (chanMeta_at r2 channel).["hkey"] = true ->
      channelKeys (chanMeta_at r2 channel) = Ok ks -> VStr (b64_enc hk) ∈ ks ->
      (forall k, k ∈ ks -> k = VStr (b64_enc hk) \/ exists x, openLogEntry k (VStr payload) = Throw x) ->
      obj_get dir me = Some (VStr (b64_enc pub)) -> Forall byte pub -> pub <> [] -> (forall m, verify pub m (sign m) = true) ->
      openPage r2 (Some dir) channel before None = Ok its0 -> openPage r2 (Some dir) channel after None = Ok its1 ->
      addEntries (log_of b2 (logKey (c_id r) channel)) its0 (c_id r) (VStr channel) = (log0, Ok k0) ->
      (forall m, obj_get (base log0) (messageId me (int n)) = Some m -> ln_local m = true) ->
      exists b3 s,
        (fetchPage r2 (Some dir) b2 channel paging
          (Some (before ++ {| pe_seq := seq; pe_payload := VStr payload |} :: after, complete))).1 = b3 /\
        obj_get b3 (logKey (c_id r) channel) = Some s /\
        obj_get (base (sl_log s)) (messageId me (int n))
          = Some (said_line (c_id r) channel me (int n) text signed (Some seq) false).
Proof.
  intros Hme Um Ut Hn Sn Eh Hh Ek Hk Bk Hret Li Bi.
  destruct (chat_appended me r b channel text n hid hkey iv reply hk h) as (w & secs & ex & payload & Ew & Er & Eo); try done.
  exists w, secs, ex, payload. split; [done|]. split; [done|].
  intros r2 dir pub b2 seq paging complete ks before after its0 its1 log0 k0 Ei Eh2 Ek2 Eks Hin Hall Hd Bp Hp Hv Hbe Haf Hlog Hprior.
  rewrite <- Ei in Hlog, Eo |- *.
  pose proof (chat_opened_says me text n (c_id r2) h Um Ut Sn) as Hs.
  eapply chat_fetched; try done; [by destruct n|].
  eapply opened_signed; [by apply chat_full_jsonable|vm_compute; reflexivity|done..].
Qed.

(** *** What a write leaves behind *)

Lemma appendLog_inv me r b channel entry hid hkey iv reply w :
  appendLog me r b channel entry hid hkey iv reply = Ok w ->
  wr_book w = (add_local b (c_id r) (VStr channel) (VObj (obj_spread [(js "sender", VStr me)] entry))).1 /\
  forall h q, Redact h q ∉ wr_requests w.
Proof.
  unfold appendLog. destruct (ensureChannelKeys _ _ _ _) as [r1 minted], (add_local _ _ _ _) as [b1 [k|]]; [|done].
  cbn [rbind]. intros E. apply rbind_Ok in E as (ts & _ & E).
  assert (forall h q, Redact h q ∉ match minted with Some _ => [Announce (chanMeta_at r1 channel)] | None => [] end) as Hm.
  { intros h q. destruct minted; rewrite ?list_elem_of_singleton; [done|apply not_elem_of_nil]. }
  destruct (let* payload := _ in _) as [a|] eqn:Ea; apply Ok_inj in E as <-; cbn [wr_book wr_requests fst].
  - split; [done|]. intros h q. rewrite elem_of_app, list_elem_of_singleton. intros [Hin|<-]; [by eapply Hm|].
    apply rbind_Ok in Ea as (? & _ & Ea). apply rbind_Ok in Ea as (? & _ & Ea). by apply Ok_inj in Ea.
  - done.
Qed.

(** The copy the author sees at once. *)
Lemma chat_echoed b server channel me text ts :
  me <> [] -> ntruthy ts = true -> obj_get (base (log_of b (logKey server channel))) (messageId me ts) = None ->
  exists b1 s, add_local b server (VStr channel) (VObj (chat_full me text ts)) = (b1, Ok 1%nat) /\
    obj_get b1 (logKey server channel) = Some s /\
    obj_get (base (sl_log s)) (messageId me ts) = Some (said_line server channel me ts text signed None true).
Proof.
  intros Hme Hn Hb. unfold add_local. cbn [to_string]. destruct (channelLog _ _ _) as [b1 s] eqn:Ec.
  apply channelLog_get in Ec as [Es El]. unfold addLocalEntry.
  destruct (says_added (sl_log s) server channel _ me ts text signed None true (chat_full_says me text ts) Hme Hn)
    as (log' & -> & Eb); [done|by rewrite El, Hb|].
  eexists _, _. split; [reflexivity|]. split; [by apply write_log_get|]. exact Eb.
Qed.

(** A line its author deletes before the room is read again is never
    redacted at the relay: the line on screen is the echo, which has no
    sequence number, although the relay answered the write with one; only the
    tombstone is written, and the original stays in the log for whoever gets
    the room's key. *)
Theorem fresh_line_is_never_redacted me r b channel text n hid hkey iv seq hk h :
  me <> [] -> Forall unit16 me -> Forall unit16 text -> 0 < n -> safe n ->
  (chanMeta_at r channel).["hid"] = VStr h -> h <> [] ->
  (chanMeta_at r channel).["hkey"] = VStr (b64_enc hk) -> hk <> [] -> Forall byte hk ->
  (chanMeta_at r channel).["retention"] = VUndef \/ (exists s, (chanMeta_at r channel).["retention"] = VNum s) ->
  length iv = 12%nat -> Forall byte iv ->
  obj_get (base (log_of b (logKey (c_id r) channel))) (messageId me (int n)) = None ->
  exists w s m,
    appendLog me r b channel (chat_entry text (int n)) hid hkey iv (Some seq) = Ok w /\
    obj_get (wr_book w) (logKey (c_id r) channel) = Some s /\
    obj_get (base (sl_log s)) (messageId me (int n)) = Some m /\
    forall at_ hid' hkey' iv' reply' w',
      deleteMessage me (wr_record w) (wr_book w) channel m at_ hid' hkey' iv' reply' = Ok (Some w') ->
      forall h' q, Redact h' q ∉ wr_requests w'.
Proof.
  intros Hme Um Ut Hn Sn Eh Hh Ek Hk Bk Hret Li Bi Hb.
  destruct (chat_appended me r b channel text n hid hkey iv (Some seq) hk h) as (w & secs & ex & payload & Ew & Er & _); try done.
  destruct (chat_echoed b (c_id r) channel me text (int n) Hme) as (b1 & s & Ea & Es & Em); [by destruct n|done|].
  pose proof (appendLog_inv _ _ _ _ _ _ _ _ _ _ Ew) as [Eb _]. rewrite chat_full_spread, Ea in Eb. cbn [fst] in Eb.
  eexists w, s, _. rewrite Eb. split_and!; [done|done|exact Em|].
  intros at_ hid' hkey' iv' reply' w' Ed h' q. unfold deleteMessage in Ed. destruct (negb _); [done|].
  apply rbind_Ok in Ed as (w2 & Ew2 & Ed). cbn [ln_seq said_line finite_seq] in Ed.
  apply Ok_inj in Ed. injection Ed as <-. cbn [wr_requests]. rewrite app_nil_r. by eapply appendLog_inv.
Qed.

(** *** Pages *)

Lemma map_set_length {A} (m : list (jstr * A)) k v : (length (map_set m k v) <= S (length m))%nat.
Proof.
  unfold map_set. destruct (obj_get m k); [|rewrite length_app; cbn; lia].
  rewrite <- (length_fmap fst (obj_update _ _ _)). fold (obj_keys (obj_update m k v)). rewrite obj_keys_update.
  unfold obj_keys. rewrite length_fmap. lia.
Qed.

Lemma add_entry_length log server channel it :
  (length (base (add_entry log server channel it).1) <= S (length (base log)))%nat.
Proof.
  assert (base (move_cursors log (it_seq it)) = base log) as Hmc by (unfold move_cursors; by case_match).
  unfold add_entry. case_match; [cbn; lia|]. case_match; [|case_match; [|cbn [fst]; rewrite Hmc; lia]].
  - unfold add_content. rewrite Hmc. case_match; [|cbn [fst]; rewrite Hmc; lia].
    case_match; [|cbn [fst]; rewrite Hmc; lia].
    match goal with |- context [if ?c then (set_base _ _, _) else _] => destruct c end; cbn [fst base set_base];
      [apply map_set_length|rewrite Hmc; lia].
  - unfold add_mutation. repeat (case_match; cbn [fst base set_mutations]); rewrite ?Hmc; lia.
Qed.

Lemma addEntries_length server channel its : forall log,
  (length (base (addEntries log its server channel).1) <= length (base log) + length its)%nat.
Proof.
  induction its as [|it its IH]; intros log; cbn [addEntries fst length]; [lia|].
  pose proof (add_entry_length log server channel it) as H1. destruct (add_entry _ _ _ _) as [log1 [k|]]; cbn [fst] in *; [|lia].
  specialize (IH log1). destruct (addEntries _ _ _ _) as [log2 [m|]]; cbn [fst] in *; lia.
Qed.

Lemma openPage_length r directory channel entries hid its :
  openPage r directory channel entries hid = Ok its -> (length its <= length entries)%nat.
Proof.
  unfold openPage. case_match; [intros E; apply Ok_inj in E as <-; cbn; lia|]. intros E.
  apply rbind_Ok in E as (ks & _ & E). apply rbind_Ok in E as (lid & _ & E). apply rbind_Ok in E as (au & _ & E).
  apply Ok_inj in E as <-. rewrite length_zip_with.
  assert (length (open_entries ks entries) <= length entries)%nat; [|lia].
  unfold open_entries. etransitivity; [apply length_filter|]. by rewrite length_fmap.
Qed.

(** Catching up after being away reads one page of a room, the oldest
    [HISTORY_PAGE] entries of what was missed: if more came, the later ones
    stay unread until the next connection, although the cursor and the live
    stream have moved on. *)
Theorem catch_up_reads_one_page r directory b channel entries complete :
  (length entries <= HISTORY_PAGE)%nat ->
  (length (base (log_of (catchUpRoom r directory b channel (Some (entries, complete))).1 (logKey (c_id r) channel)))
    <= length (base (log_of b (logKey (c_id r) channel))) + HISTORY_PAGE)%nat.
Proof.
  intros Hl. unfold catchUpRoom. destruct (obj_get b _) as [s|] eqn:Eb; [|cbn [fst]; lia].
  destruct (negb (sl_loaded s)); [cbn [fst]; lia|].
  set (k := logKey (c_id r) channel) in *.
  assert (length (base (log_of (fetchPage r directory b channel false (Some (entries, complete))).1 k))
    <= length (base (log_of b k)) + HISTORY_PAGE)%nat as Hf.
  { unfold fetchPage. case_match; [cbn [fst]; lia|]. destruct (channelLog b (c_id r) channel) as [b1 s1] eqn:Ec.
    apply channelLog_get in Ec as [Es El]. fold k in Es, El.
    assert (log_of b1 k = log_of b k) as E1 by (unfold log_of at 1; by rewrite Es).
    destruct (openPage _ _ _ _ _) as [its|] eqn:Eo; [|cbn [fst]; rewrite E1; lia]. apply openPage_length in Eo.
    pose proof (addEntries_length (c_id r) (VStr channel) its (sl_log s1)) as Ha.
    destruct (addEntries _ _ _ _) as [log [m|]]; cbn [fst andb] in *;
      unfold log_of at 1; rewrite (write_log_get _ _ _ _ Es); cbn [sl_log]; rewrite <- El; lia. }
  destruct (fetchPage _ _ _ _ _ _) as [b' [[m c]|]]; exact Hf.
Qed.

(** A page none of whose entries opens moves nothing: paging back asks for
    the same page again and catching up too, so [HISTORY_PAGE] entries of
    noise, which any member can write, hide everything before them from a
    reader who pages back and everything after them from one who catches up. *)
Theorem unreadable_page_hides_the_rest r directory b channel paging entries ks h :
  (chanMeta_at r channel).["hid"] = VStr h -> h <> [] -> truthy (chanMeta_at r channel).["hkey"] = true ->
  channelKeys (chanMeta_at r channel) = Ok ks ->
  (forall e k, e ∈ entries -> k ∈ ks -> exists x, openLogEntry k (pe_payload e) = Throw x) ->
  exists b', fetchPage r directory b channel paging (Some (entries, false)) = (b', Ok (0%nat, false)) /\
    log_of b' (logKey (c_id r) channel) = log_of b (logKey (c_id r) channel).
Proof.
  intros Eh Hh Ek Eks Hall. assert (truthy (VStr h) = true) as Et by (cbn; by rewrite bool_decide_false by done).
  unfold fetchPage, keyless. rewrite Eh, Et, Ek. cbn [negb orb]. destruct (channelLog _ _ _) as [b1 s] eqn:Ec.
  apply channelLog_get in Ec as [Es El].
  assert (open_entries ks entries = []) as Ho.
  { unfold open_entries. induction entries as [|e entries IH]; [done|]. rewrite fmap_cons, filter_cons. cbn [snd].
    assert (try_keys ks (pe_payload e) = VNull) as ->.
    { assert (forall k, k ∈ ks -> exists x, openLogEntry k (pe_payload e) = Throw x) as Hk.
      { intros k Hk. apply Hall; [by left|done]. }
      clear -Hk. induction ks as [|k ks IH]; [done|]. cbn [try_keys]. destruct (Hk k) as [x ->]; [by left|].
      apply IH. intros k' ?. apply Hk. by right. }
    rewrite decide_False by done. apply IH. intros e' k He. apply Hall. by right. }
  unfold openPage. rewrite Eh, Et, Eks. cbn [negb rbind]. rewrite Ho. cbn [from_option id to_string rbind fmap list_fmap].
  unfold verifyEntries. cbn [rmap rbind checks_of omap list_omap verifyBatch fmap list_fmap fill zip_with addEntries].
  rewrite andb_false_r. eexists. split; [reflexivity|]. unfold log_of at 1. by rewrite (write_log_get _ _ _ _ Es).
Qed.
End delivery.
End LogFacts.

(** ** A small room *)

Module Room.
Import Logs LogFacts.
Import ToyFacts.

Definition meta : val := jobj [("hid", VStr (js "h")); ("hkey", VStr (b64_enc key))]%string.

Definition home : circle :=
  {| c_id := js "g"; c_name := VStr (js "home"); c_channels := [VStr (js "general")]; c_voiceChannels := None;
     c_deletedChannels := None; c_deletedVoice := None; c_chanMeta := Some [(js "general", meta)];
     c_overview := None; c_notices := None; c_offers := None; c_proposals := None; c_threshold := None;
     c_rsvps := None; c_members := None; c_pendingMetaSync := false |}.

Lemma ada_text : Forall unit16 (js "ada") /\ Forall unit16 (js "hi").
Proof. split; repeat constructor. Qed.

Lemma key_bytes : Forall byte key.
Proof. repeat constructor. Qed.

Lemma rotation_keeps_every_key_witness :
  exists ks', channelKeys (chanMeta_at (rotateHistoryKeys home [js "bmV3"]).1 (js "general")) = Ok ks' /\
    forall k, k ∈ [VStr (b64_enc key)] -> k ∈ ks'.
Proof.
  apply (rotation_keeps_every_key home [js "bmV3"] _ [js "general"] [(js "general", meta)] (js "general") meta);
    try done; try apply NoDup_singleton; vm_compute; reflexivity.
Defined.

(** A line of [ada] as it is parked. *)
Definition parked_line (seq ts : Z) (text : string) : parked_entry :=
  {| pe_seq := int seq;
     pe_payload := VStr match sealLogEntry (b64_enc key) (js "g") (js "h") (chat_full (js "ada") (js text) (int ts)) iv with
                        | Ok p => p | Throw _ => [] end |}.

(** Another line of hers came before it, and one after it repeats its time. *)
Lemma written_line_is_read_witness :
  exists b3 s, (fetchPage home (Some keys) [] (js "general") true
      (Some ([parked_line 8 4000 "oh"] ++ parked_line 9 5000 "hi" :: [parked_line 10 5000 "no"], true))).1 = b3 /\
    obj_get b3 (logKey (js "g") (js "general")) = Some s /\
    obj_get (base (sl_log s)) (messageId (js "ada") (int 5000))
      = Some (said_line (js "g") (js "general") (js "ada") (int 5000) (js "hi") signed (Some (int 9)) false).
Proof.
  destruct (written_line_is_read (js "ada") home [] (js "general") (js "hi") 5000 [] [] iv None key (js "h"))
    as (w & secs & ex & payload & Ew & Er & Hread); try done; try apply ada_text; try exact iv_bytes;
    try exact key_bytes.
  { left. reflexivity. }
  vm_compute in Ew. apply Ok_inj in Ew. rewrite <- Ew in Er. injection Er as _ _ Ep. rewrite <- Ep in Hread.
  eapply (Hread home keys [1%N; 2%N] [] (int 9) true true [VStr (b64_enc key)] [parked_line 8 4000 "oh"]
    [parked_line 10 5000 "no"]).
  - reflexivity.
  - reflexivity.
  - reflexivity.
  - vm_compute. reflexivity.
  - by left.
  - intros k ->%list_elem_of_singleton. by left.
  - reflexivity.
  - repeat constructor.
  - discriminate.
  - intros m. by apply bool_decide_eq_true.
  - vm_compute. reflexivity.
  - vm_compute. reflexivity.
  - vm_compute. reflexivity.
  - intros m. vm_compute. discriminate.
Defined.

(** A room key that is not base64 opens nothing. *)
Definition noise : parked_entry := {| pe_seq := int 1; pe_payload := VStr (js "!") |}.

Lemma catch_up_reads_one_page_witness :
  (length (base (log_of (catchUpRoom home (Some keys) [] (js "general") (Some ([noise], true))).1
     (logKey (js "g") (js "general")))) <= 0 + HISTORY_PAGE)%nat.
Proof. apply (catch_up_reads_one_page home (Some keys) [] (js "general") [noise] true). cbn. unfold HISTORY_PAGE. lia. Defined.

Lemma unreadable_page_hides_the_rest_witness :
  exists b', fetchPage home (Some keys) [] (js "general") true (Some ([noise], false)) = (b', Ok (0%nat, false)) /\
    log_of b' (logKey (c_id home) (js "general")) = log_of [] (logKey (c_id home) (js "general")).
Proof.
  refine (unreadable_page_hides_the_rest home (Some keys) [] (js "general") true [noise] [VStr (b64_enc key)] (js "h") _ _ _ _ _).
  - vm_compute. reflexivity.
  - discriminate.
  - vm_compute. reflexivity.
  - vm_compute. reflexivity.
  - intros e k ->%list_elem_of_singleton ->%list_elem_of_singleton. eexists. vm_compute. reflexivity.
Defined.

Lemma fresh_line_is_never_redacted_witness :
  exists w s m,
    appendLog (js "ada") home [] (js "general") (chat_entry (js "hi") (int 5000)) [] [] iv (Some (int 9)) = Ok w /\
    obj_get (wr_book w) (logKey (js "g") (js "general")) = Some s /\
    obj_get (base (sl_log s)) (messageId (js "ada") (int 5000)) = Some m /\
    forall at_ hid' hkey' iv' reply' w',
      deleteMessage (js "ada") (wr_record w) (wr_book w) (js "general") m at_ hid' hkey' iv' reply' = Ok (Some w') ->
      forall h' q, Redact h' q ∉ wr_requests w'.
Proof.
  apply (fresh_line_is_never_redacted (js "ada") home [] (js "general") (js "hi") 5000 [] [] iv (int 9) key (js "h"));
    try done; try apply ada_text; try exact iv_bytes; try exact key_bytes. left. reflexivity.
Defined.
End Room.

