(* ===== verification/Inbox.v ===== *)
(** * One message of the group, applied (client/src/lib/controller.js:
      [onGroupMessage], [onContent], [runEffects], [senderIsAdmin],
      [onWelcome]; the read markers)

    The controller around the reducer: who counts as an admin, what the
    reducer's effects do to the working copies and the live claims, in which
    order a message reaches the disk, and what a welcome makes of a record
    this device already had. *)

From stdpp Require Import base list numbers option strings relations.
From Stdlib Require Import ZArith NArith Lia.
From S2P Require Import Prelude JsNum JsString JsValue Json JsonFuel Games Quorum ChanKeys Envelope Reducer Log History Circles Logs.
Import Logs.
Open Scope Z_scope.

Module Inbox.

(** ** Roles *)

Definition with_members (r : circle) (members : option (list jstr)) : circle :=
  {| c_id := c_id r; c_name := c_name r; c_channels := c_channels r; c_voiceChannels := c_voiceChannels r;
     c_deletedChannels := c_deletedChannels r; c_deletedVoice := c_deletedVoice r;
     c_chanMeta := c_chanMeta r; c_overview := c_overview r; c_notices := c_notices r;
     c_offers := c_offers r; c_proposals := c_proposals r; c_threshold := c_threshold r;
     c_rsvps := c_rsvps r; c_members := members; c_pendingMetaSync := c_pendingMetaSync r |}.

(** The record and its roles after the relay's answer, the users and their roles
    in its order: [Object.fromEntries(members.map((m) => [m.user, m.role]))].  A
    [restored] record, which has no group of its own to ask, takes its members
    from the answer too; a request that failed changes nothing. *)
Definition refreshRoles (restored : bool) (r : circle) (roles : option obj) (reply : option (list (jstr * jstr)))
  : circle * option obj :=
  match reply with
  | None => (r, roles)
  | Some members =>
      (if restored then with_members r (Some members.*1) else r,
       Some (fold_left (fun o m => obj_put o m.1 (VStr m.2)) members []))
  end.

(** [record.roles?.[sender]]. *)
Definition role_of (roles : option obj) (sender : jstr) : val :=
  match roles with Some o => prop (VObj o) sender | None => VUndef end.

Definition is_admin_role (v : val) : bool := strict_eq v (VStr (js "admin")).

(** The record and the roles after the question, and the answer. *)
Definition senderIsAdmin (restored : bool) (r : circle) (roles : option obj) (reply : option (list (jstr * jstr)))
    (sender : jstr) (destructive : bool) : circle * option obj * bool :=
  if is_admin_role (role_of roles sender) then (r, roles, true) else
  let '(r', roles') := refreshRoles restored r roles reply in
  let fresh := role_of roles' sender in
  (r', roles', if is_admin_role fresh then true else if truthy fresh then false else negb destructive).

(** ** Live claims *)

Record typing_claim := { ty_channel : jstr; ty_ts : num }.

Notation live A := (list (jstr * list (jstr * A))) (only parsing).

(** [map[handle] = entry] in the circle's map. *)
Definition set_live {A} (m : live A) (server handle : jstr) (entry : A) : live A :=
  map_set m server (obj_assign (default [] (obj_get m server)) handle entry).

Definition clear_live {A} (m : live A) (server handle : jstr) : live A :=
  match obj_get m server with Some o => map_set m server (obj_delete o handle) | None => m end.

(** ** The desk the effects act on *)

Record desk := {
  dk_me : jstr;
  dk_book : list (jstr * slot);
  dk_presence : live claim;
  dk_wants : live claim;
  dk_typing : live typing_claim;
  dk_out : list effect;   (** handed on: to the relay, the voice manager, the backup, the quorum, the screen *)
}.

Definition set_book (d : desk) (b : list (jstr * slot)) : desk :=
  {| dk_me := dk_me d; dk_book := b; dk_presence := dk_presence d; dk_wants := dk_wants d;
     dk_typing := dk_typing d; dk_out := dk_out d |}.
Definition hand_on (d : desk) (e : effect) : desk :=
  {| dk_me := dk_me d; dk_book := dk_book d; dk_presence := dk_presence d; dk_wants := dk_wants d;
     dk_typing := dk_typing d; dk_out := dk_out d ++ [e] |}.
Definition set_typing (d : desk) (t : live typing_claim) : desk :=
  {| dk_me := dk_me d; dk_book := dk_book d; dk_presence := dk_presence d; dk_wants := dk_wants d;
     dk_typing := t; dk_out := dk_out d |}.
Definition set_presence (d : desk) (p : live claim) : desk :=
  {| dk_me := dk_me d; dk_book := dk_book d; dk_presence := p; dk_wants := dk_wants d;
     dk_typing := dk_typing d; dk_out := dk_out d |}.
Definition set_wants (d : desk) (w : live claim) : desk :=
  {| dk_me := dk_me d; dk_book := dk_book d; dk_presence := dk_presence d; dk_wants := w;
     dk_typing := dk_typing d; dk_out := dk_out d |}.

Definition setLiveTyping (d : desk) (server handle : jstr) (channel : val) (now : num) : desk * res unit :=
  if str_eqb handle (dk_me d) then (d, Ok tt) else
  match text_of channel with
  | Throw e => (d, Throw e)
  | Ok c => (set_typing d (set_live (dk_typing d) server handle {| ty_channel := c; ty_ts := now |}), Ok tt)
  end.

(** ** Effects *)

Definition reply_val (r : reply) : val :=
  jobj [("sender", VStr (rp_sender r)); ("ts", VNum (rp_ts r)); ("text", VStr (rp_text r))]%string.

Definition ref_val (g : game_ref) : val := jobj
  [("id", VStr (Games.gr_id g)); ("name", VStr (Games.gr_name g));
   ("kind", VStr (match Games.gr_kind g with activity => js "activity" | server => js "server" end))]%string.

(** What the message is made of: its kind and its content member. *)
Definition live_body (b : body) : string * (string * val) :=
  match b with
  | BFile f => if truthy f then ("file", ("file", f)) else ("chat", ("text", VUndef))
  | BGame g => ("game", ("game", ref_val g))
  | BText t => ("chat", ("text", t))
  end%string.

Definition live_message (m : message) : val :=
  let '(k, content) := live_body (m_body m) in
  jobj ([("k", VStr (js k)); ("sender", VStr (m_sender m)); ("ts", VNum (m_ts m)); content]%string
        ++ match m_reply m with Some r => [("reply"%string, reply_val r)] | None => [] end).

Definition live_reaction (ts_sender : jstr) (ts : num) (emo : jstr) (op : react_op) (by_ : jstr) (at_ : num) : val :=
  jobj [("k", VStr (js "react")); ("sender", VStr by_); ("ts", VNum at_);
        ("to", jobj [("sender", VStr ts_sender); ("ts", VNum ts)]); ("emo", VStr emo);
        ("op", VStr (match op with op_del => js "del" | op_add => js "add" end))]%string.

Definition live_edit (sender : jstr) (ts : num) (text : jstr) (at_ : num) : val :=
  jobj [("k", VStr (js "edit")); ("sender", VStr sender); ("ts", VNum at_);
        ("to", jobj [("ts", VNum ts)]); ("text", VStr text)]%string.

Definition live_delete (sender : jstr) (ts : num) (at_ : num) : val :=
  jobj [("k", VStr (js "del")); ("sender", VStr sender); ("ts", VNum at_); ("to", jobj [("ts", VNum ts)])]%string.

(** Fold a live copy in. *)
Definition fold_live (d : desk) (server : jstr) (channel entry : val) : desk * res unit :=
  let '(b, o) := applyLiveEntry (dk_book d) server channel entry in
  (set_book d b, let* _ := o in Ok tt).

Definition system_line (d : desk) (server : jstr) (channel : val) (text : jstr) (now : num) : desk * res unit :=
  match to_string channel with
  | Throw e => (d, Throw e)
  | Ok c =>
      let '(b, s) := channelLog (dk_book d) server c in
      (set_book d (write_log b (logKey server c) (addSystemMessage (sl_log s) server channel text now).1), Ok tt)
  end.

(** One effect. *)
Definition run_effect (r : circle) (now : num) (d : desk) (e : effect) : desk * res unit :=
  match e with
  | EStoreMessage m => fold_live d (m_server m) (m_channel m) (live_message m)
  | ESystemMessage srv text channel =>
      system_line d srv (default (VStr (js "general")) channel) text now
  | EReaction srv channel ts_sender ts emo op by_ at_ =>
      fold_live d srv (VStr channel) (live_reaction ts_sender ts emo op by_ at_)
  | EEditMessage srv channel sender ts text at_ =>
      fold_live d srv (VStr channel) (live_edit sender ts text at_)
  | EDeleteMessage srv channel sender ts at_ => fold_live d srv (VStr channel) (live_delete sender ts at_)
  | ERenameMessages srv from to =>
      (match (let* f := to_string from in let* t := to_string to in Ok (f, t)) with
       | Throw e => (d, Throw e)
       | Ok (f, t) => (set_book d (renameChannelLog (dk_book d) srv f t), Ok tt)
       end)
  | EDeleteMessages srv channel =>
      (match to_string channel with
       | Throw e => (d, Throw e)
       | Ok c => (set_book d (forgetChannelLog (dk_book d) srv c), Ok tt)
       end)
  | EApplyRetention channel =>
      (match to_string channel with
       | Throw e => (d, Throw e)
       | Ok c => let '(b, o) := applyRetention r (dk_book d) c now in (set_book d b, let* _ := o in Ok tt)
       end)
  | EClearTyping srv sender => (set_typing d (clear_live (dk_typing d) srv sender), Ok tt)
  | EPresence srv sender value => (set_presence d (set_live (dk_presence d) srv sender value), Ok tt)
  | EWant srv sender value => (set_wants d (set_live (dk_wants d) srv sender value), Ok tt)
  | ETyping srv sender channel => setLiveTyping d srv sender channel now
  | ERefreshMessages | EBackfillHistory | EBackup | EQuorumCheck _ | ELeaveVoice | ERefreshRoles _ => (hand_on d e, Ok tt)
  end.

(** In order; an exception ends it. *)
Fixpoint runEffects (r : circle) (now : num) (d : desk) (es : list effect) : desk * res unit :=
  match es with
  | [] => (d, Ok tt)
  | e :: rest =>
      match run_effect r now d e with
      | (d', Throw x) => (d', Throw x)
      | (d', Ok _) => runEffects r now d' rest
      end
  end.

(** ** One envelope *)

Definition chat_fallback (raw : jstr) : obj :=
  [(js "k", VStr (js "chat")); (js "ch", VStr (js "general")); (js "text", VStr raw)].

Definition parseEnvelope (raw : jstr) : val :=
  match json_parse raw with
  | Ok v => v
  | Throw _ => VObj (chat_fallback raw)
  end.

Section content.
Context `{CaseFold}.

(** The record, its roles and the desk afterwards. *)
Definition onContent (restored : bool) (r : circle) (roles : option obj) (d : desk) (sender raw : jstr)
    (reply : option (list (jstr * jstr))) (inCall : option (jstr * val)) (now : num)
  : circle * option obj * desk * res unit :=
  let content := parseEnvelope raw in
  let '(r1, roles', isAdmin) :=
    match adminRequirement content with
    | Some need => let '(r1, rs, a) := senderIsAdmin restored r roles reply sender (destructive need) in (r1, rs, Some a)
    | None => (r, roles, None)
    end in
  match applyEnvelope r1 sender content
          {| ctx_isAdmin := isAdmin; ctx_now := now; ctx_inCall := inCall; ctx_dateNow := now |} with
  | (r', Throw e) => (r', roles', d, Throw e)
  | (r', Ok effects) => let '(d', o) := runEffects r' now d effects in (r', roles', d', o)
  end.
End content.

(** ** A welcome *)

(** The record [onWelcome] puts in the place of the one it finds. *)
Definition welcomed (prior : val) (group : jstr) (members : list val) (epoch after now : num) : obj :=
  Circles.put_fields []
    [("id", VStr group); ("name", prior.["name"] ⁇ VStr group);
     ("channels", prior.["channels"] ⁇ VArr [VStr (js "general")]);
     ("voiceChannels", prior.["voiceChannels"] ⁇ VArr [VStr (js "lounge")]);
     ("chanMeta", prior.["chanMeta"] ⁇ VObj []); ("overview", prior.["overview"]);
     ("notices", prior.["notices"] ⁇ VArr []); ("seen", prior.["seen"] ⁇ VObj []);
     ("verified", prior.["verified"]); ("verifiedSn", prior.["verifiedSn"]); ("mismatched", prior.["mismatched"]);
     ("members", VArr members); ("epoch", VNum epoch); ("lastSeq", VNum after);
     ("joinedAt", prior.["joinedAt"] ⁇ VNum now); ("pendingMetaSync", VBool true)]%string.

(** ** What is unread *)

(** [record?.seen?.[channel] ?? record?.joinedAt ?? 0]. *)
Definition seenFloor (seen joinedAt : val) (channel : jstr) : val := prop seen channel ⁇ joinedAt ⁇ VNum (int 0).

(** [Number(m.ts) || 0]. *)
Definition ts_or_zero (t : num) : num := if ntruthy t then t else int 0.

Definition countUnread (ms : list line) (seen : num) (me : jstr) : nat :=
  length (filter (fun m => negb (ln_system m) && negb (str_eqb (ln_sender m) me)
                           && (ts_or_zero (ln_ts m) >ₙ seen) = true) ms).

(** The newest time on screen, 0 for an empty room. *)
Definition newest_ts (ms : list line) : num :=
  fold_left (fun max m => nmax max (ts_or_zero (ln_ts m))) (filter (fun m => ln_system m = false) ms) (int 0).

(** [markSeen]: the new [seen] of a record, from the rendered room. *)
Definition markSeen (seen : option obj) (ms : list line) (channel : jstr) (atLeastTs now : num) : obj :=
  let newest := newest_ts ms in
  let anchor := if ntruthy newest then newest else now in
  obj_put (default [] seen) channel (VNum (nmax anchor atLeastTs)).

(** ** The order of the writes

    What is on disk of one circle: how far its stream was read ([None] when the
    device was dropped from it), and how far the ratchet was turned.  The
    ratchet is one snapshot for all circles, so whatever stores it stores this
    circle's part too: [ds_own] is whether a message of this circle did. *)

Record disk := { ds_cursor : option Z; ds_ratchet : Z; ds_own : bool }.

Inductive write := WCursor (seq : Z) | WRatchet (own : bool) (seq : Z) | WForget.

Definition on_disk (d : disk) (w : write) : disk :=
  match w with
  | WCursor s => {| ds_cursor := Some s; ds_ratchet := ds_ratchet d; ds_own := ds_own d |}
  | WRatchet own s => {| ds_cursor := ds_cursor d; ds_ratchet := s; ds_own := own |}
  | WForget => {| ds_cursor := None; ds_ratchet := ds_ratchet d; ds_own := ds_own d |}
  end.

(** A message of the stream in [onGroupMessage], between its awaits: handed to
    the ratchet; being applied, with the snapshot it is to store ([None] when it
    could not be decrypted); and after its cursor was stored. *)
Inductive handling := Arrived (seq : Z) | Opened (ratchet : option Z) | Covered (ratchet : option Z).

(** [record.lastSeq], the ratchet in the worker, the messages under way and the
    disk.  The events of the relay do not wait for one another, so any number of
    messages is under way at once. *)
Record reader := { rd_lastSeq : Z; rd_ratchet : Z; rd_open : list handling; rd_disk : disk }.

Definition put_disk (w : write) (r : reader) : reader :=
  {| rd_lastSeq := rd_lastSeq r; rd_ratchet := rd_ratchet r; rd_open := rd_open r; rd_disk := on_disk (rd_disk r) w |}.

Definition under_way (l : list handling) (r : reader) : reader :=
  {| rd_lastSeq := rd_lastSeq r; rd_ratchet := rd_ratchet r; rd_open := l; rd_disk := rd_disk r |}.

(** The cursor in memory, [Math.max(record.lastSeq, seq)]. *)
Definition heard (seq : Z) (r : reader) : reader :=
  {| rd_lastSeq := Z.max (rd_lastSeq r) seq; rd_ratchet := rd_ratchet r; rd_open := rd_open r; rd_disk := rd_disk r |}.

Definition turned (to : Z) (r : reader) : reader :=
  {| rd_lastSeq := rd_lastSeq r; rd_ratchet := to; rd_open := rd_open r; rd_disk := rd_disk r |}.

(** What [onGroupMessage] does with a message, await by await, and what stores
    the cursor or the ratchet beside it: [persistDevice] and [persistCircle],
    which a handler, an effect or the user call at any time; [sendContent], also
    from an effect (a call that is left, a snapshot for somebody who joined by a
    link) or the user, with the relay's answer later or never; and a message of
    another circle. *)
Inductive reads : reader -> reader -> Prop :=
| rd_arrives r seq :
    reads r (under_way (Arrived seq :: rd_open r) (heard seq r))
| rd_decrypted r l1 l2 seq to :
    rd_open r = l1 ++ Arrived seq :: l2 -> to = Z.max (rd_ratchet r) seq ->
    reads r (under_way (l1 ++ Opened (Some to) :: l2) (turned to r))
| rd_undecryptable r l1 l2 seq :
    rd_open r = l1 ++ Arrived seq :: l2 ->
    reads r (under_way (l1 ++ Opened None :: l2) r)
| rd_cursor r l1 l2 p :
    rd_open r = l1 ++ Opened p :: l2 ->
    reads r (under_way (l1 ++ Covered p :: l2) (put_disk (WCursor (rd_lastSeq r)) r))
| rd_stored r l1 l2 p :
    rd_open r = l1 ++ Covered (Some p) :: l2 ->
    reads r (under_way (l1 ++ l2) (put_disk (WRatchet true p) r))
| rd_nothing r l1 l2 :
    rd_open r = l1 ++ Covered None :: l2 ->
    reads r (under_way (l1 ++ l2) r)
| rd_dropped r l1 l2 p :
    rd_open r = l1 ++ Opened (Some p) :: l2 ->
    reads r (under_way (l1 ++ l2) (put_disk (WRatchet true p) (put_disk WForget r)))
| rd_persists r :
    reads r (put_disk (WCursor (rd_lastSeq r)) r)
| rd_sends r :
    reads r (put_disk (WRatchet false (rd_ratchet r)) r)
| rd_sent r seq :
    reads r (put_disk (WCursor (Z.max (rd_lastSeq r) seq)) (heard seq r))
| rd_elsewhere r p :
    p <= rd_ratchet r ->
    reads r (put_disk (WRatchet false p) r).

(** A device that starts from what is on its disk. *)
Definition resumed (d : disk) (cursor : Z) : reader :=
  {| rd_lastSeq := cursor; rd_ratchet := ds_ratchet d; rd_open := []; rd_disk := d |}.
End Inbox.

(** ** Theorems *)

Module InboxFacts.
Import Inbox LogFacts.

(** *** The gate *)

Section gate.
Context `{CaseFold}.

(** C8: an envelope of a kind that only an admin may send and that can destroy
    something (a room deleted or renamed, its settings, the threshold) does
    nothing at all, to the record or to the working copies, unless the sender is
    an admin in the roles this device holds or in those it just asked the relay
    for; a role that is still unknown after asking counts as no.  What is left is
    the answer to the question: the roles, and the members of a restored
    record.  The kinds an author may also send (taking back one's own notice,
    offer or proposal) are decided by the reducer, not here. *)
Theorem unproved_admin_destroys_nothing restored r roles d sender raw reply inCall now need r1 roles1 :
  adminRequirement (parseEnvelope raw) = Some need -> destructive need = true -> authorMayPass need = false ->
  is_admin_role (role_of roles sender) = false ->
  refreshRoles restored r roles reply = (r1, roles1) -> is_admin_role (role_of roles1 sender) = false ->
  onContent restored r roles d sender raw reply inCall now = (r1, roles1, d, Ok tt) /\
  (reply = None \/ restored = false -> r1 = r) /\ with_members r1 (c_members r) = r.
Proof.
  intros Hn Hd Ha Hc Hr Hf. split.
  - unfold onContent, senderIsAdmin. rewrite Hn, Hd, Hc, Hr, Hf. cbn [negb].
    assert ((if truthy (role_of roles1 sender) then false else false) = false) as -> by (by case_match).
    by rewrite (applyEnvelope_refused _ _ _ _ need).
  - unfold refreshRoles in Hr. destruct reply as [ms|], restored; injection Hr as <- <-; split; try done;
      try (by intros [?|?]); by destruct r.
Qed.
End gate.

(** *** Reading a room *)

Lemma nltb_nmax_l a b x : (nmax a b <ₙ x) = true -> (a <ₙ x) = true.
Proof.
  destruct a as [|[]|a], b as [|[]|b], x as [|[]|x]; unfold nmax; cbn; try done;
    destruct (a <? b) eqn:E; cbn; try done; rewrite ?Z.ltb_lt, ?Z.ltb_ge in *; lia.
Qed.

Lemma nltb_nmax_r a b x : (nmax a b <ₙ x) = true -> (b <ₙ x) = true.
Proof.
  destruct a as [|[]|a], b as [|[]|b], x as [|[]|x]; unfold nmax; cbn; try done;
    destruct (a <? b) eqn:E; cbn; try done; rewrite ?Z.ltb_lt, ?Z.ltb_ge in *; lia.
Qed.

Lemma nltb_fold (ms : list line) a x :
  (fold_left (fun max m => nmax max (ts_or_zero (ln_ts m))) ms a <ₙ x) = true ->
  (a <ₙ x) = true /\ forall m, m ∈ ms -> (ts_or_zero (ln_ts m) <ₙ x) = true.
Proof.
  revert a. induction ms as [|m ms IH]; intros a Hlt; cbn [fold_left] in Hlt; [split; [done|by intros ? ?%elem_of_nil]|].
  apply IH in Hlt as [Ha Hms]. split; [by apply nltb_nmax_l in Ha|].
  intros m' [->|Hin]%elem_of_cons; [by apply nltb_nmax_r in Ha|by apply Hms].
Qed.

Lemma nltb_irrefl x : (x <ₙ x) = false.
Proof. destruct x as [|[]|z]; cbn; try done. apply Z.ltb_irrefl. Qed.

Lemma nltb_trans a b c : (a <ₙ b) = true -> (b <ₙ c) = true -> (a <ₙ c) = true.
Proof. destruct a as [|[]|a], b as [|[]|b], c as [|[]|c]; cbn; try done. rewrite !Z.ltb_lt. lia. Qed.

(** The newest time of a room is 0 or a time that counts. *)
Lemma falsy_newest ms : ntruthy (newest_ts ms) = false -> newest_ts ms = Fin 0.
Proof.
  unfold newest_ts. assert (forall a, a <> NaN -> fold_left (fun max m => nmax max (ts_or_zero (ln_ts m)))
    (filter (fun m => ln_system m = false) ms) a <> NaN) as Hn.
  { induction (filter _ ms) as [|m l IH]; intros a Ha; [done|]. cbn [fold_left]. apply IH.
    assert (ts_or_zero (ln_ts m) <> NaN) as Ht by (unfold ts_or_zero; by destruct (ln_ts m) as [| |z]; cbn; [| |case_match]).
    destruct a as [| |], (ts_or_zero (ln_ts m)) as [| |]; try done; unfold nmax; by case_match. }
  specialize (Hn (int 0) ltac:(done)). destruct (fold_left _ _ _) as [|[]|z]; cbn; try done.
  destruct z; cbn; done.
Qed.

(** Looking at a room leaves nothing in it unread, whatever clocks its
    lines were stamped by. *)
Theorem nothing_left_unread seen joinedAt ms channel atLeast now me :
  (Fin 0 <ₙ now) = true ->
  exists floor, seenFloor (VObj (markSeen seen ms channel atLeast now)) joinedAt channel = VNum floor /\
    countUnread ms floor me = 0%nat.
Proof.
  intros Hnow. unfold seenFloor, markSeen. set (anchor := if ntruthy (newest_ts ms) then newest_ts ms else now).
  exists (nmax anchor atLeast). split.
  { cbn [prop]. by rewrite obj_get_put, str_eqb_refl. }
  unfold countUnread. apply length_zero_iff_nil, elem_of_nil_inv.
  intros m [Hc Hm]%list_elem_of_filter. revert Hc. rewrite !andb_true_iff, negb_true_iff. intros [[Hs _] Hlt].
  apply nltb_nmax_l in Hlt. unfold anchor in Hlt.
  assert (forall x, (newest_ts ms <ₙ x) = true -> ts_or_zero (ln_ts m) <> x) as Hnew.
  { intros x [_ Hall]%nltb_fold <-. specialize (Hall m). rewrite nltb_irrefl in Hall.
    discriminate Hall. apply list_elem_of_filter. by split. }
  destruct (ntruthy (newest_ts ms)) eqn:En; [by eapply Hnew|].
  apply (Hnew (ts_or_zero (ln_ts m))); [|done]. rewrite (falsy_newest _ En). by eapply nltb_trans.
Qed.

(** *** The live copy of a line *)

Section live.
Context `{CaseFold}.

(** The envelope [deliverChat] sends. *)
Definition chat_envelope (channel text : jstr) (ts : num) : obj :=
  [(js "k", VStr (js "chat")); (js "ch", VStr channel); (js "text", VStr text); (js "ts", VNum ts)].

Lemma chat_envelope_parsed channel text n :
  Forall unit16 channel -> Forall unit16 text -> safe n ->
  parseEnvelope (stringify (VObj (chat_envelope channel text (int n)))) = VObj (chat_envelope channel text (int n)).
Proof.
  intros Hc Ht Hn. unfold parseEnvelope. rewrite json_parse_stringify; [vm_compute; reflexivity|].
  apply jsonable_obj. split; [apply (bool_decide_unpack _); vm_compute; done|].
  unfold chat_envelope. rewrite !Forall_cons, Forall_nil. cbn [fst snd jsonable]. split_and!; try done; eauto; repeat constructor.
Qed.

Lemma chat_envelope_effects r sender channel text ts ctx :
  nfinite ts = true -> (Fin 0 <ₙ ts) = true ->
  applyEnvelope r sender (VObj (chat_envelope channel text ts)) ctx =
    (ensureChannel r (VStr channel),
     Ok [EClearTyping (c_id (ensureChannel r (VStr channel))) sender;
         EStoreMessage {| m_server := c_id (ensureChannel r (VStr channel)); m_channel := VStr channel;
                          m_sender := sender; m_body := BText (VStr text); m_ts := ts; m_reply := None |}]).
Proof.
  intros Hf Hp. unfold applyEnvelope, reduce.
  replace (adminRequirement (VObj (chat_envelope channel text ts))) with (@None requirement) by (vm_compute; reflexivity).
  unfold dispatch. replace (is_kind (VObj (chat_envelope channel text ts)) "chat") with true by (vm_compute; reflexivity).
  unfold on_chat, store, mbind, modify, record, emit, lift, messageTs. cbn [fst snd].
  replace ((VObj (chat_envelope channel text ts)).["reply"]) with VUndef by (vm_compute; reflexivity).
  replace ((VObj (chat_envelope channel text ts)).["ts"]) with (VNum ts) by (vm_compute; reflexivity).
  replace ((VObj (chat_envelope channel text ts)).["text"]) with (VStr text) by (vm_compute; reflexivity).
  replace ((VObj (chat_envelope channel text ts)).["ch"]) with (VStr channel) by (vm_compute; reflexivity).
  cbn [normalizeReply not_an_object truthy negb orb to_number rbind fst snd]. rewrite Hf, Hp. reflexivity.
Qed.

Lemma live_message_says server channel sender text ts :
  says (live_message {| m_server := server; m_channel := channel; m_sender := sender; m_body := BText (VStr text);
                        m_ts := ts; m_reply := None |}) sender ts text.
Proof. split; vm_compute; reflexivity. Qed.

Lemma ensureChannel_id r ch : c_id (ensureChannel r ch) = c_id r.
Proof. unfold ensureChannel. repeat case_match; reflexivity. Qed.

(** The effects of a text that is not JSON. *)
Lemma fallback_effects r sender raw ctx :
  applyEnvelope r sender (VObj (chat_fallback raw)) ctx =
    (ensureChannel r (VStr (js "general")),
     Ok [EClearTyping (c_id (ensureChannel r (VStr (js "general")))) sender;
         EStoreMessage {| m_server := c_id (ensureChannel r (VStr (js "general"))); m_channel := VStr (js "general");
                          m_sender := sender; m_body := BText (VStr raw); m_ts := ctx_now ctx; m_reply := None |}]).
Proof.
  unfold applyEnvelope, reduce.
  replace (adminRequirement (VObj (chat_fallback raw))) with (@None requirement) by (vm_compute; reflexivity).
  unfold dispatch. replace (is_kind (VObj (chat_fallback raw)) "chat") with true by (vm_compute; reflexivity).
  unfold on_chat, store, mbind, modify, record, emit, lift, messageTs. cbn [fst snd].
  replace ((VObj (chat_fallback raw)).["reply"]) with VUndef by (vm_compute; reflexivity).
  replace ((VObj (chat_fallback raw)).["ts"]) with VUndef by (vm_compute; reflexivity).
  replace ((VObj (chat_fallback raw)).["text"]) with (VStr raw) by (vm_compute; reflexivity).
  replace ((VObj (chat_fallback raw)).["ch"]) with (VStr (js "general")) by (vm_compute; reflexivity).
  cbn [normalizeReply not_an_object truthy negb orb to_number rbind fst snd]. reflexivity.
Qed.

(** The effects of a line of chat put it on screen as an echo. *)
Lemma chat_shown r r' d sender channel text n now :
  sender <> [] -> 0 < n ->
  obj_get (base (log_of (dk_book d) (logKey (c_id r) channel))) (messageId sender (int n)) = None ->
  exists d', runEffects r' now d [EClearTyping (c_id r) sender;
      EStoreMessage {| m_server := c_id r; m_channel := VStr channel; m_sender := sender; m_body := BText (VStr text);
                       m_ts := int n; m_reply := None |}] = (d', Ok tt) /\
    obj_get (base (log_of (dk_book d') (logKey (c_id r) channel))) (messageId sender (int n))
      = Some (said_line (c_id r) channel sender (int n) text signed None true).
Proof.
  intros Hs Hn Hb. cbn [runEffects run_effect m_server m_channel]. unfold fold_live, applyLiveEntry. cbn [dk_book set_typing].
  pose proof (live_message_says (c_id r) (VStr channel) sender text (int n)) as Hsay.
  set (e := live_message _) in *. rewrite (sy_sender _ _ _ _ Hsay), (sy_ts _ _ _ _ Hsay).
  assert (truthy (VStr sender) = true) as -> by (cbn; by rewrite bool_decide_false by done).
  assert (truthy (VNum (int n)) = true) as -> by (by destruct n). cbn [negb orb].
  unfold add_local. cbn [to_string]. destruct (channelLog _ _ _) as [b1 s] eqn:Ec. apply channelLog_get in Ec as [Es El].
  unfold addLocalEntry.
  destruct (says_added (sl_log s) (c_id r) channel e sender (int n) text signed None true Hsay Hs)
    as (log' & -> & Eb); [by destruct n|done|by rewrite El, Hb|].
  eexists. split; [reflexivity|]. cbn [dk_book set_book]. unfold log_of. by rewrite (write_log_get _ _ _ _ Es).
Qed.

(** A line of chat that arrives live is on screen at once, in the sender's
    name, with the sender's time and text, as an echo: the copy the log brings
    later takes its place instead of showing beside it (the delivery theorem
    asks for no more). *)
Theorem live_line_waits_for_its_copy restored r roles d sender channel text n reply inCall now :
  sender <> [] -> Forall unit16 channel -> Forall unit16 text -> 0 < n -> safe n ->
  obj_get (base (log_of (dk_book d) (logKey (c_id r) channel))) (messageId sender (int n)) = None ->
  exists d', onContent restored r roles d sender (stringify (VObj (chat_envelope channel text (int n)))) reply inCall now
      = (ensureChannel r (VStr channel), roles, d', Ok tt) /\
    obj_get (base (log_of (dk_book d') (logKey (c_id r) channel))) (messageId sender (int n))
      = Some (said_line (c_id r) channel sender (int n) text signed None true).
Proof.
  intros Hs Uc Ut Hn Sn Hb. unfold onContent. rewrite chat_envelope_parsed by done.
  replace (adminRequirement (VObj (chat_envelope channel text (int n)))) with (@None requirement) by (vm_compute; reflexivity).
  rewrite chat_envelope_effects; [|by destruct n|by destruct n]. rewrite !ensureChannel_id.
  destruct (chat_shown r (ensureChannel r (VStr channel)) d sender channel text n now) as (d' & -> & Hd); try done. by exists d'.
Qed.

(** C29: a text that is not JSON is not lost and stops nothing: it becomes a
    line of chat of whoever sent it, in the general room, which opens if it has
    to, word for word as it came, stamped with the time of reading; it counts as
    signed, as the group vouches for its sender, and asks for no admin. *)
Theorem a_text_that_is_no_json_is_shown restored r roles d sender raw reply inCall n e :
  json_parse raw = Throw e -> sender <> [] -> 0 < n ->
  obj_get (base (log_of (dk_book d) (logKey (c_id r) (js "general")))) (messageId sender (int n)) = None ->
  exists d', onContent restored r roles d sender raw reply inCall (int n)
      = (ensureChannel r (VStr (js "general")), roles, d', Ok tt) /\
    obj_get (base (log_of (dk_book d') (logKey (c_id r) (js "general")))) (messageId sender (int n))
      = Some (said_line (c_id r) (js "general") sender (int n) raw signed None true).
Proof.
  intros Hj Hs Hn Hb. unfold onContent, parseEnvelope. rewrite Hj.
  replace (adminRequirement (VObj (chat_fallback raw))) with (@None requirement) by (vm_compute; reflexivity).
  rewrite fallback_effects. cbn [ctx_now]. rewrite !ensureChannel_id.
  destruct (chat_shown r (ensureChannel r (VStr (js "general"))) d sender (js "general") raw n (int n)) as (d' & -> & Hd); try done.
  by exists d'.
Qed.
End live.

(** *** The disk *)

(** Everything that was decrypted is behind the cursor in memory, and behind
    the one on disk as soon as a message of the stream has stored it. *)
Record in_order (r : reader) : Prop := {
  io_memory : rd_ratchet r <= rd_lastSeq r;
  io_arrived : forall seq, Arrived seq ∈ rd_open r -> seq <= rd_lastSeq r;
  io_disk : ds_ratchet (rd_disk r) <= rd_ratchet r;
  io_opened : forall p, Opened (Some p) ∈ rd_open r -> p <= rd_ratchet r;
  io_covered : forall p, Covered (Some p) ∈ rd_open r ->
    p <= rd_ratchet r /\ forall c, ds_cursor (rd_disk r) = Some c -> p <= c;
  io_waiting : forall c, ds_cursor (rd_disk r) = Some c -> c < rd_ratchet r -> exists p, Opened (Some p) ∈ rd_open r;
  io_own : forall c, ds_cursor (rd_disk r) = Some c -> ds_own (rd_disk r) = true -> ds_ratchet (rd_disk r) <= c;
}.

Lemma elem_of_swap {A} (x a b : A) l1 l2 : x ∈ l1 ++ a :: l2 -> x = a \/ x ∈ l1 ++ b :: l2.
Proof. rewrite !elem_of_app, !elem_of_cons. naive_solver. Qed.

Lemma elem_of_dropped {A} (x a : A) l1 l2 : x ∈ l1 ++ l2 -> x ∈ l1 ++ a :: l2.
Proof. rewrite !elem_of_app, !elem_of_cons. naive_solver. Qed.

Lemma elem_of_middle {A} (a : A) l1 l2 : a ∈ l1 ++ a :: l2.
Proof. apply elem_of_app. right. by left. Qed.

(** Storing the cursor puts everything in order. *)
Lemma cursor_in_order r r' :
  in_order r -> rd_ratchet r' = rd_ratchet r -> rd_lastSeq r <= rd_lastSeq r' ->
  rd_disk r' = on_disk (rd_disk r) (WCursor (rd_lastSeq r')) ->
  (forall h, h ∈ rd_open r' -> h ∈ rd_open r \/ exists p, h = Covered p /\ Opened p ∈ rd_open r) -> in_order r'.
Proof.
  intros [H1 H2 H3 H4 H5 H6 H7] Er El Ed Ho. split; rewrite ?Er, ?Ed; cbn [on_disk ds_cursor ds_ratchet ds_own]; try lia.
  - intros s [Hs|(p & E & _)]%Ho; [|done]. specialize (H2 _ Hs). lia.
  - intros p [Hs|(q & E & _)]%Ho; [by apply H4|done].
  - intros p Hp. assert (p <= rd_ratchet r) as Hle.
    { apply Ho in Hp as [Hs|(q & Eq & Hq)]; [by destruct (H5 _ Hs)|simplify_eq; by apply H4]. }
    split; [done|]. intros c [= <-]. lia.
  - intros c [= <-]. lia.
  - intros c [= <-] _. lia.
Qed.

(** So does storing a snapshot that is covered, or somebody else's. *)
Lemma ratchet_in_order r r' own p :
  in_order r -> rd_ratchet r' = rd_ratchet r -> rd_lastSeq r' = rd_lastSeq r ->
  rd_disk r' = on_disk (rd_disk r) (WRatchet own p) -> p <= rd_ratchet r ->
  (own = true -> forall c, ds_cursor (rd_disk r) = Some c -> p <= c) ->
  (forall h, h ∈ rd_open r' -> h ∈ rd_open r) -> (forall q, Opened q ∈ rd_open r -> Opened q ∈ rd_open r') -> in_order r'.
Proof.
  intros [H1 H2 H3 H4 H5 H6 H7] Er El Ed Hp Hown Ho Hk.
  split; rewrite ?Er, ?El, ?Ed; cbn [on_disk ds_cursor ds_ratchet ds_own]; auto; try lia.
  intros c Hc Hlt. destruct (H6 c Hc Hlt) as [q Hq]. eauto.
Qed.

Lemma reads_in_order r r' : reads r r' -> in_order r -> in_order r'.
Proof.
  intros Hst Hr. pose proof Hr as [H1 H2 H3 H4 H5 H6 H7]. destruct Hst as
    [r seq|r l1 l2 seq to E Et|r l1 l2 seq E|r l1 l2 p E|r l1 l2 p E|r l1 l2 E|r l1 l2 p E|r|r|r seq|r p Hp].
  - split; cbn; auto; try lia.
    + intros s [[= <-]|Hs]%elem_of_cons; [lia|]. specialize (H2 _ Hs). lia.
    + intros p [?|Hs]%elem_of_cons; [done|auto].
    + intros p [?|Hs]%elem_of_cons; [done|auto].
    + intros c Hc Hlt. destruct (H6 c Hc Hlt) as [q Hq]. exists q. by right.
  - assert (seq <= rd_lastSeq r) as Hseq by (apply H2; rewrite E; apply elem_of_middle).
    split; cbn; rewrite ?E in *; auto; try lia.
    + intros s Hs%(elem_of_swap _ _ (Arrived seq)). destruct Hs as [|Hs]; [done|]. by apply H2.
    + intros p Hs%(elem_of_swap _ _ (Arrived seq)). destruct Hs as [[= ->]|Hs]; [done|]. specialize (H4 _ Hs). lia.
    + intros p Hs%(elem_of_swap _ _ (Arrived seq)). destruct Hs as [|Hs]; [done|]. destruct (H5 _ Hs). split; [lia|done].
    + intros c Hc Hlt. exists to. apply elem_of_middle.
  - split; cbn; rewrite ?E in *; auto.
    + intros s Hs%(elem_of_swap _ _ (Arrived seq)). destruct Hs as [|Hs]; [done|]. by apply H2.
    + intros p Hs%(elem_of_swap _ _ (Arrived seq)). destruct Hs as [|Hs]; [done|]. by apply H4.
    + intros p Hs%(elem_of_swap _ _ (Arrived seq)). destruct Hs as [|Hs]; [done|]. by apply H5.
    + intros c Hc Hlt. destruct (H6 c Hc Hlt) as [q Hq]. exists q.
      apply (elem_of_swap _ _ (Opened None)) in Hq as [|Hq]; [done|exact Hq].
  - apply (cursor_in_order r); cbn; try done; try lia. rewrite E. intros h Hh%(elem_of_swap _ _ (Opened p)).
    destruct Hh as [->|Hh]; [right; exists p; split; [done|apply elem_of_middle]|by left].
  - assert (Covered (Some p) ∈ rd_open r) as Hin by (rewrite E; apply elem_of_middle). destruct (H5 _ Hin) as [Hp Hc].
    apply (ratchet_in_order r _ true p); cbn; auto; rewrite E; intros h Hh; [by apply elem_of_dropped|].
    apply (elem_of_swap _ _ (Covered None)) in Hh as [|Hh]; [done|]. revert Hh. rewrite !elem_of_app, elem_of_cons. naive_solver.
  - split; cbn; rewrite ?E in *; auto using elem_of_dropped.
    intros c Hc Hlt. destruct (H6 c Hc Hlt) as [q Hq]. exists q. revert Hq. rewrite !elem_of_app, elem_of_cons. naive_solver.
  - assert (p <= rd_ratchet r) as Hp by (apply H4; rewrite E; apply elem_of_middle).
    split; cbn; rewrite ?E in *; auto using elem_of_dropped; try done.
    intros q Hq%(fun H => elem_of_dropped _ (Opened (Some p)) _ _ H)%H5. destruct Hq. by split.
  - apply (cursor_in_order r); cbn; try done; try lia. by left.
  - apply (ratchet_in_order r _ false (rd_ratchet r)); cbn; try done; lia.
  - apply (cursor_in_order r); cbn; try done; try lia. by left.
  - by apply (ratchet_in_order r _ false p); cbn.
Qed.


(** When somebody joins by an invite link and this device keeps links, it
    sends the circle's shape before it stores the cursor, and sending stores the
    ratchet: a crash while the relay is asked leaves the ratchet past a message
    the cursor does not cover.  Leaving a call because its room was deleted
    sends as well. *)
Theorem link_join_stores_ratchet_first :
  exists r, rtc reads (resumed {| ds_cursor := Some 7; ds_ratchet := 7; ds_own := true |} 7) r /\
    rd_disk r = {| ds_cursor := Some 7; ds_ratchet := 8; ds_own := false |} /\ rd_open r = [Opened (Some 8)].
Proof.
  eexists. split.
  - eapply rtc_l; [apply (rd_arrives _ 8)|]. eapply rtc_l; [by apply (rd_decrypted _ [] [] 8 8)|].
    eapply rtc_l; [apply rd_sends|]. apply rtc_refl.
  - split; reflexivity.
Qed.

(** *** Being added again *)

(** A device that is added again to a circle it still has on record loses
    part of what every member shares: the key directory, the lifts, the joins
    under way, the threshold, the answers, the invite links and the tombstones
    are not taken over, although the comment says everything is; and what it
    parks next has none of them. *)
Theorem readmission_forgets_shared_state prior group members epoch after now f :
  f ∈ ["keys"; "offers"; "proposals"; "threshold"; "rsvps"; "invites"; "deletedChannels"; "deletedVoice"]%string ->
  f ∈ shared_names /\ getq (VObj (welcomed prior group members epoch after now)) f = VUndef.
Proof.
  intros Hf. split.
  - revert f Hf. apply Forall_forall. apply (bool_decide_unpack _). vm_compute. done.
  - unfold getq, welcomed. rewrite put_fields_prop.
    repeat (apply elem_of_cons in Hf as [->|Hf]; [vm_compute; reflexivity|]). by apply elem_of_nil in Hf.
Qed.
End InboxFacts.

(** ** Small runs *)

Module InboxRuns.
Import Inbox LogFacts InboxFacts Room.

Definition bare_desk : desk :=
  {| dk_me := js "bob"; dk_book := []; dk_presence := []; dk_wants := []; dk_typing := []; dk_out := [] |}.

Definition delete_general : jstr :=
  stringify (jobj [("k", VStr (js "chan-del")); ("ch", VStr (js "general"))]%string).

Lemma unproved_admin_destroys_nothing_witness :
  @onContent ascii_fold true home None bare_desk (js "mallory") delete_general (Some [(js "mallory", js "member")]) None (int 5)
    = (with_members home (Some [js "mallory"]), Some [(js "mallory", VStr (js "member"))], bare_desk, Ok tt).
Proof.
  refine (proj1 (@unproved_admin_destroys_nothing ascii_fold true home None bare_desk (js "mallory") delete_general
           (Some [(js "mallory", js "member")]) None (int 5) {| destructive := true; authorMayPass := false |} _ _ _ _ _ _ _ _));
    vm_compute; reflexivity.
Defined.

Lemma nothing_left_unread_witness :
  exists floor, seenFloor (VObj (markSeen None [said_line (js "g") (js "general") (js "ada") (int 5000) (js "hi") signed None false]
      (js "general") (int 0) (int 9))) VUndef (js "general") = VNum floor /\
    countUnread [said_line (js "g") (js "general") (js "ada") (int 5000) (js "hi") signed None false] floor (js "bob") = 0%nat.
Proof. refine (nothing_left_unread None VUndef _ (js "general") (int 0) (int 9) (js "bob") _). vm_compute. reflexivity. Defined.

Lemma live_line_waits_for_its_copy_witness :
  exists d', @onContent ascii_fold false home None bare_desk (js "ada")
      (stringify (VObj (chat_envelope (js "general") (js "hi") (int 5000)))) None None (int 9)
      = (ensureChannel home (VStr (js "general")), None, d', Ok tt) /\
    obj_get (base (log_of (dk_book d') (logKey (c_id home) (js "general")))) (messageId (js "ada") (int 5000))
      = Some (said_line (c_id home) (js "general") (js "ada") (int 5000) (js "hi") signed None true).
Proof.
  refine (@live_line_waits_for_its_copy ascii_fold false home None bare_desk (js "ada") (js "general") (js "hi") 5000 None None
            (int 9) _ _ _ _ _ _).
  - discriminate.
  - repeat constructor.
  - repeat constructor.
  - lia.
  - vm_compute. reflexivity.
  - reflexivity.
Defined.


Lemma readmission_forgets_shared_state_witness :
  "keys"%string ∈ shared_names /\
  getq (VObj (welcomed VUndef (js "g") [] (int 1) (int 2) (int 3))) "keys" = VUndef.
Proof. apply (readmission_forgets_shared_state VUndef (js "g") [] (int 1) (int 2) (int 3) "keys"). by left. Defined.

Lemma a_text_that_is_no_json_is_shown_witness :
  exists d', @onContent ascii_fold false home None bare_desk (js "ada") (js "hi there") None None (int 9)
      = (ensureChannel home (VStr (js "general")), None, d', Ok tt) /\
    obj_get (base (log_of (dk_book d') (logKey (c_id home) (js "general")))) (messageId (js "ada") (int 9))
      = Some (said_line (c_id home) (js "general") (js "ada") (int 9) (js "hi there") signed None true).
Proof.
  refine (@a_text_that_is_no_json_is_shown ascii_fold false home None bare_desk (js "ada") (js "hi there") None None 9
            OtherError _ _ _ _).
  - vm_compute. reflexivity.
  - discriminate.
  - lia.
  - reflexivity.
Defined.
End InboxRuns.
