(* ===== verification/Snapshot.v ===== *)
(** * The snapshot a joiner rebuilds a circle from ([metaContent] of
      client/src/lib/controller.js)

    A joiner has no scrollback: the first snapshot that reaches it is taken
    over wholesale.  The record's parts as the objects they are on the wire,
    and what a joiner makes of them: the normalizers of the boards give back
    what they are given, so the joiner holds the sender's circle. *)

From stdpp Require Import base list numbers option strings.
From Stdlib Require Import ZArith NArith Lia Sorting.Sorted.
From S2P Require Import Prelude JsNum JsString JsValue Json Board Games Overview Offers Quorum ChanKeys Envelope Reducer Circles Logs Inbox.
Open Scope Z_scope.

Module Snapshot.
Import Inbox.

Local Notation "k ~> v" := (k%string, v) (at level 60).

(** ** The objects on the wire *)

(** [...(s ? { k: s } : {})]. *)
Definition field_opt (k : string) (s : option jstr) : list (string * val) :=
  match s with Some s => [(k, VStr s)] | None => [] end.

Definition field_arr {A} (k : string) (f : A -> val) (l : list A) : list (string * val) :=
  match l with [] => [] | _ => [(k, VArr (f <$> l))] end.

Definition link_val (l : link) : val := jobj [("label" ~> VStr (l_label l)); ("url" ~> VStr (l_url l))].

Definition event_val (e : event) : val := jobj
  ([("id" ~> VStr (ev_id e)); ("title" ~> VStr (ev_title e)); ("at" ~> VNum (ev_at e))]
   ++ field_opt "note" (ev_note e) ++ field_opt "gameId" (ev_gameId e)).

Definition legacy_val (e : legacy_event) : val := jobj
  ([("title" ~> VStr (le_title e)); ("at" ~> VNum (le_at e))] ++ field_opt "note" (le_note e)).

Definition kind_name (k : kind) : jstr :=
  match k with activity => js "activity" | server => js "server" end.

Definition game_val (g : game) : val := jobj
  ([("id" ~> VStr (g_id g)); ("name" ~> VStr (g_name g)); ("url" ~> VStr (g_url g)); ("kind" ~> VStr (kind_name (g_kind g)))]
   ++ field_opt "note" (g_note g) ++ field_opt "glyph" (g_glyph g)).

Definition overview_val (o : overview) : val := jobj
  ([("blurb" ~> VStr (ov_blurb o)); ("links" ~> VArr (link_val <$> ov_links o))]
   ++ field_opt "glyph" (glyph_name <$> ov_glyph o)
   ++ field_arr "events" event_val (ov_events o)
   ++ match ov_event o with Some e => [("event" ~> legacy_val e)] | None => [] end
   ++ field_arr "games" game_val (ov_games o)).

Definition notice_val (n : notice) : val := jobj
  [("id" ~> VStr (n_id n)); ("text" ~> VStr (n_text n)); ("ts" ~> VNum (n_ts n)); ("author" ~> VStr (n_author n))].

Definition offer_val (o : offer) : val := jobj
  ([("id" ~> VStr (o_id o)); ("text" ~> VStr (o_text o))] ++ field_opt "note" (o_note o)
   ++ [("seats" ~> VNum (o_seats o)); ("ts" ~> VNum (o_ts o)); ("author" ~> VStr (o_author o))]
   ++ match o_takers o with Some l => [("takers" ~> VArr (VStr <$> l))] | None => [] end).

Definition signature_val (s : signature) : val := jobj [("who" ~> VStr (s_who s)); ("at" ~> VNum (s_at s))].

Definition objection_val (o : objection) : val := jobj
  [("who" ~> VStr (ob_who o)); ("why" ~> VStr (ob_why o)); ("at" ~> VNum (ob_at o))].

Definition proposal_val (p : proposal) : val := jobj
  ([("id" ~> VStr (p_id p)); ("handle" ~> VStr (p_handle p))] ++ field_opt "why" (p_why p)
   ++ [("by" ~> VStr (p_by p)); ("at" ~> VNum (p_at p)); ("signatures" ~> VArr (signature_val <$> p_signatures p));
       ("objections" ~> VArr (objection_val <$> p_objections p))]).

Definition rsvp_val (a : rsvp) : val := jobj [("at" ~> VNum (rs_at a)); ("ts" ~> VNum (rs_ts a))].

Definition rsvps_val (l : list (jstr * rsvp)) : obj := (fun kv => (kv.1, rsvp_val kv.2)) <$> l.

Definition metaContent (r : circle) : val := jobj
  [("k" ~> VStr (js "meta")); ("name" ~> c_name r); ("channels" ~> VArr (c_channels r));
   ("voiceChannels" ~> VArr (rooms_of r)); ("chanMeta" ~> VObj (default [] (c_chanMeta r)));
   ("overview" ~> match c_overview r with Some o => overview_val o | None => VNull end);
   ("notices" ~> VArr (notice_val <$> default [] (c_notices r)));
   ("offers" ~> VArr (offer_val <$> default [] (c_offers r)));
   ("proposals" ~> VArr (proposal_val <$> default [] (c_proposals r)));
   ("threshold" ~> match c_threshold r with Some n => VNum n | None => VUndef end);
   ("rsvps" ~> VObj (rsvps_val (default [] (c_rsvps r))))].

(** ** Neat texts: what the normalizers leave as they are *)

Definition tidy (n : nat) (s : jstr) : Prop := trim s = s /\ (length s <= n)%nat.

Lemma clip_trim_tidy n v s : clip_trim n v = Ok s -> tidy n s.
Proof. intros H. split; [|by eapply clip_trim_length]. unfold clip_trim in H. inv_ok. apply trim_idem. Qed.

Lemma tidy_clip_trim n s : tidy n s -> clip_trim n (VStr s) = Ok s.
Proof. intros [Ht Hl]. unfold clip_trim, clip. cbn. unfold slice0. rewrite take_ge by done. by rewrite Ht. Qed.

Lemma short_clip n s : (length s <= n)%nat -> clip n (VStr s) = Ok s.
Proof. intros Hl. unfold clip. cbn. unfold slice0. by rewrite take_ge. Qed.

(** A field that may be absent. *)
Definition opt_val (s : option jstr) : val := match s with Some s => VStr s | None => VUndef end.

Definition tidy_opt (n : nat) (o : option jstr) : Prop := forall s, o = Some s -> tidy n s /\ s <> [].

Lemma tidy_opt_clip n o : tidy_opt n o -> clip_trim n (opt_val o) = Ok (default [] o) /\ opt_text (default [] o) = o.
Proof.
  intros H. destruct o as [s|]; cbn [opt_val default].
  2:{ unfold clip_trim, clip. cbn. unfold slice0. by rewrite take_nil. }
  destruct (H s eq_refl) as [Ht Hn]. split; [by apply tidy_clip_trim|].
  unfold opt_text. cbn. by rewrite (proj2 (is_empty_false s)).
Qed.

Lemma opt_text_tidy n v s : clip_trim n v = Ok s -> tidy_opt n (opt_text s).
Proof. intros H t [-> Hn]%opt_text_Some. split; [by eapply clip_trim_tidy|by apply is_empty_false]. Qed.

(** ** Reading the objects back *)

Lemma link_fields l : (link_val l).["label"] = VStr (l_label l) /\ (link_val l).["url"] = VStr (l_url l).
Proof. destruct l. by vm_compute. Qed.

Lemma event_fields e :
  (event_val e).["id"] = VStr (ev_id e) /\ (event_val e).["title"] = VStr (ev_title e) /\
  (event_val e).["at"] = VNum (ev_at e) /\ (event_val e).["note"] = opt_val (ev_note e) /\
  (event_val e).["gameId"] = opt_val (ev_gameId e).
Proof. destruct e as [? ? ? [?|] [?|]]; by vm_compute. Qed.

Lemma game_fields g :
  (game_val g).["id"] = VStr (g_id g) /\ (game_val g).["name"] = VStr (g_name g) /\
  (game_val g).["url"] = VStr (g_url g) /\ (game_val g).["kind"] = VStr (kind_name (g_kind g)) /\
  (game_val g).["note"] = opt_val (g_note g) /\ (game_val g).["glyph"] = opt_val (g_glyph g).
Proof. destruct g as [? ? ? [] [?|] [?|]]; by vm_compute. Qed.

Lemma notice_fields n :
  (notice_val n).["id"] = VStr (n_id n) /\ (notice_val n).["text"] = VStr (n_text n) /\
  (notice_val n).["ts"] = VNum (n_ts n) /\ (notice_val n).["author"] = VStr (n_author n).
Proof. destruct n. by vm_compute. Qed.

Lemma offer_fields o :
  (offer_val o).["id"] = VStr (o_id o) /\ (offer_val o).["text"] = VStr (o_text o) /\
  (offer_val o).["note"] = opt_val (o_note o) /\ (offer_val o).["seats"] = VNum (o_seats o) /\
  (offer_val o).["ts"] = VNum (o_ts o) /\ (offer_val o).["author"] = VStr (o_author o) /\
  array_or_empty (offer_val o).["takers"] = VStr <$> takers o.
Proof. destruct o as [? ? [?|] ? ? ? [?|]]; by vm_compute. Qed.

Lemma overview_fields o :
  (overview_val o).["blurb"] = VStr (ov_blurb o) /\ (overview_val o).["links"] = VArr (link_val <$> ov_links o) /\
  (overview_val o).["glyph"] = opt_val (glyph_name <$> ov_glyph o) /\
  (overview_val o).["events"] = match ov_events o with [] => VUndef | l => VArr (event_val <$> l) end /\
  (overview_val o).["event"] = match ov_event o with Some e => legacy_val e | None => VUndef end /\
  (overview_val o).["games"] = match ov_games o with [] => VUndef | l => VArr (game_val <$> l) end.
Proof.
  destruct o as [b ls g es e gs]. unfold overview_val. cbn [ov_blurb ov_links ov_glyph ov_events ov_event ov_games].
  generalize (VArr (link_val <$> ls)); intros vls. unfold field_arr.
  destruct es as [|x es]; [|generalize (VArr (event_val <$> x :: es)); intros ves];
  (destruct gs as [|y gs]; [|generalize (VArr (game_val <$> y :: gs)); intros vgs]);
  (destruct g as [g|]; [destruct g|]); (destruct e as [e|]; [generalize (legacy_val e); intros ve|]);
  by vm_compute.
Qed.

(** ** The normalizers give back what is neat *)

Lemma rmap_back {A B} (f : A -> res (option B)) (g : B -> A) (P : B -> Prop) l :
  (forall x, P x -> f (g x) = Ok (Some x)) -> Forall P l -> rmap f (g <$> l) = Ok (Some <$> l).
Proof. intros Hf Hl. induction Hl as [|x l Hx _ IH]; cbn; [done|]. rewrite Hf by done. cbn. rewrite IH. done. Qed.

Lemma somes_Some {A} (l : list A) : somes (Some <$> l) = l.
Proof. induction l as [|x l IH]; cbn; [done|]. by f_equal. Qed.

Lemma rmap_somes_back {A B} (f : A -> res (option B)) (g : B -> A) (P : B -> Prop) l :
  (forall x, P x -> f (g x) = Ok (Some x)) -> Forall P l ->
  (let* ys := rmap f (g <$> l) in Ok (somes ys)) = Ok l.
Proof. intros Hf Hl. rewrite (rmap_back f g P l Hf Hl). cbn [rbind]. by rewrite somes_Some. Qed.

Definition short_id (s : jstr) : Prop := s <> [] /\ (length s <= 40)%nat.

Record notice_neat (now : num) (n : notice) : Prop := {
  nn_id : short_id (n_id n);
  nn_text : tidy NOTICE_MAX (n_text n) /\ n_text n <> [];
  nn_ts : sane_ts (n_ts n) now = n_ts n;
}.

Lemma notice_back now n :
  notice_neat now n -> normalizeNotice (notice_val n) (notice_val n).["author"] now = Ok (Some n).
Proof.
  intros [[Hi Hil] [Ht Htn] Hs]. destruct (notice_fields n) as (E1 & E2 & E3 & E4).
  unfold normalizeNotice. rewrite E1, E2, E3, E4, short_clip, tidy_clip_trim by done. cbn.
  rewrite Hs, !(proj2 (is_empty_false _)) by done. by destruct n.
Qed.

Record offer_neat (now : num) (o : offer) : Prop := {
  on_id : short_id (o_id o);
  on_text : tidy OFFER_MAX (o_text o) /\ o_text o <> [];
  on_note : tidy_opt OFFER_MAX (o_note o);
  on_ts : sane_ts (o_ts o) now = o_ts o;
  on_seats : exists n, o_seats o = int n /\ 0 <= n <= SEATS_MAX /\ Z.of_nat (length (takers o)) <= n;
  on_takers : NoDup (takers o) /\ [] ∉ takers o /\ is_Some (o_takers o);
}.

Lemma clamp_seats_id n : 0 <= n <= SEATS_MAX -> clamp_seats (int n) = int n.
Proof.
  intros Hn. assert (exists k, (k <= 32)%nat /\ n = Z.of_nat k) as (k & Hk & ->)
    by (exists (Z.to_nat n); unfold SEATS_MAX in Hn; lia).
  do 33 (destruct k as [|k]; [by vm_compute|]). lia.
Qed.

Lemma rmap_to_string l : rmap to_string (VStr <$> l) = Ok l.
Proof. induction l as [|x l IH]; cbn; [done|]. by rewrite IH. Qed.

Lemma dedup_str_id l : NoDup l -> dedup_str l = l.
Proof.
  unfold dedup_str. intros Hn. assert (forall acc, NoDup (acc ++ l) ->
    fold_left (fun acc x => if bool_decide (x ∈ acc) then acc else acc ++ [x]) l acc = acc ++ l) as H; [|by apply (H [])].
  clear Hn. induction l as [|x l IH]; intros acc Hn; cbn; [by rewrite app_nil_r|].
  rewrite bool_decide_eq_false_2.
  - rewrite IH; rewrite <- app_assoc; [done|done].
  - intros Hx. apply NoDup_app in Hn as (_ & Hd & _). apply (Hd x Hx). by left.
Qed.

Lemma slice_num_all {A} (l : list A) n : Z.of_nat (length l) <= n -> slice_num l (int n) = l.
Proof.
  intros Hl. unfold slice_num, int. rewrite Z.div_mul by (pose proof scale_pos; lia). apply take_ge. lia.
Qed.

Lemma offer_back now o : offer_neat now o -> normalizeOffersItem now (offer_val o) = Ok (Some o).
Proof.
  intros [[Hi Hil] [Ht Htn] Ho Hs (n & En & Hn & Hl) (Hd & Hne & Hsome)].
  destruct (offer_fields o) as (E1 & E2 & E3 & E4 & E5 & E6 & E7).
  destruct (tidy_opt_clip _ _ Ho) as [Ec Eo].
  unfold normalizeOffersItem, normalizeOffer. rewrite E1, E2, E3, E4, E5, E6, E7, Ec, short_clip, tidy_clip_trim by done.
  cbn [rbind not_an_object]. change (not_an_object (offer_val o)) with false. cbn [rbind to_number].
  rewrite Hs, !(proj2 (is_empty_false _)) by done. cbn. rewrite rmap_to_string. cbn.
  rewrite dedup_str_id by done. rewrite take_ge by (unfold SEATS_MAX in *; lia).
  rewrite filter_all by (intros x Hx; apply is_empty_false; by intros ->).
  assert (clamp_seats (o_seats o) = o_seats o) as -> by (rewrite En; by apply clamp_seats_id).
  rewrite Eo. do 2 f_equal. destruct (ntruthy (o_seats o)) eqn:Etr.
  - rewrite En, slice_num_all by done. rewrite <- En. unfold set_takers, takers. destruct o as [? ? ? ? ? ? [tk|]]; [done|by destruct Hsome].
  - assert (takers o = []) as E0.
    { apply length_zero_iff_nil. rewrite En in Etr. unfold int in Etr. cbn in Etr.
      apply negb_false_iff, Z.eqb_eq in Etr. pose proof scale_pos. nia. }
    unfold set_takers, takers in *. destruct o as [? ? ? ? ? ? [tk|]]; [cbn in *; by subst|by destruct Hsome].
Qed.

(** *** The home base *)

Record event_neat (e : event) : Prop := {
  en_id : tidy 40 (ev_id e) /\ ev_id e <> [];
  en_title : tidy 120 (ev_title e) /\ ev_title e <> [];
  en_at : nfinite (ev_at e) = true /\ (ev_at e <=ₙ Fin 0) = false;
  en_note : tidy_opt 280 (ev_note e);
  en_gameId : tidy_opt 40 (ev_gameId e);
}.

Lemma event_back e : event_neat e -> normalizeEvent (event_val e) = Ok (Some e).
Proof.
  intros [[Hi Hin] [Ht Htn] [Hf Hp] Hn Hg]. destruct (event_fields e) as (E1 & E2 & E3 & E4 & E5).
  destruct (tidy_opt_clip _ _ Hn) as [En On], (tidy_opt_clip _ _ Hg) as [Eg Og].
  unfold normalizeEvent. change (not_an_object (event_val e)) with false.
  rewrite E1, E2, E3, E4, E5, En, Eg, !tidy_clip_trim by done. cbn.
  rewrite Hf, Hp, !(proj2 (is_empty_false _)) by done. cbn. rewrite On, Og. by destruct e.
Qed.

Lemma collect_back l out :
  Forall event_neat l -> NoDup (ev_id <$> out ++ l) -> (length (out ++ l) <= EVENTS_MAX)%nat ->
  collect_events (event_val <$> l) out = Ok (out ++ l).
Proof.
  revert out. induction l as [|e l IH]; intros out Hl Hn Hm; cbn [fmap list_fmap collect_events]; [by rewrite app_nil_r|].
  apply Forall_cons in Hl as [He Hl]. rewrite event_back by done. cbn [rbind]. rewrite bool_decide_eq_false_2.
  2:{ rewrite fmap_app in Hn. apply NoDup_app in Hn as (_ & Hd & _). intros Hx. apply (Hd _ Hx). by left. }
  rewrite length_app in *. cbn [length] in *. destruct (EVENTS_MAX <=? length out + 1)%nat eqn:E.
  - apply Nat.leb_le in E. destruct l; [done|cbn in Hm; lia].
  - rewrite IH; rewrite <- ?app_assoc; try done. rewrite length_app. cbn. lia.
Qed.

Record game_neat (g : game) : Prop := {
  gn_id : short_id (g_id g);
  gn_name : tidy GAME_NAME_MAX (g_name g) /\ g_name g <> [];
  gn_url : tidy GAME_URL_MAX (g_url g) /\ g_url g <> [];
  gn_src : g_kind g = activity -> activitySrc (g_url g) <> None;
  gn_note : tidy_opt GAME_NOTE_MAX (g_note g);
  gn_glyph : tidy_opt 4 (g_glyph g);
}.

Lemma tidy_opt_glyph o : tidy_opt 4 o ->
  exists s, text_of (opt_val o) = Ok s /\ opt_text (slice0 4 (trim s)) = o.
Proof.
  intros H. destruct o as [s|]; [|by exists []]. destruct (H s eq_refl) as [[Ht Hl] Hn]. exists s. split; [done|].
  rewrite Ht. unfold slice0. rewrite take_ge by done. unfold opt_text. by rewrite (proj2 (is_empty_false s)).
Qed.

Lemma game_back g : game_neat g -> normalizeGame (game_val g) = Ok (Some g).
Proof.
  intros [[Hi Hil] [Hm Hmn] [Hu Hun] Hs Hn Hg]. destruct (game_fields g) as (E1 & E2 & E3 & E4 & E5 & E6).
  destruct (tidy_opt_clip _ _ Hn) as [En On], (tidy_opt_glyph _ Hg) as (gl & Eg & Og).
  unfold normalizeGame. change (not_an_object (game_val g)) with false.
  rewrite E1, E2, E3, E4, E5, E6, En, Eg, short_clip, !tidy_clip_trim by done. cbn [rbind].
  assert (normalize_kind (VStr (kind_name (g_kind g))) = g_kind g) as -> by by destruct (g_kind g).
  rewrite !(proj2 (is_empty_false _)) by done. cbn [orb]. rewrite Og, On.
  destruct (bool_decide (g_kind g = activity)) eqn:Ek; [|by destruct g].
  apply bool_decide_eq_true in Ek. rewrite (bool_decide_eq_false_2 (activitySrc _ = None)) by auto. by destruct g.
Qed.

Record overview_neat (o : overview) : Prop := {
  vn_page : page_ok o;
  vn_blurb : trim (ov_blurb o) = ov_blurb o;
  vn_links : Forall (fun l => trim (l_label l) = l_label l /\ trim (l_url l) = l_url l) (ov_links o);
  vn_events : Forall event_neat (ov_events o) /\ (ov_events o = [] -> ov_event o = None);
  vn_games : Forall game_neat (ov_games o);
  vn_some : ov_blurb o <> [] \/ ov_links o <> [] \/ ov_events o <> [] \/ ov_games o <> [] \/ ov_glyph o <> None;
}.

(** The mirror for older clients is chosen anew by every reader. *)
Definition remirror (now : num) (o : overview) : overview :=
  {| ov_blurb := ov_blurb o; ov_links := ov_links o; ov_glyph := ov_glyph o; ov_events := ov_events o;
     ov_event := legacyEventMirror (ov_events o) now; ov_games := ov_games o |}.

Lemma link_back l :
  (length (l_label l) <= 120)%nat /\ (0 < length (l_url l) <= 2048)%nat ->
  trim (l_label l) = l_label l /\ trim (l_url l) = l_url l -> normalizeLink (link_val l) = Ok l.
Proof.
  intros [H1 [_ H2]] [H3 H4]. destruct (link_fields l) as [E1 E2]. unfold normalizeLink.
  rewrite E1, E2, !tidy_clip_trim by done. by destruct l.
Qed.

Lemma links_back o : overview_neat o ->
  rmap normalizeLink (take LINKS_MAX (link_val <$> ov_links o)) = Ok (ov_links o) /\
  filter (fun l => is_empty (l_url l) = false) (ov_links o) = ov_links o.
Proof.
  intros [[_ [Hm Hl] _ _ _] _ Ht _ _ _]. rewrite Forall_forall in Hl, Ht. split.
  - rewrite take_ge by by rewrite length_fmap. apply rmap_Ok_Forall2, Forall2_fmap_l, Forall_Forall2_diag, Forall_forall.
    intros l H. apply link_back; auto.
  - apply filter_all. intros l H%Hl. apply is_empty_false. destruct (l_url l); [cbn in H; lia|done].
Qed.

Lemma schedule_back o : overview_neat o ->
  normalizeEvents ((overview_val o).["events"] ⁇
    (if truthy (overview_val o).["event"] then VArr [(overview_val o).["event"]] else VArr [])) = Ok (ov_events o).
Proof.
  intros [[_ _ [Hok Hn Hm Hs] _ _] _ _ [He Hev] _ _]. destruct (overview_fields o) as (_ & _ & _ & E4 & E5 & _).
  rewrite E4, E5. destruct (ov_events o) as [|e es] eqn:Eo.
  - rewrite Hev by done. done.
  - cbn [coalesce nullish]. unfold normalizeEvents. cbn [array_or_empty]. rewrite collect_back; try done.
    cbn [rbind app]. by rewrite soonest_first_id.
Qed.

Lemma shelf_back o : overview_neat o -> normalizeGames (overview_val o).["games"] = Ok (ov_games o).
Proof.
  intros [[_ _ _ [Hm _] _] _ _ _ Hg _]. destruct (overview_fields o) as (_ & _ & _ & _ & _ & ->).
  unfold normalizeGames. destruct (ov_games o) as [|g gs] eqn:Eg; [done|]. cbn [array_or_empty].
  rewrite take_ge by by rewrite length_fmap. apply (rmap_somes_back _ _ game_neat); [apply game_back|done].
Qed.

Lemma glyph_back o : ov_glyph o <> Some DEFAULT_GLYPH ->
  (if bool_decide (normalizeGlyph (overview_val o).["glyph"] = DEFAULT_GLYPH) then None
   else Some (normalizeGlyph (overview_val o).["glyph"])) = ov_glyph o.
Proof.
  destruct (overview_fields o) as (_ & _ & -> & _). by destruct (ov_glyph o) as [[]|].
Qed.

Lemma overview_back now o : overview_neat o ->
  normalizeOverview (overview_val o) now = Ok (Some (remirror now o)).
Proof.
  intros H. pose proof (links_back o H) as [El Ef]. pose proof (schedule_back o H) as Ee. pose proof (shelf_back o H) as Eg.
  destruct H as [[Hb _ _ _ Hg] Ht _ _ _ Hs]. pose proof (glyph_back o Hg) as Ey.
  unfold normalizeOverview. change (not_an_object (overview_val o)) with false. cbn [orb].
  destruct (overview_fields o) as (E1 & E2 & _). rewrite E1, E2. cbn [array_or_empty].
  rewrite El, Ee. cbn [rbind]. rewrite Eg. cbn [rbind]. rewrite Ef, Ey.
  unfold slice0. rewrite take_ge by done. rewrite Ht.
  assert (is_empty (ov_blurb o) && bool_decide (ov_links o = []) && bool_decide (ov_events o = [])
          && bool_decide (ov_games o = []) && bool_decide (ov_glyph o = None) = false) as ->; [|done].
  unfold is_empty. rewrite !andb_false_iff, !bool_decide_eq_false. tauto.
Qed.

(** ** The text of a snapshot *)

(** What is printed: a threshold that is [undefined] is left out. *)
Definition sent_meta (r : circle) : val := jobj
  ([("k" ~> VStr (js "meta")); ("name" ~> c_name r); ("channels" ~> VArr (c_channels r));
    ("voiceChannels" ~> VArr (rooms_of r)); ("chanMeta" ~> VObj (default [] (c_chanMeta r)));
    ("overview" ~> match c_overview r with Some o => overview_val o | None => VNull end);
    ("notices" ~> VArr (notice_val <$> default [] (c_notices r)));
    ("offers" ~> VArr (offer_val <$> default [] (c_offers r)));
    ("proposals" ~> VArr (proposal_val <$> default [] (c_proposals r)))]
   ++ match c_threshold r with Some n => [("threshold" ~> VNum n)] | None => [] end
   ++ [("rsvps" ~> VObj (rsvps_val (default [] (c_rsvps r))))]).

Lemma metaContent_text r : stringify (metaContent r) = stringify (sent_meta r).
Proof.
  unfold metaContent, sent_meta, jobj. cbn [stringify]. f_equal.
  destruct (c_threshold r) as [n|]; cbn [app fmap list_fmap fst snd keep_members unprintable]; [done|].
  destruct (c_overview r); done.
Qed.

Lemma meta_fields r :
  (sent_meta r).["k"] = VStr (js "meta") /\ (sent_meta r).["name"] = c_name r /\
  (sent_meta r).["channels"] = VArr (c_channels r) /\ (sent_meta r).["voiceChannels"] = VArr (rooms_of r) /\
  (sent_meta r).["chanMeta"] = VObj (default [] (c_chanMeta r)) /\
  (sent_meta r).["overview"] = match c_overview r with Some o => overview_val o | None => VNull end /\
  (sent_meta r).["notices"] = VArr (notice_val <$> default [] (c_notices r)) /\
  (sent_meta r).["offers"] = VArr (offer_val <$> default [] (c_offers r)) /\
  (sent_meta r).["rsvps"] = VObj (rsvps_val (default [] (c_rsvps r))).
Proof.
  unfold sent_meta. generalize (VArr (rooms_of r)), (VObj (default [] (c_chanMeta r))),
    (match c_overview r with Some o => overview_val o | None => VNull end),
    (VArr (notice_val <$> default [] (c_notices r))), (VArr (offer_val <$> default [] (c_offers r))),
    (VArr (proposal_val <$> default [] (c_proposals r))), (VObj (rsvps_val (default [] (c_rsvps r)))).
  intros. destruct (c_threshold r); by vm_compute.
Qed.

Lemma meta_dispatched `{CaseFold} r j sender ctx :
  applyEnvelope j sender (sent_meta r) ctx =
    match applyMeta (sent_meta r) (ctx_dateNow ctx) (j, []) with
    | (Ok _, (j', es)) => (j', Ok es)
    | (Throw e, (j', _)) => (j', Throw e)
    end.
Proof.
  destruct (meta_fields r) as [Ek _]. unfold applyEnvelope, reduce, adminRequirement, dispatch, is_kind. rewrite Ek.
  reflexivity.
Qed.

(** ** What a joiner makes of it *)

Lemma dedup_id l : distinct l -> dedup l = l.
Proof.
  intros Hd. assert (forall acc, distinct (acc ++ l) -> dedup_from l acc = acc ++ l) as Hg; [|by apply (Hg [])].
  clear Hd. induction l as [|x l IH]; intros acc Hd; cbn; [by rewrite app_nil_r|].
  assert (includes acc x = false) as ->.
  { clear IH. induction acc as [|a acc IHa]; [done|]. cbn in Hd. destruct Hd as [Ha Hd].
    rewrite includes_app in Ha. apply orb_false_iff in Ha as [_ Ha]. unfold includes in *. cbn in *.
    apply orb_false_iff in Ha as [Ha _]. rewrite IHa by done. by rewrite same_value_sym, Ha. }
  rewrite IH; by rewrite <- app_assoc.
Qed.

Record rsvps_neat (l : list (jstr * rsvp)) : Prop := {
  rn_few : (length l <= 64)%nat;
  rn_handles : Forall (fun kv => (length kv.1 <= 64)%nat /\ kv.1 <> js "__proto__") l;
  rn_times : Forall (fun kv => nfinite (rs_at kv.2) = true /\ ntruthy (rs_ts kv.2) = true) l;
  rn_keys : NoDup l.*1 /\ StronglySorted (fun a b => key_before b.1 a.1 = false) l;
}.

Lemma obj_assign_last {A} (o : list (jstr * A)) k v :
  k <> js "__proto__" -> k ∉ o.*1 -> Forall (fun kv => key_before k kv.1 = false) o -> obj_assign o k v = o ++ [(k, v)].
Proof.
  intros Hp Hk Ho. unfold obj_assign, obj_put. rewrite (proj2 (str_eqb_neq _ _) Hp).
  rewrite (proj2 (obj_get_None o k)) by done. cbn. by apply obj_add_last.
Qed.

Lemma sorted_before {A} (R : A -> A -> Prop) (l1 l2 : list A) x :
  StronglySorted R (l1 ++ x :: l2) -> Forall (fun a => R a x) l1.
Proof.
  induction l1 as [|a l1 IH]; cbn; intros Hs; [done|]. apply StronglySorted_inv in Hs as [Hs Ha].
  rewrite Forall_app, Forall_cons in Ha. constructor; [tauto|auto].
Qed.

Lemma rsvps_back now l acc :
  Forall (fun kv => (length kv.1 <= 64)%nat /\ kv.1 <> js "__proto__") l ->
  Forall (fun kv => nfinite (rs_at kv.2) = true /\ ntruthy (rs_ts kv.2) = true) l ->
  NoDup (acc ++ l).*1 -> StronglySorted (fun a b => key_before b.1 a.1 = false) (acc ++ l) ->
  reconcileRsvps now (rsvps_val l) acc = Ok (acc ++ l).
Proof.
  revert acc. induction l as [|[h a] l IH]; intros acc Hh Ht Hn Hs; cbn [rsvps_val fmap list_fmap reconcileRsvps];
    [by rewrite app_nil_r|].
  apply Forall_cons in Hh as [[Hl Hp] Hh], Ht as [[Hf Htr] Ht]. cbn [fst snd] in *.
  assert ((rsvp_val a).["at"] = VNum (rs_at a) /\ (rsvp_val a).["ts"] = VNum (rs_ts a)) as [E1 E2] by by destruct a; vm_compute.
  unfold read_rsvp. rewrite E1, E2. cbn [to_number rbind]. rewrite Hf. cbn [negb rbind]. rewrite Htr.
  unfold slice0. rewrite take_ge by done. rewrite obj_assign_last; [|done| |].
  - change (reconcileRsvps now (rsvps_val l) (acc ++ [(h, {| rs_at := rs_at a; rs_ts := rs_ts a |})]) = Ok (acc ++ (h, a) :: l)).
    assert ({| rs_at := rs_at a; rs_ts := rs_ts a |} = a) as -> by by destruct a.
    rewrite IH; rewrite <- ?app_assoc; done.
  - rewrite fmap_app in Hn. apply NoDup_app in Hn as (_ & Hd & _). intros Hx. apply (Hd h Hx). by left.
  - by apply (sorted_before _ _ _ _ Hs).
Qed.

(** A record as the reducer and the controller keep it, at the reader's clock. *)
Record shape_neat (now : num) (r : circle) : Prop := {
  sh_name : nullish (c_name r) = false;
  sh_channels : c_channels r <> [] /\ distinct (c_channels r);
  sh_rooms : rooms_of r <> [] /\ distinct (rooms_of r);
  sh_overview : forall o, c_overview r = Some o -> overview_neat o;
  sh_notices : Forall (notice_neat now) (default [] (c_notices r)) /\ board_ok NOTICES_MAX (default [] (c_notices r));
  sh_offers : Forall (offer_neat now) (default [] (c_offers r)) /\ board_ok OFFERS_MAX (default [] (c_offers r));
  sh_rsvps : rsvps_neat (default [] (c_rsvps r));
}.

(** The whole snapshot, read back. *)
Definition snapshot_of (now : num) (r : circle) : snapshot :=
  {| sn_channels := Some (c_channels r); sn_voiceChannels := Some (rooms_of r);
     sn_overview := Some (remirror now <$> c_overview r); sn_chanMeta := Some (default [] (c_chanMeta r));
     sn_offers := Some (default [] (c_offers r)); sn_notices := Some (default [] (c_notices r));
     sn_rsvps := Some (default [] (c_rsvps r)) |}.

Lemma nonempty_array_some l : l <> [] -> nonempty_array (VArr l) = Some l.
Proof. by destruct l. Qed.

Lemma board_back {A} `{Posted A} cap l : board_ok cap l -> take cap (newest_first l) = l.
Proof. intros Hb. rewrite (newest_first_id cap) by done. apply take_ge, Hb. Qed.

Lemma reconcile_back now r : shape_neat now r -> reconcileMeta (sent_meta r) now = Ok (snapshot_of now r).
Proof.
  intros [_ [Hc Hcd] [Hv Hvd] Ho [Hn Hnb] [Hf Hfb] [R1 R2 R3 [R4 R5]]].
  destruct (meta_fields r) as (_ & _ & E1 & E2 & E3 & E4 & E5 & E6 & E7).
  unfold reconcileMeta. rewrite E1, E2, E3, E4, E5, E6, E7, !nonempty_array_some by done.
  assert (match (match c_overview r with Some o => overview_val o | None => VNull end) with
          | VUndef => Ok None
          | v => let* o := normalizeOverview v now in Ok (Some o)
          end = Ok (Some (remirror now <$> c_overview r))) as ->.
  { destruct (c_overview r) as [o|] eqn:Eo; [|done]. pose proof (overview_back now o (Ho o eq_refl)) as Hb.
    assert (exists kv, overview_val o = VObj kv) as [kv Ekv] by (eexists; reflexivity). rewrite Ekv in *. by rewrite Hb. }
  cbn [rbind]. unfold normalizeOffers, reconcileNotices. cbn [array_or_empty].
  rewrite (rmap_back _ _ (offer_neat now)) by (apply offer_back || done). cbn [rbind].
  rewrite (rmap_back _ notice_val (notice_neat now)) by (apply notice_back || done). cbn [rbind].
  rewrite !somes_Some, !board_back by done.
  change (not_an_object (VObj (rsvps_val (default [] (c_rsvps r))))) with false. cbn [own_props].
  rewrite take_ge by (unfold rsvps_val; by rewrite length_fmap).
  rewrite (rsvps_back now _ []) by done. cbn [rbind fmap option_fmap option_map].
  rewrite !dedup_id by done. reflexivity.
Qed.

Lemma joiner_state `{CaseFold} r j sender ctx :
  c_pendingMetaSync j = true -> shape_neat (ctx_dateNow ctx) r ->
  exists j' es, applyEnvelope j sender (sent_meta r) ctx = (j', Ok es) /\
    j' = (let a := adopt (snapshot_of (ctx_dateNow ctx) r) (set_pendingMetaSync (set_name j (c_name r)) false) in
          let b := set_deletedChannels a (drop_existing (c_deletedChannels a) (c_channels a)) in
          set_deletedVoice b (drop_existing (c_deletedVoice b) (default [] (c_voiceChannels b)))).
Proof.
  intros Hp Hs. rewrite meta_dispatched. unfold applyMeta, mbind, modify, record, emit, lift. cbn [fst snd].
  destruct (meta_fields r) as (_ & En & _). rewrite En. cbn [c_pendingMetaSync set_name]. rewrite Hp.
  cbn [fst snd]. rewrite reconcile_back by done. unfold coalesce. rewrite (sh_name _ _ Hs). do 2 eexists. split; reflexivity.
Qed.

Lemma meta_parsed r : jsonable (sent_meta r) -> enumerated (sent_meta r) ->
  parseEnvelope (stringify (metaContent r)) = sent_meta r.
Proof.
  intros Hj He. unfold parseEnvelope. rewrite metaContent_text, json_parse_stringify by done.
  by apply rebuild_enumerated.
Qed.

(** C13: a joiner rebuilds the circle from the first snapshot it reads.  The
    text of [metaContent] leaves a device that was just added with the
    sender's name, rooms, room keys, home base (its mirror for older clients
    chosen anew), noticeboard, offers and answers, and with no tombstone for a
    room that exists.  The sender's record is one as the normalizers leave it,
    read at the joiner's clock ([shape_neat]): at least one text and one voice
    room and none twice, boards within their caps and newest first, no offer with
    more takers than seats, no time that lies too far ahead, at most 64 answers,
    all of it values that JSON carries as they are; an empty list of voice rooms,
    for one, is not taken over. *)
Theorem joiner_rebuilds_the_circle `{CaseFold} r j sender ctx :
  c_pendingMetaSync j = true -> shape_neat (ctx_dateNow ctx) r ->
  jsonable (sent_meta r) -> enumerated (sent_meta r) ->
  exists j' es, applyEnvelope j sender (parseEnvelope (stringify (metaContent r))) ctx = (j', Ok es) /\
    c_name j' = c_name r /\ c_channels j' = c_channels r /\ rooms_of j' = rooms_of r /\
    (forall ch, chanMeta_at j' ch = match c_chanMeta r with Some _ => chanMeta_at r ch | None => prop (VObj []) ch end) /\
    c_overview j' = remirror (ctx_dateNow ctx) <$> c_overview r /\
    default [] (c_notices j') = default [] (c_notices r) /\ default [] (c_offers j') = default [] (c_offers r) /\
    default [] (c_rsvps j') = default [] (c_rsvps r) /\
    (forall ch, includes (c_channels j') ch = true -> in_opt (c_deletedChannels j') ch = false) /\
    c_pendingMetaSync j' = false.
Proof.
  intros Hp Hs Hj He. rewrite meta_parsed by done.
  destruct (joiner_state r j sender ctx Hp Hs) as (j' & es & E & ->). do 2 eexists. split; [exact E|].
  split_and!; try reflexivity.
  - intros ch. unfold chanMeta_at. cbn. by destruct (c_chanMeta r).
  - intros ch Hc. unfold in_opt. cbn in Hc |- *. destruct (c_deletedChannels j) as [[|x l]|]; [done| |done].
    cbn [drop_existing default]. apply includes_false. intros y Hy.
    apply list_elem_of_filter in Hy as [Hy _]. destruct (same_value y ch) eqn:E2; [|done].
    apply same_value_eq in E2 as ->. congruence.
Qed.

(** The ledger of proposals and the threshold travel in the snapshot and are
    not taken from it: a joiner keeps what it had of them. *)
Theorem joiner_misses_the_ledger `{CaseFold} r j sender ctx :
  c_pendingMetaSync j = true -> shape_neat (ctx_dateNow ctx) r ->
  exists j' es, applyEnvelope j sender (sent_meta r) ctx = (j', Ok es) /\
    c_proposals j' = c_proposals j /\ c_threshold j' = c_threshold j.
Proof.
  intros Hp Hs. destruct (joiner_state r j sender ctx Hp Hs) as (j' & es & E & ->). do 2 eexists. split; [exact E|].
  split; reflexivity.
Qed.

(** ** Witnesses *)

Fixpoint jsonableb (v : val) : bool :=
  match v with
  | VNull | VBool _ => true
  | VNum (Fin z) => (z mod scale =? 0) && (Z.abs (z / scale) <? 2 ^ 53)
  | VNum _ => false
  | VStr s => forallb (fun c => N.ltb c 65536) s
  | VArr l => forallb jsonableb l
  | VObj o => bool_decide (NoDup o.*1) && forallb (fun kv => forallb (fun c => N.ltb c 65536) kv.1 && jsonableb kv.2) o
  | VUndef | VFun _ => false
  end.

Lemma units_forallb s : forallb (fun c => N.ltb c 65536) s = true -> Forall unit16 s.
Proof. rewrite forallb_forall, Forall_forall. intros H c Hc. by apply N.ltb_lt, H, list_elem_of_In. Qed.

Lemma jsonableb_sound v : jsonableb v = true -> jsonable v.
Proof.
  induction v as [| |b|a|s|l IH|o IH|g] using val_ind'; try done; cbn [jsonableb]; intros Hb.
  - destruct a as [|?|z]; try done. apply andb_true_iff in Hb as [Hm Ha]. cbn. exists (z / scale).
    pose proof scale_pos. split; [|by apply Z.ltb_lt]. unfold int. f_equal. apply Z.eqb_eq in Hm.
    pose proof (Z.div_mod z scale ltac:(lia)). lia.
  - by apply units_forallb.
  - apply jsonable_arr. rewrite Forall_forall in IH |- *. intros x Hx. apply IH; [done|].
    rewrite forallb_forall in Hb. by apply Hb, list_elem_of_In.
  - apply andb_true_iff in Hb as [Hn Hb]. apply jsonable_obj. split; [by apply bool_decide_eq_true in Hn|].
    rewrite Forall_forall in IH |- *. intros kv Hkv. rewrite forallb_forall in Hb.
    specialize (Hb kv (proj1 (list_elem_of_In _ _) Hkv)). apply andb_true_iff in Hb as [Hk Hv].
    split; [by apply units_forallb|by apply IH].
Qed.

Fixpoint keys_in_order (o : obj) : bool :=
  match o with
  | [] => true
  | (k, _) :: r => forallb (fun kv => negb (key_before kv.1 k)) r && keys_in_order r
  end.

Fixpoint enumeratedb (v : val) : bool :=
  match v with
  | VArr l => forallb enumeratedb l
  | VObj o => keys_in_order o && forallb (fun kv => enumeratedb kv.2) o
  | _ => true
  end.

Lemma keys_in_order_sound o : keys_in_order o = true -> StronglySorted (fun a b => key_before b.1 a.1 = false) o.
Proof.
  induction o as [|[k x] o IH]; cbn; intros Hk; constructor; apply andb_true_iff in Hk as [Hf Hk]; [auto|].
  apply Forall_forall. intros kv Hkv. rewrite forallb_forall in Hf. apply negb_true_iff, Hf. by apply list_elem_of_In.
Qed.

Lemma enumeratedb_sound v : enumeratedb v = true -> enumerated v.
Proof.
  induction v as [| |b|a|s|l IH|o IH|g] using val_ind'; try done; cbn [enumeratedb enumerated]; intros Hb.
  - induction l as [|x l IHl]; [done|]. apply Forall_cons in IH as [Hx IH]. cbn [forallb] in Hb. apply andb_true_iff in Hb as [H1 H2].
    split; [by apply Hx|by apply IHl].
  - apply andb_true_iff in Hb as [Hk Hb]. split; [by apply keys_in_order_sound|]. clear Hk.
    induction o as [|[k x] o IHo]; [done|]. apply Forall_cons in IH as [Hx IH]. cbn [forallb snd] in Hb, Hx. apply andb_true_iff in Hb as [H1 H2].
    split; [by apply Hx|by apply IHo].
Qed.

Definition night : event :=
  {| ev_id := js "e1"; ev_title := js "game night"; ev_at := int 9000; ev_note := None; ev_gameId := Some (js "chess") |}.

Definition club : circle :=
  {| c_id := js "g"; c_name := VStr (js "club"); c_channels := [VStr (js "general"); VStr (js "plans")];
     c_voiceChannels := None; c_deletedChannels := None; c_deletedVoice := None;
     c_chanMeta := Some [(js "general", jobj [("hid" ~> VStr (js "h")); ("hkey" ~> VStr (js "k"))])];
     c_overview := Some {| ov_blurb := js "hello"; ov_links := []; ov_glyph := Some photo; ov_events := [night];
                           ov_event := None; ov_games := [] |};
     c_notices := Some [ {| n_id := js "n1"; n_text := js "bring snacks"; n_ts := int 500; n_author := js "ada" |} ];
     c_offers := Some [ {| o_id := js "o1"; o_text := js "lift"; o_note := None; o_seats := int 3; o_ts := int 600;
                           o_author := js "ada"; o_takers := Some [js "bob"] |} ];
     c_proposals := None; c_threshold := Some (int 2);
     c_rsvps := Some [(js "bob", {| rs_at := int 9000; rs_ts := int 700 |})];
     c_members := None; c_pendingMetaSync := false |}.

Definition newcomer : circle :=
  {| c_id := js "g"; c_name := VStr (js "g"); c_channels := [VStr (js "general")]; c_voiceChannels := None;
     c_deletedChannels := Some [VStr (js "plans"); VStr (js "old")]; c_deletedVoice := None; c_chanMeta := None;
     c_overview := None; c_notices := None; c_offers := None; c_proposals := None; c_threshold := None;
     c_rsvps := None; c_members := None; c_pendingMetaSync := true |}.

Definition later : context := {| ctx_isAdmin := None; ctx_now := int 1000; ctx_inCall := None; ctx_dateNow := int 1000 |}.

#[local] Instance ascii_case : CaseFold := fun s => ascii_lower <$> s.

Lemma tidy_check n s : bool_decide (trim s = s) && (length s <=? n)%nat = true -> tidy n s.
Proof. intros [H1 H2]%andb_true_iff. split; [by apply bool_decide_eq_true in H1|by apply Nat.leb_le]. Qed.

Ltac concretely :=
  repeat match goal with
  | |- _ /\ _ => split
  | |- short_id _ => split
  | |- tidy _ _ => apply tidy_check; vm_compute; reflexivity
  | |- (_ <= _)%nat => apply Nat.leb_le; vm_compute; reflexivity
  | |- (_ < _)%nat => apply Nat.ltb_lt; vm_compute; reflexivity
  | |- NoDup _ => apply (bool_decide_eq_true_1 _); vm_compute; reflexivity
  | |- _ <> _ => done
  | |- tidy_opt _ _ => intros ? [=]; subst
  | |- Forall _ _ => constructor
  | |- StronglySorted _ _ => constructor
  end; try done.

Lemma night_neat : event_neat night /\ event_ok night.
Proof.
  split; split; cbn; concretely.
  - exists (9000 * scale). done.
  - intros n [= <-]. concretely.
Qed.

Lemma club_page : forall o, c_overview club = Some o -> overview_neat o.
Proof.
  intros o [= <-]. destruct night_neat as [Hn Ho].
  split; cbn [ov_blurb ov_links ov_events ov_event ov_games ov_glyph]; concretely; [|by left].
  split; cbn [ov_blurb ov_links ov_events ov_event ov_games ov_glyph]; concretely.
  split; cbn; concretely.
Qed.

Lemma club_neat : shape_neat (int 1000) club.
Proof.
  split; [done|split; [done|vm_compute; tauto]|split; [done|vm_compute; tauto]|exact club_page|..];
    cbn [c_notices c_offers c_rsvps club default].
  - split; [|split]; concretely. split; concretely.
  - split; [|split]; concretely. split; concretely.
    + exists 3. concretely.
    + intros Hx. cbn in Hx. apply list_elem_of_singleton in Hx. done.
  - split; concretely.
Qed.

Lemma joiner_rebuilds_the_circle_witness :
  exists j' es, applyEnvelope newcomer (js "ada") (parseEnvelope (stringify (metaContent club))) later = (j', Ok es) /\
    c_channels j' = c_channels club /\ default [] (c_offers j') = default [] (c_offers club).
Proof.
  destruct (joiner_rebuilds_the_circle club newcomer (js "ada") later eq_refl club_neat) as (j' & es & E & _ & Hc & _ & _ & _ & _ & Ho & _).
  - apply jsonableb_sound. vm_compute. reflexivity.
  - apply enumeratedb_sound. vm_compute. reflexivity.
  - exists j', es. split; [exact E|]. split; [exact Hc|exact Ho].
Defined.
End Snapshot.
