(* ===== verification/Actions.v ===== *)
(** * What a member does to a circle (client/src/lib/controller.js: rooms,
      channel settings, the boards, the ledger)

    An action changes the actor's own record and sends envelopes; every other
    member applies those with the reducer.  The theorems here say that the two
    agree: reading what the actor sent leaves the reader with the actor's
    record.

    An action is a function of the record; what it does besides is a list of
    outputs in order.  A send the relay refuses ends the action there, with the
    record already changed.  Fresh ids and keys are arguments. *)

From stdpp Require Import base list numbers option strings.
From Stdlib Require Import ZArith NArith Lia Sorting.Sorted.
From S2P Require Import Prelude JsNum JsString JsValue Json Board Games Overview Offers Quorum ChanKeys Envelope Reducer Circles Logs Inbox Snapshot.
Import Logs.Logs Inbox.Inbox Snapshot.Snapshot.
Open Scope Z_scope.

Module Actions.
Local Notation "k ~> v" := (k%string, v) (at level 60).

Inductive out :=
| Send (content : val)
| SystemLine (text : jstr) (channel : option jstr)
| PruneLog (hid : val) (before : num)
| KeepWithin (channel : jstr)                (** [applyRetention] *)
| ForgetLog (channel : jstr)
| RenameLog (from to : jstr)
| LeaveCall
| Admit (id : jstr)                          (** [admitIfCarried] *)
| Persist.

(** ** Names of rooms *)

Definition slug_char (c : N) : bool :=
  ((97 <=? c) && (c <=? 122) || (48 <=? c) && (c <=? 57) || (c =? 45))%N.

(** [replace(/[^a-z0-9-]+/g, '-')]: each run of other characters is one dash. *)
Fixpoint dash_runs (in_run : bool) (s : jstr) : jstr :=
  match s with
  | [] => []
  | c :: r => if slug_char c then c :: dash_runs false r
              else if in_run then dash_runs true r else 45%N :: dash_runs true r
  end.

Fixpoint strip_dashes (s : jstr) : jstr :=
  match s with c :: r => if N.eqb c 45 then strip_dashes r else s | [] => [] end.

Section actions.
Context `{CaseFold}.

Definition room_name (channel : jstr) : jstr := dash_runs false (toLowerCase channel).

(** [slugChannel]: and no dash at either end. *)
Definition slugChannel (name : jstr) : jstr := reverse (strip_dashes (reverse (strip_dashes (room_name name)))).

(** ** Rooms *)

Definition createChannel (r : circle) (channel hid hkey : jstr) : circle * list out :=
  let ch := room_name channel in
  if is_empty ch || includes (c_channels r) (VStr ch) then (r, []) else
  let r1 := clearChannelDeleted (push_channel (VStr ch) r) (VStr ch) in
  let r2 := (ensureChannelKeys r1 ch hid hkey).1 in
  (r2, [Send (jobj [("k" ~> VStr (js "chan")); ("ch" ~> VStr ch)]);
        Send (jobj [("k" ~> VStr (js "chanset")); ("ch" ~> VStr ch); ("meta" ~> chanMeta_at r2 ch)]);
        Send (metaContent r2); Persist]).

Definition createVoiceChannel (r : circle) (channel : jstr) : circle * list out :=
  let ch := room_name channel in
  let rooms := rooms_of r in
  if is_empty ch || includes rooms (VStr ch) then (r, []) else
  let r1 := clearVoiceDeleted (set_voiceChannels r (Some (rooms ++ [VStr ch]))) (VStr ch) in
  (r1, [Send (jobj [("k" ~> VStr (js "vchan")); ("ch" ~> VStr ch)]); Send (metaContent r1); Persist]).

(** [delete] of one channel's settings, when there are any. *)
Definition drop_meta (r : circle) (ch : jstr) : circle :=
  match c_chanMeta r with
  | Some o => if truthy (prop (VObj o) ch) then set_chanMeta r (Some (obj_delete o ch)) else r
  | None => r
  end.

Definition move_meta (r : circle) (from to : jstr) : circle :=
  match c_chanMeta r with
  | Some o => if truthy (prop (VObj o) from)
              then set_chanMeta r (Some (obj_delete (obj_put o to (prop (VObj o) from)) from)) else r
  | None => r
  end.

Definition renameChannel (r : circle) (from to : jstr) : circle * list out :=
  let ch := slugChannel to in
  if is_empty ch || str_eqb ch from || negb (includes (c_channels r) (VStr from)) || includes (c_channels r) (VStr ch)
  then (r, []) else
  let r1 := set_channels r (rename_in (c_channels r) (VStr from) (VStr ch)) in
  let r2 := clearChannelDeleted (markChannelDeleted r1 (VStr from)) (VStr ch) in
  (move_meta r2 from ch,
   [RenameLog from ch; Send (jobj [("k" ~> VStr (js "chan-ren")); ("ch" ~> VStr from); ("to" ~> VStr ch)]);
    SystemLine (js "#" ++ from ++ js " renamed to #" ++ ch) (Some ch); Persist]).

Definition deleteChannel (r : circle) (channel : jstr) : res (circle * list out) :=
  if negb (includes (c_channels r) (VStr channel)) then Ok (r, []) else
  if (length (c_channels r) <=? 1)%nat then Throw OtherError else
  let r1 := set_channels r (filter (fun c => strict_eq c (VStr channel) = false) (c_channels r)) in
  Ok (drop_meta (markChannelDeleted r1 (VStr channel)) channel,
      [ForgetLog channel; Send (jobj [("k" ~> VStr (js "chan-del")); ("ch" ~> VStr channel)]); Persist]).

(** [this.voice?.active] is in this circle's room. *)
Definition in_room (inCall : option (jstr * val)) (r : circle) (room : jstr) : bool :=
  match inCall with Some (srv, c) => str_eqb srv (c_id r) && strict_eq c (VStr room) | None => false end.

Definition renameVoiceChannel (r : circle) (inCall : option (jstr * val)) (from to : jstr) : circle * list out :=
  let rooms := rooms_of r in
  let ch := slugChannel to in
  if is_empty ch || str_eqb ch from || negb (includes rooms (VStr from)) || includes rooms (VStr ch) then (r, []) else
  let r1 := set_voiceChannels r (Some (rename_in rooms (VStr from) (VStr ch))) in
  (clearVoiceDeleted (markVoiceDeleted r1 (VStr from)) (VStr ch),
   (if in_room inCall r from then [LeaveCall] else [])
   ++ [Send (jobj [("k" ~> VStr (js "vchan-ren")); ("ch" ~> VStr from); ("to" ~> VStr ch)]);
       SystemLine (js "voice room " ++ quoted from ++ js " renamed to " ++ quoted ch) None; Persist]).

Definition deleteVoiceChannel (r : circle) (inCall : option (jstr * val)) (channel : jstr) : circle * list out :=
  let rooms := rooms_of r in
  if negb (includes rooms (VStr channel)) then (r, []) else
  let r1 := set_voiceChannels r (Some (filter (fun c => strict_eq c (VStr channel) = false) rooms)) in
  (markVoiceDeleted r1 (VStr channel),
   (if in_room inCall r channel then [LeaveCall] else [])
   ++ [Send (jobj [("k" ~> VStr (js "vchan-del")); ("ch" ~> VStr channel)]);
       SystemLine (js "voice room " ++ quoted channel ++ js " deleted") None; Persist]).

(** ** Channel settings *)

(** [if (v !== undefined) { if (v) meta.k = v; else delete meta.k }]. *)
Definition put_setting (meta : obj) (k : string) (v : val) : obj :=
  match v with
  | VUndef => meta
  | _ => if truthy v then obj_put meta (js k) v else obj_delete meta (js k)
  end.

Definition with_keys (meta : obj) (hid hkey : jstr) : obj :=
  if truthy (VObj meta).["hid"] && truthy (VObj meta).["hkey"] then meta else
  let meta1 := obj_put meta (js "hid") ((VObj meta).["hid"] ⁇ VStr hid) in
  obj_put meta1 (js "hkey") ((VObj meta1).["hkey"] ⁇ VStr hkey).

(** The record, what was done, and how it ended: describing the settings comes
    after the send. *)
Definition setChannelSettings (r : circle) (channel : jstr) (topic retention : val) (hid hkey : jstr) (now : num)
  : circle * list out * res unit :=
  let prev := chanMeta_at r channel ⁇ VObj [] in
  let meta := with_keys (put_setting (put_setting (own_props prev) "topic" topic) "retention" retention) hid hkey in
  let r1 := set_chanMeta r (Some (obj_put (default [] (c_chanMeta r)) channel (VObj meta))) in
  let sent := Send (jobj [("k" ~> VStr (js "chanset")); ("ch" ~> VStr channel); ("meta" ~> VObj meta)]) in
  match describeChanMeta (VObj meta) with
  | Throw e => (r1, [sent], Throw e)
  | Ok d =>
      let line := SystemLine (js "#" ++ channel ++ js " settings changed by you" ++ d) (Some channel) in
      let kept := (VObj meta).["retention"] in
      if truthy (VObj meta).["hid"] && truthy kept && negb (strict_eq kept prev.["retention"])
      then match to_number kept with
           | Throw e => (r1, [sent; line], Throw e)
           | Ok n => (r1, [sent; line; PruneLog (VObj meta).["hid"] (nsub (nfloor (ndiv now (int 1000))) n);
                           KeepWithin channel; Persist], Ok tt)
           end
      else (r1, [sent; line; KeepWithin channel; Persist], Ok tt)
  end.

(** ** The home base, the noticeboard, the offers *)

Definition setOverview (r : circle) (ov : val) (now : num) : res (circle * list out) :=
  let* o := normalizeOverview ov now in
  Ok (set_overview r o,
      [Send (jobj [("k" ~> VStr (js "overview"));
                   ("ov" ~> match o with Some o => overview_val o | None => VNull end)]);
       SystemLine (js "home base updated by you") None; Persist]).

Definition addNotice (me : jstr) (r : circle) (id : jstr) (text : val) (now : num) : res (circle * list out) :=
  let* n := normalizeNotice (jobj [("id" ~> VStr id); ("text" ~> text); ("ts" ~> VNum now)]) (VStr me) now in
  Ok match n with
     | None => (r, [])
     | Some n =>
         (set_notices r (Some (upsertNotice (c_notices r) (Some n))),
          [Send (jobj [("k" ~> VStr (js "notice")); ("op" ~> VStr (js "add"));
                       ("n" ~> jobj [("id" ~> VStr id); ("text" ~> VStr (n_text n)); ("ts" ~> VNum (n_ts n))])]);
           Persist])
     end.

Definition removeNotice (r : circle) (id : jstr) : circle * list out :=
  (set_notices r (Some (without_id (VStr id) (default [] (c_notices r)))),
   [Send (jobj [("k" ~> VStr (js "notice")); ("op" ~> VStr (js "del")); ("id" ~> VStr id)]); Persist]).

Definition addOffer (me : jstr) (r : circle) (id : jstr) (text seats note : val) (now : num) : res (circle * list out) :=
  let* o := normalizeOffer (jobj [("id" ~> VStr id); ("text" ~> text); ("seats" ~> seats); ("note" ~> note);
                                  ("ts" ~> VNum now)]) (VStr me) now in
  Ok match o with
     | None => (r, [])
     | Some o =>
         (set_offers r (Some (upsertOffer (c_offers r) (Some o))),
          [Send (jobj [("k" ~> VStr (js "offer")); ("op" ~> VStr (js "add"));
                       ("o" ~> jobj [("id" ~> VStr id); ("text" ~> VStr (o_text o)); ("note" ~> VStr (default [] (o_note o)));
                                     ("seats" ~> VNum (o_seats o)); ("ts" ~> VNum (o_ts o))])]);
           Persist])
     end.

Definition takeOffer (me : jstr) (r : circle) (id : jstr) (taking : bool) : circle * list out :=
  (set_offers r (Some (applyTake (c_offers r) (VStr id) me taking)),
   [Send (jobj [("k" ~> VStr (js "offer")); ("op" ~> VStr (js "take")); ("id" ~> VStr id); ("taking" ~> VBool taking)]);
    Persist]).

Definition removeOffer (r : circle) (id : jstr) : circle * list out :=
  (set_offers r (Some (without_id (VStr id) (default [] (c_offers r)))),
   [Send (jobj [("k" ~> VStr (js "offer")); ("op" ~> VStr (js "del")); ("id" ~> VStr id)]); Persist]).

Definition rsvp (me : jstr) (r : circle) (at_ : num) (going : bool) (now : num) : circle * list out :=
  let answers := default [] (c_rsvps r) in
  (set_rsvps r (Some (if going then obj_assign answers me {| rs_at := at_; rs_ts := now |} else obj_delete answers me)),
   [Persist; Send (jobj [("k" ~> VStr (js "rsvp")); ("at" ~> VNum at_); ("going" ~> VBool going)])]).

(** ** Who gets in *)

Definition member_count (r : circle) : num := int (Z.of_nat (length (default [] (c_members r)))).

Definition thresholdFor (r : circle) : res num :=
  normalizeThreshold (match c_threshold r with Some n => VNum n | None => VUndef end) (member_count r).

Definition proposeMember (me : jstr) (r : circle) (id : jstr) (handle why : val) (now : num) : res (circle * list out) :=
  let* h := text_of handle in
  let who := toLowerCase (trim h) in
  if is_empty who || bool_decide (who ∈ default [] (c_members r)) then Ok (r, []) else
  let* p := normalizeProposal (jobj [("id" ~> VStr id); ("handle" ~> VStr who); ("why" ~> why); ("at" ~> VNum now)])
              (VStr me) now in
  Ok match p with
     | None => (r, [])
     | Some p =>
         (set_proposals r (Some (upsertProposal (c_proposals r) (Some p))),
          [Send (jobj [("k" ~> VStr (js "quorum")); ("op" ~> VStr (js "propose"));
                       ("p" ~> jobj [("id" ~> VStr id); ("handle" ~> VStr who); ("why" ~> VStr (default [] (p_why p)));
                                     ("at" ~> VNum (p_at p))])]);
           Persist; Admit id])
     end.

Definition signProposal (me : jstr) (r : circle) (id : jstr) (now : num) : circle * list out :=
  (set_proposals r (Some (applySignature (c_proposals r) (VStr id) me now)),
   [Send (jobj [("k" ~> VStr (js "quorum")); ("op" ~> VStr (js "sign")); ("id" ~> VStr id)]); Persist; Admit id]).

Definition objectToProposal (me : jstr) (r : circle) (id : jstr) (why : val) (now : num) : res (circle * list out) :=
  let* ps := applyObjection (c_proposals r) (VStr id) me why now in
  let* w := text_of why in
  Ok (set_proposals r (Some ps),
      [Send (jobj [("k" ~> VStr (js "quorum")); ("op" ~> VStr (js "object")); ("id" ~> VStr id); ("why" ~> VStr w)]);
       Persist]).

Definition withdrawProposal (r : circle) (id : jstr) : circle * list out :=
  (set_proposals r (Some (without_id (VStr id) (default [] (c_proposals r)))),
   [Send (jobj [("k" ~> VStr (js "quorum")); ("op" ~> VStr (js "withdraw")); ("id" ~> VStr id)]); Persist]).

Definition setThreshold (r : circle) (n : val) : res (circle * list out) :=
  let* t := normalizeThreshold n (member_count r) in
  Ok (set_threshold r (Some t), [Send (jobj [("k" ~> VStr (js "threshold")); ("n" ~> VNum t)]); Persist]).

(** [admitIfCarried], up to the add itself: the handle this device adds now. *)
Definition admitIfCarried (me : jstr) (r : circle) (roles : option obj) (id : val) : res (option jstr) :=
  match find_id id (default [] (c_proposals r)) with
  | None => Ok None
  | Some p =>
      let* t := thresholdFor r in
      let members := default [] (c_members r) in
      if negb (isCarried p t members) then Ok None else
      if negb (bool_decide (admitter roles (c_members r) = Some me)) then Ok None else
      if bool_decide (p_handle p ∈ members) then Ok None else Ok (Some (p_handle p))
  end.
End actions.

(** ** Reading what was sent *)

(** What other members apply: the snapshots that follow the creation of a room
    repeat what was already announced. *)
Definition is_snapshot (c : val) : bool := is_kind c "meta".

Definition announced (outs : list out) : list val :=
  omap (fun o => match o with Send c => if is_snapshot c then None else Some c | _ => None end) outs.

Section agreement.
Context `{CaseFold}.

(** Another member's record after each text in turn; [None] when one throws. *)
Fixpoint read_all (r : circle) (sender : jstr) (ctx : context) (sent : list val) : option circle :=
  match sent with
  | [] => Some r
  | c :: l => match applyEnvelope r sender (parseEnvelope (stringify c)) ctx with
              | (r', Ok _) => read_all r' sender ctx l
              | (_, Throw _) => None
              end
  end.

Definition keys_ok (l : list (string * val)) : bool :=
  let o := (fun kv => (js kv.1, kv.2)) <$> l in
  bool_decide (NoDup o.*1) && keys_in_order o && forallb (fun kv => forallb (fun c => N.ltb c 65536) (js kv.1)) l.

Definition travels (v : val) : Prop := jsonable v /\ enumerated v.

Lemma travels_jobj l : keys_ok l = true -> Forall (fun kv => travels kv.2) l -> travels (jobj l).
Proof.
  unfold keys_ok. rewrite !andb_true_iff. intros [[Hn Ho] Hu] Hl. apply bool_decide_eq_true in Hn.
  rewrite forallb_forall in Hu. rewrite Forall_forall in Hl. split.
  - apply jsonable_obj. split; [done|]. apply Forall_fmap, Forall_forall. intros kv Hkv. cbn.
    split; [|by apply Hl]. by apply units_forallb, Hu, list_elem_of_In.
  - split; [by apply keys_in_order_sound|]. clear -Hl. unfold jobj. induction l as [|[k v] l IH]; cbn; [done|].
    split; [apply (Hl (k, v)); by left|]. apply IH. intros x Hx. apply Hl. by right.
Qed.

Lemma travels_str s : Forall unit16 s -> travels (VStr s).
Proof. by split. Qed.

Lemma travels_int n : safe n -> travels (VNum (int n)).
Proof. intros Hn. split; [by exists n|done]. Qed.

Lemma sent_parsed v : travels v -> parseEnvelope (stringify v) = v.
Proof.
  intros [Hj He]. unfold parseEnvelope. rewrite json_parse_stringify by done. by apply rebuild_enumerated.
Qed.

(** The text of one envelope, applied by its handler. *)
Lemma read_sent r sender ctx (l : list (string * val)) rest h r' es :
  travels (jobj l) ->
  match adminRequirement (jobj l) with Some need => negb (authorMayPass need) && negb (is_admin ctx) | None => false end = false ->
  dispatch sender (jobj l) ctx = h -> h (r, []) = (Ok tt, (r', es)) ->
  read_all r sender ctx (jobj l :: rest) = read_all r' sender ctx rest.
Proof.
  intros Ht Hr Hd Hh. cbn [read_all]. rewrite sent_parsed by done. unfold applyEnvelope, reduce. rewrite Hr.
  change (match jobj l with VUndef | VNull => lift (Throw TypeError) | _ => dispatch sender (jobj l) ctx end)
    with (dispatch sender (jobj l) ctx). rewrite Hd, Hh. done.
Qed.

Lemma read_one r sender ctx l h r' :
  travels (jobj l) ->
  match adminRequirement (jobj l) with Some need => negb (authorMayPass need) && negb (is_admin ctx) | None => false end = false ->
  dispatch sender (jobj l) ctx = h -> (exists es, h (r, []) = (Ok tt, (r', es))) -> read_all r sender ctx [jobj l] = Some r'.
Proof. intros Ht Hr Hd [es Hh]. by rewrite (read_sent _ _ _ _ _ _ _ _ Ht Hr Hd Hh). Qed.

(** [reads k]: the value of a field of a literal envelope in the goal.
    [decided]: the comparisons of literals.  [reading h]: one envelope, to its
    handler [h]. *)
Ltac reads k :=
  match goal with |- context [getq ?c k] =>
    let E := fresh "E" in eassert (getq c k = _) as E by (vm_compute; reflexivity); rewrite !E; clear E end.
Ltac decided :=
  repeat match goal with |- context [strict_eq (VStr (js ?a)) (VStr ?b)] =>
    let v := eval vm_compute in (strict_eq (VStr (js a)) (VStr b)) in
    match v with true => idtac | false => idtac end; change (strict_eq (VStr (js a)) (VStr b)) with v end;
  cbn iota.
Ltac by_kind := unfold dispatch, is_kind; reads "k"%string; reflexivity.
Ltac travelling :=
  first [ assumption | split; exact I
        | apply travels_str; first [assumption | apply units_forallb; vm_compute; reflexivity]
        | apply travels_int; assumption | sendable ]
with sendable :=
  apply travels_jobj; [vm_compute; reflexivity|];
  repeat (apply Forall_cons_2; [cbn [snd]; travelling|]); apply Forall_nil_2.
Ltac gate := unfold adminRequirement, is_kind, is_op; reads "k"%string; try reads "op"%string; decided; cbn [orb authorMayPass negb andb];
  try match goal with Ha : is_admin _ = true |- _ => rewrite Ha end; reflexivity.
Ltac reading h :=
  match goal with |- read_all ?r ?me ?ctx [?c] = _ =>
    eapply (read_one r me ctx _ (h me c ctx)); [sendable|gate|by_kind|] end.
Ltac opened := unfold is_op; try reads "op"%string; decided; unfold mbind, record, modify, emit, when, lift, announce; cbn [fst snd].

Lemma removeNotice_read me r id ctx :
  Forall unit16 id -> canRemoveNotice (find_id (VStr id) (default [] (c_notices r))) me (is_admin ctx) = true ->
  read_all r me ctx (announced (removeNotice r id).2) = Some (removeNotice r id).1.
Proof.
  intros Hi Hc. change (announced _) with [jobj [("k" ~> VStr (js "notice")); ("op" ~> VStr (js "del")); ("id" ~> VStr id)]].
  reading on_notice. unfold on_notice. opened. reads "id"%string. rewrite Hc. eexists; reflexivity.
Qed.

Lemma removeOffer_read me r id ctx :
  Forall unit16 id -> canRemoveOffer (find_id (VStr id) (default [] (c_offers r))) me (is_admin ctx) = true ->
  read_all r me ctx (announced (removeOffer r id).2) = Some (removeOffer r id).1.
Proof.
  intros Hi Hc. change (announced _) with [jobj [("k" ~> VStr (js "offer")); ("op" ~> VStr (js "del")); ("id" ~> VStr id)]].
  reading on_offer. unfold on_offer. opened. reads "id"%string. rewrite Hc. eexists; reflexivity.
Qed.

Lemma takeOffer_read me r id taking ctx :
  Forall unit16 id -> read_all r me ctx (announced (takeOffer me r id taking).2) = Some (takeOffer me r id taking).1.
Proof.
  intros Hi. change (announced _) with
    [jobj [("k" ~> VStr (js "offer")); ("op" ~> VStr (js "take")); ("id" ~> VStr id); ("taking" ~> VBool taking)]].
  reading on_offer. unfold on_offer. opened. reads "id"%string. reads "taking"%string. destruct taking; by eexists.
Qed.

Lemma withdrawProposal_read me r id ctx :
  Forall unit16 id -> canWithdraw (find_id (VStr id) (default [] (c_proposals r))) me (is_admin ctx) = true ->
  read_all r me ctx (announced (withdrawProposal r id).2) = Some (withdrawProposal r id).1.
Proof.
  intros Hi Hc. change (announced _) with [jobj [("k" ~> VStr (js "quorum")); ("op" ~> VStr (js "withdraw")); ("id" ~> VStr id)]].
  reading on_quorum. unfold on_quorum. opened. reads "id"%string. rewrite Hc. eexists; reflexivity.
Qed.

Lemma signProposal_read me r id now ctx :
  Forall unit16 id -> ctx_dateNow ctx = now ->
  read_all r me ctx (announced (signProposal me r id now).2) = Some (signProposal me r id now).1.
Proof.
  intros Hi <-. change (announced _) with [jobj [("k" ~> VStr (js "quorum")); ("op" ~> VStr (js "sign")); ("id" ~> VStr id)]].
  reading on_quorum. unfold on_quorum. opened. reads "id"%string. eexists; reflexivity.
Qed.

Lemma objectToProposal_read me r id why now ctx r' outs :
  Forall unit16 id -> Forall unit16 why -> ctx_dateNow ctx = now ->
  objectToProposal me r id (VStr why) now = Ok (r', outs) -> read_all r me ctx (announced outs) = Some r'.
Proof.
  intros Hi Hw <- Ha. unfold objectToProposal in Ha. inv_ok. cbn in E0. injection E0 as <-.
  change (announced _) with
    [jobj [("k" ~> VStr (js "quorum")); ("op" ~> VStr (js "object")); ("id" ~> VStr id); ("why" ~> VStr why)]].
  reading on_quorum. unfold on_quorum. opened. reads "id"%string. reads "why"%string. rewrite E. eexists; reflexivity.
Qed.

(** *** Texts *)

Lemma clip_trim_units n s t : Forall unit16 s -> clip_trim n (VStr s) = Ok t -> Forall unit16 t.
Proof. intros Hs Ht. unfold clip_trim, clip in Ht. cbn in Ht. injection Ht as <-. by apply Forall_trim, Forall_take. Qed.

Lemma dash_runs_units b s : Forall unit16 (dash_runs b s).
Proof.
  revert b. induction s as [|c s IH]; intros b; cbn [dash_runs]; [done|]. destruct (slug_char c) eqn:E.
  - constructor; [|done]. unfold slug_char in E. unfold unit16.
    rewrite !orb_true_iff, !andb_true_iff, !N.leb_le, N.eqb_eq in E. lia.
  - destruct b; [done|]. constructor; [unfold unit16; lia|done].
Qed.

Lemma strip_dashes_units s : Forall unit16 s -> Forall unit16 (strip_dashes s).
Proof. intros Hs. induction Hs as [|c s Hc Hs IH]; cbn; [done|]. destruct (N.eqb c 45); [done|by constructor]. Qed.

Lemma slug_units name : Forall unit16 (slugChannel name).
Proof. unfold slugChannel, room_name. by apply Forall_reverse, strip_dashes_units, Forall_reverse, strip_dashes_units, dash_runs_units. Qed.

Lemma sane_ts_idem t now : sane_ts (sane_ts t now) now = sane_ts t now.
Proof.
  unfold sane_ts at 2 3. destruct (negb (nfinite t) || (t <=ₙ Fin 0) || (t >ₙ nadd now MIN)) eqn:E; unfold sane_ts.
  - by case_match.
  - by rewrite E.
Qed.

Lemma sane_ts_now now : sane_ts now now = now.
Proof. unfold sane_ts. by case_match. Qed.

(** *** Things posted *)

Lemma default_opt_text s : default [] (opt_text s) = s.
Proof. unfold opt_text. destruct (is_empty s) eqn:E; [by apply is_empty_true in E|done]. Qed.

Lemma notice_resent me id text now q :
  Forall unit16 text ->
  normalizeNotice (jobj [("id" ~> VStr id); ("text" ~> VStr text); ("ts" ~> VNum now)]) (VStr me) now = Ok (Some q) ->
  Forall unit16 (n_text q) /\ n_ts q = now /\
  normalizeNotice (jobj [("id" ~> VStr id); ("text" ~> VStr (n_text q)); ("ts" ~> VNum (n_ts q))]) (VStr me) now = Ok (Some q).
Proof.
  intros Ht. unfold normalizeNotice. do 2 (reads "id"%string; reads "text"%string; reads "ts"%string).
  change (not_an_object _) with false. cbn [to_number rbind]. intros E. inv_ok. destruct (_ || _) eqn:Ee; [done|]. inv_ok.
  cbn [n_text n_ts]. rewrite sane_ts_now in *. split_and!; [eapply clip_trim_units; [|eassumption]; assumption|done|].
  rewrite tidy_clip_trim by by eapply clip_trim_tidy. cbn [rbind]. by rewrite Ee, sane_ts_now.
Qed.

Lemma addNotice_read me r id text n ctx r' outs :
  Forall unit16 id -> Forall unit16 text -> safe n -> ctx_dateNow ctx = int n ->
  addNotice me r id (VStr text) (int n) = Ok (r', outs) -> read_all r me ctx (announced outs) = Some r'.
Proof.
  intros Hi Ht Hn Hc Ha. unfold addNotice in Ha. inv_ok. destruct a as [q|]; [|by injection Ha as <- <-].
  injection Ha as <- <-. apply notice_resent in E as (Hu & Et & E); [|done]. rewrite Et in *.
  set (payload := jobj [("id" ~> VStr id); ("text" ~> VStr (n_text q)); ("ts" ~> VNum (int n))]) in *.
  change (announced _) with [jobj [("k" ~> VStr (js "notice")); ("op" ~> VStr (js "add")); ("n" ~> payload)]].
  assert (travels payload) by sendable. clearbody payload.
  reading on_notice. unfold on_notice. opened. reads "n"%string. rewrite Hc, E. eexists; reflexivity.
Qed.

Lemma offer_resent me id text seats note now q :
  Forall unit16 text -> Forall unit16 note ->
  normalizeOffer (jobj [("id" ~> VStr id); ("text" ~> VStr text); ("seats" ~> VNum seats); ("note" ~> VStr note);
                        ("ts" ~> VNum now)]) (VStr me) now = Ok (Some q) ->
  Forall unit16 (o_text q) /\ Forall unit16 (default [] (o_note q)) /\ o_ts q = now /\
  (exists k, o_seats q = int k /\ safe k) /\
  forall nt, default [] (o_note q) = nt ->
  normalizeOffer (jobj [("id" ~> VStr id); ("text" ~> VStr (o_text q)); ("note" ~> VStr nt);
                        ("seats" ~> VNum (o_seats q)); ("ts" ~> VNum (o_ts q))]) (VStr me) now = Ok (Some q).
Proof.
  intros Ht Hno. unfold normalizeOffer.
  reads "id"%string; reads "text"%string; reads "note"%string; reads "seats"%string; reads "ts"%string.
  change (not_an_object _) with false. cbn [to_number rbind]. intros E. inv_ok. destruct (_ || _) eqn:Ee; [done|]. inv_ok.
  cbn [o_text o_ts o_note o_seats]. rewrite sane_ts_now in *. rewrite default_opt_text.
  destruct (clamp_seats_int seats) as (k & Ek & Hk).
  split_and!; [eapply clip_trim_units; [|eassumption]; assumption|eapply clip_trim_units; [|eassumption]; assumption|done| |].
  - exists k. split; [done|]. unfold safe, SEATS_MAX in *. lia.
  - intros nt <-. rewrite Ek. remember (int k) as w eqn:Hkw.
    reads "id"%string; reads "text"%string; reads "note"%string; reads "seats"%string; reads "ts"%string.
    cbn [to_number rbind]. rewrite E0, !tidy_clip_trim by (eapply clip_trim_tidy; eassumption). cbn [rbind].
    subst w. rewrite Ee, sane_ts_now, clamp_seats_id by done. done.
Qed.

Lemma addOffer_read me r id text seats note n ctx r' outs :
  Forall unit16 id -> Forall unit16 text -> Forall unit16 note -> safe n -> ctx_dateNow ctx = int n ->
  addOffer me r id (VStr text) (VNum seats) (VStr note) (int n) = Ok (r', outs) ->
  read_all r me ctx (announced outs) = Some r'.
Proof.
  intros Hi Ht Hno Hn Hc Ha. unfold addOffer in Ha. inv_ok. destruct a as [q|]; [|by injection Ha as <- <-].
  injection Ha as <- <-. apply offer_resent in E as (Hu & Hu2 & Et & (k & Ek & Hk) & E); [|done..].
  specialize (E _ eq_refl). rewrite Et, Ek in *.
  set (payload := jobj [("id" ~> VStr id); ("text" ~> VStr (o_text q)); ("note" ~> VStr (default [] (o_note q)));
                        ("seats" ~> VNum (int k)); ("ts" ~> VNum (int n))]) in *.
  change (announced _) with [jobj [("k" ~> VStr (js "offer")); ("op" ~> VStr (js "add")); ("o" ~> payload)]].
  assert (travels payload) by sendable. clearbody payload.
  reading on_offer. unfold on_offer. opened. reads "o"%string. rewrite Hc, E. eexists; reflexivity.
Qed.

Lemma proposal_resent me id who why now q :
  Forall unit16 why ->
  normalizeProposal (jobj [("id" ~> VStr id); ("handle" ~> VStr who); ("why" ~> VStr why); ("at" ~> VNum now)]) (VStr me) now
    = Ok (Some q) ->
  Forall unit16 (default [] (p_why q)) /\ p_at q = now /\
  forall nt, default [] (p_why q) = nt ->
  normalizeProposal (jobj [("id" ~> VStr id); ("handle" ~> VStr who); ("why" ~> VStr nt);
                           ("at" ~> VNum (p_at q))]) (VStr me) now = Ok (Some q).
Proof.
  intros Hw. unfold normalizeProposal.
  reads "id"%string; reads "handle"%string; reads "why"%string; reads "at"%string.
  change (not_an_object _) with false. cbn [to_number rbind]. intros E. inv_ok. destruct (_ || _) eqn:Ee; [done|]. inv_ok.
  cbn [p_why p_at]. rewrite sane_ts_now in *. rewrite default_opt_text.
  split_and!; [eapply clip_trim_units; [|eassumption]; assumption|done|].
  intros nt <-. reads "id"%string; reads "handle"%string; reads "why"%string; reads "at"%string.
  cbn [to_number rbind]. rewrite E0, E1. cbn [rbind]. rewrite tidy_clip_trim by (eapply clip_trim_tidy; eassumption).
  cbn [rbind]. by rewrite Ee, sane_ts_now.
Qed.

Lemma proposeMember_read me r id handle why n ctx r' outs :
  Forall unit16 id -> Forall unit16 (toLowerCase (trim handle)) -> Forall unit16 why -> safe n -> ctx_dateNow ctx = int n ->
  proposeMember me r id (VStr handle) (VStr why) (int n) = Ok (r', outs) -> read_all r me ctx (announced outs) = Some r'.
Proof.
  intros Hi Hh Hw Hn Hc Ha. unfold proposeMember in Ha. cbn [text_of to_string coalesce nullish rbind] in Ha.
  set (who := toLowerCase (trim handle)) in *. clearbody who.
  destruct (_ || _); [by injection Ha as <- <-|]. inv_ok. destruct a as [q|]; [|by injection Ha as <- <-].
  injection Ha as <- <-. apply proposal_resent in E as (Hu & Et & E); [|done]. specialize (E _ eq_refl). rewrite Et in *.
  set (payload := jobj [("id" ~> VStr id); ("handle" ~> VStr who); ("why" ~> VStr (default [] (p_why q))); ("at" ~> VNum (int n))]) in *.
  change (announced _) with [jobj [("k" ~> VStr (js "quorum")); ("op" ~> VStr (js "propose")); ("p" ~> payload)]].
  assert (travels payload) by sendable. clearbody payload.
  reading on_quorum. unfold on_quorum. opened. reads "p"%string. rewrite Hc, E. eexists; reflexivity.
Qed.

(** *** Answers, the home base and the threshold *)

Lemma rsvp_read me r k going n ctx :
  safe k -> ctx_now ctx = int n ->
  read_all r me ctx (announced (rsvp me r (int k) going (int n)).2) = Some (rsvp me r (int k) going (int n)).1.
Proof.
  intros Hk Hn. change (announced _) with [jobj [("k" ~> VStr (js "rsvp")); ("at" ~> VNum (int k)); ("going" ~> VBool going)]].
  assert (nfinite (int k) = true) as Hf by done.
  pose proof (travels_int k Hk) as Ht. unfold rsvp. set (v := int k) in *. clearbody v.
  reading on_rsvp. unfold on_rsvp. opened. reads "at"%string. reads "going"%string. cbn [to_number rbind fst snd].
  rewrite Hf. cbn. rewrite Hn. destruct going; by eexists.
Qed.

Lemma setOverview_read me r ov now ctx r' outs :
  is_admin ctx = true -> ctx_dateNow ctx = now ->
  (forall o, normalizeOverview ov now = Ok (Some o) -> overview_neat o /\ travels (overview_val o)) ->
  setOverview r ov now = Ok (r', outs) -> read_all r me ctx (announced outs) = Some r'.
Proof.
  intros Ha <- Hneat Hs. unfold setOverview in Hs. inv_ok.
  set (payload := match a with Some o => overview_val o | None => VNull end).
  change (announced _) with [jobj [("k" ~> VStr (js "overview")); ("ov" ~> payload)]].
  assert (travels payload) by (destruct a as [o|]; [by apply Hneat|by split]).
  assert (normalizeOverview payload (ctx_dateNow ctx) = Ok a) as Ep.
  { destruct a as [o|]; [|done]. unfold payload. rewrite overview_back by by apply Hneat.
    apply normalizeOverview_inv in E as (l0 & ev & _ & _ & _ & _ & Em & _). unfold remirror. rewrite <- Em. by destruct o. }
  clearbody payload. reading on_overview. unfold on_overview. opened. reads "ov"%string. rewrite Ep. eexists; reflexivity.
Qed.

Lemma nfloor_id t : nfloor (int t) = int t.
Proof. unfold nfloor, int. rewrite Z.div_mul by (pose proof scale_pos; lia). done. Qed.

Lemma threshold_again n t : 1 <= n < 2 ^ 53 -> reachable n t -> normalizeThreshold (VNum (int t)) (int n) = Ok (int t).
Proof.
  unfold reachable. intros Hn Ht. unfold normalizeThreshold. cbn [to_number rbind].
  rewrite circle_size_int, neqb_int, nfloor_id by lia. change (negb (nfinite (int t))) with false. cbn iota. f_equal.
  destruct (n =? 1); cbn match; rewrite nmax_int, nmin_int; f_equal; lia.
Qed.

Lemma setThreshold_read me r v ctx r' outs :
  is_admin ctx = true -> 1 <= Z.of_nat (length (default [] (c_members r))) < 2 ^ 53 ->
  setThreshold r v = Ok (r', outs) -> read_all r me ctx (announced outs) = Some r'.
Proof.
  intros Ha Hsm Hs. unfold setThreshold in Hs. inv_ok.
  destruct (normalizeThreshold_reachable_aux _ _ _ Hsm E) as (k & -> & Hk).
  pose proof (threshold_again _ _ Hsm Hk) as Et.
  change (announced _) with [jobj [("k" ~> VStr (js "threshold")); ("n" ~> VNum (int k))]].
  assert (travels (VNum (int k))) by (apply travels_int; unfold safe; unfold reachable in Hk; destruct (_ =? 1) in Hk; lia).
  unfold member_count in *. set (w := int k) in *. clearbody w.
  reading (fun s c (_ : context) => on_threshold s c). unfold on_threshold. opened. reads "n"%string. rewrite Et.
  eexists; reflexivity.
Qed.

(** *** Rooms *)

Lemma renameChannel_read me r from to ctx :
  Forall unit16 from -> is_admin ctx = true ->
  read_all r me ctx (announced (renameChannel r from to).2) = Some (renameChannel r from to).1.
Proof.
  intros Hf Ha. unfold renameChannel. pose proof (slug_units to) as Hu. set (ch := slugChannel to) in *. clearbody ch.
  destruct (_ || _) eqn:Eg; [done|]. apply orb_false_iff in Eg as [[[E1 E2]%orb_false_iff E3]%orb_false_iff E4].
  apply negb_false_iff in E3. cbn [fst snd].
  change (announced _) with [jobj [("k" ~> VStr (js "chan-ren")); ("ch" ~> VStr from); ("to" ~> VStr ch)]].
  reading (fun (_ : jstr) c (_ : context) => on_chan_ren c). unfold on_chan_ren. opened. reads "ch"%string. reads "to"%string. rewrite E3, E4. cbn [negb andb fst snd].
  unfold move_meta. cbn [c_chanMeta clearChannelDeleted markChannelDeleted set_deletedChannels set_channels].
  destruct (c_chanMeta r) as [o|]; [|eexists; reflexivity]. cbn [to_string]. unfold when. destruct (truthy _); eexists; reflexivity.
Qed.

Lemma deleteChannel_read me r channel ctx r' outs :
  Forall unit16 channel -> is_admin ctx = true -> deleteChannel r channel = Ok (r', outs) ->
  read_all r me ctx (announced outs) = Some r'.
Proof.
  intros Hf Ha Hd. unfold deleteChannel in Hd. destruct (includes _ _) eqn:E1; cbn [negb] in Hd; [|by injection Hd as <- <-].
  destruct (_ <=? 1)%nat eqn:E2; [done|]. injection Hd as <- <-. apply Nat.leb_gt, Nat.ltb_lt in E2.
  change (announced _) with [jobj [("k" ~> VStr (js "chan-del")); ("ch" ~> VStr channel)]].
  reading (fun s c (_ : context) => on_chan_del s c). unfold on_chan_del. opened. reads "ch"%string. rewrite E1, E2. cbn [negb andb fst snd].
  unfold drop_meta. cbn [c_chanMeta markChannelDeleted set_deletedChannels set_channels].
  destruct (c_chanMeta r) as [o|]; [|eexists; reflexivity]. cbn [to_string]. unfold when. destruct (truthy _); eexists; reflexivity.
Qed.

Lemma announced_leave b outs : announced ((if b : bool then [LeaveCall] else []) ++ outs) = announced outs.
Proof. by destruct b. Qed.

Lemma renameVoiceChannel_read me r inCall from to ctx :
  Forall unit16 from -> is_admin ctx = true ->
  read_all r me ctx (announced (renameVoiceChannel r inCall from to).2) = Some (renameVoiceChannel r inCall from to).1.
Proof.
  intros Hf Ha. unfold renameVoiceChannel. pose proof (slug_units to) as Hu. set (ch := slugChannel to) in *. clearbody ch.
  destruct (_ || _) eqn:Eg; [done|]. apply orb_false_iff in Eg as [[[E1 E2]%orb_false_iff E3]%orb_false_iff E4].
  apply negb_false_iff in E3. cbn [fst snd]. rewrite announced_leave.
  change (announced _) with [jobj [("k" ~> VStr (js "vchan-ren")); ("ch" ~> VStr from); ("to" ~> VStr ch)]].
  reading (fun (_ : jstr) c x => on_vchan_ren c x). unfold on_vchan_ren. opened. reads "ch"%string. reads "to"%string. rewrite E3, E4. cbn [negb andb fst snd].
  destruct (inThisCall _ _ _); eexists; reflexivity.
Qed.

Lemma deleteVoiceChannel_read me r inCall channel ctx :
  Forall unit16 channel -> is_admin ctx = true ->
  read_all r me ctx (announced (deleteVoiceChannel r inCall channel).2) = Some (deleteVoiceChannel r inCall channel).1.
Proof.
  intros Hf Ha. unfold deleteVoiceChannel. destruct (includes _ _) eqn:E1; cbn [negb]; [|done].
  cbn [fst snd]. rewrite announced_leave.
  change (announced _) with [jobj [("k" ~> VStr (js "vchan-del")); ("ch" ~> VStr channel)]].
  reading on_vchan_del. unfold on_vchan_del. opened. reads "ch"%string. rewrite E1. cbn [negb fst snd].
  destruct (inThisCall _ _ _); eexists; reflexivity.
Qed.

Lemma announced_created c1 r rest : is_snapshot c1 = false ->
  announced (Send c1 :: Send (metaContent r) :: Persist :: rest) = c1 :: announced rest.
Proof. intros H1. unfold announced. cbn [omap list_omap]. rewrite H1. by assert (is_snapshot (metaContent r) = true) as ->. Qed.

Lemma createVoiceChannel_read me r channel ctx :
  is_admin ctx = true ->
  read_all r me ctx (announced (createVoiceChannel r channel).2) = Some (createVoiceChannel r channel).1.
Proof.
  intros Ha. unfold createVoiceChannel. pose proof (dash_runs_units false (toLowerCase channel)) as Hu.
  fold (room_name channel) in Hu. set (ch := room_name channel) in *. clearbody ch.
  destruct (_ || _) eqn:Eg; [done|]. apply orb_false_iff in Eg as [_ E1].
  cbn [fst snd]. rewrite announced_created by (vm_compute; reflexivity). change (announced []) with (@nil val).
  reading (fun s c (_ : context) => on_vchan s c). unfold on_vchan. opened. reads "ch"%string.
  change (rooms_of (clearVoiceDeleted r (VStr ch))) with (rooms_of r). rewrite E1. eexists; reflexivity.
Qed.

#[local] Arguments truthy : simpl never.
#[local] Arguments strict_eq : simpl never.
#[local] Arguments same_value : simpl never.

Definition fresh_meta (hid hkey : jstr) : val := jobj [("hid" ~> VStr hid); ("hkey" ~> VStr hkey)].

Lemma strict_eq_refl_str s : strict_eq (VStr s) (VStr s) = true.
Proof. by apply str_eqb_eq. Qed.

Lemma same_value_refl_str s : same_value (VStr s) (VStr s) = true.
Proof. by apply same_value_str. Qed.

Lemma truthy_str s : s <> [] -> truthy (VStr s) = true.
Proof. intros Hs. unfold truthy. by rewrite bool_decide_eq_false_2. Qed.

Lemma merge_fresh hid hkey : hid <> [] -> hkey <> [] ->
  mergeChanKeys VUndef (fresh_meta hid hkey) false = Ok (fresh_meta hid hkey).
Proof.
  intros Hh Hk. pose proof (truthy_str _ Hh) as Th. pose proof (truthy_str _ Hk) as Tk.
  pose proof (same_value_refl_str hid) as Sh. pose proof (strict_eq_refl_str hid) as Eh. pose proof (strict_eq_refl_str hkey) as Ek.
  assert ((fresh_meta hid hkey).["hid"] = VStr hid /\ (fresh_meta hid hkey).["hkey"] = VStr hkey /\
          (fresh_meta hid hkey).["hkeys"] = VUndef /\ (fresh_meta hid hkey).["alts"] = VUndef /\
          settings_of (fresh_meta hid hkey) = [] /\
          keyed [] (VStr hid) (VStr hkey) [] [] = (if truthy (VStr hkey) then [(js "hid", VStr hid); (js "hkey", VStr hkey)]
                                                   else [(js "hid", VStr hid)]))
    as (F1 & F2 & F3 & F4 & F5 & F6) by (split_and!; try (vm_compute; reflexivity); unfold keyed; by destruct (truthy _)).
  assert (note_side [] (fresh_meta hid hkey) = Ok [(VStr hid, [VStr hkey])]) as En.
  { unfold note_side. change (negb (truthy (fresh_meta hid hkey))) with false. cbn iota. rewrite F1, F2, F3, F4.
    cbn [coalesce nullish iterate rbind fold_left]. unfold note. rewrite Th. cbn [logs_get logs_set default]. rewrite Sh. cbn.
    unfold add_keys. cbn [fold_left]. rewrite Tk. done. }
  unfold mergeChanKeys. cbn [or_empty]. change (or_empty (fresh_meta hid hkey)) with (fresh_meta hid hkey).
  change (note_side [] (VObj [])) with (Ok (@nil (val * list val))). cbn [rbind]. rewrite En. cbn [rbind].
  rewrite F5. change (settings_of (VObj [])) with (@nil (jstr * val)). cbn.
  rewrite bool_decide_eq_false_2 by done.
  assert (preferred_key (VObj []) (VStr hid) ++ preferred_key (fresh_meta hid hkey) (VStr hid) = [VStr hkey]) as ->.
  { unfold preferred_key. rewrite F1, F2, Eh, Tk. by change (strict_eq (VObj []).["hid"] (VStr hid)) with false. }
  change (sort_values [VStr hkey]) with (Ok [VStr hkey]). cbn.
  change (includes [] (VStr hkey)) with false. cbn iota. rewrite filter_cons_False; [|cbn; rewrite Ek, andb_false_r; done].
  rewrite filter_nil. rewrite F6, Tk. done.
Qed.

Lemma describe_fresh hid hkey : exists d, describeChanMeta (fresh_meta hid hkey) = Ok d.
Proof.
  assert ((fresh_meta hid hkey).["retention"] = VUndef /\ (fresh_meta hid hkey).["topic"] = VUndef) as [F1 F2] by by vm_compute.
  unfold describeChanMeta. change (or_empty (fresh_meta hid hkey)) with (fresh_meta hid hkey).
  change (get (fresh_meta hid hkey) "retention") with (Ok (fresh_meta hid hkey).["retention"]).
  change (get (fresh_meta hid hkey) "topic") with (Ok (fresh_meta hid hkey).["topic"]). rewrite F1, F2.
  change (truthy VUndef) with false. cbn [rbind]. by eexists.
Qed.

Lemma chan_read r me ch ctx rest :
  Forall unit16 ch -> is_admin ctx = true -> includes (c_channels r) (VStr ch) = false ->
  read_all r me ctx (jobj [("k" ~> VStr (js "chan")); ("ch" ~> VStr ch)] :: rest) =
  read_all (clearChannelDeleted (push_channel (VStr ch) r) (VStr ch)) me ctx rest.
Proof.
  intros Hu Ha E1. eapply (read_sent r me ctx _ rest (on_chan me _)); [sendable|gate|by_kind|].
  unfold on_chan. opened. reads "ch"%string.
  change (c_channels (clearChannelDeleted r (VStr ch))) with (c_channels r). rewrite E1. reflexivity.
Qed.

Lemma chanset_read r me ch ctx meta d :
  Forall unit16 ch -> is_admin ctx = true -> travels meta -> nullish meta = false -> describeChanMeta meta = Ok d ->
  includes (c_channels r) (VStr ch) = true -> mergeChanKeys (chanMeta_at r ch) meta false = Ok meta ->
  read_all r me ctx [jobj [("k" ~> VStr (js "chanset")); ("ch" ~> VStr ch); ("meta" ~> meta)]] =
  Some (set_chanMeta r (Some (obj_put (default [] (c_chanMeta r)) ch meta))).
Proof.
  intros Hu Ha Ht Hn Hd Hi Hm. reading (fun s c (_ : context) => on_chanset s c). unfold on_chanset. opened.
  reads "ch"%string. rewrite Hi. reads "meta"%string. unfold coalesce. rewrite Hn. cbn [to_string]. rewrite Hm, Hd. eexists. reflexivity.
Qed.

Lemma createChannel_read me r channel hid hkey ctx :
  is_admin ctx = true -> Forall unit16 hid -> Forall unit16 hkey -> hid <> [] -> hkey <> [] ->
  chanMeta_at r (room_name channel) = VUndef ->
  read_all r me ctx (announced (createChannel r channel hid hkey).2) = Some (createChannel r channel hid hkey).1.
Proof.
  intros Ha Hi Hk Hin Hkn Hm. unfold createChannel. pose proof (dash_runs_units false (toLowerCase channel)) as Hu.
  fold (room_name channel) in Hu. set (ch := room_name channel) in *. clearbody ch.
  destruct (_ || _) eqn:Eg; [done|]. apply orb_false_iff in Eg as [_ E1]. cbn [fst snd].
  set (r1 := clearChannelDeleted (push_channel (VStr ch) r) (VStr ch)).
  assert (ensureChannelKeys r1 ch hid hkey =
    (set_chanMeta r1 (Some (obj_put (default [] (c_chanMeta r)) ch (fresh_meta hid hkey))), Some (fresh_meta hid hkey))) as ->.
  { unfold ensureChannelKeys. change (chanMeta_at r1 ch) with (chanMeta_at r ch). rewrite Hm. done. }
  cbn [fst]. set (r2 := set_chanMeta r1 _).
  assert (chanMeta_at r2 ch = fresh_meta hid hkey) as ->.
  { unfold chanMeta_at. cbn. unfold prop. rewrite obj_get_put. by rewrite (proj2 (str_eqb_eq ch ch)). }
  assert (travels (fresh_meta hid hkey)) as Hft by (unfold fresh_meta; sendable).
  pose proof (merge_fresh hid hkey Hin Hkn) as Em. destruct (describe_fresh hid hkey) as [d Ed].
  assert (nullish (fresh_meta hid hkey) = false) as Hnn by done.
  unfold announced. cbn [omap list_omap]. set (meta := fresh_meta hid hkey) in *. clearbody meta.
  assert (is_snapshot (metaContent r2) = true) as -> by done.
  assert (is_snapshot (jobj [("k" ~> VStr (js "chan")); ("ch" ~> VStr ch)]) = false) as -> by (vm_compute; reflexivity).
  assert (is_snapshot (jobj [("k" ~> VStr (js "chanset")); ("ch" ~> VStr ch); ("meta" ~> meta)]) = false) as -> by (vm_compute; reflexivity).
  rewrite chan_read by done. apply (chanset_read r1 me ch ctx meta d); try done.
  - cbn. rewrite includes_app. unfold includes at 2. cbn. by rewrite same_value_refl_str, orb_true_r.
  - change (chanMeta_at r1 ch) with (chanMeta_at r ch). by rewrite Hm.
Qed.

(** *** Every action *)

Inductive action :=
| ACreateChannel (channel hid hkey : jstr)
| ARenameChannel (from to : jstr)
| ADeleteChannel (channel : jstr)
| ACreateVoice (channel : jstr)
| ARenameVoice (from to : jstr)
| ADeleteVoice (channel : jstr)
| ASetOverview (ov : val)
| AAddNotice (id text : jstr)
| ARemoveNotice (id : jstr)
| AAddOffer (id text note : jstr) (seats : num)
| ATakeOffer (id : jstr) (taking : bool)
| ARemoveOffer (id : jstr)
| ARsvp (at_ : num) (going : bool)
| APropose (id handle why : jstr)
| ASign (id : jstr)
| AObject (id why : jstr)
| AWithdraw (id : jstr)
| ASetThreshold (n : val).

Definition perform (me : jstr) (now : num) (inCall : option (jstr * val)) (r : circle) (a : action) : res (circle * list out) :=
  match a with
  | ACreateChannel ch hid hkey => Ok (createChannel r ch hid hkey)
  | ARenameChannel from to => Ok (renameChannel r from to)
  | ADeleteChannel ch => deleteChannel r ch
  | ACreateVoice ch => Ok (createVoiceChannel r ch)
  | ARenameVoice from to => Ok (renameVoiceChannel r inCall from to)
  | ADeleteVoice ch => Ok (deleteVoiceChannel r inCall ch)
  | ASetOverview ov => setOverview r ov now
  | AAddNotice id text => addNotice me r id (VStr text) now
  | ARemoveNotice id => Ok (removeNotice r id)
  | AAddOffer id text note seats => addOffer me r id (VStr text) (VNum seats) (VStr note) now
  | ATakeOffer id taking => Ok (takeOffer me r id taking)
  | ARemoveOffer id => Ok (removeOffer r id)
  | ARsvp at_ going => Ok (rsvp me r at_ going now)
  | APropose id handle why => proposeMember me r id (VStr handle) (VStr why) now
  | ASign id => Ok (signProposal me r id now)
  | AObject id why => objectToProposal me r id (VStr why) now
  | AWithdraw id => Ok (withdrawProposal r id)
  | ASetThreshold n => setThreshold r n
  end.

(** Who the screens offer an action to, and the receive side lets through. *)
Definition allowed (isAdmin : bool) (me : jstr) (r : circle) (a : action) : Prop :=
  match a with
  | ACreateChannel _ _ _ | ARenameChannel _ _ | ADeleteChannel _ | ACreateVoice _ | ARenameVoice _ _ | ADeleteVoice _
  | ASetOverview _ | ASetThreshold _ => isAdmin = true
  | ARemoveNotice id => canRemoveNotice (find_id (VStr id) (default [] (c_notices r))) me isAdmin = true
  | ARemoveOffer id => canRemoveOffer (find_id (VStr id) (default [] (c_offers r))) me isAdmin = true
  | AWithdraw id => canWithdraw (find_id (VStr id) (default [] (c_proposals r))) me isAdmin = true
  | _ => True
  end.

(** What the action carries is text and safe integers; the room is new; the
    page the form gives is one the normalizers leave as it is. *)
Definition plain (now : num) (r : circle) (a : action) : Prop :=
  match a with
  | ACreateChannel ch hid hkey =>
      (Forall unit16 hid /\ hid <> []) /\ (Forall unit16 hkey /\ hkey <> []) /\ chanMeta_at r (room_name ch) = VUndef
  | ARenameChannel from _ | ARenameVoice from _ => Forall unit16 from
  | ADeleteChannel ch | ADeleteVoice ch => Forall unit16 ch
  | ACreateVoice _ => True
  | ASetOverview ov => forall o, normalizeOverview ov now = Ok (Some o) -> overview_neat o /\ travels (overview_val o)
  | AAddNotice id text => Forall unit16 id /\ Forall unit16 text
  | AAddOffer id text note _ => Forall unit16 id /\ Forall unit16 text /\ Forall unit16 note
  | ARemoveNotice id | ARemoveOffer id | ATakeOffer id _ | ASign id | AWithdraw id => Forall unit16 id
  | ARsvp at_ _ => exists k, at_ = int k /\ safe k
  | APropose id handle why => Forall unit16 id /\ Forall unit16 (toLowerCase (trim handle)) /\ Forall unit16 why
  | AObject id why => Forall unit16 id /\ Forall unit16 why
  | ASetThreshold _ => 1 <= Z.of_nat (length (default [] (c_members r))) < 2 ^ 53
  end.

Lemma Ok_pair {A B} (p : A * B) a b : Ok p = Ok (a, b) -> p.1 = a /\ p.2 = b.
Proof. by intros [= ->]. Qed.

(** C12: the actor and the readers agree.  Whatever a member does to a circle
    by an action of rooms, home base, boards, answers, ledger or threshold (all
    but channel settings, of which one that is turned off survives for the
    readers, as shown below), another member who held the same record and reads
    the texts that say what was done, at the same instant, ends with the actor's
    record, and nothing throws on the way.  The member may take the action (an
    admin, where it needs one), a room that is made has no settings left of an
    earlier one, a home base is one the normalizers leave as it is, there is
    somebody on the roster when a threshold is set, and what the action carries
    is text and safe integers ([allowed], [plain]).  The snapshot of the whole
    circle that creating a room sends after them is left aside. *)
Theorem actor_and_readers_agree me r a inCall ctx n r' outs :
  ctx_now ctx = int n -> ctx_dateNow ctx = int n -> safe n ->
  allowed (is_admin ctx) me r a -> plain (int n) r a -> perform me (int n) inCall r a = Ok (r', outs) ->
  read_all r me ctx (announced outs) = Some r'.
Proof.
  intros Hw Hd Hn Ha Hp Hr. destruct a; cbn [allowed plain perform] in *;
    try (apply Ok_pair in Hr as [<- <-]).
  - destruct Hp as ((? & ?) & (? & ?) & ?). by apply createChannel_read.
  - by apply renameChannel_read.
  - eapply deleteChannel_read; last exact Hr; done.
  - by apply createVoiceChannel_read.
  - by apply renameVoiceChannel_read.
  - by apply deleteVoiceChannel_read.
  - eapply setOverview_read; last exact Hr; done.
  - destruct Hp. eapply addNotice_read; last exact Hr; done.
  - by apply removeNotice_read.
  - destruct Hp as (? & ? & ?). eapply addOffer_read; last exact Hr; done.
  - by apply takeOffer_read.
  - by apply removeOffer_read.
  - destruct Hp as (k & -> & Hk). by apply rsvp_read.
  - destruct Hp as (? & ? & ?). eapply proposeMember_read; last exact Hr; done.
  - by apply signProposal_read.
  - destruct Hp. eapply objectToProposal_read; last exact Hr; done.
  - by apply withdrawProposal_read.
  - eapply setThreshold_read; last exact Hr; done.
Qed.

(** One device at most admits a carried candidate, and only one who is not in
    the circle yet. *)
Theorem one_device_admits me1 me2 r roles id h1 h2 :
  admitIfCarried me1 r roles id = Ok (Some h1) -> admitIfCarried me2 r roles id = Ok (Some h2) ->
  me1 = me2 /\ h1 = h2 /\ h1 ∉ default [] (c_members r).
Proof.
  unfold admitIfCarried. destruct (find_id _ _) as [p|]; [|done]. intros H1 H2. inv_ok.
  destruct (negb (isCarried _ _ _)); [done|].
  repeat (case_bool_decide; cbn [negb] in *; try done). inv_ok. split_and!; [congruence|done|done].
Qed.
End agreement.

(** ** Witnesses *)

#[local] Instance ascii_case : CaseFold := fun s => ascii_lower <$> s.

Definition hall : circle :=
  {| c_id := js "g"; c_name := VStr (js "club"); c_channels := [VStr (js "general"); VStr (js "plans")];
     c_voiceChannels := None; c_deletedChannels := Some [VStr (js "trips")]; c_deletedVoice := None;
     c_chanMeta := Some [(js "general", jobj [("hid" ~> VStr (js "h")); ("hkey" ~> VStr (js "k")); ("retention" ~> VNum (int 3600))])];
     c_overview := None; c_notices := None; c_offers := None; c_proposals := None; c_threshold := None; c_rsvps := None;
     c_members := Some [js "ada"; js "bob"]; c_pendingMetaSync := false |}.

Definition as_admin : context :=
  {| ctx_isAdmin := Some true; ctx_now := int 1000; ctx_inCall := None; ctx_dateNow := int 1000 |}.

Lemma actor_and_readers_agree_witness :
  match perform (js "ada") (int 1000) None hall (ACreateChannel (js "Trips") (js "h2") (js "k2")) with
  | Ok (r', outs) => length outs = 4%nat /\ read_all hall (js "ada") as_admin (announced outs) = Some r'
  | Throw _ => False
  end.
Proof.
  cbn [perform]. destruct (createChannel hall (js "Trips") (js "h2") (js "k2")) as [r' outs] eqn:E.
  split; [change outs with ((r', outs).2); rewrite <- E; vm_compute; reflexivity|].
  apply (actor_and_readers_agree (js "ada") hall (ACreateChannel (js "Trips") (js "h2") (js "k2")) None as_admin 1000).
  - reflexivity.
  - reflexivity.
  - unfold safe. lia.
  - reflexivity.
  - split_and!; try (apply units_forallb; vm_compute; reflexivity); try done; vm_compute; reflexivity.
  - cbn [perform]. by rewrite E.
Defined.

(** A setting that is turned off stays on for everybody else: the reader
    spreads the new settings over its own, and one that is absent is kept.
    Here an admin turns auto-delete off. *)
Theorem cleared_setting_survives :
  let '(r', outs, _) := setChannelSettings hall (js "general") VUndef (VNum (int 0)) (js "x") (js "y") (int 1000) in
  (chanMeta_at r' (js "general")).["retention"] = VUndef /\
  exists r'', read_all hall (js "ada") as_admin (announced outs) = Some r'' /\
    (chanMeta_at r'' (js "general")).["retention"] = VNum (int 3600).
Proof. vm_compute. split; [reflexivity|]. eexists. split; reflexivity. Qed.
End Actions.
