(* ===== verification/Members.v ===== *)
(** * Members of a group (client/src/lib/controller.js: [publishCommit],
      [addMember], [removeMember], [deleteServer], joining; the commands of
      client/public/worker.js they call)

    A change of members is an MLS commit.  It is staged on the device, offered
    to the relay, and merged only when the relay took it; the relay takes one
    commit per epoch.  MLS itself is the crypto core's: a class [Mls] of the
    commands the worker offers, and a class [MlsLaws] of what MLS documents of
    them, told with the commits a state has merged ([view]). *)

From stdpp Require Import base list numbers option strings gmap relations.
From Stdlib Require Import ZArith NArith Lia.
From S2P Require Import Prelude JsNum JsString JsValue Games ChanKeys Envelope Logs Snapshot.
Import Logs.Logs Snapshot.Snapshot.
Open Scope Z_scope.

(** ** The worker's commands *)

Inductive mls_event :=
| EvMessage (sender text : jstr)
| EvMembership (sender : jstr) (epoch : Z) (members : list jstr)
| EvProposal.

Class Mls := {
  payload : Type;                                   (** a serialized message *)
  mls : Type;                                       (** a device's state of the group *)
  m_epoch : mls -> Z;
  m_members : mls -> list jstr;
  m_addMember : mls -> payload -> jstr -> payload -> option (payload * payload * mls);  (** commit, welcome *)
  m_removeMember : mls -> jstr -> option (payload * mls);
  m_mergeStagedCommit : mls -> option mls;
  m_discardStagedCommit : mls -> option mls;
  m_send : mls -> jstr -> option (payload * mls);
  m_receive : mls -> payload -> option (mls_event * mls);
  m_joinFromWelcome : payload -> option mls;
  m_exportGroupInfo : mls -> payload;
  m_joinByExternalCommit : payload -> option (payload * mls);
}.

(** A state has merged a sequence of commits and may have one staged; a commit
    names the sequence it follows, and is accepted by a state that has exactly
    that sequence, except the one who made it.  Staging needs nothing staged;
    merging somebody else's commit drops one's own. *)
Class MlsLaws `{Mls} := {
  view : mls -> list payload;
  staged : mls -> option payload;
  base : payload -> list payload;
  view_epoch g : m_epoch g = Z.of_nat (length (view g));
  add_stages g kp u k c w g' : m_addMember g kp u k = Some (c, w, g') ->
    staged g = None /\ staged g' = Some c /\ view g' = view g /\ base c = view g;
  add_welcomes g kp u k c w g' j : m_addMember g kp u k = Some (c, w, g') -> m_joinFromWelcome w = Some j ->
    view j = base c ++ [c] /\ staged j = None;
  remove_stages g u c g' : m_removeMember g u = Some (c, g') ->
    staged g = None /\ staged g' = Some c /\ view g' = view g /\ base c = view g;
  remove_excludes g u c g' g'' : m_removeMember g u = Some (c, g') -> m_mergeStagedCommit g' = Some g'' -> u ∉ m_members g'';
  merge_adopts g g' : m_mergeStagedCommit g = Some g' -> staged g' = None /\ view g' = view g ++ option_list (staged g);
  discard_drops g g' : m_discardStagedCommit g = Some g' -> staged g' = None /\ view g' = view g;
  send_keeps g t p g' : m_send g t = Some (p, g') -> staged g' = staged g /\ view g' = view g;
  send_content g t p g' h s e ms h' : m_send g t = Some (p, g') -> m_receive h p <> Some (EvMembership s e ms, h');
  receive_commit g p s e ms g' : m_receive g p = Some (EvMembership s e ms, g') ->
    base p = view g /\ staged g <> Some p /\ view g' = view g ++ [p] /\ staged g' = None /\ ms = m_members g';
  receive_other g p ev g' : m_receive g p = Some (ev, g') -> (forall s e ms, ev <> EvMembership s e ms) ->
    view g' = view g /\ staged g' = staged g;
  external_joins g c j : m_joinByExternalCommit (m_exportGroupInfo g) = Some (c, j) ->
    base c = view g /\ view j = view g ++ [c] /\ staged j = None;
}.

Module Members.
Section members.
Context `{Mls}.

(** Results as the worker posts them: a staged commit with the epoch it will
    make; the state is the snapshot to store. *)
Definition addMember_cmd (g : mls) (keyPackage : payload) (expectIdentity : jstr) (expectKey : payload)
  : option (payload * payload * Z * mls) :=
  match m_addMember g keyPackage expectIdentity expectKey with
  | Some (commit, welcome, g') => Some (commit, welcome, m_epoch g' + 1, g')
  | None => None
  end.

Definition removeMember_cmd (g : mls) (name : jstr) : option (payload * Z * mls) :=
  match m_removeMember g name with Some (commit, g') => Some (commit, m_epoch g' + 1, g') | None => None end.

Definition mergeStagedCommit_cmd (g : mls) : option (Z * list jstr * mls) :=
  match m_mergeStagedCommit g with Some g' => Some (m_epoch g', m_members g', g') | None => None end.

(** ** A device *)

Record node := {
  nd_me : jstr;
  nd_circle : circle;
  nd_epoch : Z;
  nd_lastSeq : Z;
  nd_roles : option obj;
  nd_invites : list jstr;
  nd_mls : mls;
  nd_disk : mls;          (** what [persistState] stored *)
}.

Definition set_mls (nd : node) (g : mls) : node :=
  {| nd_me := nd_me nd; nd_circle := nd_circle nd; nd_epoch := nd_epoch nd; nd_lastSeq := nd_lastSeq nd;
     nd_roles := nd_roles nd; nd_invites := nd_invites nd; nd_mls := g; nd_disk := nd_disk nd |}.
Definition persistState (nd : node) (g : mls) : node :=
  {| nd_me := nd_me nd; nd_circle := nd_circle nd; nd_epoch := nd_epoch nd; nd_lastSeq := nd_lastSeq nd;
     nd_roles := nd_roles nd; nd_invites := nd_invites nd; nd_mls := nd_mls nd; nd_disk := g |}.
Definition advance (nd : node) (seq : Z) : node :=
  {| nd_me := nd_me nd; nd_circle := nd_circle nd; nd_epoch := nd_epoch nd; nd_lastSeq := Z.max (nd_lastSeq nd) seq;
     nd_roles := nd_roles nd; nd_invites := nd_invites nd; nd_mls := nd_mls nd; nd_disk := nd_disk nd |}.
(** [record.members = members]; [undefined] is [None]. *)
Definition set_members (r : circle) (x : option (list jstr)) : circle :=
  {| c_id := c_id r; c_name := c_name r; c_channels := c_channels r;
     c_voiceChannels := c_voiceChannels r; c_deletedChannels := c_deletedChannels r;
     c_deletedVoice := c_deletedVoice r; c_chanMeta := c_chanMeta r; c_overview := c_overview r;
     c_notices := c_notices r; c_offers := c_offers r; c_proposals := c_proposals r;
     c_threshold := c_threshold r; c_rsvps := c_rsvps r; c_members := x;
     c_pendingMetaSync := c_pendingMetaSync r |}.
Definition set_roster (nd : node) (members : list jstr) (epoch : Z) : node :=
  {| nd_me := nd_me nd; nd_circle := set_members (nd_circle nd) (Some members); nd_epoch := epoch;
     nd_lastSeq := nd_lastSeq nd; nd_roles := nd_roles nd; nd_invites := nd_invites nd; nd_mls := nd_mls nd;
     nd_disk := nd_disk nd |}.
Definition set_circle (nd : node) (r : circle) : node :=
  {| nd_me := nd_me nd; nd_circle := r; nd_epoch := nd_epoch nd; nd_lastSeq := nd_lastSeq nd;
     nd_roles := nd_roles nd; nd_invites := nd_invites nd; nd_mls := nd_mls nd; nd_disk := nd_disk nd |}.
Definition set_roles (nd : node) (r : option obj) : node :=
  {| nd_me := nd_me nd; nd_circle := nd_circle nd; nd_epoch := nd_epoch nd; nd_lastSeq := nd_lastSeq nd;
     nd_roles := r; nd_invites := nd_invites nd; nd_mls := nd_mls nd; nd_disk := nd_disk nd |}.
Definition set_invites (nd : node) (l : list jstr) : node :=
  {| nd_me := nd_me nd; nd_circle := nd_circle nd; nd_epoch := nd_epoch nd; nd_lastSeq := nd_lastSeq nd;
     nd_roles := nd_roles nd; nd_invites := l; nd_mls := nd_mls nd; nd_disk := nd_disk nd |}.

(** ** Publishing a commit *)

(** The relay's answer to a commit: its place in the log, or a failure, which
    says whether another commit took the epoch. *)
Inductive answer := Sent (seq : Z) | Refused (conflict : bool).

Inductive failure := Conflict | Failed | Ambiguous.

(** The device after the answer, and the place or the reason.  A failure drops
    the staged commit and stores the state without it, if it can. *)
Definition publishCommit (nd : node) (a : answer) : node * (Z + failure) :=
  match a with
  | Sent seq => (nd, inl seq)
  | Refused conflict =>
      match m_discardStagedCommit (nd_mls nd) with
      | Some g => (persistState (set_mls nd g) g, inr (if conflict then Conflict else Failed))
      | None => (nd, inr Ambiguous)
      end
  end.

(** The relay's answer to [fetch_kp]. *)
Record kp_reply := { kp_payload : option payload; kp_pubkey : option payload }.

(** [addMember] up to its commit: the device, the commit, its epoch and the
    welcome. *)
Definition addMember_stage (nd : node) (user : jstr) (reply : kp_reply) : option (node * Z * payload * payload) :=
  match kp_payload reply, kp_pubkey reply with
  | Some kp, Some key =>
      match addMember_cmd (nd_mls nd) kp user key with
      | Some (commit, welcome, epoch, g) => Some (persistState (set_mls nd g) g, epoch, commit, welcome)
      | None => None
      end
  | _, _ => None
  end.

Definition removeMember_stage (nd : node) (user : jstr) : option (node * Z * payload) :=
  match removeMember_cmd (nd_mls nd) user with
  | Some (commit, epoch, g) => Some (persistState (set_mls nd g) g, epoch, commit)
  | None => None
  end.

(** The commit was taken: merge it. *)
Definition commit_merged (nd : node) (seq : Z) : option (node * list jstr) :=
  match mergeStagedCommit_cmd (nd_mls nd) with
  | Some (_, members, g) => Some (advance (set_mls nd g) seq, members)
  | None => None
  end.

Inductive out :=
| Allow (user : jstr)
| Disallow (user : jstr)
| Welcome (user : jstr) (after : Z) (welcome : payload)
| Revoke (invite : jstr)
| Content (c : val)
| Line (text : jstr)
| DeleteGroup
| Commit (epoch : Z) (commit : payload).

(** [addMember] from the relay's answer on; [allow] and [welcome] are requests
    that may fail, and a failure ends it there. *)
Definition addMember_rest (nd : node) (user : jstr) (epoch : Z) (welcome : payload) (a : answer) (allowed welcomed : bool)
  : node * list out * bool :=
  match publishCommit nd a with
  | (nd1, inr _) => (nd1, [], false)
  | (nd1, inl seq) =>
      match commit_merged nd1 seq with
      | None => (nd1, [], false)
      | Some (nd2, members) =>
          if negb allowed then (nd2, [Allow user], false) else
          if negb welcomed then (nd2, [Allow user; Welcome user seq welcome], false) else
          let nd3 := set_roster nd2 members epoch in
          (nd3, [Allow user; Welcome user seq welcome;
                 Line (user ++ js " added — unverified until you check their safety number");
                 Content (metaContent (nd_circle nd3))], true)
      end
  end.

(** [revokeAllInvites]: how many were revoked, and the device without any. *)
Definition revokeAllInvites (nd : node) (ok : jstr -> bool) : node * list out * nat :=
  (set_invites nd [], Revoke <$> nd_invites nd, length (filter (fun i => ok i = true) (nd_invites nd))).

(** [if (record.roles?.[user]) { ... delete record.roles[user] }]. *)
Definition drop_role (roles : option obj) (user : jstr) : option obj :=
  match roles with
  | Some o => if truthy (prop (VObj o) user) then Some (obj_delete o user) else roles
  | None => None
  end.

Definition rotated_line (rotated : list jstr) (user : jstr) : jstr :=
  js "new history key for " ++ str_join (js ", ") ((fun c => js "#" ++ c) <$> rotated)
  ++ js " — " ++ user ++ js " cannot read anything kept from here on".

Definition revoked_line (revoked : nat) (user : jstr) : jstr :=
  num_to_string (int (Z.of_nat revoked)) ++ js " invite link" ++ (if bool_decide (revoked = 1%nat) then [] else js "s")
  ++ js " revoked, in case " ++ user ++ js " still held one — share a new link to invite anyone else".

(** [removeMember] from the relay's answer on; fresh keys are drawn from
    [fresh], [ok] says which invites the relay revoked. *)
Definition removeMember_rest (nd : node) (user : jstr) (epoch : Z) (a : answer) (fresh : list jstr) (ok : jstr -> bool)
  : node * list out * bool :=
  match publishCommit nd a with
  | (nd1, inr _) => (nd1, [], false)
  | (nd1, inl seq) =>
      match commit_merged nd1 seq with
      | None => (nd1, [], false)
      | Some (nd2, members) =>
          let nd3 := set_roles (set_roster nd2 members epoch) (drop_role (nd_roles nd2) user) in
          let first := [Disallow user; Line (user ++ js " was removed from the circle by you")] in
          match rotateHistoryKeys (nd_circle nd3) fresh with
          | (r, Throw _) => (set_circle nd3 r, first, false)
          | (r, Ok rotated) =>
              let '(nd4, revokes, revoked) := revokeAllInvites (set_circle nd3 r) ok in
              (nd4, first ++ revokes
                    ++ (if bool_decide (rotated = []) && bool_decide (revoked = 0%nat) then []
                        else [Content (metaContent (nd_circle nd4))])
                    ++ (if bool_decide (rotated = []) then [] else [Line (rotated_line rotated user)])
                    ++ (if bool_decide (revoked = 0%nat) then [] else [Line (revoked_line revoked user)]), true)
          end
      end
  end.

(** The loop of [deleteServer]: [sends] answers each commit in turn (a failure
    is caught); the commits are sent as any message, and nothing is merged. *)
Fixpoint delete_loop (nd : node) (others : list jstr) (sends : list (option Z)) : node * list out :=
  match others with
  | [] => (nd, [])
  | user :: rest =>
      match removeMember_cmd (nd_mls nd) user with
      | None => delete_loop nd rest sends
      | Some (commit, epoch, g) =>
          let nd1 := persistState (set_mls nd g) g in
          match sends with
          | Some seq :: more =>
              let nd2 := advance nd1 seq in
              let nd3 := {| nd_me := nd_me nd2; nd_circle := set_members (nd_circle nd2) None; nd_epoch := epoch;
                            nd_lastSeq := nd_lastSeq nd2; nd_roles := nd_roles nd2; nd_invites := nd_invites nd2;
                            nd_mls := nd_mls nd2; nd_disk := nd_disk nd2 |} in
              let '(nd', outs) := delete_loop nd3 rest more in (nd', Commit epoch commit :: outs)
          | None :: more => let '(nd', outs) := delete_loop nd1 rest more in (nd', Commit epoch commit :: outs)
          | [] => let '(nd', outs) := delete_loop nd1 rest [] in (nd', Commit epoch commit :: outs)
          end
      end
  end.

Definition deleteServer (nd : node) (sends : list (option Z)) : list out :=
  (delete_loop nd (filter (fun m => m <> nd_me nd) (default [] (c_members (nd_circle nd)))) sends).2 ++ [DeleteGroup].
End members.
End Members.

(** ** Devices, a relay and the network between them *)

Module Commits.
Import Members.
Section commits.
Context `{M : Mls}.

(** *** The relay's side of a circle (src/relay: [append_message]) *)

Record relay := { rl_epoch : Z; rl_log : list (payload * bool) }.

Definition append_message (rl : relay) (epoch : Z) (p : payload) (commit : bool) : relay * answer :=
  if commit && negb (epoch =? rl_epoch rl + 1) then (rl, Refused true) else
  ({| rl_epoch := if commit then epoch else rl_epoch rl; rl_log := rl_log rl ++ [(p, commit)] |},
   Sent (Z.of_nat (length (rl_log rl)) + 1)).

(** The commits it has taken, in order. *)
Definition accepted (rl : relay) : list payload := (filter (fun e => e.2 = true) (rl_log rl)).*1.

(** *** A device with its connection *)

Inductive incoming := Reply (rid : nat) (a : answer) | Msg (p : payload) (seq : Z).

Inductive change := Adding (user : jstr) (welcome : payload) | Removing (user : jstr).

Record task := { tk_rid : nat; tk_change : change; tk_epoch : Z; tk_commit : payload }.

Record station := { st_node : node; st_task : option task; st_inbox : list incoming }.

(** What a member asks for. *)
Inductive intent := IAdd (user : jstr) (reply : kp_reply) | IRemove (user : jstr).

Definition stage (nd : node) (i : intent) : option (node * Z * payload * change) :=
  match i with
  | IAdd user reply =>
      match addMember_stage nd user reply with
      | Some (nd', epoch, commit, welcome) => Some (nd', epoch, commit, Adding user welcome)
      | None => None
      end
  | IRemove user =>
      if bool_decide (user = nd_me nd) then None else
      match removeMember_stage nd user with
      | Some (nd', epoch, commit) => Some (nd', epoch, commit, Removing user)
      | None => None
      end
  end.

(** Everything else the rest of an action is told. *)
Record luck := { lk_allowed : bool; lk_welcomed : bool; lk_fresh : list jstr; lk_revoked : jstr -> bool }.

Definition finish (nd : node) (t : task) (a : answer) (l : luck) : node * list out :=
  match tk_change t with
  | Adding user welcome => (addMember_rest nd user (tk_epoch t) welcome a (lk_allowed l) (lk_welcomed l)).1
  | Removing user => (removeMember_rest nd user (tk_epoch t) a (lk_fresh l) (lk_revoked l)).1
  end.

(** [onGroupMessage], as far as the group goes; [None] when this device was
    removed and forgets the circle. *)
Definition receive (nd : node) (p : payload) (seq : Z) : option node :=
  let nd1 := advance nd seq in
  match m_receive (nd_mls nd1) p with
  | None => Some nd1
  | Some (EvMembership sender epoch members, g) =>
      if bool_decide (nd_me nd ∈ members) then Some (persistState (set_roster (set_mls nd1 g) members epoch) g) else None
  | Some (_, g) => Some (persistState (set_mls nd1 g) g)
  end.

(** *** The whole *)

(** A request in flight: who sent it, its number, the epoch and the commit. *)
Record flight := { fl_from : jstr; fl_rid : nat; fl_epoch : Z; fl_commit : payload }.

(** An external commit on its way, with the state its maker waits to use. *)
Record arrival := { ar_who : jstr; ar_epoch : Z; ar_commit : payload; ar_mls : mls }.

Record world := {
  wd_relay : relay;
  wd_stations : gmap jstr station;
  wd_net : list flight;
  wd_welcomes : list (jstr * Z * payload);
  wd_arrivals : list arrival;
  wd_next : nat;                                   (** the next request's number *)
}.

Definition deliver (x : incoming) (st : station) : station :=
  {| st_node := st_node st; st_task := st_task st; st_inbox := st_inbox st ++ [x] |}.

(** The relay sends an entry to every subscriber but the one it came from. *)
Definition fan_out (from : jstr) (x : incoming) (m : gmap jstr station) : gmap jstr station :=
  map_imap (fun i st => Some (if bool_decide (i = from) then st else deliver x st)) m.

Definition log_after (rl : relay) (seq : Z) : list incoming :=
  drop (Z.to_nat seq) (imap (fun k e => Msg e.1 (Z.of_nat k + 1)) (rl_log rl)).

Definition welcomes_in (outs : list out) : list (jstr * Z * payload) :=
  omap (fun o => match o with Welcome u s w => Some (u, s, w) | _ => None end) outs.

Inductive step : world -> world -> Prop :=
(** A member starts a change of members, none being under way on the device. *)
| step_start w i st x nd' epoch commit ch :
    wd_stations w !! i = Some st -> st_task st = None -> stage (st_node st) x = Some (nd', epoch, commit, ch) ->
    step w {| wd_relay := wd_relay w;
              wd_stations := <[i := {| st_node := nd';
                                       st_task := Some {| tk_rid := wd_next w; tk_change := ch; tk_epoch := epoch;
                                                          tk_commit := commit |};
                                       st_inbox := st_inbox st |}]> (wd_stations w);
              wd_net := wd_net w ++ [ {| fl_from := i; fl_rid := wd_next w; fl_epoch := epoch; fl_commit := commit |} ];
              wd_welcomes := wd_welcomes w; wd_arrivals := wd_arrivals w; wd_next := S (wd_next w) |}
(** The relay handles a commit in flight. *)
| step_relay w net1 f net2 rl a :
    wd_net w = net1 ++ f :: net2 -> append_message (wd_relay w) (fl_epoch f) (fl_commit f) true = (rl, a) ->
    step w {| wd_relay := rl;
              wd_stations := alter (deliver (Reply (fl_rid f) a)) (fl_from f)
                (match a with Sent seq => fan_out (fl_from f) (Msg (fl_commit f) seq) (wd_stations w) | Refused _ => wd_stations w end);
              wd_net := net1 ++ net2; wd_welcomes := wd_welcomes w; wd_arrivals := wd_arrivals w; wd_next := wd_next w |}
(** A member says something. *)
| step_say w i st text p g rl seq :
    wd_stations w !! i = Some st -> m_send (nd_mls (st_node st)) text = Some (p, g) ->
    append_message (wd_relay w) (m_epoch g) p false = (rl, Sent seq) ->
    step w {| wd_relay := rl;
              wd_stations := fan_out i (Msg p seq)
                (<[i := {| st_node := persistState (set_mls (st_node st) g) g; st_task := st_task st; st_inbox := st_inbox st |}]>
                   (wd_stations w));
              wd_net := wd_net w; wd_welcomes := wd_welcomes w; wd_arrivals := wd_arrivals w; wd_next := wd_next w |}
(** A device handles the answer it waits for. *)
| step_answer w i st t a inbox l nd' outs :
    wd_stations w !! i = Some st -> st_task st = Some t -> st_inbox st = Reply (tk_rid t) a :: inbox ->
    finish (st_node st) t a l = (nd', outs) ->
    step w {| wd_relay := wd_relay w;
              wd_stations := <[i := {| st_node := nd'; st_task := None; st_inbox := inbox |}]> (wd_stations w);
              wd_net := wd_net w; wd_welcomes := wd_welcomes w ++ welcomes_in outs; wd_arrivals := wd_arrivals w;
              wd_next := wd_next w |}
(** An answer nobody waits for any more. *)
| step_stale w i st rid a inbox :
    wd_stations w !! i = Some st -> (forall t, st_task st = Some t -> tk_rid t <> rid) -> st_inbox st = Reply rid a :: inbox ->
    step w {| wd_relay := wd_relay w;
              wd_stations := <[i := {| st_node := st_node st; st_task := st_task st; st_inbox := inbox |}]> (wd_stations w);
              wd_net := wd_net w; wd_welcomes := wd_welcomes w; wd_arrivals := wd_arrivals w; wd_next := wd_next w |}
(** A device handles an entry of the log. *)
| step_message w i st p seq inbox :
    wd_stations w !! i = Some st -> st_inbox st = Msg p seq :: inbox ->
    step w {| wd_relay := wd_relay w;
              wd_stations := match receive (st_node st) p seq with
                | Some nd => <[i := {| st_node := nd; st_task := st_task st; st_inbox := inbox |}]> (wd_stations w)
                | None => delete i (wd_stations w)
                end;
              wd_net := wd_net w; wd_welcomes := wd_welcomes w; wd_arrivals := wd_arrivals w; wd_next := wd_next w |}
(** The answer does not come in time, or the connection drops first. *)
| step_timeout w i st t l nd' outs :
    wd_stations w !! i = Some st -> st_task st = Some t -> finish (st_node st) t (Refused false) l = (nd', outs) ->
    step w {| wd_relay := wd_relay w;
              wd_stations := <[i := {| st_node := nd'; st_task := None; st_inbox := st_inbox st |}]> (wd_stations w);
              wd_net := wd_net w; wd_welcomes := wd_welcomes w; wd_arrivals := wd_arrivals w; wd_next := wd_next w |}
(** A new connection: what was under way was lost, the log is read again from
    the cursor. *)
| step_reconnect w i st :
    wd_stations w !! i = Some st -> st_task st = None ->
    step w {| wd_relay := wd_relay w;
              wd_stations := <[i := {| st_node := st_node st; st_task := None;
                                       st_inbox := log_after (wd_relay w) (nd_lastSeq (st_node st)) |}]> (wd_stations w);
              wd_net := wd_net w; wd_welcomes := wd_welcomes w; wd_arrivals := wd_arrivals w; wd_next := wd_next w |}
(** Somebody takes up a welcome. *)
| step_welcomed w i after wel g nd :
    wd_stations w !! i = None -> (i, after, wel) ∈ wd_welcomes w -> m_joinFromWelcome wel = Some g -> nd_mls nd = g ->
    step w {| wd_relay := wd_relay w;
              wd_stations := <[i := {| st_node := nd; st_task := None; st_inbox := log_after (wd_relay w) after |}]> (wd_stations w);
              wd_net := wd_net w; wd_welcomes := wd_welcomes w; wd_arrivals := wd_arrivals w; wd_next := wd_next w |}
(** Somebody follows an invite link: the state of a member as it was parked. *)
| step_link w i st j c g :
    wd_stations w !! i = Some st -> m_joinByExternalCommit (m_exportGroupInfo (nd_mls (st_node st))) = Some (c, g) ->
    step w {| wd_relay := wd_relay w; wd_stations := wd_stations w; wd_net := wd_net w; wd_welcomes := wd_welcomes w;
              wd_arrivals := wd_arrivals w ++ [ {| ar_who := j; ar_epoch := m_epoch g; ar_commit := c; ar_mls := g |} ];
              wd_next := wd_next w |}
(** The relay handles it: the joiner is in, or has to start again, also when
    it was taken and the joiner does not hear of it. *)
| step_joined w a1 x a2 rl a nd (heard : bool) :
    wd_arrivals w = a1 ++ x :: a2 -> append_message (wd_relay w) (ar_epoch x) (ar_commit x) true = (rl, a) ->
    wd_stations w !! ar_who x = None -> nd_mls nd = ar_mls x ->
    step w {| wd_relay := rl;
              wd_stations := match a with
                | Sent seq =>
                    let m := fan_out (ar_who x) (Msg (ar_commit x) seq) (wd_stations w) in
                    if heard then <[ar_who x := {| st_node := nd; st_task := None; st_inbox := [] |}]> m else m
                | Refused _ => wd_stations w
                end;
              wd_net := wd_net w; wd_welcomes := wd_welcomes w; wd_arrivals := a1 ++ a2; wd_next := wd_next w |}.

(** *** The invariant *)

Context {L : MlsLaws}.

Definition content (p : payload) : Prop := forall g s e ms g', m_receive g p <> Some (EvMembership s e ms, g').

(** Where a device that waits for its commit stands: it still has it staged, or
    another commit came first and took its place. *)
Record task_ok (g : mls) (t : task) : Prop := {
  to_epoch : tk_epoch t = Z.of_nat (length (base (tk_commit t))) + 1;
  to_state : (staged g = Some (tk_commit t) /\ view g = base (tk_commit t)) \/
    (staged g = None /\ exists c, c <> tk_commit t /\ base (tk_commit t) ++ [c] `prefix_of` view g);
  to_welcome : forall u w j, tk_change t = Adding u w -> m_joinFromWelcome w = Some j ->
    view j = base (tk_commit t) ++ [tk_commit t] /\ staged j = None;
}.

Record station_ok (next : nat) (acc : list payload) (st : station) : Prop := {
  so_view : view (nd_mls (st_node st)) `prefix_of` acc;
  so_task : forall t, st_task st = Some t -> task_ok (nd_mls (st_node st)) t /\ (tk_rid t < next)%nat;
  so_inbox : forall p seq, Msg p seq ∈ st_inbox st -> p ∈ acc \/ content p;
  so_rids : forall rid a, Reply rid a ∈ st_inbox st -> (rid < next)%nat;
  so_reply : forall t seq, st_task st = Some t -> Reply (tk_rid t) (Sent seq) ∈ st_inbox st ->
    acc !! length (base (tk_commit t)) = Some (tk_commit t);
}.

Record flight_ok (next : nat) (acc : list payload) (f : flight) : Prop := {
  fo_epoch : fl_epoch f = Z.of_nat (length (base (fl_commit f))) + 1;
  fo_base : base (fl_commit f) `prefix_of` acc;
  fo_rid : (fl_rid f < next)%nat;
}.

Record arrival_ok (acc : list payload) (x : arrival) : Prop := {
  ao_epoch : ar_epoch x = Z.of_nat (length (base (ar_commit x))) + 1;
  ao_base : base (ar_commit x) `prefix_of` acc;
  ao_view : view (ar_mls x) = base (ar_commit x) ++ [ar_commit x] /\ staged (ar_mls x) = None;
}.

Record relay_ok (rl : relay) : Prop := {
  ro_epoch : rl_epoch rl = Z.of_nat (length (accepted rl));
  ro_base : forall k c, accepted rl !! k = Some c -> base c = take k (accepted rl);
  ro_content : forall p, (p, false) ∈ rl_log rl -> content p;
}.

Record in_step (w : world) : Prop := {
  is_relay : relay_ok (wd_relay w);
  is_stations : map_Forall (fun _ => station_ok (wd_next w) (accepted (wd_relay w))) (wd_stations w);
  is_net : Forall (flight_ok (wd_next w) (accepted (wd_relay w))) (wd_net w);
  is_own : forall f i st t, f ∈ wd_net w -> wd_stations w !! i = Some st -> st_task st = Some t ->
    tk_rid t = fl_rid f -> tk_commit t = fl_commit f;
  is_welcomes : forall i s wel g, (i, s, wel) ∈ wd_welcomes w -> m_joinFromWelcome wel = Some g ->
    view g `prefix_of` accepted (wd_relay w) /\ staged g = None;
  is_arrivals : Forall (arrival_ok (accepted (wd_relay w))) (wd_arrivals w);
}.

(** *** The relay's log *)

Lemma accepted_snoc rl p b e : accepted {| rl_epoch := e; rl_log := rl_log rl ++ [(p, b)] |} = accepted rl ++ (if b : bool then [p] else []).
Proof. unfold accepted. cbn. rewrite filter_app, fmap_app. f_equal. by destruct b. Qed.

Lemma append_commit rl epoch c rl' seq :
  append_message rl epoch c true = (rl', Sent seq) ->
  epoch = rl_epoch rl + 1 /\ accepted rl' = accepted rl ++ [c] /\ rl_epoch rl' = epoch /\ rl_log rl' = rl_log rl ++ [(c, true)].
Proof.
  unfold append_message. cbn [andb]. destruct (Z.eqb_spec epoch (rl_epoch rl + 1)); cbn [negb]; [|done].
  intros [= <- _]. split_and!; try done. apply accepted_snoc.
Qed.

Lemma append_refused rl epoch c rl' b : append_message rl epoch c true = (rl', Refused b) -> rl' = rl.
Proof. unfold append_message. destruct (_ && _); naive_solver. Qed.

Lemma append_content rl epoch p rl' a :
  append_message rl epoch p false = (rl', a) -> accepted rl' = accepted rl /\ rl_epoch rl' = rl_epoch rl /\ rl_log rl' = rl_log rl ++ [(p, false)].
Proof. unfold append_message. cbn. intros [= <- _]. split_and!; try done. rewrite accepted_snoc. apply app_nil_r. Qed.

Lemma prefix_same_length {A} (l1 l2 : list A) : l1 `prefix_of` l2 -> length l1 = length l2 -> l1 = l2.
Proof. intros [k ->] Hl. rewrite length_app in Hl. destruct k; [by rewrite app_nil_r|cbn in Hl; lia]. Qed.

Lemma relay_takes rl epoch c rl' seq :
  relay_ok rl -> append_message rl epoch c true = (rl', Sent seq) ->
  epoch = Z.of_nat (length (base c)) + 1 -> base c `prefix_of` accepted rl ->
  relay_ok rl' /\ accepted rl' = accepted rl ++ [c] /\ base c = accepted rl.
Proof.
  intros [He Hb Hc] Ha Hep Hp. destruct (append_commit _ _ _ _ _ Ha) as (E1 & E2 & E3 & E4).
  assert (base c = accepted rl) as Eb by (apply prefix_same_length; [done|lia]).
  split_and!; [|done..]. split.
  - rewrite E2, E3, length_app. cbn. lia.
  - intros k x. rewrite E2. intros [Hk|[Hk Hx]]%lookup_app_Some.
    + rewrite take_app_le by (apply lookup_lt_Some in Hk; lia). by apply Hb.
    + apply list_lookup_singleton_Some in Hx as [Hx <-]. rewrite take_app_le, take_ge by lia. done.
  - rewrite E4. intros p [Hin|Hin]%elem_of_app; [by apply Hc|]. apply list_elem_of_singleton in Hin. congruence.
Qed.

(** *** One device *)

Lemma station_ok_mono next next' acc acc' st :
  (next <= next')%nat -> acc `prefix_of` acc' -> station_ok next acc st -> station_ok next' acc' st.
Proof.
  intros Hn [k ->] [H1 H2 H3 H4 H5]. split.
  - by apply prefix_app_r.
  - intros t Ht. destruct (H2 t Ht). split; [done|lia].
  - intros p seq Hp. rewrite elem_of_app. destruct (H3 p seq Hp); tauto.
  - intros rid a Hr. pose proof (H4 rid a Hr). lia.
  - intros t seq Ht Hr. apply lookup_app_l_Some. by eapply H5.
Qed.

Lemma deliver_msg_ok next acc st p seq :
  station_ok next acc st -> p ∈ acc \/ content p -> station_ok next acc (deliver (Msg p seq) st).
Proof.
  intros [H1 H2 H3 H4 H5] Hp. split; cbn; [done|done|..].
  - intros q s' [Hq|Hq]%elem_of_app; [by eapply H3|]. apply list_elem_of_singleton in Hq as [= -> ->]. done.
  - intros rid a [Hq|Hq]%elem_of_app; [by eapply H4|]. by apply list_elem_of_singleton in Hq.
  - intros t s' Ht [Hq|Hq]%elem_of_app; [by eapply H5|]. by apply list_elem_of_singleton in Hq.
Qed.

Lemma deliver_reply_ok next acc st rid a :
  station_ok next acc st -> (rid < next)%nat ->
  (forall t seq, st_task st = Some t -> tk_rid t = rid -> a = Sent seq -> acc !! length (base (tk_commit t)) = Some (tk_commit t)) ->
  station_ok next acc (deliver (Reply rid a) st).
Proof.
  intros [H1 H2 H3 H4 H5] Hr Hs. split; cbn; [done|done|..].
  - intros q s' [Hq|Hq]%elem_of_app; [by eapply H3|]. by apply list_elem_of_singleton in Hq.
  - intros r' a' [Hq|Hq]%elem_of_app; [by eapply H4|]. apply list_elem_of_singleton in Hq as [= -> ->]. done.
  - intros t s' Ht [Hq|Hq]%elem_of_app; [by eapply H5|]. apply list_elem_of_singleton in Hq as [= <- <-]. by eapply Hs.
Qed.

Lemma stage_ok nd x nd' epoch c ch :
  stage nd x = Some (nd', epoch, c, ch) ->
  staged (nd_mls nd) = None /\ staged (nd_mls nd') = Some c /\ view (nd_mls nd') = view (nd_mls nd) /\ base c = view (nd_mls nd) /\
  epoch = Z.of_nat (length (base c)) + 1 /\
  (forall u w j, ch = Adding u w -> m_joinFromWelcome w = Some j -> view j = base c ++ [c] /\ staged j = None).
Proof.
  intros Hs. destruct x as [u reply|u]; cbn in Hs.
  - unfold addMember_stage, addMember_cmd in Hs. destruct (kp_payload reply) as [kp|]; [|done].
    destruct (kp_pubkey reply) as [key|]; [|done]. destruct (m_addMember _ _ _ _) as [[[c' w] g]|] eqn:E; [|done].
    injection Hs as <- <- <- <-. destruct (add_stages _ _ _ _ _ _ _ E) as (S1 & S2 & S3 & S4).
    cbn. rewrite view_epoch, S3, <- S4. split_and!; try done. intros ? ? j [= _ <-]. by eapply add_welcomes.
  - case_bool_decide; [done|]. unfold removeMember_stage, removeMember_cmd in Hs.
    destruct (m_removeMember _ _) as [[c' g]|] eqn:E; [|done]. injection Hs as <- <- <- <-.
    destruct (remove_stages _ _ _ _ E) as (S1 & S2 & S3 & S4).
    cbn. rewrite view_epoch, S3, <- S4. split_and!; done.
Qed.

(** What an answer does to the group: the staged commit is merged, or dropped,
    or nothing changes. *)
Lemma finish_mls nd t a l nd' outs :
  finish nd t a l = (nd', outs) ->
  nd_mls nd' = nd_mls nd \/
  (exists seq, a = Sent seq /\ m_mergeStagedCommit (nd_mls nd) = Some (nd_mls nd')) \/
  (exists b, a = Refused b /\ m_discardStagedCommit (nd_mls nd) = Some (nd_mls nd')).
Proof.
  unfold finish, addMember_rest, removeMember_rest, publishCommit, commit_merged, mergeStagedCommit_cmd.
  destruct a as [seq|b].
  - destruct (m_mergeStagedCommit (nd_mls nd)) as [g|] eqn:Em;
      [|destruct (tk_change t); intros [= <- <-]; by left].
    intros Hf. apply (f_equal fst) in Hf. cbn [fst] in Hf. subst nd'. right; left. exists seq. split; [done|].
    f_equal. destruct (tk_change t) as [u w|u].
    + destruct (lk_allowed l), (lk_welcomed l); reflexivity.
    + unfold revokeAllInvites. destruct (rotateHistoryKeys _ _) as [r [rot|e]]; reflexivity.
  - destruct (m_discardStagedCommit (nd_mls nd)) as [g|] eqn:Ed;
      destruct (tk_change t); intros [= <- <-]; eauto 10.
Qed.

Lemma finish_welcomes nd t a l nd' outs i s wel :
  finish nd t a l = (nd', outs) -> (i, s, wel) ∈ welcomes_in outs ->
  tk_change t = Adding i wel /\ exists seq, a = Sent seq.
Proof.
  unfold finish, addMember_rest, removeMember_rest, publishCommit. unfold welcomes_in.
  destruct (tk_change t) as [u w|u], a as [seq|b].
  - destruct (commit_merged nd seq) as [[nd2 ms]|]; [|intros [= _ <-] Hin; by apply elem_of_nil in Hin].
    destruct (lk_allowed l); cbn [negb]; [|intros [= _ <-] Hin; by apply elem_of_nil in Hin].
    destruct (lk_welcomed l); cbn [negb fst]; intros Hf; apply (f_equal snd) in Hf; cbn [snd] in Hf; subst outs;
      cbn [omap list_omap]; intros Hin; apply list_elem_of_singleton in Hin; injection Hin as -> -> ->; split; [done|by eexists|done|by eexists].
  - destruct (m_discardStagedCommit _); intros [= _ <-] Hin; by apply elem_of_nil in Hin.
  - destruct (commit_merged nd seq) as [[nd2 ms]|]; [|intros [= _ <-] Hin; by apply elem_of_nil in Hin].
    destruct (rotateHistoryKeys _ _) as [r [rot|e]]; unfold revokeAllInvites; cbn [fst]; intros Hf;
      apply (f_equal snd) in Hf; cbn [snd] in Hf; subst outs; intros Hin; exfalso.
    + apply list_elem_of_omap in Hin as (o & Ho & Hw). destruct o; try done. clear Hw.
      rewrite !elem_of_app in Ho.
      destruct Ho as [Ho|[Ho|[Ho|[Ho|Ho]]]]; repeat (apply elem_of_cons in Ho as [?|Ho]; [done|]); try by apply elem_of_nil in Ho.
      * apply list_elem_of_fmap in Ho as (? & ? & _). done.
      * destruct (_ && _); [by apply elem_of_nil in Ho|by apply list_elem_of_singleton in Ho].
      * case_bool_decide; [by apply elem_of_nil in Ho|by apply list_elem_of_singleton in Ho].
      * case_bool_decide; [by apply elem_of_nil in Ho|by apply list_elem_of_singleton in Ho].
    + by apply elem_of_nil in Hin.
  - destruct (m_discardStagedCommit _); intros [= _ <-] Hin; by apply elem_of_nil in Hin.
Qed.

Lemma prefix_snoc_lookup {A} (l acc : list A) x : l `prefix_of` acc -> acc !! length l = Some x -> l ++ [x] `prefix_of` acc.
Proof.
  intros [k ->] Hx. rewrite lookup_app_r, Nat.sub_diag in Hx by done. destruct k as [|y k]; [done|]. injection Hx as ->.
  exists k. by rewrite <- app_assoc.
Qed.

Lemma task_base next acc st t : station_ok next acc st -> st_task st = Some t -> base (tk_commit t) `prefix_of` acc.
Proof.
  intros [H1 H2 _ _ _] Ht. destruct (H2 t Ht) as [[_ [[_ <-]|[_ (c & _ & Hp)]] _] _]; [done|].
  etransitivity; [|exact H1]. etransitivity; [|exact Hp]. apply prefix_app_r. done.
Qed.

(** The commit a device waits for was taken, so no other can have come first. *)
Lemma taken_is_staged next acc st t :
  station_ok next acc st -> st_task st = Some t -> acc !! length (base (tk_commit t)) = Some (tk_commit t) ->
  staged (nd_mls (st_node st)) = Some (tk_commit t) /\ view (nd_mls (st_node st)) = base (tk_commit t).
Proof.
  intros [H1 H2 _ _ _] Ht Ha. destruct (H2 t Ht) as [[_ [?|[_ (c & Hc & Hp)]] _] _]; [done|]. exfalso. apply Hc.
  assert (base (tk_commit t) ++ [c] `prefix_of` acc) as [k Ek] by by etransitivity.
  rewrite Ek, <- app_assoc, lookup_app_r, Nat.sub_diag in Ha by done. by injection Ha.
Qed.

Lemma settled_ok next acc st t a l nd' outs inbox :
  station_ok next acc st -> st_task st = Some t -> finish (st_node st) t a l = (nd', outs) ->
  (forall seq, a = Sent seq -> acc !! length (base (tk_commit t)) = Some (tk_commit t)) ->
  (forall x, x ∈ inbox -> x ∈ st_inbox st) ->
  station_ok next acc {| st_node := nd'; st_task := None; st_inbox := inbox |}.
Proof.
  intros Hst Ht Hf Ha Hi. assert (view (nd_mls nd') `prefix_of` acc) as Hv.
  { destruct (finish_mls _ _ _ _ _ _ Hf) as [->|[(seq & -> & E)|(b & -> & E)]]; [apply Hst|..].
    - destruct (merge_adopts _ _ E) as [_ ->]. specialize (Ha seq eq_refl).
      destruct (taken_is_staged next acc st t Hst Ht Ha) as [-> Ev]. rewrite Ev.
      apply prefix_snoc_lookup; [|done]. by eapply task_base.
    - destruct (discard_drops _ _ E) as [_ ->]. apply Hst. }
  destruct Hst as [_ _ H3 H4 _]. split; cbn; [done|done|eauto|eauto|done].
Qed.

Lemma received_ok next rl st p seq inbox nd' :
  relay_ok rl -> station_ok next (accepted rl) st -> st_inbox st = Msg p seq :: inbox -> receive (st_node st) p seq = Some nd' ->
  station_ok next (accepted rl) {| st_node := nd'; st_task := st_task st; st_inbox := inbox |}.
Proof.
  intros Hrl Hst Ei Hr.
  assert (forall x, x ∈ inbox -> x ∈ st_inbox st) as Hin by (rewrite Ei; intros x ?; by right).
  assert (Msg p seq ∈ st_inbox st) as Hp by (rewrite Ei; by left).
  destruct Hst as [H1 H2 H3 H4 H5].
  assert (view (nd_mls nd') `prefix_of` accepted rl /\
          forall t, task_ok (nd_mls (st_node st)) t -> task_ok (nd_mls nd') t) as [Hv Htk].
  { unfold receive in Hr. cbn [nd_mls advance] in Hr. destruct (m_receive _ p) as [[ev g]|] eqn:Em;
      [|injection Hr as <-; split; [done|auto]].
    assert ((exists s e ms, ev = EvMembership s e ms) \/ forall s e ms, ev <> EvMembership s e ms) as [(s & e & ms & ->)|Hno]
      by (destruct ev; [by right|left; eauto|by right]).
    - case_bool_decide; [|done]. injection Hr as <-. cbn.
      destruct (receive_commit _ _ _ _ _ _ Em) as (Eb & Hs & Ev & Es & _). split.
      + rewrite Ev. destruct (H3 p seq Hp) as [[k Hk]%list_elem_of_lookup|Hc]; [|by edestruct Hc].
        pose proof (ro_base _ Hrl k p Hk) as Ek. rewrite <- Eb, Ek. apply prefix_snoc_lookup; [apply prefix_take|].
        rewrite length_take_le; [done|]. apply lookup_lt_Some in Hk. lia.
      + intros t [T1 T2 T3]. split; [done| |done]. right. split; [done|]. rewrite Ev.
        destruct T2 as [[Ts Tv]|[Ts (c & Hc & Tv)]].
        * exists p. split; [intros ->; by rewrite Ts in Hs|]. by rewrite Tv.
        * exists c. split; [done|]. by apply prefix_app_r.
    - destruct (receive_other _ _ _ _ Em Hno) as [Ev Es].
      assert (nd_mls nd' = g) as -> by (destruct ev; [by injection Hr as <-|by edestruct Hno|by injection Hr as <-]).
      rewrite Ev. split; [done|]. intros t [T1 T2 T3]. split; [done| |done]. by rewrite Es, Ev. }
  split; cbn; [done| |eauto|eauto|eauto].
  intros t Ht. destruct (H2 t Ht). split; [by apply Htk|done].
Qed.

Lemma log_after_ok rl seq p s : relay_ok rl -> Msg p s ∈ log_after rl seq -> p ∈ accepted rl \/ content p.
Proof.
  intros [_ _ Hc] Hin. unfold log_after in Hin. apply list_elem_of_lookup in Hin as [k Hk]. rewrite lookup_drop, list_lookup_imap in Hk.
  destruct (rl_log rl !! (Z.to_nat seq + k)%nat) as [[q b]|] eqn:E; [|done]. cbn in Hk. injection Hk as <- _.
  apply list_elem_of_lookup_2 in E. destruct b; [left|right; by apply Hc].
  unfold accepted. apply list_elem_of_fmap. exists (q, true). split; [done|]. by apply list_elem_of_filter.
Qed.

Lemma log_after_msgs rl seq rid a : Reply rid a ∉ log_after rl seq.
Proof.
  intros Hin. unfold log_after in Hin. apply list_elem_of_lookup in Hin as [k Hk]. rewrite lookup_drop, list_lookup_imap in Hk.
  by destruct (rl_log rl !! _).
Qed.

Lemma fresh_station_ok next rl nd inbox :
  relay_ok rl -> view (nd_mls nd) `prefix_of` accepted rl ->
  (inbox = [] \/ exists seq, inbox = log_after rl seq) ->
  station_ok next (accepted rl) {| st_node := nd; st_task := None; st_inbox := inbox |}.
Proof.
  intros Hrl Hv Hi. split; cbn; try done.
  - intros p s Hp. destruct Hi as [->|[seq ->]]; [by apply elem_of_nil in Hp|by eapply log_after_ok].
  - intros rid a Hp. destruct Hi as [->|[seq ->]]; [by apply elem_of_nil in Hp|by apply log_after_msgs in Hp].
Qed.

(** *** Everybody *)

Lemma fan_out_lookup from x m i : fan_out from x m !! i = (fun st => if bool_decide (i = from) then st else deliver x st) <$> m !! i.
Proof. unfold fan_out. rewrite map_lookup_imap. by destruct (m !! i). Qed.

Lemma fan_out_ok next acc from p seq m :
  map_Forall (fun _ => station_ok next acc) m -> p ∈ acc \/ content p ->
  map_Forall (fun _ => station_ok next acc) (fan_out from (Msg p seq) m).
Proof.
  intros Hm Hp i st Hi. rewrite fan_out_lookup in Hi. destruct (m !! i) as [st0|] eqn:E; [|done].
  injection Hi as <-. specialize (Hm i st0 E). case_bool_decide; [done|by apply deliver_msg_ok].
Qed.

Lemma fan_out_task from x m i st : fan_out from x m !! i = Some st ->
  exists st0, m !! i = Some st0 /\ st_task st0 = st_task st.
Proof.
  rewrite fan_out_lookup. destruct (m !! i) as [st0|]; [|done]. intros [= <-]. exists st0. split; [done|]. by case_bool_decide.
Qed.

Lemma stations_mono (next next' : nat) (acc acc' : list payload) (m : gmap jstr station) :
  (next <= next')%nat -> acc `prefix_of` acc' ->
  map_Forall (fun _ => station_ok next acc) m -> map_Forall (fun _ => station_ok next' acc') m.
Proof. intros Hn Ha Hm i st Hi. eapply station_ok_mono; [exact Hn|exact Ha|by eapply Hm]. Qed.

Lemma flight_ok_mono next next' acc acc' f :
  (next <= next')%nat -> acc `prefix_of` acc' -> flight_ok next acc f -> flight_ok next' acc' f.
Proof. intros Hn Ha [H1 H2 H3]. split; [done|by etransitivity|lia]. Qed.

Lemma arrival_ok_mono acc acc' x : acc `prefix_of` acc' -> arrival_ok acc x -> arrival_ok acc' x.
Proof. intros Ha [H1 H2 H3]. split; [done|by etransitivity|done]. Qed.

(** Changing one device, its task among those it had or none. *)
Lemma set_station_keeps w i st :
  in_step w -> station_ok (wd_next w) (accepted (wd_relay w)) st ->
  (forall t, st_task st = Some t -> exists st0, wd_stations w !! i = Some st0 /\ st_task st0 = Some t) ->
  in_step {| wd_relay := wd_relay w; wd_stations := <[i := st]> (wd_stations w); wd_net := wd_net w;
             wd_welcomes := wd_welcomes w; wd_arrivals := wd_arrivals w; wd_next := wd_next w |}.
Proof.
  intros [H1 H2 H3 H4 H5 H6] Hst Ht. split; cbn; try done.
  - by apply map_Forall_insert_2.
  - intros f j st' t Hf Hj Hj2 Hr. destruct (decide (i = j)) as [<-|Hne].
    + rewrite lookup_insert_eq in Hj. injection Hj as <-. destruct (Ht t Hj2) as (st0 & E & E2). by eapply H4.
    + rewrite lookup_insert_ne in Hj by done. by eapply H4.
Qed.

Lemma relay_changes w rl stations net arr :
  in_step w -> relay_ok rl -> accepted (wd_relay w) `prefix_of` accepted rl ->
  map_Forall (fun _ => station_ok (wd_next w) (accepted rl)) stations ->
  (forall i st t, stations !! i = Some st -> st_task st = Some t -> exists st0, wd_stations w !! i = Some st0 /\ st_task st0 = Some t) ->
  (forall f, f ∈ net -> f ∈ wd_net w) -> (forall x, x ∈ arr -> x ∈ wd_arrivals w) ->
  in_step {| wd_relay := rl; wd_stations := stations; wd_net := net; wd_welcomes := wd_welcomes w; wd_arrivals := arr;
             wd_next := wd_next w |}.
Proof.
  intros [H1 H2 H3 H4 H5 H6] Hrl Hacc Hst Htask Hnet Harr. rewrite Forall_forall in H3. rewrite Forall_forall in H6. split; cbn; try done.
  - apply Forall_forall. intros f Hf. eapply flight_ok_mono; [done|exact Hacc|by apply H3, Hnet].
  - intros f i st t Hf Hi Ht Hr. destruct (Htask i st t Hi Ht) as (st0 & E & E2). eapply H4; eauto.
  - intros i s0 wel g Hin Hj. destruct (H5 i s0 wel g Hin Hj). split; [by etransitivity|done].
  - apply Forall_forall. intros x Hx. eapply arrival_ok_mono; [exact Hacc|by apply H6, Harr].
Qed.

(** A commit the relay handles, wherever it comes from. *)
Lemma handled w epoch c rl a :
  in_step w -> append_message (wd_relay w) epoch c true = (rl, a) -> epoch = Z.of_nat (length (base c)) + 1 ->
  base c `prefix_of` accepted (wd_relay w) ->
  relay_ok rl /\ accepted (wd_relay w) `prefix_of` accepted rl /\
  forall seq, a = Sent seq -> accepted rl = accepted (wd_relay w) ++ [c] /\ base c = accepted (wd_relay w) /\ c ∈ accepted rl.
Proof.
  intros Hw Ha He Hb. destruct a as [seq|b].
  - destruct (relay_takes _ _ _ _ _ (is_relay _ Hw) Ha He Hb) as (H1 & H2 & H3). split_and!; [done|rewrite H2; by apply prefix_app_r|].
    intros _ _. split_and!; [done|done|]. rewrite H2. apply elem_of_app. right. by left.
  - apply append_refused in Ha as ->. split_and!; [apply Hw|done|done].
Qed.

Lemma start_keeps w i st x nd' epoch commit ch :
  in_step w -> wd_stations w !! i = Some st -> st_task st = None -> stage (st_node st) x = Some (nd', epoch, commit, ch) ->
  in_step {| wd_relay := wd_relay w;
             wd_stations := <[i := {| st_node := nd';
                                      st_task := Some {| tk_rid := wd_next w; tk_change := ch; tk_epoch := epoch; tk_commit := commit |};
                                      st_inbox := st_inbox st |}]> (wd_stations w);
             wd_net := wd_net w ++ [ {| fl_from := i; fl_rid := wd_next w; fl_epoch := epoch; fl_commit := commit |} ];
             wd_welcomes := wd_welcomes w; wd_arrivals := wd_arrivals w; wd_next := S (wd_next w) |}.
Proof.
  intros Hw Hi Ht Hs. destruct (stage_ok _ _ _ _ _ _ Hs) as (S1 & S2 & S3 & S4 & S5 & S6).
  pose proof (is_stations _ Hw i st Hi) as Hst. pose proof Hw as [H1 H2 H3 H4 H5 H6]. split; cbn; try done.
  - apply map_Forall_insert_2; [|by eapply stations_mono; [|done|exact H2]; lia].
    destruct Hst as [V1 V2 V3 V4 V5]. split; cbn.
    + by rewrite S3.
    + intros t [= <-]. cbn. split; [|lia]. split; cbn; [done| |done]. left. by rewrite S3, S4.
    + done.
    + intros rid a Hr. pose proof (V4 rid a Hr). lia.
    + intros t seq [= <-] Hr. cbn in *. pose proof (V4 _ _ Hr). lia.
  - apply Forall_app. split; [|constructor; [|done]].
    + eapply Forall_impl; [exact H3|]. intros f. apply flight_ok_mono; [lia|done].
    + split; cbn; [done|rewrite S4; apply Hst|lia].
  - intros f j st' t Hf Hj Hj2 Hr. rewrite Forall_forall in H3.
    assert ((j = i /\ t = {| tk_rid := wd_next w; tk_change := ch; tk_epoch := epoch; tk_commit := commit |}) \/
            (j <> i /\ wd_stations w !! j = Some st')) as Hcase.
    { destruct (decide (i = j)) as [<-|Hne]; [left|right; by rewrite lookup_insert_ne in Hj].
      rewrite lookup_insert_eq in Hj. injection Hj as <-. by injection Hj2 as <-. }
    apply elem_of_app in Hf as [Hf|Hf%list_elem_of_singleton].
    + destruct Hcase as [[-> ->]|[_ Hj']]; [|by eapply H4]. cbn in Hr. pose proof (fo_rid _ _ _ (H3 f Hf)). lia.
    + subst f. cbn in Hr. destruct Hcase as [[-> ->]|[_ Hj']]; [done|].
      destruct (so_task _ _ _ (H2 j st' Hj') t Hj2). lia.
Qed.

Lemma relay_keeps w net1 f net2 rl a :
  in_step w -> wd_net w = net1 ++ f :: net2 -> append_message (wd_relay w) (fl_epoch f) (fl_commit f) true = (rl, a) ->
  in_step {| wd_relay := rl;
             wd_stations := alter (deliver (Reply (fl_rid f) a)) (fl_from f)
               (match a with Sent seq => fan_out (fl_from f) (Msg (fl_commit f) seq) (wd_stations w) | Refused _ => wd_stations w end);
             wd_net := net1 ++ net2; wd_welcomes := wd_welcomes w; wd_arrivals := wd_arrivals w; wd_next := wd_next w |}.
Proof.
  intros Hw En Ha. assert (f ∈ wd_net w) as Hf by (rewrite En, elem_of_app; right; by left).
  pose proof (proj1 (Forall_forall _ _) (is_net _ Hw) f Hf) as [F1 F2 F3].
  destruct (handled _ _ _ _ _ Hw Ha F1 F2) as (Hrl & Hacc & Hs).
  set (m := match a with Sent _ => _ | Refused _ => _ end).
  assert (map_Forall (fun _ => station_ok (wd_next w) (accepted rl)) m) as Hm.
  { pose proof (stations_mono _ _ _ _ _ (le_n (wd_next w)) Hacc (is_stations _ Hw)) as Hm0. unfold m. destruct a as [seq|b]; [|done].
    apply fan_out_ok; [done|]. left. by eapply Hs. }
  assert (forall i st, m !! i = Some st -> exists st0, wd_stations w !! i = Some st0 /\ st_task st0 = st_task st) as Ht.
  { unfold m. intros i st Hi. destruct a; [by eapply fan_out_task|eauto]. }
  apply (relay_changes w); try done.
  - intros i st Hi. rewrite lookup_alter in Hi. case_decide as Heq; [|by eapply Hm].
    subst i. destruct (m !! fl_from f) as [st1|] eqn:E; [|done]. injection Hi as <-.
    apply deliver_reply_ok; [by eapply Hm|done|]. intros t seq Ht1 Hr ->.
    destruct (Ht _ _ E) as (st0 & E0 & Et). destruct (Hs seq eq_refl) as (E1 & E2 & _).
    rewrite (is_own _ Hw f (fl_from f) st0 t Hf E0) by (congruence || done).
    rewrite E1, E2, lookup_app_r, Nat.sub_diag by done. done.
  - intros i st t Hi Ht1. rewrite lookup_alter in Hi. case_decide as Heq.
    + subst i. destruct (m !! fl_from f) as [st1|] eqn:E; [|done]. injection Hi as <-.
      destruct (Ht _ _ E) as (st0 & E0 & Et). exists st0. split; [done|]. by rewrite Et.
    + destruct (Ht _ _ Hi) as (st0 & E0 & Et). exists st0. split; [done|]. by rewrite Et.
  - intros f' Hf'. rewrite En. rewrite elem_of_app in Hf' |- *. rewrite elem_of_cons. tauto.
Qed.

Lemma say_keeps w i st text p g rl seq :
  in_step w -> wd_stations w !! i = Some st -> m_send (nd_mls (st_node st)) text = Some (p, g) ->
  append_message (wd_relay w) (m_epoch g) p false = (rl, Sent seq) ->
  in_step {| wd_relay := rl;
             wd_stations := fan_out i (Msg p seq)
               (<[i := {| st_node := persistState (set_mls (st_node st) g) g; st_task := st_task st; st_inbox := st_inbox st |}]>
                  (wd_stations w));
             wd_net := wd_net w; wd_welcomes := wd_welcomes w; wd_arrivals := wd_arrivals w; wd_next := wd_next w |}.
Proof.
  intros Hw Hi Hs Ha. destruct (append_content _ _ _ _ _ Ha) as (A1 & A2 & A3). destruct (send_keeps _ _ _ _ Hs) as [Es Ev].
  assert (content p) as Hc by (intros h s0 e ms h'; by eapply send_content).
  assert (relay_ok rl) as Hrl.
  { destruct (is_relay _ Hw) as [R1 R2 R3]. split; rewrite ?A1, ?A2; [done|done|]. rewrite A3.
    intros q [Hq|Hq%list_elem_of_singleton]%elem_of_app; [by apply R3|]. by injection Hq as ->. }
  apply (relay_changes w); try done; [by rewrite A1| |].
  - apply fan_out_ok; [|by right]. rewrite A1. apply map_Forall_insert_2; [|apply Hw].
    destruct (is_stations _ Hw i st Hi) as [V1 V2 V3 V4 V5]. split; cbn; try done; [by rewrite Ev|].
    intros t Ht. destruct (V2 t Ht) as [[T1 T2 T3] Hr]. split; [|done]. split; [done| |done]. by rewrite Es, Ev.
  - intros j st' t Hj Ht. destruct (fan_out_task _ _ _ _ _ Hj) as (st0 & E & Et).
    destruct (decide (i = j)) as [<-|Hne].
    + rewrite lookup_insert_eq in E. injection E as <-. exists st. split; [done|]. cbn in Et. by rewrite Et.
    + rewrite lookup_insert_ne in E by done. exists st0. split; [done|]. by rewrite Et.
Qed.

Lemma joined_keeps w a1 x a2 rl a nd (heard : bool) :
  in_step w -> wd_arrivals w = a1 ++ x :: a2 -> append_message (wd_relay w) (ar_epoch x) (ar_commit x) true = (rl, a) ->
  nd_mls nd = ar_mls x ->
  in_step {| wd_relay := rl;
             wd_stations := match a with
               | Sent seq =>
                   let m := fan_out (ar_who x) (Msg (ar_commit x) seq) (wd_stations w) in
                   if heard then <[ar_who x := {| st_node := nd; st_task := None; st_inbox := [] |}]> m else m
               | Refused _ => wd_stations w
               end;
             wd_net := wd_net w; wd_welcomes := wd_welcomes w; wd_arrivals := a1 ++ a2; wd_next := wd_next w |}.
Proof.
  intros Hw En Ha Hn. assert (x ∈ wd_arrivals w) as Hx by (rewrite En, elem_of_app; right; by left).
  pose proof (proj1 (Forall_forall _ _) (is_arrivals _ Hw) x Hx) as [F1 F2 [F3 _]].
  destruct (handled _ _ _ _ _ Hw Ha F1 F2) as (Hrl & Hacc & Hs).
  pose proof (stations_mono _ _ _ _ _ (le_n (wd_next w)) Hacc (is_stations _ Hw)) as Hm0.
  apply (relay_changes w); try done.
  - destruct a as [seq|b]; [|done]. destruct (Hs seq eq_refl) as (E1 & E2 & E3). cbn zeta.
    assert (map_Forall (fun _ => station_ok (wd_next w) (accepted rl)) (fan_out (ar_who x) (Msg (ar_commit x) seq) (wd_stations w)))
      by (apply fan_out_ok; [done|by left]).
    destruct heard; [|done]. apply map_Forall_insert_2; [|done].
    apply fresh_station_ok; [done| |by left]. by rewrite Hn, F3, E1, E2.
  - intros i st t Hi Ht. destruct a as [seq|b]; [|by eauto]. cbn zeta in Hi.
    assert (fan_out (ar_who x) (Msg (ar_commit x) seq) (wd_stations w) !! i = Some st) as Hi'.
    { destruct heard; [|done]. destruct (decide (ar_who x = i)) as [<-|Hne]; [|by rewrite lookup_insert_ne in Hi].
      rewrite lookup_insert_eq in Hi. by injection Hi as <-. }
    destruct (fan_out_task _ _ _ _ _ Hi') as (st0 & E & Et). exists st0. split; [done|]. by rewrite Et.
  - intros y Hy. rewrite En. rewrite elem_of_app in Hy |- *. rewrite elem_of_cons. tauto.
Qed.

Lemma answer_keeps w i st t a inbox l nd' outs :
  in_step w -> wd_stations w !! i = Some st -> st_task st = Some t -> st_inbox st = Reply (tk_rid t) a :: inbox ->
  finish (st_node st) t a l = (nd', outs) ->
  in_step {| wd_relay := wd_relay w;
             wd_stations := <[i := {| st_node := nd'; st_task := None; st_inbox := inbox |}]> (wd_stations w);
             wd_net := wd_net w; wd_welcomes := wd_welcomes w ++ welcomes_in outs; wd_arrivals := wd_arrivals w;
             wd_next := wd_next w |}.
Proof.
  intros Hw Hi Ht Hin Hf. pose proof (is_stations _ Hw i st Hi) as Hst.
  assert (forall seq, a = Sent seq -> accepted (wd_relay w) !! length (base (tk_commit t)) = Some (tk_commit t)) as Ha.
  { intros seq ->. eapply (so_reply _ _ _ Hst t seq Ht). rewrite Hin. by left. }
  assert (in_step {| wd_relay := wd_relay w;
    wd_stations := <[i := {| st_node := nd'; st_task := None; st_inbox := inbox |}]> (wd_stations w);
    wd_net := wd_net w; wd_welcomes := wd_welcomes w; wd_arrivals := wd_arrivals w; wd_next := wd_next w |}) as [H1 H2 H3 H4 H5 H6].
  { apply set_station_keeps; [done| |done]. eapply settled_ok; [exact Hst|done|done|done|]. rewrite Hin. intros x Hx. by right. }
  split; try done. cbn. intros j s0 wel g [Hw'|Hw']%elem_of_app Hj; [by eapply H5|].
  destruct (finish_welcomes _ _ _ _ _ _ _ _ _ Hf Hw') as (Ec & seq & ->).
  destruct (so_task _ _ _ Hst t Ht) as [[_ _ T3] _]. destruct (T3 _ _ _ Ec Hj) as [-> Es]. split; [|done].
  apply prefix_snoc_lookup; [exact (task_base _ _ _ _ Hst Ht)|by eapply Ha].
Qed.

Lemma step_keeps w w' : in_step w -> step w w' -> in_step w'.
Proof.
  intros Hw Hs. destruct Hs.
  - by eapply start_keeps.
  - by apply relay_keeps.
  - by eapply say_keeps.
  - by eapply answer_keeps.
  - apply set_station_keeps; [done| |eauto]. destruct (is_stations _ Hw i st H) as [V1 V2 V3 V4 V5].
    split; cbn; try done; rewrite H1 in *; intros; [eapply V3|eapply V4|eapply V5]; try done; by right.
  - destruct (receive (st_node st) p seq) as [nd|] eqn:E.
    + apply set_station_keeps; [done| |eauto]. eapply received_ok; [apply Hw|exact (is_stations _ Hw _ _ H)|done|done].
    + destruct Hw as [W1 W2 W3 W4 W5 W6]. split; cbn; try done.
      * by apply map_Forall_delete.
      * intros f j st' t Hf Hj Ht Hr. apply lookup_delete_Some in Hj as [_ Hj]. by eapply W4.
  - apply set_station_keeps; [done| |done]. eapply settled_ok; [exact (is_stations _ Hw _ _ H)|done|done|done|done].
  - apply set_station_keeps; [done| |done]. apply fresh_station_ok; [apply Hw|apply (is_stations _ Hw _ _ H)|eauto].
  - apply set_station_keeps; [done| |done]. apply fresh_station_ok; [apply Hw| |eauto].
    subst g. by eapply (is_welcomes _ Hw).
  - destruct (external_joins _ _ _ H0) as (E1 & E2 & E3). destruct Hw as [W1 W2 W3 W4 W5 W6]. split; cbn; try done.
    apply Forall_app. split; [done|]. constructor; [|done]. split; cbn.
    + rewrite view_epoch, E2, E1, length_app. cbn. lia.
    + rewrite E1. by eapply so_view, W2.
    + by rewrite E2, E1.
  - by apply joined_keeps.
Qed.

(** A circle as its founder makes it. *)
Definition founded (me : jstr) (nd : node) : world :=
  {| wd_relay := {| rl_epoch := 0; rl_log := [] |};
     wd_stations := {[ me := {| st_node := nd; st_task := None; st_inbox := [] |} ]};
     wd_net := []; wd_welcomes := []; wd_arrivals := []; wd_next := 0 |}.

Lemma founded_ok me nd : view (nd_mls nd) = [] -> in_step (founded me nd).
Proof.
  intros Hv. assert (relay_ok {| rl_epoch := 0; rl_log := [] |}) as Hrl
    by (split; cbn; try done; intros p Hp; by apply elem_of_nil in Hp).
  split; cbn; try done.
  - apply map_Forall_singleton, (fresh_station_ok _ {| rl_epoch := 0; rl_log := [] |}); [done|by rewrite Hv|by left].
  - intros f i st t Hf. by apply elem_of_nil in Hf.
  - intros i s0 wel g Hin. by apply elem_of_nil in Hin.
Qed.

Lemma reached_ok me nd w : view (nd_mls nd) = [] -> rtc step (founded me nd) w -> in_step w.
Proof.
  intros Hv Hr. pose proof (founded_ok me nd Hv) as H0. induction Hr as [|x y z Hs Hr IH]; [done|].
  apply IH. by eapply step_keeps.
Qed.

(** C11: the devices of a circle never fork, as long as each makes one change of
    members at a time and none is reloaded (the loss of what was merged and not
    stored is shown below, and so is the fork of two changes under way on one
    device).  Whoever adds, removes, joins and speaks, in whatever order the
    relay handles requests, answers come late, are lost or find nobody waiting,
    connections drop and logs are read again: what a device has merged is always
    an initial part of the commits the relay took, so two devices of one epoch
    have merged the same commits. *)
Theorem devices_never_fork me nd w i j sti stj :
  view (nd_mls nd) = [] -> rtc step (founded me nd) w ->
  wd_stations w !! i = Some sti -> wd_stations w !! j = Some stj ->
  view (nd_mls (st_node sti)) `prefix_of` accepted (wd_relay w) /\
  (m_epoch (nd_mls (st_node sti)) = m_epoch (nd_mls (st_node stj)) ->
   view (nd_mls (st_node sti)) = view (nd_mls (st_node stj))).
Proof.
  intros Hv Hr Hi Hj. pose proof (reached_ok me nd w Hv Hr) as Hw.
  pose proof (so_view _ _ _ (is_stations _ Hw i sti Hi)) as Pi. pose proof (so_view _ _ _ (is_stations _ Hw j stj Hj)) as Pj.
  split; [done|]. rewrite !view_epoch. intros He.
  destruct (prefix_weak_total _ _ _ Pi Pj) as [Hp|Hp]; [|symmetry]; apply prefix_same_length; done || lia.
Qed.


(** C15: removing a member closes every door.  When the removal went through,
    the member is in neither the roster nor the roles, the relay was asked to
    stop serving them and to revoke every invite link, of which the device
    keeps none.  Every channel that has a log has a key that was just drawn, at
    the same place in the relay, with the key it had first among the old ones,
    and those who stay are sent the shape with the new keys. *)
Theorem removal_closes_every_door nd user nd1 epoch c seq fresh ok nd' outs :
  removeMember_stage nd user = Some (nd1, epoch, c) ->
  removeMember_rest nd1 user epoch (Sent seq) fresh ok = (nd', outs, true) ->
  user ∉ default [] (c_members (nd_circle nd')) /\
  truthy (match nd_roles nd' with Some o => default VUndef (obj_get o user) | None => VUndef end) = false /\
  Disallow user ∈ outs /\ (forall i, i ∈ nd_invites nd -> Revoke i ∈ outs) /\ nd_invites nd' = [] /\
  forall metas ch meta,
    c_chanMeta (nd_circle nd) = Some metas -> NoDup metas.*1 -> (length metas <= length fresh)%nat ->
    obj_get metas ch = Some meta -> keyless meta = false ->
    Content (metaContent (nd_circle nd')) ∈ outs /\
    exists key old, key ∈ fresh /\ iterate (meta.["hkeys"] ⁇ VArr []) = Ok old /\
      (chanMeta_at (nd_circle nd') ch).["hid"] = meta.["hid"] /\
      (chanMeta_at (nd_circle nd') ch).["hkey"] = VStr key /\
      (chanMeta_at (nd_circle nd') ch).["hkeys"] = VArr (meta.["hkey"] :: old).
Proof.
  intros Hs Hr. unfold removeMember_stage, removeMember_cmd in Hs. destruct (m_removeMember _ _) as [[c' g]|] eqn:E; [|done].
  injection Hs as <- <- <-. unfold removeMember_rest, publishCommit, commit_merged, mergeStagedCommit_cmd in Hr.
  cbn [nd_mls persistState set_mls] in Hr. destruct (m_mergeStagedCommit g) as [g'|] eqn:Em; [|done].
  pose proof (remove_excludes _ _ _ _ _ E Em) as Hx.
  match type of Hr with context [rotateHistoryKeys ?a ?b] => destruct (rotateHistoryKeys a b) as [r [rot|e]] eqn:Er; [|done] end.
  unfold revokeAllInvites in Hr. apply (f_equal fst) in Hr. cbn [fst] in Hr.
  pose proof (f_equal fst Hr) as Hn. pose proof (f_equal snd Hr) as Ho. cbn [fst snd] in Hn, Ho. clear Hr. subst nd' outs.
  assert (c_members r = Some (m_members g')) as Em2.
  { unfold rotateHistoryKeys in Er. cbn in Er. destruct (c_chanMeta (nd_circle nd)); [|by injection Er as <- _].
    destruct (rotate_all _ _ _) as [mm rr]. by injection Er as <- _. }
  split_and!.
  - cbn. rewrite Em2. done.
  - cbn. unfold drop_role. destruct (nd_roles nd) as [o|]; [|done].
    destruct (truthy (prop (VObj o) user)) eqn:Et; cbn.
    + by rewrite obj_get_delete, str_eqb_refl.
    + cbn in Et. destruct (obj_get o user); done.
  - by left.
  - intros i Hi. apply elem_of_app. right. apply elem_of_app. left. by apply list_elem_of_fmap_2.
  - done.
  - intros metas ch meta Emet Hnd Hlen Hch Hkl.
    destruct (LogFacts.rotated_channel _ _ _ _ metas ch meta Er Emet Hnd Hlen Hch Hkl) as [Hin Hkey]. split; [|exact Hkey].
    apply elem_of_app. right. apply elem_of_app. right. apply elem_of_app. left.
    rewrite bool_decide_eq_false_2 by (intros ->; by apply elem_of_nil in Hin). by left.
Qed.

(** *** What goes wrong *)

Lemma delete_loop_stuck nd others sends : staged (nd_mls nd) <> None -> delete_loop nd others sends = (nd, []).
Proof.
  intros Hs. induction others as [|u others IH]; cbn [delete_loop]; [done|]. unfold removeMember_cmd.
  destruct (m_removeMember _ _) as [[c g]|] eqn:E; [|done]. by destruct (remove_stages _ _ _ _ E).
Qed.

Lemma delete_loop_once nd others sends : (length (delete_loop nd others sends).2 <= 1)%nat.
Proof.
  revert nd. induction others as [|u others IH]; intros nd; cbn [delete_loop]; [cbn; lia|]. unfold removeMember_cmd.
  destruct (m_removeMember _ _) as [[c g]|] eqn:E; [|apply IH]. destruct (remove_stages _ _ _ _ E) as (_ & Es & _).
  destruct sends as [|[seq|] more]; rewrite delete_loop_stuck by (cbn; by rewrite Es); cbn; lia.
Qed.

Definition is_rekey (o : out) : bool := match o with Commit _ _ => true | _ => false end.

(** Deleting a circle re-keys one member out at most: the commit stays staged,
    and with one staged no other removal can be. *)
Theorem delete_removes_one nd sends :
  (length (filter (fun o => is_rekey o = true) (deleteServer nd sends)) <= 1)%nat.
Proof.
  unfold deleteServer. rewrite filter_app, length_app. cbn. rewrite Nat.add_0_r.
  etransitivity; [apply length_filter|]. apply delete_loop_once.
Qed.

(** A device that does not hear that its commit was taken is stranded: it
    cannot read its own commit, and no other the relay took follows what it
    has. *)
Theorem unheard_commit_strands rl g c p s e ms g' :
  relay_ok rl -> accepted rl !! length (view g) = Some c -> (forall r, m_receive g c <> Some r) -> p ∈ accepted rl ->
  m_receive g p <> Some (EvMembership s e ms, g').
Proof.
  intros Hrl Hc Hown Hp Hr. destruct (receive_commit _ _ _ _ _ _ Hr) as (Eb & _).
  apply list_elem_of_lookup in Hp as [k Hk]. rewrite (ro_base _ Hrl k p Hk) in Eb.
  assert (length (view g) = k) as Ek.
  { rewrite <- Eb, length_take_le; [done|]. apply lookup_lt_Some in Hk. lia. }
  rewrite Ek, Hk in Hc. injection Hc as ->. by eapply Hown.
Qed.

(** The merged state of a removal is not stored: unless new keys or revoked
    links make the device send something, what it would start from again is
    the state with the commit still staged. *)
Theorem removal_not_stored nd user nd1 epoch c seq fresh ok nd' outs :
  removeMember_stage nd user = Some (nd1, epoch, c) ->
  removeMember_rest nd1 user epoch (Sent seq) fresh ok = (nd', outs, true) ->
  staged (nd_disk nd') = Some c /\ view (nd_disk nd') = view (nd_mls nd) /\ view (nd_mls nd') = view (nd_mls nd) ++ [c].
Proof.
  intros Hs Hr. unfold removeMember_stage, removeMember_cmd in Hs. destruct (m_removeMember _ _) as [[c' g]|] eqn:E; [|done].
  injection Hs as <- <- <-. destruct (remove_stages _ _ _ _ E) as (_ & Es & Ev & _).
  unfold removeMember_rest, publishCommit, commit_merged, mergeStagedCommit_cmd in Hr.
  cbn [nd_mls persistState set_mls] in Hr. destruct (m_mergeStagedCommit g) as [g'|] eqn:Em; [|done].
  destruct (rotateHistoryKeys _ _) as [r [rot|e]]; [|done]. unfold revokeAllInvites in Hr.
  apply (f_equal (fun x => x.1.1)) in Hr. cbn [fst] in Hr. subst nd'. cbn.
  destruct (merge_adopts _ _ Em) as [_ ->]. by rewrite Es, Ev.
Qed.

(** A candidate whose [allow] fails is in the group and gets no welcome, and the
    adder's record does not say so. *)
Theorem failed_allow_leaves_ghost nd user epoch welcome seq welcomed nd' outs g :
  m_mergeStagedCommit (nd_mls nd) = Some g ->
  addMember_rest nd user epoch welcome (Sent seq) false welcomed = (nd', outs, false) ->
  nd_mls nd' = g /\ welcomes_in outs = [] /\ c_members (nd_circle nd') = c_members (nd_circle nd) /\ nd_epoch nd' = nd_epoch nd.
Proof.
  intros Hm Hr. unfold addMember_rest, publishCommit, commit_merged, mergeStagedCommit_cmd in Hr. rewrite Hm in Hr.
  cbn in Hr. by injection Hr as <- <-.
Qed.
End commits.
End Commits.

(** ** A group that keeps the laws

    Messages as trees: a commit carries its author, what it does and the
    commits it follows. *)

Module ToyMls.
Import Members Commits.

Notation tree := (gen_tree jstr).

Definition op_add : jstr := [97%N].
Definition op_remove : jstr := [114%N].
Definition guest : jstr := [103%N].

Record toy := { ty_me : jstr; ty_view : list tree; ty_staged : option tree; ty_members : list jstr }.

Definition commit (author op target : jstr) (follows : list tree) : tree :=
  GenNode 0 (GenLeaf author :: GenLeaf op :: GenLeaf target :: follows).

Definition follows (p : tree) : list tree :=
  match p with GenNode 0 (_ :: _ :: _ :: l) => l | _ => [] end.

Definition changed (ms : list jstr) (p : tree) : list jstr :=
  match p with
  | GenNode 0 (GenLeaf _ :: GenLeaf op :: GenLeaf t :: _) =>
      if bool_decide (op = op_add) then ms ++ [t] else filter (fun m => m <> t) ms
  | _ => ms
  end.

Definition stage_toy (g : toy) (op target : jstr) : option (tree * toy) :=
  match ty_staged g with
  | Some _ => None
  | None => let c := commit (ty_me g) op target (ty_view g) in
            Some (c, {| ty_me := ty_me g; ty_view := ty_view g; ty_staged := Some c; ty_members := ty_members g |})
  end.

Definition take_toy (g : toy) (p : tree) : toy :=
  {| ty_me := ty_me g; ty_view := ty_view g ++ [p]; ty_staged := None; ty_members := changed (ty_members g) p |}.

Definition welcome_toy (g : toy) (c : tree) (u : jstr) : tree :=
  GenNode 1 [GenLeaf u; c; GenNode 2 (GenLeaf <$> changed (ty_members g) c)].

Definition names_of (l : list tree) : list jstr := omap (fun t => match t with GenLeaf x => Some x | _ => None end) l.

Definition receive_toy (g : toy) (p : tree) : option (mls_event * toy) :=
  match p with
  | GenLeaf t => Some (EvMessage [] t, g)
  | GenNode 0 (GenLeaf a :: _) =>
      if bool_decide (follows p = ty_view g) && bool_decide (a <> ty_me g) && bool_decide (ty_staged g <> Some p)
      then Some (EvMembership a (Z.of_nat (length (ty_view g)) + 1) (changed (ty_members g) p), take_toy g p) else None
  | _ => None
  end.

#[export] Instance toy_mls : Mls := {|
  payload := tree; mls := toy;
  m_epoch g := Z.of_nat (length (ty_view g));
  m_members := ty_members;
  m_addMember g _ u _ := match stage_toy g op_add u with Some (c, g') => Some (c, welcome_toy g c u, g') | None => None end;
  m_removeMember g u := stage_toy g op_remove u;
  m_mergeStagedCommit g := Some match ty_staged g with Some c => take_toy g c | None => g end;
  m_discardStagedCommit g := Some {| ty_me := ty_me g; ty_view := ty_view g; ty_staged := None; ty_members := ty_members g |};
  m_send g t := Some (GenLeaf t, g);
  m_receive := receive_toy;
  m_joinFromWelcome w := match w with
    | GenNode 1 [GenLeaf u; c; GenNode 2 ms] =>
        Some {| ty_me := u; ty_view := follows c ++ [c]; ty_staged := None; ty_members := names_of ms |}
    | _ => None
    end;
  m_exportGroupInfo g := GenNode 3 (GenNode 2 (GenLeaf <$> ty_members g) :: ty_view g);
  m_joinByExternalCommit p := match p with
    | GenNode 3 (GenNode 2 ms :: v) =>
        let c := commit guest op_add guest v in
        Some (c, {| ty_me := guest; ty_view := v ++ [c]; ty_staged := None; ty_members := changed (names_of ms) c |})
    | _ => None
    end;
|}.

#[local] Arguments stage_toy : simpl never.
#[local] Arguments receive_toy : simpl never.
#[local] Arguments changed : simpl never.

Lemma stage_toy_ok g op u c g' : stage_toy g op u = Some (c, g') ->
  ty_staged g = None /\ ty_staged g' = Some c /\ ty_view g' = ty_view g /\ follows c = ty_view g /\
  c = commit (ty_me g) op u (ty_view g) /\ ty_members g' = ty_members g.
Proof. unfold stage_toy. destruct (ty_staged g) eqn:E; [done|]. intros [= <- <-]. done. Qed.

Lemma receive_toy_commit g p s e ms g' : receive_toy g p = Some (EvMembership s e ms, g') ->
  follows p = ty_view g /\ ty_staged g <> Some p /\ g' = take_toy g p /\ ms = changed (ty_members g) p.
Proof.
  unfold receive_toy. destruct p as [t|[|k] [|[a|] l]]; try done.
  destruct (bool_decide _ && _ && _) eqn:E; [|done]. intros [= _ _ <- <-].
  rewrite !andb_true_iff, !bool_decide_eq_true in E. tauto.
Qed.

#[export] Instance toy_laws : MlsLaws.
Proof.
  refine (Build_MlsLaws _ ty_view ty_staged follows _ _ _ _ _ _ _ _ _ _ _ _).
  - done.
  - intros g kp u k c w g'. cbn. destruct (stage_toy g op_add u) as [[c0 g0]|] eqn:E; [|done]. intros [= <- _ <-].
    destruct (stage_toy_ok _ _ _ _ _ E) as (? & ? & ? & ? & _). done.
  - intros g kp u k c w g' j. cbn. destruct (stage_toy g op_add u) as [[c0 g0]|] eqn:E; [|done]. intros [= <- <- <-].
    unfold welcome_toy. intros [= <-]. done.
  - intros g u c g' E. cbn in E. destruct (stage_toy_ok _ _ _ _ _ E) as (? & ? & ? & ? & _). done.
  - intros g u c g' g'' E Em. cbn in E, Em. destruct (stage_toy_ok _ _ _ _ _ E) as (_ & Es & _ & _ & Ec & Emm).
    rewrite Es in Em. injection Em as <-. cbn. rewrite Ec. unfold changed, commit.
    rewrite bool_decide_eq_false_2 by (intros Hx; vm_compute in Hx; discriminate). rewrite list_elem_of_filter. tauto.
  - intros g g' [= <-]. destruct (ty_staged g) as [c|] eqn:E; [done|]. rewrite E. cbn. by rewrite app_nil_r.
  - intros g g' [= <-]. done.
  - intros g t p g' [= _ <-]. done.
  - intros g t p g' h s e ms h' [= <- _]. done.
  - intros g p s e ms g' Hr. destruct (receive_toy_commit _ _ _ _ _ _ Hr) as (? & ? & -> & ->). done.
  - intros g p ev g' Hr Hno. cbn in Hr. unfold receive_toy in Hr. destruct p as [t|[|k] [|[a|] l]]; try done.
    + by injection Hr as _ <-.
    + destruct (_ && _); [|done]. injection Hr as <- _. by edestruct Hno.
  - intros g c j [= <- <-]. done.
Defined.

Definition ada : jstr := [1%N].
Definition bob : jstr := [2%N].

Definition den : circle :=
  {| c_id := [9%N]; c_name := VStr [9%N]; c_channels := [VStr [8%N]]; c_voiceChannels := None; c_deletedChannels := None;
     c_deletedVoice := None; c_chanMeta := None; c_overview := None; c_notices := None; c_offers := None; c_proposals := None;
     c_threshold := None; c_rsvps := None; c_members := Some [ada]; c_pendingMetaSync := false |}.

Definition device (me : jstr) (g : toy) : node :=
  {| nd_me := me; nd_circle := den; nd_epoch := 0; nd_lastSeq := 0; nd_roles := None; nd_invites := [[5%N]]; nd_mls := g; nd_disk := g |}.

Definition founder : node := device ada {| ty_me := ada; ty_view := []; ty_staged := None; ty_members := [ada] |}.

Definition kp : kp_reply := {| kp_payload := Some (GenLeaf [3%N]); kp_pubkey := Some (GenLeaf [4%N]) |}.

Definition lucky : luck := {| lk_allowed := true; lk_welcomed := true; lk_fresh := []; lk_revoked := fun _ => true |}.

Definition added : tree := commit ada op_add bob [].

Definition bobs : node := device bob {| ty_me := bob; ty_view := [added]; ty_staged := None; ty_members := [ada; bob] |}.

(** Ada adds Bob, and Bob takes up the welcome. *)
Lemma bob_joins : exists w sti stj,
  rtc step (founded ada founder) w /\ wd_stations w !! ada = Some sti /\ wd_stations w !! bob = Some stj /\
  m_epoch (nd_mls (st_node sti)) = 1 /\ m_epoch (nd_mls (st_node stj)) = 1.
Proof.
  do 3 eexists. split.
  - eapply rtc_l; [eapply (step_start _ ada _ (IAdd bob kp)); reflexivity|].
    eapply rtc_l; [eapply (step_relay _ [] _ []); reflexivity|].
    eapply rtc_l; [eapply (step_answer _ ada _ _ _ _ lucky); reflexivity|].
    eapply rtc_once. eapply (step_welcomed _ bob 1 _ _ bobs); [reflexivity|by left|reflexivity|reflexivity].
  - split; [reflexivity|]. split; [reflexivity|]. split; reflexivity.
Defined.

Lemma devices_never_fork_witness : exists w sti stj,
  wd_stations w !! ada = Some sti /\ wd_stations w !! bob = Some stj /\
  view (nd_mls (st_node sti)) = view (nd_mls (st_node stj)).
Proof.
  destruct bob_joins as (w & sti & stj & Hr & Hi & Hj & Ei & Ej). exists w, sti, stj. split; [exact Hi|]. split; [exact Hj|].
  refine (proj2 (devices_never_fork ada founder w ada bob sti stj _ Hr Hi Hj) _); [reflexivity|by rewrite Ei, Ej].
Defined.


(** The den with a room that has a log. *)
Definition keyed_meta : val := VObj [(js "hid", VStr [6%N]); (js "hkey", VStr [7%N])].

Definition keyed_bobs : node := set_circle bobs (set_chanMeta den (Some [([8%N], keyed_meta)])).

Lemma removal_closes_every_door_witness :
  match removeMember_stage keyed_bobs ada with
  | Some (nd1, epoch, _) =>
      let '(nd', outs, done) := removeMember_rest nd1 ada epoch (Sent 2) [[42%N]] (fun _ => true) in
      done = true /\ ada ∉ default [] (c_members (nd_circle nd')) /\ Revoke [5%N] ∈ outs /\
      exists key, key ∈ [[42%N]] /\ (chanMeta_at (nd_circle nd') [8%N]).["hkey"] = VStr key
  | None => False
  end.
Proof.
  destruct (removeMember_stage keyed_bobs ada) as [[[nd1 epoch] c]|] eqn:E; [|discriminate E].
  destruct (removeMember_rest nd1 ada epoch (Sent 2) [[42%N]] (fun _ => true)) as [[nd' outs] b] eqn:Er.
  assert (b = true) as -> by (injection E as <- <- _; apply (f_equal snd) in Er; vm_compute in Er; exact (eq_sym Er)).
  split; [reflexivity|].
  destruct (removal_closes_every_door keyed_bobs ada nd1 epoch c 2 [[42%N]] (fun _ => true) nd' outs E Er)
    as (Hm & _ & _ & Hr & _ & Hk).
  split; [exact Hm|]. split; [apply Hr; by left|].
  destruct (Hk [([8%N], keyed_meta)] [8%N] keyed_meta) as (_ & key & old & Hin & _ & _ & Hkey & _);
    [reflexivity|apply NoDup_singleton|cbn; lia|reflexivity|vm_compute; reflexivity|]. by exists key.
Defined.

(** Two changes of members at once on one device can fork it: the failure of
    the first drops whatever is staged, and the success of the second merges
    whatever is staged by then.  Here Ada stages three removals in turn while
    Bob's own commit comes first; the relay took her second, she merges her
    third. *)
Theorem overlapping_changes_fork :
  let g0 := {| ty_me := ada; ty_view := []; ty_staged := None; ty_members := [ada; bob; guest] |} in
  let theirs := commit bob op_remove guest [] in
  exists c1 g1 g2 c2 g3 g4 c3 g5 g6,
    m_removeMember g0 bob = Some (c1, g1) /\
    (exists e, m_receive g1 theirs = Some (e, g2)) /\
    m_removeMember g2 bob = Some (c2, g3) /\
    m_discardStagedCommit g3 = Some g4 /\       (** the first was refused *)
    m_removeMember g4 guest = Some (c3, g5) /\
    m_mergeStagedCommit g5 = Some g6 /\         (** the second was taken *)
    view g6 = [theirs; c3] /\ c3 <> c2.
Proof. do 9 eexists. split_and!; try (eexists; reflexivity); try reflexivity. discriminate. Qed.
End ToyMls.
