(* ===== verification/Async.v ===== *)
(** * Async functions that share a state

    An [async] method of a manager object runs to its next [await] without
    interruption; there anything else may run before it goes on.  A program
    [prog] is such a method: it reads and writes the shared state, hands
    things out, starts other methods without waiting for them ([Fork]: up to
    their first [await], as a call does), and waits for a promise ([Await]).

    [exec] runs a program to its next [await]; a [pool] is the shared state
    with everything that waits.  [wp] is a program logic for them: between two
    awaits a program starts in any state with the invariant [I] and owes the
    guarantee [G] from where the segment began; [pool_keeps] is its soundness
    and [segment_guaranteed] says the same of a single segment. *)

From stdpp Require Import base list option relations.
From S2P Require Import Prelude.

Module Async.
Section async.
Context {S Out Op : Type} {Res : Op -> Type}.

Inductive prog (A : Type) : Type :=
| Ret (a : A)
| Raise (e : exn)
| Get (k : S -> prog A)
| Put (s : S) (p : prog A)
| Emit (o : Out) (p : prog A)
| Fork (q : prog unit) (p : prog A)
| Await (op : Op) (k : res (Res op) -> prog A).

#[global] Arguments Ret {A} a.
#[global] Arguments Raise {A} e.
#[global] Arguments Get {A} k.
#[global] Arguments Put {A} s p.
#[global] Arguments Emit {A} o p.
#[global] Arguments Fork {A} q p.
#[global] Arguments Await {A} op k.

Fixpoint bind {A B : Type} (p : prog A) (f : A -> prog B) : prog B :=
  match p with
  | Ret a => f a
  | Raise e => Raise e
  | Get k => Get (fun s => bind (k s) f)
  | Put s q => Put s (bind q f)
  | Emit o q => Emit o (bind q f)
  | Fork q r => Fork q (bind r f)
  | Await op k => Await op (fun r => bind (k r) f)
  end.

(** [try { p } catch (e) { h }]. *)
Fixpoint catch {A : Type} (p : prog A) (h : exn -> prog A) : prog A :=
  match p with
  | Ret a => Ret a
  | Raise e => h e
  | Get k => Get (fun s => catch (k s) h)
  | Put s q => Put s (catch q h)
  | Emit o q => Emit o (catch q h)
  | Fork q r => Fork q (catch r h)
  | Await op k => Await op (fun r => catch (k r) h)
  end.

(** [await] of a promise that is known to be of [op]; a rejection throws. *)
Definition await (op : Op) : prog (Res op) :=
  Await op (fun r => match r with Ok a => Ret a | Throw e => Raise e end).

Definition modify (f : S -> S) : prog unit := Get (fun s => Put (f s) (Ret tt)).
Definition gets {A} (f : S -> A) : prog A := Get (fun s => Ret (f s)).
Definition emit (o : Out) : prog unit := Emit o (Ret tt).
Definition fork (q : prog unit) : prog unit := Fork q (Ret tt).
Definition lift {A} (r : res A) : prog A := match r with Ok a => Ret a | Throw e => Raise e end.
Definition guard_ (b : bool) (p : prog unit) : prog unit := if b then p else Ret tt.

(** [for (const x of l) body(x)]. *)
Fixpoint each {A} (l : list A) (body : A -> prog unit) : prog unit :=
  match l with
  | [] => Ret tt
  | x :: r => bind (body x) (fun _ => each r body)
  end.

(** ** Running *)

Record blocked := Blocked { b_op : Op; b_k : res (Res b_op) -> prog unit }.

Inductive stop (A : Type) : Type :=
| Returned (a : A)
| Raised (e : exn)
| Waits (op : Op) (k : res (Res op) -> prog A).
#[global] Arguments Returned {A} a.
#[global] Arguments Raised {A} e.
#[global] Arguments Waits {A} op k.

Definition left_over (st : stop unit) : list blocked :=
  match st with Waits op k => [Blocked op k] | _ => [] end.

(** To the next [await]: the state, what was handed out, what waits beside,
    and how it stopped. *)
Fixpoint exec {A : Type} (p : prog A) (s : S) : S * list Out * list blocked * stop A :=
  match p with
  | Ret a => (s, [], [], Returned a)
  | Raise e => (s, [], [], Raised e)
  | Get k => exec (k s) s
  | Put s' q => exec q s'
  | Emit o q => let '(s', outs, bs, st) := exec q s in (s', o :: outs, bs, st)
  | Fork q r =>
      let '(s1, outs1, bs1, st1) := exec q s in
      let '(s2, outs2, bs2, st2) := exec r s1 in
      (s2, outs1 ++ outs2, bs1 ++ left_over st1 ++ bs2, st2)
  | Await op k => (s, [], [], Waits op k)
  end.

(** To the end, alone, with everything awaited answered by [ans]: the state,
    what was handed out, and the result. *)
Fixpoint finish {A : Type} (ans : forall op, res (Res op)) (p : prog A) (s : S) : S * list Out * res A :=
  match p with
  | Ret a => (s, [], Ok a)
  | Raise e => (s, [], Throw e)
  | Get k => finish ans (k s) s
  | Put s' q => finish ans q s'
  | Emit o q => let '(s', outs, r) := finish ans q s in (s', o :: outs, r)
  | Fork q r =>
      let '(s1, outs1, _) := finish ans q s in
      let '(s2, outs2, o) := finish ans r s1 in (s2, outs1 ++ outs2, o)
  | Await op k => finish ans (k (ans op)) s
  end.

Lemma finish_bind {A B : Type} ans (p : prog A) (f : A -> prog B) s :
  finish ans (bind p f) s =
  let '(s1, outs1, r) := finish ans p s in
  match r with
  | Ok a => let '(s2, outs2, o) := finish ans (f a) s1 in (s2, outs1 ++ outs2, o)
  | Throw e => (s1, outs1, Throw e)
  end.
Proof.
  revert s. induction p as [A a|A e|A k IH|A s0 p IH|A o p IH|A q IHq p IHp|A op k IH]; intros s; cbn; try done.
  - by destruct (finish ans (f a) s) as [[s2 outs2] o].
  - rewrite IH. destruct (finish ans p s) as [[s1 outs1] [a|e]]; [|done]. by destruct (finish ans (f a) s1) as [[s2 outs2] o'].
  - destruct (finish ans q s) as [[s1 outs1] r]. rewrite IHp. destruct (finish ans p s1) as [[s2 outs2] [a|e]]; [|done].
    destruct (finish ans (f a) s2) as [[s3 outs3] o']. by rewrite app_assoc.
Qed.

Definition after (p : prog unit) (s : S) : S := (exec p s).1.1.1.
Definition waiting (p : prog unit) (s : S) : list blocked :=
  let '(_, _, bs, st) := exec p s in bs ++ left_over st.

Record pool := Pool { pl_state : S; pl_waiting : list blocked }.

(** What may start, and how the platform may change the state by itself. *)
Context (starts : prog unit -> Prop) (env : S -> S -> Prop).

Inductive pool_step : pool -> pool -> Prop :=
| pool_start s w p :
    starts p -> pool_step (Pool s w) (Pool (after p s) (w ++ waiting p s))
| pool_resume s w1 b w2 r :
    pool_step (Pool s (w1 ++ b :: w2)) (Pool (after (b_k b r) s) (w1 ++ w2 ++ waiting (b_k b r) s))
| pool_env s w s' : env s s' -> pool_step (Pool s w) (Pool s' w).

(** *** Given runs *)

Inductive act := Begin (p : prog unit) | Answer (i : nat) (ans : forall op, res (Res op)).

Definition play_one (x : pool) (a : act) : pool :=
  match a with
  | Begin p => Pool (after p (pl_state x)) (pl_waiting x ++ waiting p (pl_state x))
  | Answer i ans =>
      match pl_waiting x !! i with
      | Some b => let q := b_k b (ans (b_op b)) in
          Pool (after q (pl_state x)) (take i (pl_waiting x) ++ drop (Datatypes.S i) (pl_waiting x) ++ waiting q (pl_state x))
      | None => x
      end
  end.

Definition play (acts : list act) (x : pool) : pool := fold_left play_one acts x.

Lemma play_steps acts x : Forall (fun a => match a with Begin p => starts p | Answer _ _ => True end) acts -> rtc pool_step x (play acts x).
Proof.
  intros Ha. revert x. induction Ha as [|a acts Ha _ IH]; intros x; [done|]. cbn [play fold_left].
  etransitivity; [|apply IH]. destruct a as [p|i ans], x as [s w]; cbn; [apply rtc_once; by constructor|].
  destruct (w !! i) as [b|] eqn:E; [|done]. apply rtc_once. rewrite <- (take_drop_middle w i b E) at 1. constructor.
Qed.

(** ** The logic *)

Context (I : S -> Prop) (G : S -> S -> Prop).

(** [wp p s B R]: run from [s], [p] owes [B] where its segment ends; [R] is
    told what is owed when [p] is over. *)
Fixpoint wp {A : Type} (p : prog A) (s : S) (B : S -> Prop) (R : (S -> Prop) -> res A -> S -> Prop) : Prop :=
  match p with
  | Ret a => R B (Ok a) s
  | Raise e => R B (Throw e) s
  | Get k => wp (k s) s B R
  | Put s' q => wp q s' B R
  | Emit o q => wp q s B R
  | Fork q r => wp q s (fun s1 => wp r s1 B R) (fun B' _ s1 => B' s1)
  | Await op k => B s /\ forall s' x, I s' -> wp (k x) s' (G s') R
  end.

(** What is owed at the end is delivered. *)
Definition pays {A} (B : S -> Prop) (_ : res A) (s : S) : Prop := B s.

Definition handles (p : prog unit) : Prop := forall s, I s -> wp p s (G s) pays.

Lemma wp_mono {A : Type} (p : prog A) s (B B' : S -> Prop) (R R' : (S -> Prop) -> res A -> S -> Prop) :
  wp p s B R -> (forall s', B s' -> B' s') -> (forall o s', R B o s' -> R' B' o s') ->
  (forall D o s', R D o s' -> R' D o s') -> wp p s B' R'.
Proof.
  revert s B B' R R'. induction p as [A a|A e|A k IH|A s0 p IH|A o p IH|A q IHq p IHp|A op k IH];
    intros s B B' R R' Hw HB HR HR'; cbn in *; eauto.
  - eapply IHq; [exact Hw| | |]; cbn; [intros..|]; [by eapply IHp|by eapply IHp|done].
  - destruct Hw as [Hs Hk]. split; [by apply HB|]. intros s' x HI. eapply IH; eauto.
Qed.

Lemma wp_bind {A B : Type} (p : prog A) (f : A -> prog B) s D (R : (S -> Prop) -> res B -> S -> Prop) :
  wp p s D (fun D' o s' => match o with Ok a => wp (f a) s' D' R | Throw e => R D' (Throw e) s' end) ->
  wp (bind p f) s D R.
Proof.
  revert s D. induction p as [A a|A e|A k IH|A s0 p IH|A o p IH|A q IHq p IHp|A op k IH]; intros s D Hw; cbn in *; eauto.
  - eapply wp_mono; [exact Hw| | |done]; cbn; intros; by apply IHp.
  - destruct Hw as [Hs Hk]. split; [done|]. intros. by apply IH, Hk.
Qed.

Lemma wp_catch {A : Type} (p : prog A) (h : exn -> prog A) s D (R : (S -> Prop) -> res A -> S -> Prop) :
  wp p s D (fun D' o s' => match o with Ok a => R D' (Ok a) s' | Throw e => wp (h e) s' D' R end) ->
  wp (catch p h) s D R.
Proof.
  revert s D. induction p as [A a|A e|A k IH|A s0 p IH|A o p IH|A q IHq p IHp|A op k IH]; intros s D Hw; cbn in *; eauto.
  - eapply wp_mono; [exact Hw| | |done]; cbn; intros; by apply IHp.
  - destruct Hw as [Hs Hk]. split; [done|]. intros. by apply IH, Hk.
Qed.

(** ** Soundness *)

(** Something that waits, and may go on from any state with [I]. *)
Definition fine (b : blocked) : Prop := forall s x, I s -> wp (b_k b x) s (G s) pays.

Lemma exec_fine {A : Type} (p : prog A) s B R :
  wp p s B R ->
  let '(s', _, bs, st) := exec p s in
  Forall fine bs /\
  match st with
  | Returned a => R B (Ok a) s'
  | Raised e => R B (Throw e) s'
  | Waits op k => B s' /\ forall s1 x, I s1 -> wp (k x) s1 (G s1) R
  end.
Proof using I G.
  revert s B R. induction p as [A a|A e|A k IH|A s0 p IH|A o p IH|A q IHq p IHp|A op k IH]; intros s B R Hw; cbn in *; eauto.
  - exact (IH s s B R Hw).
  - exact (IH s0 B R Hw).
  - specialize (IH _ _ _ Hw). by destruct (exec p s) as [[[s' outs] bs] st].
  - specialize (IHq _ _ _ Hw). destruct (exec q s) as [[[s1 outs1] bs1] st1]. destruct IHq as [Hb1 Hst1].
    assert (wp p s1 B R) as Hp by (destruct st1; cbn in Hst1; [exact Hst1|exact Hst1|exact (proj1 Hst1)]).
    specialize (IHp _ _ _ Hp). destruct (exec p s1) as [[[s2 outs2] bs2] st2]. destruct IHp as [Hb2 Hst2].
    split; [|done]. rewrite !Forall_app. split_and!; [done| |done].
    destruct st1 as [| |op k]; cbn; [constructor..|]. constructor; [|constructor]. destruct Hst1 as [_ Hk]. exact Hk.
Qed.

Lemma segment_owed (p : prog unit) s B : wp p s B pays -> B (after p s) /\ Forall fine (waiting p s).
Proof.
  intros Hw. pose proof (exec_fine p s _ _ Hw) as He. unfold after, waiting.
  destruct (exec p s) as [[[s' outs] bs] st]. destruct He as [Hb Hst]. cbn.
  destruct st as [| |op k]; cbn in *; rewrite ?Forall_app; [done..|].
  destruct Hst as [HB Hk]. split_and!; [done..|]. constructor; [exact Hk|constructor].
Qed.

Record pool_ok (x : pool) : Prop := {
  po_state : I (pl_state x);
  po_waiting : Forall fine (pl_waiting x);
}.

Context (G_keeps : forall s s', G s s' -> I s') (env_keeps : forall s s', env s s' -> I s -> I s')
        (starts_handled : forall p, starts p -> handles p).

Lemma pool_step_keeps x y : pool_step x y -> pool_ok x -> pool_ok y.
Proof.
  intros Hs [HI HW]. destruct Hs as [s w p Hp|s w1 b w2 r|s w s' He]; cbn in *.
  - destruct (segment_owed p s (G s) (starts_handled p Hp s HI)) as [Hg Hf].
    split; cbn; [by eapply G_keeps|]. by apply Forall_app.
  - apply Forall_app in HW as [H1 HW]. apply Forall_cons in HW as [Hb H2].
    destruct (segment_owed (b_k b r) s (G s) (Hb s r HI)) as [Hg Hf].
    split; cbn; [by eapply G_keeps|]. by rewrite !Forall_app.
  - split; cbn; [by eapply env_keeps|done].
Qed.

Lemma pool_keeps x y : rtc pool_step x y -> pool_ok x -> pool_ok y.
Proof. intros Hr. induction Hr as [|x y z Hs _ IH]; [done|]. intros Hx. eapply IH, pool_step_keeps; eauto. Qed.

(** Every segment of what was started gives the guarantee. *)
Lemma segment_guaranteed x y b r w1 w2 :
  pool_ok x -> pl_waiting x = w1 ++ b :: w2 -> y = after (b_k b r) (pl_state x) -> G (pl_state x) y.
Proof.
  intros [HI HW] E ->. rewrite E in HW. apply Forall_app in HW as [_ HW]. apply Forall_cons in HW as [Hb _].
  apply (segment_owed (b_k b r) (pl_state x) (G (pl_state x)) (Hb _ _ HI)).
Qed.

(** The stretches of a program between its awaits: from a state where one
    begins to the state where it stops. *)
Inductive stretch : prog unit -> S -> S -> Prop :=
| stretch_first p s : I s -> stretch p s (after p s)
| stretch_later p s b x s1 s2 : I s -> b ∈ waiting p s -> stretch (b_k b x) s1 s2 -> stretch p s1 s2.

Lemma stretch_guaranteed p s1 s2 : stretch p s1 s2 -> (forall s, I s -> wp p s (G s) pays) -> G s1 s2.
Proof.
  intros Hs. induction Hs as [p s HI|p s b x s1 s2 HI Hb Hs IH]; intros Hp.
  - apply segment_owed. by apply Hp.
  - apply IH. intros s' HI'. destruct (segment_owed p s (G s) (Hp s HI)) as [_ Hf].
    rewrite Forall_forall in Hf. by apply (Hf b Hb).
Qed.

(** ** Specifications

    [spec p Pre Post] over a segment that began in [s0]: from a state [s] with
    [Pre s0 s], the guarantee holds wherever [p] waits, and [Post] relates
    where the last segment began to the end.  [good] is the common case. *)

Context (G_refl : forall s, I s -> G s s).

Definition spec {A : Type} (p : prog A) (Pre : S -> S -> Prop) (Post : res A -> S -> S -> Prop) : Prop :=
  forall s0 s B R, Pre s0 s -> (forall x, G s0 x -> B x) ->
    (forall s1 D o s', (forall x, G s1 x -> D x) -> Post o s1 s' -> R D o s') -> wp p s B R.

Definition good {A : Type} (p : prog A) : Prop := spec p G (fun _ => G).

Lemma spec_ret {A : Type} (a : A) Pre Post : (forall s0 s, Pre s0 s -> Post (Ok a) s0 s) -> spec (Ret a) Pre Post.
Proof. intros H s0 s B R Hp HB HR. cbn. eapply HR; eauto. Qed.

Lemma spec_raise {A : Type} e Pre Post : (forall s0 s, Pre s0 s -> Post (Throw e) s0 s) -> spec (A := A) (Raise e) Pre Post.
Proof. intros H s0 s B R Hp HB HR. cbn. eapply HR; eauto. Qed.

Lemma spec_get {A : Type} (k : S -> prog A) Pre Post :
  (forall v, spec (k v) (fun s0 s => Pre s0 s /\ s = v) Post) -> spec (Get k) Pre Post.
Proof. intros H s0 s B R Hp HB HR. cbn. by apply (H s s0 s B R). Qed.

Lemma spec_emit {A : Type} o (p : prog A) Pre Post : spec p Pre Post -> spec (Emit o p) Pre Post.
Proof. intros H. exact H. Qed.

Lemma spec_put {A : Type} s' (p : prog A) (Pre Mid : S -> S -> Prop) Post :
  (forall s0 s, Pre s0 s -> Mid s0 s') -> spec p Mid Post -> spec (Put s' p) Pre Post.
Proof. intros Hm H s0 s B R Hp HB HR. cbn. eapply H; eauto. Qed.

Lemma spec_modify f Pre Post : (forall s0 s, Pre s0 s -> Post (Ok tt) s0 (f s)) -> spec (modify f) Pre Post.
Proof. intros H s0 s B R Hp HB HR. cbn. eapply HR; eauto. Qed.

Lemma spec_gets {A : Type} (f : S -> A) Pre : spec (gets f) Pre (fun o s0 s => o = Ok (f s) /\ Pre s0 s).
Proof. intros s0 s B R Hp HB HR. cbn. eapply HR; eauto. Qed.

Lemma spec_bind {A B : Type} (p : prog A) (f : A -> prog B) Pre Mid Post :
  spec p Pre Mid -> (forall a, spec (f a) (Mid (Ok a)) Post) ->
  (forall e s0 s, Mid (Throw e) s0 s -> Post (Throw e) s0 s) -> spec (bind p f) Pre Post.
Proof.
  intros H1 H2 H3 s0 s D R Hp HB HR. apply wp_bind. eapply H1; [exact Hp|exact HB|].
  intros s1 D' [a|e] s' HD Hm; [eapply H2; eauto|eauto].
Qed.

Lemma spec_catch {A : Type} (p : prog A) h Pre Mid Post :
  spec p Pre Mid -> (forall e, spec (h e) (Mid (Throw e)) Post) ->
  (forall a s0 s, Mid (Ok a) s0 s -> Post (Ok a) s0 s) -> spec (catch p h) Pre Post.
Proof.
  intros H1 H2 H3 s0 s D R Hp HB HR. apply wp_catch. eapply H1; [exact Hp|exact HB|].
  intros s1 D' [a|e] s' HD Hm; [eauto|eapply H2; eauto].
Qed.

Lemma spec_await {A : Type} op (k : res (Res op) -> prog A) Pre Post :
  (forall s0 s, Pre s0 s -> G s0 s) -> (forall x, spec (k x) G Post) -> spec (Await op k) Pre Post.
Proof.
  intros Hg Hk s0 s B R Hp HB HR. cbn. split; [eauto|]. intros s' x HI. eapply Hk; eauto.
Qed.

Lemma spec_fork {A : Type} q (p : prog A) Pre Post : spec q Pre (fun _ => G) -> spec p G Post -> spec (Fork q p) Pre Post.
Proof.
  intros Hq Hp s0 s B R Hpre HB HR. cbn. eapply Hq; [exact Hpre| |].
  - intros x Hx. eapply Hp; eauto.
  - intros s1 D o s' HD Hx. by apply HD.
Qed.

Lemma spec_weaken {A : Type} (p : prog A) (Pre Pre' : S -> S -> Prop) (Post Post' : res A -> S -> S -> Prop) :
  spec p Pre Post -> (forall s0 s, Pre' s0 s -> Pre s0 s) -> (forall o s0 s, Post o s0 s -> Post' o s0 s) -> spec p Pre' Post'.
Proof. intros H H1 H2 s0 s B R Hp HB HR. eapply H; eauto. Qed.

(** *** Good programs *)

Lemma good_ret {A : Type} (a : A) : good (Ret a).
Proof. by apply spec_ret. Qed.
Lemma good_raise {A : Type} e : good (A := A) (Raise e).
Proof. by apply spec_raise. Qed.
Lemma good_bind {A B : Type} (p : prog A) (f : A -> prog B) : good p -> (forall a, good (f a)) -> good (bind p f).
Proof. intros Hp Hf. eapply spec_bind; [exact Hp|exact Hf|done]. Qed.
Lemma good_catch {A : Type} (p : prog A) h : good p -> (forall e, good (h e)) -> good (catch p h).
Proof. intros Hp Hh. eapply spec_catch; [exact Hp|exact Hh|done]. Qed.
Lemma good_get {A : Type} (k : S -> prog A) : (forall v, good (k v)) -> good (Get k).
Proof. intros H. apply spec_get. intros v. eapply spec_weaken; [apply (H v)|by intros ?? [??]|done]. Qed.
Lemma good_gets {A : Type} (f : S -> A) : good (gets f).
Proof. apply good_get. intros v. apply good_ret. Qed.
Lemma good_await op : good (await op).
Proof. apply spec_await; [done|]. intros [a|e]; [apply good_ret|apply good_raise]. Qed.
Lemma good_emit o : good (emit o).
Proof. apply spec_emit, good_ret. Qed.
Lemma good_fork q : good q -> good (fork q).
Proof. intros Hq. apply spec_fork; [exact Hq|apply good_ret]. Qed.
Lemma good_lift {A : Type} (r : res A) : good (lift r).
Proof. destruct r; [apply good_ret|apply good_raise]. Qed.
Lemma good_guard b p : good p -> good (guard_ b p).
Proof. intros Hp. destruct b; [exact Hp|apply good_ret]. Qed.
Lemma good_each {A} (l : list A) body : (forall x, good (body x)) -> good (each l body).
Proof. intros Hb. induction l as [|x l IH]; [apply good_ret|]. by apply good_bind. Qed.
Lemma good_modify f : (forall s0 s, G s0 s -> G s0 (f s)) -> good (modify f).
Proof. intros H. by apply spec_modify. Qed.

Lemma good_handles p : good p -> handles p.
Proof. intros Hp s HI. eapply Hp; [by apply G_refl|done|]. intros s1 D o s' HD Hx. by apply HD. Qed.
End async.

#[global] Arguments prog S Out {Op} Res A.
#[global] Arguments blocked S Out {Op} Res.
#[global] Arguments pool S Out {Op} Res.

Notation "'let!' x ':=' p 'in' q" := (bind p (fun x => q))
  (at level 10, x binder, p at level 100, q at level 200, format "'[v' 'let!'  x  ':='  p  'in' '//' q ']'") : js_scope.
Notation "p ;; q" := (bind p (fun _ => q)) (at level 100, q at level 200, format "'[v' p ;; '//' q ']'") : js_scope.
End Async.
