(* ===== verification/Sdp.v ===== *)
(** * Session descriptions (client/src/lib/voice.js: [mergeOpusParams],
      [tuneOpus])

    Every offer and answer is rewritten before it is used: the Opus payloads
    get the voice parameters, nothing else is touched.  The patterns of the
    source are read as the functions that match them; [/i] folds the ASCII
    letters, which is all its literals contain. *)

From stdpp Require Import base list numbers option strings sets.
From Stdlib Require Import ZArith NArith Lia Sorting.Sorted.
From S2P Require Import Prelude JsNum JsString JsValue Json.

Module Sdp.

(** ** Parameters *)

Definition OPUS_PARAMS : list (jstr * option jstr) :=
  [(js "useinbandfec", Some (js "1")); (js "usedtx", Some (js "1")); (js "maxaveragebitrate", Some (js "32000"));
   (js "stereo", Some (js "0")); (js "sprop-stereo", Some (js "0"))].

(** [s.split(c)] for one character. *)
Fixpoint split_char (c : N) (s : jstr) : list jstr :=
  match s with
  | [] => [[]]
  | x :: r =>
      if N.eqb x c then [] :: split_char c r
      else match split_char c r with w :: ws => (x :: w) :: ws | [] => [[x]] end
  end.

(** One [key=value], or a bare key. *)
Definition read_param (t : jstr) : jstr * option jstr :=
  match index_of [61%N] t with
  | None => (t, None)
  | Some eq => (take eq t, Some (drop (S eq) t))
  end.

Definition print_param (kv : jstr * option jstr) : jstr :=
  match kv.2 with None => kv.1 | Some v => kv.1 ++ [61%N] ++ v end.

Definition assign_all (o l : list (jstr * option jstr)) : list (jstr * option jstr) :=
  fold_left (fun o kv => obj_assign o kv.1 kv.2) l o.

Definition read_params (existing : jstr) : list (jstr * option jstr) :=
  assign_all [] (read_param <$> filter (fun t => t <> []) (trim <$> split_char 59 existing)).

(** The parameters of a tuned line. *)
Definition tuned (existing : jstr) : list (jstr * option jstr) := assign_all (read_params existing) OPUS_PARAMS.

Definition mergeOpusParams (existing : jstr) : jstr := str_join [59%N] (print_param <$> tuned existing).

(** ** Lines *)

(** [sdp.split(/\r?\n/)]. *)
Fixpoint split_lines (s : jstr) : list jstr :=
  match s with
  | [] => [[]]
  | 10%N :: r => [] :: split_lines r
  | x :: r =>
      match x, r with
      | 13%N, 10%N :: r' => [] :: split_lines r'
      | _, _ => match split_lines r with w :: ws => (x :: w) :: ws | [] => [[x]] end
      end
  end.

Definition fold_ascii (c : N) : N := if (N.leb 65 c && N.leb c 90)%bool then (c + 32)%N else c.

(** Match a literal at the start, without and with regard to case; the rest. *)
Fixpoint strip_ci (p s : jstr) : option jstr :=
  match p, s with
  | [], _ => Some s
  | a :: p', b :: s' => if N.eqb (fold_ascii a) (fold_ascii b) then strip_ci p' s' else None
  | _, [] => None
  end.

Fixpoint strip (p s : jstr) : option jstr :=
  match p, s with
  | [], _ => Some s
  | a :: p', b :: s' => if N.eqb a b then strip p' s' else None
  | _, [] => None
  end.

Definition is_digit (c : N) : bool := (N.leb 48 c && N.leb c 57)%bool.

(** [\d+] at the start: the digits and the rest. *)
Fixpoint span_digits (s : jstr) : jstr * jstr :=
  match s with
  | c :: r => if is_digit c then (c :: (span_digits r).1, (span_digits r).2) else ([], s)
  | [] => ([], [])
  end.

(** [/^a=rtpmap:(\d+) opus\/48000/i]. *)
Definition rtpmap_opus (l : jstr) : option jstr :=
  match strip_ci (js "a=rtpmap:") l with
  | Some r =>
      let '(pt, r') := span_digits r in
      if is_empty pt then None
      else match strip_ci (js " opus/48000") r' with Some _ => Some pt | None => None end
  | None => None
  end.

(** What [.] does not match. *)
Definition terminator (c : N) : bool := bool_decide (c ∈ [10; 13; 8232; 8233]%N).

(** A line [a=fmtp:], digits, a space, and anything without a terminator. *)
Definition fmtp (l : jstr) : option (jstr * jstr) :=
  match strip (js "a=fmtp:") l with
  | Some r =>
      let '(pt, r') := span_digits r in
      if is_empty pt then None
      else match strip (js " ") r' with
           | Some rest => if existsb terminator rest then None else Some (pt, rest)
           | None => None
           end
  | None => None
  end.

(** [/opus\/48000/i.test(sdp)]. *)
Fixpoint mentions_opus (s : jstr) : bool :=
  match strip_ci (js "opus/48000") s with
  | Some _ => true
  | None => match s with [] => false | _ :: r => mentions_opus r end
  end.

Definition fmtp_line (pt params : jstr) : jstr := js "a=fmtp:" ++ pt ++ js " " ++ params.

Definition is_in (pt : jstr) (l : list jstr) : bool := existsb (str_eqb pt) l.

(** The callback of [lines.map], and the payloads it handled. *)
Definition retune (pts : list jstr) (l : jstr) : jstr :=
  match fmtp l with
  | Some (pt, params) => if is_in pt pts then fmtp_line pt (mergeOpusParams params) else l
  | None => l
  end.

Definition handled (pts : list jstr) (lines : list jstr) : list jstr :=
  omap (fun l => match fmtp l with Some (pt, _) => if is_in pt pts then Some pt else None | None => None end) lines.

(** [/^a=rtpmap:<pt> opus/i]. *)
Definition maps (pt l : jstr) : bool :=
  match strip_ci (js "a=rtpmap:" ++ pt ++ js " opus") l with Some _ => true | None => false end.

(** The line after the first that maps [pt]. *)
Fixpoint insert_after (pt x : jstr) (lines : list jstr) : list jstr :=
  match lines with
  | [] => []
  | l :: r => if maps pt l then l :: x :: r else l :: insert_after pt x r
  end.

Definition complete (done_ : list jstr) (pts : list jstr) (lines : list jstr) : list jstr :=
  fold_left (fun out pt => if is_in pt done_ then out else insert_after pt (fmtp_line pt (mergeOpusParams [])) out) pts lines.

Definition tune_lines (pts : list jstr) (lines : list jstr) : list jstr :=
  complete (handled pts lines) pts (retune pts <$> lines).

Definition eol_of (sdp : jstr) : jstr := if str_includes [13; 10]%N sdp then [13; 10]%N else [10]%N.

Definition tuneOpus (sdp : jstr) : jstr :=
  if is_empty sdp || negb (mentions_opus sdp) then sdp else
  let lines := split_lines sdp in
  let pts := omap rtpmap_opus lines in
  if bool_decide (pts = []) then sdp
  else str_join (eol_of sdp) (tune_lines pts lines).

(** ** Splitting and joining *)

Lemma split_char_nonempty c s : split_char c s <> [].
Proof. destruct s as [|x r]; cbn; [done|]. case_match; [done|]. by destruct (split_char c r). Qed.

Lemma split_char_app c w s : c ∉ w ->
  split_char c (w ++ s) = match split_char c s with x :: xs => (w ++ x) :: xs | [] => [w] end.
Proof.
  induction w as [|a w IH]; intros Hc; cbn.
  - destruct (split_char c s) eqn:E; [by destruct (split_char_nonempty c s)|done].
  - apply not_elem_of_cons in Hc as [Hca Hc]. rewrite (proj2 (N.eqb_neq a c)) by congruence. rewrite IH by done.
    by destruct (split_char c s).
Qed.

Lemma split_char_join c ws : ws <> [] -> Forall (fun w => c ∉ w) ws -> split_char c (str_join [c] ws) = ws.
Proof.
  intros Hn Hf. induction Hf as [|w ws Hw Hf IH]; [done|]. destruct ws as [|w' ws].
  - cbn [str_join]. pose proof (split_char_app c w [] Hw) as E. rewrite app_nil_r in E. rewrite E. cbn. by rewrite app_nil_r.
  - change (str_join [c] (w :: w' :: ws)) with (w ++ c :: str_join [c] (w' :: ws)). rewrite split_char_app by done.
    cbn [split_char]. rewrite N.eqb_refl. rewrite IH by done. by rewrite app_nil_r.
Qed.

Lemma split_char_clean c s : Forall (fun w => c ∉ w) (split_char c s).
Proof.
  induction s as [|x r IH]; cbn; [repeat constructor; set_solver|].
  destruct (N.eqb_spec x c) as [->|Hx]; [constructor; [set_solver|done]|].
  destruct (split_char c r) as [|w ws]; [repeat constructor; set_solver|].
  apply Forall_cons in IH as [Hw Hws]. constructor; [set_solver|done].
Qed.

Lemma split_char_chars (P : N -> Prop) c s : Forall P s -> Forall (Forall P) (split_char c s).
Proof.
  intros Hs. induction Hs as [|x r Hx Hr IH]; cbn; [repeat constructor|].
  case_match; [by constructor|]. destruct (split_char c r); [repeat constructor; done|].
  apply Forall_cons in IH as [??]. repeat constructor; done.
Qed.

(** A line that is one line in any description. *)
Definition one_line (l : jstr) : Prop := 10%N ∉ l /\ 13%N ∉ l.

Lemma split_lines_nonempty s : split_lines s <> [].
Proof.
  destruct s as [|x r]; [done|]. cbn [split_lines].
  repeat case_match; subst; done.
Qed.

Lemma split_lines_app w s : one_line w ->
  split_lines (w ++ s) = match split_lines s with x :: xs => (w ++ x) :: xs | [] => [w] end.
Proof.
  induction w as [|a w IH]; intros [H1 H2].
  - cbn [app]. destruct (split_lines s) eqn:E; [by destruct (split_lines_nonempty s)|done].
  - apply not_elem_of_cons in H1 as [Ha1 H1], H2 as [Ha2 H2]. specialize (IH (conj H1 H2)).
    assert (split_lines (a :: (w ++ s)) = match split_lines (w ++ s) with x :: xs => (a :: x) :: xs | [] => [[a]] end) as E.
    { cbn [split_lines]. repeat case_match; subst; done. }
    change ((a :: w) ++ s) with (a :: (w ++ s)). rewrite E, IH. by destruct (split_lines s).
Qed.

Lemma split_lines_join eol ls : eol = [10%N] \/ eol = [13; 10]%N -> ls <> [] -> Forall one_line ls ->
  split_lines (str_join eol ls) = ls.
Proof.
  intros He Hn Hf. induction Hf as [|w ws Hw Hf IH]; [done|]. destruct ws as [|w' ws].
  - cbn [str_join]. pose proof (split_lines_app w [] Hw) as E. rewrite app_nil_r in E. rewrite E. cbn. by rewrite app_nil_r.
  - change (str_join eol (w :: w' :: ws)) with (w ++ eol ++ str_join eol (w' :: ws)). rewrite split_lines_app by done.
    destruct He as [-> | ->]; cbn [app split_lines]; rewrite IH by done; by rewrite app_nil_r.
Qed.

Lemma split_lines_lf s : Forall (fun w => 10%N ∉ w) (split_lines s).
Proof.
  enough (forall n s, (length s <= n)%nat -> Forall (fun w => 10%N ∉ w) (split_lines s)) as H by by eapply H.
  clear s. intros n. induction n as [|n IH]; intros s Hs; destruct s as [|x r]; cbn in Hs; [repeat constructor; set_solver|lia|repeat constructor; set_solver|].
  assert (Forall (fun w => 10%N ∉ w) (split_lines r)) as Hr by (apply IH; lia).
  destruct (decide (x = 10%N)) as [->|Hx]; [cbn; constructor; [set_solver|done]|].
  assert (split_lines (x :: r) = match split_lines r with w :: ws => (x :: w) :: ws | [] => [[x]] end \/
          exists r', r = 10%N :: r' /\ split_lines (x :: r) = [] :: split_lines r') as [E|(r' & -> & E)].
  { cbn [split_lines]. repeat case_match; subst; try (left; done); try done. right. eexists. split; reflexivity. }
  - rewrite E. destruct (split_lines r) as [|w ws]; [repeat constructor; set_solver|].
    apply Forall_cons in Hr as [Hw Hws]. constructor; [set_solver|done].
  - rewrite E. constructor; [set_solver|]. apply IH. cbn in Hs. lia.
Qed.

Lemma str_join_chars (P : N -> Prop) sep l : Forall P sep -> Forall (Forall P) l -> Forall P (str_join sep l).
Proof.
  intros Hs Hl. induction Hl as [|x l Hx Hl IH]; [constructor|]. destruct l as [|y l]; [done|].
  change (str_join sep (x :: y :: l)) with (x ++ sep ++ str_join sep (y :: l)). rewrite !Forall_app. done.
Qed.

(** ** Parameters, read and printed *)

Lemma index_of_char_None c s : c ∉ s -> index_of [c] s = None.
Proof.
  induction s as [|x r IH]; intros Hc; [done|]. apply not_elem_of_cons in Hc as [Hx Hc]. cbn.
  rewrite (proj2 (N.eqb_neq c x)) by done. cbn. by rewrite IH.
Qed.

Lemma index_of_char c s t : c ∉ s -> index_of [c] (s ++ c :: t) = Some (length s).
Proof.
  induction s as [|x r IH]; intros Hc; cbn; [by rewrite N.eqb_refl|]. apply not_elem_of_cons in Hc as [Hx Hc].
  rewrite (proj2 (N.eqb_neq c x)) by done. cbn. by rewrite IH.
Qed.

Lemma index_of_char_Some c s i : index_of [c] s = Some i -> c ∉ take i s /\ drop i s = c :: drop (S i) s.
Proof.
  revert i. induction s as [|x r IH]; intros i; [done|]. cbn. destruct (N.eqb_spec c x) as [->|Hx]; cbn.
  - intros [= <-]. split; [set_solver|reflexivity].
  - destruct (index_of [c] r) as [j|] eqn:E; [|done]. intros [= <-]. destruct (IH j eq_refl) as [H1 H2]. cbn.
    split; [set_solver|done].
Qed.

Lemma index_of_None_char c s : index_of [c] s = None -> c ∉ s.
Proof.
  induction s as [|x r IH]; [set_solver|]. cbn. destruct (N.eqb_spec c x) as [->|Hx]; [done|]. cbn.
  destruct (index_of [c] r); [done|]. intros _. apply not_elem_of_cons. auto.
Qed.

Lemma read_print kv : 61%N ∉ kv.1 -> read_param (print_param kv) = kv.
Proof.
  destruct kv as [k [v|]]; cbn; intros Hk; unfold read_param.
  - cbn [app]. rewrite index_of_char by done. rewrite take_app_length, drop_app_ge by lia.
    by replace (S (length k) - length k)%nat with 1%nat by lia.
  - by rewrite index_of_char_None.
Qed.

Lemma print_read t : print_param (read_param t) = t /\ 61%N ∉ (read_param t).1.
Proof.
  unfold read_param. destruct (index_of [61%N] t) as [i|] eqn:E; cbn.
  - apply index_of_char_Some in E as [H1 H2]. split; [|done]. cbn [app]. by rewrite <- H2, take_drop.
  - split; [done|by apply index_of_None_char].
Qed.

(** What [mergeOpusParams] prints and reads back. *)
Record neat_param (kv : jstr * option jstr) : Prop := {
  np_key : 61%N ∉ kv.1;
  np_text : print_param kv <> [];
  np_trim : trim (print_param kv) = print_param kv;
  np_semi : 59%N ∉ print_param kv;
}.

Definition in_order (o : list (jstr * option jstr)) : Prop := StronglySorted (fun a b => key_before b.1 a.1 = false) o.

Record neat_params (o : list (jstr * option jstr)) : Prop := {
  ns_entries : Forall neat_param o;
  ns_keys : NoDup (obj_keys o);
  ns_order : in_order o;
  ns_proto : js "__proto__" ∉ obj_keys o;
}.

Lemma key_before_trans a b c : key_before a b = true -> key_before b c = true -> key_before a c = true.
Proof.
  unfold key_before. destruct (index_key a), (index_key b), (index_key c); try done. rewrite !Z.ltb_lt. lia.
Qed.

Lemma obj_add_in_order o k v : in_order o -> in_order (obj_add o k v).
Proof.
  intros Ho. induction Ho as [|[k' v'] o Ho IH Hf]; cbn; [repeat constructor|]. destruct (key_before k k') eqn:E.
  - constructor; [by constructor|]. constructor; cbn.
    + destruct (key_before k' k) eqn:E'; [|done]. pose proof (key_before_trans _ _ _ E E') as Hk.
      unfold key_before in Hk. destruct (index_key k); [|done]. by rewrite Z.ltb_irrefl in Hk.
    + eapply Forall_impl; [exact Hf|]. intros kv Hkv. cbn in *. destruct (key_before kv.1 k) eqn:E'; [|done].
      by rewrite (key_before_trans _ _ _ E' E) in Hkv.
  - constructor; [done|]. rewrite obj_add_perm. by constructor.
Qed.

Lemma obj_update_in_order o k v : in_order o -> in_order (obj_update o k v).
Proof.
  intros Ho. induction Ho as [|[k' v'] o Ho IH Hf]; cbn; [constructor|]. destruct (str_eqb k' k); constructor; try done.
  apply Forall_forall. intros kv Hkv. rewrite Forall_forall in Hf.
  assert (kv.1 ∈ obj_keys o) as Hin by (rewrite <- (obj_keys_update o k v); by apply list_elem_of_fmap_2).
  apply list_elem_of_fmap in Hin as (kv' & E & Hkv'). specialize (Hf kv' Hkv'). cbn in *. by rewrite E.
Qed.

Lemma obj_update_entries (P : jstr * option jstr -> Prop) o k v : Forall P o -> P (k, v) -> Forall P (obj_update o k v).
Proof.
  intros Ho Hv. induction Ho as [|[k' v'] o Hx Ho IH]; cbn; [constructor|].
  destruct (str_eqb k' k) eqn:E; [apply str_eqb_eq in E as ->|]; by constructor.
Qed.

Lemma neat_assign o kv : neat_params o -> neat_param kv -> neat_params (obj_assign o kv.1 kv.2).
Proof.
  destruct kv as [k v]. intros [He Hn Ho Hp] Hkv. unfold obj_assign. cbn [fst snd].
  destruct (obj_get o k) as [v'|] eqn:E.
  - rewrite andb_false_r. unfold obj_put. rewrite E. split.
    + by apply obj_update_entries.
    + by rewrite obj_keys_update.
    + by apply obj_update_in_order.
    + by rewrite obj_keys_update.
  - rewrite andb_true_r. destruct (str_eqb k (js "__proto__")) eqn:Ek; [by split|].
    apply str_eqb_neq in Ek. unfold obj_put. rewrite E. apply obj_get_None in E.
    assert (obj_keys (obj_add o k v) ≡ₚ k :: obj_keys o) as Hk by (unfold obj_keys; by rewrite obj_add_perm).
    split.
    + rewrite obj_add_perm. by constructor.
    + rewrite Hk. by constructor.
    + by apply obj_add_in_order.
    + rewrite Hk. rewrite not_elem_of_cons. done.
Qed.

Lemma neat_assign_all l o : neat_params o -> Forall neat_param l -> neat_params (assign_all o l).
Proof.
  unfold assign_all. intros Ho Hl. revert o Ho. induction Hl as [|kv l Hkv Hl IH]; intros o Ho; cbn; [done|].
  by apply IH, neat_assign.
Qed.

Lemma neat_nil : neat_params [].
Proof. split; [constructor|constructor|constructor|set_solver]. Qed.

(** Assigning neat parameters in their order gives them back. *)
Lemma assign_all_neat l acc : neat_params (acc ++ l) -> assign_all acc l = acc ++ l.
Proof.
  revert acc. induction l as [|[k v] l IH]; intros acc Hn; [by rewrite app_nil_r|].
  change (assign_all acc ((k, v) :: l)) with (assign_all (obj_assign acc k v) l).
  assert (obj_assign acc k v = acc ++ [(k, v)]) as ->.
  { destruct Hn as [_ Hk Ho Hp]. unfold obj_keys in Hk, Hp. rewrite fmap_app in Hk, Hp. cbn in Hk, Hp.
    assert (k ∉ acc.*1) as Hka.
    { apply NoDup_app in Hk as (_ & Hd & _). intros Hin. apply (Hd k Hin). by left. }
    unfold obj_assign, obj_put. rewrite (proj2 (obj_get_None acc k)) by done.
    rewrite andb_true_r. assert (str_eqb k (js "__proto__") = false) as ->.
    { apply str_eqb_neq. intros ->. apply Hp, elem_of_app. right. by left. }
    apply obj_add_last. apply Forall_forall. intros kv Hkv.
    clear -Ho Hkv. induction acc as [|x acc IHa]; [set_solver|]. inversion Ho as [|? ? Hs Hf]; subst.
    apply elem_of_cons in Hkv as [->|Hkv]; [|by apply IHa].
    rewrite Forall_forall in Hf. apply (Hf (k, v)), elem_of_app. right. by left. }
  rewrite IH; by rewrite <- app_assoc.
Qed.

Lemma read_params_neat s : neat_params (read_params s).
Proof.
  unfold read_params. apply neat_assign_all; [apply neat_nil|]. apply Forall_fmap, Forall_forall. intros t Ht.
  apply list_elem_of_filter in Ht as [Hn Ht]. apply list_elem_of_fmap in Ht as (w & -> & Hw). cbn.
  destruct (print_read (trim w)) as [E1 E2]. split; rewrite ?E1; [done|done|apply trim_idem|].
  pose proof (split_char_clean 59 s) as Hc. rewrite Forall_forall in Hc. specialize (Hc w Hw).
  assert (Forall (fun c => c <> 59%N) (trim w)) as Hf by (apply Forall_trim, Forall_forall; intros c ? ->; done).
  rewrite Forall_forall in Hf. intros Hin. by apply (Hf _ Hin).
Qed.

Lemma OPUS_neat : Forall neat_param OPUS_PARAMS.
Proof.
  unfold OPUS_PARAMS. repeat constructor; vm_compute; try discriminate; intros Hin; repeat (apply elem_of_cons in Hin as [Hin|Hin]; [discriminate Hin|]);
    by apply elem_of_nil in Hin.
Qed.

#[local] Opaque OPUS_PARAMS.

Lemma tuned_neat s : neat_params (tuned s).
Proof. apply neat_assign_all; [apply read_params_neat|apply OPUS_neat]. Qed.

Lemma params_get_assign o k v k' : k <> js "__proto__" ->
  obj_get (obj_assign (A := option jstr) o k v) k' = if str_eqb k k' then Some v else obj_get o k'.
Proof.
  intros Hk. unfold obj_assign. rewrite (proj2 (str_eqb_neq _ _) Hk). cbn [andb]. apply obj_get_put.
Qed.

Lemma assigned_get l o k v : NoDup l.*1 -> js "__proto__" ∉ l.*1 ->
  obj_get (assign_all o l) k = Some v <-> (k, v) ∈ l \/ (k ∉ l.*1 /\ obj_get o k = Some v).
Proof.
  revert o. induction l as [|[k0 v0] l IH]; intros o Hn Hp.
  - cbn. split; [intros; right; set_solver|intros [?|[_ ?]]; [set_solver|done]].
  - change (assign_all o ((k0, v0) :: l)) with (assign_all (obj_assign o k0 v0) l). cbn in Hn, Hp.
    apply NoDup_cons in Hn as [Hk0 Hn]. apply not_elem_of_cons in Hp as [Hp0 Hp]. rewrite IH by done.
    rewrite params_get_assign by (by apply not_eq_sym). rewrite fmap_cons, !elem_of_cons. cbn [fst].
    destruct (str_eqb k0 k) eqn:E; [apply str_eqb_eq in E as ->|apply str_eqb_neq in E]; naive_solver.
Qed.

Lemma OPUS_distinct : NoDup OPUS_PARAMS.*1 /\ js "__proto__" ∉ OPUS_PARAMS.*1.
Proof. split; [apply (bool_decide_eq_true_1 _); vm_compute; reflexivity|]. apply (bool_decide_eq_false_1 _). vm_compute. reflexivity. Qed.

(** Every voice parameter is set. *)
Lemma tuned_has s kv : kv ∈ OPUS_PARAMS -> kv ∈ tuned s.
Proof.
  intros Hin. destruct kv as [k v]. apply obj_get_elem. apply assigned_get; [apply OPUS_distinct..|by left].
Qed.

Lemma obj_update_same {A} (o : list (jstr * A)) k v : obj_get o k = Some v -> obj_update o k v = o.
Proof.
  induction o as [|[k' v'] o IH]; cbn; [done|]. destruct (str_eqb k' k); [by intros [= ->]|]. intros H. by rewrite IH.
Qed.

Lemma assign_present l o : Forall (fun kv => obj_get o kv.1 = Some kv.2) l -> assign_all o l = o.
Proof.
  intros Hl. unfold assign_all. induction Hl as [|[k v] l Hk Hl IH]; cbn; [done|]. cbn in Hk.
  assert (obj_assign o k v = o) as ->; [|done].
  unfold obj_assign, obj_put. rewrite Hk, andb_false_r. by apply obj_update_same.
Qed.

(** Reading a tuned line gives its parameters, and tuning it again changes
    nothing. *)
Lemma read_tuned s : read_params (mergeOpusParams s) = tuned s.
Proof.
  unfold mergeOpusParams. pose proof (tuned_neat s) as Hn. pose proof (tuned_has s) as Hh.
  generalize dependent (tuned s). intros o Hn Hh. pose proof Hn as [He Hk Ho Hp]. unfold read_params.
  rewrite split_char_join.
  - assert (filter (fun t => t <> []) (trim <$> (print_param <$> o)) = print_param <$> o) as ->.
    { clear -He. induction He as [|kv o Hkv He IH]; [done|]. rewrite !fmap_cons, (np_trim _ Hkv).
      rewrite filter_cons_True by apply Hkv. by f_equal. }
    assert (read_param <$> (print_param <$> o) = o) as ->.
    { clear -He. induction He as [|kv o Hkv He IH]; [done|]. rewrite !fmap_cons, read_print by apply Hkv. by f_equal. }
    exact (assign_all_neat o [] Hn).
  - intros E. apply fmap_nil_inv in E. specialize (Hh (js "usedtx", Some (js "1")) ltac:(vm_compute; right; left)). rewrite E in Hh. by apply elem_of_nil in Hh.
  - apply Forall_fmap. eapply Forall_impl; [exact He|]. intros kv Hkv. apply Hkv.
Qed.

Lemma mergeOpusParams_idem s : mergeOpusParams (mergeOpusParams s) = mergeOpusParams s.
Proof.
  unfold mergeOpusParams at 1. enough (tuned (mergeOpusParams s) = tuned s) as -> by reflexivity.
  unfold tuned at 1. rewrite read_tuned. apply assign_present.
  apply Forall_forall. intros kv Hkv. apply assigned_get; [apply OPUS_distinct..|]. left. by destruct kv.
Qed.

(** ** Patterns *)

Lemma strip_app p s r : strip p s = Some r <-> s = p ++ r.
Proof.
  revert s. induction p as [|a p IH]; intros s; cbn; [naive_solver|]. destruct s as [|b s]; [naive_solver|].
  destruct (N.eqb_spec a b) as [->|Hab]; [rewrite IH|]; naive_solver.
Qed.

Lemma strip_ci_app p q s : strip_ci (p ++ q) s = match strip_ci p s with Some r => strip_ci q r | None => None end.
Proof.
  revert s. induction p as [|a p IH]; intros s; cbn; [done|]. destruct s as [|b s]; [done|].
  destruct (N.eqb (fold_ascii a) (fold_ascii b)); [apply IH|done].
Qed.

Lemma strip_ci_self p s : strip_ci p (p ++ s) = Some s.
Proof. induction p as [|a p IH]; cbn; [done|]. by rewrite N.eqb_refl. Qed.

Lemma strip_ci_suffix p s r : strip_ci p s = Some r -> exists a, s = a ++ r.
Proof.
  revert s. induction p as [|a p IH]; intros s; cbn; [intros [= ->]; by exists []|]. destruct s as [|b s]; [done|].
  destruct (N.eqb _ _); [|done]. intros (x & ->)%IH. by exists (b :: x).
Qed.

Lemma strip_ci_more p s r t : strip_ci p s = Some r -> strip_ci p (s ++ t) = Some (r ++ t).
Proof.
  revert s. induction p as [|a p IH]; intros s; cbn; [by intros [= ->]|]. destruct s as [|b s]; [done|]. cbn.
  destruct (N.eqb _ _); [apply IH|done].
Qed.

Lemma span_digits_spec s : s = (span_digits s).1 ++ (span_digits s).2 /\ Forall (fun c => is_digit c = true) (span_digits s).1.
Proof.
  induction s as [|c r [E Hf]]; cbn; [done|]. destruct (is_digit c) eqn:Ec; cbn; [|done].
  split; [by rewrite <- E|by constructor].
Qed.

Lemma span_digits_app pt r : Forall (fun c => is_digit c = true) pt -> match r with c :: _ => is_digit c = false | [] => True end ->
  span_digits (pt ++ r) = (pt, r).
Proof.
  intros Hf Hr. induction Hf as [|c pt Hc Hf IH]; cbn.
  - destruct r as [|c r]; [done|]. cbn. by rewrite Hr.
  - by rewrite Hc, IH.
Qed.

(** A payload type, and the rest of a line. *)
Definition payload_type (pt : jstr) : Prop := pt <> [] /\ Forall (fun c => is_digit c = true) pt.
Definition plain_text (s : jstr) : Prop := existsb terminator s = false.

Lemma plain_text_Forall s : plain_text s <-> Forall (fun c => terminator c = false) s.
Proof.
  unfold plain_text. induction s as [|c s IH]; cbn; [by split|]. rewrite orb_false_iff, IH, Forall_cons. done.
Qed.

Lemma fmtp_iff l pt params : fmtp l = Some (pt, params) <-> l = fmtp_line pt params /\ payload_type pt /\ plain_text params.
Proof.
  unfold fmtp, fmtp_line, payload_type, plain_text. split.
  - destruct (strip (js "a=fmtp:") l) as [r|] eqn:E1; [|done]. apply strip_app in E1 as ->.
    destruct (span_digits_spec r) as [Er Hd]. destruct (span_digits r) as [d r'] eqn:Es. cbn in Er, Hd.
    destruct (is_empty d) eqn:Ed; [done|]. destruct (strip (js " ") r') as [rest|] eqn:E2; [|done].
    apply strip_app in E2. destruct (existsb terminator rest) eqn:Et; [done|]. intros [= <- <-].
    apply is_empty_false in Ed. rewrite Er, E2. done.
  - intros (-> & [Hn Hd] & Ht). rewrite (proj2 (strip_app _ _ _) eq_refl).
    rewrite span_digits_app by done. rewrite (proj2 (is_empty_false _) Hn).
    rewrite (proj2 (strip_app _ _ _) eq_refl). by rewrite Ht.
Qed.

Lemma rtpmap_opus_Some l pt : rtpmap_opus l = Some pt -> payload_type pt /\ maps pt l = true /\ mentions_opus l = true.
Proof.
  unfold rtpmap_opus, maps. destruct (strip_ci (js "a=rtpmap:") l) as [r|] eqn:E1; [|done].
  destruct (span_digits_spec r) as [Er Hd]. destruct (span_digits r) as [d r'] eqn:Es. cbn in Er, Hd.
  destruct (is_empty d) eqn:Ed; [done|]. apply is_empty_false in Ed.
  destruct (strip_ci (js " opus/48000") r') as [r2|] eqn:E2; [|done]. intros [= <-]. split; [done|]. split.
  - rewrite strip_ci_app, E1, strip_ci_app, Er, strip_ci_self.
    change (js " opus/48000") with (js " opus" ++ js "/48000") in E2. rewrite strip_ci_app in E2.
    by destruct (strip_ci (js " opus") r').
  - assert (forall a s, mentions_opus s = true -> mentions_opus (a ++ s) = true) as Hm.
    { clear. intros a s Hs. induction a as [|c a IH]; [done|]. cbn [app mentions_opus]. by case_match. }
    apply strip_ci_suffix in E1 as (a & ->). rewrite Er. apply Hm, Hm.
    change (js " opus/48000") with ([32%N] ++ js "opus/48000") in E2. rewrite strip_ci_app in E2.
    destruct (strip_ci [32%N] r') as [r3|] eqn:E3; [|done]. apply strip_ci_suffix in E3 as (b & ->). apply Hm.
    destruct r3; cbn [mentions_opus]; by rewrite E2.
Qed.

Lemma rtpmap_fmtp pt params : rtpmap_opus (fmtp_line pt params) = None.
Proof. reflexivity. Qed.

Lemma maps_fmtp pt pt' params : maps pt (fmtp_line pt' params) = false.
Proof. reflexivity. Qed.

Lemma is_in_iff pt l : is_in pt l = true <-> pt ∈ l.
Proof.
  unfold is_in. rewrite existsb_exists. split.
  - intros (x & Hx & E%str_eqb_eq). subst. by apply list_elem_of_In.
  - intros Hin. exists pt. split; [by apply list_elem_of_In|apply str_eqb_refl].
Qed.

(** A line of a description that mentions Opus makes the description do so. *)
Lemma mentions_more s t : mentions_opus s = true -> mentions_opus (s ++ t) = true.
Proof.
  induction s as [|c s IH]; intros Hs; [done|]. cbn [app mentions_opus] in *.
  destruct (strip_ci (js "opus/48000") (c :: s)) as [r|] eqn:E.
  - apply (strip_ci_more _ _ _ t) in E. change ((c :: s) ++ t) with (c :: (s ++ t)) in E. by rewrite E.
  - rewrite IH by done. by case_match.
Qed.

Lemma line_mentions s l : l ∈ split_lines s -> mentions_opus l = true -> mentions_opus s = true.
Proof.
  enough (forall n s, (length s <= n)%nat -> (exists t, match split_lines s with w :: _ => s = w ++ t | [] => True end) /\
    forall l, l ∈ split_lines s -> mentions_opus l = true -> mentions_opus s = true) as H by (intros; by eapply H).
  clear s l. intros n. induction n as [|n IH]; intros s Hs; destruct s as [|x r]; cbn in Hs.
  1, 3: split; [by exists []|cbn; intros l Hl%list_elem_of_singleton; subst; done]. { lia. }
  assert (forall r', mentions_opus r' = true -> forall a, mentions_opus (a ++ r') = true) as Hm.
  { clear. intros r' Hs a. induction a as [|c a IHa]; [done|]. cbn [app mentions_opus]. by case_match. }
  destruct (IH r ltac:(lia)) as [[t Ht] Hr].
  assert (split_lines (x :: r) = [] :: split_lines r \/
          split_lines (x :: r) = match split_lines r with w :: ws => (x :: w) :: ws | [] => [[x]] end \/
          exists r', r = 10%N :: r' /\ split_lines (x :: r) = [] :: split_lines r') as [E|[E|(r' & -> & E)]].
  { cbn [split_lines]. repeat case_match; subst; eauto 6. }
  - rewrite E. split; [by eexists|]. intros l [->|Hl]%elem_of_cons Hml; [done|]. apply (Hm r) with (a := [x]). by eapply Hr.
  - rewrite E. destruct (split_lines r) as [|w ws] eqn:Ew; [by destruct (split_lines_nonempty r)|]. subst r.
    split; [by exists t|]. intros l [->|Hl]%elem_of_cons Hml; [by apply (mentions_more (x :: w))|].
    apply (Hm (w ++ t)) with (a := [x]). eapply Hr; [by right|done].
  - rewrite E. split; [by eexists|]. intros l [->|Hl]%elem_of_cons Hml; [done|].
    destruct (IH r' ltac:(cbn in Hs; lia)) as [_ Hr']. apply (Hm r') with (a := [x; 10%N]). by eapply Hr'.
Qed.

(** ** Tuning the lines *)

(** A format line of one of the payloads. *)
Definition voice_line (pts : list jstr) (l : jstr) : bool :=
  match fmtp l with Some (pt, _) => is_in pt pts | None => false end.

Definition opus_payloads (sdp : jstr) : list jstr := omap rtpmap_opus (split_lines sdp).

Lemma assign_all_entries (P : jstr * option jstr -> Prop) l o : Forall P o -> Forall P l -> Forall P (assign_all o l).
Proof.
  intros Ho Hl. revert o Ho. induction Hl as [|[k v] l Hk Hl IH]; intros o Ho; [done|].
  change (assign_all o ((k, v) :: l)) with (assign_all (obj_assign o k v) l). apply IH.
  unfold obj_assign, obj_put. case_match; [done|]. case_match; [by apply obj_update_entries|]. rewrite obj_add_perm. by constructor.
Qed.

Lemma merge_chars (P : N -> Prop) s : Forall P s -> P 59%N -> Forall (fun kv => Forall P (print_param kv)) OPUS_PARAMS ->
  Forall P (mergeOpusParams s).
Proof.
  intros Hs H59 Hop. apply str_join_chars; [by constructor|]. apply Forall_fmap.
  apply assign_all_entries; [|exact Hop]. apply assign_all_entries; [constructor|]. apply Forall_fmap, Forall_forall.
  intros t Ht. apply list_elem_of_filter in Ht as [_ Ht]. apply list_elem_of_fmap in Ht as (w & -> & Hw). cbn.
  rewrite (proj1 (print_read (trim w))). apply Forall_trim.
  pose proof (split_char_chars P 59 s Hs) as Hc. rewrite Forall_forall in Hc. by apply Hc.
Qed.

Lemma merge_plain s : plain_text s -> plain_text (mergeOpusParams s).
Proof.
  rewrite !plain_text_Forall. intros Hs. apply merge_chars; [done|reflexivity|].
  apply Forall_forall. intros kv Hkv. apply plain_text_Forall. unfold plain_text.
  assert (forallb (fun kv => negb (existsb terminator (print_param kv))) OPUS_PARAMS = true) as Hb by (vm_compute; reflexivity).
  rewrite forallb_forall in Hb. apply negb_true_iff, Hb. by apply list_elem_of_In.
Qed.

Lemma plain_one_line s : plain_text s -> one_line s.
Proof.
  rewrite plain_text_Forall, Forall_forall. intros Hs. split; intros Hin; specialize (Hs _ Hin); vm_compute in Hs; discriminate.
Qed.

Lemma digits_one_line pt : Forall (fun c => is_digit c = true) pt -> one_line pt.
Proof. rewrite Forall_forall. intros Hs. split; intros Hin; specialize (Hs _ Hin); vm_compute in Hs; discriminate. Qed.

Lemma one_line_app a b : one_line a -> one_line b -> one_line (a ++ b).
Proof. unfold one_line. set_solver. Qed.

Lemma fmtp_line_one_line pt params : payload_type pt -> plain_text params -> one_line (fmtp_line pt params).
Proof.
  intros [_ Hd] Hp. unfold fmtp_line. repeat apply one_line_app; [|by apply digits_one_line| |by apply plain_one_line];
    split; intros Hin; vm_compute in Hin; repeat (apply elem_of_cons in Hin as [Hin|Hin]; [discriminate Hin|]); by apply elem_of_nil in Hin.
Qed.

Section lines.
Context (pts : list jstr) (Hpts : Forall payload_type pts).

Lemma retune_one_line l : one_line l -> one_line (retune pts l).
Proof.
  intros Hl. unfold retune. destruct (fmtp l) as [[pt params]|] eqn:E; [|done]. case_match; [|done].
  apply fmtp_iff in E as (_ & Hp & Ht). by apply fmtp_line_one_line, merge_plain.
Qed.

Lemma retune_fmtp l : fmtp (retune pts l) =
  match fmtp l with Some (pt, params) => Some (pt, if is_in pt pts then mergeOpusParams params else params) | None => None end.
Proof.
  unfold retune. destruct (fmtp l) as [[pt params]|] eqn:E; [|done]. destruct (is_in pt pts); [|done].
  apply fmtp_iff in E as (_ & Hp & Ht). apply fmtp_iff. split_and!; [done..|by apply merge_plain].
Qed.

Lemma retune_voice l : voice_line pts (retune pts l) = voice_line pts l.
Proof. unfold voice_line. rewrite retune_fmtp. by destruct (fmtp l) as [[pt params]|]. Qed.

Lemma retune_other l : voice_line pts l = false -> retune pts l = l.
Proof. unfold voice_line, retune. destruct (fmtp l) as [[pt params]|]; [|done]. by intros ->. Qed.

Lemma retune_rtpmap l : rtpmap_opus (retune pts l) = rtpmap_opus l.
Proof.
  unfold retune. destruct (fmtp l) as [[pt params]|] eqn:E; [|done]. destruct (is_in pt pts); [|done].
  apply fmtp_iff in E as (-> & _). by rewrite !rtpmap_fmtp.
Qed.

Lemma retune_omap (lines : list jstr) : omap rtpmap_opus (retune pts <$> lines) = omap rtpmap_opus lines.
Proof. induction lines as [|l lines IH]; [done|]. cbn. by rewrite retune_rtpmap, IH. Qed.

Lemma retune_filter (lines : list jstr) :
  filter (fun l => voice_line pts l = false) (retune pts <$> lines) = filter (fun l => voice_line pts l = false) lines.
Proof.
  induction lines as [|l lines IH]; [done|]. rewrite fmap_cons, !filter_cons, retune_voice.
  case_decide; [|done]. by rewrite retune_other, IH.
Qed.

Lemma retune_idem l : retune pts (retune pts l) = retune pts l.
Proof.
  unfold retune at 1. rewrite retune_fmtp. destruct (fmtp l) as [[pt params]|] eqn:E; [|done]. destruct (is_in pt pts) eqn:Ei; [|done].
  rewrite mergeOpusParams_idem. unfold retune. by rewrite E, Ei.
Qed.

(** The line that is added for a payload without one. *)
Definition fresh_line (pt : jstr) : jstr := fmtp_line pt (mergeOpusParams []).

Lemma fresh_fmtp pt : pt ∈ pts -> fmtp (fresh_line pt) = Some (pt, mergeOpusParams []).
Proof. intros Hin. rewrite Forall_forall in Hpts. apply fmtp_iff. split_and!; [done|by apply Hpts|by apply merge_plain]. Qed.

Lemma fresh_voice pt : pt ∈ pts -> voice_line pts (fresh_line pt) = true.
Proof. intros Hin. unfold voice_line. rewrite fresh_fmtp by done. by apply is_in_iff. Qed.

Lemma fresh_retuned pt : pt ∈ pts -> retune pts (fresh_line pt) = fresh_line pt.
Proof.
  intros Hin. unfold retune. rewrite fresh_fmtp by done. rewrite (proj2 (is_in_iff _ _) Hin). by rewrite mergeOpusParams_idem.
Qed.

(** What adding lines keeps: any property of the lines the added ones have. *)
Lemma complete_keeps (P : list jstr -> Prop) dn l lines :
  P lines -> (forall pt out, pt ∈ l -> is_in pt dn = false -> P out -> P (insert_after pt (fresh_line pt) out)) -> P (complete dn l lines).
Proof.
  unfold complete. revert lines. induction l as [|pt l IH]; intros lines Hp Hs; [done|]. cbn [fold_left]. apply IH.
  - destruct (is_in pt dn) eqn:E; [done|]. apply Hs; [by left|done..].
  - intros pt' out Hin. apply Hs. by right.
Qed.

Lemma insert_after_Forall (P : jstr -> Prop) pt x lines : Forall P lines -> P x -> Forall P (insert_after pt x lines).
Proof. intros Hl Hx. induction Hl as [|l lines H Hl IH]; cbn; [constructor|]. case_match; by repeat constructor. Qed.

Lemma insert_after_filter (P : jstr -> Prop) `{!forall l, Decision (P l)} pt x lines : ~ P x ->
  filter P (insert_after pt x lines) = filter P lines.
Proof.
  intros Hx. induction lines as [|l lines IH]; cbn [insert_after]; [done|]. case_match; rewrite !filter_cons; [|by rewrite IH].
  by rewrite (decide_False (P := P x)).
Qed.

Lemma insert_after_rtpmap pt x lines : rtpmap_opus x = None -> omap rtpmap_opus (insert_after pt x lines) = omap rtpmap_opus lines.
Proof.
  intros Hx. induction lines as [|l lines IH]; cbn [insert_after]; [done|].
  case_match; cbn [omap list_omap]; [by rewrite Hx|by rewrite IH].
Qed.

Lemma insert_after_keeps pt x lines l : l ∈ lines -> l ∈ insert_after pt x lines.
Proof.
  induction lines as [|l' lines IH]; cbn; [done|]. case_match; rewrite !elem_of_cons; tauto.
Qed.

Lemma insert_after_inserts pt x lines : pt ∈ omap rtpmap_opus lines -> x ∈ insert_after pt x lines.
Proof.
  intros (l & Hl & E)%list_elem_of_omap. apply rtpmap_opus_Some in E as (_ & Em & _).
  induction lines as [|l' lines IH]; [by apply elem_of_nil in Hl|]. cbn [insert_after]. destruct (maps pt l') eqn:E'; [right; by left|].
  apply elem_of_cons in Hl as [->|Hl]; [congruence|]. right. by apply IH.
Qed.

Lemma complete_done dn l lines : (forall pt, pt ∈ l -> pt ∈ dn) -> complete dn l lines = lines.
Proof.
  intros Hd. unfold complete. induction l as [|pt l IH]; [done|]. cbn [fold_left].
  rewrite (proj2 (is_in_iff _ _)) by (apply Hd; by left). apply IH. intros pt' Hin. apply Hd. by right.
Qed.

Lemma complete_inserts dn l lines pt : (forall x, x ∈ l -> x ∈ omap rtpmap_opus lines) -> pt ∈ l -> is_in pt dn = false ->
  fresh_line pt ∈ complete dn l lines.
Proof.
  revert lines. induction l as [|x l IH]; intros lines Hsub Hin Hd; [by apply elem_of_nil in Hin|]. unfold complete. cbn [fold_left].
  apply elem_of_cons in Hin as [<-|Hin].
  - rewrite Hd. apply (complete_keeps (fun out => fresh_line pt ∈ out)).
    + apply insert_after_inserts, Hsub. by left.
    + intros. by apply insert_after_keeps.
  - apply IH; [|done..]. intros y Hy. case_match; [apply Hsub; by right|].
    rewrite insert_after_rtpmap by apply rtpmap_fmtp. apply Hsub. by right.
Qed.
End lines.

(** Everything about the tuned lines at once. *)
Lemma tune_lines_spec lines (pts := omap rtpmap_opus lines) (out := tune_lines pts lines) :
  Forall one_line lines ->
  Forall one_line out /\ omap rtpmap_opus out = pts /\ Forall (fun l => retune pts l = l) out /\
  filter (fun l => voice_line pts l = false) out = filter (fun l => voice_line pts l = false) lines /\
  (forall pt, pt ∈ pts -> exists params, fmtp_line pt params ∈ out /\ fmtp (fmtp_line pt params) = Some (pt, params)).
Proof.
  intros Hl. assert (Forall payload_type pts) as Hp.
  { apply Forall_forall. intros pt (l & _ & E)%list_elem_of_omap. by apply rtpmap_opus_Some in E as [? _]. }
  assert (forall pt, pt ∈ pts -> fmtp (fresh_line pt) = Some (pt, mergeOpusParams [])) as Hf by (intros; by apply (fresh_fmtp pts)).
  unfold out, tune_lines. split_and!.
  - apply complete_keeps; [apply Forall_fmap; eapply Forall_impl; [exact Hl|]; intros; by apply retune_one_line|].
    intros pt o Hin _ Ho. apply insert_after_Forall; [done|]. apply Hf, fmtp_iff in Hin as (_ & H1 & H2). by apply fmtp_line_one_line.
  - apply (complete_keeps (fun o => omap rtpmap_opus o = pts)).
    + apply retune_omap.
    + intros pt o _ _ Ho. by rewrite insert_after_rtpmap by apply rtpmap_fmtp.
  - apply complete_keeps; [apply Forall_fmap, Forall_forall; intros; apply retune_idem|].
    intros pt o Hin _ Ho. apply insert_after_Forall; [done|]. by apply fresh_retuned.
  - apply (complete_keeps (fun o => filter (fun l => voice_line pts l = false) o = filter (fun l => voice_line pts l = false) lines)).
    + apply retune_filter.
    + intros pt o Hin _ Ho. rewrite insert_after_filter; [done|]. by rewrite (fresh_voice pts Hp).
  - intros pt Hin. destruct (is_in pt (handled pts lines)) eqn:Ed.
    + apply is_in_iff, list_elem_of_omap in Ed as (l & Hin' & E). destruct (fmtp l) as [[pt' params]|] eqn:El; [|done].
      destruct (is_in pt' pts) eqn:Ei; [|done]. injection E as ->. exists (mergeOpusParams params).
      assert (retune pts l = fmtp_line pt (mergeOpusParams params)) as Er by (unfold retune; by rewrite El, Ei).
      split; [|rewrite <- Er, retune_fmtp, El; by rewrite Ei].
      rewrite <- Er. apply (complete_keeps (fun o => retune pts l ∈ o)); [by apply list_elem_of_fmap_2|]. intros. by apply insert_after_keeps.
    + exists (mergeOpusParams []). split; [|by apply Hf]. apply (complete_inserts (handled pts lines)); [|done..].
      intros x Hx. by rewrite retune_omap.
Qed.

Lemma tune_lines_again lines (pts := omap rtpmap_opus lines) (out := tune_lines pts lines) :
  Forall one_line lines -> tune_lines pts out = out.
Proof.
  intros Hl. destruct (tune_lines_spec lines Hl) as (_ & _ & Hr & _ & Hf). fold pts out in Hr, Hf. unfold tune_lines at 1.
  assert (retune pts <$> out = out) as -> by (clear -Hr; induction Hr as [|l o Hl Hr IH]; [done|]; rewrite fmap_cons; by f_equal).
  apply complete_done. intros pt Hin. destruct (Hf pt Hin) as (params & H1 & H2). apply list_elem_of_omap.
  exists (fmtp_line pt params). split; [done|]. rewrite H2. by rewrite (proj2 (is_in_iff _ _) Hin).
Qed.

Lemma includes_infix p a b : str_includes p (a ++ p ++ b) = true.
Proof.
  unfold str_includes. apply bool_decide_eq_true. induction a as [|x a IH]; cbn [app index_of].
  - assert (starts_with p (p ++ b) = true) as E by (induction p as [|c p IH]; cbn; [done|by rewrite N.eqb_refl]).
    destruct (p ++ b); cbn [index_of]; rewrite E; eauto.
  - case_match; [eauto|]. destruct IH as [i Hi]. rewrite Hi. cbn. eauto.
Qed.

Lemma includes_first c p s : str_includes (c :: p) s = true -> c ∈ s.
Proof.
  unfold str_includes. rewrite bool_decide_eq_true. induction s as [|x s IH]; cbn; [intros [? ?]; done|].
  destruct (N.eqb_spec c x) as [->|Hx]; [left|]. cbn. intros [i Hi]. right. apply IH.
  destruct (index_of (c :: p) s); [eauto|done].
Qed.

Lemma eol_again s out : Forall one_line out -> str_join (eol_of (str_join (eol_of s) out)) out = str_join (eol_of s) out.
Proof.
  intros Ho. destruct out as [|l [|l' out]]; [done..|]. f_equal.
  assert (eol_of s = [13; 10]%N \/ eol_of s = [10]%N) as [E|E] by (unfold eol_of; case_match; auto); rewrite E; unfold eol_of at 1.
  - change (str_join [13; 10]%N (l :: l' :: out)) with (l ++ [13; 10]%N ++ str_join [13; 10]%N (l' :: out)). by rewrite includes_infix.
  - destruct (str_includes [13; 10]%N (str_join [10]%N (l :: l' :: out))) eqn:Ei; [|done]. exfalso. apply includes_first in Ei.
    assert (Forall (fun c => c <> 13%N) (str_join [10]%N (l :: l' :: out))) as Hc.
    { apply str_join_chars; [by repeat constructor|]. eapply Forall_impl; [exact Ho|]. intros x [_ Hx]. apply Forall_forall. intros c ? ->. done. }
    rewrite Forall_forall in Hc. by apply (Hc _ Ei).
Qed.

(** Whatever a browser describes, with lines that hold no bare carriage
    return, tuning touches nothing but the format lines of Opus payloads; in
    the result every Opus payload has one, each sets every voice parameter, and
    tuning again changes nothing. *)
Theorem opus_is_tuned sdp (pts := opus_payloads sdp) (out := split_lines (tuneOpus sdp)) :
  Forall (fun l => 13%N ∉ l) (split_lines sdp) ->
  filter (fun l => voice_line pts l = false) out = filter (fun l => voice_line pts l = false) (split_lines sdp) /\
  (forall pt, pt ∈ pts -> exists params, fmtp_line pt params ∈ out) /\
  (forall l pt params, l ∈ out -> fmtp l = Some (pt, params) -> pt ∈ pts -> forall kv, kv ∈ OPUS_PARAMS -> kv ∈ read_params params) /\
  tuneOpus (tuneOpus sdp) = tuneOpus sdp.
Proof.
  intros Hcr. assert (Forall one_line (split_lines sdp)) as Hl.
  { apply Forall_and. split; [apply split_lines_lf|done]. }
  destruct (tune_lines_spec (split_lines sdp) Hl) as (H1 & H2 & H3 & H4 & H5). fold (opus_payloads sdp) in *. fold pts in H1, H2, H3, H4, H5.
  set (o := tune_lines pts (split_lines sdp)) in *.
  destruct (decide (pts = [])) as [Ep|Ep].
  - assert (tuneOpus sdp = sdp) as E.
    { unfold tuneOpus. case_match; [done|]. fold (opus_payloads sdp). fold pts. by rewrite bool_decide_eq_true_2. }
    unfold out. rewrite !E. split_and!; try done; rewrite Ep; intros; set_solver.
  - assert (forall s, opus_payloads s <> [] -> is_empty s || negb (mentions_opus s) = false) as Hm.
    { intros s Hs. destruct (opus_payloads s) as [|pt l] eqn:E; [done|].
      assert (pt ∈ opus_payloads s) as (x & Hx & Er)%list_elem_of_omap by (rewrite E; left).
      apply rtpmap_opus_Some in Er as (_ & _ & Er). rewrite (line_mentions s x Hx Er), orb_false_r.
      apply is_empty_false. intros ->. by pose proof (line_mentions [] x Hx Er). }
    assert (tuneOpus sdp = str_join (eol_of sdp) o) as E.
    { unfold tuneOpus. rewrite Hm by done. fold (opus_payloads sdp). fold pts. by rewrite bool_decide_eq_false_2. }
    assert (o <> []) as Ho by (intros Eo; apply Ep; rewrite <- H2, Eo; done).
    assert (out = o) as Eout. { unfold out. rewrite E. apply split_lines_join; [unfold eol_of; case_match; auto|done..]. }
    rewrite Eout. split_and!; [done| | |].
    + intros pt Hin. destruct (H5 pt Hin) as (params & Hin' & _). eauto.
    + intros l pt params Hin Ef Hpt kv Hkv. rewrite Forall_forall in H3. specialize (H3 l Hin). unfold retune in H3. rewrite Ef in H3.
      rewrite (proj2 (is_in_iff _ _) Hpt) in H3. apply (f_equal fmtp) in H3. pose proof Ef as (_ & Hpt' & Htx)%fmtp_iff.
      rewrite Ef, (proj2 (fmtp_iff _ pt (mergeOpusParams params))) in H3 by (split_and!; [done..|by apply merge_plain]).
      injection H3 as <-. rewrite read_tuned. by apply tuned_has.
    + assert (opus_payloads (tuneOpus sdp) = pts) as Ep2 by (unfold opus_payloads; fold out; by rewrite Eout).
      unfold tuneOpus at 1. rewrite Hm by by rewrite Ep2. fold (opus_payloads (tuneOpus sdp)). rewrite Ep2, bool_decide_eq_false_2 by done.
      fold out. rewrite Eout. assert (tune_lines pts o = o) as -> by exact (tune_lines_again (split_lines sdp) Hl).
      rewrite E. by apply eol_again.
Qed.

Definition sample_sdp : jstr := str_join [13; 10]%N (js <$>
  ["v=0"; "a=rtpmap:111 opus/48000/2"; "a=fmtp:111 minptime=10; stereo=1"; "a=rtpmap:0 PCMU/8000"; "a=rtpmap:63 OPUS/48000"]).

Lemma opus_is_tuned_witness :
  opus_payloads sample_sdp = [js "111"; js "63"] /\ tuneOpus sample_sdp <> sample_sdp /\
  tuneOpus (tuneOpus sample_sdp) = tuneOpus sample_sdp.
Proof.
  split; [vm_compute; reflexivity|]. split; [vm_compute; discriminate|].
  apply (opus_is_tuned sample_sdp). apply (bool_decide_eq_true_1 _). vm_compute. reflexivity.
Defined.
End Sdp.
