(* ===== verification/Voice.v ===== *)
(** * Voice calls (client/src/lib/voice.js: [VoiceManager] and its helpers;
      client/src/lib/meter.js)

    One manager per device: who is in which room, the call this device is in,
    a connection ("leg") to each other member of it, direct calls that ring,
    screens and cameras.  Its methods are async and interleave: they are
    programs of Async.v over the manager's state [vm], split at their awaits.

    The browser is on the other side of the awaits ([op]: a request and what it
    resolves to) and in [platform]: the connections with the states the
    browser gives them, the captures that are running, localStorage.  Leg
    objects are shared by reference, so they are cells of a heap; a leg and its
    RTCPeerConnection are made together and have one index.  Rooms come off
    the wire and are any value.

    [for (const ... of this.peers)] with an await in its body goes on to legs
    added meanwhile; legs enter the map in the order they are made, so the
    next one is the first made after the last visited.  The number of legs
    such a loop visits is an argument. *)

From stdpp Require Import base list numbers option strings.
From Stdlib Require Import ZArith NArith Lia.
From S2P Require Import Prelude JsNum JsString JsValue Async Sdp.
Import Async.Async Sdp.Sdp.
Open Scope Z_scope.

Module Voice.
Local Notation "k ~> v" := (k%string, v) (at level 60).

(** ** State *)

(** A stream: a capture with its id, or the silent one of listen-only mode. *)
Inductive stream := Capture (id : jstr) | Silence.

Record session := { a_server : jstr; a_channel : val; a_stream : stream; a_since : num }.
Record ringing := { r_server : jstr; r_room : val; r_from : jstr }.
Record dialing := { d_server : jstr; d_room : jstr; d_to : jstr }.
Record video := { v_stream : jstr; v_track : jstr }.
Inductive kind := screen | camera_.
Inductive sig := stable | have_local_offer | have_remote_offer | sig_closed.
Inductive conn := new_ | connecting | connected | disconnected | failed | conn_closed.
Record dsp := { echoCancellation : bool; noiseSuppression : bool; autoGainControl : bool }.
(** [peerConfig]'s result: the servers and whether the policy is [relay]. *)
Record pc_config := { pc_iceServers : val; pc_relay : bool }.

#[global] Instance sig_eq_dec : EqDecision sig.
Proof. solve_decision. Defined.
#[global] Instance conn_eq_dec : EqDecision conn.
Proof. solve_decision. Defined.
#[global] Instance kind_eq_dec : EqDecision kind.
Proof. solve_decision. Defined.

Record call := {
  active : option session;
  ring : option ringing;
  dial : option dialing;
  muted : bool;
  listenOnly : bool;
}.

Definition set_active (x : option session) (r : call) : call :=
  {| active := x; ring := ring r; dial := dial r; muted := muted r; listenOnly := listenOnly r |}.
Definition set_ring (x : option ringing) (r : call) : call :=
  {| active := active r; ring := x; dial := dial r; muted := muted r; listenOnly := listenOnly r |}.
Definition set_dial (x : option dialing) (r : call) : call :=
  {| active := active r; ring := ring r; dial := x; muted := muted r; listenOnly := listenOnly r |}.
Definition set_muted (x : bool) (r : call) : call :=
  {| active := active r; ring := ring r; dial := dial r; muted := x; listenOnly := listenOnly r |}.
Definition set_listenOnly (x : bool) (r : call) : call :=
  {| active := active r; ring := ring r; dial := dial r; muted := muted r; listenOnly := x |}.

Record roster := {
  presence : list (jstr * list jstr);  (** a Map from rooms to Sets of names *)
  shares : list (jstr * jstr);  (** name to room *)
  cameras : list (jstr * jstr);
  mutedPeers : list jstr;
}.

Definition set_presence (x : list (jstr * list jstr)) (r : roster) : roster :=
  {| presence := x; shares := shares r; cameras := cameras r; mutedPeers := mutedPeers r |}.
Definition set_shares (x : list (jstr * jstr)) (r : roster) : roster :=
  {| presence := presence r; shares := x; cameras := cameras r; mutedPeers := mutedPeers r |}.
Definition set_cameras (x : list (jstr * jstr)) (r : roster) : roster :=
  {| presence := presence r; shares := shares r; cameras := x; mutedPeers := mutedPeers r |}.
Definition set_mutedPeers (x : list jstr) (r : roster) : roster :=
  {| presence := presence r; shares := shares r; cameras := cameras r; mutedPeers := x |}.

Record media := {
  share : option video;
  camera : option video;
  remoteScreens : list (jstr * jstr);  (** name to stream *)
  remoteCameras : list (jstr * jstr);
  videoKind : list (val * kind);  (** stream id to kind *)
  unroutedVideo : list (jstr * (jstr * jstr));  (** stream id to name and track *)
}.

Definition set_share (x : option video) (r : media) : media :=
  {| share := x; camera := camera r; remoteScreens := remoteScreens r; remoteCameras := remoteCameras r; videoKind :=
     videoKind r; unroutedVideo := unroutedVideo r |}.
Definition set_camera (x : option video) (r : media) : media :=
  {| share := share r; camera := x; remoteScreens := remoteScreens r; remoteCameras := remoteCameras r; videoKind :=
     videoKind r; unroutedVideo := unroutedVideo r |}.
Definition set_remoteScreens (x : list (jstr * jstr)) (r : media) : media :=
  {| share := share r; camera := camera r; remoteScreens := x; remoteCameras := remoteCameras r; videoKind :=
     videoKind r; unroutedVideo := unroutedVideo r |}.
Definition set_remoteCameras (x : list (jstr * jstr)) (r : media) : media :=
  {| share := share r; camera := camera r; remoteScreens := remoteScreens r; remoteCameras := x; videoKind :=
     videoKind r; unroutedVideo := unroutedVideo r |}.
Definition set_videoKind (x : list (val * kind)) (r : media) : media :=
  {| share := share r; camera := camera r; remoteScreens := remoteScreens r; remoteCameras := remoteCameras r;
     videoKind := x; unroutedVideo := unroutedVideo r |}.
Definition set_unroutedVideo (x : list (jstr * (jstr * jstr))) (r : media) : media :=
  {| share := share r; camera := camera r; remoteScreens := remoteScreens r; remoteCameras := remoteCameras r;
     videoKind := videoKind r; unroutedVideo := x |}.

Record leg := {
  pendingCandidates : list val;
  makingOffer : bool;
  shareSender : option jstr;  (** the track it sends *)
  cameraSender : option jstr;
  renegotiateNeeded : bool;
  reapTimer : bool;
  audio : bool;
}.

Definition set_pendingCandidates (x : list val) (r : leg) : leg :=
  {| pendingCandidates := x; makingOffer := makingOffer r; shareSender := shareSender r; cameraSender := cameraSender
     r; renegotiateNeeded := renegotiateNeeded r; reapTimer := reapTimer r; audio := audio r |}.
Definition set_makingOffer (x : bool) (r : leg) : leg :=
  {| pendingCandidates := pendingCandidates r; makingOffer := x; shareSender := shareSender r; cameraSender :=
     cameraSender r; renegotiateNeeded := renegotiateNeeded r; reapTimer := reapTimer r; audio := audio r |}.
Definition set_shareSender (x : option jstr) (r : leg) : leg :=
  {| pendingCandidates := pendingCandidates r; makingOffer := makingOffer r; shareSender := x; cameraSender :=
     cameraSender r; renegotiateNeeded := renegotiateNeeded r; reapTimer := reapTimer r; audio := audio r |}.
Definition set_cameraSender (x : option jstr) (r : leg) : leg :=
  {| pendingCandidates := pendingCandidates r; makingOffer := makingOffer r; shareSender := shareSender r;
     cameraSender := x; renegotiateNeeded := renegotiateNeeded r; reapTimer := reapTimer r; audio := audio r |}.
Definition set_renegotiateNeeded (x : bool) (r : leg) : leg :=
  {| pendingCandidates := pendingCandidates r; makingOffer := makingOffer r; shareSender := shareSender r;
     cameraSender := cameraSender r; renegotiateNeeded := x; reapTimer := reapTimer r; audio := audio r |}.
Definition set_reapTimer (x : bool) (r : leg) : leg :=
  {| pendingCandidates := pendingCandidates r; makingOffer := makingOffer r; shareSender := shareSender r;
     cameraSender := cameraSender r; renegotiateNeeded := renegotiateNeeded r; reapTimer := x; audio := audio r |}.
Definition set_audio (x : bool) (r : leg) : leg :=
  {| pendingCandidates := pendingCandidates r; makingOffer := makingOffer r; shareSender := shareSender r;
     cameraSender := cameraSender r; renegotiateNeeded := renegotiateNeeded r; reapTimer := reapTimer r; audio := x
     |}.

Record mesh := {
  peers : list (jstr * nat);  (** name to leg *)
  heap : list leg;
}.

Definition set_peers (x : list (jstr * nat)) (r : mesh) : mesh :=
  {| peers := x; heap := heap r |}.
Definition set_heap (x : list leg) (r : mesh) : mesh :=
  {| peers := peers r; heap := x |}.

Record meter := {
  analysers : list jstr;
  levels : list (jstr * num);
  speaking : list jstr;
}.

Definition set_analysers (x : list jstr) (r : meter) : meter :=
  {| analysers := x; levels := levels r; speaking := speaking r |}.
Definition set_levels (x : list (jstr * num)) (r : meter) : meter :=
  {| analysers := analysers r; levels := x; speaking := speaking r |}.
Definition set_speaking (x : list jstr) (r : meter) : meter :=
  {| analysers := analysers r; levels := levels r; speaking := x |}.

Record prefs := {
  inputDeviceId : option jstr;
  outputDeviceId : option jstr;
  callSounds : bool;
  processing : dsp;
  relayOnly : bool;
}.

Definition set_inputDeviceId (x : option jstr) (r : prefs) : prefs :=
  {| inputDeviceId := x; outputDeviceId := outputDeviceId r; callSounds := callSounds r; processing := processing r;
     relayOnly := relayOnly r |}.
Definition set_outputDeviceId (x : option jstr) (r : prefs) : prefs :=
  {| inputDeviceId := inputDeviceId r; outputDeviceId := x; callSounds := callSounds r; processing := processing r;
     relayOnly := relayOnly r |}.
Definition set_callSounds (x : bool) (r : prefs) : prefs :=
  {| inputDeviceId := inputDeviceId r; outputDeviceId := outputDeviceId r; callSounds := x; processing := processing
     r; relayOnly := relayOnly r |}.
Definition set_processing (x : dsp) (r : prefs) : prefs :=
  {| inputDeviceId := inputDeviceId r; outputDeviceId := outputDeviceId r; callSounds := callSounds r; processing :=
     x; relayOnly := relayOnly r |}.
Definition set_relayOnly (x : bool) (r : prefs) : prefs :=
  {| inputDeviceId := inputDeviceId r; outputDeviceId := outputDeviceId r; callSounds := callSounds r; processing :=
     processing r; relayOnly := x |}.

Record pc := {
  signalingState : sig;
  connectionState : conn;
  remoteDescription : bool;
  closed : bool;
  sends : bool;  (** a capture of mine was added *)
  tracks : list jstr;  (** the video tracks it sends *)
  config : pc_config;
}.

Definition set_signalingState (x : sig) (r : pc) : pc :=
  {| signalingState := x; connectionState := connectionState r; remoteDescription := remoteDescription r; closed :=
     closed r; sends := sends r; tracks := tracks r; config := config r |}.
Definition set_connectionState (x : conn) (r : pc) : pc :=
  {| signalingState := signalingState r; connectionState := x; remoteDescription := remoteDescription r; closed :=
     closed r; sends := sends r; tracks := tracks r; config := config r |}.
Definition set_remoteDescription (x : bool) (r : pc) : pc :=
  {| signalingState := signalingState r; connectionState := connectionState r; remoteDescription := x; closed :=
     closed r; sends := sends r; tracks := tracks r; config := config r |}.
Definition set_closed (x : bool) (r : pc) : pc :=
  {| signalingState := signalingState r; connectionState := connectionState r; remoteDescription := remoteDescription
     r; closed := x; sends := sends r; tracks := tracks r; config := config r |}.
Definition set_sends (x : bool) (r : pc) : pc :=
  {| signalingState := signalingState r; connectionState := connectionState r; remoteDescription := remoteDescription
     r; closed := closed r; sends := x; tracks := tracks r; config := config r |}.
Definition set_config (x : pc_config) (r : pc) : pc :=
  {| signalingState := signalingState r; connectionState := connectionState r; remoteDescription := remoteDescription
     r; closed := closed r; sends := sends r; tracks := tracks r; config := x |}.
Definition set_tracks (x : list jstr) (r : pc) : pc :=
  {| signalingState := signalingState r; connectionState := connectionState r; remoteDescription := remoteDescription
     r; closed := closed r; sends := sends r; tracks := x; config := config r |}.

Record platform := {
  pcs : list pc;
  live : list jstr;  (** captures that are running *)
  now : num;
  analysable : bool;
  stored : list (jstr * jstr);  (** localStorage *)
  iceServers : option val;
}.

Definition set_pcs (x : list pc) (r : platform) : platform :=
  {| pcs := x; live := live r; now := now r; analysable := analysable r; stored := stored r; iceServers := iceServers
     r |}.
Definition set_live (x : list jstr) (r : platform) : platform :=
  {| pcs := pcs r; live := x; now := now r; analysable := analysable r; stored := stored r; iceServers := iceServers r
     |}.
Definition set_now (x : num) (r : platform) : platform :=
  {| pcs := pcs r; live := live r; now := x; analysable := analysable r; stored := stored r; iceServers := iceServers
     r |}.
Definition set_analysable (x : bool) (r : platform) : platform :=
  {| pcs := pcs r; live := live r; now := now r; analysable := x; stored := stored r; iceServers := iceServers r |}.
Definition set_stored (x : list (jstr * jstr)) (r : platform) : platform :=
  {| pcs := pcs r; live := live r; now := now r; analysable := analysable r; stored := x; iceServers := iceServers r
     |}.
Definition set_iceServers (x : option val) (r : platform) : platform :=
  {| pcs := pcs r; live := live r; now := now r; analysable := analysable r; stored := stored r; iceServers := x |}.

Record vm := {
  me : jstr;
  vm_call : call;
  vm_roster : roster;
  vm_media : media;
  vm_mesh : mesh;
  vm_meter : meter;
  vm_prefs : prefs;
  vm_plat : platform;
}.


Definition on_call (f : call -> call) (s : vm) : vm :=
  {| me := me s; vm_call := f (vm_call s); vm_roster := vm_roster s; vm_media := vm_media s; vm_mesh := vm_mesh s; vm_meter := vm_meter s; vm_prefs := vm_prefs s; vm_plat := vm_plat s |}.
Definition on_roster (f : roster -> roster) (s : vm) : vm :=
  {| me := me s; vm_call := vm_call s; vm_roster := f (vm_roster s); vm_media := vm_media s; vm_mesh := vm_mesh s; vm_meter := vm_meter s; vm_prefs := vm_prefs s; vm_plat := vm_plat s |}.
Definition on_media (f : media -> media) (s : vm) : vm :=
  {| me := me s; vm_call := vm_call s; vm_roster := vm_roster s; vm_media := f (vm_media s); vm_mesh := vm_mesh s; vm_meter := vm_meter s; vm_prefs := vm_prefs s; vm_plat := vm_plat s |}.
Definition on_mesh (f : mesh -> mesh) (s : vm) : vm :=
  {| me := me s; vm_call := vm_call s; vm_roster := vm_roster s; vm_media := vm_media s; vm_mesh := f (vm_mesh s); vm_meter := vm_meter s; vm_prefs := vm_prefs s; vm_plat := vm_plat s |}.
Definition on_meter (f : meter -> meter) (s : vm) : vm :=
  {| me := me s; vm_call := vm_call s; vm_roster := vm_roster s; vm_media := vm_media s; vm_mesh := vm_mesh s; vm_meter := f (vm_meter s); vm_prefs := vm_prefs s; vm_plat := vm_plat s |}.
Definition on_prefs (f : prefs -> prefs) (s : vm) : vm :=
  {| me := me s; vm_call := vm_call s; vm_roster := vm_roster s; vm_media := vm_media s; vm_mesh := vm_mesh s; vm_meter := vm_meter s; vm_prefs := f (vm_prefs s); vm_plat := vm_plat s |}.
Definition on_plat (f : platform -> platform) (s : vm) : vm :=
  {| me := me s; vm_call := vm_call s; vm_roster := vm_roster s; vm_media := vm_media s; vm_mesh := vm_mesh s; vm_meter := vm_meter s; vm_prefs := vm_prefs s; vm_plat := f (vm_plat s) |}.

(** ** What the methods wait for, and what they hand out *)

Inductive op :=
| OSend (server : jstr) (content notify : val)
| OMic (processing : option dsp) (device : option jstr)
| OScreen
| OCamera
| OOffer (r : nat)
| OAnswer (r : nat)
| OSetLocal (r : nat) (type : string) (sdp : jstr)
| OSetRemote (r : nat) (type : string) (sdp : val)
| OAddIce (r : nat) (cand : val)
| OReplaceTrack (r : nat) (s : jstr)
| OSink (r : nat) (device : jstr)
| OTick.

(** A screen or a camera resolves to a stream and its video track, if it has
    one; an offer or an answer to its text. *)
Definition Res (o : op) : Type :=
  match o with
  | OMic _ _ => jstr
  | OScreen | OCamera => jstr * option jstr
  | OOffer _ | OAnswer _ => jstr
  | _ => unit
  end.

(** What [publish] shows. *)
Record view := {
  w_active : option (jstr * val * num);
  w_listenOnly : bool;
  w_muted : bool;
  w_sharing : list jstr;
  w_screens : list jstr;
  w_cameras : list jstr;
  w_cams : list jstr;
  w_mutedPeers : list jstr;
  w_connections : list (jstr * conn);
  w_presence : list (jstr * list jstr);
  w_speaking : list jstr;
  w_ring : option ringing;
  w_dial : option dialing;
  w_direct : option jstr;
}.

Inductive out :=
| State (v : view)
| Notify (text : jstr)
| Announce (text : jstr)
| CallStarted (server : jstr) (channel : val) (name : jstr)
| Chime (joined : bool).

Notation P := (prog vm out Res).

(** [await f()] of an async function: one more turn when it is over. *)
Definition tick : P unit := Await OTick (fun _ => Ret tt).
Definition call_ {A} (p : P A) : P A :=
  let! r := catch (let! a := p in Ret (Ok a)) (fun e => Ret (Throw e)) in
  tick ;; lift r.
Definition quietly (p : P unit) : P unit := catch p (fun _ => Ret tt).
Definition finally (p : P unit) (f : P unit) : P unit :=
  let! r := catch (let! a := p in Ret (Ok a)) (fun e => Ret (Throw e)) in
  f ;; lift r.
Definition send (server : jstr) (content notify : val) : P unit := await (OSend server content notify).

(** ** Helpers *)

Definition MESH_LIMIT : nat := 8.
Definition meshFull (count : nat) : bool := (MESH_LIMIT <=? count)%nat.

Definition RELAY_ONLY_KEY : jstr := js "quorum-voice-relay-only".

(** [/^turns?:/i.test(u.trim())]. *)
Definition turn_url (u : val) : bool :=
  match u with
  | VStr s => bool_decide (is_Some (strip_ci (js "turn:") (trim s))) || bool_decide (is_Some (strip_ci (js "turns:") (trim s)))
  | _ => false
  end.
Definition hasTurn (servers : val) : res bool :=
  match servers ⁇ VArr [] with
  | VArr l => Ok (existsb (fun s => match s.["urls"] with VArr us => existsb turn_url us | u => turn_url u end) l)
  | _ => Throw TypeError
  end.

Definition DEFAULT_ICE : val := VArr [jobj [("urls" ~> VStr (js "stun:stun.l.google.com:19302"))]].
Definition peerConfig (servers : option val) (relay : bool) : pc_config :=
  {| pc_iceServers := default DEFAULT_ICE servers; pc_relay := relay |}.

(** localStorage, [None] where it cannot be used. *)
Definition loadRelayOnly (storage : option (list (jstr * jstr))) : bool :=
  match storage with Some m => bool_decide (obj_get m RELAY_ONLY_KEY = Some (js "1")) | None => false end.
Definition saveRelayOnly (on : bool) (storage : option (list (jstr * jstr))) : option (list (jstr * jstr)) * bool :=
  match storage with
  | Some m => (Some (if on then map_set m RELAY_ONLY_KEY (js "1") else obj_delete m RELAY_ONLY_KEY), true)
  | None => (None, false)
  end.

(** [constructor]: the preferences as localStorage has them; a stored ['0'] is
    off, anything else on.  [relay]: the option, else what is stored. *)
Definition get_item (ls : option (list (jstr * jstr))) (k : string) : option jstr := ls ≫= (fun m => obj_get m (js k)).
Definition loaded_device (ls : option (list (jstr * jstr))) (k : string) : option jstr := get_item ls k ≫= opt_text.
Definition loaded_flag (ls : option (list (jstr * jstr))) (k : string) : bool := negb (bool_decide (get_item ls k = Some (js "0"))).
Definition loaded_prefs (ls : option (list (jstr * jstr))) (relay : option bool) : prefs :=
  {| inputDeviceId := loaded_device ls "quorum-audio-in"; outputDeviceId := loaded_device ls "quorum-audio-out";
     callSounds := loaded_flag ls "quorum-call-sounds";
     processing := {| echoCancellation := loaded_flag ls "quorum-audio-ec"; noiseSuppression := loaded_flag ls "quorum-audio-ns";
                      autoGainControl := loaded_flag ls "quorum-audio-agc" |};
     relayOnly := default (loadRelayOnly ls) relay |}.

(** A new manager, on a browser that has made no connection yet. *)
Definition new_manager (mine : jstr) (ice : option val) (relay : option bool) (storage : list (jstr * jstr)) (time : num) (can_analyse : bool) : vm :=
  {| me := mine; vm_call := {| active := None; ring := None; dial := None; muted := false; listenOnly := false |};
     vm_roster := {| presence := []; shares := []; cameras := []; mutedPeers := [] |};
     vm_media := {| share := None; camera := None; remoteScreens := []; remoteCameras := []; videoKind := []; unroutedVideo := [] |};
     vm_mesh := {| peers := []; heap := [] |}; vm_meter := {| analysers := []; levels := []; speaking := [] |};
     vm_prefs := loaded_prefs (Some storage) relay;
     vm_plat := {| pcs := []; live := []; now := time; analysable := can_analyse; stored := storage; iceServers := ice |} |}.

(** Sets of names. *)
Definition set_add (x : jstr) (l : list jstr) : list jstr := if bool_decide (x ∈ l) then l else l ++ [x].
Definition set_del (x : jstr) (l : list jstr) : list jstr := filter (fun y => y <> x) l.

(** [`${server}\n${channel}`]. *)
Definition key (server : jstr) (channel : val) : res jstr :=
  let* c := to_string channel in Ok (server ++ [10%N] ++ c).

Definition participants (s : vm) (server : jstr) (channel : val) : res (list jstr) :=
  let* k := key server channel in Ok (sort_strings (default [] (obj_get (presence (vm_roster s)) k))).

Definition directRoom (a b : jstr) : jstr := js "dm:" ++ str_join (js "+") (sort_strings [a; b]).

(** [channel.slice(3).split('+').find((n) => n !== this.me) ?? null]; not a
    string has no [startsWith]. *)
Definition directPeer (mine : jstr) (channel : val) : res (option jstr) :=
  if negb (truthy channel) then Ok None else
  match channel with
  | VStr c => Ok (if starts_with (js "dm:") c then find (fun n => negb (str_eqb n mine)) (split_char 43 (drop 3 c)) else None)
  | _ => Throw TypeError
  end.

Definition inChannel (s : vm) (server : jstr) (channel : val) : bool :=
  match active (vm_call s) with
  | Some a => str_eqb (a_server a) server && strict_eq (a_channel a) channel
  | None => false
  end.

(** [k.replace('\n', '/')]: the first one. *)
Fixpoint slashed (k : jstr) : jstr :=
  match k with [] => [] | c :: r => if N.eqb c 10 then 47%N :: r else c :: slashed r end.

Definition names_at (k : jstr) (m : list (jstr * jstr)) : list jstr := (filter (fun e => e.2 = k) m).*1.

Definition view_of (s : vm) : res view :=
  let c := vm_call s in
  let m := vm_media s in
  let* at_ := match active c with Some a => let* k := key (a_server a) (a_channel a) in Ok (Some k) | None => Ok None end in
  let* direct := match active c with Some a => directPeer (me s) (a_channel a) | None => Ok None end in
  let own (v : option video) := match v with Some _ => [me s] | None => [] end in
  Ok {| w_active := (fun a => (a_server a, a_channel a, a_since a)) <$> active c;
        w_listenOnly := match active c with Some _ => listenOnly c | None => false end;
        w_muted := match active c with Some _ => muted c | None => false end;
        w_sharing := match at_ with Some k => sort_strings (own (share m) ++ names_at k (shares (vm_roster s))) | None => [] end;
        w_screens := sort_strings (remoteScreens m).*1;
        w_cameras := match at_ with Some k => sort_strings (own (camera m) ++ names_at k (cameras (vm_roster s))) | None => [] end;
        w_cams := sort_strings (remoteCameras m).*1;
        w_mutedPeers := sort_strings (mutedPeers (vm_roster s));
        w_connections := fold_left (fun o e => obj_put o e.1 (default conn_closed (connectionState <$> pcs (vm_plat s) !! e.2)))
                           (peers (vm_mesh s)) [];
        w_presence := fold_left (fun o e => obj_put o (slashed e.1) (sort_strings e.2)) (presence (vm_roster s)) [];
        w_speaking := sort_strings (speaking (vm_meter s));
        w_ring := ring c;
        w_dial := dial c;
        w_direct := direct |}.

Definition publish : P unit := Get (fun s => match view_of s with Ok v => emit (State v) | Throw e => Raise e end).

(** [if (id) setItem(key, id) else removeItem(key)]. *)
Definition store_item (k v : jstr) (m : list (jstr * jstr)) : list (jstr * jstr) :=
  if is_empty v then obj_delete m k else map_set m k v.
Definition persistDevice (k v : jstr) : P unit := modify (on_plat (fun p => set_stored (store_item k v (stored p)) p)).

(** ** Cells of the heap and connections *)

Definition leg_of (s : vm) (r : nat) : option leg := heap (vm_mesh s) !! r.
Definition pc_of (s : vm) (r : nat) : option pc := pcs (vm_plat s) !! r.
Definition set_leg (r : nat) (f : leg -> leg) : P unit := modify (on_mesh (fun m => set_heap (alter f r (heap m)) m)).
Definition set_pc (r : nat) (f : pc -> pc) : P unit := modify (on_plat (fun p => set_pcs (alter f r (pcs p)) p)).
Definition sig_of (s : vm) (r : nat) : sig := default sig_closed (signalingState <$> pc_of s r).

(** [this.peers.get(name) === peer]. *)
Definition holds_leg (s : vm) (name : jstr) (r : nat) : bool := bool_decide (obj_get (peers (vm_mesh s)) name = Some r).

(** The legs made after [last], one by one, [n] of them at most. *)
Fixpoint each_peer (n : nat) (last : option nat) (body : jstr -> nat -> P unit) : P unit :=
  match n with
  | O => Ret tt
  | S n =>
      let! ps := gets (fun s => peers (vm_mesh s)) in
      match find (fun e => match last with Some k => (k <? e.2)%nat | None => true end) ps with
      | Some (name, r) => body name r ;; each_peer n (Some r) body
      | None => Ret tt
      end
  end.

(** A capture runs from when it is granted until its tracks are stopped. *)
Definition stop_capture (s : stream) : P unit :=
  match s with Capture id => modify (on_plat (fun p => set_live (set_del id (live p)) p)) | Silence => Ret tt end.
Definition granted (id : jstr) : P unit := modify (on_plat (fun p => set_live (set_add id (live p)) p)).

(** ** Active speakers *)

Definition SPEAK_ON : num := num_of_dec 6 (-2).
Definition SPEAK_OFF : num := num_of_dec 3 (-2).
Definition levelFromRms (rms : num) : num := nmin (int 1) (nmul rms (int 4)).
Definition nextSpeaking (was : bool) (rms : num) : bool :=
  if negb was && (rms >ₙ SPEAK_ON) then true else if was && (rms <ₙ SPEAK_OFF) then false else was.

Definition addMeter (name : jstr) : P unit :=
  modify (fun s => if bool_decide (name ∈ analysers (vm_meter s)) || negb (analysable (vm_plat s)) then s
                   else on_meter (fun m => set_analysers (analysers m ++ [name]) m) s).

Definition removeMeter (name : jstr) : P unit :=
  modify (on_meter (fun m => {| analysers := set_del name (analysers m); levels := obj_delete (levels m) name;
                                speaking := set_del name (speaking m) |})).

(** One frame of the meter; [rms] is the loudness of each stream. *)
Definition meter_name (rms : jstr -> num) (m : meter) (name : jstr) : meter :=
  {| analysers := analysers m; levels := obj_put (levels m) name (levelFromRms (rms name));
     speaking := if nextSpeaking (bool_decide (name ∈ speaking m)) (rms name) then set_add name (speaking m)
                 else set_del name (speaking m) |}.
Definition meter_frame (rms : jstr -> num) : P unit :=
  let! before := gets (fun s => speaking (vm_meter s)) in
  modify (on_meter (fun m => fold_left (meter_name rms) (analysers m) m)) ;;
  let! after := gets (fun s => speaking (vm_meter s)) in
  guard_ (bool_decide (before <> after)) publish.

Definition stopMeter : P unit := modify (on_meter (fun _ => {| analysers := []; levels := []; speaking := [] |})).

(** ** Rooms *)

Definition presence_set (k : jstr) (s : vm) : list jstr := default [] (obj_get (presence (vm_roster s)) k).

Definition track (server : jstr) (channel : val) (name : jstr) (present announce : bool) : P unit :=
  let! k := lift (key server channel) in
  modify (fun s => match obj_get (presence (vm_roster s)) k with
                   | Some _ => s
                   | None => on_roster (fun r => set_presence (map_set (presence r) k []) r) s
                   end) ;;
  let! set := gets (presence_set k) in
  guard_ (present && announce && bool_decide (set = [])) (emit (CallStarted server channel name)) ;;
  modify (fun s => on_roster (fun r => set_presence (map_set (presence r) k
            ((if present then set_add name else set_del name) (presence_set k s))) r) s).

Definition voice_env (channel : val) (action : string) (more : list (string * val)) : val :=
  jobj ([("k" ~> VStr (js "voice")); ("ch" ~> channel); ("action" ~> VStr (js action))] ++ more).
Definition ring_env (to : jstr) (room : val) (action : string) : val :=
  jobj [("k" ~> VStr (js "ring")); ("to" ~> VStr to); ("ch" ~> room); ("action" ~> VStr (js action))].
Definition rtc_env (channel : val) (to : jstr) (type : string) (more : list (string * val)) : val :=
  jobj ([("k" ~> VStr (js "rtc")); ("ch" ~> channel); ("to" ~> VStr to); ("type" ~> VStr (js type))] ++ more).

(** ** The microphone *)

Definition applyMute (m : bool) : P unit :=
  modify (on_call (set_muted m)) ;;
  let! a := gets (fun s => active (vm_call s)) in
  match a with
  | Some a => fork (quietly (send (a_server a) (voice_env (a_channel a) (if m then "mute" else "unmute") []) VUndef))
  | None => Ret tt
  end ;;
  publish.
Definition setMuted (m : bool) : P unit := applyMute m.

Definition getUserMedia (processing : option dsp) (device : option jstr) : P jstr :=
  let! id := await (OMic processing device) in
  granted id ;; Ret id.

Definition captureAudio : P stream :=
  catch (let! s := gets vm_prefs in
         let! id := getUserMedia (Some (processing s)) (inputDeviceId s) in
         modify (on_call (set_listenOnly false)) ;; Ret (Capture id))
    (fun _ =>
       let silent := modify (on_call (set_listenOnly true)) ;; Ret Silence in
       let! s := gets vm_prefs in
       match inputDeviceId s with
       | Some _ =>
           let! got := catch (let! id := getUserMedia None None in Ret (Some id)) (fun _ => Ret None) in
           match got with
           | Some id => modify (on_call (set_listenOnly false)) ;; Ret (Capture id)
           | None => silent
           end
       | None => silent
       end).

(** [n]: the legs the loop visits. *)
Definition recaptureMic (n : nat) : P unit :=
  let! s := gets vm_prefs in
  let! id := getUserMedia (Some (processing s)) (inputDeviceId s) in
  each_peer n None (fun _ r => quietly (await (OReplaceTrack r id))) ;;
  let! a := gets (fun s => active (vm_call s)) in
  match a with
  | None => Raise TypeError
  | Some a =>
      stop_capture (a_stream a) ;;
      modify (on_call (set_active (Some {| a_server := a_server a; a_channel := a_channel a; a_stream := Capture id; a_since := a_since a |}))) ;;
      let! mine := gets me in
      removeMeter mine ;; addMeter mine ;;
      modify (on_call (set_listenOnly false))
  end.

Definition flag_text (on : bool) : jstr := if on then [] else js "0".

Definition setAudioProcessing (n : nat) (ec ns agc : option bool) : P unit :=
  modify (on_prefs (fun p => set_processing
    {| echoCancellation := default (echoCancellation (processing p)) ec;
       noiseSuppression := default (noiseSuppression (processing p)) ns;
       autoGainControl := default (autoGainControl (processing p)) agc |} p)) ;;
  let! d := gets (fun s => processing (vm_prefs s)) in
  persistDevice (js "quorum-audio-ec") (flag_text (echoCancellation d)) ;;
  persistDevice (js "quorum-audio-ns") (flag_text (noiseSuppression d)) ;;
  persistDevice (js "quorum-audio-agc") (flag_text (autoGainControl d)) ;;
  let! c := gets vm_call in
  guard_ (bool_decide (is_Some (active c)) && negb (listenOnly c)) (quietly (call_ (recaptureMic n))) ;;
  publish.

Definition setOutputDevice (n : nat) (id : jstr) : P unit :=
  modify (on_prefs (set_outputDeviceId (opt_text id))) ;;
  persistDevice (js "quorum-audio-out") id ;;
  each_peer n None (fun _ r =>
    let! s := gets (fun s => s) in
    guard_ (default false (audio <$> leg_of s r)) (quietly (await (OSink r id)))).

Definition setInputDevice (n : nat) (id : jstr) : P unit :=
  modify (on_prefs (set_inputDeviceId (opt_text id))) ;;
  persistDevice (js "quorum-audio-in") id ;;
  let! a := gets (fun s => active (vm_call s)) in
  match a with
  | None => Ret tt
  | Some _ => quietly (call_ (recaptureMic n) ;; publish)
  end.

Definition setCallSounds (on : bool) : P unit :=
  modify (on_prefs (set_callSounds on)) ;; persistDevice (js "quorum-call-sounds") (flag_text on) ;; publish.

Definition chime (joined : bool) : P unit :=
  let! p := gets vm_prefs in
  guard_ (callSounds p) (emit (Chime joined)).

(** ** Leaving and joining *)

Definition teardownPeer (r : nat) : P unit :=
  set_leg r (fun l => set_audio false (set_reapTimer false l)) ;;
  set_pc r (fun p => set_closed true (set_signalingState sig_closed p)).

Definition stop_video (get : media -> option video) (clear : media -> media) : P unit :=
  let! v := gets (fun s => get (vm_media s)) in
  match v with
  | Some v => stop_capture (Capture (v_stream v)) ;; modify (on_media clear)
  | None => Ret tt
  end.

(** [leave], from the answer to its envelope on. *)
Definition hang_up (a : session) : P unit :=
  let! ps := gets (fun s => peers (vm_mesh s)) in
  each ps (fun e => teardownPeer e.2) ;;
  modify (on_mesh (set_peers [])) ;;
  stopMeter ;;
  stop_capture (a_stream a) ;;
  stop_video share (set_share None) ;;
  stop_video camera (set_camera None) ;;
  modify (on_media (fun m => set_remoteScreens [] (set_remoteCameras [] (set_videoKind [] (set_unroutedVideo [] m))))) ;;
  modify (on_roster (fun r => set_cameras [] (set_mutedPeers [] r))) ;;
  let! mine := gets me in
  track (a_server a) (a_channel a) mine false true ;;
  modify (on_call (fun c => set_active None (set_muted false (set_dial None c)))) ;;
  publish.

Definition leave : P unit :=
  let! a := gets (fun s => active (vm_call s)) in
  match a with
  | None => Ret tt
  | Some a =>
      quietly (send (a_server a) (voice_env (a_channel a) "leave" []) VUndef) ;;
      hang_up a
  end.

Definition join (server : jstr) (channel : val) : P unit :=
  let! a := gets (fun s => active (vm_call s)) in
  guard_ (bool_decide (is_Some a)) (call_ leave) ;;
  let! there := Get (fun s => lift (participants s server channel)) in
  if meshFull (length there) then Raise OtherError else
  let! str := call_ captureAudio in
  modify (on_call (set_muted false)) ;;
  let! there := Get (fun s => lift (participants s server channel)) in
  let! mine := gets me in
  let! starts := (if bool_decide (there = [])
                  then let! d := lift (directPeer mine channel) in Ret (match d with Some n => is_empty n | None => true end)
                  else Ret false) in
  modify (fun s => on_call (set_active (Some {| a_server := server; a_channel := channel; a_stream := str;
                                                a_since := now (vm_plat s) |})) s) ;;
  addMeter mine ;;
  track server channel mine true true ;;
  send server (voice_env channel "join" []) (if starts : bool then VStr (js "*") else VUndef) ;;
  publish.

Definition dropPeer (name : jstr) : P unit :=
  let! leg := gets (fun s => obj_get (peers (vm_mesh s)) name) in
  match leg with
  | None => Ret tt
  | Some r =>
      teardownPeer r ;;
      modify (on_mesh (fun m => set_peers (obj_delete (peers m) name) m)) ;;
      removeMeter name ;;
      modify (on_media (fun m => set_remoteScreens (obj_delete (remoteScreens m) name)
                                   (set_remoteCameras (obj_delete (remoteCameras m) name) m))) ;;
      modify (on_roster (fun r => set_cameras (obj_delete (cameras r) name) (set_mutedPeers (set_del name (mutedPeers r)) r))) ;;
      let! s := gets (fun s => s) in
      match active (vm_call s) with
      | Some a =>
          let! d := lift (directPeer (me s) (a_channel a)) in
          guard_ (bool_decide (d = Some name) && bool_decide (peers (vm_mesh s) = [])) (fork (quietly leave))
      | None => Ret tt
      end ;;
      publish
  end.

(** ** Negotiation *)

(** The room of the call this device is in now. *)
Definition current_channel : P val :=
  let! a := gets (fun s => active (vm_call s)) in
  match a with Some a => Ret (a_channel a) | None => Raise TypeError end.

Definition renegotiate (server name : jstr) (r : nat) : P unit :=
  finally
    (set_leg r (set_makingOffer true) ;;
     let! offer := await (OOffer r) in
     let! s := gets (fun s => s) in
     if bool_decide (sig_of s r <> stable) then set_leg r (set_renegotiateNeeded true) else
     set_leg r (set_renegotiateNeeded false) ;;
     let sdp := tuneOpus offer in
     await (OSetLocal r "offer" sdp) ;;
     let! ch := current_channel in
     send server (rtc_env ch name "offer" [("sdp" ~> VStr sdp)]) VUndef)
    (set_leg r (set_makingOffer false)).

Definition fresh_leg (share_ camera_ : option video) : leg :=
  {| pendingCandidates := []; makingOffer := false; shareSender := v_track <$> share_;
     cameraSender := v_track <$> camera_; renegotiateNeeded := false; reapTimer := false; audio := false |}.

(** The connection and its leg; my streams are added to it. *)
Definition createPeer : P nat :=
  let! s := gets (fun s => s) in
  let r := length (pcs (vm_plat s)) in
  let pc := {| signalingState := stable; connectionState := new_; remoteDescription := false; closed := false; sends := false;
               tracks := []; config := peerConfig (iceServers (vm_plat s)) (relayOnly (vm_prefs s)) |} in
  modify (on_plat (fun p => set_pcs (pcs p ++ [pc]) p)) ;;
  modify (on_mesh (fun m => set_heap (heap m ++ [fresh_leg None None]) m)) ;;
  match active (vm_call s) with
  | None => Raise TypeError
  | Some _ =>
      set_pc r (fun p => set_tracks (v_track <$> option_list (share (vm_media s)) ++ option_list (camera (vm_media s))) (set_sends true p)) ;;
      set_leg r (fun _ => fresh_leg (share (vm_media s)) (camera (vm_media s))) ;;
      Ret r
  end.

Definition add_peer (name : jstr) (r : nat) : P unit :=
  modify (on_mesh (fun m => set_peers (map_set (peers m) name r) m)).

Definition ensurePeer (server name : jstr) : P unit :=
  let! s := gets (fun s => s) in
  if bool_decide (is_Some (obj_get (peers (vm_mesh s)) name)) then Ret tt else
  let! r := createPeer in
  add_peer name r ;;
  if str_ltb (me s) name then
    let! offer := await (OOffer r) in
    let! s := gets (fun s => s) in
    if negb (holds_leg s name r) || bool_decide (active (vm_call s) = None) then Ret tt else
    let sdp := tuneOpus offer in
    await (OSetLocal r "offer" sdp) ;;
    let! ch := current_channel in
    send server (rtc_env ch name "offer" [("sdp" ~> VStr sdp)]) VUndef ;;
    publish
  else publish.

Definition add_pending (r : nat) : P unit :=
  let! s := gets (fun s => s) in
  let cands := default [] (pendingCandidates <$> leg_of s r) in
  set_leg r (set_pendingCandidates []) ;;
  each cands (fun c => await (OAddIce r c)).

(** Has the leg gone while something was awaited? *)
Definition still (name : jstr) (r : nat) (p : P unit) : P unit :=
  let! s := gets (fun s => s) in if holds_leg s name r then p else Ret tt.

Definition on_offer (server sender : jstr) (r : nat) (content : val) : P unit :=
  let! s := gets (fun s => s) in
  let collision := default false (makingOffer <$> leg_of s r) || bool_decide (sig_of s r <> stable) in
  let polite := str_ltb sender (me s) in
  if collision && negb polite then Ret tt else
  guard_ collision (set_leg r (set_renegotiateNeeded true)) ;;
  await (OSetRemote r "offer" content.["sdp"]) ;;
  still sender r
    (add_pending r ;;
     let! answer := await (OAnswer r) in
     still sender r
       (let sdp := tuneOpus answer in
        await (OSetLocal r "answer" sdp) ;;
        send server (rtc_env content.["ch"] sender "answer" [("sdp" ~> VStr sdp)]) VUndef ;;
        let! s := gets (fun s => s) in
        guard_ (default false (renegotiateNeeded <$> leg_of s r) && bool_decide (sig_of s r = stable) &&
                holds_leg s sender r && bool_decide (is_Some (active (vm_call s))))
          (set_leg r (set_renegotiateNeeded false) ;; fork (quietly (renegotiate server sender r))))).

Definition on_answer (r : nat) (content : val) : P unit :=
  let! s := gets (fun s => s) in
  if bool_decide (sig_of s r <> have_local_offer) then Ret tt else
  await (OSetRemote r "answer" content.["sdp"]) ;; add_pending r.

Definition on_candidate (r : nat) (content : val) : P unit :=
  let! s := gets (fun s => s) in
  if default false (remoteDescription <$> pc_of s r) then quietly (await (OAddIce r content.["cand"]))
  else set_leg r (fun l => set_pendingCandidates (pendingCandidates l ++ [content.["cand"]]) l).

Definition handleSignal (server sender : jstr) (content : val) : P unit :=
  let is_type (t : string) := strict_eq content.["type"] (VStr (js t)) in
  let! have := gets (fun s => obj_get (peers (vm_mesh s)) sender) in
  let! leg := match have with
              | Some r => Ret (Some r)
              | None => if is_type "offer" then let! r := createPeer in add_peer sender r ;; Ret (Some r) else Ret None
              end in
  match leg with
  | None => Ret tt
  | Some r =>
      (if is_type "offer" then on_offer server sender r content
       else if is_type "answer" then on_answer r content
       else if is_type "candidate" then on_candidate r content
       else Ret tt) ;;
      publish
  end.

(** ** Screens and cameras *)

Definition screenStreamFor (s : vm) (name : jstr) : option jstr :=
  if str_eqb name (me s) then v_stream <$> share (vm_media s) else obj_get (remoteScreens (vm_media s)) name.
Definition cameraStreamFor (s : vm) (name : jstr) : option jstr :=
  if str_eqb name (me s) then v_stream <$> camera (vm_media s) else obj_get (remoteCameras (vm_media s)) name.

Definition kind_of (m : media) (sid : val) : option kind := snd <$> find (fun e => same_value e.1 sid) (videoKind m).
Definition set_kind (sid : val) (k : kind) (l : list (val * kind)) : list (val * kind) :=
  if existsb (fun e => same_value e.1 sid) l then (fun e => if same_value e.1 sid then (e.1, k) else e) <$> l else l ++ [(sid, k)].
Definition del_kind (sid : val) (l : list (val * kind)) : list (val * kind) := filter (fun e => same_value e.1 sid = false) l.

Definition put_remote (k : kind) (name str : jstr) (m : media) : media :=
  match k with
  | camera_ => set_remoteCameras (map_set (remoteCameras m) name str) m
  | screen => set_remoteScreens (map_set (remoteScreens m) name str) m
  end.

(** File an arrived stream, or park it until its kind is known. *)
Definition attachRemoteVideo (name str trk : jstr) (k : option kind) : P unit :=
  match k with
  | None => modify (on_media (fun m => set_unroutedVideo (map_set (unroutedVideo m) str (name, trk)) m))
  | Some k => modify (on_media (put_remote k name str)) ;; publish
  end.

Definition routeVideo (sid : val) (k : kind) : P unit :=
  if negb (truthy sid) then Ret tt else
  modify (on_media (fun m => set_videoKind (set_kind sid k (videoKind m)) m)) ;;
  let! m := gets vm_media in
  match sid with
  | VStr str =>
      match obj_get (unroutedVideo m) str with
      | Some (name, trk) =>
          modify (on_media (fun m => set_unroutedVideo (obj_delete (unroutedVideo m) str) m)) ;;
          attachRemoteVideo name str trk (Some k)
      | None => Ret tt
      end
  | _ => Ret tt
  end.

(** The handlers an arrived stream gets: parked, it is forgotten; filed, it is
    taken down when its last track is over ([still_live]: one is not). *)
Definition parked_gone (str : jstr) : P unit :=
  modify (on_media (fun m => set_unroutedVideo (obj_delete (unroutedVideo m) str) m)).
Definition filed_gone (k : kind) (name str : jstr) (still_live : bool) : P unit :=
  let! m := gets vm_media in
  let there := match k with camera_ => remoteCameras m | screen => remoteScreens m end in
  guard_ (bool_decide (obj_get there name = Some str) && negb still_live)
    (modify (on_media (fun m => match k with
                                | camera_ => set_remoteCameras (obj_delete (remoteCameras m) name) m
                                | screen => set_remoteScreens (obj_delete (remoteScreens m) name) m
                                end)) ;; publish).

Definition set_sender (k : kind) (on : option jstr) (l : leg) : leg :=
  match k with screen => set_shareSender on l | camera_ => set_cameraSender on l end.
Definition sender_of (k : kind) (l : leg) : option jstr := match k with screen => shareSender l | camera_ => cameraSender l end.

(** A connection takes a track once. *)
Definition addTrack (r : nat) (t : jstr) : P unit :=
  let! s := gets (fun s => s) in
  if bool_decide (t ∈ default [] (tracks <$> pc_of s r)) then Raise OtherError
  else set_pc r (fun p => set_tracks (tracks p ++ [t]) p).
Definition removeTrack (r : nat) (t : jstr) : P unit := set_pc r (fun p => set_tracks (set_del t (tracks p)) p).

Definition startVideo (n : nat) (k : kind) (v : video) (action : string) : P unit :=
  modify (on_media (fun m => set_videoKind (set_kind (VStr (v_stream v)) k (videoKind m)) m)) ;;
  let! a := gets (fun s => active (vm_call s)) in
  match a with
  | None => Raise TypeError
  | Some a =>
      each_peer n None (fun name r => quietly (
        addTrack r (v_track v) ;;
        set_leg r (set_sender k (Some (v_track v))) ;;
        call_ (renegotiate (a_server a) name r))) ;;
      send (a_server a) (voice_env (a_channel a) action [("sid" ~> VStr (v_stream v))]) VUndef ;;
      publish
  end.

Definition stopVideo (n : nat) (k : kind) (str : jstr) (action : string) : P unit :=
  modify (on_media (fun m => set_videoKind (del_kind (VStr str) (videoKind m)) m)) ;;
  let! a := gets (fun s => active (vm_call s)) in
  match a with
  | None => Ret tt
  | Some a =>
      each_peer n None (fun name r =>
        let! s := gets (fun s => s) in
        match leg_of s r ≫= sender_of k with
        | None => Ret tt
        | Some t => removeTrack r t ;; set_leg r (set_sender k None) ;; call_ (renegotiate (a_server a) name r)
        end) ;;
      quietly (send (a_server a) (voice_env (a_channel a) action []) VUndef)
  end ;;
  publish.

(** What differs between the two: the capture, the field, the words. *)
Definition held (k : kind) (m : media) : option video := match k with screen => share m | camera_ => camera m end.
Definition set_held (k : kind) (v : option video) (m : media) : media := match k with screen => set_share v m | camera_ => set_camera v m end.
Definition start_word (k : kind) : string := match k with screen => "share" | camera_ => "camera" end.
Definition stop_word (k : kind) : string := match k with screen => "unshare" | camera_ => "uncamera" end.
Definition capture_video (k : kind) : P (jstr * option jstr) := match k with screen => await OScreen | camera_ => await OCamera end.

(** [startShare] and [startCamera]; [available]: the browser can. *)
Definition start_capture (n : nat) (k : kind) (available : bool) : P unit :=
  let! s := gets (fun s => s) in
  if bool_decide (active (vm_call s) = None) || bool_decide (is_Some (held k (vm_media s))) then Ret tt else
  if negb available then Raise OtherError else
  let! got := capture_video k in
  granted got.1 ;;
  match got.2 with
  | None => stop_capture (Capture got.1) ;; Raise OtherError
  | Some trk =>
      let v := {| v_stream := got.1; v_track := trk |} in
      modify (on_media (set_held k (Some v))) ;;
      call_ (startVideo n k v (start_word k))
  end.
Definition startShare (n : nat) (available : bool) : P unit := start_capture n screen available.
Definition startCamera (n : nat) (available : bool) : P unit := start_capture n camera_ available.

(** [stopShare] and [stopCamera]. *)
Definition end_capture (n : nat) (k : kind) : P unit :=
  let! v := gets (fun s => held k (vm_media s)) in
  match v with
  | None => Ret tt
  | Some v =>
      modify (on_media (set_held k None)) ;;
      stop_capture (Capture (v_stream v)) ;;
      call_ (stopVideo n k (v_stream v) (stop_word k))
  end.
Definition stopShare (n : nat) : P unit := end_capture n screen.
Definition stopCamera (n : nat) : P unit := end_capture n camera_.

Definition hereEnvelope (s : vm) (channel : val) : val :=
  voice_env channel "here"
    (match share (vm_media s) with Some v => [("sharing" ~> VBool true); ("shareSid" ~> VStr (v_stream v))] | None => [] end
     ++ match camera (vm_media s) with Some v => [("camera" ~> VBool true); ("cameraSid" ~> VStr (v_stream v))] | None => [] end
     ++ (if muted (vm_call s) then [("muted" ~> VBool true)] else [])).

(** ** Events of a connection *)

Definition onicecandidate (server name : jstr) (candidate : option val) : P unit :=
  let! a := gets (fun s => active (vm_call s)) in
  match candidate, a with
  | Some c, Some a => fork (quietly (send server (rtc_env (a_channel a) name "candidate" [("cand" ~> c)]) VUndef))
  | _, _ => Ret tt
  end.

Definition ontrack_video (name str trk : jstr) : P unit :=
  let! m := gets vm_media in
  attachRemoteVideo name str trk (kind_of m (VStr str)).
Definition ontrack_audio (name : jstr) (r : nat) : P unit := set_leg r (set_audio true) ;; addMeter name.

Definition onconnectionstatechange (name : jstr) (r : nat) : P unit :=
  let! s := gets (fun s => s) in
  match connectionState <$> pc_of s r with
  | Some failed | Some conn_closed => dropPeer name
  | Some disconnected => set_leg r (set_reapTimer true)
  | Some connected => set_leg r (set_reapTimer false)
  | _ => Ret tt
  end ;;
  publish.

Definition reap (name : jstr) (r : nat) : P unit :=
  let! s := gets (fun s => s) in
  guard_ (holds_leg s name r && bool_decide (connectionState <$> pc_of s r <> Some connected)) (dropPeer name).

Definition onsignalingstatechange (server name : jstr) (r : nat) : P unit :=
  let! s := gets (fun s => s) in
  guard_ (bool_decide (sig_of s r = stable) && default false (renegotiateNeeded <$> leg_of s r)
          && negb (default false (makingOffer <$> leg_of s r)))
    (set_leg r (set_renegotiateNeeded false) ;;
     guard_ (holds_leg s name r && bool_decide (is_Some (active (vm_call s)))) (fork (quietly (renegotiate server name r)))).

(** ** Who is in voice *)

Definition in_server (server k : jstr) : bool := starts_with (server ++ [10%N]) k.

Definition probe_set (s : vm) (k : jstr) (set : list jstr) : list jstr :=
  let mine := match active (vm_call s) with Some a => bool_decide (key (a_server a) (a_channel a) = Ok k) | None => false end in
  filter (fun n => n = me s /\ mine = true) set.

Definition probe (server : jstr) : P unit :=
  modify (fun s => on_roster (fun r =>
    {| presence := (fun e => if in_server server e.1 then (e.1, probe_set s e.1 e.2) else e) <$> presence r;
       shares := filter (fun e => in_server server e.2 = false) (shares r);
       cameras := filter (fun e => in_server server e.2 = false) (cameras r);
       mutedPeers := mutedPeers r |}) s) ;;
  publish ;;
  quietly (send server (voice_env (VStr (js "*")) "probe" []) VUndef).

Definition membershipChanged (server : jstr) (members : list jstr) : P unit :=
  let! ps := gets (fun s => (peers (vm_mesh s)).*1) in
  each ps (fun name => guard_ (negb (bool_decide (name ∈ members))) (dropPeer name)) ;;
  let keeps (e : jstr * jstr) := negb (in_server server e.2) || bool_decide (e.1 ∈ members) in
  modify (on_roster (fun r =>
    {| presence := (fun e => if in_server server e.1 then (e.1, filter (fun n => n ∈ members) e.2) else e) <$> presence r;
       shares := filter (fun e => keeps e = true) (shares r);
       cameras := filter (fun e => keeps e = true) (cameras r);
       mutedPeers := mutedPeers r |})) ;;
  publish.

(** ** Direct calls *)

Definition callUser (server name : jstr) : P unit :=
  let! s := gets (fun s => s) in
  if str_eqb name (me s) || bool_decide (is_Some (active (vm_call s))) || bool_decide (is_Some (dial (vm_call s))) then Ret tt else
  let room := directRoom (me s) name in
  modify (on_call (set_dial (Some {| d_server := server; d_room := room; d_to := name |}))) ;;
  send server (ring_env name (VStr room) "invite") (VArr [VStr name]) ;;
  call_ (join server (VStr room)).

Definition cancelCall : P unit :=
  let! d := gets (fun s => dial (vm_call s)) in
  match d with
  | None => Ret tt
  | Some d =>
      modify (on_call (set_dial None)) ;;
      quietly (send (d_server d) (ring_env (d_to d) (VStr (d_room d)) "cancel") VUndef) ;;
      call_ leave
  end.

Definition answer_ring (action : string) (k : ringing -> P unit) : P unit :=
  let! r := gets (fun s => ring (vm_call s)) in
  match r with
  | None => Ret tt
  | Some r =>
      modify (on_call (set_ring None)) ;;
      quietly (send (r_server r) (ring_env (r_from r) (r_room r) action) VUndef) ;;
      k r
  end.
Definition acceptRing : P unit := answer_ring "accept" (fun r => call_ (join (r_server r) (r_room r))).
Definition declineRing : P unit := answer_ring "decline" (fun _ => publish).

(** ** Envelopes *)

Definition handle_ring (server sender : jstr) (content : val) : P unit :=
  let does (a : string) := strict_eq content.["action"] (VStr (js a)) in
  let! s := gets (fun s => s) in
  let c := vm_call s in
  if negb (strict_eq content.["to"] (VStr (me s))) then Ret tt
  else if does "invite" then
    if bool_decide (is_Some (active c)) || bool_decide (is_Some (ring c))
    then quietly (send server (ring_env sender content.["ch"] "decline") VUndef)
    else modify (on_call (set_ring (Some {| r_server := server; r_room := content.["ch"]; r_from := sender |}))) ;; publish
  else if does "accept" then modify (on_call (set_dial None)) ;; publish
  else if does "decline" then
    if bool_decide (d_to <$> dial c = Some sender)
    then modify (on_call (set_dial None)) ;; emit (Notify (sender ++ js " declined the call")) ;; call_ leave
    else publish
  else if does "cancel" then
    guard_ (bool_decide (r_from <$> ring c = Some sender))
      (modify (on_call (set_ring None)) ;; emit (Notify (js "missed call from " ++ sender))) ;;
    publish
  else publish.

Definition note_video (server sender : jstr) (content : val) (k : kind) (sid : val) : P unit :=
  let! room := lift (key server content.["ch"]) in
  modify (on_roster (fun r => match k with
                              | screen => set_shares (map_set (shares r) sender room) r
                              | camera_ => set_cameras (map_set (cameras r) sender room) r
                              end)) ;;
  routeVideo sid k.

Definition handle_here (server sender : jstr) (content : val) (joined : bool) : P unit :=
  track server content.["ch"] sender true joined ;;
  guard_ (truthy content.["sharing"]) (note_video server sender content screen content.["shareSid"]) ;;
  guard_ (truthy content.["camera"]) (note_video server sender content camera_ content.["cameraSid"]) ;;
  (if truthy content.["muted"] then modify (on_roster (fun r => set_mutedPeers (set_add sender (mutedPeers r)) r))
   else guard_ joined (modify (on_roster (fun r => set_mutedPeers (set_del sender (mutedPeers r)) r)))) ;;
  let! s := gets (fun s => s) in
  guard_ (inChannel s server content.["ch"])
    (guard_ joined (chime true ;; emit (Announce (sender ++ js " joined the call")) ;;
                    let! s := gets (fun s => s) in send server (hereEnvelope s content.["ch"]) VUndef) ;;
     call_ (ensurePeer server sender)).

Definition handle_leave (server sender : jstr) (content : val) : P unit :=
  let! s := gets (fun s => s) in
  let was := inChannel s server content.["ch"] in
  track server content.["ch"] sender false true ;;
  modify (on_roster (fun r => set_shares (obj_delete (shares r) sender) (set_cameras (obj_delete (cameras r) sender) r))) ;;
  guard_ was (chime false ;; emit (Announce (sender ++ js " left the call"))) ;;
  dropPeer sender ;;
  let! s := gets (fun s => s) in
  match active (vm_call s) with
  | Some a =>
      if strict_eq content.["ch"] (a_channel a) then
        let! d := lift (directPeer (me s) (a_channel a)) in
        guard_ (bool_decide (d = Some sender) && bool_decide (peers (vm_mesh s) = [])) (call_ leave)
      else Ret tt
  | None => Ret tt
  end.

Definition handle_voice (server sender : jstr) (content : val) : P unit :=
  let does (a : string) := strict_eq content.["action"] (VStr (js a)) in
  (if does "join" then handle_here server sender content true
   else if does "here" then handle_here server sender content false
   else if does "mute" then modify (on_roster (fun r => set_mutedPeers (set_add sender (mutedPeers r)) r))
   else if does "unmute" then modify (on_roster (fun r => set_mutedPeers (set_del sender (mutedPeers r)) r))
   else if does "share" then note_video server sender content screen content.["sid"]
   else if does "unshare" then
     modify (fun s => on_media (fun m => set_remoteScreens (obj_delete (remoteScreens m) sender) m)
                        (on_roster (fun r => set_shares (obj_delete (shares r) sender) r) s))
   else if does "camera" then note_video server sender content camera_ content.["sid"]
   else if does "uncamera" then
     modify (fun s => on_media (fun m => set_remoteCameras (obj_delete (remoteCameras m) sender) m)
                        (on_roster (fun r => set_cameras (obj_delete (cameras r) sender) r) s))
   else if does "leave" then handle_leave server sender content
   else if does "probe" then
     let! s := gets (fun s => s) in
     match active (vm_call s) with
     | Some a => guard_ (str_eqb (a_server a) server) (send server (hereEnvelope s (a_channel a)) VUndef)
     | None => Ret tt
     end
   else Ret tt) ;;
  publish.

Definition handleEnvelope (server sender : jstr) (content : val) : P unit :=
  let! s := gets (fun s => s) in
  let k (x : string) := strict_eq content.["k"] (VStr (js x)) in
  if str_eqb sender (me s) then Ret tt
  else if k "ring" then handle_ring server sender content
  else if k "voice" then handle_voice server sender content
  else if k "rtc" && strict_eq content.["to"] (VStr (me s)) then
    if negb (inChannel s server content.["ch"]) then Ret tt else call_ (handleSignal server sender content)
  else Ret tt.
End Voice.
