(* ===== verification/Calls.v ===== *)
(** * What voice calls guarantee (client/src/lib/voice.js)

    Theorems about the manager of Voice.v.  [starts] lists everything that may
    start at any time: what the user does, what arrives, what the browser
    reports.  [no_leg_without_call] holds however these interleave at their
    awaits; [signals_speak_for_sender] holds of each stretch of handling an
    envelope. *)

From stdpp Require Import base list numbers option strings sets relations.
From Stdlib Require Import ZArith NArith Lia.
From S2P Require Import Prelude JsNum JsString JsValue Async Sdp Voice.
Import Async.Async Sdp.Sdp Voice.Voice.
Open Scope Z_scope.

Module Calls.

(** ** What may start *)

Inductive starts : P unit -> Prop :=
| st_join server channel : starts (join server channel)
| st_leave : starts leave
| st_mute m : starts (setMuted m)
| st_startShare n b : starts (startShare n b)
| st_startCamera n b : starts (startCamera n b)
| st_stopShare n : starts (stopShare n)
| st_stopCamera n : starts (stopCamera n)
| st_processing n ec ns agc : starts (setAudioProcessing n ec ns agc)
| st_output n id : starts (setOutputDevice n id)
| st_input n id : starts (setInputDevice n id)
| st_sounds on : starts (setCallSounds on)
| st_meter rms : starts (meter_frame rms)
| st_call server name : starts (callUser server name)
| st_cancel : starts cancelCall
| st_accept : starts acceptRing
| st_decline : starts declineRing
| st_probe server : starts (probe server)
| st_members server members : starts (membershipChanged server members)
| st_envelope server sender content : starts (handleEnvelope server sender content)
| st_ice server name c : starts (onicecandidate server name c)
| st_video name str trk : starts (ontrack_video name str trk)
| st_audio name r : starts (ontrack_audio name r)
| st_parked str : starts (parked_gone str)
| st_filed k name str b : starts (filed_gone k name str b)
| st_connection name r : starts (onconnectionstatechange name r)
| st_reap name r : starts (reap name r)
| st_signaling server name r : starts (onsignalingstatechange server name r).

(** What the browser changes by itself: the states of connections. *)
Record moves (p p' : pc) : Prop := {
  mv_closed : closed p' = closed p;
  mv_sends : sends p' = sends p;
}.

Definition browser (s s' : vm) : Prop := exists f, s' = on_plat (fun p => set_pcs (f <$> pcs p) p) s /\ forall p, moves p (f p).

(** ** Shapes of programs, for any guarantee *)

Section shapes.
Context (I : vm -> Prop) (G : vm -> vm -> Prop) (G_refl : forall s, I s -> G s s).

Lemma good_tick : good (Out := out) (Res := Res) I G tick.
Proof. apply spec_await; [done..|]. intros. apply good_ret. Qed.
Lemma good_call {A} (p : P A) : good I G p -> good I G (call_ p).
Proof.
  intros Hp. apply good_bind; [apply good_catch; [by apply good_bind; [|intros; apply good_ret]|intros; apply good_ret]|].
  intros r. apply good_bind; [apply good_tick|intros; apply good_lift].
Qed.
Lemma good_quietly (p : P unit) : good I G p -> good I G (quietly p).
Proof. intros Hp. apply good_catch; [done|intros; apply good_ret]. Qed.
Lemma good_finally (p f : P unit) : good I G p -> good I G f -> good I G (finally p f).
Proof.
  intros Hp Hf. apply good_bind; [apply good_catch; [by apply good_bind; [|intros; apply good_ret]|intros; apply good_ret]|].
  intros r. apply good_bind; [done|intros; apply good_lift].
Qed.
Lemma good_publish : good (Res := Res) I G publish.
Proof. apply good_get. intros s. destruct (view_of s); [apply good_emit|apply good_raise]. Qed.
Lemma good_each_peer n last body : (forall name r, good I G (body name r)) -> good (Out := out) (Res := Res) I G (each_peer n last body).
Proof.
  intros Hb. revert last. induction n as [|n IH]; intros last; cbn [each_peer]; [apply good_ret|].
  apply good_bind; [apply good_gets|]. intros ps. destruct (find _ ps) as [[name r]|]; [|apply good_ret]. by apply good_bind.
Qed.
End shapes.

Create HintDb guarantee.
Ltac guarantee := first [done | solve [auto with guarantee]].

(** Work through a program by its shape; what is left to [leaf]. *)
Ltac by_shape leaf :=
  try match goal with |- spec ?I ?G ?p _ _ => change (good I G p) end;
  repeat (cbv beta zeta;
  match goal with
  | |- good _ _ (Ret _) => apply good_ret
  | |- good _ _ (Raise _) => apply good_raise
  | |- good _ _ (gets _) => apply good_gets
  | |- good _ _ (emit _) => apply good_emit
  | |- good _ _ (lift _) => apply good_lift
  | |- good _ _ publish => apply good_publish
  | |- good _ _ tick => apply good_tick; [guarantee]
  | |- good ?I ?G (send ?a ?b ?c) => refine (good_await I G _ (OSend a b c)); [guarantee]
  | |- good ?I ?G (await ?o) => refine (good_await I G _ o); [guarantee]
  | |- good _ _ (bind _ _) => apply good_bind; [|intros ?]
  | |- good _ _ (catch _ _) => apply good_catch; [|intros ?]
  | |- good _ _ (Get _) => apply good_get; intros ?
  | |- good _ _ (guard_ _ _) => apply good_guard
  | |- good _ _ (fork _) => apply good_fork
  | |- good _ _ (each _ _) => apply good_each; intros ?
  | |- good _ _ (call_ _) => apply good_call; [guarantee|]
  | |- good _ _ (quietly _) => apply good_quietly
  | |- good _ _ (finally _ _) => apply good_finally
  | |- good _ _ (each_peer _ _ _) => apply good_each_peer; intros ? ?
  | |- good _ _ (match ?x with _ => _ end) => destruct x
  | |- good _ _ _ => leaf
  end).

(** ** Legs and calls *)

Record calls_ok (s : vm) : Prop := {
  co_cells : length (heap (vm_mesh s)) = length (pcs (vm_plat s));
  co_names : NoDup (peers (vm_mesh s)).*1;
  co_refs : NoDup (peers (vm_mesh s)).*2;
  co_open : forall r p, pcs (vm_plat s) !! r = Some p -> closed p = false -> sends p = true ->
    r ∈ (peers (vm_mesh s)).*2;
  co_held : forall name r, (name, r) ∈ peers (vm_mesh s) ->
    exists p, pcs (vm_plat s) !! r = Some p /\ closed p = false;
  co_call : peers (vm_mesh s) <> [] -> active (vm_call s) <> None;
}.

(** What [calls_ok] looks at. *)
Definition core (s : vm) : list (jstr * nat) * nat * list (bool * bool) * bool :=
  (peers (vm_mesh s), length (heap (vm_mesh s)), (fun p => (closed p, sends p)) <$> pcs (vm_plat s),
   bool_decide (active (vm_call s) = None)).

Lemma calls_ok_core s s' : core s' = core s -> calls_ok s -> calls_ok s'.
Proof.
  unfold core. intros [= Ep Eh Ec Ea] [H1 H2 H2' H3 H4 H5].
  assert (forall r p', pcs (vm_plat s') !! r = Some p' -> exists p, pcs (vm_plat s) !! r = Some p /\ closed p = closed p' /\ sends p = sends p') as Hb.
  { intros r p' E. apply (f_equal (fun l => l !! r)) in Ec. rewrite !list_lookup_fmap, E in Ec.
    destruct (pcs (vm_plat s) !! r) as [p|]; [|done]. exists p. injection Ec as E1 E2. auto. }
  assert (forall r p, pcs (vm_plat s) !! r = Some p -> exists p', pcs (vm_plat s') !! r = Some p' /\ closed p' = closed p) as Hf.
  { intros r p E. apply (f_equal (fun l => l !! r)) in Ec. rewrite !list_lookup_fmap, E in Ec.
    destruct (pcs (vm_plat s') !! r) as [p'|]; [|done]. exists p'. injection Ec as E1 E2. auto. }
  split.
  - rewrite Eh, H1. apply (f_equal length) in Ec. by rewrite !length_fmap in Ec.
  - by rewrite Ep.
  - by rewrite Ep.
  - intros r p' E Hc Hs. destruct (Hb r p' E) as (p & E' & Ec' & Es'). rewrite Ep. eapply H3; [exact E'|congruence..].
  - intros name r Hin. rewrite Ep in Hin. destruct (H4 name r Hin) as (p & E & Hc). destruct (Hf r p E) as (p' & E' & ?).
    exists p'. split; [done|congruence].
  - rewrite Ep. intros Hn Ha. apply (H5 Hn), (bool_decide_eq_true_1 _). rewrite <- Ea. by apply bool_decide_eq_true_2.
Qed.

Notation keeps := (good (Out := out) (Res := Res) calls_ok (fun _ => calls_ok)).
Notation keeping := (spec (Out := out) (Res := Res) calls_ok (fun _ => calls_ok)).

Lemma keeps_change f : (forall s, core (f s) = core s) -> keeps (modify f).
Proof. intros H. apply good_modify. intros _ s. by apply calls_ok_core. Qed.

Create HintDb voice.
Ltac voice := by_shape ltac:(first [apply keeps_change; intros []; reflexivity | solve [auto 2 with voice]]).

Lemma core_heap f r s : core (on_mesh (fun m => set_heap (alter f r (heap m)) m) s) = core s.
Proof. unfold core. cbn. by rewrite length_alter. Qed.

Lemma keeps_set_leg r f : keeps (set_leg r f).
Proof. apply keeps_change. intros s. apply core_heap. Qed.

Lemma core_pc f r s : (forall p, closed (f p) = closed p /\ sends (f p) = sends p) ->
  core (on_plat (fun p => set_pcs (alter f r (pcs p)) p) s) = core s.
Proof.
  intros Hf. unfold core. cbn.
  assert ((fun p => (closed p, sends p)) <$> alter f r (pcs (vm_plat s)) = (fun p => (closed p, sends p)) <$> pcs (vm_plat s)) as E; [|by rewrite E].
  apply list_eq. intros i. rewrite !list_lookup_fmap.
  destruct (decide (r = i)) as [->|Hr]; [rewrite list_lookup_alter_eq|by rewrite list_lookup_alter_ne].
  destruct (_ !! i) as [p|]; [|done]. cbn. by destruct (Hf p) as [-> ->].
Qed.

Lemma keeps_addTrack r t : keeps (addTrack r t).
Proof. unfold addTrack. voice. apply keeps_change. intros s. by apply core_pc. Qed.
Lemma keeps_removeTrack r t : keeps (removeTrack r t).
Proof. apply keeps_change. intros s. by apply core_pc. Qed.

#[local] Hint Resolve keeps_set_leg keeps_addTrack keeps_removeTrack : voice.

Lemma keeps_track server ch name b b' : keeps (track server ch name b b').
Proof.
  unfold track. voice. apply keeps_change. intros s. by destruct (obj_get _ _).
Qed.
#[local] Hint Resolve keeps_track : voice.

(** ** Taking legs down *)

Definition torn (r : nat) (s : vm) : vm :=
  on_plat (fun p => set_pcs (alter (fun p => set_closed true (set_signalingState sig_closed p)) r (pcs p)) p)
    (on_mesh (fun m => set_heap (alter (fun l => set_audio false (set_reapTimer false l)) r (heap m)) m) s).

(** [calls_ok], but for the legs [rs], which are closed and still listed. *)
Record torn_ok (rs : list nat) (s : vm) : Prop := {
  to_cells : length (heap (vm_mesh s)) = length (pcs (vm_plat s));
  to_names : NoDup (peers (vm_mesh s)).*1;
  to_refs : NoDup (peers (vm_mesh s)).*2;
  to_open : forall r p, pcs (vm_plat s) !! r = Some p -> closed p = false -> sends p = true -> r ∈ (peers (vm_mesh s)).*2;
  to_closed : forall r p, r ∈ rs -> pcs (vm_plat s) !! r = Some p -> closed p = true;
  to_held : forall name r, (name, r) ∈ peers (vm_mesh s) -> r ∉ rs -> exists p, pcs (vm_plat s) !! r = Some p /\ closed p = false;
  to_call : peers (vm_mesh s) <> [] -> active (vm_call s) <> None;
}.

Lemma torn_ok_nil s : calls_ok s -> torn_ok [] s.
Proof. intros [H1 H2 H3 H4 H5 H6]. split; eauto. intros r p Hr. by apply elem_of_nil in Hr. Qed.

Lemma torn_ok_torn r rs s : torn_ok rs s -> torn_ok (r :: rs) (torn r s).
Proof.
  intros [H1 H2 H3 H4 H5 H6 H7]. split; cbn; try done.
  - by rewrite !length_alter.
  - intros r' p E Hc Hs. destruct (decide (r' = r)) as [->|Hr].
    + rewrite list_lookup_alter_eq in E. destruct (pcs (vm_plat s) !! r); [|done]. injection E as <-. done.
    + rewrite list_lookup_alter_ne in E by done. by eapply H4.
  - intros r' p Hin E. destruct (decide (r' = r)) as [->|Hr].
    + rewrite list_lookup_alter_eq in E. destruct (pcs (vm_plat s) !! r); [|done]. injection E as <-. done.
    + rewrite list_lookup_alter_ne in E by done. apply elem_of_cons in Hin as [?|Hin]; [done|]. by eapply H5.
  - intros name r' Hin Hn. apply not_elem_of_cons in Hn as [Hr Hn]. rewrite list_lookup_alter_ne by done. by eapply H6.
Qed.

(** Taking the closed legs out of the map restores the invariant. *)
Lemma torn_ok_removed rs ps s : torn_ok rs s ->
  (forall e, e ∈ ps <-> e ∈ peers (vm_mesh s) /\ e.2 ∉ rs) -> NoDup ps.*1 -> NoDup ps.*2 ->
  calls_ok (on_mesh (set_peers ps) s).
Proof.
  intros [H1 H2 H3 H4 H5 H6 H7] Hps Hn1 Hn2. split; cbn; try done.
  - intros r p E Hc Hs. pose proof (H4 r p E Hc Hs) as Hin. apply list_elem_of_fmap in Hin as (e & -> & Hin).
    apply list_elem_of_fmap_2, Hps. split; [done|]. intros Hr. by rewrite (H5 _ _ Hr E) in Hc.
  - intros name r [Hin Hr]%Hps. eauto.
  - intros Hne. apply H7. destruct ps as [|e ps]; [done|]. destruct (proj1 (Hps e) ltac:(left)) as [Hin _].
    intros En. rewrite En in Hin. by apply elem_of_nil in Hin.
Qed.

Lemma torn_all (ps : list (jstr * nat)) s rs : torn_ok rs s -> torn_ok (reverse ps.*2 ++ rs) (fold_left (fun s e => torn e.2 s) ps s).
Proof.
  revert s rs. induction ps as [|e ps IH]; intros s rs Hs; [done|]. cbn [fold_left fmap list_fmap].
  rewrite reverse_cons, <- app_assoc. apply (IH (torn e.2 s) (e.2 :: rs)). by apply torn_ok_torn.
Qed.

Lemma torn_peers ps s : peers (vm_mesh (fold_left (fun s (e : jstr * nat) => torn e.2 s) ps s)) = peers (vm_mesh s).
Proof. revert s. induction ps as [|e ps IH]; intros s; [done|]. cbn [fold_left]. by rewrite IH. Qed.

Lemma wp_each_torn I G (ps : list (jstr * nat)) s B (R : (vm -> Prop) -> res unit -> vm -> Prop) :
  R B (Ok tt) (fold_left (fun s e => torn e.2 s) ps s) -> wp I G (each ps (fun e => teardownPeer e.2)) s B R.
Proof. revert s. induction ps as [|e ps IH]; intros s Hr; [done|]. cbn [each]. apply wp_bind. cbn. by apply IH. Qed.

Lemma torn_frame (ps : list (jstr * nat)) s (t := fold_left (fun s e => torn e.2 s) ps s) :
  me t = me s /\ vm_roster t = vm_roster s /\ vm_media t = vm_media s /\ live (vm_plat t) = live (vm_plat s).
Proof. unfold t. clear t. revert s. induction ps as [|e ps IH]; intros s; [done|]. cbn [fold_left]. destruct (IH (torn e.2 s)) as (-> & -> & -> & ->). done. Qed.

Lemma spec_each_torn (ps : list (jstr * nat)) Pre :
  keeping (each ps (fun e => teardownPeer e.2)) Pre (fun o s0 s => o = Ok tt /\ exists s', Pre s0 s' /\ s = fold_left (fun s e => torn e.2 s) ps s').
Proof. intros s0 s B R Hp HB HR. apply wp_each_torn. eapply HR; [exact HB|]. eauto. Qed.

(** ** Not in a call: no legs *)

Definition idle (s : vm) : Prop := calls_ok s /\ peers (vm_mesh s) = [].
Notation idles p := (keeping p (fun _ => idle) (fun _ _ => idle)).

Lemma idle_core s s' : core s' = core s -> idle s -> idle s'.
Proof. intros E [H1 H2]. split; [by eapply calls_ok_core|]. apply (f_equal (fun x => x.1.1.1)) in E. cbn in E. by rewrite E. Qed.

Lemma idles_bind {A B} (p : P A) (f : A -> P B) : idles p -> (forall a, idles (f a)) -> idles (bind p f).
Proof. intros Hp Hf. eapply spec_bind; [exact Hp|exact Hf|done]. Qed.
Lemma idles_modify f : (forall s, core (f s) = core s) -> idles (modify f).
Proof. intros H. apply spec_modify. intros _ s. by apply idle_core. Qed.
Lemma idles_gets {A} (f : vm -> A) : idles (gets f).
Proof. eapply (spec_weaken _ _ _ (fun _ => idle)); [apply spec_gets|done|]. by intros o s0 s [_ ?]. Qed.
Lemma idles_ret {A} (a : A) : idles (Ret a).
Proof. by apply spec_ret. Qed.
Lemma idles_lift {A} (r : res A) : idles (lift r).
Proof. destruct r; [by apply spec_ret|by apply spec_raise]. Qed.
Lemma idles_guard b p : idles p -> idles (guard_ b p).
Proof. destruct b; [done|]. intros _. apply idles_ret. Qed.
Lemma idles_emit o : idles (emit o).
Proof. apply spec_emit, idles_ret. Qed.

Create HintDb idle.
#[local] Hint Resolve idles_ret idles_gets idles_lift idles_emit : idle.
#[local] Hint Extern 1 (idles (bind _ _)) => (apply idles_bind; [|intros ?]) : idle.
#[local] Hint Extern 1 (idles (guard_ _ _)) => apply idles_guard : idle.
#[local] Hint Extern 2 (idles (match ?x with _ => _ end)) => destruct x : idle.
#[local] Hint Extern 2 (idles (modify _)) => (apply idles_modify; intros []; reflexivity) : idle.

Lemma idles_track server ch name b b' : idles (track server ch name b b').
Proof.
  unfold track. repeat (apply idles_bind; [auto with idle|intros ?]); auto with idle.
  all: apply idles_modify; intros s; try reflexivity. by destruct (obj_get _ _).
Qed.
Lemma idles_stop_capture s : idles (stop_capture s).
Proof. unfold stop_capture. auto with idle. Qed.
#[local] Hint Resolve idles_track idles_stop_capture : idle.

Lemma idles_stop_video get clear : (forall s, core (on_media clear s) = core s) -> idles (stop_video get clear).
Proof. intros Hc. unfold stop_video. apply idles_bind; [auto with idle|]. intros [v|]; [|auto with idle]. apply idles_bind; [auto with idle|]. intros _. by apply idles_modify. Qed.

(** The first steps of hanging up. *)
Lemma torn_idle s : calls_ok s -> idle (on_mesh (set_peers []) (fold_left (fun s e => torn e.2 s) (peers (vm_mesh s)) s)).
Proof.
  intros Hok. split; [|done]. pose proof (torn_all (peers (vm_mesh s)) s [] (torn_ok_nil _ Hok)) as Ht.
  eapply torn_ok_removed; [exact Ht| |constructor..]. intros e. rewrite torn_peers, app_nil_r, elem_of_reverse.
  split; [by intros ?%elem_of_nil|]. intros [Hin Hn]. exfalso. apply Hn. by apply list_elem_of_fmap_2.
Qed.

Lemma idle_left s : idle s -> idle (on_call (fun c => set_active None (set_muted false (set_dial None c))) s).
Proof. intros [[H1 H2 H3 H4 H5 H6] Hp]. split; [split; try done|done]. Qed.

Lemma idle_calls s : idle s -> calls_ok s.
Proof. by intros [? _]. Qed.

Lemma keeps_hang_up a : keeps (hang_up a).
Proof.
  unfold hang_up. eapply spec_bind; [apply spec_gets| |by intros e s0 s [? _]]. intros ps. cbn beta.
  eapply spec_bind; [apply spec_each_torn| |by intros e s0 s [? _]]. intros [].
  eapply (spec_bind _ _ _ _ _ (fun _ _ => idle)); [| |by intros e s0 s [? _]].
  { apply spec_modify. intros s0 s (_ & s' & [[= ->] Hok] & ->). by apply torn_idle. }
  intros []. eapply (spec_weaken _ _ _ (fun _ => idle) _ (fun _ _ => calls_ok)); [|done|done].
  do 5 (eapply (spec_bind _ _ _ _ _ (fun _ _ => idle)); [unfold stopMeter; auto using idles_stop_video with idle| |by intros e s0 s [? _]]; intros []).
  eapply (spec_bind _ _ _ _ _ (fun _ _ => idle)); [auto with idle| |by intros e s0 s [? _]]. intros [].
  eapply (spec_bind _ _ _ _ _ (fun _ _ => idle)); [auto with idle| |by intros e s0 s [? _]]. intros mine.
  eapply (spec_bind _ _ _ _ _ (fun _ _ => idle)); [auto with idle| |by intros e s0 s [? _]]. intros [].
  eapply (spec_bind _ _ _ _ _ (fun _ _ => idle)); [apply spec_modify; intros _ s; apply idle_left| |by intros e s0 s [? _]]. intros [].
  eapply (spec_weaken _ _ _ (fun _ => calls_ok)); [apply good_publish|by intros _ s [? _]|done].
Qed.

Lemma keeps_leave : keeps leave.
Proof. unfold leave. voice. apply keeps_hang_up. Qed.
#[local] Hint Resolve keeps_leave : voice.

Lemma keeps_addMeter name : keeps (addMeter name).
Proof. apply keeps_change. intros s. by destruct (_ || _). Qed.
Lemma keeps_removeMeter name : keeps (removeMeter name).
Proof. unfold removeMeter. voice. Qed.
Lemma keeps_stop_capture s : keeps (stop_capture s).
Proof. unfold stop_capture. voice. Qed.
Lemma keeps_granted id : keeps (granted id).
Proof. unfold granted. voice. Qed.
Lemma keeps_persistDevice k v : keeps (persistDevice k v).
Proof. unfold persistDevice. voice. Qed.
Lemma keeps_chime b : keeps (chime b).
Proof. unfold chime. voice. Qed.
Lemma keeps_current : keeps current_channel.
Proof. unfold current_channel. voice. Qed.
#[local] Hint Resolve keeps_addMeter keeps_removeMeter keeps_stop_capture keeps_granted keeps_persistDevice keeps_chime
  keeps_current keeps_hang_up : voice.

(** ** Dropping a leg *)

Lemma spec_torn r Pre : keeping (teardownPeer r) Pre (fun o s0 s => o = Ok tt /\ exists s', Pre s0 s' /\ s = torn r s').
Proof. intros s0 s B R Hp HB HR. cbn. eapply HR; [exact HB|]. split; [done|]. exists s. done. Qed.

Lemma elem_of_delete {A} (o : list (jstr * A)) k e : e ∈ obj_delete o k <-> e ∈ o /\ e.1 <> k.
Proof.
  induction o as [|[k' v] o IH]; cbn; [split; [by intros ?%elem_of_nil|by intros [?%elem_of_nil _]]|].
  destruct (str_eqb k' k) eqn:E; [apply str_eqb_eq in E as ->|apply str_eqb_neq in E]; rewrite ?elem_of_cons, IH; naive_solver.
Qed.

Lemma delete_sublist {A} (o : list (jstr * A)) k : sublist (obj_delete o k) o.
Proof. induction o as [|[k' v] o IH]; cbn; [constructor|]. destruct (str_eqb k' k); by constructor. Qed.

Lemma NoDup_fmap_same {A B} (f : A -> B) l x y : NoDup (f <$> l) -> x ∈ l -> y ∈ l -> f x = f y -> x = y.
Proof.
  induction l as [|z l IH]; intros Hn Hx Hy E; [by apply elem_of_nil in Hx|]. rewrite fmap_cons in Hn. apply NoDup_cons in Hn as [Hz Hn].
  apply elem_of_cons in Hx as [->|Hx], Hy as [->|Hy]; [done| | |by apply IH];
    exfalso; apply Hz; [rewrite E|rewrite <- E]; by apply list_elem_of_fmap_2.
Qed.

Lemma dropped_ok name r s : calls_ok s -> obj_get (peers (vm_mesh s)) name = Some r ->
  calls_ok (on_mesh (fun m => set_peers (obj_delete (peers m) name) m) (torn r s)).
Proof.
  intros Hok Hg. pose proof (torn_ok_torn r [] s (torn_ok_nil _ Hok)) as Ht. destruct Hok as [H1 H2 H3 H4 H5 H6].
  change (calls_ok (on_mesh (set_peers (obj_delete (peers (vm_mesh s)) name)) (torn r s))).
  pose proof (delete_sublist (peers (vm_mesh s)) name) as Hsub.
  eapply torn_ok_removed; [exact Ht| |eapply sublist_NoDup; [exact H2|]; by apply fmap_sublist|eapply sublist_NoDup; [exact H3|]; by apply fmap_sublist].
  intros e. cbn. rewrite elem_of_delete, list_elem_of_singleton. apply obj_get_elem in Hg. split; intros [Hin Hn]; (split; [done|]).
  - intros E. apply Hn. by rewrite (NoDup_fmap_same snd _ e (name, r) H3 Hin Hg E).
  - intros E. apply Hn. by rewrite (NoDup_fmap_same fst _ e (name, r) H2 Hin Hg E).
Qed.

Lemma keeps_dropPeer name : keeps (dropPeer name).
Proof.
  unfold dropPeer. eapply spec_bind; [apply spec_gets| |by intros e s0 s [? _]]. intros [r|]; [|by apply spec_ret; intros s0 s [_ ?]].
  eapply spec_bind; [apply spec_torn| |by intros e s0 s [? _]]. intros [].
  eapply (spec_bind _ _ _ _ _ (fun _ _ => calls_ok)); [| |done].
  { apply spec_modify. intros s0 s (_ & s' & [[= Hg] Hok] & ->). by apply dropped_ok. }
  intros []. voice.
Qed.
#[local] Hint Resolve keeps_dropPeer : voice.

(** ** Making one *)

Definition made (s : vm) : vm :=
  on_mesh (fun m => set_heap (heap m ++ [fresh_leg None None]) m)
    (on_plat (fun p => set_pcs (pcs p ++ [ {| signalingState := stable; connectionState := new_; remoteDescription := false;
       closed := false; sends := false; tracks := []; config := peerConfig (iceServers p) (relayOnly (vm_prefs s)) |} ]) p) s).

Lemma made_ok s : calls_ok s -> calls_ok (made s).
Proof.
  intros [H1 H2 H3 H4 H5 H6]. split; cbn; try done.
  - rewrite !length_app. cbn. lia.
  - intros r p [E|[_ E]]%lookup_app_Some Hc Hs; [by eapply H4|]. apply list_lookup_singleton_Some in E as [_ <-]. done.
  - intros name r Hin. destruct (H5 name r Hin) as (p & E & Hc). exists p. split; [by apply lookup_app_l_Some|done].
Qed.

Lemma joined_ok name a l f s : (forall p, closed (f p) = closed p) -> calls_ok s -> obj_get (peers (vm_mesh s)) name = None -> active (vm_call s) = Some a ->
  calls_ok (on_mesh (fun m => set_peers (map_set (peers m) name (length (pcs (vm_plat s)))) m)
    (on_mesh (fun m => set_heap (alter (fun _ => l) (length (pcs (vm_plat s))) (heap m)) m)
      (on_plat (fun p => set_pcs (alter f (length (pcs (vm_plat s))) (pcs p)) p) (made s)))).
Proof.
  intros Hf [H1 H2 H3 H4 H5 H6] Hn Ha. set (n := length (pcs (vm_plat s))) in *.
  assert (map_set (peers (vm_mesh s)) name n = peers (vm_mesh s) ++ [(name, n)]) as Em by (unfold map_set; by rewrite Hn).
  apply obj_get_None in Hn.
  assert (forall name r, (name, r) ∈ peers (vm_mesh s) -> (r < n)%nat) as Hlt.
  { intros nm r Hin. destruct (H5 nm r Hin) as (p & E & _). by apply lookup_lt_Some in E. }
  split; cbn -[map_set]; rewrite ?Em.
  - rewrite !length_alter, !length_app. cbn. lia.
  - rewrite fmap_app. apply NoDup_app. split_and!; [done| |repeat constructor; set_solver].
    intros x Hx ->%list_elem_of_singleton. done.
  - rewrite fmap_app. apply NoDup_app. split_and!; [done| |repeat constructor; set_solver].
    intros x Hx ->%list_elem_of_singleton. apply list_elem_of_fmap in Hx as ([nm r] & Er & Hin). cbn in Er. specialize (Hlt nm r Hin). lia.
  - intros r p E Hc Hs. rewrite fmap_app, elem_of_app. destruct (decide (n = r)) as [<-|Hr]; [right; by left|left].
    rewrite list_lookup_alter_ne in E by done. apply lookup_app_Some in E as [E|[Hl E]]; [by eapply H4|].
    apply list_lookup_singleton_Some in E as [E _]. fold n in Hl, E. lia.
  - intros nm r [Hin|Hin]%elem_of_app.
    + destruct (H5 nm r Hin) as (p & E & Hc). specialize (Hlt nm r Hin). exists p.
      rewrite list_lookup_alter_ne by lia. split; [by apply lookup_app_l_Some|done].
    + apply list_elem_of_singleton in Hin. injection Hin as -> ->. rewrite list_lookup_alter_eq.
      rewrite lookup_app_r by done. unfold n at 1. rewrite Nat.sub_diag. cbn. eexists. split; [done|]. by rewrite Hf.
  - intros _. by rewrite Ha.
Qed.

Lemma keeps_new_peer {A} name (k : nat -> P A) : (forall r, keeps (k r)) ->
  keeping (let! r := createPeer in add_peer name r ;; k r) (fun _ s => calls_ok s /\ obj_get (peers (vm_mesh s)) name = None)
    (fun _ _ => calls_ok).
Proof.
  intros Hk s0 s B R [Hok Hn] HB HR. cbn. destruct (active (vm_call s)) as [a|] eqn:Ea; cbn.
  - apply (Hk _ s0); [|exact HB|exact HR]. by eapply (joined_ok _ _ _ (fun p => set_tracks _ (set_sends true p))).
  - apply (HR s0); [exact HB|]. by apply made_ok.
Qed.

(** ** Everything else *)

Lemma keeps_add_pending r : keeps (add_pending r).
Proof. unfold add_pending. voice. Qed.
Lemma keeps_renegotiate server name r : keeps (renegotiate server name r).
Proof. unfold renegotiate. voice. Qed.
#[local] Hint Resolve keeps_add_pending keeps_renegotiate : voice.

Lemma keeps_still name r p : keeps p -> keeps (still name r p).
Proof. intros Hp. unfold still. voice. Qed.

Lemma keeps_on_offer server sender r content : keeps (on_offer server sender r content).
Proof. unfold on_offer. voice. apply keeps_still. voice. apply keeps_still. voice. Qed.
Lemma keeps_on_answer r content : keeps (on_answer r content).
Proof. unfold on_answer. voice. Qed.
Lemma keeps_on_candidate r content : keeps (on_candidate r content).
Proof. unfold on_candidate. voice. Qed.
#[local] Hint Resolve keeps_on_offer keeps_on_answer keeps_on_candidate : voice.

Lemma keeps_ensurePeer server name : keeps (ensurePeer server name).
Proof.
  unfold ensurePeer. eapply spec_bind; [apply spec_gets| |by intros e s0 s [? _]]. intros v. cbv beta.
  destruct (bool_decide (is_Some (obj_get (peers (vm_mesh v)) name))) eqn:E; [by apply spec_ret; intros s0 s [_ ?]|].
  apply bool_decide_eq_false in E. eapply spec_weaken; [apply keeps_new_peer| |done].
  - intros r. voice.
  - intros s0 s [[= ->] Hok]. split; [done|]. by apply eq_None_not_Some.
Qed.

Lemma keeps_handleSignal server sender content : keeps (handleSignal server sender content).
Proof.
  unfold handleSignal. eapply spec_bind; [apply spec_gets| |by intros e s0 s [? _]]. intros have. cbv beta.
  eapply (spec_bind _ _ _ _ _ (fun _ _ => calls_ok)); [| |done].
  - destruct have as [r|]; [by apply spec_ret; intros s0 s [_ ?]|]. destruct (strict_eq _ _); [|by apply spec_ret; intros s0 s [_ ?]].
    eapply spec_weaken; [apply keeps_new_peer| |done].
    + intros r. voice.
    + intros s0 s [[= E] Hok]. done.
  - intros leg. voice.
Qed.
#[local] Hint Resolve keeps_ensurePeer keeps_handleSignal : voice.

Lemma keeps_attach name str trk k : keeps (attachRemoteVideo name str trk k).
Proof. unfold attachRemoteVideo. voice. Qed.
#[local] Hint Resolve keeps_attach : voice.
Lemma keeps_routeVideo sid k : keeps (routeVideo sid k).
Proof. unfold routeVideo. voice. Qed.
#[local] Hint Resolve keeps_routeVideo : voice.
Lemma keeps_note_video server sender c k sid : keeps (note_video server sender c k sid).
Proof. unfold note_video. voice. Qed.
#[local] Hint Resolve keeps_note_video : voice.
Lemma keeps_capture k : keeps (capture_video k).
Proof. unfold capture_video. voice. Qed.
Lemma keeps_startVideo n k v w : keeps (startVideo n k v w).
Proof. unfold startVideo. voice. Qed.
Lemma keeps_stopVideo n k str w : keeps (stopVideo n k str w).
Proof. unfold stopVideo. voice. Qed.
#[local] Hint Resolve keeps_capture keeps_startVideo keeps_stopVideo : voice.
Lemma keeps_start_capture n k b : keeps (start_capture n k b).
Proof. unfold start_capture. voice. Qed.
Lemma keeps_end_capture n k : keeps (end_capture n k).
Proof. unfold end_capture. voice. Qed.

Lemma keeps_getUserMedia p d : keeps (getUserMedia p d).
Proof. unfold getUserMedia. voice. Qed.
#[local] Hint Resolve keeps_getUserMedia : voice.
Lemma keeps_captureAudio : keeps captureAudio.
Proof. unfold captureAudio. voice. Qed.
#[local] Hint Resolve keeps_captureAudio : voice.

Lemma keeps_activate (f : vm -> session) : keeps (modify (fun s => on_call (set_active (Some (f s))) s)).
Proof. apply good_modify. intros _ s [H1 H2 H3 H4 H5 H6]. by split. Qed.

Lemma keeps_recaptureMic n : keeps (recaptureMic n).
Proof. unfold recaptureMic. voice. apply (keeps_activate (fun _ => _)). Qed.
#[local] Hint Resolve keeps_recaptureMic : voice.

Lemma keeps_join server channel : keeps (join server channel).
Proof. unfold join. voice. apply keeps_activate. Qed.
#[local] Hint Resolve keeps_join : voice.

Lemma keeps_membershipChanged server members : keeps (membershipChanged server members).
Proof. unfold membershipChanged. voice. Qed.
Lemma keeps_probe server : keeps (probe server).
Proof. unfold probe. voice. Qed.
Lemma keeps_answer_ring w k : (forall r, keeps (k r)) -> keeps (answer_ring w k).
Proof. intros Hk. unfold answer_ring. voice. Qed.

Lemma keeps_handleEnvelope server sender content : keeps (handleEnvelope server sender content).
Proof.
  unfold handleEnvelope. voice.
  - unfold handle_ring. voice.
  - unfold handle_voice. voice; unfold handle_here, handle_leave; voice.
Qed.

Lemma keeps_starts p : starts p -> keeps p.
Proof.
  intros Hs. destruct Hs; unfold setMuted, applyMute, startShare, startCamera, stopShare, stopCamera, setAudioProcessing, setOutputDevice,
    setInputDevice, setCallSounds, meter_frame, callUser, cancelCall, acceptRing, declineRing, onicecandidate, ontrack_video, ontrack_audio,
    parked_gone, filed_gone, onconnectionstatechange, reap, onsignalingstatechange; try apply keeps_answer_ring;
    auto using keeps_membershipChanged, keeps_probe, keeps_handleEnvelope, keeps_start_capture, keeps_end_capture with voice; intros; voice.
Qed.

Lemma browser_keeps s s' : browser s s' -> calls_ok s -> calls_ok s'.
Proof.
  intros (f & -> & Hf). apply calls_ok_core. unfold core. cbn.
  assert ((fun p => (closed p, sends p)) <$> (f <$> pcs (vm_plat s)) = (fun p => (closed p, sends p)) <$> pcs (vm_plat s)) as E; [|by rewrite E].
  rewrite <- list_fmap_compose. apply list_fmap_ext. intros i p _. cbn. by destruct (Hf p) as [-> ->].
Qed.

(** A fresh manager. *)
Lemma new_ok mine ice relay storage time can : calls_ok (new_manager mine ice relay storage time can).
Proof. split; cbn; try done; try constructor. intros name r Hin. by apply elem_of_nil in Hin. Qed.

(** C17: However the user's actions, envelopes, browser events and awaited
    answers interleave, every open connection that carries a capture of this
    device is a leg of the call it is in; without a call there is none. *)
Theorem no_leg_without_call mine ice relay storage time can s w :
  rtc (pool_step starts browser) (Pool (new_manager mine ice relay storage time can) []) (Pool s w) ->
  (forall r c, pcs (vm_plat s) !! r = Some c -> closed c = false -> sends c = true ->
     exists name, (name, r) ∈ peers (vm_mesh s) /\ active (vm_call s) <> None) /\
  (active (vm_call s) = None -> peers (vm_mesh s) = []).
Proof.
  intros Hr. assert (pool_ok calls_ok (fun _ => calls_ok) (Pool s w)) as [Hok _].
  { eapply pool_keeps; [| | |exact Hr|].
    - done.
    - apply browser_keeps.
    - intros q Hq. apply good_handles; [done|]. by apply keeps_starts.
    - split; [apply new_ok|constructor]. }
  cbn in Hok. destruct Hok as [H1 H2 H3 H4 H5 H6]. split.
  - intros r c E Hc Hs. destruct (proj1 (list_elem_of_fmap _ _ _) (H4 r c E Hc Hs)) as ([name r'] & -> & Hin).
    exists name. split; [done|]. apply H6. intros En. rewrite En in Hin. by apply elem_of_nil in Hin.
  - intros Ha. destruct (peers (vm_mesh s)) as [|e l] eqn:E; [done|]. exfalso. by apply H6.
Qed.

(** ** Whose business an envelope is *)

Section speaker.
Context (mine sender : jstr).

(** What is known of everybody but the sender and this device: who is in which
    room, and who shares a screen. *)
Record others_kept (s0 s : vm) : Prop := {
  ok_me : me s = mine;
  ok_presence : forall k n, n <> sender -> n <> mine -> n ∈ presence_set k s <-> n ∈ presence_set k s0;
  ok_shares : forall n, n <> sender -> obj_get (shares (vm_roster s)) n = obj_get (shares (vm_roster s0)) n;
}.

Definition legs_kept (s0 s : vm) : Prop := forall n, n <> sender ->
  obj_get (cameras (vm_roster s)) n = obj_get (cameras (vm_roster s0)) n /\
  (n ∈ mutedPeers (vm_roster s) <-> n ∈ mutedPeers (vm_roster s0)) /\
  obj_get (peers (vm_mesh s)) n = obj_get (peers (vm_mesh s0)) n.

(** The call was hung up: nobody's camera, mute or leg is kept. *)
Definition hung_up (s : vm) : Prop := forall n, n <> sender ->
  obj_get (cameras (vm_roster s)) n = None /\ n ∉ mutedPeers (vm_roster s) /\ obj_get (peers (vm_mesh s)) n = None.

Definition speaks (s0 s : vm) : Prop := others_kept s0 s /\ (legs_kept s0 s \/ hung_up s).

Definition is_mine (s : vm) : Prop := me s = mine.

Lemma speaks_refl s : is_mine s -> speaks s s.
Proof. intros Hm. split; [by split|]. left. done. Qed.

#[local] Hint Resolve speaks_refl : guarantee.

Notation polite p := (good (Out := out) (Res := Res) is_mine speaks p).

(** What [speaks] looks at. *)
Definition known (s : vm) : jstr * roster * list (jstr * nat) := (me s, vm_roster s, peers (vm_mesh s)).

Lemma speaks_known s0 s s' : known s' = known s -> speaks s0 s -> speaks s0 s'.
Proof.
  unfold known, speaks, legs_kept, hung_up. intros [= E1 E2 E3] [[H1 H2 H3] H4]. rewrite E2, E3. split; [|done].
  split; [by rewrite E1| |by rewrite E2]. unfold presence_set in *. by rewrite E2.
Qed.

Lemma polite_modify f : (forall s, known (f s) = known s) -> polite (modify f).
Proof. intros H. apply good_modify. intros s0 s. by apply speaks_known. Qed.

Create HintDb polite_db.
Ltac polite := by_shape ltac:(first [apply polite_modify; intros []; reflexivity | solve [auto 2 using speaks_refl with polite_db]]).

(** Entries of the sender. *)
Lemma elem_of_name_add x y l : y ∈ set_add x l <-> y = x \/ y ∈ l.
Proof. unfold set_add. case_bool_decide; rewrite ?elem_of_app, ?list_elem_of_singleton; naive_solver. Qed.
Lemma elem_of_set_del x y l : y ∈ set_del x l <-> y <> x /\ y ∈ l.
Proof. unfold set_del. rewrite list_elem_of_filter. done. Qed.

Lemma presence_set_put k l k' s :
  presence_set k' (on_roster (fun r => set_presence (map_set (presence r) k l) r) s) = if str_eqb k k' then l else presence_set k' s.
Proof. unfold presence_set. cbn -[map_set]. rewrite obj_get_map_set. by destruct (str_eqb k k'). Qed.

Lemma speaks_roster s0 s f : speaks s0 s ->
  (forall k n, n <> sender -> n <> mine -> n ∈ presence_set k (on_roster f s) <-> n ∈ presence_set k s) ->
  (forall n, n <> sender -> obj_get (shares (f (vm_roster s))) n = obj_get (shares (vm_roster s)) n /\
     obj_get (cameras (f (vm_roster s))) n = obj_get (cameras (vm_roster s)) n /\
     (n ∈ mutedPeers (f (vm_roster s)) <-> n ∈ mutedPeers (vm_roster s))) ->
  speaks s0 (on_roster f s).
Proof.
  intros [[H1 H2 H3] H4] Hp Hf. split; [split; cbn|].
  - done.
  - intros k n Hs Hm. rewrite Hp by done. by apply H2.
  - intros n Hn. destruct (Hf n Hn) as (-> & _). by apply H3.
  - destruct H4 as [H4|H4]; [left|right]; intros n Hn; cbn; destruct (Hf n Hn) as (_ & E2 & E3), (H4 n Hn) as (H5 & H6 & H7);
      rewrite E2, E3; done.
Qed.

(** A change to the roster that leaves the rooms alone. *)
Lemma polite_roster (f : roster -> roster) :
  (forall r, presence (f r) = presence r) ->
  (forall r n, n <> sender -> obj_get (shares (f r)) n = obj_get (shares r) n /\ obj_get (cameras (f r)) n = obj_get (cameras r) n /\
     (n ∈ mutedPeers (f r) <-> n ∈ mutedPeers r)) ->
  polite (modify (on_roster f)).
Proof.
  intros Hp Hf. apply good_modify. intros s0 s Hs. apply speaks_roster; [done| |auto].
  intros k n _ _. unfold presence_set. cbn. by rewrite Hp.
Qed.

Lemma polite_track server ch name b b' : name = sender \/ name = mine -> polite (track server ch name b b').
Proof.
  intros Hn. unfold track. polite.
  - apply good_modify. intros s0 s Hs. destruct (obj_get (presence (vm_roster s)) a) eqn:E; [done|].
    apply speaks_roster; [done| |done]. intros k n _ _. rewrite presence_set_put. destruct (str_eqb a k) eqn:Ek; [|done].
    apply str_eqb_eq in Ek as <-. unfold presence_set. by rewrite E.
  - apply good_modify. intros s0 s Hs. apply speaks_roster; [done| |done]. intros k n H1 H2. rewrite presence_set_put.
    destruct (str_eqb a k) eqn:Ek; [|done]. apply str_eqb_eq in Ek as <-.
    destruct b; [rewrite elem_of_name_add|rewrite elem_of_set_del]; naive_solver.
Qed.

Lemma polite_peers f : (forall l n, n <> sender -> obj_get (f l) n = obj_get l n) -> polite (modify (on_mesh (fun m => set_peers (f (peers m)) m))).
Proof.
  intros Hf. apply good_modify. intros s0 s [[H1 H2 H3] H4]. split; [by split|].
  destruct H4 as [H4|H4]; [left|right]; intros n Hn; cbn; rewrite Hf by done; by apply H4.
Qed.

(** *** Hanging up *)

Definition half_hung (s0 s : vm) : Prop := others_kept s0 s /\ peers (vm_mesh s) = [].
Notation hanging p := (spec (Out := out) (Res := Res) is_mine speaks p half_hung (fun o s0 s => o = Ok tt /\ half_hung s0 s)).

Lemma half_hung_known s0 s s' : known s' = known s -> half_hung s0 s -> half_hung s0 s'.
Proof.
  unfold known, half_hung. intros [= E1 E2 E3] [[H1 H2 H3] H4]. split; [|by rewrite E3].
  split; [by rewrite E1| |by rewrite E2]. unfold presence_set in *. by rewrite E2.
Qed.

Definition all_hung (s0 s : vm) : Prop := half_hung s0 s /\ cameras (vm_roster s) = [] /\ mutedPeers (vm_roster s) = [].

Lemma all_hung_speaks s0 s : all_hung s0 s -> speaks s0 s.
Proof.
  intros ([H1 H2] & H3 & H4). split; [done|]. right. intros n _. rewrite H2, H3, H4. split; [done|]. split; [by intros ?%elem_of_nil|done].
Qed.

Lemma spec_torn_others ps :
  spec is_mine speaks (each ps (fun e : jstr * nat => teardownPeer e.2)) speaks (fun _ => speaks).
Proof. change (polite (each ps (fun e : jstr * nat => teardownPeer e.2))). unfold teardownPeer. polite. Qed.

Lemma hanging_modify f : (forall s, known (f s) = known s) -> hanging (modify f).
Proof. intros H. apply spec_modify. intros s0 s Hs. split; [done|]. exact (half_hung_known _ _ _ (H s) Hs). Qed.

Lemma hanging_then p (q : P unit) Post : hanging p -> spec is_mine speaks q half_hung Post -> spec is_mine speaks (p ;; q) half_hung Post.
Proof.
  intros Hp Hq. eapply spec_bind; [exact Hp| |by intros e s0 s [? _]].
  intros []. eapply (spec_weaken _ _ _ half_hung); [exact Hq|by intros s0 s [_ ?]|done].
Qed.

Lemma hanging_stop_capture s : hanging (stop_capture s).
Proof. destruct s; [by apply hanging_modify|by apply spec_ret]. Qed.

Lemma hanging_stop_video get clear : (forall s, known (on_media clear s) = known s) -> hanging (stop_video get clear).
Proof.
  intros Hc. unfold stop_video. eapply spec_bind; [apply spec_gets|intros [v|]|by intros e s0 s [? _]].
  - apply (spec_weaken _ _ _ half_hung _ (fun o s0 s => o = Ok tt /\ half_hung s0 s)); [|by intros s0 s [_ ?]|done]. apply hanging_then; [apply hanging_stop_capture|by apply hanging_modify].
  - apply spec_ret. by intros s0 s [_ ?].
Qed.

Lemma all_hung_presence s0 s k l : all_hung s0 s ->
  (forall n, n <> sender -> n <> mine -> n ∈ l <-> n ∈ presence_set k s) ->
  all_hung s0 (on_roster (fun r => set_presence (map_set (presence r) k l) r) s).
Proof.
  intros ([[H1 H2 H3] H4] & H5 & H6) Hl. split; [|done]. split; [|done]. split; [done| |done].
  intros k' n Hs Hm. rewrite presence_set_put. destruct (str_eqb k k') eqn:E; [|by apply H2].
  apply str_eqb_eq in E as <-. rewrite Hl by done. by apply H2.
Qed.

Notation hung p := (spec (Out := out) (Res := Res) is_mine speaks p all_hung (fun _ => all_hung)).

Lemma hung_bind {A B} (p : P A) (f : A -> P B) : hung p -> (forall a, hung (f a)) -> hung (bind p f).
Proof. intros Hp Hf. eapply spec_bind; [exact Hp|exact Hf|done]. Qed.

Lemma hung_gets {A} (f : vm -> A) : hung (gets f).
Proof. eapply (spec_weaken _ _ _ all_hung); [apply spec_gets|done|by intros o s0 s [_ ?]]. Qed.

Lemma hung_track server ch : hung (track server ch mine false true).
Proof.
  unfold track. apply hung_bind; [destruct (key server ch); [by apply spec_ret|by apply spec_raise]|]. intros k.
  apply hung_bind.
  { apply spec_modify. intros s0 s Hs. destruct (obj_get (presence (vm_roster s)) k) eqn:E; [done|].
    apply all_hung_presence; [done|]. intros n _ _. unfold presence_set. by rewrite E. }
  intros _. apply hung_bind; [apply hung_gets|]. intros set. apply hung_bind; [by apply spec_ret|]. intros _.
  apply spec_modify. intros s0 s Hs. apply all_hung_presence; [done|]. intros n _ Hm. rewrite elem_of_set_del. naive_solver.
Qed.

Lemma polite_hang_up a : polite (hang_up a).
Proof.
  unfold hang_up. apply good_bind; [apply good_gets|]. intros ps. apply good_bind; [apply spec_torn_others|]. intros [].
  apply (spec_bind _ _ _ _ _ (fun o s0 s => o = Ok tt /\ half_hung s0 s)); [| |by intros e s0 s [? _]].
  { apply spec_modify. intros s0 s [[H1 H2 H3] _]. by split; [|split; [split|]]. }
  intros []. apply (spec_weaken _ _ _ half_hung _ (fun _ => speaks)); [|by intros s0 s [_ ?]|done].
  do 5 (apply hanging_then; [first [by apply hanging_stop_video|apply hanging_stop_capture|by apply hanging_modify]|]).
  apply (spec_bind _ _ _ _ _ (fun _ => all_hung)); [| |by intros e s0 s ?%all_hung_speaks].
  { apply spec_modify. intros s0 s [[H1 H2 H3] H4]. by split; [split; [split|]|]. }
  intros []. eapply spec_bind; [apply spec_gets| |by intros e s0 s [? _]]. intros m. cbv beta.
  apply (spec_bind _ _ _ _ _ (fun _ => all_hung)); [| |by intros e s0 s ?%all_hung_speaks].
  { intros s0 s B R [[= ->] Hs] HB HR. pose proof Hs as [[[Hm _ _] _] _]. rewrite Hm. by eapply hung_track. }
  intros []. apply (spec_bind _ _ _ _ _ (fun _ => speaks)); [|intros []; apply good_publish|done].
  apply spec_modify. intros s0 s Hs. apply all_hung_speaks. destruct Hs as ([[H1 H2 H3] H4] & H5 & H6). by split; [split; [split|]|].
Qed.

Lemma polite_leave : polite leave.
Proof. unfold leave. polite. apply polite_hang_up. Qed.
#[local] Hint Resolve polite_leave : polite_db.

(** *** Legs of the sender *)

Lemma polite_dropPeer : polite (dropPeer sender).
Proof.
  unfold dropPeer, teardownPeer. polite.
  - apply (polite_peers (fun l => obj_delete l sender)). intros l n' Hn. rewrite obj_get_delete. by rewrite (proj2 (str_eqb_neq _ _) (not_eq_sym Hn)).
  - apply polite_roster; [done|]. intros r n' Hn. cbn. rewrite obj_get_delete, elem_of_set_del.
    rewrite (proj2 (str_eqb_neq _ _) (not_eq_sym Hn)). naive_solver.
Qed.
#[local] Hint Resolve polite_dropPeer : polite_db.

Lemma polite_createPeer : polite createPeer.
Proof. unfold createPeer. polite. Qed.
Lemma polite_add_peer r : polite (add_peer sender r).
Proof.
  apply (polite_peers (fun l => map_set l sender r)). intros l n Hn. rewrite obj_get_map_set.
  by rewrite (proj2 (str_eqb_neq _ _) (not_eq_sym Hn)).
Qed.
#[local] Hint Resolve polite_createPeer polite_add_peer : polite_db.

Lemma polite_renegotiate server r : polite (renegotiate server sender r).
Proof. unfold renegotiate, current_channel. polite. Qed.
#[local] Hint Resolve polite_renegotiate : polite_db.

Lemma polite_handleSignal server content : polite (handleSignal server sender content).
Proof. unfold handleSignal, on_offer, on_answer, on_candidate, still, add_pending. polite. Qed.
Lemma polite_ensurePeer server : polite (ensurePeer server sender).
Proof. unfold ensurePeer, current_channel. polite. Qed.
#[local] Hint Resolve polite_handleSignal polite_ensurePeer : polite_db.

Lemma polite_note_video server content k sid : polite (note_video server sender content k sid).
Proof.
  unfold note_video, routeVideo, attachRemoteVideo. polite. apply polite_roster; [by destruct k|].
  intros r n Hn. destruct k; cbn; rewrite ?obj_get_map_set; rewrite ?(proj2 (str_eqb_neq _ _) (not_eq_sym Hn)); done.
Qed.
#[local] Hint Resolve polite_note_video : polite_db.

Lemma polite_mute : polite (modify (on_roster (fun r => set_mutedPeers (set_add sender (mutedPeers r)) r))).
Proof. apply polite_roster; [done|]. intros r n Hn. cbn. rewrite elem_of_name_add. naive_solver. Qed.
Lemma polite_unmute : polite (modify (on_roster (fun r => set_mutedPeers (set_del sender (mutedPeers r)) r))).
Proof. apply polite_roster; [done|]. intros r n Hn. cbn. rewrite elem_of_set_del. naive_solver. Qed.
#[local] Hint Resolve polite_mute polite_unmute : polite_db.

Lemma polite_chime b : polite (chime b).
Proof. unfold chime. polite. Qed.
#[local] Hint Resolve polite_chime : polite_db.

Lemma deleted_others {A} (o : list (jstr * A)) n : n <> sender -> obj_get (obj_delete o sender) n = obj_get o n.
Proof. intros Hn. rewrite obj_get_delete. by rewrite (proj2 (str_eqb_neq _ _) (not_eq_sym Hn)). Qed.

Lemma polite_unroster g f : (forall s, known (g s) = known s) ->
  (forall r, presence (f r) = presence r) ->
  (forall r n, n <> sender -> obj_get (shares (f r)) n = obj_get (shares r) n /\ obj_get (cameras (f r)) n = obj_get (cameras r) n /\
     (n ∈ mutedPeers (f r) <-> n ∈ mutedPeers r)) ->
  polite (modify (fun s => g (on_roster f s))).
Proof.
  intros Hg Hp Hf. apply good_modify. intros s0 s Hs. eapply speaks_known; [apply Hg|]. apply speaks_roster; [done| |auto].
  intros k n _ _. unfold presence_set. cbn. by rewrite Hp.
Qed.

Lemma polite_handleEnvelope server content : polite (handleEnvelope server sender content).
Proof.
  unfold handleEnvelope. polite.
  - unfold handle_ring. polite.
  - unfold handle_voice. polite; unfold handle_here, handle_leave; polite.
    all: try (by apply polite_track; left).
    + apply polite_unroster; [done..|]. intros r n Hn. cbn. by rewrite deleted_others.
    + apply polite_unroster; [done..|]. intros r n Hn. cbn. by rewrite deleted_others.
    + apply polite_roster; [done|]. intros r n Hn. cbn. by rewrite !deleted_others.
Qed.
End speaker.

(** C18: Each stretch of handling an envelope, whatever happened at the awaits
    before it, changes what this device knows of nobody but the sender: who is
    in which room, who shares, who has a camera on or a muted microphone, and
    to whom there is a leg; unless the stretch hangs up this device's call. *)
Theorem signals_speak_for_sender mine server sender content s s' :
  stretch (fun s => me s = mine) (handleEnvelope server sender content) s s' ->
  others_kept mine sender s s' /\ (legs_kept sender s s' \/ hung_up sender s').
Proof.
  intros Hs. apply (stretch_guaranteed (is_mine mine) (speaks mine sender) _ _ _ Hs). apply good_handles; [apply speaks_refl|].
  apply polite_handleEnvelope.
Qed.

(** ** Hanging up *)

Definition stopped (st : stream) (s : vm) : vm :=
  match st with Capture id => on_plat (fun p => set_live (set_del id (live p)) p) s | Silence => s end.
Definition video_stopped (get : media -> option video) (clear : media -> media) (s : vm) : vm :=
  match get (vm_media s) with Some v => on_media clear (stopped (Capture (v_stream v)) s) | None => s end.

Lemma live_stopped st s id : id ∈ live (vm_plat (stopped st s)) <-> id ∈ live (vm_plat s) /\ st <> Capture id.
Proof. destruct st as [id'|]; cbn; rewrite ?elem_of_set_del; naive_solver. Qed.

Lemma live_video_stopped get clear s id :
  id ∈ live (vm_plat (video_stopped get clear s)) <-> id ∈ live (vm_plat s) /\ v_stream <$> get (vm_media s) <> Some id.
Proof. unfold video_stopped. destruct (get (vm_media s)) as [v|]; cbn; rewrite ?elem_of_set_del; naive_solver. Qed.

Definition left_over_state (a : session) (k : jstr) (t : vm) : vm :=
  let u := on_roster (fun r => set_cameras [] (set_mutedPeers [] r))
    (on_media (fun m => set_remoteScreens [] (set_remoteCameras [] (set_videoKind [] (set_unroutedVideo [] m))))
      (video_stopped camera (set_camera None) (video_stopped share (set_share None)
        (stopped (a_stream a) (on_meter (fun _ => {| analysers := []; levels := []; speaking := [] |}) (on_mesh (set_peers []) t)))))) in
  let u' := match obj_get (presence (vm_roster u)) k with
            | Some _ => u
            | None => on_roster (fun r => set_presence (map_set (presence r) k []) r) u
            end in
  on_call (fun c => set_active None (set_muted false (set_dial None c)))
    (on_roster (fun r => set_presence (map_set (presence r) k (set_del (me t) (presence_set k u'))) r) u').

Lemma stopped_frame st s : me (stopped st s) = me s /\ vm_roster (stopped st s) = vm_roster s /\ vm_media (stopped st s) = vm_media s /\
  vm_mesh (stopped st s) = vm_mesh s /\ vm_meter (stopped st s) = vm_meter s /\ pcs (vm_plat (stopped st s)) = pcs (vm_plat s).
Proof. by destruct st. Qed.

Lemma video_stopped_frame get clear s (s' := video_stopped get clear s) : me s' = me s /\ vm_roster s' = vm_roster s /\
  vm_mesh s' = vm_mesh s /\ vm_meter s' = vm_meter s /\ pcs (vm_plat s') = pcs (vm_plat s) /\
  vm_media s' = match get (vm_media s) with Some _ => clear (vm_media s) | None => vm_media s end.
Proof. unfold s', video_stopped. by destruct (get (vm_media s)). Qed.

Lemma wp_stop_video I G get clear s B (R : (vm -> Prop) -> res unit -> vm -> Prop) :
  R B (Ok tt) (video_stopped get clear s) -> wp I G (stop_video get clear) s B R.
Proof. unfold stop_video, video_stopped. intros Hr. apply wp_bind. cbn. by destruct (get (vm_media s)). Qed.

Lemma wp_stop_capture I G st s B (R : (vm -> Prop) -> res unit -> vm -> Prop) : R B (Ok tt) (stopped st s) -> wp I G (stop_capture st) s B R.
Proof. by destruct st. Qed.

Lemma after_hang_up a k s : key (a_server a) (a_channel a) = Ok k ->
  after (hang_up a) s = left_over_state a k (fold_left (fun s e => torn e.2 s) (peers (vm_mesh s)) s).
Proof.
  intros Hk. apply (segment_owed (fun _ => True) (fun _ _ => True)). unfold hang_up. apply wp_bind. cbn [wp gets].
  apply wp_bind, wp_each_torn. generalize (fold_left (fun s e => torn e.2 s) (peers (vm_mesh s)) s). intros t.
  apply wp_bind. cbn [wp modify]. apply wp_bind. cbn [wp modify stopMeter]. apply wp_bind, wp_stop_capture.
  apply wp_bind, wp_stop_video. apply wp_bind, wp_stop_video.
  set (u := video_stopped camera _ _). assert (me u = me t) as Em.
  { unfold u. by rewrite !(proj1 (video_stopped_frame _ _ _)), (proj1 (stopped_frame _ _)). }
  unfold track. rewrite Hk. cbn -[map_set set_del obj_get view_of presence_set]. rewrite Em.
  unfold publish, left_over_state. fold u. by destruct (view_of _).
Qed.

(** C19: When a call ends that is still the one that was left, with the microphone
    it had then ([leave] notes both before it sends its goodbye and looks again at
    neither: a microphone that is changed in between stays on, as a run in
    CallRuns.v shows): every leg is closed, the captures of the microphone, the
    screen and the camera are stopped and no other, no remote video is kept, and
    this device is out of the room. *)
Theorem hanging_up_releases a k s (s' := after (hang_up a) s) :
  calls_ok s -> active (vm_call s) = Some a -> key (a_server a) (a_channel a) = Ok k ->
  active (vm_call s') = None /\ dial (vm_call s') = None /\ peers (vm_mesh s') = [] /\
  (forall r c, pcs (vm_plat s') !! r = Some c -> sends c = true -> closed c = true) /\
  (forall id, id ∈ live (vm_plat s') <->
     id ∈ live (vm_plat s) /\ a_stream a <> Capture id /\ v_stream <$> share (vm_media s) <> Some id /\ v_stream <$> camera (vm_media s) <> Some id) /\
  share (vm_media s') = None /\ camera (vm_media s') = None /\
  remoteScreens (vm_media s') = [] /\ remoteCameras (vm_media s') = [] /\ unroutedVideo (vm_media s') = [] /\
  analysers (vm_meter s') = [] /\ me s ∉ presence_set k s'.
Proof.
  intros Hok _ Hk. destruct (torn_idle s Hok) as [Hc _]. destruct (torn_frame (peers (vm_mesh s)) s) as (E1 & E2 & E3 & E4).
  unfold s'. rewrite (after_hang_up a k s Hk). revert Hc E1 E2 E3 E4.
  generalize (fold_left (fun s e => torn e.2 s) (peers (vm_mesh s)) s). intros t Hc E1 E2 E3 E4.
  assert (forall r c, pcs (vm_plat t) !! r = Some c -> sends c = true -> closed c = true) as Hclosed.
  { intros r c E Hs. destruct (closed c) eqn:Ec; [done|]. destruct Hc as [_ _ _ H _ _]. specialize (H r c E Ec Hs). by apply elem_of_nil in H. }
  set (u := stopped (a_stream a) (on_meter (fun _ => {| analysers := []; levels := []; speaking := [] |}) (on_mesh (set_peers []) t))).
  destruct (stopped_frame (a_stream a) (on_meter (fun _ => {| analysers := []; levels := []; speaking := [] |}) (on_mesh (set_peers []) t)))
    as (F1 & F2 & F3 & F4 & F5 & F6). fold u in F1, F2, F3, F4, F5, F6.
  destruct (video_stopped_frame share (set_share None) u) as (V1 & V2 & V3 & V4 & V5 & V6).
  destruct (video_stopped_frame camera (set_camera None) (video_stopped share (set_share None) u)) as (W1 & W2 & W3 & W4 & W5 & W6).
  assert (forall id, id ∈ live (vm_plat (video_stopped camera (set_camera None) (video_stopped share (set_share None) u))) <->
    id ∈ live (vm_plat s) /\ a_stream a <> Capture id /\ v_stream <$> share (vm_media s) <> Some id /\ v_stream <$> camera (vm_media s) <> Some id) as Hl.
  { intros id. rewrite !live_video_stopped, V6, F3. unfold u. rewrite live_stopped. cbn. rewrite E3, E4. destruct (share (vm_media s)); tauto. }
  unfold left_over_state. fold u. revert Hl V1 V2 V3 V4 V5 V6 W1 W2 W3 W4 W5 W6.
  generalize (video_stopped camera (set_camera None) (video_stopped share (set_share None) u)). intros w Hl V1 V2 V3 V4 V5 V6 W1 W2 W3 W4 W5 W6.
  cbn zeta. rewrite <- E1. cbn -[map_set set_del obj_get presence_set].
  assert (share (vm_media w) = None /\ camera (vm_media w) = None) as [Hs Hcm].
  { rewrite W6, V6, F3. cbn. destruct (share (vm_media t)) eqn:Es; cbn; destruct (camera (vm_media t)) eqn:Ec; done. }
  destruct (obj_get (presence (vm_roster w)) k); cbn -[map_set set_del obj_get presence_set];
    rewrite ?W3, ?V3, ?F4, ?W4, ?V4, ?F5, ?W5, ?V5, ?F6; split_and!; try done; try exact Hl;
    unfold presence_set; cbn -[map_set set_del obj_get]; rewrite obj_get_map_set, str_eqb_refl; cbn -[set_del]; rewrite elem_of_set_del; tauto.
Qed.

(** ** Members who leave the group *)

Section anything.
Notation any p s B R := (wp (Out := out) (Res := Res) (fun _ => True) (fun _ _ => True) p s B R).

Lemma wp_any {A} (p : P A) s B R : (forall x, B x) -> (forall D o s', (forall x, D x) -> R D o s') -> any p s B R.
Proof.
  revert s B R. induction p as [A a|A e|A k IH|A s0 p IH|A o p IH|A q IHq p IHp|A op k IH]; intros s B R HB HR; cbn; auto.
Qed.

(** A call in a room with a name, as every room this program makes has. *)
Definition named_room (s : vm) : Prop := forall a, active (vm_call s) = Some a -> exists c, a_channel a = VStr c.

Lemma view_of_named s : named_room s -> exists v, view_of s = Ok v.
Proof.
  intros Hn. unfold view_of. destruct (active (vm_call s)) as [a|] eqn:E; [|cbn; eauto].
  destruct (Hn a E) as [c Hc]. rewrite Hc. unfold directPeer, key. cbn. destruct (negb _); cbn; eauto.
Qed.

Lemma wp_publish s B (R : (vm -> Prop) -> res unit -> vm -> Prop) : named_room s -> R B (Ok tt) s -> any publish s B R.
Proof. intros Hn Hr. unfold publish. cbn. destruct (view_of_named s Hn) as [v ->]. done. Qed.

(** [dropPeer]'s state. *)
Definition dropped (name : jstr) (s : vm) : vm :=
  match obj_get (peers (vm_mesh s)) name with
  | None => s
  | Some r =>
      on_roster (fun r => set_cameras (obj_delete (cameras r) name) (set_mutedPeers (set_del name (mutedPeers r)) r))
        (on_media (fun m => set_remoteScreens (obj_delete (remoteScreens m) name) (set_remoteCameras (obj_delete (remoteCameras m) name) m))
          (on_meter (fun m => {| analysers := set_del name (analysers m); levels := obj_delete (levels m) name; speaking := set_del name (speaking m) |})
            (on_mesh (fun m => set_peers (obj_delete (peers m) name) m) (torn r s))))
  end.

Lemma wp_dropPeer name s B (R : (vm -> Prop) -> res unit -> vm -> Prop) :
  named_room s -> R B (Ok tt) (dropped name s) -> any (dropPeer name) s B R.
Proof.
  intros Hn Hr. unfold dropPeer, dropped in *. apply wp_bind. cbn [wp gets]. destruct (obj_get (peers (vm_mesh s)) name) as [r|] eqn:E; [|done].
  cbn -[obj_delete set_del directPeer leave publish]. destruct (active (vm_call s)) as [a|] eqn:Ea.
  - destruct (Hn a Ea) as [c Hc]. rewrite Hc. unfold directPeer. cbn -[obj_delete set_del leave publish].
    destruct (negb _); cbn -[obj_delete set_del leave publish]; [by apply wp_publish|]. destruct (_ && _); cbn -[obj_delete set_del leave publish].
    + apply wp_catch. unfold leave. cbn -[obj_delete set_del publish hang_up]. rewrite Ea. cbn -[obj_delete set_del publish hang_up].
      split; [by apply wp_publish|]. intros s' x _. apply wp_any; [done|]. intros D [|] s1 HD; [by apply HD|]. cbn. by apply HD.
    + by apply wp_publish.
  - cbn -[obj_delete set_del publish]. by apply wp_publish.
Qed.

Definition dropped_all (members : list jstr) (names : list jstr) (s : vm) : vm :=
  fold_left (fun s n => if bool_decide (n ∈ members) then s else dropped n s) names s.

Lemma dropped_frame name s : vm_call (dropped name s) = vm_call s /\ presence (vm_roster (dropped name s)) = presence (vm_roster s) /\
  shares (vm_roster (dropped name s)) = shares (vm_roster s) /\
  (forall e, e ∈ peers (vm_mesh (dropped name s)) <-> e ∈ peers (vm_mesh s) /\ e.1 <> name).
Proof.
  unfold dropped. destruct (obj_get (peers (vm_mesh s)) name) as [r|] eqn:E; cbn -[obj_delete].
  - split_and!; [done..|]. intros e. apply elem_of_delete.
  - split_and!; [done..|]. intros e. split; [|tauto]. intros Hin. split; [done|]. intros En. apply obj_get_None in E. apply E. subst name.
    by apply list_elem_of_fmap_2.
Qed.

Lemma dropped_all_frame members names s (t := dropped_all members names s) : vm_call t = vm_call s /\
  presence (vm_roster t) = presence (vm_roster s) /\ shares (vm_roster t) = shares (vm_roster s) /\
  (forall e, e ∈ peers (vm_mesh t) <-> e ∈ peers (vm_mesh s) /\ (e.1 ∈ names -> e.1 ∈ members)).
Proof.
  unfold t, dropped_all. clear t. revert s. induction names as [|n names IH]; intros s; cbn [fold_left].
  - split_and!; try done. intros e. split; [|tauto]. intros H. split; [done|]. by intros ?%elem_of_nil.
  - case_bool_decide as Hn.
    + destruct (IH s) as (H1 & H2 & H3 & H4). split_and!; [done..|]. intros e. rewrite H4, elem_of_cons. naive_solver.
    + destruct (IH (dropped n s)) as (H1 & H2 & H3 & H4), (dropped_frame n s) as (F1 & F2 & F3 & F4).
      split_and!; [congruence..|]. intros e. rewrite H4, F4, elem_of_cons. naive_solver.
Qed.

Lemma torn_closed r s c : pcs (vm_plat (torn r s)) !! r = Some c -> closed c = true.
Proof. cbn. rewrite list_lookup_alter_eq. destruct (pcs (vm_plat s) !! r); [|done]. by intros [= <-]. Qed.

Lemma torn_stays r r' s : (forall c, pcs (vm_plat s) !! r = Some c -> closed c = true) ->
  forall c, pcs (vm_plat (torn r' s)) !! r = Some c -> closed c = true.
Proof.
  intros H c E. destruct (decide (r' = r)) as [->|Hr]; [by eapply torn_closed|]. cbn in E. rewrite list_lookup_alter_ne in E by done. by apply H.
Qed.

Lemma dropped_pcs name s : pcs (vm_plat (dropped name s)) =
  match obj_get (peers (vm_mesh s)) name with Some r => pcs (vm_plat (torn r s)) | None => pcs (vm_plat s) end.
Proof. unfold dropped. by destruct (obj_get (peers (vm_mesh s)) name). Qed.

Lemma dropped_stays r name s : (forall c, pcs (vm_plat s) !! r = Some c -> closed c = true) ->
  forall c, pcs (vm_plat (dropped name s)) !! r = Some c -> closed c = true.
Proof.
  intros H c. rewrite dropped_pcs. destruct (obj_get (peers (vm_mesh s)) name) as [r'|]; [|apply H]. by apply torn_stays.
Qed.

Lemma dropped_all_closes members names s name r c :
  obj_get (peers (vm_mesh s)) name = Some r -> name ∈ names -> name ∉ members ->
  pcs (vm_plat (dropped_all members names s)) !! r = Some c -> closed c = true.
Proof.
  assert (forall names s, (forall c, pcs (vm_plat s) !! r = Some c -> closed c = true) ->
    forall c, pcs (vm_plat (dropped_all members names s)) !! r = Some c -> closed c = true) as Hst.
  { clear. intros names. induction names as [|n names IH]; intros s H; [done|]. apply IH. case_bool_decide; [done|]. by apply dropped_stays. }
  intros Hg Hin Hm. revert s Hg. induction names as [|n names IH]; intros s Hg; [by apply elem_of_nil in Hin|].
  unfold dropped_all. cbn [fold_left]. destruct (decide (n = name)) as [->|Hne].
  - rewrite bool_decide_eq_false_2 by done. apply Hst. intros c'. rewrite dropped_pcs, Hg. apply torn_closed.
  - apply elem_of_cons in Hin as [?|Hin]; [done|]. apply IH; [done|]. case_bool_decide; [done|].
    unfold dropped. destruct (obj_get (peers (vm_mesh s)) n); [|done]. cbn -[obj_delete]. rewrite obj_get_delete.
    by rewrite (proj2 (str_eqb_neq _ _) Hne).
Qed.

Lemma wp_drop_all members names s B (R : (vm -> Prop) -> res unit -> vm -> Prop) : named_room s ->
  R B (Ok tt) (dropped_all members names s) ->
  any (each names (fun name => guard_ (negb (bool_decide (name ∈ members))) (dropPeer name))) s B R.
Proof.
  intros Hn Hr. revert s Hn Hr. induction names as [|n names IH]; intros s Hn Hr; [done|]. cbn [each]. apply wp_bind.
  unfold dropped_all in Hr. cbn [fold_left] in Hr. case_bool_decide; cbn [negb guard_].
  - by apply IH.
  - apply wp_dropPeer; [done|]. apply IH; [|done]. intros a. destruct (dropped_frame n s) as (-> & _). apply Hn.
Qed.

Lemma obj_get_mapped (g : list jstr -> list jstr) (p : jstr -> bool) m k :
  obj_get ((fun e : jstr * list jstr => if p e.1 then (e.1, g e.2) else e) <$> m) k =
  (if p k then g else fun l => l) <$> obj_get m k.
Proof.
  induction m as [|[k' l] m IH]; cbn; [done|]. destruct (str_eqb k' k) eqn:E.
  - apply str_eqb_eq in E as ->. destruct (p k); cbn; by rewrite str_eqb_refl.
  - destruct (p k'); cbn; by rewrite E.
Qed.

(** C20: When the members of a group change, everybody who is not a member is
    out of its rooms and its list of shared screens, and has no leg: what they
    had is closed. *)
Theorem removed_members_lose_their_legs server members s (s' := after (membershipChanged server members) s) :
  NoDup (peers (vm_mesh s)).*1 -> named_room s ->
  (forall name r, (name, r) ∈ peers (vm_mesh s') <-> (name, r) ∈ peers (vm_mesh s) /\ name ∈ members) /\
  (forall name r c, (name, r) ∈ peers (vm_mesh s) -> name ∉ members -> pcs (vm_plat s') !! r = Some c -> closed c = true) /\
  (forall k n, n ∈ presence_set k s' <-> n ∈ presence_set k s /\ (in_server server k = true -> n ∈ members)) /\
  (forall n k, (n, k) ∈ shares (vm_roster s') <-> (n, k) ∈ shares (vm_roster s) /\ (in_server server k = true -> n ∈ members)).
Proof.
  intros Hnd Hn. unfold s'. apply (segment_owed (fun _ => True) (fun _ _ => True)). unfold membershipChanged.
  apply wp_bind. cbn [wp gets]. apply wp_bind, wp_drop_all; [done|].
  destruct (dropped_all_frame members (peers (vm_mesh s)).*1 s) as (H1 & H2 & H3 & H4).
  pose proof (dropped_all_closes members (peers (vm_mesh s)).*1 s) as H5. set (t := dropped_all _ _ _) in *.
  apply wp_bind. cbn -[publish in_server fmap list_fmap filter]. apply wp_publish; [intros a; cbn; rewrite H1; apply Hn|].
  unfold pays. cbn -[in_server fmap list_fmap filter]. split_and!.
  - intros name r. rewrite H4. cbn. split; [intros [Hin Hm]; split; [done|apply Hm; by eapply list_elem_of_fmap_2']|tauto].
  - intros name r c Hin Hm. apply (H5 name r); [by apply obj_get_NoDup|by eapply list_elem_of_fmap_2'|done].
  - intros k n. unfold presence_set. cbn -[in_server fmap list_fmap filter]. rewrite H2, obj_get_mapped.
    destruct (obj_get (presence (vm_roster s)) k) as [l|]; cbn; [|by split; [intros ?%elem_of_nil|intros [?%elem_of_nil _]]].
    destruct (in_server server k); rewrite ?list_elem_of_filter; naive_solver.
  - intros n k. rewrite list_elem_of_filter, H3. cbn. destruct (in_server server k); cbn; [|naive_solver].
    rewrite bool_decide_eq_true. naive_solver.
Qed.
End anything.

End Calls.
