(* ===== verification/CallRuns.v ===== *)
(** * Runs of voice calls (client/src/lib/voice.js)

    What the manager of Voice.v does in particular situations: a stream and its
    announcement in either order, a full call, the room two people share; runs
    that show the theorems of Calls.v at work, and runs in which overlapping
    actions leave something behind. *)

From stdpp Require Import base list numbers option strings sets relations.
From Stdlib Require Import ZArith NArith Lia.
From S2P Require Import Prelude JsNum JsString JsValue Async Sdp Voice Calls.
Import Async.Async Sdp.Sdp Voice.Voice Calls.Calls.
Open Scope Z_scope.

Module CallRuns.

(** ** Video *)

Definition filed (k : kind) (m : media) : list (jstr * jstr) := match k with screen => remoteScreens m | camera_ => remoteCameras m end.

Lemma obj_delete_absent {A} (o : list (jstr * A)) k : obj_get o k = None -> obj_delete o k = o.
Proof. induction o as [|[k' v] o IH]; cbn; [done|]. destruct (str_eqb k' k); [done|]. intros H. by rewrite IH. Qed.

Lemma obj_delete_snoc {A} (o : list (jstr * A)) k v : obj_get o k = None -> obj_delete (o ++ [(k, v)]) k = o.
Proof.
  induction o as [|[k' v'] o IH]; cbn; [by rewrite str_eqb_refl|]. destruct (str_eqb k' k); [done|]. intros H. by rewrite IH.
Qed.

Lemma kind_of_absent m sid : kind_of m sid = None -> existsb (fun e : val * kind => same_value e.1 sid) (videoKind m) = false.
Proof. unfold kind_of. induction (videoKind m) as [|e l IH]; cbn; [done|]. destruct (same_value e.1 sid); [done|]. by intros ?%IH. Qed.

Lemma kind_of_set m sid k : kind_of m sid = None -> same_value sid sid = true ->
  set_kind sid k (videoKind m) = videoKind m ++ [(sid, k)] /\
  kind_of (set_videoKind (videoKind m ++ [(sid, k)]) m) sid = Some k.
Proof.
  intros Hk Hr. split; [unfold set_kind; by rewrite kind_of_absent|]. unfold kind_of in *. cbn [videoKind set_videoKind].
  induction (videoKind m) as [|e l IH]; cbn in *; [by rewrite Hr|]. destruct (same_value e.1 sid); [done|]. by apply IH.
Qed.

Section video.
Notation any p s B R := (wp (Out := out) (Res := Res) (fun _ => True) (fun _ _ => True) p s B R).

Lemma wp_publish_last s (B : vm -> Prop) : B s -> any publish s B pays.
Proof. intros HB. unfold publish. cbn. by destruct (view_of s). Qed.

Lemma after_any p s (B : vm -> Prop) : any p s B pays -> B (after p s).
Proof. intros H. exact (proj1 (segment_owed _ _ _ _ _ H)). Qed.

Lemma attach_media name str trk k s : vm_media (after (attachRemoteVideo name str trk (Some k)) s) = put_remote k name str (vm_media s).
Proof. apply after_any. cbn -[publish put_remote]. by apply wp_publish_last. Qed.

Lemma track_media name str trk s : vm_media (after (ontrack_video name str trk) s) =
  match kind_of (vm_media s) (VStr str) with
  | Some k => put_remote k name str (vm_media s)
  | None => set_unroutedVideo (map_set (unroutedVideo (vm_media s)) str (name, trk)) (vm_media s)
  end.
Proof.
  apply after_any. unfold ontrack_video. cbn [bind gets wp]. destruct (kind_of _ _) as [k|]; cbn -[publish put_remote map_set]; [by apply wp_publish_last|done].
Qed.

Lemma route_media str k s : str <> [] -> vm_media (after (routeVideo (VStr str) k) s) =
  (let m := set_videoKind (set_kind (VStr str) k (videoKind (vm_media s))) (vm_media s) in
   match obj_get (unroutedVideo m) str with
   | Some (name, _) => put_remote k name str (set_unroutedVideo (obj_delete (unroutedVideo m) str) m)
   | None => m
   end).
Proof.
  intros Hs. apply after_any. unfold routeVideo. replace (truthy (VStr str)) with true by (destruct str; [done|reflexivity]).
  cbn -[set_kind publish put_remote obj_delete obj_get attachRemoteVideo]. destruct (obj_get _ str) as [[name trk]|]; [|done].
  cbn -[set_kind publish put_remote obj_delete]. by apply wp_publish_last.
Qed.
End video.

(** A video stream and the announcement of what it is may arrive in either
    order: the stream ends up with its owner among the screens or the cameras
    as announced, parked nowhere, and nothing else differs. *)
Theorem video_finds_its_place name str trk k s
  (announced_first := after (ontrack_video name str trk) (after (routeVideo (VStr str) k) s))
  (track_first := after (routeVideo (VStr str) k) (after (ontrack_video name str trk) s)) :
  str <> [] -> kind_of (vm_media s) (VStr str) = None -> obj_get (unroutedVideo (vm_media s)) str = None ->
  vm_media announced_first = vm_media track_first /\
  obj_get (filed k (vm_media track_first)) name = Some str /\
  unroutedVideo (vm_media track_first) = unroutedVideo (vm_media s).
Proof.
  intros Hs Hk Hu. destruct (kind_of_set (vm_media s) (VStr str) k Hk (str_eqb_refl str)) as [Ek Ef].
  unfold announced_first, track_first. rewrite track_media, !route_media, track_media, Hk, Ek by done.
  cbn zeta. cbn [unroutedVideo set_videoKind set_unroutedVideo videoKind]. rewrite Ek, Hu, Ef.
  assert (obj_get (map_set (unroutedVideo (vm_media s)) str (name, trk)) str = Some (name, trk)) as ->.
  { by rewrite obj_get_map_set, str_eqb_refl. }
  assert (obj_delete (map_set (unroutedVideo (vm_media s)) str (name, trk)) str = unroutedVideo (vm_media s)) as ->.
  { unfold map_set. rewrite Hu. by apply obj_delete_snoc. }
  destruct k; cbn -[map_set]; rewrite obj_get_map_set, str_eqb_refl; done.
Qed.

(** ** The room of a direct call *)

Lemma directRoom_sym a b : directRoom a b = directRoom b a.
Proof. unfold directRoom. do 2 f_equal. apply sort_strings_canonical. apply Permutation_swap. Qed.

Lemma sort_strings_perm l : sort_strings l ≡ₚ l.
Proof. apply sort_by_perm. Qed.

(** A name without the separator, as handles have none. *)
Definition plain_name (n : jstr) : Prop := 43%N ∉ n.

Lemma directRoom_names a b : plain_name a -> plain_name b ->
  split_char 43 (drop 3 (directRoom a b)) = sort_strings [a; b].
Proof.
  intros Ha Hb. unfold directRoom. replace (drop 3 (js "dm:" ++ _)) with (str_join (js "+") (sort_strings [a; b])) by reflexivity.
  change (js "+") with [43%N]. apply split_char_join.
  - intros E. pose proof (sort_strings_perm [a; b]) as Hp. rewrite E in Hp. by apply Permutation_length in Hp.
  - apply Forall_forall. intros x Hx. rewrite (sort_strings_perm [a; b]) in Hx.
    apply elem_of_cons in Hx as [->|Hx]; [done|]. apply list_elem_of_singleton in Hx as ->. done.
Qed.

(** Two people who call each other get one room, whoever calls, and each
    reads the other's name out of it. *)
Theorem direct_room_agreed a b : a <> b -> plain_name a -> plain_name b ->
  directRoom a b = directRoom b a /\
  directPeer a (VStr (directRoom a b)) = Ok (Some b) /\ directPeer b (VStr (directRoom a b)) = Ok (Some a).
Proof.
  intros Hab Ha Hb. split; [apply directRoom_sym|].
  assert (forall x y, x <> y -> sort_strings [a; b] ≡ₚ [x; y] ->
    directPeer x (VStr (directRoom a b)) = Ok (Some y)) as H.
  { intros x y Hxy Hp. unfold directPeer. change (negb (truthy (VStr (directRoom a b)))) with false. cbn -[directRoom split_char].
    replace (starts_with (js "dm:") (directRoom a b)) with true by reflexivity.
    do 2 f_equal. change (split_char 43 (drop 3 (directRoom a b))) with (split_char 43 (drop 3 (directRoom a b))).
    rewrite directRoom_names by done. revert Hp. generalize (sort_strings [a; b]). intros l Hl.
    apply Permutation_sym, Permutation_length_2_inv in Hl as [->| ->]; cbn; rewrite ?str_eqb_refl; cbn;
      rewrite (proj2 (str_eqb_neq _ _)) by done; done. }
  split; [apply H|apply H]; [done|apply sort_strings_perm|done|]. rewrite sort_strings_perm. apply Permutation_swap.
Qed.

Lemma direct_room_agreed_witness :
  directRoom (js "ana") (js "bo") = js "dm:ana+bo" /\ directPeer (js "bo") (VStr (directRoom (js "ana") (js "bo"))) = Ok (Some (js "ana")).
Proof.
  split; [reflexivity|].
  refine (proj2 (proj2 (direct_room_agreed (js "ana") (js "bo") _ _ _))); [done|..]; apply (bool_decide_unpack _); reflexivity.
Defined.

(** ** A full call *)

(** Nobody is let into a full call: the microphone is not asked for, nobody is
    told, and nothing changes. *)
Lemma full_call_refused server c s there : active (vm_call s) = None ->
  participants s server (VStr c) = Ok there -> (MESH_LIMIT <= length there)%nat ->
  exec (join server (VStr c)) s = (s, [], [], Raised OtherError).
Proof.
  intros Ha Hp Hn. unfold join. cbn -[participants meshFull captureAudio call_ track]. rewrite Ha.
  cbn -[participants meshFull captureAudio call_ track]. rewrite Hp. cbn -[meshFull captureAudio call_ track].
  replace (meshFull (length there)) with true by (symmetry; by apply Nat.leb_le). reflexivity.
Qed.

(** ** Runs *)

(** A browser that grants everything: the capture it gives, and offers. *)
Definition grants (id : string) (o : op) : res (Res o) :=
  match o with
  | OMic _ _ => Ok (js id)
  | OScreen | OCamera => Ok (js id, Some (js "t"))
  | OOffer _ | OAnswer _ => Ok (js "v=0")
  | _ => Ok tt
  end.

Local Notation "k ~> v" := (k%string, v) (at level 60).
Definition ana : jstr := js "ana".
Definition bo : jstr := js "bo".
Definition circle : jstr := js "s1".
Definition lobby : val := VStr (js "lobby").
Definition here (ch : val) : val := voice_env ch "here" [].

Notation act_ := (@act vm out op Res).

(** In the lobby, with the microphone [mic]; then with a leg to [bo]. *)
Definition in_lobby (mic : string) : list act_ :=
  [Begin (join circle lobby); Answer 0 (grants mic); Answer 0 (grants mic); Answer 0 (grants mic)].
Definition with_bo : list act_ := [Begin (handleEnvelope circle bo (here lobby))].

Definition run (acts : list act_) : pool vm out Res := play acts (Pool (new_manager ana None None [] (int 0) true) []).

Definition reached (s : vm) : Prop := exists w, rtc (pool_step starts browser) (Pool (new_manager ana None None [] (int 0) true) []) (Pool s w).

Lemma run_steps acts : Forall (fun a => match a with Begin p => starts p | Answer _ _ => True end) acts ->
  rtc (pool_step starts browser) (Pool (new_manager ana None None [] (int 0) true) []) (Pool (pl_state (run acts)) (pl_waiting (run acts))).
Proof. intros Ha. pose proof (play_steps starts browser acts (Pool (new_manager ana None None [] (int 0) true) []) Ha) as H. fold (run acts) in H. by destruct (run acts). Qed.

Lemma run_reached acts : Forall (fun a => match a with Begin p => starts p | Answer _ _ => True end) acts -> reached (pl_state (run acts)).
Proof. intros Ha. eexists. by apply run_steps. Qed.

Lemma no_leg_without_call_witness :
  exists name, (name, 0%nat) ∈ peers (vm_mesh (pl_state (run (in_lobby "m" ++ with_bo)))) /\
    active (vm_call (pl_state (run (in_lobby "m" ++ with_bo)))) <> None.
Proof.
  eapply (proj1 (no_leg_without_call ana None None [] (int 0) true _ _ (run_steps (in_lobby "m" ++ with_bo) ltac:(repeat constructor))) 0%nat);
    vm_compute; reflexivity.
Defined.

(** What a device knows when [bo] says it is there. *)
Definition lobby_state : vm := pl_state (run (in_lobby "m" ++ with_bo)).

Lemma signals_speak_for_sender_witness :
  let s' := after (handleEnvelope circle bo (voice_env lobby "leave" [])) lobby_state in
  obj_get (peers (vm_mesh s')) bo = None /\
  others_kept ana bo lobby_state s' /\ (legs_kept bo lobby_state s' \/ hung_up bo s').
Proof.
  cbn zeta. split; [vm_compute; reflexivity|].
  apply (signals_speak_for_sender ana circle bo (voice_env lobby "leave" [])). apply stretch_first. vm_compute. reflexivity.
Defined.

Definition lobby_session : session := {| a_server := circle; a_channel := lobby; a_stream := Capture (js "m"); a_since := int 0 |}.

Lemma lobby_ok : calls_ok lobby_state.
Proof.
  split.
  - vm_compute. reflexivity.
  - apply (bool_decide_unpack _). vm_compute. exact I.
  - apply (bool_decide_unpack _). vm_compute. exact I.
  - intros [|r] p E _ _; [apply (bool_decide_unpack _); vm_compute; exact I|]. vm_compute in E. discriminate E.
  - intros name r Hin. assert (r = 0%nat) as ->.
    { change (peers (vm_mesh lobby_state)) with [(bo, 0%nat)] in Hin. apply list_elem_of_singleton in Hin. congruence. }
    eexists. split; vm_compute; reflexivity.
  - vm_compute. discriminate.
Qed.

Lemma hanging_up_releases_witness :
  let s' := after (hang_up lobby_session) lobby_state in
  js "m" ∈ live (vm_plat lobby_state) /\ active (vm_call s') = None /\ (forall id, id ∈ live (vm_plat s') -> id <> js "m").
Proof.
  cbn zeta. split; [apply (bool_decide_unpack _); vm_compute; exact I|].
  destruct (hanging_up_releases lobby_session (circle ++ [10%N] ++ js "lobby") lobby_state lobby_ok ltac:(vm_compute; reflexivity) eq_refl) as (H1 & _ & _ & _ & H2 & _).
  split; [exact H1|]. intros id Hid ->. apply H2 in Hid as (_ & Hn & _). by apply Hn.
Defined.

Lemma removed_members_lose_their_legs_witness :
  let s' := after (membershipChanged circle [ana]) lobby_state in
  (bo, 0%nat) ∈ peers (vm_mesh lobby_state) /\ (bo, 0%nat) ∉ peers (vm_mesh s') /\ bo ∉ presence_set (circle ++ [10%N] ++ js "lobby") s'.
Proof.
  cbn zeta. split; [apply (bool_decide_unpack _); vm_compute; exact I|].
  destruct (removed_members_lose_their_legs circle [ana] lobby_state) as (H1 & _ & H3 & _).
  - apply (bool_decide_unpack _). vm_compute. exact I.
  - intros a Ha. vm_compute in Ha. injection Ha as <-. exists (js "lobby"). reflexivity.
  - split.
    + rewrite H1. intros [_ Hm]. apply list_elem_of_singleton in Hm. discriminate Hm.
    + rewrite H3. intros [_ Hm]. specialize (Hm eq_refl). apply list_elem_of_singleton in Hm. discriminate Hm.
Defined.

Lemma video_finds_its_place_witness :
  obj_get (remoteScreens (vm_media (after (routeVideo (VStr (js "v1")) screen) (after (ontrack_video bo (js "v1") (js "t")) lobby_state)))) bo = Some (js "v1").
Proof.
  refine (proj1 (proj2 (video_finds_its_place bo (js "v1") (js "t") screen lobby_state _ _ _))); [done|vm_compute; reflexivity..].
Defined.

(** *** Overlapping actions *)

(** The user hangs up while the browser's screen picker is open, then picks a
    screen: it is captured with no call, and the next call sends it. *)
Lemma share_outlives_call : exists s, reached s /\
  active (vm_call s) = None /\ live (vm_plat s) = [js "scr"] /\ v_stream <$> share (vm_media s) = Some (js "scr") /\
  (exists leg, heap (vm_mesh (pl_state (play (in_lobby "m2" ++ with_bo) (Pool s [])))) !! 0%nat = Some leg /\ shareSender leg = Some (js "t")).
Proof.
  exists (pl_state (run (in_lobby "m" ++ [Begin (startShare 8 true); Begin leave; Answer 1 (grants ""); Answer 0 (grants "scr"); Answer 0 (grants "")]))).
  split; [apply run_reached; repeat constructor|].
  split_and!; [vm_compute; reflexivity..|]. eexists. split; vm_compute; reflexivity.
Qed.

(** Two taps on a room before the first microphone is granted: both are
    captured, and hanging up stops the second only. *)
Lemma overlapping_joins_leak_mic : exists s, reached s /\
  active (vm_call s) = None /\ live (vm_plat s) = [js "m1"].
Proof.
  pose (acts := [Begin (join circle lobby); Begin (join circle lobby); Answer 0 (grants "m1"); Answer 0 (grants "m2");
                 Answer 0 (grants ""); Answer 0 (grants ""); Answer 0 (grants ""); Answer 0 (grants ""); Begin leave; Answer 0 (grants "")] : list act_).
  exists (pl_state (run acts)). split; [apply run_reached; repeat constructor|].
  split; vm_compute; reflexivity.
Qed.

(** The user hangs up and picks another microphone while the goodbye is on its
    way: the new one is captured for the call that is being left, and stays on
    with no call. *)
Lemma microphone_changed_while_leaving : exists s, reached s /\
  active (vm_call s) = None /\ live (vm_plat s) = [js "m2"].
Proof.
  pose (acts := in_lobby "m" ++ [Begin leave; Begin (setInputDevice 8 (js "usb")); Answer 1 (grants "m2"); Answer 0 (grants "")] : list act_).
  exists (pl_state (run acts)). split; [apply run_reached; repeat constructor|].
  split; vm_compute; reflexivity.
Qed.

(** A change of members in a circle [bo] is not in closes the leg to [bo] of
    the call that runs in another circle. *)
Lemma other_circle_drops_legs :
  let s' := after (membershipChanged (js "s2") [ana; js "cy"]) lobby_state in
  peers (vm_mesh lobby_state) = [(bo, 0%nat)] /\ peers (vm_mesh s') = [] /\
  closed <$> pc_of s' 0 = Some true /\ bo ∈ presence_set (circle ++ [10%N] ++ js "lobby") s'.
Proof. cbn zeta. split_and!; [vm_compute; reflexivity..|]. apply (bool_decide_unpack _). vm_compute. exact I. Qed.

(** In a direct call with [bo]. *)
Definition room_bo : val := VStr (directRoom ana bo).
Definition in_direct : list act_ :=
  [Begin (join circle room_bo); Answer 0 (grants "m"); Answer 0 (grants ""); Answer 0 (grants ""); Begin (handleEnvelope circle bo (here room_bo))].
Definition direct_state : vm := pl_state (run in_direct).

(** [bo] leaving another room ends a direct call with [bo]. *)
Lemma leave_elsewhere_ends_call :
  let x := play [Begin (handleEnvelope circle bo (voice_env lobby "leave" [])); Answer 0 (grants "")] (Pool direct_state []) in
  is_Some (active (vm_call direct_state)) /\ active (vm_call (pl_state x)) = None.
Proof. cbn zeta. split; [apply (bool_decide_unpack _)|]; vm_compute; done. Qed.

(** Anybody's 'accept' stops the ringing of [bo]. *)
Lemma stranger_answers_the_dial :
  let x := run [Begin (callUser circle bo); Begin (handleEnvelope circle (js "cy") (ring_env ana VUndef "accept"))] in
  d_to <$> dial (vm_call (pl_state (run [Begin (callUser circle bo)]))) = Some bo /\ dial (vm_call (pl_state x)) = None.
Proof. split; vm_compute; reflexivity. Qed.

(** An invitation to a room that is not a text: accepting it turns the
    microphone on, with no call to hang up. *)
Lemma ring_without_a_room : exists s, reached s /\
  active (vm_call s) = None /\ live (vm_plat s) = [js "m"].
Proof.
  pose (acts := [Begin (handleEnvelope circle bo (ring_env ana (VNum (int 1)) "invite")); Begin acceptRing;
                 Answer 0 (grants ""); Answer 0 (grants "m"); Answer 0 (grants ""); Answer 0 (grants "")] : list act_).
  exists (pl_state (run acts)). split; [apply run_reached; repeat constructor|].
  split_and!; vm_compute; reflexivity.
Qed.
End CallRuns.
