(* ===== verification/VoicePrefs.v ===== *)
(** * Call settings and localStorage (client/src/lib/voice.js: [constructor],
      [persistDevice] and the setters)

    What the user chose is written to localStorage as it is chosen and read
    back when the manager is made; here that the two agree at every moment. *)

From stdpp Require Import base list numbers option strings sets relations.
From Stdlib Require Import ZArith NArith Lia.
From S2P Require Import Prelude JsNum JsString JsValue Async Sdp Voice Calls.
Import Async.Async Sdp.Sdp Voice.Voice Calls.Calls.
Open Scope Z_scope.

Module VoicePrefs.

(** What a manager made now would load is what this one has. *)
Definition settled (s : vm) : Prop :=
  loaded_prefs (Some (stored (vm_plat s))) (Some (relayOnly (vm_prefs s))) = vm_prefs s.

(** The manager the next start of the app makes on this browser. *)
Definition restarted (s : vm) (time : num) (can : bool) : vm :=
  new_manager (me s) (iceServers (vm_plat s)) (Some (relayOnly (vm_prefs s))) (stored (vm_plat s)) time can.

(** What [settled] looks at. *)
Definition chosen (s : vm) : prefs * list (jstr * jstr) := (vm_prefs s, stored (vm_plat s)).

Lemma settled_chosen s s' : chosen s' = chosen s -> settled s -> settled s'.
Proof. unfold chosen, settled. by intros [= -> ->]. Qed.

Notation settles := (good (Out := out) (Res := Res) settled (fun _ => settled)).

Lemma settles_modify f : (forall s, chosen (f s) = chosen s) -> settles (modify f).
Proof. intros H. apply good_modify. intros _ s. by apply settled_chosen. Qed.

(** Nothing but the setters touches what is chosen or stored. *)
Ltac settle := by_shape ltac:(first
  [ apply settles_modify; first [reflexivity | intros []; reflexivity | intros; repeat case_match; reflexivity]
  | match goal with |- good _ _ ?p =>
      let h := (let rec go t := lazymatch t with ?f _ => go f | _ => t end in go p) in unfold h end ]).

(** ** The setters *)

Lemma get_stored k v m k' : obj_get (store_item (js k) v m) (js k') = if str_eqb (js k) (js k') then opt_text v else obj_get m (js k').
Proof.
  unfold store_item, opt_text. destruct (is_empty v); [by rewrite obj_get_delete|]. rewrite obj_get_map_set. done.
Qed.

Lemma opt_text_flag b : opt_text (flag_text b) = if b then None else Some (js "0").
Proof. by destruct b. Qed.

Lemma opt_text_twice v : opt_text v ≫= opt_text = opt_text v.
Proof. unfold opt_text. destruct (is_empty v) eqn:E; cbn; [done|]. by rewrite E. Qed.
Lemma loaded_off (b : bool) : negb (bool_decide ((if b then None else Some (js "0")) = Some (js "0"))) = b.
Proof. by destruct b. Qed.

(** What storing under one key does to what is loaded under each. *)
Ltac keys := repeat match goal with |- context [str_eqb (js ?a) (js ?b)] =>
  let x := eval vm_compute in (str_eqb (js a) (js b)) in change (str_eqb (js a) (js b)) with x end.
Ltac stores := unfold settled, loaded_prefs, loaded_device, loaded_flag, get_item;
  cbn -[js store_item obj_get opt_text flag_text str_eqb]; rewrite !get_stored, ?opt_text_flag; keys;
  cbn -[js store_item obj_get opt_text flag_text str_eqb]; rewrite ?opt_text_twice, ?loaded_off.

Lemma settled_fields s : settled s ->
  loaded_device (Some (stored (vm_plat s))) "quorum-audio-in" = inputDeviceId (vm_prefs s) /\
  loaded_device (Some (stored (vm_plat s))) "quorum-audio-out" = outputDeviceId (vm_prefs s) /\
  loaded_flag (Some (stored (vm_plat s))) "quorum-call-sounds" = callSounds (vm_prefs s) /\
  loaded_flag (Some (stored (vm_plat s))) "quorum-audio-ec" = echoCancellation (processing (vm_prefs s)) /\
  loaded_flag (Some (stored (vm_plat s))) "quorum-audio-ns" = noiseSuppression (processing (vm_prefs s)) /\
  loaded_flag (Some (stored (vm_plat s))) "quorum-audio-agc" = autoGainControl (processing (vm_prefs s)).
Proof. unfold settled. by intros <-. Qed.

Ltac stored_well Hs :=
  let F1 := fresh in let F2 := fresh in let F3 := fresh in let F4 := fresh in let F5 := fresh in let F6 := fresh in
  destruct (settled_fields _ Hs) as (F1 & F2 & F3 & F4 & F5 & F6); unfold loaded_device, loaded_flag, get_item in *;
  cbn -[js obj_get opt_text store_item] in *; stores; rewrite ?F1, ?F2, ?F3, ?F4, ?F5, ?F6; destruct (vm_prefs _) as [? ? ? [] ?]; reflexivity.

Lemma settles_output n id : settles (setOutputDevice n id).
Proof.
  intros s0 s B R Hs HB HR. unfold setOutputDevice. cbn -[each_peer store_item js opt_text].
  assert (settles (each_peer n None (fun _ r => let! s := gets (fun s => s) in
    guard_ (default false (audio <$> leg_of s r)) (quietly (await (OSink r id)))))) as H by settle.
  apply (H s0); [|done|done]. stored_well Hs.
Qed.

Lemma settles_input n id : settles (setInputDevice n id).
Proof.
  intros s0 s B R Hs HB HR. unfold setInputDevice. cbn -[store_item quietly call_ recaptureMic publish js opt_text]. destruct (active (vm_call s)).
  - assert (settles (quietly (call_ (recaptureMic n) ;; publish))) as H by settle.
    apply (H s0); [|done|done]. stored_well Hs.
  - apply (HR s0); [done|]. stored_well Hs.
Qed.

Lemma settles_sounds on : settles (setCallSounds on).
Proof.
  intros s0 s B R Hs HB HR. unfold setCallSounds. cbn -[store_item publish js flag_text].
  assert (settles publish) as H by settle. apply (H s0); [|done|done]. stored_well Hs.
Qed.

Lemma settles_processing n ec ns agc : settles (setAudioProcessing n ec ns agc).
Proof.
  intros s0 s B R Hs HB HR. unfold setAudioProcessing. cbn -[store_item publish quietly guard_ call_ recaptureMic js flag_text].
  match goal with |- wp _ _ ?p _ _ _ => assert (settles p) as H by settle end.
  apply (H s0); [|done|done]. stored_well Hs.
Qed.

(** ** Every moment *)

Lemma settles_starts p : starts p -> settles p.
Proof.
  intros Hs. destruct Hs; auto using settles_output, settles_input, settles_sounds, settles_processing; settle.
Qed.

(** However everything interleaves, the devices, the sounds and the
    processing a manager uses are those a manager made now would load from
    localStorage: what the user chose survives a restart. *)
Theorem settings_survive_restart mine ice relay storage time can s w time' can' :
  rtc (pool_step starts browser) (Pool (new_manager mine ice relay storage time can) []) (Pool s w) ->
  vm_prefs (restarted s time' can') = vm_prefs s.
Proof.
  intros Hr. assert (pool_ok settled (fun _ => settled) (Pool s w)) as [Hok _].
  { eapply pool_keeps; [| | |exact Hr|].
    - done.
    - intros s1 s2 (f & -> & _). by apply settled_chosen.
    - intros q Hq. apply good_handles; [done|]. by apply settles_starts.
    - split; [|constructor]. reflexivity. }
  exact Hok.
Qed.

(** Sounds off, then a microphone picked. *)
Lemma settings_survive_restart_witness :
  let s := pl_state (play [Begin (setCallSounds false); Begin (setInputDevice 8 (js "usb"))] (Pool (new_manager (js "ana") None None [] (int 0) true) [])) in
  vm_prefs (restarted s (int 9) true) = vm_prefs s /\ callSounds (vm_prefs s) = false /\
  inputDeviceId (vm_prefs s) = Some (js "usb").
Proof.
  cbn zeta. split; [|split; vm_compute; reflexivity].
  refine (settings_survive_restart (js "ana") None None [] (int 0) true _ [] (int 9) true _).
  apply (play_steps starts browser [Begin (setCallSounds false); Begin (setInputDevice 8 (js "usb"))]). repeat constructor.
Defined.
End VoicePrefs.
