(* ===== verification/Screen.v ===== *)
(** * What is on screen (client/src/App.jsx: [reducer], [messageKey], [initial])

    The state React renders, and the one function that changes it.  Actions
    come from the user and from the controller in any order: a page of a room
    may resolve after the room was left, a message may arrive while the page
    that has it is being read.

    Theorems: where the user is stays a place that exists, the pane shows the
    room the user is in, in order, and a load and a live line commute. *)

From stdpp Require Import base list numbers option strings sets sorting.
From Stdlib Require Import ZArith NArith Lia.
From S2P Require Import Prelude JsNum JsString JsValue Log LogOrder.
Open Scope Z_scope.

Module Screen.

(** ** Data *)

(** A circle as [snapshotServers] projects it; [sv_more]: its other members. *)
Record server := { sv_id : jstr; sv_channels : list jstr; sv_more : obj }.

(** [None] is [null]; a circle with no channel open shows its front page. *)
Record place := { at_server : option jstr; at_channel : option jstr }.

Inductive phase := loading | onboarding | ready | fatal_.

Record state := {
  st_phase : phase;
  st_me : option jstr;
  st_servers : list server;
  st_active : place;
  st_messages : list line;
  st_connection : jstr;
  st_toast : option jstr;
  st_announce : option jstr;
  st_fatal : option jstr;
  st_modal : val;
  st_voice : val;
  st_vault : val * bool;  (** kind and [securedLocal] *)
  st_globalAdmin : bool;
  st_circlesLoading : bool;
  st_messagesRev : Z;
  st_storage : option val;  (** at risk; what the browser evicts *)
}.

Definition set_phase (p : phase) (s : state) : state :=
  {| st_phase := p; st_me := st_me s; st_servers := st_servers s; st_active := st_active s; st_messages := st_messages s;
     st_connection := st_connection s; st_toast := st_toast s; st_announce := st_announce s; st_fatal := st_fatal s;
     st_modal := st_modal s; st_voice := st_voice s; st_vault := st_vault s; st_globalAdmin := st_globalAdmin s;
     st_circlesLoading := st_circlesLoading s; st_messagesRev := st_messagesRev s; st_storage := st_storage s |}.
Definition set_me (m : jstr) (s : state) : state :=
  {| st_phase := st_phase s; st_me := Some m; st_servers := st_servers s; st_active := st_active s; st_messages := st_messages s;
     st_connection := st_connection s; st_toast := st_toast s; st_announce := st_announce s; st_fatal := st_fatal s;
     st_modal := st_modal s; st_voice := st_voice s; st_vault := st_vault s; st_globalAdmin := st_globalAdmin s;
     st_circlesLoading := st_circlesLoading s; st_messagesRev := st_messagesRev s; st_storage := st_storage s |}.
Definition set_servers (l : list server) (a : place) (s : state) : state :=
  {| st_phase := st_phase s; st_me := st_me s; st_servers := l; st_active := a; st_messages := st_messages s;
     st_connection := st_connection s; st_toast := st_toast s; st_announce := st_announce s; st_fatal := st_fatal s;
     st_modal := st_modal s; st_voice := st_voice s; st_vault := st_vault s; st_globalAdmin := st_globalAdmin s;
     st_circlesLoading := st_circlesLoading s; st_messagesRev := st_messagesRev s; st_storage := st_storage s |}.
Definition set_pane (a : place) (ms : list line) (s : state) : state :=
  {| st_phase := st_phase s; st_me := st_me s; st_servers := st_servers s; st_active := a; st_messages := ms;
     st_connection := st_connection s; st_toast := st_toast s; st_announce := st_announce s; st_fatal := st_fatal s;
     st_modal := st_modal s; st_voice := st_voice s; st_vault := st_vault s; st_globalAdmin := st_globalAdmin s;
     st_circlesLoading := st_circlesLoading s; st_messagesRev := st_messagesRev s; st_storage := st_storage s |}.
Definition set_notes (connection : jstr) (toast announce fatal : option jstr) (modal voice : val) (s : state) : state :=
  {| st_phase := st_phase s; st_me := st_me s; st_servers := st_servers s; st_active := st_active s; st_messages := st_messages s;
     st_connection := connection; st_toast := toast; st_announce := announce; st_fatal := fatal;
     st_modal := modal; st_voice := voice; st_vault := st_vault s; st_globalAdmin := st_globalAdmin s;
     st_circlesLoading := st_circlesLoading s; st_messagesRev := st_messagesRev s; st_storage := st_storage s |}.
Definition set_flags (vault : val * bool) (admin circles : bool) (rev : Z) (storage : option val) (s : state) : state :=
  {| st_phase := st_phase s; st_me := st_me s; st_servers := st_servers s; st_active := st_active s; st_messages := st_messages s;
     st_connection := st_connection s; st_toast := st_toast s; st_announce := st_announce s; st_fatal := st_fatal s;
     st_modal := st_modal s; st_voice := st_voice s; st_vault := vault; st_globalAdmin := admin;
     st_circlesLoading := circles; st_messagesRev := rev; st_storage := storage |}.

Definition nowhere : place := {| at_server := None; at_channel := None |}.

Definition initial : state :=
  {| st_phase := loading; st_me := None; st_servers := []; st_active := nowhere; st_messages := [];
     st_connection := js "connecting"; st_toast := None; st_announce := None; st_fatal := None; st_modal := VNull;
     st_voice := jobj [("active", VNull); ("connections", VObj []); ("presence", VObj [])]%string; st_vault := (VUndef, true);
     st_globalAdmin := false; st_circlesLoading := true; st_messagesRev := 0; st_storage := None |}.

Inductive action :=
| APhase (p : phase)
| AFatal (text : jstr)
| AStorageAtRisk (evicts : val)
| ACirclesLoading (b : bool)
| ABooted (me : jstr) (servers : list server)
| AServers (servers : list server)
| ASelect (p : place)
| AMessages (server channel : jstr) (messages : list line)
| ANewMessage (m : line)
| AConnection (status : jstr)
| AToast (text : option jstr)
| AAnnounce (text : jstr)
| AModal (m : val)
| AVoice (v : val)
| AVault (kind : val) (securedLocal : bool)
| AAdmin (b : bool)
| ARefreshMessages.

(** ** The reducer *)

(** [m.text ?? '']. *)
Definition text_of_line (m : line) : jstr := match ln_body m with LText t => t | _ => [] end.

Definition messageKey (m : line) : jstr :=
  if ln_system m
  then js "s|" ++ ln_sender m ++ js "|" ++ num_to_string (ln_ts m) ++ js "|" ++ text_of_line m
  else js "m|" ++ ln_sender m ++ js "|" ++ num_to_string (ln_ts m).

Definition in_room (server channel : jstr) (m : line) : bool := str_eqb (ln_server m) server && strict_eq (ln_channel m) (VStr channel).

(** The room the pane is for. *)
Definition is_active (p : place) (server channel : jstr) : bool :=
  bool_decide (at_server p = Some server) && bool_decide (at_channel p = Some channel).
Definition chan_val (c : option jstr) : val := match c with Some c => VStr c | None => VNull end.
Definition for_active (p : place) (m : line) : bool :=
  bool_decide (at_server p = Some (ln_server m)) && strict_eq (ln_channel m) (chan_val (at_channel p)).

Definition front_page (servers : list server) : place :=
  match servers with s :: _ => {| at_server := Some (sv_id s); at_channel := None |} | [] => nowhere end.

(** A truthy string. *)
Definition given (o : option jstr) : option jstr := match o with Some s => if is_empty s then None else Some s | None => None end.

Definition settle (a : place) (servers : list server) : place :=
  match given (at_server a) with
  | None => match servers with [] => a | _ => front_page servers end
  | Some id =>
      match find (fun s => str_eqb (sv_id s) id) servers with
      | None => front_page servers
      | Some srv =>
          match given (at_channel a) with
          | Some c => if bool_decide (c ∈ sv_channels srv) then a else {| at_server := at_server a; at_channel := head (sv_channels srv) |}
          | None => a
          end
      end
  end.

Definition place_eqb (a b : place) : bool := bool_decide (at_server a = at_server b) && bool_decide (at_channel a = at_channel b).

(** The snapshot, then the live arrivals it missed, in time order. *)
Definition merged (old : list line) (server channel : jstr) (loaded : list line) : list line :=
  let seen := messageKey <$> loaded in
  in_time_order (loaded ++ filter (fun m => in_room server channel m = true /\ messageKey m ∉ seen) old).

Definition reducer (s : state) (a : action) : state :=
  match a with
  | APhase p => set_phase p s
  | AFatal t => set_phase fatal_ (set_notes (st_connection s) (st_toast s) (st_announce s) (Some t) (st_modal s) (st_voice s) s)
  | AStorageAtRisk e => set_flags (st_vault s) (st_globalAdmin s) (st_circlesLoading s) (st_messagesRev s) (Some e) s
  | ACirclesLoading b => set_flags (st_vault s) (st_globalAdmin s) b (st_messagesRev s) (st_storage s) s
  | ABooted m l => set_phase ready (set_me m (set_servers l (front_page l) s))
  | AServers l => set_servers l (settle (st_active s) l) s
  | ASelect p => set_pane p (if place_eqb (st_active s) p then st_messages s else []) s
  | AMessages srv ch l =>
      if is_active (st_active s) srv ch then set_pane (st_active s) (merged (st_messages s) srv ch l) s else s
  | ANewMessage m =>
      if for_active (st_active s) m then set_pane (st_active s) (in_time_order (st_messages s ++ [m])) s else s
  | AConnection c => set_notes c (st_toast s) (st_announce s) (st_fatal s) (st_modal s) (st_voice s) s
  | AToast t => set_notes (st_connection s) t (st_announce s) (st_fatal s) (st_modal s) (st_voice s) s
  | AAnnounce t => set_notes (st_connection s) (st_toast s) (Some t) (st_fatal s) (st_modal s) (st_voice s) s
  | AModal m => set_notes (st_connection s) (st_toast s) (st_announce s) (st_fatal s) m (st_voice s) s
  | AVoice v => set_notes (st_connection s) (st_toast s) (st_announce s) (st_fatal s) (st_modal s) v s
  | AVault k b => set_flags (k, b) (st_globalAdmin s) (st_circlesLoading s) (st_messagesRev s) (st_storage s) s
  | AAdmin b => set_flags (st_vault s) b (st_circlesLoading s) (st_messagesRev s) (st_storage s) s
  | ARefreshMessages => set_flags (st_vault s) (st_globalAdmin s) (st_circlesLoading s) (st_messagesRev s + 1) (st_storage s) s
  end.

(** ** Where the user is *)

Definition listed (l : list server) (p : place) : Prop := exists srv, srv ∈ l /\ at_server p = Some (sv_id srv) /\
  match given (at_channel p) with Some c => c ∈ sv_channels srv | None => True end.

Lemma front_page_listed l : l <> [] -> listed l (front_page l).
Proof. destruct l as [|srv l]; [done|]. intros _. exists srv. split_and!; [left|done..]. Qed.

Lemma given_Some o s : given o = Some s -> o = Some s.
Proof. destruct o as [t|]; cbn; [|done]. by destruct (is_empty t). Qed.

(** Whenever the circles change, and there is one, the user is in one of
    them, on its front page or in a channel it has; with no circle left, the
    user is nowhere. *)
Theorem nobody_is_stranded s l (p := st_active (reducer s (AServers l))) :
  Forall (fun srv => sv_channels srv <> []) l ->
  (l <> [] -> listed l p) /\ (l = [] -> given (at_server (st_active s)) <> None -> p = nowhere).
Proof.
  intros Hc. unfold p. cbn. unfold settle. destruct (given (at_server (st_active s))) as [id|] eqn:Eg.
  - destruct (find _ l) as [srv|] eqn:Ef.
    + apply List.find_some in Ef as [Hin%list_elem_of_In Hid]. split; [|intros ->; by apply elem_of_nil in Hin]. intros _.
      apply str_eqb_eq in Hid. apply given_Some in Eg.
      destruct (given (at_channel (st_active s))) as [c|] eqn:Ec.
      * case_bool_decide as Hm; exists srv; (split; [done|]); [rewrite Ec, Eg; split; congruence|].
        cbn. split; [congruence|]. rewrite Forall_forall in Hc. specialize (Hc srv Hin). destruct (sv_channels srv) as [|c' r]; [done|].
        cbn. destruct (is_empty c'); [done|left].
      * exists srv. rewrite Ec. split_and!; [done|congruence|done].
    + split; [apply front_page_listed|]. by intros -> _.
  - split; [|done]. destruct l; [done|]. intros _. by apply front_page_listed.
Qed.

(** ** What the pane shows *)

(** Lines of the room the user is in, in time order. *)
Definition shows (s : state) : Prop :=
  Forall (fun m => for_active (st_active s) m = true) (st_messages s) /\
  Forall (fun m => nfinite (ln_ts m) = true) (st_messages s) /\
  StronglySorted time_before (st_messages s).

(** An action as the app makes it: a page holds lines of its room, and every
    line has a time. *)
Definition sensible (a : action) : Prop :=
  match a with
  | AMessages server channel l => Forall (fun m => in_room server channel m = true /\ nfinite (ln_ts m) = true) l
  | ANewMessage m => nfinite (ln_ts m) = true
  | _ => True
  end.

(** The user stays, or goes somewhere; no room is taken away with lines of it
    on screen. *)
Definition unmoved (s : state) (a : action) : Prop :=
  st_active (reducer s a) = st_active s \/ (exists p, a = ASelect p) \/ st_messages s = [].

Inductive reached : state -> Prop :=
| at_first : reached initial
| then_ s a : reached s -> sensible a -> unmoved s a -> reached (reducer s a).

Lemma in_time_order_elem l m : m ∈ in_time_order l <-> m ∈ l.
Proof. unfold in_time_order. by rewrite sort_by_perm. Qed.

Lemma Forall_in_time_order (P : line -> Prop) l : Forall P l -> Forall P (in_time_order l).
Proof. rewrite !Forall_forall. intros H m Hm. apply H. by apply in_time_order_elem. Qed.

Lemma shows_sorted s l : Forall (fun m => for_active (st_active s) m = true /\ nfinite (ln_ts m) = true) l ->
  shows (set_pane (st_active s) (in_time_order l) s).
Proof.
  intros H. apply Forall_and in H as [H1 H2]. split_and!; cbn; [by apply Forall_in_time_order..|]. by apply in_time_order_sorted.
Qed.

Lemma is_active_room p server channel m : is_active p server channel = true -> in_room server channel m = true -> for_active p m = true.
Proof.
  unfold is_active, in_room, for_active. intros [H1%bool_decide_eq_true H2%bool_decide_eq_true]%andb_true_iff [H3 H4]%andb_true_iff.
  apply str_eqb_eq in H3 as ->. rewrite H1, H2. by rewrite bool_decide_eq_true_2.
Qed.

Lemma elem_of_merged old server channel l m : m ∈ merged old server channel l <->
  m ∈ l \/ (m ∈ old /\ in_room server channel m = true /\ messageKey m ∉ (messageKey <$> l)).
Proof. unfold merged. rewrite in_time_order_elem, elem_of_app, list_elem_of_filter. tauto. Qed.

Lemma place_eqb_eq a b : place_eqb a b = true -> a = b.
Proof. unfold place_eqb. destruct a, b; cbn. intros [->%bool_decide_eq_true ->%bool_decide_eq_true]%andb_true_iff. done. Qed.

Lemma shows_step s a : shows s -> sensible a -> unmoved s a -> shows (reducer s a).
Proof.
  intros (H1 & H2 & H3) Ha Hu. destruct a; try done.
  - unfold shows. cbn. destruct Hu as [Hu|[[? [=]]| ->]]; [cbn in Hu; by rewrite Hu|split_and!; constructor].
  - unfold shows. cbn. destruct Hu as [Hu|[[? [=]]| ->]]; [cbn in Hu; by rewrite Hu|split_and!; constructor].
  - cbn. destruct (place_eqb (st_active s) p) eqn:E; [|split_and!; constructor]. by apply place_eqb_eq in E as <-.
  - cbn. destruct (is_active (st_active s) server0 channel) eqn:Ea; [|done]. unfold merged. apply shows_sorted. cbn in Ha.
    apply Forall_app. split.
    + eapply Forall_impl; [exact Ha|]. intros m [Hr Hf]. split; [by eapply is_active_room|done].
    + apply Forall_filter, Forall_and. done.
  - cbn. destruct (for_active (st_active s) m) eqn:Ea; [|done]. apply shows_sorted. rewrite Forall_app, Forall_singleton.
    split; [by apply Forall_and|done].
Qed.

(** C21: However pages and live lines come in while the user moves about, the
    pane shows lines of the room the user is in, in time order, as long as no
    room is taken away under the user. *)
Theorem pane_shows_the_room s : reached s ->
  Forall (fun m => for_active (st_active s) m = true) (st_messages s) /\ StronglySorted time_before (st_messages s).
Proof.
  intros Hr. assert (shows s) as (? & _ & ?); [|done]. induction Hr as [|s a Hr IH Ha Hu]; [split_and!; constructor|]. by apply shows_step.
Qed.

(** A page shows every line it holds and every line of the room that came
    in since, once each way: a line the page has is shown as the page has it. *)
Theorem load_keeps_live_lines s server channel l m :
  is_active (st_active s) server channel = true ->
  m ∈ st_messages (reducer s (AMessages server channel l)) <->
  m ∈ l \/ (m ∈ st_messages s /\ in_room server channel m = true /\ messageKey m ∉ (messageKey <$> l)).
Proof. intros Ha. cbn. rewrite Ha. cbn. apply elem_of_merged. Qed.

(** C22: A line that arrives live while the page of its room is being read, and
    that the page does not have, may come before or after it: the pane shows the
    same lines, in the same order when no two of them are of one instant.  (A
    line the page has is shown twice when it comes after it:
    [live_copy_shown_twice].) *)
Theorem load_and_live_commute s server channel l m
  (live_first := reducer (reducer s (ANewMessage m)) (AMessages server channel l))
  (load_first := reducer (reducer s (AMessages server channel l)) (ANewMessage m)) :
  is_active (st_active s) server channel = true -> in_room server channel m = true -> messageKey m ∉ (messageKey <$> l) ->
  st_messages live_first ≡ₚ st_messages load_first /\
  (told_apart (st_messages live_first) -> st_messages live_first = st_messages load_first).
Proof.
  intros Ha Hr Hk. pose proof (is_active_room _ _ _ m Ha Hr) as Hf. unfold live_first, load_first. cbn. rewrite Ha, Hf. cbn. rewrite Ha. rewrite Hf. cbn.
  unfold merged.
  set (new := fun x : line => in_room server channel x = true /\ messageKey x ∉ (messageKey <$> l)).
  assert (l ++ filter new (in_time_order (st_messages s ++ [m])) ≡ₚ in_time_order (l ++ filter new (st_messages s)) ++ [m]) as Hp.
  { unfold in_time_order. rewrite !sort_by_perm, filter_app. rewrite (filter_cons_True new m []) by done. cbn. by rewrite app_assoc. }
  split; [unfold in_time_order at 1; rewrite sort_by_perm, Hp; unfold in_time_order at 2; by rewrite sort_by_perm|].
  intros [H1 H2]. apply in_time_order_unique; [done|]. split.
  - rewrite Forall_forall in *. intros x Hx. by apply H1, in_time_order_elem.
  - intros a b Ha' Hb. apply H2; by apply in_time_order_elem.
Qed.

(** ** Runs *)

Definition den : server := {| sv_id := js "s1"; sv_channels := [js "general"]; sv_more := [] |}.
Definition attic : server := {| sv_id := js "s2"; sv_channels := [js "loft"]; sv_more := [] |}.
Definition general : place := {| at_server := Some (js "s1"); at_channel := Some (js "general") |}.
Definition said (who : string) (ts : Z) (text : string) : line :=
  {| ln_server := js "s1"; ln_channel := VStr (js "general"); ln_sender := js who; ln_ts := int ts; ln_body := LText (js text);
     ln_reply := None; ln_auth := Some signed; ln_seq := None; ln_local := false; ln_system := false; ln_failed := false; ln_edited := false;
     ln_deleted := false; ln_reacts := None |}.
Definition run (l : list action) : state := fold_left reducer l initial.
Definition opened : list action := [ABooted (js "ana") [den; attic]; ASelect general].

Lemma nobody_is_stranded_witness : listed [attic] (st_active (reducer (run opened) (AServers [attic]))).
Proof. apply nobody_is_stranded; [repeat constructor; discriminate|discriminate]. Defined.

Lemma pane_shows_the_room_witness :
  Forall (fun m => for_active general m = true) (st_messages (run (opened ++ [ANewMessage (said "bo" 2 "hi"); AMessages (js "s1") (js "general") [said "cy" 1 "yo"]]))).
Proof.
  refine (proj1 (pane_shows_the_room (run (opened ++ [ANewMessage (said "bo" 2 "hi"); AMessages (js "s1") (js "general") [said "cy" 1 "yo"]])) _)).
  cbn [run opened app fold_left].
  apply then_; [apply then_; [apply then_; [apply then_; [apply at_first| |]| |]| |]| |]; try exact I.
  - right. right. reflexivity.
  - right. left. by eexists.
  - reflexivity.
  - left. reflexivity.
  - repeat constructor.
  - left. reflexivity.
Defined.

Lemma load_keeps_live_lines_witness :
  said "bo" 2 "hi" ∈ st_messages (reducer (run (opened ++ [ANewMessage (said "bo" 2 "hi")])) (AMessages (js "s1") (js "general") [said "cy" 1 "yo"])).
Proof.
  apply load_keeps_live_lines; [vm_compute; reflexivity|]. right. split_and!; [vm_compute; left|vm_compute; reflexivity|].
  apply (bool_decide_unpack _). vm_compute. exact I.
Defined.

Lemma load_and_live_commute_witness :
  st_messages (reducer (reducer (run opened) (ANewMessage (said "bo" 2 "hi"))) (AMessages (js "s1") (js "general") [said "cy" 1 "yo"])) ≡ₚ
  st_messages (reducer (reducer (run opened) (AMessages (js "s1") (js "general") [said "cy" 1 "yo"])) (ANewMessage (said "bo" 2 "hi"))).
Proof.
  apply load_and_live_commute; [vm_compute; reflexivity..|]. apply (bool_decide_unpack _). vm_compute. exact I.
Defined.

(** A room with one old line; after auto-delete its log renders empty, the page
    is empty, and the line stays on screen. *)
Definition old_log : channel_log := {| base := [(messageId (js "bo") (int 5), said "bo" 5 "old")]; mutations := []; oldest := Some (int 1);
  complete := true; newest := int 1; localSeq := int 10 |}.

Lemma pruned_line_stays_on_screen :
  renderLog old_log = Ok [said "bo" 5 "old"] /\ renderLog (pruneLog old_log (int 100)).1 = Ok [] /\
  st_messages (run (opened ++ [AMessages (js "s1") (js "general") [said "bo" 5 "old"]; ARefreshMessages; AMessages (js "s1") (js "general") []])) =
    [said "bo" 5 "old"].
Proof. split_and!; vm_compute; reflexivity. Qed.

(** A line whose logged copy was read before its live copy arrives is shown
    twice. *)
Lemma live_copy_shown_twice :
  messageKey <$> st_messages (run (opened ++ [AMessages (js "s1") (js "general") [said "bo" 5 "hi"]; ANewMessage (said "bo" 5 "hi")])) =
    [js "m|bo|5"; js "m|bo|5"].
Proof. vm_compute. reflexivity. Qed.

(** The circle is taken away: the lines of its room are shown on the front page
    of another. *)
Lemma lines_outlive_their_room :
  let s := run (opened ++ [AMessages (js "s1") (js "general") [said "bo" 5 "hi"]; AServers [attic]]) in
  at_server (st_active s) = Some (js "s2") /\ st_messages s = [said "bo" 5 "hi"].
Proof. split; vm_compute; reflexivity. Qed.

(** The user opens the list of circles; the next change of any circle puts them
    on the first one. *)
Lemma circles_home_is_left :
  let s := run (opened ++ [ASelect nowhere]) in
  st_active s = nowhere /\ st_active (reducer s (AServers [den; attic])) = front_page [den; attic].
Proof. split; vm_compute; reflexivity. Qed.
End Screen.
