(* ===== verification/Badges.v ===== *)
(** * Verification badges (client/src/lib/controller.js: [markVerified],
      [markMismatch], [revalidateVerified], over trust.js)

    The user compares a safety number with a member and says whether it
    matched; when the members of a circle change, every number on record is
    derived again and what no longer holds is dropped.  Deriving a number is an
    await, so these interleave; [record.verifiedSn] is an object that
    [revalidateVerified] keeps a reference to across its awaits, while the
    other two replace it: objects are cells of a heap. *)

From stdpp Require Import base list numbers option strings sets relations.
From Stdlib Require Import ZArith NArith Lia.
From S2P Require Import Prelude JsNum JsString JsValue Async Circles.
Import Async.Async Circles.Trust.
Open Scope Z_scope.

Module Badges.

(** ** State *)

Record badges := {
  b_heap : list obj;
  b_sn : option nat;  (** [record.verifiedSn] *)
  b_verified : option (list jstr);
  b_mismatched : option obj;
  b_members : option (list jstr);
}.

Definition sn_obj (s : badges) : option obj := b_sn s ≫= (fun r => b_heap s !! r).
Definition trust_of (s : badges) : trust := {| verifiedSn := sn_obj s; verified := b_verified s; mismatched := b_mismatched s |}.

(** The record takes the fields of [r]; [assigned]: [verifiedSn] is a new
    object. *)
Definition put_trust (assigned : bool) (r : trust) (s : badges) : badges :=
  {| b_heap := if assigned then b_heap s ++ [default [] (verifiedSn r)] else b_heap s;
     b_sn := if assigned then Some (length (b_heap s)) else b_sn s;
     b_verified := verified r; b_mismatched := mismatched r; b_members := b_members s |}.

Definition set_heap (h : list obj) (s : badges) : badges :=
  {| b_heap := h; b_sn := b_sn s; b_verified := b_verified s; b_mismatched := b_mismatched s; b_members := b_members s |}.
Definition set_verified (l : list jstr) (s : badges) : badges :=
  {| b_heap := b_heap s; b_sn := b_sn s; b_verified := Some l; b_mismatched := b_mismatched s; b_members := b_members s |}.
Definition set_members (l : option (list jstr)) (s : badges) : badges :=
  {| b_heap := b_heap s; b_sn := b_sn s; b_verified := b_verified s; b_mismatched := b_mismatched s; b_members := l |}.

(** What is awaited: the safety number with a member, which is never empty, or
    the next turn. *)
Inductive op := OSafety (peer : jstr) | OTick.
Definition Res (o : op) : Type := match o with OSafety _ => N * jstr | OTick => unit end.
Definition digits_of (n : N * jstr) : val := VStr (n.1 :: n.2).

Inductive out := Reset | Cleared (peer : jstr) | Spent (peer : jstr) | Persist | Shown.

Notation P := (prog badges out Res).
Definition tick : P unit := Await OTick (fun _ => Ret tt).

(** ** The three actions *)

Definition markVerified (peer : jstr) : P unit :=
  let! sn := await (OSafety peer) in
  modify (fun s => put_trust true (applyVerified (trust_of s) peer (digits_of sn)) s) ;;
  emit Persist ;; tick ;; emit Shown.

Definition markMismatch (peer : jstr) : P unit :=
  let! sn := await (OSafety peer) in
  modify (fun s => put_trust (truthy (held (sn_obj s) peer)) (applyMismatch (trust_of s) peer (digits_of sn)) s) ;;
  emit Persist ;; tick ;; emit Shown.

(** [try { now = await ... } catch { continue }]. *)
Definition try_number (peer : jstr) : P (option val) :=
  catch (let! n := await (OSafety peer) in Ret (Some (digits_of n))) (fun _ => Ret None).

Fixpoint retire_each (l : list jstr) (changed : bool) : P bool :=
  match l with
  | [] => Ret changed
  | peer :: r =>
      let! now := try_number peer in
      match now with
      | None => retire_each r changed
      | Some n =>
          let! gone := gets (fun s => (retireMismatch (trust_of s) peer n).2) in
          if gone : bool
          then modify (fun s => put_trust false (retireMismatch (trust_of s) peer n).1 s) ;; emit (Spent peer) ;; tick ;; retire_each r true
          else retire_each r changed
      end
  end.

Definition is_member (s : badges) (peer : jstr) : bool := match b_members s with Some l => bool_decide (peer ∈ l) | None => false end.

Fixpoint check_each (stored : nat) (l : obj) (changed : bool) : P bool :=
  match l with
  | [] => Ret changed
  | (peer, was) :: r =>
      let! s := gets (fun s => s) in
      if negb (is_member s peer) then check_each stored r changed else
      let! now := try_number peer in
      match now with
      | None => check_each stored r changed
      | Some n =>
          if strict_eq n was then check_each stored r changed else
          modify (fun s => set_heap (alter (fun o => obj_delete o peer) stored (b_heap s)) s) ;;
          emit (Cleared peer) ;; tick ;; check_each stored r true
      end
  end.

Definition revalidateVerified : P bool :=
  let! s := gets (fun s => s) in
  match b_sn s, b_verified s with
  | None, Some (_ :: _) =>
      modify (fun s => put_trust true {| verifiedSn := Some []; verified := Some []; mismatched := b_mismatched s |} s) ;;
      emit Reset ;; tick ;; Ret true
  | _, _ =>
      let! changed := retire_each (obj_keys (default [] (b_mismatched s))) false in
      let! s := gets (fun s => s) in
      match b_sn s with
      | None => Ret changed
      | Some stored =>
          match default [] (b_heap s !! stored) with
          | [] => Ret changed
          | entries =>
              let! changed := check_each stored entries changed in
              (if changed : bool then modify (fun s => set_verified (obj_keys (default [] (b_heap s !! stored))) s) else Ret tt) ;;
              Ret changed
          end
      end
  end.

(** ** Never both, however they interleave *)

Inductive starts : P unit -> Prop :=
| st_verified peer : starts (markVerified peer)
| st_mismatch peer : starts (markMismatch peer)
| st_revalidate : starts (let! _ := revalidateVerified in Ret tt).

(** Members come and go meanwhile. *)
Definition roster_moves (s s' : badges) : Prop := exists l, s' = set_members l s.

Record apart (s : badges) : Prop := {
  ap_ref : forall r, b_sn s = Some r -> (r < length (b_heap s))%nat;
  ap_numbers : Forall (fun o => numbered (Some o)) (b_heap s);
  ap_mismatched : numbered (b_mismatched s);
  ap_never_both : forall p, p ∈ peers (sn_obj s) -> p ∉ peers (b_mismatched s);
}.

Notation keeps := (good (Out := out) (Res := Res) apart (fun _ => apart)).

Lemma numbered_sn s : apart s -> numbered (sn_obj s).
Proof.
  intros [_ H _ _]. unfold sn_obj. destruct (b_sn s) as [r|]; [|constructor]. cbn. destruct (b_heap s !! r) as [o|] eqn:E; [|constructor].
  rewrite Forall_forall in H. by apply (H o), (list_elem_of_lookup_2 _ r).
Qed.

(** The rules of trust.js do not look at the list of badges. *)
Definition with_list (r : trust) : trust := {| verifiedSn := verifiedSn r; verified := Some (peers (verifiedSn r)); mismatched := mismatched r |}.

Lemma apart_exclusive s : apart s -> exclusive (with_list (trust_of s)).
Proof. intros Hs. split_and!; [apply (ap_never_both _ Hs)|done|by apply numbered_sn|apply (ap_mismatched _ Hs)]. Qed.

Lemma sn_obj_put assigned r s : apart s -> sn_obj (put_trust assigned r s) = if assigned then Some (default [] (verifiedSn r)) else sn_obj s.
Proof.
  intros Hs. unfold sn_obj, put_trust. destruct assigned; cbn; [|done]. by rewrite list_lookup_middle.
Qed.

Lemma apart_put assigned r s : apart s -> exclusive (with_list r) -> (assigned = false -> verifiedSn r = sn_obj s) -> apart (put_trust assigned r s).
Proof.
  intros Hs (Hx & _ & Hn & Hm) Ha. pose proof (sn_obj_put assigned r s Hs) as Eo. cbn in Hx, Hn, Hm. split.
  - unfold put_trust. destruct assigned; cbn; [|apply (ap_ref _ Hs)]. intros q [= <-]. rewrite length_app. cbn. lia.
  - unfold put_trust. destruct assigned; cbn; [|apply (ap_numbers _ Hs)]. apply Forall_app. split; [apply (ap_numbers _ Hs)|].
    apply Forall_singleton. unfold numbered in *. by destruct (verifiedSn r).
  - exact Hm.
  - intros p. rewrite Eo. cbn [put_trust b_mismatched]. destruct assigned; [|rewrite <- Ha by done; apply Hx].
    specialize (Hx p). unfold peers in *. destruct (verifiedSn r); exact Hx.
Qed.

Lemma apart_heap f stored s : (forall o, sublist (f o) o) -> apart s -> apart (set_heap (alter f stored (b_heap s)) s).
Proof.
  intros Hf [H1 H2 H3 H4].
  assert (forall o, numbered (Some o) -> numbered (Some (f o))) as Hn.
  { unfold numbered. cbn. intros o. rewrite !Forall_forall. intros Ho kv Hin. apply Ho. by eapply elem_of_sublist. }
  split; cbn; [intros r; rewrite length_alter; apply H1|apply Forall_alter; [done|]; intros o _; apply Hn|done|].
  intros p. unfold sn_obj. cbn. destruct (b_sn s) as [r|] eqn:Er; [|by intros ?%elem_of_nil]. cbn. unfold sn_obj in H4. rewrite Er in H4. cbn in H4.
  destruct (decide (stored = r)) as [->|Hne]; [|rewrite list_lookup_alter_ne by done; apply H4].
  rewrite list_lookup_alter_eq. destruct (b_heap s !! r) as [o|]; [|apply H4]. cbn in *. intros Hp. apply H4.
  unfold peers, obj_keys in *. cbn in *. apply list_elem_of_fmap in Hp as (kv & -> & Hin). apply list_elem_of_fmap_2. by eapply elem_of_sublist.
Qed.

Lemma keeps_put f g : (forall s, apart s -> exclusive (with_list (g s)) /\ (f s = false -> verifiedSn (g s) = sn_obj s)) ->
  keeps (modify (fun s => put_trust (f s) (g s) s)).
Proof. intros H. apply good_modify. intros _ s Hs. destruct (H s Hs). by apply apart_put. Qed.

Lemma keeps_tick : keeps tick.
Proof. apply spec_await; [done..|]. intros x. apply good_ret. Qed.

Lemma with_list_step r r' r'' : compares (with_list r) r' -> with_list r' = with_list r'' -> exclusive (with_list r) -> exclusive (with_list r'').
Proof. intros Hc <- Hx. pose proof (compares_exclusive _ _ Hx Hc) as (H1 & H2 & H3 & H4). by split_and!. Qed.

Lemma keeps_markVerified peer : keeps (markVerified peer).
Proof.
  apply good_bind; [by apply good_await|]. intros sn. apply good_bind.
  - apply (keeps_put (fun _ => true) (fun s => applyVerified (trust_of s) peer (digits_of sn))). intros s Hs. split; [|done].
    eapply with_list_step; [apply (compares_right _ peer (sn.1 :: sn.2)); done|done|by apply apart_exclusive].
  - intros _. apply good_bind; [apply good_emit|intros _]. apply good_bind; [apply keeps_tick|intros _]. apply good_emit.
Qed.

Lemma keeps_markMismatch peer : keeps (markMismatch peer).
Proof.
  apply good_bind; [by apply good_await|]. intros sn. apply good_bind.
  - apply (keeps_put (fun s => truthy (held (sn_obj s) peer)) (fun s => applyMismatch (trust_of s) peer (digits_of sn))). intros s Hs. split.
    + eapply with_list_step; [apply (compares_wrong _ peer (sn.1 :: sn.2)); done| |by apply apart_exclusive].
      unfold applyMismatch. cbn [with_list trust_of verifiedSn]. by destruct (truthy _).
    + intros Ht. unfold applyMismatch. cbn [trust_of verifiedSn]. by rewrite Ht.
  - intros _. apply good_bind; [apply good_emit|intros _]. apply good_bind; [apply keeps_tick|intros _]. apply good_emit.
Qed.

Lemma keeps_try peer : keeps (try_number peer).
Proof. apply good_catch; [apply good_bind; [by apply good_await|intros; apply good_ret]|intros; apply good_ret]. Qed.

Lemma keeps_retire_each l changed : keeps (retire_each l changed).
Proof.
  revert changed. induction l as [|peer l IH]; intros changed; [apply good_ret|]. cbn [retire_each]. apply good_bind; [apply keeps_try|].
  intros [n|]; [|apply IH]. apply good_bind; [apply good_gets|]. intros [|]; [|apply IH]. apply good_bind.
  - apply (keeps_put (fun _ => false) (fun s => (retireMismatch (trust_of s) peer n).1)). intros s Hs. split.
    + unfold retireMismatch. destruct (apart_exclusive s Hs) as (H1 & _ & H3 & H4).
      destruct (truthy _); cbn [negb]; [|by split_and!]. destruct (strict_eq _ _); [by split_and!|]. cbn. cbn in H1, H3, H4.
      unfold numbered, peers in *. destruct (b_mismatched s) as [o|]; [|by split_and!]. cbn in *. split_and!; [|done..|].
      * intros p Hp Hin. apply (H1 p Hp). rewrite delete_without in Hin. unfold without in Hin.
        apply list_elem_of_fmap in Hin as (kv & -> & [_ Hin]%list_elem_of_filter). by apply list_elem_of_fmap_2.
      * rewrite delete_without. by apply Forall_filter.
    + intros _. unfold retireMismatch. destruct (truthy _); cbn [negb]; [|done]. by destruct (strict_eq _ _).
  - intros _. apply good_bind; [apply good_emit|intros _]. apply good_bind; [apply keeps_tick|intros _]. apply IH.
Qed.

Lemma delete_sublist_of (o : obj) p : sublist (obj_delete o p) o.
Proof. rewrite delete_without. apply sublist_filter. Qed.

Lemma keeps_check_each stored l changed : keeps (check_each stored l changed).
Proof.
  revert changed. induction l as [|[peer was] l IH]; intros changed; [apply good_ret|]. cbn [check_each].
  apply good_bind; [apply good_gets|]. intros s. destruct (negb _); [apply IH|]. apply good_bind; [apply keeps_try|].
  intros [n|]; [|apply IH]. destruct (strict_eq n was); [apply IH|]. apply good_bind.
  - apply good_modify. intros _ s'. apply apart_heap. intros o. apply delete_sublist_of.
  - intros _. apply good_bind; [apply good_emit|intros _]. apply good_bind; [apply keeps_tick|intros _]. apply IH.
Qed.

Lemma keeps_revalidate : keeps revalidateVerified.
Proof.
  apply good_bind; [apply good_gets|]. intros s.
  assert (keeps (let! changed := retire_each (obj_keys (default [] (b_mismatched s))) false in
    let! s := gets (fun s => s) in
    match b_sn s with
    | None => Ret changed
    | Some stored =>
        match default [] (b_heap s !! stored) with
        | [] => Ret changed
        | entries =>
            let! changed := check_each stored entries changed in
            (if changed : bool then modify (fun s => set_verified (obj_keys (default [] (b_heap s !! stored))) s) else Ret tt) ;; Ret changed
        end
    end)) as H.
  { apply good_bind; [apply keeps_retire_each|]. intros changed. apply good_bind; [apply good_gets|]. intros s1.
    destruct (b_sn s1) as [stored|]; [|apply good_ret]. destruct (default [] _) as [|e es]; [apply good_ret|].
    apply good_bind; [apply keeps_check_each|]. intros c. apply good_bind; [|intros; apply good_ret].
    destruct c; [|apply good_ret]. apply good_modify. intros _ s2 [H1 H2 H3 H4]. by split. }
  destruct (b_sn s); [exact H|]. destruct (b_verified s) as [[|]|]; [exact H| |exact H].
  apply good_bind; [apply (keeps_put (fun _ => true) (fun s => {| verifiedSn := Some []; verified := Some []; mismatched := b_mismatched s |}))|].
  - intros s' Hs. split; [|done]. split_and!; cbn; [by intros p ?%elem_of_nil|done|constructor|apply (ap_mismatched _ Hs)].
  - intros _. apply good_bind; [apply good_emit|intros _]. apply good_bind; [apply keeps_tick|intros _]. apply good_ret.
Qed.

Definition fresh_badges (members : option (list jstr)) : badges :=
  {| b_heap := []; b_sn := None; b_verified := None; b_mismatched := None; b_members := members |}.

(** However comparisons, key checks and changes of members overlap at the
    derivation of numbers, no member has both an accepted and a rejected
    number on record. *)
Theorem never_both_numbers members s w :
  rtc (pool_step starts roster_moves) (Pool (fresh_badges members) []) (Pool s w) ->
  forall p, p ∈ peers (sn_obj s) -> p ∉ peers (b_mismatched s).
Proof.
  intros Hr. assert (pool_ok apart (fun _ => apart) (Pool s w)) as [Hok _]; [|apply (ap_never_both _ Hok)].
  eapply pool_keeps; [| | |exact Hr|].
  - done.
  - intros s1 s2 [l ->] [H1 H2 H3 H4]. by split.
  - intros q Hq. apply good_handles; [done|]. destruct Hq; [apply keeps_markVerified|apply keeps_markMismatch|].
    apply good_bind; [apply keeps_revalidate|intros; apply good_ret].
  - split; [|constructor]. split; cbn; [done|constructor|constructor|by intros p ?%elem_of_nil].
Qed.

(** ** A key check by itself *)

Section alone.
Context (ans : forall o, res (Res o)).

(** The number with a member now, if it can be derived. *)
Definition asked (p : jstr) : option val := match ans (OSafety p) with Ok n => Some (digits_of n) | Throw _ => None end.

Lemma finish_try p s : finish ans (try_number p) s = (s, [], Ok (asked p)).
Proof. unfold try_number, asked. cbn. by destruct (ans (OSafety p)). Qed.

Definition deletes (l : list jstr) (o : obj) : obj := fold_left (fun o p => obj_delete o p) l o.

Lemma obj_get_deletes l o k : obj_get (deletes l o) k = if bool_decide (k ∈ l) then None else obj_get o k.
Proof.
  revert o. induction l as [|p l IH]; intros o; cbn [deletes fold_left]; [done|]. unfold deletes in IH. rewrite IH, obj_get_delete.
  destruct (decide (k ∈ l)); [by rewrite !bool_decide_eq_true_2 by set_solver|]. rewrite bool_decide_eq_false_2 by done.
  destruct (str_eqb p k) eqn:E; [apply str_eqb_eq in E as ->; by rewrite bool_decide_eq_true_2 by set_solver|].
  apply str_eqb_neq in E. rewrite bool_decide_eq_false_2; [done|]. set_solver.
Qed.

Lemma keys_deletes l o k : k ∈ obj_keys (deletes l o) <-> k ∈ obj_keys o /\ k ∉ l.
Proof.
  assert (forall o : obj, k ∈ obj_keys o <-> obj_get o k <> None) as H by (intros o'; pose proof (obj_get_None o' k) as E; destruct (decide (k ∈ obj_keys o')); naive_solver).
  rewrite !H, obj_get_deletes. case_bool_decide; naive_solver.
Qed.

(** *** The numbers on record *)

Definition stale (s : badges) (e : jstr * val) : bool :=
  is_member s e.1 && match asked e.1 with Some n => negb (strict_eq n e.2) | None => false end.
Definition stale_peers (s : badges) (l : obj) : list jstr := (filter (fun e => stale s e = true) l).*1.

Lemma alter_twice {A} (f g : A -> A) i (l : list A) : alter f i (alter g i l) = alter (fun x => f (g x)) i l.
Proof. revert i. induction l as [|x l IH]; intros [|i]; cbn; [done..|]. f_equal. apply IH. Qed.
Lemma alter_same {A} i (l : list A) : alter (fun x => x) i l = l.
Proof. revert i. induction l as [|x l IH]; intros [|i]; cbn; [done..|]. f_equal. apply IH. Qed.

Lemma set_heap_same s : set_heap (b_heap s) s = s.
Proof. by destruct s. Qed.

Lemma stale_peers_cons s e l : stale_peers s (e :: l) = if stale s e then e.1 :: stale_peers s l else stale_peers s l.
Proof. unfold stale_peers. rewrite filter_cons. destruct (stale s e) eqn:E; [by rewrite decide_True|]. by rewrite decide_False by congruence. Qed.

Lemma finish_check stored l c s : finish ans (check_each stored l c) s =
  (set_heap (alter (deletes (stale_peers s l)) stored (b_heap s)) s, Cleared <$> stale_peers s l, Ok (c || negb (bool_decide (stale_peers s l = [])))).
Proof.
  revert c s. induction l as [|[peer was] l IH]; intros c s.
  - cbn. by rewrite (alter_same stored), set_heap_same, orb_false_r.
  - cbn [check_each]. rewrite finish_bind, stale_peers_cons. cbn [finish gets].
    replace (stale s (peer, was)) with (is_member s peer && match asked peer with Some n => negb (strict_eq n was) | None => false end) by reflexivity.
    destruct (is_member s peer); cbn [negb andb]; [|by rewrite IH].
    rewrite finish_bind, finish_try. destruct (asked peer) as [n|]; [|by rewrite IH].
    destruct (strict_eq n was); cbn [negb]; [by rewrite IH|].
    rewrite finish_bind. cbn -[check_each stale_peers]. rewrite IH. cbn -[stale_peers].
    f_equal; [f_equal|by rewrite orb_true_r]. unfold set_heap. cbn -[stale_peers]. rewrite alter_twice. done.
Qed.

(** *** The rejected numbers *)

Definition spent (m : option obj) (p : jstr) : bool :=
  match asked p with Some n => truthy (held m p) && negb (strict_eq (held m p) n) | None => false end.
Definition spent_peers (m : option obj) (l : list jstr) : list jstr := filter (fun p => spent m p = true) l.
Definition put_mismatched (m : option obj) (s : badges) : badges :=
  {| b_heap := b_heap s; b_sn := b_sn s; b_verified := b_verified s; b_mismatched := m; b_members := b_members s |}.

Lemma spent_other m p q : p <> q -> spent ((fun o => obj_delete o p) <$> m) q = spent m q.
Proof.
  intros Hn. unfold spent. assert (held ((fun o => obj_delete o p) <$> m) q = held m q) as ->; [|done].
  destruct m as [o|]; [|done]. cbn. rewrite obj_get_delete, (proj2 (str_eqb_neq _ _)) by done. done.
Qed.

Lemma spent_peers_cons m p l : spent_peers m (p :: l) = if spent m p then p :: spent_peers m l else spent_peers m l.
Proof. unfold spent_peers. rewrite filter_cons. destruct (spent m p) eqn:E; [by rewrite decide_True|]. by rewrite decide_False by congruence. Qed.

Lemma spent_peers_same m p l : p ∉ l -> spent_peers ((fun o => obj_delete o p) <$> m) l = spent_peers m l.
Proof.
  induction l as [|q l IH]; [done|]. intros [Hn Hl]%not_elem_of_cons. rewrite !spent_peers_cons, spent_other, IH by done. done.
Qed.

Lemma finish_retire l c s : NoDup l -> finish ans (retire_each l c) s =
  (put_mismatched (deletes (spent_peers (b_mismatched s) l) <$> b_mismatched s) s, Spent <$> spent_peers (b_mismatched s) l,
   Ok (c || negb (bool_decide (spent_peers (b_mismatched s) l = [])))).
Proof.
  intros Hn. revert c s. induction Hn as [|peer l Hp Hn IH]; intros c s.
  - cbn. rewrite orb_false_r. destruct s as [h r v [m|] ms]; reflexivity.
  - cbn [retire_each]. rewrite finish_bind, finish_try, spent_peers_cons. unfold spent.
    destruct (asked peer) as [n|]; [|by rewrite IH].
    rewrite finish_bind. cbn [finish gets]. unfold retireMismatch at 1. cbn [trust_of mismatched].
    destruct (truthy (held (b_mismatched s) peer)) eqn:Et; cbn [negb andb snd]; [|by rewrite IH].
    destruct (strict_eq _ n) eqn:Es; cbn [negb andb snd]; [by rewrite IH|].
    rewrite finish_bind. cbn -[retire_each]. rewrite IH. unfold put_trust, retireMismatch. cbn [trust_of mismatched]. rewrite Et, Es. cbn -[spent_peers].
    rewrite spent_peers_same by done.
    f_equal; [f_equal|by rewrite orb_true_r]. unfold put_mismatched. cbn. by destruct (b_mismatched s).
Qed.

Lemma peers_deletes l m p : p ∈ peers (deletes l <$> m) <-> p ∈ peers m /\ p ∉ l.
Proof. destruct m as [o|]; [apply keys_deletes|]. split; [by intros ?%elem_of_nil|by intros [?%elem_of_nil _]]. Qed.

(** A record as the actions leave it when none overlaps another. *)
Record in_step (s : badges) : Prop := {
  is_list : default [] (b_verified s) = peers (sn_obj s);
  is_ref : forall r, b_sn s = Some r -> is_Some (b_heap s !! r);
  is_keys : NoDup (peers (sn_obj s));
  is_mismatched : NoDup (peers (b_mismatched s));
  is_numbered : numbered (b_mismatched s);
}.

Lemma elem_of_stale s o p : NoDup (obj_keys o) ->
  p ∈ stale_peers s o <-> exists v, obj_get o p = Some v /\ stale s (p, v) = true.
Proof.
  intros Hn. unfold stale_peers. rewrite list_elem_of_fmap. split.
  - intros ([q v] & -> & [Hs Hin]%list_elem_of_filter). exists v. split; [by apply obj_get_NoDup|done].
  - intros (v & Hg & Hs). exists (p, v). split; [done|]. apply list_elem_of_filter. split; [done|]. by apply obj_get_elem.
Qed.

Lemma held_key o p v : obj_get o p = Some v -> held (Some o) p = v.
Proof. cbn. by intros ->. Qed.

Lemma asked_text p n : asked p = Some n -> exists t, n = VStr t.
Proof. unfold asked. destruct (ans _) as [d|]; [|done]. intros [= <-]. by eexists. Qed.

Lemma not_stale s o p v : obj_get o p = Some v ->
  stale s (p, v) = false <-> (is_member s p = true -> forall n, asked p = Some n -> held (Some o) p = n).
Proof.
  intros Hg. rewrite (held_key _ _ _ Hg). unfold stale. cbn. destruct (is_member s p); cbn; [|done].
  destruct (asked p) as [n|] eqn:En; [|naive_solver]. destruct (asked_text p n En) as [t ->]. rewrite negb_false_iff, strict_eq_str. naive_solver.
Qed.

Lemma elem_of_spent m p : numbered m -> p ∈ peers m -> p ∉ spent_peers m (peers m) <-> (forall n, asked p = Some n -> held m p = n).
Proof.
  intros Hn Hp. unfold spent_peers. rewrite list_elem_of_filter. unfold spent. rewrite (held_truthy m p Hn Hp). cbn.
  destruct (asked p) as [n|] eqn:En; [|naive_solver]. destruct (asked_text p n En) as [t ->].
  assert (strict_eq (held m p) (VStr t) = true <-> held m p = VStr t) as H.
  { split; [apply strict_eq_eq|]. intros ->. cbn. apply str_eqb_refl. }
  destruct (strict_eq (held m p) (VStr t)); cbn; naive_solver.
Qed.

Lemma revalidate_runs s (m' := deletes (spent_peers (b_mismatched s) (peers (b_mismatched s))) <$> b_mismatched s)
  (c := negb (bool_decide (spent_peers (b_mismatched s) (peers (b_mismatched s)) = []))) (o := default [] (sn_obj s)) :
  in_step s ->
  finish ans revalidateVerified s =
  match b_sn s with
  | None => (put_mismatched m' s, Spent <$> spent_peers (b_mismatched s) (peers (b_mismatched s)), Ok c)
  | Some r =>
      let st := stale_peers s o in
      let t := set_heap (alter (deletes st) r (b_heap s)) (put_mismatched m' s) in
      let c' := c || negb (bool_decide (st = [])) in
      (if c' && negb (bool_decide (o = [])) then set_verified (obj_keys (deletes st o)) t else t,
       (Spent <$> spent_peers (b_mismatched s) (peers (b_mismatched s))) ++ (Cleared <$> st), Ok c')
  end.
Proof.
  intros [Hl Hr Hk Hm Hn]. unfold revalidateVerified. rewrite finish_bind. cbn [finish gets].
  assert (match b_sn s, b_verified s with None, Some (_ :: _) => False | _, _ => True end) as Hnot.
  { destruct (b_sn s) eqn:Er; [done|]. unfold sn_obj in Hl. rewrite Er in Hl. by destruct (b_verified s) as [[|]|]. }
  assert (forall p : P bool, finish ans (match b_sn s, b_verified s with None, Some (_ :: _) =>
      modify (fun s => put_trust true {| verifiedSn := Some []; verified := Some []; mismatched := b_mismatched s |} s) ;; emit Reset ;; tick ;; Ret true
    | _, _ => p end) s = finish ans p s) as -> by (intros p; destruct (b_sn s); [done|]; by destruct (b_verified s) as [[|]|]).
  rewrite finish_bind, (finish_retire _ _ _ Hm). cbn [orb]. fold (peers (b_mismatched s)). fold m'. rewrite finish_bind. cbn [finish gets].
  cbn [put_mismatched b_sn b_heap]. destruct (b_sn s) as [r|] eqn:Er; [|cbn; by rewrite ?app_nil_r].
  destruct (Hr r eq_refl) as [o' Eo]. assert (o = o') as <- by (unfold o, sn_obj; rewrite Er; cbn; by rewrite Eo). rewrite Eo. cbn [default from_option id].
  destruct o as [|e l] eqn:Eol.
  - cbn. rewrite app_nil_r, (alter_same r), orb_false_r, andb_false_r. done.
  - rewrite <- Eol. rewrite finish_bind, finish_check. cbn zeta. rewrite finish_bind.
    assert (stale_peers (put_mismatched m' s) o = stale_peers s o) as -> by done.
    fold c. replace (bool_decide (o = [])) with false by (rewrite Eol; reflexivity). rewrite andb_true_r.
    destruct (c || _); cbn -[stale_peers]; rewrite ?app_nil_r; [|done].
    rewrite list_lookup_alter_eq, Eo. cbn -[stale_peers]. by rewrite Eol.
Qed.

(** Badges from before numbers were kept: names, and no object of numbers. *)
Definition legacy (s : badges) : bool := match b_sn s, b_verified s with None, Some (_ :: _) => true | _, _ => false end.

Lemma legacy_reset s : legacy s = true ->
  let s' := (finish ans revalidateVerified s).1.1 in
  b_verified s' = Some [] /\ peers (sn_obj s') = [] /\ b_mismatched s' = b_mismatched s /\ (finish ans revalidateVerified s).1.2 = [Reset].
Proof.
  unfold legacy, revalidateVerified. rewrite finish_bind. cbn [finish gets fst snd]. destruct (b_sn s) as [r|] eqn:Er; [done|].
  destruct (b_verified s) as [[|x l]|] eqn:Ev; [done| |done]. intros _. cbn. split_and!; try done.
  unfold sn_obj. cbn. by rewrite list_lookup_middle.
Qed.

(** C37: A key check that runs by itself on a record whose list of badges is the
    list of its numbers leaves exactly the badges whose number still holds: a
    member keeps theirs unless a number can be derived now and differs from the
    one that was compared, everybody who loses one is named in the room, the
    list of badges is again the list of numbers, and a rejected number is
    dropped exactly when the key it was about is gone.  On a record from before
    numbers were kept (badges, and no numbers) it drops all badges with one
    notice that names nobody and leaves the rejected numbers for the next
    check.  A record whose two lists differ otherwise, as one check overlapping
    a comparison can leave it, is in neither case. *)
Theorem badges_follow_keys s (s' := (finish ans revalidateVerified s).1.1) (outs := (finish ans revalidateVerified s).1.2) :
  (legacy s = true ->
     b_verified s' = Some [] /\ peers (sn_obj s') = [] /\ b_mismatched s' = b_mismatched s /\ outs = [Reset]) /\
  (in_step s ->
     (forall p, p ∈ default [] (b_verified s') <->
        p ∈ default [] (b_verified s) /\ (is_member s p = true -> forall n, asked p = Some n -> held (sn_obj s) p = n)) /\
     default [] (b_verified s') = peers (sn_obj s') /\
     (forall p, Cleared p ∈ outs <-> p ∈ default [] (b_verified s) /\ p ∉ default [] (b_verified s')) /\
     (forall p, p ∈ peers (b_mismatched s') <-> p ∈ peers (b_mismatched s) /\ forall n, asked p = Some n -> held (b_mismatched s) p = n)).
Proof.
  split; [unfold s', outs; apply legacy_reset|].
  intros Hs. pose proof (revalidate_runs s Hs) as Hrun. destruct Hs as [Hl Hr Hk Hm Hn].
  set (m' := deletes (spent_peers (b_mismatched s) (peers (b_mismatched s))) <$> b_mismatched s) in *.
  assert (forall p, p ∈ peers m' <-> p ∈ peers (b_mismatched s) /\ forall n, asked p = Some n -> held (b_mismatched s) p = n) as Hm'.
  { intros p. unfold m'. rewrite peers_deletes. destruct (decide (p ∈ peers (b_mismatched s))) as [Hp|Hp]; [|naive_solver].
    by rewrite (elem_of_spent _ p Hn Hp). }
  set (o := default [] (sn_obj s)) in *. assert (peers (sn_obj s) = obj_keys o) as Eo by done. rewrite Eo in Hl, Hk. clear Eo.
  assert (forall r o', b_sn s = Some r -> b_heap s !! r = Some o' -> o = o') as Ho.
  { intros r o' H1 H2. unfold o, sn_obj. rewrite H1. cbn. by rewrite H2. }
  assert (b_sn s = None -> o = []) as Ho'. { intros H1. unfold o, sn_obj. by rewrite H1. }
  assert (forall p v, obj_get o p = Some v -> held (sn_obj s) p = v) as Hh.
  { intros p v. unfold o. destruct (sn_obj s); [apply held_key|done]. }
  clearbody o. set (st := stale_peers s o) in *.
  assert (b_mismatched s' = m' /\ (forall p, Cleared p ∈ outs <-> p ∈ st) /\
    default [] (b_verified s') = obj_keys (deletes st o) /\ peers (sn_obj s') = obj_keys (deletes st o)) as (E1 & E2 & E3 & E4).
  { unfold s', outs. rewrite Hrun. clear Hrun. destruct (b_sn s) as [r|] eqn:Er.
    - destruct (Hr r eq_refl) as [o' Eo]. pose proof (Ho r o' eq_refl Eo) as <-. cbn zeta. fold st.
      assert (forall t, b_sn t = Some r -> b_heap t = alter (deletes st) r (b_heap s) -> peers (sn_obj t) = obj_keys (deletes st o)) as Hsn.
      { intros t H1 H2. unfold sn_obj. rewrite H1, H2. cbn. by rewrite list_lookup_alter_eq, Eo. }
      split_and!.
      + by destruct (_ && _).
      + intros p. cbn [fst snd]. rewrite elem_of_app, !list_elem_of_fmap. naive_solver.
      + destruct (bool_decide (o = [])) eqn:E0.
        * apply bool_decide_eq_true in E0. rewrite andb_false_r. cbn. rewrite Hl. unfold st. by rewrite E0.
        * rewrite andb_true_r. destruct (bool_decide (st = [])) eqn:Est; [|by rewrite orb_true_r].
          apply bool_decide_eq_true in Est. rewrite Est, orb_false_r. destruct (negb _); [done|]. cbn. by rewrite Hl.
      + destruct (_ && _); by apply Hsn.
    - specialize (Ho' eq_refl). subst o. split_and!; [done| |exact Hl|].
      + intros p. cbn. rewrite list_elem_of_fmap. split; [by intros (? & ? & _)|by intros ?%elem_of_nil].
      + cbn. unfold sn_obj. cbn. by rewrite Er. }
  assert (forall p, p ∈ obj_keys o -> p ∉ st <-> (is_member s p = true -> forall n, asked p = Some n -> held (sn_obj s) p = n)) as Hst.
  { intros p Hp. destruct (obj_get o p) as [v|] eqn:Eg; [|by apply obj_get_None in Eg]. rewrite (Hh p v Eg), <- (held_key o p v Eg), <- (not_stale s o p v Eg).
    unfold st. rewrite elem_of_stale by done. split; [|intros Hf (v0 & H1 & H2); congruence].
    intros H. destruct (stale s (p, v)) eqn:E; [|done]. exfalso. eauto. }
  split_and!.
  - intros p. rewrite E3, Hl, keys_deletes. split; intros [Hp H]; (split; [done|]); by apply Hst.
  - by rewrite E3, E4.
  - intros p. rewrite E2, E3, Hl, keys_deletes. split; [|intros [Hp Hn']; destruct (decide (p ∈ st)); [done|]; by destruct Hn'].
    intros Hp. split; [|by intros [_ ?]]. unfold st in Hp. apply elem_of_stale in Hp as (v & Hg & _); [|done].
    apply obj_get_elem in Hg. unfold obj_keys. by apply (list_elem_of_fmap_2 fst _ _ Hg).
  - by rewrite E1.
Qed.
End alone.

(** ** Runs *)

Definition bo : jstr := js "bo".
Definition cy : jstr := js "cy".

(** Everybody has the number [1] until their key changes. *)
Definition numbers (changed : list jstr) (o : op) : res (Res o) :=
  match o with OSafety p => Ok (if bool_decide (p ∈ changed) then 50%N else 49%N, []) | OTick => Ok tt end.

Definition both : list jstr := [bo; cy].

(** Two members verified, before any key changed. *)
Definition two_badges : badges :=
  {| b_heap := [[(bo, VStr (js "1"))]; [(bo, VStr (js "1")); (cy, VStr (js "1"))]]; b_sn := Some 1%nat; b_verified := Some both;
     b_mismatched := None; b_members := Some both |}.

Lemma badges_follow_keys_witness :
  bo ∉ default [] (b_verified (finish (numbers [bo]) revalidateVerified two_badges).1.1) /\
  cy ∈ default [] (b_verified (finish (numbers [bo]) revalidateVerified two_badges).1.1).
Proof.
  assert (in_step two_badges) as Hs.
  { split; [reflexivity|intros r [= <-]; eexists; reflexivity|apply (bool_decide_unpack _); vm_compute; exact I|constructor|constructor]. }
  destruct (proj2 (badges_follow_keys (numbers [bo]) two_badges) Hs) as (H & _). split.
  - rewrite H. intros [_ Hb]. specialize (Hb eq_refl (VStr (js "2")) eq_refl). vm_compute in Hb. discriminate Hb.
  - apply H. split; [right; left|]. intros _ n Hn. vm_compute in Hn. injection Hn as <-. vm_compute. reflexivity.
Defined.

Definition play_badges (acts : list (@act badges out op Res)) : pool badges out Res := play acts (Pool (fresh_badges (Some both)) []).

Lemma never_both_numbers_witness :
  bo ∉ peers (b_mismatched (pl_state (play_badges [Begin (markVerified bo); Answer 0 (numbers [])]))).
Proof.
  refine (never_both_numbers (Some both) _ (pl_waiting (play_badges [Begin (markVerified bo); Answer 0 (numbers [])])) _ bo _).
  - apply (play_steps starts roster_moves [Begin (markVerified bo); Answer 0 (numbers [])]). repeat constructor.
  - apply (bool_decide_unpack _). vm_compute. exact I.
Defined.

(** Both are verified.  A key check is on its way when the user finds a mismatch
    with [cy]; the check then clears [bo], whose key changed, and writes the
    list of badges from the object it holds: [cy] has a rejected number and a
    badge. *)
Definition overlap : list (@act badges out op Res) :=
  [Begin (markVerified bo); Answer 0 (numbers []); Answer 0 (numbers []);
   Begin (markVerified cy); Answer 0 (numbers []); Answer 0 (numbers []);
   Begin (let! _ := revalidateVerified in Ret tt);
   Begin (markMismatch cy); Answer 1 (numbers []);
   Answer 0 (numbers [bo]); Answer 1 (numbers [bo]); Answer 1 (numbers [])].

Lemma rejected_member_keeps_badge :
  let s := pl_state (play_badges overlap) in
  cy ∈ peers (b_mismatched s) /\ cy ∉ peers (sn_obj s) /\ cy ∈ default [] (b_verified s).
Proof. cbn zeta. split_and!; apply (bool_decide_unpack _); vm_compute; exact I. Qed.

(** The number of [bo], cleared in the old object, is still on record: the next
    comparison with anybody brings the badge of [bo] back, for a key nobody
    compared. *)
Lemma cleared_badge_returns :
  let s := pl_state (play_badges (overlap ++ [Begin (markVerified cy); Answer 1 (numbers [bo])])) in
  bo ∉ default [] (b_verified (pl_state (play_badges overlap))) /\ bo ∈ default [] (b_verified s) /\
  held (sn_obj s) bo <> VStr (js "2").
Proof. cbn zeta. split_and!; [apply (bool_decide_unpack _); vm_compute; exact I..|]. vm_compute. discriminate. Qed.
End Badges.
