(* ===== verification/Invites.v ===== *)
(** * Invite links at work (client/src/lib/controller.js: [createInvite],
      [refreshInvites], [redeemPendingInvite]; relay/src/store.rs: the table of
      invites)

    A link is an id in the query and a key in the fragment.  The relay parks
    the group's GroupInfo sealed with the key; it dies with its epoch, so the
    device that made the link seals the current one again after every change
    of members it is told of (its own it is not).  Random ids, keys and initialisation vectors are arguments. *)

From stdpp Require Import base list numbers option strings sets relations.
From Stdlib Require Import ZArith NArith Lia.
From S2P Require Import Prelude JsNum JsString JsValue Bytes History Link Circles Inbox.
Import Link.Link Link.Invite.
Open Scope Z_scope.

Module Invites.

(** ** The relay's table *)

Record invite_record := {
  iv_group : jstr;
  iv_payload : bytes;
  iv_expires_at : option Z;
  iv_max_uses : option Z;
  iv_uses : Z;
}.

Record table := { tb_invites : list (jstr * invite_record); tb_claims : list (jstr * jstr) }.

Definition set_invites (l : list (jstr * invite_record)) (t : table) : table := {| tb_invites := l; tb_claims := tb_claims t |}.

(** First writer wins. *)
Definition create_invite (t : table) (invite : jstr) (r : invite_record) : table :=
  match obj_get (tb_invites t) invite with Some _ => t | None => set_invites (map_set (tb_invites t) invite r) t end.

Definition with_payload (p : bytes) (r : invite_record) : invite_record :=
  {| iv_group := iv_group r; iv_payload := p; iv_expires_at := iv_expires_at r; iv_max_uses := iv_max_uses r; iv_uses := iv_uses r |}.

Definition update_invite (t : table) (invite : jstr) (p : bytes) : option table :=
  match obj_get (tb_invites t) invite with
  | Some r => Some (set_invites (map_set (tb_invites t) invite (with_payload p r)) t)
  | None => None
  end.

Definition revoke_invite (t : table) (invite : jstr) : table := set_invites (obj_delete (tb_invites t) invite) t.

Definition redeem_invite (t : table) (invite user : jstr) (now : Z) : option (table * (jstr * bytes)) :=
  match obj_get (tb_invites t) invite with
  | None => None
  | Some r =>
      if match iv_expires_at r with Some e => e <? now | None => false end then None else
      let already := bool_decide ((invite, user) ∈ tb_claims t) in
      if negb already && match iv_max_uses r with Some m => m <=? iv_uses r | None => false end then None else
      let r' := if already then r else
        {| iv_group := iv_group r; iv_payload := iv_payload r; iv_expires_at := iv_expires_at r; iv_max_uses := iv_max_uses r; iv_uses := iv_uses r + 1 |} in
      Some ({| tb_invites := map_set (tb_invites t) invite r';
               tb_claims := if already then tb_claims t else tb_claims t ++ [(invite, user)] |}, (iv_group r, iv_payload r))
  end.

(** ** The device *)

Definition INVITE_TTL_SECONDS : Z := 7 * 24 * 3600.

(** An entry of [record.invites]: the id and the key in base64. *)
Record kept_invite := { ki_id : jstr; ki_key : jstr }.

Section invites.
Context `{Web, Keys}.

(** [exported]: the GroupInfo of now; [parks]: the relay takes the request. *)
Definition createInvite (loc : location) (group : jstr) (kept : list kept_invite) (t : table)
    (inviteId : jstr) (fragmentKey iv exported : bytes) (now : Z) (parks : bool) : table * list kept_invite * res jstr :=
  let blob := encryptBlob fragmentKey iv exported in
  if parks then
    (create_invite t inviteId {| iv_group := group; iv_payload := blob; iv_expires_at := Some (now / 1000 + INVITE_TTL_SECONDS);
                                 iv_max_uses := None; iv_uses := 0 |},
     kept ++ [ {| ki_id := inviteId; ki_key := b64_enc fragmentKey |} ], Ok (buildInviteUrl loc inviteId fragmentKey))
  else (t, kept, Throw OtherError).

(** What becomes of one refresh: nothing to export, or what was exported, a
    vector and whether the relay hears of it. *)
Inductive luck := NoExport | Vector (exported iv : bytes) (heard : bool).

Definition refresh_one (t : table) (k : kept_invite) (l : luck) : table :=
  match l with
  | Vector exported iv true =>
      match b64_dec (VStr (ki_key k)) with
      | Ok key => default t (update_invite t (ki_id k) (encryptBlob key iv exported))
      | Throw _ => t
      end
  | _ => t
  end.

Fixpoint refreshInvites (t : table) (kept : list kept_invite) (ls : list luck) : table :=
  match kept, ls with
  | k :: kept, l :: ls => refreshInvites (refresh_one t k l) kept ls
  | _, _ => t
  end.

(** ** Following a link *)

(** The page a link opens: its query and fragment. *)
Definition opened_at (loc : location) (id : jstr) (rawKey : bytes) : Prop :=
  search loc = invite_search id /\ hash loc = invite_hash rawKey.

(** [parseInviteUrl], the relay's answer, [decryptBlob]. *)
Definition follow (loc : location) (t : table) (user : jstr) (now : Z) : option (jstr * bytes) :=
  match parseInviteUrl loc with
  | Some (id, k) =>
      match redeem_invite t id user now with
      | Some (_, (group, payload)) =>
          match b64url_dec k with
          | Ok key => match decryptBlob key payload with Ok info => Some (group, info) | Throw _ => None end
          | Throw _ => None
          end
      | None => None
      end
  | None => None
  end.

(** The ratchets in memory and on disk. *)
Record ratchets := { rt_memory : list jstr; rt_disk : list jstr }.
Definition persisted (r : ratchets) : ratchets := {| rt_memory := rt_memory r; rt_disk := rt_memory r |}.
Definition joined (g : jstr) (r : ratchets) : ratchets := {| rt_memory := g :: rt_memory r; rt_disk := rt_disk r |}.
Definition forgotten (g : jstr) (r : ratchets) : ratchets := {| rt_memory := filter (fun x => x <> g) (rt_memory r); rt_disk := rt_disk r |}.

(** The record it makes. *)
Definition redeemed (prior : val) (group : jstr) (members : list val) (epoch seq now : num) : obj :=
  Circles.Circles.put_fields []
    [("id", VStr group); ("name", prior.["name"] ⁇ VStr group);
     ("channels", prior.["channels"] ⁇ VArr [VStr (js "general")]); ("voiceChannels", prior.["voiceChannels"]);
     ("chanMeta", prior.["chanMeta"] ⁇ VObj []); ("overview", prior.["overview"]);
     ("notices", prior.["notices"] ⁇ VArr []); ("seen", prior.["seen"] ⁇ VObj []);
     ("verified", prior.["verified"]); ("verifiedSn", prior.["verifiedSn"]); ("mismatched", prior.["mismatched"]);
     ("members", VArr members); ("epoch", VNum epoch); ("lastSeq", VNum seq);
     ("joinedAt", prior.["joinedAt"] ⁇ VNum now); ("pendingMetaSync", VBool true)]%string.

(** [prior]: the record this device has of a circle, if any; [join]: the
    external commit the ratchet makes of a GroupInfo; [sent]: the relay's
    answer to it.  [None]: already a live member. *)
Definition redeemPendingInvite (rs : ratchets) (id k : jstr) (reply : option (jstr * val)) (prior : jstr -> val)
    (join : bytes -> res (jstr * list val * num)) (sent : option num) (now : num) : ratchets * res (option obj) :=
  match reply with
  | None => (rs, Throw OtherError)
  | Some (group, payload) =>
      if truthy (prior group) && negb (truthy (prior group).["restored"]) then (rs, Ok None) else
      match (let* key := b64url_dec k in let* blob := b64_dec payload in let* info := decryptBlob key blob in join info) with
      | Throw e => (rs, Throw e)
      | Ok (g, members, epoch) =>
          let rs := persisted (joined g rs) in
          match sent with
          | None => (forgotten g rs, Throw OtherError)
          | Some seq => (rs, Ok (Some (redeemed (prior g) g members epoch seq now)))
          end
      end
  end.
End invites.

(** ** The life of a circle's links *)

Section life.
Context `{WebLaws, !Keys, !KeysLaws}.
Context (loc : location) (group : jstr).

(** A link that was handed out: its id, its key, when. *)
Record handed := { h_id : jstr; h_key : bytes; h_at : Z }.
Definition entry_of (h : handed) : kept_invite := {| ki_id := h_id h; ki_key := b64_enc (h_key h) |}.

(** [cl_handed]: the links given out and not revoked; [cl_past]: the GroupInfos
    the circle has had, the last of them that of now; [cl_taken]: what the relay
    took, link by link: the GroupInfo inside. *)
Record circle_links := {
  cl_table : table;
  cl_kept : list kept_invite;
  cl_handed : list handed;
  cl_past : list bytes;
  cl_taken : list (jstr * bytes);
}.

Definition last_taken (l : list (jstr * bytes)) (id : jstr) : option bytes :=
  fold_left (fun acc x => if str_eqb x.1 id then Some x.2 else acc) l None.

Definition good_vector (iv : bytes) : Prop := length iv = 12%nat.

(** A refresh seals what was exported at some time, now or before: exporting,
    sealing and the request are three awaits. *)
Definition seals (past : list bytes) (l : luck) : Prop :=
  match l with NoExport => True | Vector info iv _ => info ∈ past /\ good_vector iv end.
Definition took (k : kept_invite) (l : luck) : list (jstr * bytes) :=
  match l with Vector info _ true => [(ki_id k, info)] | _ => [] end.

(** Links are made; the group is rekeyed, by whomever; a link is sealed again,
    or not, as the refresh has it; the relay takes a revocation; the list is
    emptied; anybody redeems; other circles use the table. *)
Inductive goes_on : circle_links -> circle_links -> Prop :=
| made c id key iv info now t kept url :
    well_formed id = true -> id <> [] -> Forall byte key -> key <> [] -> good_vector iv -> info ∈ cl_past c ->
    obj_get (tb_invites (cl_table c)) id = None -> id ∉ (ki_id <$> cl_kept c) ->
    createInvite loc group (cl_kept c) (cl_table c) id key iv info now true = (t, kept, Ok url) ->
    goes_on c {| cl_table := t; cl_kept := kept; cl_handed := cl_handed c ++ [ {| h_id := id; h_key := key; h_at := now |} ];
                 cl_past := cl_past c; cl_taken := cl_taken c ++ [(id, info)] |}
| rekeyed c info :
    goes_on c {| cl_table := cl_table c; cl_kept := cl_kept c; cl_handed := cl_handed c; cl_past := cl_past c ++ [info]; cl_taken := cl_taken c |}
| sealed_again c h l :
    h ∈ cl_handed c -> seals (cl_past c) l ->
    goes_on c {| cl_table := refresh_one (cl_table c) (entry_of h) l; cl_kept := cl_kept c; cl_handed := cl_handed c;
                 cl_past := cl_past c; cl_taken := cl_taken c ++ took (entry_of h) l |}
| revoked c id :
    goes_on c {| cl_table := revoke_invite (cl_table c) id; cl_kept := cl_kept c; cl_handed := filter (fun h => h_id h <> id) (cl_handed c);
                 cl_past := cl_past c; cl_taken := cl_taken c |}
| emptied c :
    goes_on c {| cl_table := cl_table c; cl_kept := []; cl_handed := cl_handed c; cl_past := cl_past c; cl_taken := cl_taken c |}
| redeems c id user now t out :
    redeem_invite (cl_table c) id user now = Some (t, out) ->
    goes_on c {| cl_table := t; cl_kept := cl_kept c; cl_handed := cl_handed c; cl_past := cl_past c; cl_taken := cl_taken c |}
| others c t :
    (forall h, h ∈ cl_handed c -> obj_get (tb_invites t) (h_id h) = obj_get (tb_invites (cl_table c)) (h_id h)) ->
    goes_on c {| cl_table := t; cl_kept := cl_kept c; cl_handed := cl_handed c; cl_past := cl_past c; cl_taken := cl_taken c |}.

Definition no_links (t : table) (info : bytes) : circle_links :=
  {| cl_table := t; cl_kept := []; cl_handed := []; cl_past := [info]; cl_taken := [] |}.

(** *** What the table holds of a link *)

Definition parked_for (t : table) (info : bytes) (h : handed) : Prop :=
  exists r iv, obj_get (tb_invites t) (h_id h) = Some r /\ iv_group r = group /\ good_vector iv /\
    iv_payload r = encryptBlob (h_key h) iv info /\ iv_expires_at r = Some (h_at h / 1000 + INVITE_TTL_SECONDS) /\ iv_max_uses r = None.

Definition parked_last (c : circle_links) (h : handed) : Prop :=
  exists info, last_taken (cl_taken c) (h_id h) = Some info /\ info ∈ cl_past c /\ parked_for (cl_table c) info h.

Record links_ok (c : circle_links) : Prop := {
  lo_kept : NoDup (ki_id <$> cl_kept c);
  lo_ids : NoDup (h_id <$> cl_handed c);
  lo_good : Forall (fun h => well_formed (h_id h) = true /\ h_id h <> [] /\ Forall byte (h_key h) /\ h_key h <> []) (cl_handed c);
  lo_parked : Forall (parked_last c) (cl_handed c);
}.

Lemma last_taken_snoc l id info x : last_taken (l ++ [(id, info)]) x = if str_eqb id x then Some info else last_taken l x.
Proof. unfold last_taken. by rewrite fold_left_app. Qed.

Lemma refresh_other t k l id : id <> ki_id k -> obj_get (tb_invites (refresh_one t k l)) id = obj_get (tb_invites t) id.
Proof.
  intros Hne. unfold refresh_one. destruct l as [|info iv [|]]; [done| |done]. destruct (b64_dec _) as [key|]; [|done]. unfold update_invite.
  destruct (obj_get (tb_invites t) (ki_id k)) eqn:E; [|done]. cbn. by rewrite obj_get_map_set, (proj2 (str_eqb_neq _ _)) by congruence.
Qed.

Lemma refresh_others t kept ls id : id ∉ (ki_id <$> kept) ->
  obj_get (tb_invites (refreshInvites t kept ls)) id = obj_get (tb_invites t) id.
Proof.
  revert t ls. induction kept as [|k kept IH]; intros t [|l ls]; cbn; try done. intros [Hk Hkept]%not_elem_of_cons.
  by rewrite IH, refresh_other.
Qed.

(** One link sealed again. *)
Lemma refresh_parks_one t h old info iv : Forall byte (h_key h) -> good_vector iv -> parked_for t old h ->
  parked_for (refresh_one t (entry_of h) (Vector info iv true)) info h.
Proof.
  intros Hb Hiv (r & iv0 & Er & Hg & _ & _ & Hex & Hmx). unfold refresh_one, entry_of. cbn [ki_key ki_id]. rewrite (b64_dec_enc _ Hb).
  unfold update_invite. rewrite Er. cbn [default from_option id]. eexists _, iv. cbn. rewrite obj_get_map_set, str_eqb_refl. by split_and!.
Qed.

Lemma parked_kept t t' info h : obj_get (tb_invites t') (h_id h) = obj_get (tb_invites t) (h_id h) -> parked_for t info h -> parked_for t' info h.
Proof. intros E (r & iv & Hr & Hrest). exists r, iv. by rewrite E. Qed.

(** A whole round that the relay hears of. *)
Lemma refresh_parks info t kept ivs old h : length ivs = length kept -> Forall good_vector ivs -> NoDup (ki_id <$> kept) ->
  entry_of h ∈ kept -> Forall byte (h_key h) -> parked_for t old h ->
  parked_for (refreshInvites t kept ((fun iv => Vector info iv true) <$> ivs)) info h.
Proof.
  revert t ivs old. induction kept as [|k kept IH]; intros t [|iv ivs] old Hl Hg Hn Hin Hb Hp; [by apply elem_of_nil in Hin|done..|].
  injection Hl as Hl. apply Forall_cons in Hg as [Hiv Hg]. rewrite fmap_cons in Hn. apply NoDup_cons in Hn as [Hnot Hn]. rewrite fmap_cons. cbn [refreshInvites].
  apply elem_of_cons in Hin as [<-|Hin].
  - eapply parked_kept; [by apply refresh_others|]. by eapply refresh_parks_one.
  - eapply IH; [done..|]. eapply parked_kept; [|exact Hp]. apply refresh_other. intros E. apply Hnot. rewrite <- E.
    by apply (list_elem_of_fmap_2 ki_id _ (entry_of h)).
Qed.

(** What one step leaves as it was, link by link. *)
Lemma parked_last_kept c c' h : cl_past c ⊆ cl_past c' ->
  last_taken (cl_taken c') (h_id h) = last_taken (cl_taken c) (h_id h) ->
  obj_get (tb_invites (cl_table c')) (h_id h) = obj_get (tb_invites (cl_table c)) (h_id h) -> parked_last c h -> parked_last c' h.
Proof.
  intros Hp Hl Ht (info & Ha & Hb & Hc0). exists info. rewrite Hl. split_and!; [done|by apply Hp|]. by eapply parked_kept.
Qed.

Lemma redeem_parks t id user now t' out info h : redeem_invite t id user now = Some (t', out) -> parked_for t info h -> parked_for t' info h.
Proof.
  intros Hr (r & iv & E & Hgr & Hiv & Hpl & Hex & Hmx). unfold redeem_invite in Hr. destruct (obj_get (tb_invites t) id) as [r'|] eqn:Er; [|done].
  destruct (match iv_expires_at r' with Some e => e <? now | None => false end); [done|]. destruct (negb _ && _); [done|]. injection Hr as <- _.
  unfold parked_for. cbn. rewrite obj_get_map_set. destruct (str_eqb id (h_id h)) eqn:Ei; [|by exists r, iv].
  apply str_eqb_eq in Ei as ->. rewrite E in Er. injection Er as <-. eexists _, iv. split; [reflexivity|]. by case_bool_decide.
Qed.

Lemma same_link hs (h h0 : handed) : NoDup (h_id <$> hs) -> h ∈ hs -> h0 ∈ hs -> h_id h0 = h_id h -> h0 = h.
Proof.
  intros Hn [i Hi]%list_elem_of_lookup_1 [j Hj]%list_elem_of_lookup_1 E. assert (i = j) as ->; [|congruence].
  eapply NoDup_lookup; [exact Hn| |]; rewrite list_lookup_fmap; [by rewrite Hi|rewrite Hj; cbn; by f_equal].
Qed.

Lemma seal_parks c h0 l h : links_ok c -> h0 ∈ cl_handed c -> seals (cl_past c) l -> h ∈ cl_handed c -> parked_last c h ->
  parked_last {| cl_table := refresh_one (cl_table c) (entry_of h0) l; cl_kept := cl_kept c; cl_handed := cl_handed c;
                 cl_past := cl_past c; cl_taken := cl_taken c ++ took (entry_of h0) l |} h.
Proof.
  intros [_ Hn Hgood _] Hin0 Hs Hin Hp. rewrite Forall_forall in Hgood. destruct l as [|info iv [|]]; cbn [took].
  1,3: apply (parked_last_kept c); [done|by cbn; rewrite app_nil_r|done|done].
  destruct Hs as [Hpast Hiv]. destruct (decide (h_id h0 = h_id h)) as [E|Hne].
  - destruct Hp as (old & _ & _ & Hp). exists info. cbn [cl_taken cl_past cl_table entry_of ki_id]. rewrite last_taken_snoc, E, str_eqb_refl.
    split_and!; [done..|]. rewrite (same_link _ _ _ Hn Hin Hin0 E). eapply refresh_parks_one; [apply (Hgood h Hin)|done..].
  - apply (parked_last_kept c); [done| |by apply refresh_other; cbn; congruence|done]. cbn [cl_taken entry_of ki_id].
    by rewrite last_taken_snoc, (proj2 (str_eqb_neq _ _)).
Qed.

Lemma links_ok_step c c' : links_ok c -> goes_on c c' -> links_ok c'.
Proof.
  intros Hc Hs. pose proof Hc as [Hk Hn Hg Hp].
  destruct Hs as [c id key iv info now t kept url Hw Hid Hkey Hne Hiv Hpast Hfresh Hnew Hm|c info|c h0 l Hin0 Hl|c id|c|c id user now t out Hr|c t Ht].
  - unfold createInvite in Hm. injection Hm as <- <- _. unfold create_invite. rewrite Hfresh.
    assert (id ∉ h_id <$> cl_handed c) as Hnot.
    { intros (h & -> & Hin)%list_elem_of_fmap. rewrite Forall_forall in Hp. destruct (Hp h Hin) as (? & _ & _ & r & ? & E & _). congruence. }
    split; cbn [cl_kept cl_handed].
    + rewrite fmap_app. by apply NoDup_snoc.
    + rewrite fmap_app. by apply NoDup_snoc.
    + apply Forall_app. split; [done|]. by apply Forall_singleton.
    + apply Forall_app. split.
      * rewrite Forall_forall in *. intros h Hin. assert (str_eqb id (h_id h) = false) as Hd.
        { apply str_eqb_neq. intros ->. apply Hnot. by apply list_elem_of_fmap_2. }
        apply (parked_last_kept c); [done| | |by apply Hp]; [cbn [cl_taken]; by rewrite last_taken_snoc, Hd|cbn; by rewrite obj_get_map_set, Hd].
      * apply Forall_singleton. exists info. cbn [cl_taken cl_past cl_table h_id]. rewrite last_taken_snoc, str_eqb_refl. split_and!; [done..|].
        eexists _, iv. cbn. rewrite obj_get_map_set, str_eqb_refl. by split_and!.
  - split; [done..|]. eapply Forall_impl; [exact Hp|]. intros h. apply parked_last_kept; [|done..]. cbn. set_solver.
  - split; [done..|]. rewrite Forall_forall in *. intros h Hin. apply seal_parks; [done..|by apply Hp].
  - split; cbn [cl_kept cl_handed]; [done|..].
    + eapply sublist_NoDup; [exact Hn|]. apply fmap_sublist, sublist_filter.
    + by apply Forall_filter.
    + rewrite Forall_forall in *. intros h [Hd Hin]%list_elem_of_filter. apply (parked_last_kept c); [done..| |by apply Hp]. cbn.
      by rewrite obj_get_delete, (proj2 (str_eqb_neq _ _)) by congruence.
  - split; [constructor|done..].
  - split; [done..|]. rewrite Forall_forall in *. intros h Hin. destruct (Hp h Hin) as (info & Ha & Hb & Hc0).
    exists info. split_and!; [done..|]. by eapply redeem_parks.
  - split; [done..|]. rewrite Forall_forall in *. intros h Hin. apply (parked_last_kept c); [done..|by apply Ht|by apply Hp].
Qed.

(** What a parked link gives to whoever follows it in time. *)
Lemma follow_parked t i h here user now : well_formed (h_id h) = true -> h_id h <> [] -> Forall byte (h_key h) -> h_key h <> [] ->
  parked_for t i h -> now <= h_at h / 1000 + INVITE_TTL_SECONDS -> opened_at here (h_id h) (h_key h) -> follow here t user now = Some (group, i).
Proof.
  intros Hw Hid Hb Hne (r & iv & E & Hgr & Hiv & Hpl & Hex & Hmx) Hnow [Hs Hh].
  unfold follow. destruct (invite_roundtrip (h_id h) (h_key h) Hw Hid Hb Hne here Hs Hh) as (_ & -> & Ek).
  unfold redeem_invite. rewrite E, Hex, Hmx. replace (_ <? now) with false by (symmetry; apply Z.ltb_ge; lia). rewrite andb_false_r.
  by rewrite Ek, Hpl, decrypt_encrypt, Hgr.
Qed.

(** C38: However links are made, used, revoked and sealed again or not, however
    the group is rekeyed meanwhile and whatever other circles do with the table,
    a link this device handed out opens, for whoever follows it until it expires
    or is revoked, the circle it was made for: its GroupInfo as it was when the
    last sealing that the relay took was exported.  That one may be behind the
    circle (no refresh follows a member this device adds, and a refresh that
    fails is only logged); a round of refreshes the relay hears of brings every
    link the device still keeps to the GroupInfo that was exported for it.  The
    ids of the links are new to the table when they are made. *)
Theorem a_link_opens_what_was_last_sealed t info c h here user now :
  rtc goes_on (no_links t info) c -> h ∈ cl_handed c -> now <= h_at h / 1000 + INVITE_TTL_SECONDS ->
  opened_at here (h_id h) (h_key h) ->
  (exists i, last_taken (cl_taken c) (h_id h) = Some i /\ i ∈ cl_past c /\ follow here (cl_table c) user now = Some (group, i)) /\
  (forall ivs i, entry_of h ∈ cl_kept c -> length ivs = length (cl_kept c) -> Forall good_vector ivs ->
     follow here (refreshInvites (cl_table c) (cl_kept c) ((fun iv => Vector i iv true) <$> ivs)) user now = Some (group, i)).
Proof.
  intros Hr Hin Hnow Hat. assert (links_ok c) as [Hk _ Hg Hp].
  { assert (links_ok (no_links t info)) as Hstart by (split; cbn; constructor). clear Hin Hnow Hat. induction Hr as [|a b d Hab _ IH]; [done|].
    apply IH. by eapply links_ok_step. }
  rewrite Forall_forall in Hg, Hp. destruct (Hg h Hin) as (Hw & Hid & Hb & Hne), (Hp h Hin) as (i & Hl & Hpast & Hparked). split.
  - exists i. split_and!; [done..|]. by eapply follow_parked.
  - intros ivs i' Hkept Hlen Hiv. eapply follow_parked; [done..|by eapply refresh_parks|done|done].
Qed.
End life.

(** ** Runs *)

Import ToyKeys.

Definition page : location := {| origin := js "https://q"; pathname := js "/"; search := []; hash := [] |}.
Definition vector : bytes := replicate 12 0%N.
Definition empty_table : table := {| tb_invites := []; tb_claims := [] |}.

Definition first_link : handed := {| h_id := js "abc"; h_key := [7%N]; h_at := 5000 |}.
Definition shared_page : location := {| origin := js "https://q"; pathname := js "/"; search := invite_search (js "abc"); hash := invite_hash [7%N] |}.

(** A link is made, then this device adds a member. *)
Definition after_made : circle_links :=
  let '(t, kept, _) := createInvite page (js "g") [] empty_table (js "abc") [7%N] vector [1%N] 5000 true in
  {| cl_table := t; cl_kept := kept; cl_handed := [first_link]; cl_past := [[1%N]]; cl_taken := [(js "abc", [1%N])] |}.
Definition after_add : circle_links :=
  {| cl_table := cl_table after_made; cl_kept := cl_kept after_made; cl_handed := [first_link]; cl_past := [[1%N]; [2%N]]; cl_taken := [(js "abc", [1%N])] |}.
(** Then somebody else does, and the link is sealed again. *)
Definition after_seal : circle_links :=
  {| cl_table := refresh_one (cl_table after_add) (entry_of first_link) (Vector [2%N] vector true); cl_kept := cl_kept after_made;
     cl_handed := [first_link]; cl_past := [[1%N]; [2%N]]; cl_taken := [(js "abc", [1%N]); (js "abc", [2%N])] |}.

Lemma link_was_made : goes_on page (js "g") (no_links empty_table [1%N]) after_made.
Proof.
  eapply (made page (js "g") (no_links empty_table [1%N]) (js "abc") [7%N] vector [1%N] 5000);
    [reflexivity|discriminate|repeat constructor|discriminate|reflexivity|left|reflexivity|by intros ?%elem_of_nil|reflexivity].
Qed.

Lemma a_link_opens_what_was_last_sealed_witness :
  follow shared_page (cl_table after_seal) (js "bo") 100 = Some (js "g", [2%N]).
Proof.
  destruct (a_link_opens_what_was_last_sealed page (js "g") empty_table [1%N] after_seal first_link shared_page (js "bo") 100)
    as [(i & Hi & _ & E) _].
  - eapply rtc_l; [apply link_was_made|]. eapply rtc_l; [apply (rekeyed page (js "g") after_made [2%N])|].
    apply rtc_once, (sealed_again page (js "g") after_add first_link (Vector [2%N] vector true)); [left|split; [right; left|reflexivity]].
  - left.
  - vm_compute. discriminate.
  - split; reflexivity.
  - rewrite E. vm_compute in Hi. by injection Hi as <-.
Defined.

(** No refresh follows a member this device adds: the circle has moved on, the
    device keeps the link, and the link opens the GroupInfo of before, whose
    epoch the relay no longer takes a commit for. *)
Lemma adding_a_member_stales_the_links :
  rtc (goes_on page (js "g")) (no_links empty_table [1%N]) after_add /\ entry_of first_link ∈ cl_kept after_add /\
  follow shared_page (cl_table after_add) (js "bo") 100 = Some (js "g", [1%N]) /\ last (cl_past after_add) = Some [2%N].
Proof.
  split_and!; [|left|vm_compute; reflexivity|reflexivity].
  eapply rtc_l; [apply link_was_made|]. apply rtc_once, (rekeyed page (js "g") after_made [2%N]).
Qed.

(** The relay refuses the commit of somebody who follows a link: the group that
    was dropped from memory is still on disk. *)
Lemma failed_join_stays_on_disk :
  let rs := (redeemPendingInvite {| rt_memory := []; rt_disk := [] |} (js "abc") (b64url_enc [7%N])
    (Some (js "g", VStr (b64_enc (encryptBlob [7%N] vector [1%N])))) (fun _ => VUndef) (fun _ => Ok (js "g", [], int 3)) None (int 0)) in
  rs.2 = Throw OtherError /\ rt_memory rs.1 = [] /\ rt_disk rs.1 = [js "g"].
Proof. split_and!; vm_compute; reflexivity. Qed.
End Invites.
