(* ===== verification/Messages.v ===== *)
(** * What a member writes (client/src/lib/controller.js: [sendChat],
      [deliverChat], [markLocalState], [retryMessage], [sendGameCard], [react],
      [editMessage], [setPlaying], [setWant], [typing], [sendEphemeral],
      [onEphemeral])

    A line, a reaction and an edit are written to the channel's log, shown at
    once, and sent to whoever is online.  Presence, rallies and typing are sent
    and forgotten.  The clock, fresh keys and the relay's answers are
    arguments. *)

From stdpp Require Import base list numbers option strings sets.
From Stdlib Require Import ZArith NArith Lia Sorting.Sorted Sorting.Permutation.
From S2P Require Import Prelude JsNum JsString JsValue Json Bytes Games ChanKeys Envelope Log LogOrder History Logs Inbox Snapshot Actions.
Import Logs.Logs Inbox.Inbox.
Open Scope Z_scope.

Module Messages.

(** ** Lines *)

Definition set_failed (v : bool) (m : line) : line :=
  {| ln_server := ln_server m; ln_channel := ln_channel m; ln_sender := ln_sender m; ln_ts := ln_ts m;
     ln_body := ln_body m; ln_reply := ln_reply m; ln_auth := ln_auth m; ln_seq := ln_seq m;
     ln_local := ln_local m; ln_system := ln_system m; ln_failed := v; ln_edited := ln_edited m;
     ln_deleted := ln_deleted m; ln_reacts := ln_reacts m |}.

(** [Object.assign] on the message of the working copy. *)
Definition markLocalState (me serverId : jstr) (b : list (jstr * slot)) (channel : jstr) (ts : num) (failed : bool)
  : list (jstr * slot) :=
  match obj_get b (logKey serverId channel) with
  | Some s =>
      match obj_get (base (sl_log s)) (messageId me ts) with
      | Some m => write_log b (logKey serverId channel)
                    (set_base (sl_log s) (map_set (base (sl_log s)) (messageId me ts) (set_failed failed m)))
      | None => b
      end
  | None => b
  end.

Definition quoted (q : option reply) : list (string * val) :=
  match q with Some q => [("reply"%string, reply_val q)] | None => [] end.

Definition keyed (l : list (string * val)) : obj := (fun kv => (js kv.1, kv.2)) <$> l.

Definition with_book (w : written) (b : list (jstr * slot)) : written :=
  {| wr_record := wr_record w; wr_book := b; wr_requests := wr_requests w; wr_seq := wr_seq w |}.

Definition text_val (m : line) : val := match ln_body m with LText t => VStr t | _ => VUndef end.
Definition quote_val (q : option reply) : val := match q with Some q => reply_val q | None => VNull end.

(** The bar of emoji under a line (components/Messages.jsx). *)
Definition EMOJI : list jstr :=
  [[55357; 56397]; [55357; 56613]; [55357; 56834]; [10084; 65039]; [55357; 56448]; [55357; 56878]]%N.

Section messages.
Context `{Web}.

(** Fresh id, key and vector, and the relay's answer to the append. *)
Record supplies := { su_hid : jstr; su_hkey : jstr; su_iv : bytes; su_reply : option num }.

Definition append (me : jstr) (r : circle) (b : list (jstr * slot)) (channel : jstr) (entry : list (string * val)) (su : supplies)
  : res written := appendLog me r b channel (keyed entry) (su_hid su) (su_hkey su) (su_iv su) (su_reply su).

(** The envelopes sent to whoever is online; [None]: "the message could not be
    written to the circle". *)
Definition deliverChat (me : jstr) (r : circle) (b : list (jstr * slot)) (channel : jstr) (text : val) (ts : num) (rep : val)
    (su : supplies) : res (written * option (list val)) :=
  let* quote := normalizeReply rep in
  let* w := append me r b channel ([("k", VStr (js "chat")); ("ts", VNum ts); ("text", text)]%string ++ quoted quote) su in
  let failed := match wr_seq w with None => true | Some _ => false end in
  let w' := with_book w (markLocalState me (c_id r) (wr_book w) channel ts failed) in
  if failed then Ok (w', None) else
  Ok (w', Some [jobj ([("k", VStr (js "chat")); ("ch", VStr channel); ("text", text); ("ts", VNum ts)]%string ++ quoted quote)]).

Definition sendChat (me : jstr) (r : circle) (b : list (jstr * slot)) (channel : jstr) (text rep : val) (now : num)
    (su : supplies) : res (written * option (list val)) :=
  let* quote := normalizeReply rep in
  deliverChat me r b channel text now (quote_val quote) su.

Definition retryMessage (me : jstr) (r : circle) (b : list (jstr * slot)) (channel : jstr) (m : line) (su : supplies)
  : res (written * option (list val)) :=
  deliverChat me r (markLocalState me (c_id r) b channel (ln_ts m) false) channel (text_val m) (ln_ts m) (quote_val (ln_reply m)) su.

Definition sendGameCard (me : jstr) (r : circle) (b : list (jstr * slot)) (channel : jstr) (game : val) (now : num) (su : supplies)
  : res (option (written * list val)) :=
  let* ref := normalizeGameRef game in
  match ref with
  | None => Ok None
  | Some g =>
      let* w := append me r b channel [("k", VStr (js "game")); ("ts", VNum now); ("game", ref_val g)]%string su in
      Ok (Some (w, [jobj [("k", VStr (js "game")); ("ch", VStr channel); ("game", ref_val g); ("ts", VNum now)]%string]))
  end.

(** ** Reactions and edits *)

(** [current?.reacts?.[emo]?.includes(this.me)]. *)
Definition reacted (m : line) (emo : jstr) (who : jstr) : res bool :=
  match ln_reacts m with
  | None => Ok false
  | Some r =>
      match prop (VObj r) emo with
      | VUndef | VNull => Ok false
      | VArr names => Ok (includes names (VStr who))
      | _ => Throw TypeError
      end
  end.

Definition is_line (sender : jstr) (ts : num) (m : line) : bool := str_eqb (ln_sender m) sender && neqb (ln_ts m) ts.

(** [renderLog(log).find(...)]. *)
Definition find_line (ls : list line) (sender : jstr) (ts : num) : option line :=
  head (filter (fun m => is_line sender ts m = true) ls).

Definition react (me : jstr) (r : circle) (b : list (jstr * slot)) (channel sender : jstr) (ts : num) (emo : jstr) (now : num)
    (su : supplies) : res (written * list val) :=
  let '(b1, s) := channelLog b (c_id r) channel in
  let* ls := renderLog (sl_log s) in
  let* held := match find_line ls sender ts with Some m => reacted m emo me | None => Ok false end in
  let op := VStr (if held then js "del" else js "add") in
  let to_ := jobj [("sender", VStr sender); ("ts", VNum ts)]%string in
  let* w := append me r b1 channel [("k", VStr (js "react")); ("ts", VNum now); ("to", to_); ("emo", VStr emo); ("op", op)]%string su in
  Ok (w, [jobj [("k", VStr (js "react")); ("ch", VStr channel); ("to", to_); ("emo", VStr emo); ("op", op); ("ts", VNum now)]%string]).

Definition editMessage (me : jstr) (r : circle) (b : list (jstr * slot)) (channel : jstr) (m : line) (text : val) (now : num)
    (su : supplies) : res (option (written * list val)) :=
  if negb (str_eqb (ln_sender m) me) then Ok None else
  let* t := text_of text in
  let next := trim t in
  if is_empty next || strict_eq (VStr next) (text_val m) then Ok None else
  let to_ := jobj [("ts", VNum (ln_ts m))]%string in
  let* w := append me r b channel [("k", VStr (js "edit")); ("ts", VNum now); ("to", to_); ("text", VStr next)]%string su in
  Ok (Some (w, [jobj [("k", VStr (js "edit")); ("ch", VStr channel); ("to", to_); ("text", VStr next); ("ts", VNum now)]%string])).
End messages.

(** ** Signals that are not kept *)

Definition TYPING_TTL_MS : num := int 6000.
Definition TYPING_HEARTBEAT_MS : num := int 3000.

Definition freshTyping (entry : option typing_claim) (now : num) : bool :=
  match entry with Some e => nsub now (ty_ts e) <ₙ TYPING_TTL_MS | None => false end.

(** [_typingSentAt]; whether a signal is sent. *)
Definition typing (sentAt : list (jstr * num)) (serverId channel : jstr) (now : num) : list (jstr * num) * bool :=
  let key := serverId ++ js "/" ++ channel in
  let last := default (int 0) (obj_get sentAt key) in
  if nsub now last <ₙ TYPING_HEARTBEAT_MS then (sentAt, false) else (map_set sentAt key now, true).

(** Whom a signal wakes. *)
Inductive notify := Nobody | Everyone | Some_of (names : list jstr).

Record ephemeral := { ep_content : val; ep_notify : list jstr; ep_kind : option jstr }.

Definition sendEphemeral (me : jstr) (members : list jstr) (content : val) (n : notify) (notifyKind : option jstr) : ephemeral :=
  let names := match n with
               | Nobody => []
               | Everyone => filter (fun m => m <> me) members
               | Some_of names => names
               end in
  {| ep_content := content; ep_notify := names; ep_kind := match names with [] => None | _ => notifyKind end |}.

Definition game_val (g : option game_ref) : val := match g with Some g => ref_val g | None => VNull end.

Definition chosen (gameRef : val) : res (option game_ref) :=
  if truthy gameRef then normalizeGameRef gameRef else Ok None.

Definition setPlaying (d : desk) (r : circle) (gameRef : val) (now : num) : res (desk * ephemeral) :=
  let* playing := chosen gameRef in
  Ok (set_presence d (set_live (dk_presence d) (c_id r) (dk_me d) {| cl_game := playing; cl_ts := now |}),
      sendEphemeral (dk_me d) (default [] (c_members r))
        (jobj [("k", VStr (js "pres")); ("playing", game_val playing); ("ts", VNum now)]%string) Nobody None).

Definition setWant (d : desk) (r : circle) (gameRef : val) (now : num) : res (desk * ephemeral) :=
  let* want := chosen gameRef in
  Ok (set_wants d (set_live (dk_wants d) (c_id r) (dk_me d) {| cl_game := want; cl_ts := now |}),
      sendEphemeral (dk_me d) (default [] (c_members r))
        (jobj [("k", VStr (js "want")); ("want", game_val want); ("ts", VNum now)]%string)
        (match want with Some _ => Everyone | None => Nobody end) (Some (js "rally"))).

(** [onEphemeral] once decrypted: the desk and what the voice manager is handed.
    An exception is caught; what it had done stays. *)
Definition onEphemeral (d : desk) (group sender raw : jstr) (now : num) : desk * option val :=
  match json_parse raw with
  | Throw _ => (d, None)
  | Ok content =>
      let k := is_kind content in
      if nullish content then (d, None) else
      if k "voice" || k "rtc" || k "ring" then (d, Some content)
      else if k "pres" then
        match normalizePresence content now with
        | Ok c => (set_presence d (set_live (dk_presence d) group sender c), None)
        | Throw _ => (d, None)
        end
      else if k "want" then
        match normalizeWant content now with
        | Ok c => (set_wants d (set_live (dk_wants d) group sender c), None)
        | Throw _ => (d, None)
        end
      else if k "type" then ((setLiveTyping d group sender content.["ch"] now).1, None)
      else (d, None)
  end.
End Messages.

(** ** Theorems *)

Module MessageFacts.
Import Messages Logs.LogFacts.

(** *** Sorting *)

Lemma insert_sorted_snoc {A} (gt : A -> A -> bool) x l z :
  gt x z = false -> insert_sorted gt x (l ++ [z]) = insert_sorted gt x l ++ [z].
Proof. intros Hz. induction l as [|y l IH]; cbn; [by rewrite Hz|]. destruct (gt x y); cbn; [by rewrite IH|done]. Qed.

Lemma sort_by_snoc {A} (gt : A -> A -> bool) l z :
  Forall (fun x => gt x z = false) l -> sort_by gt (l ++ [z]) = sort_by gt l ++ [z].
Proof. induction 1 as [|x l Hx _ IH]; cbn; [done|]. by rewrite IH, insert_sorted_snoc. Qed.

Lemma sort_by_fmap {A} (gt : A -> A -> bool) (f : A -> A) l :
  (forall x y, gt (f x) (f y) = gt x y) -> sort_by gt (f <$> l) = f <$> sort_by gt l.
Proof.
  intros Hf. induction l as [|x l IH]; cbn; [done|]. rewrite IH. generalize (sort_by gt l) as k.
  induction k as [|y k IHk]; cbn; [done|]. rewrite Hf. destruct (gt x y); cbn; [by rewrite IHk|done].
Qed.

(** *** The working copy of a room *)

(** What the relay hands out stays below the numbers of the local copies. *)
Definition relay_seq (it : item) : Prop :=
  match finite_seq (it_seq it) with Some s => exists z, s = int z /\ z <= 2 ^ 52 - 1 | None => True end.

Section room.
Context (server : jstr) (channel : val).

(** A working copy, whatever was done with it. *)
Inductive kept : channel_log -> Prop :=
| kept_new : kept createChannelLog
| kept_add log its : kept log -> Forall relay_seq its -> kept (addEntries log its server channel).1
| kept_system log ch text ts : kept log -> kept (addSystemMessage log server ch text ts).1
| kept_prune log beforeTs : kept log -> kept (pruneLog log beforeTs).1
| kept_flag log id m v : kept log -> obj_get (base log) id = Some m ->
    kept (set_base log (map_set (base log) id (set_failed v m)))
| kept_complete log : kept log ->
    kept {| base := base log; mutations := mutations log; oldest := oldest log; complete := true; newest := newest log; localSeq := localSeq log |}
| kept_renamed log to : kept log -> kept (set_base log ((fun kv => (kv.1, set_channel kv.2 to)) <$> base log)).

Definition line_ok (id : jstr) (m : line) : Prop :=
  ln_deleted m = false /\ ln_reacts m = None /\
  (ln_sender m <> [] -> id = messageId (ln_sender m) (ln_ts m) /\ ntruthy (ln_ts m) = true).

Record room_ok (log : channel_log) : Prop := {
  ro_keys : NoDup (obj_keys (base log));
  ro_lines : forall id m, (id, m) ∈ base log -> line_ok id m;
  ro_local : exists n, localSeq log = int n /\ 2 ^ 52 - 1 <= n <= 2 ^ 53 /\
    forall id mu, (id, mu) ∈ mutations log -> exists z, mu_seq mu = int z /\ z <= n;
}.

Lemma next_local n : 2 ^ 52 - 1 <= n <= 2 ^ 53 -> exists n', nadd (int n) (int 1) = int n' /\ n <= n' <= 2 ^ 53.
Proof.
  intros Hn. destruct (decide (n = 2 ^ 53)) as [->|]; [exists (2 ^ 53); split; [vm_compute; reflexivity|lia]|].
  destruct (decide (n = 2 ^ 53 - 1)) as [->|]; [exists (2 ^ 53); split; [vm_compute; reflexivity|lia]|].
  exists (n + 1). split; [|lia]. change (nadd (int n) (int 1)) with (nsub (int n) (int (-1))).
  by rewrite nsub_int by lia.
Qed.

Lemma entryToMessage_ok entry au seq m :
  entryToMessage entry server channel au seq = Ok (Some m) -> ntruthy (ln_ts m) = true /\ ln_deleted m = false /\ ln_reacts m = None.
Proof.
  unfold entryToMessage. intros H. inv_ok. destruct (is_empty _ || _) eqn:E2; inv_ok.
  apply orb_false_iff in E2 as [_ E2]. apply negb_false_iff in E2. done.
Qed.

Lemma room_ok_cursors log seq : room_ok log -> room_ok (move_cursors log seq).
Proof. intros [? ? ?]. unfold move_cursors. case_match; by split. Qed.

Lemma add_content_room log it : room_ok log -> room_ok (add_content log server channel it).1.
Proof.
  intros [Hk Hl Hn]. unfold add_content. destruct (entryToMessage _ _ _ _ _) as [[m0|]|] eqn:E; [|done..].
  case_match; [|done]. apply entryToMessage_ok in E as (Ht & Hd & Hr).
  split; cbn [base mutations localSeq set_base fst]; [by apply map_set_NoDup| |done].
  intros id m [[= -> ->]|Hin]%elem_of_map_set; [|by apply Hl]. by destruct (it_local it).
Qed.

Lemma add_mutation_room log it : relay_seq it -> room_ok log -> room_ok (add_mutation log it).1.
Proof.
  intros Hs Hok. pose proof Hok as [Hk Hl (n & En & Bn & Hm)]. unfold add_mutation. case_match; [done|].
  destruct (mutationId _) as [id|]; [|done]. case_match; [done|]. unfold relay_seq in Hs.
  destruct (finite_seq (it_seq it)) as [s|]; cbn [fst].
  - destruct Hs as (z & -> & Hz). split; cbn [base mutations localSeq set_mutations]; [done..|]. exists n. split; [done|]. split; [done|].
    intros i mu [[= -> ->]|Hin]%elem_of_map_set; [|by eapply Hm]. exists z. split; [done|lia].
  - rewrite En. destruct (next_local n Bn) as (n' & -> & Bn'). split; cbn [base mutations localSeq set_mutations]; [done..|].
    exists n'. split; [done|]. split; [lia|]. intros i mu [[= -> ->]|Hin]%elem_of_map_set; [by exists n; split; [|lia]|].
    destruct (Hm _ _ Hin) as (z & -> & ?). exists z. split; [done|lia].
Qed.

Lemma addEntries_room its : forall log, Forall relay_seq its -> room_ok log -> room_ok (addEntries log its server channel).1.
Proof.
  induction its as [|it its IH]; intros log Hs Hok; cbn [addEntries]; [done|]. apply Forall_cons in Hs as [Hit Hs].
  assert (room_ok (add_entry log server channel it).1) as H1.
  { unfold add_entry. case_match; [done|]. cbn zeta. apply (room_ok_cursors _ (it_seq it)) in Hok.
    case_match; [by apply add_content_room|]. case_match; [by apply add_mutation_room|done]. }
  destruct (add_entry _ _ _ _) as [log1 [k|]]; [|done]. cbn [fst] in H1. specialize (IH _ Hs H1).
  by destruct (addEntries log1 its server channel) as [? []].
Qed.

Lemma kept_ok log : kept log -> room_ok log.
Proof.
  induction 1 as [|log its _ IH Hs|log ch text ts _ IH|log beforeTs _ IH|log id m v _ IH Hm|log _ IH|log to _ IH].
  - split; cbn; [apply NoDup_nil_2|by intros ?? []%elem_of_nil|]. exists (2 ^ 52 - 1). split; [done|]. split; [lia|]. by intros ?? []%elem_of_nil.
  - by apply addEntries_room.
  - destruct IH as [Hk Hl Hn]. split; cbn [base mutations localSeq set_base fst addSystemMessage]; [by apply map_set_NoDup| |done].
    intros i m [[= -> ->]|Hin]%elem_of_map_set; [done|by apply Hl].
  - destruct IH as [Hk Hl (n & En & Bn & Hm)]. unfold pruneLog. pose proof (prune_mutations_sub (mutations log) beforeTs) as Hsub.
    destruct (prune_mutations _ _) as [ms o]. cbn [fst] in *. split; cbn [base mutations localSeq set_mutations set_base].
    + eapply sublist_NoDup; [exact Hk|]. apply fmap_sublist, sublist_filter.
    + intros i m [_ Hin]%list_elem_of_filter. auto.
    + exists n. split; [done|]. split; [done|]. intros i mu Hin%Hsub. eauto.
  - destruct IH as [Hk Hl Hn]. split; cbn [base mutations localSeq set_base]; [by apply map_set_NoDup| |done].
    intros i m' [[= -> ->]|Hin]%elem_of_map_set; [|by apply Hl]. apply (Hl id m). by apply obj_get_elem.
  - by destruct IH.
  - destruct IH as [Hk Hl Hn]. split; cbn [base mutations localSeq set_base]; [|intros i m|done].
    + unfold obj_keys in *. by rewrite <- list_fmap_compose.
    + intros ([i' m'] & [= -> ->] & Hin)%list_elem_of_fmap. by apply (Hl i' m') in Hin.
Qed.
End room.

(** *** The last word on a line *)

(** The lines as they were, [m'] in the place of [m]. *)
Definition swap (m m' x : line) : line := if is_line (ln_sender m) (ln_ts m) x then m' else x.

Lemma is_line_spec sender ts m : is_line sender ts m = true <-> ln_sender m = sender /\ neqb (ln_ts m) ts = true.
Proof. unfold is_line. by rewrite andb_true_iff, str_eqb_eq. Qed.

Lemma neqb_self t : ntruthy t = true -> neqb t t = true.
Proof. destruct t as [|[]|z]; try done. intros _. apply Z.eqb_refl. Qed.

(** Each line under its own id, none twice. *)
Definition filed (a : lines) : Prop :=
  NoDup (obj_keys a) /\ forall id m, (id, m) ∈ a -> ln_sender m <> [] -> id = messageId (ln_sender m) (ln_ts m) /\ ntruthy (ln_ts m) = true.

Lemma fmap_same {A} (f : A -> A) (l : list A) : (forall x, x ∈ l -> f x = x) -> f <$> l = l.
Proof. induction l as [|x l IH]; intros Hf; cbn; [done|]. f_equal; [apply Hf; by left|apply IH; intros y Hy; apply Hf; by right]. Qed.

Lemma map_set_swap a id m m' :
  filed a -> obj_get a id = Some m -> ln_sender m <> [] -> (map_set a id m').*2 = swap m m' <$> a.*2.
Proof.
  intros [Hn Hl] E Hs. unfold map_set. rewrite E.
  assert (forall k x, (k, x) ∈ a -> is_line (ln_sender m) (ln_ts m) x = str_eqb k id) as Hwho.
  { intros k x Hin. pose proof (obj_get_elem _ _ _ E) as Hm. destruct (str_eqb k id) eqn:Ek.
    - apply str_eqb_eq in Ek as ->. apply obj_get_NoDup in Hin; [|done]. rewrite E in Hin. injection Hin as <-.
      apply is_line_spec. split; [done|]. by apply neqb_self, (Hl id).
    - destruct (is_line _ _ _) eqn:Ex; [|done]. apply is_line_spec in Ex as [Ex1 Ex2%neqb_eq].
      destruct (Hl k x Hin) as [-> _]; [by rewrite Ex1|]. destruct (Hl id m Hm Hs) as [-> _].
      apply str_eqb_neq in Ek. by rewrite Ex1, Ex2 in Ek. }
  clear Hl E Hs. induction a as [|[k x] a IH]; [done|]. cbn [obj_update fmap list_fmap snd].
  pose proof (Hwho k x ltac:(by left)) as Hx. unfold swap at 1. rewrite Hx. cbn [obj_keys fmap list_fmap fst] in Hn. apply NoDup_cons in Hn as [Hk Hn].
  destruct (str_eqb k id) eqn:Ek; cbn [fmap list_fmap snd]; f_equal.
  - apply str_eqb_eq in Ek as ->. symmetry. apply fmap_same. intros y ([k' y'] & -> & Hy)%list_elem_of_fmap. cbn [snd]. unfold swap.
    rewrite (Hwho k' y') by (by right). destruct (str_eqb k' id) eqn:E'; [|done]. apply str_eqb_eq in E' as ->. destruct Hk.
    by apply (list_elem_of_fmap_2 fst) in Hy.
  - apply IH; [done|]. intros k' x' Hin. apply Hwho. by right.
Qed.

Lemma replay_filed log a :
  room_ok log -> replay_mutations (base log) (in_seq_order (mutations log).*2) = Ok a ->
  filed a /\ forall id m, obj_get a id = Some m ->
    forall emo v, obj_get (default [] (ln_reacts m)) emo = Some v -> exists names, v = VArr names.
Proof.
  intros [Hk Hl _] E.
  pose (its := (fun mu => {| it_seq := None; it_entry := mu_entry mu; it_auth := signed; it_local := true |}) <$> in_seq_order (mutations log).*2).
  assert (shown its (base log) a) as Hs.
  { eapply replay_shown; [|exact E|apply shown_refl; intros id m Hin; by apply Hl in Hin as (_ & ? & _)].
    apply Forall_forall. intros mu Hin. eexists. split; [by apply list_elem_of_fmap_2|done]. }
  split; [split|].
  - by rewrite (sh_keys _ _ _ Hs).
  - intros id m Hin Hm. apply obj_get_NoDup in Hin; [|by rewrite (sh_keys _ _ _ Hs)].
    destruct (sh_lines _ _ _ Hs id m Hin) as (m0 & H0%obj_get_elem & [(_ & _ & Es & Et & _) _ _ _]).
    apply Hl in H0 as (_ & _ & H0). rewrite Es, Et in *. auto.
  - intros id m Hin emo v Hv. destruct (sh_lines _ _ _ Hs id m Hin) as (m0 & _ & [_ _ Hn _]).
    destruct (Hn emo v Hv) as (names & -> & _). eauto.
Qed.

(** A signed change of this device comes after every other. *)
Lemma local_mutation log e server channel id :
  truthy e = true -> includes CONTENT_KINDS e.["k"] = false -> includes MUTATION_KINDS e.["k"] = true ->
  nullish e.["k"] = false -> mutationId e = Ok id -> obj_get (mutations log) id = None ->
  addLocalEntry log e server channel =
    (set_mutations log (mutations log ++ [(id, {| mu_seq := localSeq log; mu_entry := e |})]) (nadd (localSeq log) (int 1)), Ok 1%nat).
Proof.
  intros Ht Hc Hm Hk Hi Hn. unfold addLocalEntry. cbn [addEntries]. unfold add_entry. cbn [it_entry it_auth it_seq it_local].
  rewrite Ht, bool_decide_false by done. cbn [negb orb]. unfold coalesce. rewrite Hk, Hc, Hm. cbn [move_cursors finite_seq].
  unfold add_mutation. cbn [it_entry it_auth it_seq it_local]. rewrite bool_decide_false by tauto. rewrite Hi, Hn. cbn [finite_seq].
  unfold map_set. by rewrite Hn.
Qed.

Lemma replay_snoc ms mu : forall a, replay_mutations a (ms ++ [mu]) = (let* a' := replay_mutations a ms in apply_mutation a' (mu_entry mu)).
Proof.
  induction ms as [|x ms IH]; intros a; cbn [replay_mutations app].
  - cbn [rbind]. by destruct (apply_mutation _ _).
  - destruct (apply_mutation a (mu_entry x)); cbn [rbind]; [apply IH|done].
Qed.

Lemma last_word log e server channel id ls m m' :
  room_ok log -> truthy e = true -> includes CONTENT_KINDS e.["k"] = false -> includes MUTATION_KINDS e.["k"] = true ->
  nullish e.["k"] = false -> mutationId e = Ok id -> obj_get (mutations log) id = None ->
  renderLog log = Ok ls -> m ∈ ls -> ln_sender m <> [] -> ln_ts m' = ln_ts m ->
  (forall a key, key = messageId (ln_sender m) (ln_ts m) -> obj_get a key = Some m -> apply_mutation a e = Ok (map_set a key m')) ->
  exists log', addLocalEntry log e server channel = (log', Ok 1%nat) /\ renderLog log' = Ok (swap m m' <$> ls).
Proof.
  intros Hok Ht Hc Hm Hk Hi Hn Hr Hin Hs Ets Happ. eexists. split; [by apply local_mutation|].
  unfold renderLog in *. cbn [base mutations set_mutations]. apply rbind_Ok in Hr as (a & Ea & Hr). apply Ok_inj in Hr as <-.
  destruct (replay_filed _ _ Hok Ea) as [Hf _]. destruct Hf as [Hkeys Hl].
  unfold in_time_order in Hin. rewrite sort_by_perm in Hin. apply elem_of_obj_get in Hin as [key Ekey]; [|done].
  assert (key = messageId (ln_sender m) (ln_ts m)) as Eid by (apply (Hl key); [by apply obj_get_elem|done]).
  rewrite fmap_app. cbn [fmap list_fmap snd]. unfold in_seq_order at 1. rewrite sort_by_snoc.
  - fold (in_seq_order (mutations log).*2). rewrite replay_snoc, Ea. cbn [rbind mu_entry]. rewrite (Happ a key Eid Ekey). cbn [rbind].
    rewrite (map_set_swap a key m m') by done. f_equal. unfold in_time_order. apply sort_by_fmap. intros x y.
    assert (forall z, ln_ts (swap m m' z) = ln_ts z) as Hz; [|by rewrite !Hz].
    intros z. unfold swap. destruct (is_line _ _ _) eqn:Ez; [|done]. apply is_line_spec in Ez as [_ Ez%neqb_eq]. by rewrite Ets.
  - apply Forall_forall. intros mu ([i mu'] & -> & Hmu)%list_elem_of_fmap. cbn [snd mu_seq].
    destruct (ro_local _ Hok) as (n & -> & _ & Hall). destruct (Hall _ _ Hmu) as (z & -> & Hz).
    rewrite nsub_int_gt0. by apply Z.ltb_ge.
Qed.

(** *** Pressing an emoji *)

(** Short, trimmed, and not the name of a method every object has. *)
Definition tidy (emo : jstr) : Prop := clip_trim 8 (VStr emo) = Ok emo /\ emo <> [] /\ proto_method [] emo = VUndef.

Definition names_under (m : line) (emo : jstr) : list val :=
  match prop (VObj (default [] (ln_reacts m))) emo with VArr l => l | _ => [] end.

(** [who] is shown under the emoji. *)
Definition under (m : line) (emo who : jstr) : bool := includes (names_under m emo) (VStr who).

Lemma includes_str l w : includes l (VStr w) = true <-> VStr w ∈ l.
Proof.
  split; [apply includes_elem|]. intros Hin. apply includes_true. exists (VStr w). split; [done|]. by apply same_value_str.
Qed.

(** Eight emoji are all a line takes. *)
Definition fits (m : line) (emo : jstr) : Prop :=
  is_Some (obj_get (default [] (ln_reacts m)) emo) \/ (length (obj_keys (default [] (ln_reacts m))) < REACT_MAX)%nat.

(** What reading the log makes of reactions. *)
Definition listed (m : line) : Prop := forall emo v, obj_get (default [] (ln_reacts m)) emo = Some v -> exists names, v = VArr names.

Lemma reacted_under m emo who : listed m -> tidy emo -> reacted m emo who = Ok (under m emo who).
Proof.
  intros Hl (_ & _ & Hp). unfold reacted, under, names_under. destruct (ln_reacts m) as [r|] eqn:Er; cbn [from_option id prop obj_get].
  - destruct (obj_get r emo) as [v|] eqn:E; cbn [from_option id].
    + destruct (Hl emo v) as [names ->]; [by rewrite Er|]. done.
    + by rewrite Hp.
  - by rewrite Hp.
Qed.

Lemma names_after m emo e l : tidy emo -> 
  names_under (set_reacts m (match l with [] => obj_delete (default [] (ln_reacts m)) emo
                             | _ => obj_assign (default [] (ln_reacts m)) emo (VArr l) end)) e
  = if str_eqb emo e then l else names_under m e.
Proof.
  intros (_ & _ & Hp). unfold names_under. cbn [ln_reacts set_reacts from_option id prop].
  assert (str_eqb emo (js "__proto__") = false) as Hnp.
  { apply str_eqb_neq. intros ->. revert Hp. vm_compute. discriminate. }
  destruct (str_eqb emo e) eqn:E.
  - apply str_eqb_eq in E as <-. destruct l as [|x l].
    + by rewrite obj_get_delete, str_eqb_refl, Hp.
    + unfold obj_assign. rewrite Hnp. cbn [andb]. by rewrite obj_get_put, str_eqb_refl.
  - destruct l; unfold obj_assign; rewrite ?obj_get_delete, ?Hnp; cbn [andb]; by rewrite ?obj_get_put, E.
Qed.

(** The reaction turned over. *)
Lemma react_flips m emo me :
  listed m -> tidy emo -> fits m emo ->
  exists r', Log.react (default [] (ln_reacts m)) emo (negb (under m emo me)) (VStr me) = Ok (Some r') /\
    under (set_reacts m r') emo me = negb (under m emo me) /\
    forall e who, (e, who) <> (emo, me) -> under (set_reacts m r') e who = under m e who.
Proof.
  intros Hl Ht Hf. unfold Log.react. set (r := default [] (ln_reacts m)) in *. cbn [prop].
  assert (negb (under m emo me) && strict_eq (default (proto_method [] emo) (obj_get r emo)) VUndef
          && (REACT_MAX <=? length (obj_keys r))%nat = false) as ->.
  { destruct Hf as [[v Hv]|Hf].
    - destruct (Hl emo v Hv) as [names ->]. fold r in Hv. rewrite Hv. cbn. by rewrite andb_false_r.
    - fold r in Hf. apply Nat.leb_gt in Hf. by rewrite Hf, andb_false_r. }
  assert (iterate (default (proto_method [] emo) (obj_get r emo) ⁇ VArr []) = Ok (names_under m emo)) as ->.
  { unfold names_under. fold r. cbn [prop]. destruct (obj_get r emo) as [v|] eqn:Ev; cbn [from_option id].
    - by destruct (Hl emo v Ev) as [names ->].
    - destruct Ht as (_ & _ & ->). done. }
  cbn [rbind]. set (set1 := if negb _ then _ else _).
  assert (forall w, VStr w ∈ set1 <-> if decide (w = me) then under m emo me = false else VStr w ∈ names_under m emo) as Hset.
  { intros w. unfold set1. destruct (under m emo me) eqn:Eu; cbn [negb].
    - rewrite list_elem_of_filter, elem_of_dedup. case_decide as Ew.
      + subst. rewrite (proj2 (same_value_str me (VStr me)) eq_refl). naive_solver.
      + split; [tauto|]. intros Hw. split; [|done]. destruct (same_value _ _) eqn:Es; [|done].
        apply same_value_str in Es as [= ->]. done.
    - assert (VStr me ∉ names_under m emo) as Hno by (intros ?%includes_str; unfold under in Eu; congruence).
      destruct (includes _ _) eqn:Ei.
      { apply includes_elem in Ei. by rewrite elem_of_dedup in Ei. }
      rewrite elem_of_app, elem_of_dedup, list_elem_of_singleton. case_decide; naive_solver. }
  assert (forall w, includes set1 (VStr w) = if decide (w = me) then negb (under m emo me) else under m emo w) as Hinc.
  { intros w. apply eq_true_iff_eq. rewrite includes_str, Hset. case_decide; [|by rewrite <- includes_str].
    by destruct (under m emo me). }
  assert (forall e, names_under (set_reacts m (match set1 with [] => obj_delete r emo | _ => obj_assign r emo (VArr set1) end)) e
    = if str_eqb emo e then set1 else names_under m e) as Hna by (intros e; by apply names_after).
  eexists. split; [reflexivity|]. split.
  - unfold under at 1. by rewrite Hna, str_eqb_refl, Hinc, decide_True by done.
  - intros e who Hne. unfold under at 1. rewrite Hna. destruct (str_eqb emo e) eqn:Ee; [|done].
    apply str_eqb_eq in Ee as <-. by rewrite Hinc, decide_False by congruence.
Qed.

Lemma find_shown log ls m :
  room_ok log -> renderLog log = Ok ls -> m ∈ ls -> ln_sender m <> [] -> find_line ls (ln_sender m) (ln_ts m) = Some m /\ listed m.
Proof.
  intros Hok Hr Hin Hs. unfold renderLog in Hr. apply rbind_Ok in Hr as (a & Ea & Hr). apply Ok_inj in Hr as <-.
  destruct (replay_filed _ _ Hok Ea) as [[Hn Hl] Hlist]. unfold in_time_order in Hin. rewrite sort_by_perm in Hin.
  apply elem_of_obj_get in Hin as [id Hid]; [|done]. split; [|intros emo v; by apply (Hlist id m)].
  unfold find_line. destruct (filter _ _) as [|x l] eqn:Ef.
  - exfalso. assert (m ∈ filter (fun x => is_line (ln_sender m) (ln_ts m) x = true) (in_time_order a.*2)) as Hf.
    + apply list_elem_of_filter. split.
      * apply is_line_spec. split; [done|]. apply neqb_self. by apply (Hl id m); [apply obj_get_elem|].
      * unfold in_time_order. rewrite sort_by_perm. apply obj_get_elem in Hid. by apply (list_elem_of_fmap_2 snd) in Hid.
    + rewrite Ef in Hf. by apply elem_of_nil in Hf.
  - cbn [head]. f_equal. assert (x ∈ filter (fun x => is_line (ln_sender m) (ln_ts m) x = true) (in_time_order a.*2)) as Hx by (rewrite Ef; by left).
    apply list_elem_of_filter in Hx as [[E1 E2%neqb_eq]%is_line_spec Hx]. unfold in_time_order in Hx. rewrite sort_by_perm in Hx.
    apply elem_of_obj_get in Hx as [id' Hx]; [|done].
    destruct (Hl id' x) as [Ei' _]; [by apply obj_get_elem|by rewrite E1|]. destruct (Hl id m) as [Ei _]; [by apply obj_get_elem|done|].
    rewrite E1, E2, <- Ei in Ei'. subst id'. congruence.
Qed.

(** What makes an entry this device's change of a line. *)
Record changes (e : val) (kind : string) (who : jstr) (ts : num) : Prop := {
  ch_truthy : truthy e = true;
  ch_kind : e.["k"] = VStr (js kind);
  ch_known : kind = "edit"%string \/ kind = "del"%string \/ kind = "react"%string;
  ch_sender : e.["sender"] = VStr who;
  ch_ts : e.["ts"] = VNum ts;
}.

Lemma change_last log e kind who ts server channel ls m m' :
  room_ok log -> changes e kind who ts -> obj_get (mutations log) (who ++ js ":" ++ js kind ++ js ":" ++ num_to_string ts) = None ->
  renderLog log = Ok ls -> m ∈ ls -> ln_sender m <> [] -> ln_ts m' = ln_ts m ->
  (forall a key, key = messageId (ln_sender m) (ln_ts m) -> obj_get a key = Some m -> apply_mutation a e = Ok (map_set a key m')) ->
  exists log', addLocalEntry log e server channel = (log', Ok 1%nat) /\ renderLog log' = Ok (swap m m' <$> ls).
Proof.
  intros Hok [Ht Hk Hw Hs Hts] Hf. apply (last_word log e server channel (who ++ js ":" ++ js kind ++ js ":" ++ num_to_string ts) ls m m' Hok Ht); rewrite ?Hk; [| |done| |exact Hf].
  - destruct Hw as [->|[->| ->]]; vm_compute; reflexivity.
  - destruct Hw as [->|[->| ->]]; vm_compute; reflexivity.
  - unfold mutationId. rewrite Hk, Hs, Hts. reflexivity.
Qed.

Lemma quote_again rep q : normalizeReply rep = Ok q -> normalizeReply (quote_val q) = Ok q.
Proof.
  unfold normalizeReply at 1. destruct (not_an_object rep); [by intros [= <-]|]. intros H. inv_ok.
  destruct (is_empty a || _ || _) eqn:E3; inv_ok; [done|].
  match goal with Hs : clip_trim 64 _ = Ok ?x |- _ => pose proof (Snapshot.Snapshot.tidy_clip_trim 64 x (Snapshot.Snapshot.clip_trim_tidy _ _ _ Hs)) as Hs' end.
  match goal with Ht : clip REPLY_TEXT_MAX _ = Ok ?x |- _ => pose proof (Snapshot.Snapshot.short_clip REPLY_TEXT_MAX x (clip_length _ _ _ Ht)) as Ht' end.
  unfold quote_val, normalizeReply. change (not_an_object (reply_val _)) with false. cbn [rp_sender rp_ts rp_text].
  match goal with |- context [reply_val ?q] => change ((reply_val q).["sender"]) with (VStr (rp_sender q));
    change ((reply_val q).["ts"]) with (VNum (rp_ts q)); change ((reply_val q).["text"]) with (VStr (rp_text q)) end.
  cbn [rp_sender rp_ts rp_text to_number]. rewrite Hs'. cbn [rbind]. rewrite E3. by rewrite Ht'.
Qed.
Section writing.
Context `{Web}.
Context (me : jstr) (r : circle) (channel : jstr).

Notation room := (logKey (c_id r) channel).

(** Whether the relay was asked to keep an entry at all: sealing it can fail. *)
Definition is_append (q : request) : bool := match q with Append _ _ _ _ => true | _ => false end.
Definition asked (w : written) : bool := existsb is_append (wr_requests w).

(** A write of this device: the working copy takes the echo, whatever becomes
    of the append. *)
Lemma append_echoed b s entry n su log' k :
  obj_get b room = Some s ->
  addLocalEntry (sl_log s) (VObj (obj_spread [(js "sender", VStr me)] (keyed entry))) (c_id r) (VStr channel) = (log', Ok k) ->
  (VObj (obj_spread [(js "sender", VStr me)] (keyed entry))).["ts"] = VNum n ->
  exists w, append me r b channel entry su = Ok w /\ obj_get (wr_book w) room = Some {| sl_log := log'; sl_loaded := sl_loaded s |} /\
    wr_seq w = if asked w then su_reply su else None.
Proof.
  intros Es Ea Ets. unfold append, appendLog. destruct (ensureChannelKeys _ _ _ _) as [r1 minted].
  unfold add_local. cbn [to_string]. unfold channelLog. rewrite Es, Ea. cbn [rbind]. rewrite Ets. cbn [to_number rbind].
  destruct (let* payload := _ in _) as [a|] eqn:Ea'; (eexists; split; [reflexivity|]; split; [by apply write_log_get|]);
    cbn [wr_seq]; unfold asked; cbn [wr_requests].
  - assert (is_append a = true) as Ha.
    { apply rbind_Ok in Ea' as (? & _ & Ea'). apply rbind_Ok in Ea' as (? & _ & Ea'). by apply Ok_inj in Ea' as <-. }
    rewrite existsb_app. cbn. by rewrite Ha, orb_true_r.
  - by destruct minted.
Qed.

Definition change_id (kind : string) (n : Z) : jstr := me ++ js ":" ++ js kind ++ js ":" ++ num_to_string (int n).

(** Pressing an emoji on a line turns one's own name over and touches
    nothing else: who was shown under it is not, who was not is; every other
    name, emoji and line of the room reads as before.  This is so in every
    working copy, whatever was paged in, edited, pruned or failed before, and
    whether or not the relay takes the reaction. *)
Theorem pressing_an_emoji_toggles_it b s m emo n su ls :
  obj_get b room = Some s -> kept (c_id r) (VStr channel) (sl_log s) ->
  renderLog (sl_log s) = Ok ls -> m ∈ ls -> ln_sender m <> [] -> ln_deleted m = false ->
  tidy emo -> fits m emo -> obj_get (mutations (sl_log s)) (change_id "react" n) = None ->
  exists w sent s' m', Messages.react me r b channel (ln_sender m) (ln_ts m) emo (int n) su = Ok (w, sent) /\
    obj_get (wr_book w) room = Some s' /\ kept (c_id r) (VStr channel) (sl_log s') /\
    renderLog (sl_log s') = Ok (swap m m' <$> ls) /\
    under m' emo me = negb (under m emo me) /\
    (forall e who, (e, who) <> (emo, me) -> under m' e who = under m e who).
Proof.
  intros Es Hkept Hr Hin Hs Hd Ht Hf Hfresh. pose proof (kept_ok _ _ _ Hkept) as Hok.
  destruct (find_shown _ _ _ Hok Hr Hin Hs) as [Hfind Hl]. destruct (react_flips m emo me Hl Ht Hf) as (r' & Er & Hme & Hothers).
  unfold Messages.react. unfold channelLog. rewrite Es, Hr. cbn [rbind]. rewrite Hfind, (reacted_under m emo me Hl Ht). cbn [rbind].
  set (op := VStr (if under m emo me then _ else _)). set (to_ := jobj _). set (entry := [_; _; _; _; _]).
  set (e := VObj [(js "sender", VStr me); (js "k", VStr (js "react")); (js "ts", VNum (int n)); (js "to", to_); (js "emo", VStr emo); (js "op", op)]).
  assert (VObj (obj_spread [(js "sender", VStr me)] (keyed entry)) = e) as Efull by (vm_compute; reflexivity).
  destruct (change_last (sl_log s) e "react" me (int n) (c_id r) (VStr channel) ls m (set_reacts m r') Hok) as (log' & Ea & Hr');
    [split; [reflexivity|reflexivity|by right; right|reflexivity|reflexivity]|done..| |].
  - intros a key -> Ekey. unfold apply_mutation. replace (is_kind e "edit") with false by (vm_compute; reflexivity).
    replace (is_kind e "del") with false by (vm_compute; reflexivity). replace (is_kind e "react") with true by (vm_compute; reflexivity).
    unfold applyReaction. change (e.["to"]) with to_. change (to_ ⁇ VObj []) with to_. change (to_.["sender"]) with (VStr (ln_sender m)).
    change (to_.["ts"]) with (VNum (ln_ts m)). change (e.["emo"]) with (VStr emo). change (e.["sender"]) with (VStr me).
    cbn [text_of coalesce nullish to_string to_number rbind]. rewrite Ekey, Hd. destruct Ht as (-> & Hne & _). cbn [rbind].
    rewrite (proj2 (is_empty_false emo) Hne). replace (negb (is_op e "del")) with (negb (under m emo me)).
    2: { change (is_op e "del") with (strict_eq (VStr (js "del")) op). unfold op. by destruct (under m emo me). }
    by rewrite Er.
  - destruct (append_echoed b s entry (int n) su log' 1%nat Es) as (w & Ew & Eb & _); [by rewrite Efull|by rewrite Efull|].
    rewrite Ew. cbn [rbind]. eexists w, _, _, _. split; [reflexivity|]. split; [exact Eb|]. cbn [sl_log]. split_and!; try done.
    replace log' with (addLocalEntry (sl_log s) e (c_id r) (VStr channel)).1 by by rewrite Ea. apply kept_add; [done|]. by repeat constructor.
Qed.

(** An edit is what the author's line reads afterwards, in the place it
    had, whatever was said, edited or failed before; the other lines read as
    they did. *)
Theorem edited_line_reads_anew b s m old text t n su ls :
  obj_get b room = Some s -> kept (c_id r) (VStr channel) (sl_log s) ->
  renderLog (sl_log s) = Ok ls -> m ∈ ls -> me <> [] -> ln_sender m = me -> ln_deleted m = false -> ln_body m = LText old ->
  text_of text = Ok t -> trim t <> [] -> trim t <> old -> obj_get (mutations (sl_log s)) (change_id "edit" n) = None ->
  exists w sent s', editMessage me r b channel m text (int n) su = Ok (Some (w, sent)) /\
    obj_get (wr_book w) room = Some s' /\ renderLog (sl_log s') = Ok (swap m (set_text m (trim t)) <$> ls).
Proof.
  intros Es Hkept Hr Hin Hne Hs Hd Hb Ht Htrim Hold Hfresh. pose proof (kept_ok _ _ _ Hkept) as Hok.
  unfold editMessage. rewrite Hs, str_eqb_refl, Ht. cbn [negb rbind]. rewrite (proj2 (is_empty_false _) Htrim).
  assert (strict_eq (VStr (trim t)) (text_val m) = false) as ->.
  { unfold text_val. rewrite Hb. by apply str_eqb_neq. }
  cbn [orb]. set (to_ := jobj _). set (entry := [_; _; _; _]).
  set (e := VObj [(js "sender", VStr me); (js "k", VStr (js "edit")); (js "ts", VNum (int n)); (js "to", to_); (js "text", VStr (trim t))]).
  assert (VObj (obj_spread [(js "sender", VStr me)] (keyed entry)) = e) as Efull by (vm_compute; reflexivity).
  destruct (change_last (sl_log s) e "edit" me (int n) (c_id r) (VStr channel) ls m (set_text m (trim t)) Hok) as (log' & Ea & Hr');
    [split; [reflexivity|reflexivity|by left|reflexivity|reflexivity]|done..|by rewrite Hs|done| |].
  - intros a key -> Ekey. unfold apply_mutation. replace (is_kind e "edit") with true by (vm_compute; reflexivity).
    unfold applyEdit. change (e.["to"]) with to_. change (to_.["ts"]) with (VNum (ln_ts m)). change (e.["text"]) with (VStr (trim t)).
    change (e.["sender"]) with (VStr me). cbn [to_string to_number rbind]. rewrite Hs in Ekey. rewrite Ekey, Hd. unfold has_text. rewrite Hb.
    cbn [orb negb text_of coalesce nullish to_string rbind]. rewrite (proj2 (is_empty_false _) Htrim). by rewrite Hs.
  - destruct (append_echoed b s entry (int n) su log' 1%nat Es) as (w & Ew & Eb & _); [by rewrite Efull|by rewrite Efull|].
    rewrite Ew. cbn [rbind]. eexists w, _, _. split; [reflexivity|]. by split; [exact Eb|].
Qed.

(** *** A line that could not be written *)

End writing.

(** The line a chat entry of this device becomes. *)
Definition own_line (server channel me : jstr) (ts : num) (text : jstr) (q : option reply) (failed : bool) : line :=
  {| ln_server := server; ln_channel := VStr channel; ln_sender := me; ln_ts := ts; ln_body := LText text; ln_reply := q;
     ln_auth := Some signed; ln_seq := None; ln_local := true; ln_system := false; ln_failed := failed; ln_edited := false;
     ln_deleted := false; ln_reacts := None |}.

Lemma own_echo log server channel me ts text q :
  me <> [] -> ntruthy ts = true -> normalizeReply (quote_val q) = Ok q ->
  addLocalEntry log (VObj (obj_spread [(js "sender", VStr me)]
      (keyed ([("k", VStr (js "chat")); ("ts", VNum ts); ("text", VStr text)]%string ++ quoted q)))) server (VStr channel)
  = match obj_get (base log) (messageId me ts) with
    | None => (set_base log (map_set (base log) (messageId me ts) (own_line server channel me ts text q false)), Ok 1%nat)
    | Some _ => (log, Ok 0%nat)
    end.
Proof.
  intros Hme Hts Hq.
  set (e := VObj ([(js "sender", VStr me); (js "k", VStr (js "chat")); (js "ts", VNum ts); (js "text", VStr text)] ++ keyed (quoted q))).
  assert (VObj (obj_spread [(js "sender", VStr me)]
      (keyed ([("k", VStr (js "chat")); ("ts", VNum ts); ("text", VStr text)]%string ++ quoted q))) = e) as -> by (destruct q; vm_compute; reflexivity).
  assert (entryToMessage e server (VStr channel) signed None = Ok (Some (set_failed false
    {| ln_server := server; ln_channel := VStr channel; ln_sender := me; ln_ts := ts; ln_body := LText text; ln_reply := q;
       ln_auth := Some signed; ln_seq := None; ln_local := false; ln_system := false; ln_failed := false; ln_edited := false;
       ln_deleted := false; ln_reacts := None |}))) as Em.
  { unfold entryToMessage. change (e.["sender"]) with (VStr me). change (e.["ts"]) with (VNum ts). change (e.["text"]) with (VStr text).
    assert (e.["file"] = VUndef /\ e.["game"] = VUndef /\ normalizeReply e.["reply"] = Ok q) as (-> & -> & ->).
    { destruct q as [q|]; split_and!; try (vm_compute; reflexivity). exact Hq. }
    cbn [text_of coalesce nullish to_string rbind to_number truthy]. rewrite Hts, (proj2 (is_empty_false me) Hme). reflexivity. }
  unfold addLocalEntry. cbn [addEntries]. unfold add_entry. cbn [it_entry it_auth it_seq it_local]. change (truthy e) with true.
  rewrite bool_decide_false by done. cbn [negb orb]. change (e.["k"]) with (VStr (js "chat")). cbn [coalesce nullish].
  replace (includes CONTENT_KINDS (VStr (js "chat"))) with true by (vm_compute; reflexivity). cbn [move_cursors finite_seq].
  unfold add_content. cbn [it_entry it_auth it_seq it_local]. rewrite Em. cbn [mark_local set_failed ln_sender ln_ts].
  destruct (obj_get (base log) _) as [x|]; [by rewrite andb_false_r|done].
Qed.

Lemma marked me server b channel s ts m v :
  obj_get b (logKey server channel) = Some s -> obj_get (base (sl_log s)) (messageId me ts) = Some m ->
  obj_get (markLocalState me server b channel ts v) (logKey server channel)
  = Some {| sl_log := set_base (sl_log s) (map_set (base (sl_log s)) (messageId me ts) (set_failed v m)); sl_loaded := sl_loaded s |}.
Proof. intros Es Em. unfold markLocalState. rewrite Es, Em. by apply write_log_get. Qed.

Lemma map_set_twice {A} (o : list (jstr * A)) k v v' : map_set (map_set o k v) k v' = map_set o k v'.
Proof.
  unfold map_set at 1. rewrite obj_get_map_set, str_eqb_refl. unfold map_set. destruct (obj_get o k) eqn:E.
  - clear E. induction o as [|[k' x] o IH]; [done|]. cbn [obj_update]. destruct (str_eqb k' k) eqn:Ek; cbn [obj_update]; rewrite Ek; [done|by rewrite IH].
  - induction o as [|[k' x] o IH]; cbn [obj_update app]; [by rewrite str_eqb_refl|].
    cbn [obj_get] in E. destruct (str_eqb k' k); [done|]. by rewrite IH.
Qed.

Section delivery.
Context `{Web}.
Context (me : jstr) (channel : jstr) (r : circle) (t : jstr) (n : Z).
Context (Hme : me <> []) (Hn : ntruthy (int n) = true).

Notation room := (logKey (c_id r) channel).
Notation id := (messageId me (int n)).

(** The relay was asked to keep the line and answered. *)
Definition taken (w : written) (su : supplies) : bool := asked w && bool_decide (is_Some (su_reply su)).

(** What goes to whoever is online. *)
Definition live_copy (q : option reply) : val :=
  jobj ([("k", VStr (js "chat")); ("ch", VStr channel); ("text", VStr t); ("ts", VNum (int n))]%string ++ quoted q).

(** What [deliverChat] leaves of a line that stands already, or not yet. *)
Lemma delivered b s rep q su :
  obj_get b room = Some s -> normalizeReply rep = Ok q ->
  (forall m, obj_get (base (sl_log s)) id = Some m -> exists f, m = own_line (c_id r) channel me (int n) t q f) ->
  exists w s', deliverChat me r b channel (VStr t) (int n) rep su = Ok (w, if taken w su then Some [live_copy q] else None) /\
    obj_get (wr_book w) room = Some s' /\
    base (sl_log s') = map_set (base (sl_log s)) id (own_line (c_id r) channel me (int n) t q (negb (taken w su))).
Proof.
  intros Es Eq Hprior. unfold deliverChat. rewrite Eq. cbn [rbind]. pose proof (own_echo (sl_log s) (c_id r) channel me (int n) t q Hme Hn (quote_again _ _ Eq)) as Ea.
  set (entry := _ ++ quoted q) in *.
  assert ((VObj (obj_spread [(js "sender", VStr me)] (keyed entry))).["ts"] = VNum (int n)) as Ets by (destruct q; reflexivity).
  set (log' := set_base (sl_log s) (map_set (base (sl_log s)) id (own_line (c_id r) channel me (int n) t q false))) in *.
  assert (exists log1 k m1, addLocalEntry (sl_log s) (VObj (obj_spread [(js "sender", VStr me)] (keyed entry))) (c_id r) (VStr channel) = (log1, Ok k) /\
    obj_get (base log1) id = Some m1 /\ forall v, map_set (base log1) id (set_failed v m1) = map_set (base (sl_log s)) id (own_line (c_id r) channel me (int n) t q v))
    as (log1 & k & m1 & E1 & Em1 & Hset).
  { destruct (obj_get (base (sl_log s)) id) as [m|] eqn:Em.
    - destruct (Hprior m eq_refl) as [f ->]. eexists _, _, _. split; [exact Ea|]. split; [exact Em|]. done.
    - eexists _, _, _. split; [exact Ea|]. cbn [base set_base log']. rewrite obj_get_map_set, str_eqb_refl. split; [done|].
      intros v. by rewrite map_set_twice. }
  destruct (append_echoed me r channel b s entry (int n) su log1 k Es E1 Ets) as (w & Ew & Eb & Eseq). rewrite Ew. cbn [rbind].
  pose proof (fun v => marked me (c_id r) (wr_book w) channel _ (int n) m1 v Eb Em1) as Hm. cbn [sl_log sl_loaded] in Hm.
  assert (forall b1, taken (with_book w b1) su = bool_decide (is_Some (wr_seq w))) as Ht.
  { intros b1. unfold taken, asked. cbn [wr_requests with_book]. rewrite Eseq. unfold asked. destruct (existsb _ _), (su_reply su); reflexivity. }
  destruct (wr_seq w); eexists _, _; rewrite Ht; (split; [reflexivity|]); cbn [wr_book with_book]; (split; [apply Hm|]);
    cbn [sl_log base set_base]; apply Hset.
Qed.

(** C27: A line whose write the relay did not answer stays on screen, marked as
    failed, and is sent to nobody.  Pressing retry asks again with the same text,
    time and quote: when the relay answers, the mark goes and the line is sent to
    whoever is online; when it does not, or the line cannot be sealed, the mark
    stays and nothing is sent.  The room holds the line once throughout and its
    other lines are untouched.  (An answer that is lost leaves a mark on a line
    the relay has.) *)
Theorem a_failed_line_heals b s rep q su :
  obj_get b room = Some s -> normalizeReply rep = Ok q -> obj_get (base (sl_log s)) id = None -> su_reply su = None ->
  exists w s1, deliverChat me r b channel (VStr t) (int n) rep su = Ok (w, None) /\ obj_get (wr_book w) room = Some s1 /\
    base (sl_log s1) = base (sl_log s) ++ [(id, own_line (c_id r) channel me (int n) t q true)] /\
    forall su2, exists w2 s2 (answered := asked w2 && bool_decide (is_Some (su_reply su2))),
      retryMessage me r (wr_book w) channel (own_line (c_id r) channel me (int n) t q true) su2
        = Ok (w2, if answered then Some [live_copy q] else None) /\
      obj_get (wr_book w2) room = Some s2 /\
      base (sl_log s2) = base (sl_log s) ++ [(id, own_line (c_id r) channel me (int n) t q (negb answered))].
Proof.
  intros Es Eq Em Esu. destruct (delivered b s rep q su Es Eq) as (w & s1 & E & Es1 & Eb1); [by rewrite Em|].
  assert (taken w su = false) as Et by (unfold taken; rewrite Esu; apply andb_false_r). rewrite Et in E, Eb1. cbn [negb] in Eb1.
  assert (forall v, map_set (base (sl_log s)) id (own_line (c_id r) channel me (int n) t q v)
    = base (sl_log s) ++ [(id, own_line (c_id r) channel me (int n) t q v)]) as Hnew by (intros v; unfold map_set; by rewrite Em).
  exists w, s1. split; [done|]. split; [done|]. split; [by rewrite Eb1, Hnew|]. intros su2. unfold retryMessage. cbn [ln_ts own_line text_val ln_body ln_reply].
  assert (obj_get (base (sl_log s1)) id = Some (own_line (c_id r) channel me (int n) t q true)) as Em1
    by (by rewrite Eb1, obj_get_map_set, str_eqb_refl).
  pose proof (marked me (c_id r) (wr_book w) channel s1 (int n) _ false Es1 Em1) as Hm.
  destruct (delivered _ _ (quote_val q) q su2 Hm (quote_again _ _ Eq)) as (w2 & s2 & E2 & Es2 & Eb2).
  { cbn [sl_log base set_base]. intros m. rewrite obj_get_map_set, str_eqb_refl. intros [= <-]. by exists false. }
  exists w2, s2. cbn zeta. fold (taken w2 su2). split; [exact E2|]. split; [done|].
  rewrite Eb2. cbn [sl_log base set_base]. by rewrite Eb1, !map_set_twice, Hnew.
Qed.
End delivery.

(** *** Typing *)

(** A keystroke: the circle, the room and the instant.  [typed]: those that send
    a signal. *)
Fixpoint typed (sentAt : list (jstr * num)) (l : list (jstr * jstr * Z)) : list (jstr * jstr * Z) :=
  match l with
  | [] => []
  | (srv, channel, t) :: rest =>
      match typing sentAt srv channel (int t) with
      | (sentAt', true) => (srv, channel, t) :: typed sentAt' rest
      | (sentAt', false) => typed sentAt' rest
      end
  end.

Definition stroke_room (k : jstr * jstr * Z) : jstr := k.1.1 ++ js "/" ++ k.1.2.

(** When those of one room were sent. *)
Definition signals (key : jstr) (l : list (jstr * jstr * Z)) : list Z := (filter (fun s => stroke_room s = key) l).*2.

Definition clock_ok (l : list (jstr * jstr * Z)) : Prop :=
  StronglySorted (fun a b => a.2 <= b.2) l /\ Forall (fun k => 3000 <= k.2 < 2 ^ 53) l.

Lemma typing_step sentAt server channel t z :
  0 <= z <= t -> t < 2 ^ 53 -> default (int 0) (obj_get sentAt (server ++ js "/" ++ channel)) = int z ->
  typing sentAt server channel (int t) = if t - z <? 3000 then (sentAt, false) else (map_set sentAt (server ++ js "/" ++ channel) (int t), true).
Proof.
  intros Hz Ht E. unfold typing. rewrite E. rewrite nsub_int by lia. unfold TYPING_HEARTBEAT_MS. by rewrite int_lt.
Qed.

Lemma typed_spaced l : forall sentAt, clock_ok l ->
  (forall key v, obj_get sentAt key = Some v -> exists z, v = int z /\ 0 <= z /\ Forall (fun k => z <= k.2) l) ->
  forall key, let last := default (int 0) (obj_get sentAt key) in
    StronglySorted (fun a b => a + 3000 <= b) (signals key (typed sentAt l)) /\
    Forall (fun a => forall z, last = int z -> z + 3000 <= a) (signals key (typed sentAt l)) /\
    forall k, k ∈ l -> stroke_room k = key ->
      (exists z, last = int z /\ z <= k.2 < z + 3000) \/ exists z, z ∈ signals key (typed sentAt l) /\ z <= k.2 < z + 3000.
Proof.
  induction l as [|[[server channel] t] l IH]; intros sentAt [Hs Hb] Hm key last.
  { split_and!; [constructor|constructor|]. by intros k []%elem_of_nil. }
  inversion Hs as [|? ? Hs' Ht]; subst. apply Forall_cons in Hb as [Hb Hb']. cbn [snd] in Ht, Hb.
  set (here := server ++ js "/" ++ channel).
  assert (exists z, default (int 0) (obj_get sentAt here) = int z /\ 0 <= z <= t) as (z & Ez & Hz).
  { destruct (obj_get sentAt here) as [v|] eqn:Ev; cbn [from_option id]; [|exists 0; split; [done|lia]].
    destruct (Hm _ _ Ev) as (z & -> & Hz & [Hzt _]%Forall_cons). by exists z. }
  cbn [typed]. rewrite (typing_step sentAt server channel t z) by (done || lia). fold here. destruct (Z.ltb_spec (t - z) 3000) as [Hlt|Hge].
  - destruct (IH sentAt (conj Hs' Hb')) with (key := key) as (H1 & H2 & H3).
    { intros k v Hk. destruct (Hm k v Hk) as (z' & -> & H0 & [_ ?]%Forall_cons). by exists z'. }
    split_and!; [done|done|]. intros k [->|Hk]%elem_of_cons Hkey; [|by apply H3].
    left. exists z. unfold last. rewrite <- Hkey. unfold stroke_room. cbn [fst snd]. fold here. split; [done|]. lia.
  - destruct (IH (map_set sentAt here (int t)) (conj Hs' Hb')) with (key := key) as (H1 & H2 & H3).
    { intros k v. rewrite obj_get_map_set. destruct (str_eqb here k); [intros [= <-]; exists t; split; [done|]; split; [lia|done]|].
      intros Hk. destruct (Hm k v Hk) as (z' & -> & H0 & [_ ?]%Forall_cons). by exists z'. }
    rewrite obj_get_map_set in H2, H3. unfold signals. rewrite filter_cons. change (stroke_room (server, channel, t)) with here. destruct (str_eqb here key) eqn:Ek.
    + apply str_eqb_eq in Ek as <-. rewrite decide_True by done. cbn [from_option id fmap list_fmap snd] in *. fold (signals here (typed (map_set sentAt here (int t)) l)).
      split_and!.
      * constructor; [done|]. eapply Forall_impl; [exact H2|]. intros a Ha. by apply Ha.
      * constructor; [intros z' Ez'; unfold last in Ez'; rewrite Ez in Ez'; apply int_inj in Ez' as <-; lia|].
        eapply Forall_impl; [exact H2|]. intros a Ha z' Ez'. unfold last in Ez'. rewrite Ez in Ez'. apply int_inj in Ez' as <-. specialize (Ha t eq_refl). lia.
      * intros k [->|Hk]%elem_of_cons Hkey; [right; exists t; split; [by left|cbn; lia]|].
        destruct (H3 k Hk Hkey) as [(z' & <-%int_inj & Hz')|(z' & Hin & Hz')]; right; [exists t; split; [by left|done]|exists z'; split; [by right|done]].
    + rewrite decide_False by (by apply str_eqb_neq). fold (signals key (typed (map_set sentAt here (int t)) l)). split_and!; [done|done|].
      intros k [->|Hk]%elem_of_cons Hkey; [|by apply H3]. apply str_eqb_neq in Ek. done.
Qed.

Lemma typed_sublist l : forall sentAt, typed sentAt l `sublist_of` l.
Proof.
  induction l as [|[[server channel] t] l IH]; intros sentAt; cbn [typed]; [done|].
  destruct (typing _ _ _ _) as [m []]; [by constructor|by constructor].
Qed.

Lemma typed_covers l : clock_ok l ->
  (forall key, StronglySorted (fun a b => a + 3000 <= b) (signals key (typed [] l))) /\
  forall k, k ∈ l -> exists s, s ∈ typed [] l /\ stroke_room s = stroke_room k /\ s.2 <= k.2 < s.2 + 3000.
Proof.
  intros Hc. assert (forall key, let last := default (int 0) (obj_get (A := num) [] key) in
    StronglySorted (fun a b => a + 3000 <= b) (signals key (typed [] l)) /\
    Forall (fun a => forall z, last = int z -> z + 3000 <= a) (signals key (typed [] l)) /\
    forall k, k ∈ l -> stroke_room k = key ->
      (exists z, last = int z /\ z <= k.2 < z + 3000) \/ exists z, z ∈ signals key (typed [] l) /\ z <= k.2 < z + 3000) as Hall
    by (intros key; by apply typed_spaced).
  split; [intros key; apply Hall|]. intros k Hk. destruct (Hall (stroke_room k)) as (_ & _ & Hsent).
  destruct Hc as [_ Hb]. rewrite Forall_forall in Hb. specialize (Hb k Hk).
  destruct (Hsent k Hk eq_refl) as [(z & Ez & Hz)|(z & Hin & Hz)].
  - change (int 0 = int z) in Ez. apply int_inj in Ez as <-. lia.
  - apply list_elem_of_fmap in Hin as (s & -> & [Hs Hin]%list_elem_of_filter). by exists s.
Qed.

(** What a signal says, and a member's signals as a reader takes them, each
    [delay] after it was sent. *)
Definition typing_text (channel : jstr) : jstr := stringify (jobj [("k", VStr (js "type")); ("ch", VStr channel)]%string).

Definition hears_one (sender : jstr) (delay : Z) (d : desk) (s : jstr * jstr * Z) : desk :=
  (onEphemeral d s.1.1 sender (typing_text s.1.2) (int (s.2 + delay))).1.

Definition hears_typing (sender : jstr) (delay : Z) (d : desk) (l : list (jstr * jstr * Z)) : desk :=
  fold_left (hears_one sender delay) l d.

Lemma typing_heard d srv sender channel now :
  Forall unit16 channel -> sender <> dk_me d ->
  onEphemeral d srv sender (typing_text channel) now
  = (set_typing d (set_live (dk_typing d) srv sender {| ty_channel := channel; ty_ts := now |}), None).
Proof.
  intros Hu Hne. unfold onEphemeral, typing_text. rewrite json_roundtrip.
  2-3: apply Actions.Actions.travels_jobj; [vm_compute; reflexivity|];
    repeat apply Forall_cons_2; try apply Forall_nil_2; cbn [snd]; (apply Actions.Actions.travels_str; first [done|repeat constructor]).
  set (c := jobj _). change (nullish c) with false.
  replace (is_kind c "voice" || is_kind c "rtc" || is_kind c "ring") with false by (vm_compute; reflexivity).
  replace (is_kind c "pres") with false by (vm_compute; reflexivity). replace (is_kind c "want") with false by (vm_compute; reflexivity).
  replace (is_kind c "type") with true by (vm_compute; reflexivity). cbn match.
  replace (c.["ch"]) with (VStr channel) by (vm_compute; reflexivity).
  unfold setLiveTyping. by rewrite (proj2 (str_eqb_neq sender (dk_me d))).
Qed.

Lemma one_heard sender delay d s :
  Forall unit16 s.1.2 -> sender <> dk_me d ->
  hears_one sender delay d s =
  set_typing d (set_live (dk_typing d) s.1.1 sender {| ty_channel := s.1.2; ty_ts := int (s.2 + delay) |}).
Proof. intros Hu Hne. unfold hears_one. by rewrite (typing_heard d s.1.1 sender s.1.2 (int (s.2 + delay)) Hu Hne). Qed.

#[local] Opaque hears_one.

Lemma hears_cons sender delay d x l : hears_typing sender delay d (x :: l) = hears_typing sender delay (hears_one sender delay d x) l.
Proof. reflexivity. Qed.

Lemma one_me sender delay d s : Forall unit16 s.1.2 -> sender <> dk_me d -> dk_me (hears_one sender delay d s) = dk_me d.
Proof. intros Hu Hne. by rewrite (one_heard sender delay d s Hu Hne). Qed.

Lemma hears_me sender delay l : forall d,
  sender <> dk_me d -> Forall (fun s => Forall unit16 s.1.2) l -> dk_me (hears_typing sender delay d l) = dk_me d.
Proof.
  induction l as [|x l IH]; intros d Hne Hl; [reflexivity|]. apply Forall_cons in Hl as [Hx Hl].
  pose proof (one_me sender delay d x Hx Hne) as Hone. rewrite hears_cons. revert Hone. generalize (hears_one sender delay d x). intros y Hy.
  rewrite IH; [exact Hy|by rewrite Hy|exact Hl].
Qed.

Lemma hears_app sender delay d l s : hears_typing sender delay d (l ++ [s]) = hears_one sender delay (hears_typing sender delay d l) s.
Proof. exact (fold_left_app (hears_one sender delay) l [s] d). Qed.

Lemma hears_snoc sender delay d l s :
  sender <> dk_me d -> Forall (fun s => Forall unit16 s.1.2) (l ++ [s]) ->
  hears_typing sender delay d (l ++ [s]) =
  set_typing (hears_typing sender delay d l)
    (set_live (dk_typing (hears_typing sender delay d l)) s.1.1 sender {| ty_channel := s.1.2; ty_ts := int (s.2 + delay) |}).
Proof.
  intros Hne [Hl Hs]%Forall_app. apply Forall_cons in Hs as [Hs _]. rewrite hears_app.
  pose proof (hears_me sender delay l d Hne Hl) as Hme. revert Hme. generalize (hears_typing sender delay d l). intros x Hme.
  apply one_heard; [done|]. by rewrite Hme.
Qed.

(** The last signal is what the reader holds. *)
Lemma hears_last sender delay d l s :
  sender <> dk_me d -> sender <> js "__proto__" -> Forall (fun s => Forall unit16 s.1.2) (l ++ [s]) ->
  obj_get (default [] (obj_get (dk_typing (hears_typing sender delay d (l ++ [s]))) s.1.1)) sender
  = Some {| ty_channel := s.1.2; ty_ts := int (s.2 + delay) |}.
Proof.
  intros Hne Hp Hl. rewrite hears_snoc by done. generalize (hears_typing sender delay d l). intros x.
  cbn [dk_typing set_typing]. unfold set_live, obj_assign. rewrite obj_get_map_set, str_eqb_refl.
  apply str_eqb_neq in Hp. cbn [from_option id]. by rewrite Hp, andb_false_l, obj_get_put, str_eqb_refl.
Qed.


(** A line that arrives puts the sender's typing out, and the sender's device
    does not know: a keystroke after it within three seconds of the last signal
    sends none, so the reader shows nothing of somebody who types on. *)
Theorem a_line_darkens_typing sender srv channel d t t' :
  sender <> dk_me d -> sender <> js "__proto__" -> Forall unit16 channel -> 3000 <= t <= t' -> t' < t + 3000 -> t' < 2 ^ 53 ->
  typed [] [(srv, channel, t); (srv, channel, t')] = [(srv, channel, t)] /\
  forall r now, obj_get (default [] (obj_get (dk_typing (run_effect r now
      (hears_typing sender 0 d [(srv, channel, t)]) (EClearTyping srv sender)).1) srv)) sender = None.
Proof.
  intros Hne Hp Hu Ht Hlt Hm. split.
  - cbn [typed]. rewrite (typing_step [] srv channel t 0) by (done || lia). destruct (Z.ltb_spec (t - 0) 3000); [lia|].
    rewrite (typing_step _ srv channel t' t); [|lia|done|by rewrite obj_get_map_set, str_eqb_refl].
    by destruct (Z.ltb_spec (t' - t) 3000); [|lia].
  - intros r now. cbn [run_effect fst dk_typing set_typing]. unfold clear_live.
    destruct (obj_get (dk_typing (hears_typing sender 0 d [(srv, channel, t)])) srv) as [o|] eqn:Eo.
    + rewrite obj_get_map_set, str_eqb_refl. cbn [from_option id]. by rewrite obj_get_delete, str_eqb_refl.
    + by rewrite Eo.
Qed.

#[local] Transparent hears_one.

(** *** Presence and rallies *)

Lemma ref_again v g : normalizeGameRef v = Ok (Some g) -> normalizeGameRef (ref_val g) = Ok (Some g).
Proof.
  unfold normalizeGameRef at 1. destruct (not_an_object v); [done|]. intros H. inv_ok. destruct (_ || _) eqn:E2; inv_ok.
  match goal with Hn : clip_trim _ _ = Ok ?x |- _ => pose proof (Snapshot.Snapshot.tidy_clip_trim _ x (Snapshot.Snapshot.clip_trim_tidy _ _ _ Hn)) as Hn' end.
  match goal with Hi : clip 40 _ = Ok ?x |- _ => pose proof (Snapshot.Snapshot.short_clip 40 x (clip_length _ _ _ Hi)) as Hi' end.
  unfold normalizeGameRef. change (not_an_object (ref_val _)) with false. cbn match.
  match goal with |- context [ref_val ?g] => change ((ref_val g).["id"]) with (VStr (gr_id g));
    change ((ref_val g).["name"]) with (VStr (gr_name g)) end. cbn [gr_id gr_name]. rewrite Hi'. cbn [rbind]. rewrite Hn'. cbn [rbind].
  rewrite E2. f_equal. f_equal. f_equal. generalize (normalize_kind v.["kind"]). intros [|]; vm_compute; reflexivity.
Qed.

Lemma chosen_again v o : chosen v = Ok o -> normalizeGameRef (game_val o) = Ok o.
Proof.
  unfold chosen. destruct (truthy v); [|by intros [= <-]]. destruct o as [g|]; [apply ref_again|done].
Qed.

Definition units_ok (o : option game_ref) : Prop := forall g, o = Some g -> Forall unit16 (gr_id g) /\ Forall unit16 (gr_name g).

Lemma game_travels o : units_ok o -> Actions.Actions.travels (game_val o).
Proof.
  intros Ho. destruct o as [g|]; [|done]. destruct (Ho g eq_refl) as [Hi Hn].
  apply Actions.Actions.travels_jobj; [vm_compute; reflexivity|].
  repeat apply Forall_cons_2; try apply Forall_nil_2; cbn [snd]; try by apply Actions.Actions.travels_str.
  destruct (gr_kind g); apply Actions.Actions.travels_str; repeat constructor.
Qed.

Lemma claim_parsed kind field o n :
  Actions.Actions.keys_ok [("k", VNull); (field, VNull); ("ts", VNull)]%string = true -> Forall unit16 (js kind) -> units_ok o -> safe n ->
  json_parse (stringify (jobj [("k", VStr (js kind)); (field, game_val o); ("ts", VNum (int n))]%string))
  = Ok (jobj [("k", VStr (js kind)); (field, game_val o); ("ts", VNum (int n))]%string).
Proof.
  intros Hk Hu Ho Hn. apply json_roundtrip; apply Actions.Actions.travels_jobj; try exact Hk.
  all: repeat apply Forall_cons_2; try apply Forall_nil_2; cbn [snd];
    [by apply Actions.Actions.travels_str|by apply game_travels|by apply Actions.Actions.travels_int].
Qed.

Lemma claim_ts_made n now : 0 < n <= now -> claim_ts (int n) (int now) = int n.
Proof.
  intros Hn. unfold claim_ts. cbn [nfinite]. change (Fin 0) with (int 0). rewrite int_lt, nmin_int.
  replace (0 <? n) with true by (symmetry; apply Z.ltb_lt; lia). cbn [andb]. f_equal. lia.
Qed.

(** Whoever says what they play, or calls for players, is shown by every
    reader exactly as by their own device: with the game as the device
    normalised it and the time it was said, however late it arrives, so that
    the claim fades everywhere at the same moment.  A call wakes the others,
    standing down wakes nobody, and neither reaches the voice manager. *)
Theorem claims_arrive_as_made d r gameRef o n :
  0 < n -> safe n -> chosen gameRef = Ok o -> units_ok o ->
  exists d1 e1 d2 e2 c,
    setPlaying d r gameRef (int n) = Ok (d1, e1) /\ setWant d r gameRef (int n) = Ok (d2, e2) /\
    cl_game c = o /\ cl_ts c = int n /\
    dk_presence d1 = set_live (dk_presence d) (c_id r) (dk_me d) c /\ dk_wants d2 = set_live (dk_wants d) (c_id r) (dk_me d) c /\
    ep_notify e1 = [] /\ (forall m, m ∈ ep_notify e2 <-> o <> None /\ m ∈ default [] (c_members r) /\ m <> dk_me d) /\
    forall there now, n <= now ->
      onEphemeral there (c_id r) (dk_me d) (stringify (ep_content e1)) (int now)
        = (set_presence there (set_live (dk_presence there) (c_id r) (dk_me d) c), None) /\
      onEphemeral there (c_id r) (dk_me d) (stringify (ep_content e2)) (int now)
        = (set_wants there (set_live (dk_wants there) (c_id r) (dk_me d) c), None).
Proof.
  intros Hn Sn Ec Ho. unfold setPlaying, setWant. rewrite Ec. cbn [rbind].
  eexists _, _, _, _, {| cl_game := o; cl_ts := int n |}. split_and!; [reflexivity..| | |].
  - done.
  - intros m. destruct o as [g|]; cbn [sendEphemeral ep_notify].
    + rewrite list_elem_of_filter. naive_solver.
    + rewrite elem_of_nil. naive_solver.
  - intros there now Hnow. pose proof (chosen_again _ _ Ec) as Eo. cbn [sendEphemeral ep_content]. unfold onEphemeral.
    rewrite (claim_parsed "pres" "playing" o n), (claim_parsed "want" "want" o n)
      by (try done; try (vm_compute; reflexivity); repeat constructor).
    set (p := jobj [_; ("playing"%string, _); _]). set (w := jobj [_; ("want"%string, _); _]).
    replace (is_kind p "voice" || is_kind p "rtc" || is_kind p "ring") with false by (vm_compute; reflexivity).
    replace (is_kind w "voice" || is_kind w "rtc" || is_kind w "ring") with false by (vm_compute; reflexivity).
    replace (is_kind p "pres") with true by (vm_compute; reflexivity). replace (is_kind w "pres") with false by (vm_compute; reflexivity).
    replace (is_kind w "want") with true by (vm_compute; reflexivity). change (nullish p) with false. change (nullish w) with false. cbn match.
    unfold normalizePresence, normalizeWant. change (not_an_object p) with false. change (not_an_object w) with false.
    change (p.["playing"]) with (game_val o). change (w.["want"]) with (game_val o). change (p.["ts"]) with (VNum (int n)). change (w.["ts"]) with (VNum (int n)).
    rewrite Eo. cbn [rbind to_number]. rewrite claim_ts_made by lia. done.
Qed.
End MessageFacts.

(** ** Runs *)

Module Talk.
Import Logs.Logs Logs.LogFacts Logs.Room Messages MessageFacts.
Import ToyFacts.

Lemma emoji_tidy : Forall tidy EMOJI.
Proof. repeat apply Forall_cons_2; try apply Forall_nil_2; (split; [vm_compute; reflexivity|split; [discriminate|vm_compute; reflexivity]]). Qed.

Notation general := (js "general") (only parsing).

(** Bo's line, read from the relay, and one of Ada's. *)
Definition lines_read : channel_log :=
  (addEntries createChannelLog
    [relay_item 1 (Log.entry "chat" "bo" 1000 [("text"%string, VStr (js "8:40"))]) signed;
     relay_item 2 (Log.entry "chat" "ada" 1500 [("text"%string, VStr (js "ok"))]) signed] (js "g") (VStr general)).1.
Definition open_room : list (jstr * slot) := [(logKey (js "g") general, {| sl_log := lines_read; sl_loaded := true |})].
Definition line_read (who text : string) (ts seq : Z) : line :=
  {| ln_server := js "g"; ln_channel := VStr general; ln_sender := js who; ln_ts := int ts; ln_body := LText (js text); ln_reply := None;
     ln_auth := Some signed; ln_seq := Some (int seq); ln_local := false; ln_system := false; ln_failed := false; ln_edited := false;
     ln_deleted := false; ln_reacts := None |}.
Definition supply (reply : option num) : supplies := {| su_hid := []; su_hkey := []; su_iv := iv; su_reply := reply |}.

Lemma room_kept : kept (js "g") (VStr general) lines_read.
Proof.
  apply kept_add; [constructor|]. repeat apply Forall_cons_2; try apply Forall_nil_2; cbn; eexists; (split; [reflexivity|lia]).
Qed.

Lemma room_reads : renderLog lines_read = Ok [line_read "bo" "8:40" 1000 1; line_read "ada" "ok" 1500 2].
Proof. vm_compute. reflexivity. Qed.

Lemma pressing_an_emoji_toggles_it_witness :
  exists w sent s' m',
    Messages.react (js "ada") home open_room general (js "bo") (int 1000) [55357; 56397]%N (int 2000) (supply None) = Ok (w, sent) /\
    obj_get (wr_book w) (logKey (js "g") general) = Some s' /\ kept (js "g") (VStr general) (sl_log s') /\
    renderLog (sl_log s') = Ok (swap (line_read "bo" "8:40" 1000 1) m' <$> [line_read "bo" "8:40" 1000 1; line_read "ada" "ok" 1500 2]) /\
    under m' [55357; 56397]%N (js "ada") = negb (under (line_read "bo" "8:40" 1000 1) [55357; 56397]%N (js "ada")) /\
    (forall e who, (e, who) <> ([55357; 56397]%N, js "ada") -> under m' e who = under (line_read "bo" "8:40" 1000 1) e who).
Proof.
  eapply (pressing_an_emoji_toggles_it (js "ada") home general open_room _ (line_read "bo" "8:40" 1000 1) [55357; 56397]%N 2000 (supply None));
    [reflexivity|apply room_kept|apply room_reads|by left|discriminate|reflexivity| | |].
  - pose proof emoji_tidy as He. rewrite Forall_forall in He. apply He. by left.
  - right. cbn. unfold REACT_MAX. lia.
  - vm_compute. reflexivity.
Defined.

Lemma edited_line_reads_anew_witness :
  exists w sent s',
    editMessage (js "ada") home open_room general (line_read "ada" "ok" 1500 2) (VStr (js " sure ")) (int 2000) (supply None) = Ok (Some (w, sent)) /\
    obj_get (wr_book w) (logKey (js "g") general) = Some s' /\
    renderLog (sl_log s') = Ok (swap (line_read "ada" "ok" 1500 2) (set_text (line_read "ada" "ok" 1500 2) (trim (js " sure ")))
      <$> [line_read "bo" "8:40" 1000 1; line_read "ada" "ok" 1500 2]).
Proof.
  eapply (edited_line_reads_anew (js "ada") home general open_room _ (line_read "ada" "ok" 1500 2) (js "ok") (VStr (js " sure ")) (js " sure ") 2000 (supply None));
    [reflexivity|apply room_kept|apply room_reads|by right; left|discriminate|reflexivity|reflexivity|reflexivity|reflexivity|..].
  - vm_compute. discriminate.
  - vm_compute. discriminate.
  - vm_compute. reflexivity.
Defined.

(** The relay is away, then back. *)
Definition unsent := deliverChat (js "ada") home open_room general (VStr (js "hi")) (int 2000) VNull (supply None).

Lemma a_failed_line_heals_witness : exists w w2 s2,
  unsent = Ok (w, None) /\
  retryMessage (js "ada") home (wr_book w) general (own_line (js "g") general (js "ada") (int 2000) (js "hi") None true) (supply (Some (int 3)))
    = Ok (w2, if asked w2 then Some [live_copy general (js "hi") 2000 None] else None) /\
  obj_get (wr_book w2) (logKey (js "g") general) = Some s2 /\
  base (sl_log s2) = base lines_read ++ [(messageId (js "ada") (int 2000), own_line (js "g") general (js "ada") (int 2000) (js "hi") None (negb (asked w2)))].
Proof.
  destruct (a_failed_line_heals (js "ada") general home (js "hi") 2000 ltac:(discriminate) eq_refl open_room
    {| sl_log := lines_read; sl_loaded := true |} VNull None (supply None)) as (w & s1 & E & _ & _ & Hretry);
    [reflexivity|reflexivity|vm_compute; reflexivity|reflexivity|].
  destruct (Hretry (supply (Some (int 3)))) as (w2 & s2 & E2 & Es2 & Eb).
  rewrite bool_decide_true in E2, Eb by (by eexists). rewrite andb_true_r in E2, Eb.
  exists w, w2, s2. split; [exact E|]. split; [exact E2|]. split; [exact Es2|exact Eb].
Defined.

(** The second try is taken. *)
Lemma retry_is_taken :
  match unsent with
  | Ok (w, None) =>
      match retryMessage (js "ada") home (wr_book w) general (own_line (js "g") general (js "ada") (int 2000) (js "hi") None true) (supply (Some (int 3))) with
      | Ok (_, Some _) => True
      | _ => False
      end
  | _ => False
  end.
Proof. vm_compute. exact I. Qed.

Definition desk0 : desk :=
  {| dk_me := js "ada"; dk_book := []; dk_presence := []; dk_wants := []; dk_typing := []; dk_out := [] |}.
Definition chess : val := jobj [("id", VStr (js "c1")); ("name", VStr (js " Chess ")); ("url", VStr (js "https://x"))]%string.


Lemma a_line_darkens_typing_witness :
  typed [] [(js "g", general, 10000); (js "g", general, 12000)] = [(js "g", general, 10000)].
Proof.
  refine (proj1 (a_line_darkens_typing (js "bo") (js "g") general desk0 10000 12000 _ _ _ _ _ _));
    [discriminate|discriminate|repeat constructor|lia|lia|lia].
Defined.

Lemma claims_arrive_as_made_witness : exists d1 e1 c,
  setPlaying desk0 home chess (int 5000) = Ok (d1, e1) /\ cl_ts c = int 5000 /\
  onEphemeral desk0 (js "g") (js "ada") (stringify (ep_content e1)) (int 9000)
    = (set_presence desk0 (set_live [] (js "g") (js "ada") c), None).
Proof.
  destruct (claims_arrive_as_made desk0 home chess (Some {| gr_id := js "c1"; gr_name := js "Chess"; gr_kind := activity |}) 5000)
    as (d1 & e1 & d2 & e2 & c & E1 & _ & _ & Ec & _ & _ & _ & _ & Hread).
  - lia.
  - unfold safe. lia.
  - vm_compute. reflexivity.
  - intros g [= <-]. split; repeat constructor.
  - exists d1, e1, c. split; [done|]. split; [done|]. apply Hread. lia.
Defined.
End Talk.
