(* ===== verification/Shelf.v ===== *)
(** * What a device remembers of the shelf (client/src/lib/games.js:
      [lastPlayed], [markPlayed], [isFavorite], [toggleFavorite], [playCount],
      [bumpPlayCount])

    Three tables in the browser's storage, each one JSON text that is read,
    changed and written back on every use.  A write may be refused ("private
    mode"): the functions swallow it. *)

From stdpp Require Import base list numbers option strings.
From Stdlib Require Import ZArith NArith Lia.
From S2P Require Import Prelude JsNum JsString JsValue Json ChanKeys History Snapshot Actions.
Open Scope Z_scope.

Module Shelf.

Notation storage := (list (jstr * jstr)).

Definition LAST_PLAYED_KEY : jstr := js "quorum-last-played".
Definition FAVORITES_KEY : jstr := js "quorum-favorites".
Definition PLAY_COUNT_KEY : jstr := js "quorum-play-count".

(** [JSON.parse(localStorage.getItem(key) ?? '{}')]. *)
Definition read_map (st : storage) (key : jstr) : res val := json_parse (default (js "{}") (obj_get st key)).

(** [map[id]]. *)
Definition index (m : val) (id : jstr) : res val := if nullish m then Throw TypeError else Ok (prop m id).

(** [map[id] = v], in a module; a list is never stored there. *)
Definition put_key (m : val) (id : jstr) (v : val) : res val :=
  match m with VObj o => Ok (VObj (obj_assign o id v)) | VArr l => Ok (VArr l) | _ => Throw TypeError end.

Definition delete_key (m : val) (id : jstr) : val := match m with VObj o => VObj (obj_delete o id) | _ => m end.

(** [localStorage.setItem]; [can]: the browser lets it. *)
Definition write_map (st : storage) (key : jstr) (m : val) (can : bool) : res storage :=
  if can then Ok (map_set st key (stringify m)) else Throw OtherError.

Definition otherwise {A} (a : A) (m : res A) : A := match m with Ok x => x | Throw _ => a end.

Definition lastPlayed (st : storage) (gameId : jstr) : val :=
  otherwise VNull (let* m := read_map st LAST_PLAYED_KEY in let* v := index m gameId in Ok (v ⁇ VNull)).

Definition markPlayed (st : storage) (gameId : jstr) (now : num) (can : bool) : storage :=
  otherwise st (let* m := read_map st LAST_PLAYED_KEY in let* m := put_key m gameId (VNum now) in write_map st LAST_PLAYED_KEY m can).

Definition isFavorite (st : storage) (gameId : jstr) : bool :=
  otherwise false (let* m := read_map st FAVORITES_KEY in let* v := index m gameId in Ok (truthy v)).

Definition toggleFavorite (st : storage) (gameId : jstr) (can : bool) : storage * bool :=
  otherwise (st, isFavorite st gameId)
    (let* m := read_map st FAVORITES_KEY in
     let* v := index m gameId in
     let next := negb (truthy v) in
     let* m := if next then put_key m gameId (VNum (int 1)) else Ok (delete_key m gameId) in
     let* st := write_map st FAVORITES_KEY m can in
     Ok (st, next)).

Definition playCount (st : storage) (gameId : jstr) : val :=
  otherwise (VNum (int 0)) (let* m := read_map st PLAY_COUNT_KEY in let* v := index m gameId in Ok (v ⁇ VNum (int 0))).

(** [v + 1]. *)
Definition plus_one (v : val) : res val :=
  match v with
  | VUndef | VNull | VBool _ | VNum _ => let* n := to_number v in Ok (VNum (nadd n (int 1)))
  | _ => let* s := to_string v in Ok (VStr (s ++ js "1"))
  end.

Definition bumpPlayCount (st : storage) (gameId : jstr) (can : bool) : storage :=
  otherwise st
    (let* m := read_map st PLAY_COUNT_KEY in
     let* v := index m gameId in
     let* v := plus_one (v ⁇ VNum (int 0)) in
     let* m := put_key m gameId v in
     write_map st PLAY_COUNT_KEY m can).

(** ** What it is for *)

(** What happens on the device: a launch marks the time and counts. *)
Inductive deed := Launch (id : jstr) (now : Z) (can : bool) | Star (id : jstr) (can : bool).

Definition does (st : storage) (d : deed) : storage :=
  match d with
  | Launch id now can => bumpPlayCount (markPlayed st id (int now) can) id can
  | Star id can => (toggleFavorite st id can).1
  end.

(** What should be remembered of one game. *)
Record memory := { me_last : option Z; me_fav : bool; me_count : Z }.

Definition recall (id : jstr) (m : memory) (d : deed) : memory :=
  match d with
  | Launch i now can => if can && str_eqb i id then {| me_last := Some now; me_fav := me_fav m; me_count := me_count m + 1 |} else m
  | Star i can => if can && str_eqb i id then {| me_last := me_last m; me_fav := negb (me_fav m); me_count := me_count m |} else m
  end.

Definition remembered (id : jstr) (l : list deed) : memory := foldl (recall id) {| me_last := None; me_fav := false; me_count := 0 |} l.

(** An id that is text and not the name of a method every object has. *)
Definition sound_id (id : jstr) : Prop := Forall unit16 id /\ proto_method [] id = VUndef.

Definition sound_deed (d : deed) : Prop :=
  match d with Launch id now _ => sound_id id /\ safe now | Star id _ => sound_id id end.

(** ** A stored table *)

Definition holds (st : storage) (key : jstr) (f : jstr -> option val) : Prop :=
  exists o, read_map st key = Ok (VObj o) /\ jsonable (VObj o) /\ forall id, obj_get o id = f id.

Definition with_entry (f : jstr -> option val) (id : jstr) (v : option val) (k : jstr) : option val := if str_eqb id k then v else f k.

Lemma sound_not_proto id : sound_id id -> str_eqb id (js "__proto__") = false.
Proof. intros [_ Hp]. apply str_eqb_neq. intros ->. revert Hp. vm_compute. discriminate. Qed.

Lemma holds_index st key f id o :
  read_map st key = Ok (VObj o) -> (forall k, obj_get o k = f k) -> sound_id id -> index (VObj o) id = Ok (default VUndef (f id)).
Proof. intros _ Hf [_ Hp]. unfold index. cbn [nullish prop]. by rewrite Hf, Hp. Qed.

(** Reading back what was written. *)
Lemma holds_written st key o :
  jsonable (VObj o) -> Forall (fun kv => rebuild kv.2 = kv.2) o -> holds (map_set st key (stringify (VObj o))) key (obj_get o).
Proof.
  intros Hj Hr. exists (put_all o []). unfold read_map. rewrite obj_get_map_set, str_eqb_refl. cbn [from_option id].
  rewrite json_parse_stringify, rebuild_obj by done. split; [done|]. split; [rewrite <- rebuild_obj; by apply jsonable_rebuild|].
  intros k. pose proof Hj as [Hn _]%jsonable_obj. rewrite put_all_get by done. destruct (obj_get o k) as [x|] eqn:E; [|done].
  apply obj_get_elem in E. rewrite Forall_forall in Hr. cbn. f_equal. exact (Hr _ E).
Qed.

Lemma holds_other st key key' text f : str_eqb key key' = false -> holds st key' f -> holds (map_set st key text) key' f.
Proof. intros Hk (o & Hr & H). exists o. split; [|done]. unfold read_map in *. by rewrite obj_get_map_set, Hk. Qed.

(** All values are whole numbers. *)
Definition numbers (f : jstr -> option val) : Prop := forall k v, f k = Some v -> exists n, v = VNum (int n) /\ safe n.

Lemma numbers_flat o : (forall k v, obj_get o k = Some v -> exists n, v = VNum (int n) /\ safe n) -> NoDup (obj_keys o) ->
  Forall (fun kv => rebuild kv.2 = kv.2) o.
Proof. intros H Hn. apply Forall_forall. intros [k v] Hin%obj_get_NoDup; [|done]. by destruct (H k v Hin) as (n & -> & _). Qed.

(** A table of numbers. *)
Definition stored (st : storage) (key : jstr) (f : jstr -> option val) : Prop := holds st key f /\ numbers f.

Lemma stored_ext st key f g : (forall k, f k = g k) -> stored st key f -> stored st key g.
Proof.
  intros E [(o & Hr & Hj & Hf) Hn]. split; [exists o; split; [done|]; split; [done|]; intros k; by rewrite Hf|].
  intros k v. rewrite <- E. apply Hn.
Qed.

Lemma stored_other st key key' text f : str_eqb key key' = false -> stored st key' f -> stored (map_set st key text) key' f.
Proof. intros Hk [Hh Hn]. split; [by apply holds_other|done]. Qed.

Lemma stored_write st key o f :
  jsonable (VObj o) -> (forall k, obj_get o k = f k) -> numbers f -> stored (map_set st key (stringify (VObj o))) key f.
Proof.
  intros Hj Hf Hn. split; [|done]. pose proof Hj as [Hk _]%jsonable_obj.
  destruct (holds_written st key o Hj) as (o' & Hr & Hj' & Hf').
  - apply numbers_flat; [|done]. intros k v. rewrite Hf. apply Hn.
  - exists o'. split; [done|]. split; [done|]. intros k. by rewrite Hf'.
Qed.

Lemma stored_put st key f id n :
  stored st key f -> sound_id id -> safe n ->
  exists o, read_map st key = Ok (VObj o) /\ index (VObj o) id = Ok (default VUndef (f id)) /\
    put_key (VObj o) id (VNum (int n)) = Ok (VObj (obj_put o id (VNum (int n)))) /\
    stored (map_set st key (stringify (VObj (obj_put o id (VNum (int n)))))) key (with_entry f id (Some (VNum (int n)))).
Proof.
  intros [(o & Hr & Hj & Hf) Hnum] Hid Hn. exists o. split; [done|]. split; [by eapply holds_index|]. split.
  { unfold put_key, obj_assign. by rewrite sound_not_proto. }
  apply stored_write.
  - apply jsonable_put; [done|apply Hid|by exists n].
  - intros k. unfold with_entry. rewrite obj_get_put. by rewrite Hf.
  - intros k v. unfold with_entry. destruct (str_eqb id k); [|apply Hnum]. intros [= <-]. by exists n.
Qed.

Lemma obj_delete_filter {A} (o : list (jstr * A)) k : obj_delete o k = filter (fun kv => str_eqb kv.1 k = false) o.
Proof. induction o as [|[k' v] o IH]; cbn [obj_delete]; [done|]. rewrite filter_cons. cbn [fst]. destruct (str_eqb k' k); [by rewrite decide_False|by rewrite decide_True, IH]. Qed.

Lemma stored_delete st key f id :
  stored st key f ->
  exists o, read_map st key = Ok (VObj o) /\ stored (map_set st key (stringify (VObj (obj_delete o id)))) key (with_entry f id None).
Proof.
  intros [(o & Hr & Hj & Hf) Hnum]. exists o. split; [done|]. apply stored_write.
  - rewrite obj_delete_filter. by apply jsonable_filter.
  - intros k. unfold with_entry. rewrite obj_get_delete. by rewrite Hf.
  - intros k v. unfold with_entry. destruct (str_eqb id k); [done|apply Hnum].
Qed.

Lemma nadd_1 n : 0 <= n -> n + 1 < 2 ^ 53 -> nadd (int n) (int 1) = int (n + 1).
Proof.
  intros H0 Hn. transitivity (nsub (int n) (int (-1))); [reflexivity|]. by rewrite nsub_int by lia.
Qed.

(** *** The three tables *)

Definition f_last (mem : jstr -> memory) (id : jstr) : option val := (fun n => VNum (int n)) <$> me_last (mem id).
Definition f_fav (mem : jstr -> memory) (id : jstr) : option val := if me_fav (mem id) then Some (VNum (int 1)) else None.
Definition f_count (mem : jstr -> memory) (id : jstr) : option val := if me_count (mem id) =? 0 then None else Some (VNum (int (me_count (mem id)))).

Record agrees (st : storage) (mem : jstr -> memory) : Prop := {
  ag_last : stored st LAST_PLAYED_KEY (f_last mem);
  ag_fav : stored st FAVORITES_KEY (f_fav mem);
  ag_count : stored st PLAY_COUNT_KEY (f_count mem);
}.

Lemma agrees_ext st m1 m2 : (forall id, m1 id = m2 id) -> agrees st m1 -> agrees st m2.
Proof. intros E [H1 H2 H3]. split; (eapply stored_ext; [|eassumption]); intros k; unfold f_last, f_fav, f_count; by rewrite E. Qed.

Lemma launch_agrees st mem id now : 
  agrees st mem -> sound_id id -> safe now -> 0 <= me_count (mem id) -> me_count (mem id) + 1 < 2 ^ 53 ->
  agrees (does st (Launch id now true)) (fun i => recall i (mem i) (Launch id now true)).
Proof.
  intros [H1 H2 H3] Hid Hn Hc0 Hc. cbn [does].
  destruct (stored_put st _ _ id now H1 Hid Hn) as (o1 & R1 & _ & P1 & S1).
  assert (markPlayed st id (int now) true = map_set st LAST_PLAYED_KEY (stringify (VObj (obj_put o1 id (VNum (int now)))))) as ->.
  { unfold markPlayed. rewrite R1. cbn [rbind]. by rewrite P1. }
  set (st1 := map_set st _ _) in *.
  assert (stored st1 PLAY_COUNT_KEY (f_count mem)) as H3' by (by apply stored_other).
  assert (stored st1 FAVORITES_KEY (f_fav mem)) as H2' by (by apply stored_other).
  destruct (stored_put st1 _ _ id (me_count (mem id) + 1) H3' Hid) as (o3 & R3 & I3 & P3 & S3); [unfold safe; lia|].
  assert (plus_one (default VUndef (f_count mem id) ⁇ VNum (int 0)) = Ok (VNum (int (me_count (mem id) + 1)))) as Ep.
  { unfold f_count. destruct (Z.eqb_spec (me_count (mem id)) 0) as [->|Hne]; cbn [from_option coalesce nullish plus_one to_number rbind].
    - vm_compute. reflexivity.
    - unfold Datatypes.id. cbn [coalesce nullish plus_one to_number rbind]. by rewrite nadd_1 by lia. }
  assert (bumpPlayCount st1 id true = map_set st1 PLAY_COUNT_KEY (stringify (VObj (obj_put o3 id (VNum (int (me_count (mem id) + 1))))))) as ->.
  { unfold bumpPlayCount. rewrite R3. cbn [rbind]. rewrite I3. cbn [rbind]. rewrite Ep. cbn [rbind]. by rewrite P3. }
  split.
  - apply stored_other; [done|]. eapply stored_ext; [|exact S1]. intros k. unfold with_entry, f_last, recall. cbn [andb]. by destruct (str_eqb id k).
  - apply stored_other; [done|]. eapply stored_ext; [|exact H2']. intros k. unfold f_fav, recall. cbn [andb]. by destruct (str_eqb id k).
  - eapply stored_ext; [|exact S3]. intros k. unfold with_entry, f_count, recall. cbn [andb]. destruct (str_eqb id k) eqn:Ek; [|done].
    apply str_eqb_eq in Ek as <-. cbn [me_count]. by rewrite (proj2 (Z.eqb_neq _ _)) by lia.
Qed.

Lemma star_agrees st mem id : agrees st mem -> sound_id id -> agrees (does st (Star id true)) (fun i => recall i (mem i) (Star id true)).
Proof.
  intros [H1 H2 H3] Hid. cbn [does].
  assert (exists text, (toggleFavorite st id true).1 = map_set st FAVORITES_KEY text /\
    stored (map_set st FAVORITES_KEY text) FAVORITES_KEY (with_entry (f_fav mem) id (if me_fav (mem id) then None else Some (VNum (int 1))))) as (text & -> & S2).
  { destruct (stored_put st _ _ id 1 H2 Hid) as (o & R & I & P & S); [unfold safe; lia|].
    destruct (stored_delete st _ _ id H2) as (o' & R' & S'). rewrite R in R'. injection R' as <-.
    unfold toggleFavorite. rewrite R. cbn [rbind]. rewrite I. cbn [rbind]. unfold f_fav at 1 3. destruct (me_fav (mem id)); cbn [from_option].
    - change (truthy (VNum (int 1))) with true. eexists. split; [reflexivity|exact S'].
    - cbn [truthy negb]. rewrite P. eexists. split; [reflexivity|exact S]. }
  split.
  - apply stored_other; [done|]. eapply stored_ext; [|exact H1]. intros k. unfold f_last, recall. cbn [andb]. by destruct (str_eqb id k).
  - eapply stored_ext; [|exact S2]. intros k. unfold with_entry, f_fav, recall. cbn [andb]. destruct (str_eqb id k) eqn:Ek; [|done].
    apply str_eqb_eq in Ek as <-. cbn [me_fav]. by destruct (me_fav (mem id)).
  - apply stored_other; [done|]. eapply stored_ext; [|exact H3]. intros k. unfold f_count, recall. cbn [andb]. by destruct (str_eqb id k).
Qed.

(** A refused write changes nothing. *)
Lemma refused_nothing st d : match d with Launch _ _ can | Star _ can => can = false end -> does st d = st.
Proof.
  assert (forall key m, write_map st key m false = Throw OtherError) as Hw by done.
  destruct d as [id now can|id can]; intros ->; cbn [does].
  - assert (markPlayed st id (int now) false = st) as ->.
    { unfold markPlayed. destruct (read_map _ _); cbn [rbind]; [|done]. by destruct (put_key _ _ _). }
    unfold bumpPlayCount. destruct (read_map _ _) as [m|]; cbn [rbind]; [|done]. destruct (index m id) as [v|]; cbn [rbind]; [|done].
    destruct (plus_one _); cbn [rbind]; [|done]. by destruct (put_key _ _ _).
  - unfold toggleFavorite. destruct (read_map _ _) as [m|]; cbn [rbind]; [|done]. destruct (index m id) as [v|]; cbn [rbind]; [|done].
    destruct (negb _); [|done]. by destruct (put_key _ _ _).
Qed.

Lemma deed_agrees st mem d :
  agrees st mem -> sound_deed d -> (forall id, 0 <= me_count (mem id) /\ me_count (mem id) + 1 < 2 ^ 53) ->
  agrees (does st d) (fun i => recall i (mem i) d).
Proof.
  intros Ha Hd Hc. destruct d as [id now [|]|id [|]]; cbn [sound_deed] in Hd.
  - destruct (Hc id), Hd. by apply launch_agrees.
  - rewrite refused_nothing by done. exact Ha.
  - by apply star_agrees.
  - rewrite refused_nothing by done. exact Ha.
Qed.

Lemma recall_count i m d : me_count m <= me_count (recall i m d) <= me_count m + 1.
Proof. destruct d as [id now can|id can]; cbn [recall]; destruct (can && str_eqb id i); cbn [me_count]; lia. Qed.

Lemma deeds_agree l : forall st mem (bound : Z), agrees st mem -> Forall sound_deed l ->
  (forall id, 0 <= me_count (mem id) <= bound) -> bound + Z.of_nat (length l) < 2 ^ 53 ->
  agrees (foldl does st l) (fun i => foldl (recall i) (mem i) l).
Proof.
  induction l as [|d l IH]; intros st mem bound Ha Hl Hc Hb; cbn [foldl]; [done|]. apply Forall_cons in Hl as [Hd Hl]. cbn [length] in Hb.
  apply (IH (does st d) (fun i => recall i (mem i) d) (bound + 1)); [|done| |lia].
  - apply deed_agrees; [done|done|]. intros id. specialize (Hc id). lia.
  - intros id. pose proof (recall_count id (mem id) d). specialize (Hc id). lia.
Qed.

(** Whatever a device launched and starred, in whatever order and with
    whatever writes the browser refused, the shelf shows for every game the
    last launch that could be written, how many there were, and a star exactly
    when it was starred an odd number of times. *)
Theorem shelf_remembers l id :
  Forall sound_deed l -> Z.of_nat (length l) < 2 ^ 53 -> sound_id id ->
  let st := foldl does [] l in let m := remembered id l in
  lastPlayed st id = match me_last m with Some n => VNum (int n) | None => VNull end /\
  isFavorite st id = me_fav m /\ playCount st id = VNum (int (me_count m)).
Proof.
  intros Hl Hb Hid st m.
  assert (agrees st (fun i => remembered i l)) as [[(o1 & R1 & _ & F1) _] [(o2 & R2 & _ & F2) _] [(o3 & R3 & _ & F3) _]].
  { apply (deeds_agree l [] (fun _ => {| me_last := None; me_fav := false; me_count := 0 |}) 0); [|done|cbn; lia|lia].
    split; (split; [exists []; split; [vm_compute; reflexivity|]; split; [split; [constructor|done]|done]|done]). }
  unfold lastPlayed, isFavorite, playCount. rewrite R1, R2, R3. cbn [rbind].
  rewrite (holds_index _ _ _ id _ R1 F1 Hid), (holds_index _ _ _ id _ R2 F2 Hid), (holds_index _ _ _ id _ R3 F3 Hid). cbn [rbind otherwise].
  unfold f_last, f_fav, f_count. fold m. split_and!.
  - by destruct (me_last m).
  - by destruct (me_fav m).
  - destruct (Z.eqb_spec (me_count m) 0) as [E|]; [by rewrite E|done].
Qed.

Lemma shelf_remembers_witness :
  let l := [Launch (js "g1") 1000 true; Star (js "g1") true; Launch (js "g1") 2000 true; Launch (js "g1") 3000 false; Star (js "g2") true; Star (js "g2") true] in
  let st := foldl does [] l in
  lastPlayed st (js "g1") = VNum (int 2000) /\ isFavorite st (js "g1") = true /\ playCount st (js "g1") = VNum (int 2).
Proof.
  apply (shelf_remembers [Launch (js "g1") 1000 true; Star (js "g1") true; Launch (js "g1") 2000 true; Launch (js "g1") 3000 false; Star (js "g2") true; Star (js "g2") true] (js "g1")).
  - repeat apply Forall_cons_2; try apply Forall_nil_2; cbn [sound_deed]; repeat split; try (repeat constructor); unfold safe; lia.
  - cbn. lia.
  - split; [repeat constructor|vm_compute; reflexivity].
Defined.

(** A game whose id every object answers to has a star nobody gave it. *)
Lemma starred_from_the_start : isFavorite [] (js "constructor") = true /\ playCount [] (js "toString") = VFun (js "toString").
Proof. split; vm_compute; reflexivity. Qed.
End Shelf.
