(* ===== verification/Unread.v ===== *)
(** * What a device has not read (client/src/lib/controller.js: [fetchUnread],
      [channelDigest], [circleUnreads], [searchMessages]; relay/src/store.rs:
      [history_count]; relay/src/server.rs: [HistoryCounts])

    A device that holds no messages asks the relay how many entries each log
    gained since it last looked.  The relay sees the second an entry was
    stamped with and who wrote it, not what it says. *)

From stdpp Require Import base list numbers option strings.
From Stdlib Require Import ZArith NArith Lia.
From S2P Require Import Prelude JsNum JsString JsValue Quorum ChanKeys Envelope Log Logs Inbox Search.
Import Logs.Logs Inbox.Inbox Search.Search.
Open Scope Z_scope.

Module Unread.

(** ** The relay *)

Record history_entry := { he_ts : Z; he_author : jstr; he_expires_at : option Z }.

Definition history_count (log : list history_entry) (after_ts : Z) (exclude : jstr) (now : Z) : nat :=
  length (filter (fun e => (after_ts <? he_ts e) && negb (str_eqb (he_author e) exclude)
                           && negb (match he_expires_at e with Some t => t <? now | None => false end) = true) log).

Definition HISTORY_PAGE_MAX : nat := 200.

(** A cursor of the request, as the device sends it. *)
Record cursor := { cu_channel : jstr; cu_hid : val; cu_after : num }.

(** The cursor as the relay reads it: an id and a number of seconds that is not
    negative. *)
Definition read_cursor (c : cursor) : option (jstr * Z) :=
  match cu_hid c with
  | VStr h => if (int 0 <=ₙ cu_after c) && neqb (nfloor (cu_after c)) (cu_after c)
              then match cu_after c with Fin z => Some (h, z / scale) | _ => None end else None
  | _ => None
  end.

(** [HistoryCounts]: a cursor it cannot read refuses the request.  [history]:
    the logs of the group. *)
Definition history_counts (history : jstr -> list history_entry) (user : jstr) (now : Z) (cs : list cursor)
  : option (list (val * val)) :=
  read ← mapM read_cursor cs;
  Some ((fun hc => (VStr hc.1, VNum (int (Z.of_nat (history_count (history hc.1) hc.2 user now))))) <$> take HISTORY_PAGE_MAX read).

(** ** The device *)

(** A record: its circle, what was seen and when it was joined. *)
Record seen_circle := { sc_circle : circle; sc_seen : option obj; sc_joinedAt : val }.

Definition seen_val (o : option obj) : val := match o with Some o => VObj o | None => VUndef end.

(** [markSeen], from the rendered room. *)
Definition look (r : seen_circle) (ms : list line) (channel : jstr) (atLeastTs now : num) : seen_circle :=
  {| sc_circle := sc_circle r; sc_seen := Some (markSeen (sc_seen r) ms channel atLeastTs now); sc_joinedAt := sc_joinedAt r |}.

(** [Object.fromEntries]. *)
Definition from_entries (l : list (jstr * val)) : obj := fold_left (fun acc kv => obj_put acc kv.1 kv.2) l [].

Definition cursor_of (r : seen_circle) (channel : val) : res (option cursor) :=
  let* name := to_string channel in
  let hid := (chanMeta_at (sc_circle r) name).["hid"] in
  if negb (truthy hid) then Ok None else
  let* floor := to_number (seenFloor (seen_val (sc_seen r)) (sc_joinedAt r) name) in
  Ok (Some {| cu_channel := name; cu_hid := hid; cu_after := nfloor (ndiv floor (int 1000)) |}).

Definition by_hid (counts : list (val * val)) : res obj :=
  let* l := rmap (fun c => let* k := to_string c.1 in Ok (k, c.2)) counts in Ok (from_entries l).

(** The count of each room, from the counts of the logs. *)
Definition read_counts (logs : list cursor) (counts : list (val * val)) : res obj :=
  let* o := by_hid counts in
  let* l := rmap (fun c => let* h := to_string (cu_hid c) in Ok (cu_channel c, prop (VObj o) h ⁇ VNum (int 0))) logs in
  Ok (from_entries l).

(** [ask]: the relay's answer to the cursors, [None] when the request fails. *)
Definition fetchUnread (r : seen_circle) (ask : list cursor -> option (list (val * val))) : res obj :=
  let* cs := rmap (cursor_of r) (c_channels (sc_circle r)) in
  match somes cs with
  | [] => Ok []
  | logs =>
      match ask logs with
      | None => Ok []
      | Some counts => match read_counts logs counts with Ok o => Ok o | Throw _ => Ok [] end
      end
  end.

(** A row of the digest: the newest line this session has read. *)
Record last_line := { ll_sender : jstr; ll_text : val; ll_ts : num }.
Record digest_row := { dr_channel : val; dr_unread : val; dr_last : option last_line }.

Definition last_text (m : line) : res val :=
  match ln_body m with
  | LFile f => if truthy f then let* n := get f "name" in let* n := to_string n in Ok (VStr (js "sent " ++ n)) else Ok VUndef
  | LText t => Ok (VStr t)
  | LGame _ | LGone => Ok VUndef
  end.

Definition digest_of (b : list (jstr * slot)) (server : jstr) (unreads : obj) (channel : val) : res digest_row :=
  let* name := to_string channel in
  let* msgs := match obj_get b (logKey server name) with
               | Some s => let* ls := renderLog (sl_log s) in Ok (filter (fun m => ln_system m = false) ls)
               | None => Ok []
               end in
  let* lst := match list.last msgs with
              | Some m => let* t := last_text m in Ok (Some {| ll_sender := ln_sender m; ll_text := t; ll_ts := ln_ts m |})
              | None => Ok None
              end in
  Ok {| dr_channel := channel; dr_unread := prop (VObj unreads) name ⁇ VNum (int 0); dr_last := lst |}.

Definition channelDigest (r : seen_circle) (b : list (jstr * slot)) (ask : list cursor -> option (list (val * val))) : res (list digest_row) :=
  let* unreads := fetchUnread r ask in
  rmap (digest_of b (c_id (sc_circle r)) unreads) (c_channels (sc_circle r)).

(** [n + v]. *)
Definition js_add (n v : val) : res val :=
  match n, v with
  | VNum a, VUndef | VNum a, VNull | VNum a, VBool _ | VNum a, VNum _ => let* b := to_number v in Ok (VNum (nadd a b))
  | _, _ => let* s := to_string n in let* t := to_string v in Ok (VStr (s ++ t))
  end.

Fixpoint sum_values (n : val) (l : list val) : res val :=
  match l with [] => Ok n | v :: l => let* n := js_add n v in sum_values n l end.

(** Each circle is asked in turn. *)
Fixpoint circleUnreads (servers : list seen_circle) (ask : jstr -> list cursor -> option (list (val * val))) (out : obj) : res obj :=
  match servers with
  | [] => Ok out
  | r :: rest =>
      let* per := fetchUnread r (ask (c_id (sc_circle r))) in
      let* n := sum_values (VNum (int 0)) per.*2 in
      circleUnreads rest ask (obj_assign out (c_id (sc_circle r)) n)
  end.

(** ** Searching what was read *)

(** A line as the ranking looks at it. *)
Definition line_val (m : line) : val :=
  jobj ([("sender", VStr (ln_sender m)); ("ts", VNum (ln_ts m))]%string
    ++ match ln_body m with
       | LText t => [("text", VStr t)]
       | LFile f => [("file", f)]
       | LGame g => [("game", ref_val g)]
       | LGone => []
       end%string
    ++ (if ln_system m then [("system", VBool true)] else [])%string).

Definition rows_of (b : list (jstr * slot)) (r : circle) (channel : val) : res (list val) :=
  let* name := to_string channel in
  match obj_get b (logKey (c_id r) name) with
  | None => Ok []
  | Some s =>
      let* ls := renderLog (sl_log s) in
      Ok ((fun m => jobj [("server", VStr (c_id r)); ("channel", channel); ("message", line_val m)]%string) <$> ls)
  end.

(** The rooms in the order of the circles, each hit with its circle's name. *)
Definition searchMessages `{CaseFold} (servers : list circle) (b : list (jstr * slot)) (query : val) (limit : nat)
  : res (list (hit * val) * bool) :=
  let* q := text_of query in
  if Nat.ltb (length (trim q)) MIN_QUERY then Ok ([], false) else
  let* rows := rmap (fun r => let* ls := rmap (rows_of b r) (c_channels r) in Ok (concat ls)) servers in
  let* found := rankHits (concat rows) query limit in
  let named := (fun h => (h, match list_find (fun r => strict_eq (h_server h) (VStr (c_id r)) = true) servers with
                             | Some (_, r) => c_name r ⁇ h_server h
                             | None => h_server h
                             end)) <$> found.1 in
  Ok (named, found.2).
End Unread.

(** ** Theorems *)

Module UnreadFacts.
Import Unread.

(** *** Whole seconds

    A quotient by a thousand is rounded to a double before it is floored; the
    rounding never reaches the next whole second. *)
Lemma round_pos_above p q b f :
  0 < q -> 0 <= b -> excess_bits (p / q) <= f -> b * 2 ^ f * q <= p -> b * 2 ^ f <= round_pos p q.
Proof.
  intros Hq Hb He Hlo. unfold round_pos. set (s := excess_bits (p / q)) in *.
  assert (0 <= s) as Hs by (unfold s, excess_bits; lia).
  assert (0 < 2 ^ s) as Hps by (apply Z.pow_pos_nonneg; lia).
  assert (2 ^ f = 2 ^ (f - s) * 2 ^ s) as Ef by (rewrite <- Z.pow_add_r by lia; f_equal; lia).
  pose proof (tie_even_bounds (p / (q * 2 ^ s)) (p mod (q * 2 ^ s)) (q * 2 ^ s)) as [Ht _].
  assert (b * 2 ^ (f - s) <= p / (q * 2 ^ s)) as Hd.
  { apply Z.div_le_lower_bound; [nia|]. rewrite Ef in Hlo. nia. }
  rewrite Ef. nia.
Qed.

(** Rounding adds at most half of the last place. *)
Lemma round_pos_half p q : 0 < q -> 2 * round_pos p q * q <= 2 * p + q * 2 ^ excess_bits (p / q).
Proof.
  intros Hq. unfold round_pos. set (s := excess_bits (p / q)). set (u := q * 2 ^ s).
  assert (0 < 2 ^ s) as Hps by (apply Z.pow_pos_nonneg; [lia|unfold s, excess_bits; lia]).
  assert (0 < u) as Hu by (unfold u; nia).
  pose proof (Z.div_mod p u ltac:(lia)) as Hdm. pose proof (Z.mod_pos_bound p u Hu) as Hr.
  assert (2 * tie_even (p / u) (p mod u) u * u <= 2 * p + u) as Ht.
  { unfold tie_even. repeat case_match; rewrite ?Z.ltb_lt, ?Z.ltb_ge in *; nia. }
  unfold u in *. nia.
Qed.

Lemma thousandth_bits n : 0 <= n < 2 ^ 53 -> excess_bits (n * scale * scale / (1000 * scale)) <= 1065.
Proof.
  intros Hn. pose proof scale_pos. rewrite Z.div_mul_cancel_r by lia. unfold excess_bits.
  assert (n * scale / 1000 < 2 ^ 1118) as Hlt.
  { apply Z.div_lt_upper_bound; [lia|]. change (2 ^ 1118) with (2 ^ 44 * scale). assert (n < 1000 * 2 ^ 44) by lia. nia. }
  assert (0 <= n * scale / 1000) by (apply Z.div_pos; nia).
  destruct (decide (n * scale / 1000 = 0)) as [->|]; [cbn; lia|].
  assert (Z.log2 (n * scale / 1000) < 1118) by (apply Z.log2_lt_pow2; lia). lia.
Qed.

Lemma seconds_exact n : 0 <= n < 2 ^ 53 -> nfloor (ndiv (int n) (int 1000)) = int (n / 1000).
Proof.
  intros Hn. pose proof scale_pos as Hsc. pose proof (thousandth_bits n Hn) as Hb.
  pose proof (Z.div_mod n 1000 ltac:(lia)) as Hdm. pose proof (Z.mod_pos_bound n 1000 ltac:(lia)) as Hmod.
  assert (0 <= n / 1000) as Hpos by (apply Z.div_pos; lia).
  set (p := n * scale * scale) in *. set (q := 1000 * scale) in *. set (m := round_pos p q).
  assert (n / 1000 * scale <= m) as Hlo.
  { apply (round_pos_above p q (n / 1000) 1074); [unfold q; lia|done|lia|]. change (2 ^ 1074) with scale. unfold p, q. nia. }
  assert (m < (n / 1000 + 1) * scale) as Hhi.
  { pose proof (round_pos_half p q ltac:(unfold q; lia)) as Hh. fold m in Hh.
    assert (2 ^ excess_bits (p / q) <= 2 ^ 1065) as Hs by (apply Z.pow_le_mono_r; lia).
    assert (2 ^ 1065 * 512 = scale) as Hsc2 by reflexivity. unfold p, q in *.
    assert (2 * m * 1000 <= 2 * n * scale + 1000 * 2 ^ 1065) by nia. nia. }
  unfold ndiv, int. rewrite (proj2 (Z.eqb_neq (1000 * scale) 0)) by lia.
  change (Z.sgn (1000 * scale)) with 1. change (Z.abs (1000 * scale)) with q. rewrite Z.mul_1_r. fold p. unfold round_rat.
  rewrite Z.abs_eq by (unfold p; nia). fold m.
  assert (m < overflow) as Ho.
  { unfold overflow. change (2 ^ 2098) with (2 ^ 1024 * scale). assert (n / 1000 + 1 <= 2 ^ 1024) by (transitivity (2 ^ 53); [|apply Z.pow_le_mono_r; lia]; lia). nia. }
  rewrite (proj2 (Z.leb_gt _ _)) by exact Ho. rewrite (proj2 (Z.ltb_ge p 0)) by (unfold p; nia).
  unfold nfloor. do 2 f_equal. symmetry. apply (Z.div_unique m scale (n / 1000) (m - n / 1000 * scale)); lia.
Qed.

(** *** The request and its answer *)

Lemma from_entries_get (l : list (jstr * val)) k : NoDup l.*1 -> obj_get (from_entries l) k = obj_get l k.
Proof.
  unfold from_entries. assert (forall acc, NoDup l.*1 -> obj_get (fold_left (fun acc kv => obj_put acc kv.1 kv.2) l acc) k
    = match obj_get l k with Some v => Some v | None => obj_get acc k end) as H; [|intros Hn; rewrite H by done; by destruct (obj_get l k)].
  induction l as [|[k' v] l IH]; intros acc Hn; [done|]. cbn [fold_left obj_get fst snd fmap list_fmap] in *. apply NoDup_cons in Hn as [Hk Hn].
  rewrite IH by done. rewrite obj_get_put. destruct (str_eqb k' k) eqn:E; [|done]. apply str_eqb_eq in E as ->.
  apply obj_get_None in Hk. by rewrite Hk.
Qed.

Definition hid_of (r : seen_circle) (name : jstr) : val := (chanMeta_at (sc_circle r) name).["hid"].

(** When this device last looked, in milliseconds. *)
Definition looked (r : seen_circle) (name : jstr) (t : Z) : Prop :=
  seenFloor (seen_val (sc_seen r)) (sc_joinedAt r) name = VNum (int t) /\ 0 <= t < 2 ^ 53.

(** A circle as the application keeps it: rooms by name, each with an id of its
    own, and a time of the last look. *)
Record orderly (r : seen_circle) (names : list jstr) (hid : jstr -> jstr) : Prop := {
  or_channels : c_channels (sc_circle r) = VStr <$> names;
  or_distinct : NoDup names;
  or_hids : NoDup (hid <$> names);
  or_hid : forall name, name ∈ names -> hid_of r name = VStr (hid name) /\ hid name <> [];
  or_looked : forall name, name ∈ names -> exists t, looked r name t;
  or_few : (length names <= HISTORY_PAGE_MAX)%nat;
}.

Section request.
Context (hid : jstr -> jstr).

(** The cursor of a room last looked at then. *)
Definition cursor_at (p : jstr * Z) : cursor := {| cu_channel := p.1; cu_hid := VStr (hid p.1); cu_after := int (p.2 / 1000) |}.

Lemma cursors_of r names :
  (forall name, name ∈ names -> hid_of r name = VStr (hid name) /\ hid name <> []) ->
  (forall name, name ∈ names -> exists t, looked r name t) ->
  exists l, l.*1 = names /\ Forall (fun p => looked r p.1 p.2) l /\
    rmap (cursor_of r) (VStr <$> names) = Ok ((fun p => Some (cursor_at p)) <$> l).
Proof.
  intros Hh Hl. induction names as [|n names IH]; [by exists []|].
  destruct IH as (l & El & Hlook & E); [intros x Hx; apply Hh; by right|intros x Hx; apply Hl; by right|].
  destruct (Hl n) as [t Ht]; [by left|]. exists ((n, t) :: l). split; [cbn; by rewrite El|]. split; [by constructor|].
  cbn [fmap list_fmap rmap] in *. rewrite E.
  unfold cursor_of. cbn [to_string rbind]. destruct (Hh n) as [Eh Hne]; [by left|]. unfold hid_of in Eh. rewrite Eh. destruct Ht as [Ef Ht]. rewrite Ef.
  cbn [truthy to_number rbind]. rewrite bool_decide_false by done. cbn [negb]. by rewrite seconds_exact.
Qed.

Lemma somes_all {A B} (f : A -> B) (l : list A) : somes ((fun p => Some (f p)) <$> l) = f <$> l.
Proof. induction l as [|x l IH]; cbn; [done|]. by f_equal. Qed.

Lemma read_cursors l : Forall (fun p => 0 <= p.2) l -> mapM read_cursor (cursor_at <$> l) = Some ((fun p => (hid p.1, p.2 / 1000)) <$> l).
Proof.
  induction 1 as [|[n t] l Ht _ IH]; cbn; [done|]. rewrite IH. unfold read_cursor. cbn [cu_hid cu_after cursor_at fst snd].
  assert (0 <= t / 1000) by (apply Z.div_pos; cbn in Ht; lia). change (nfloor (int (t / 1000))) with (Fin (t / 1000 * scale / scale * scale)).
  pose proof scale_pos. rewrite Z.div_mul by lia. change (Fin (t / 1000 * scale)) with (int (t / 1000)).
  rewrite nleb_int, neqb_int, Z.eqb_refl. rewrite (proj2 (Z.leb_le _ _)) by done. cbn [andb]. unfold int at 1. rewrite Z.div_mul by lia. done.
Qed.

Lemma rmap_ok {A B} (f : A -> res B) (g : A -> B) (l : list A) : (forall x, x ∈ l -> f x = Ok (g x)) -> rmap f l = Ok (g <$> l).
Proof.
  intros H. induction l as [|x l IH]; [done|]. cbn [rmap fmap list_fmap]. rewrite H by (by left). cbn [rbind].
  by rewrite IH by (intros y Hy; apply H; by right).
Qed.

Lemma rmap_fmap {A B C} (f : B -> res C) (g : A -> B) (l : list A) : rmap f (g <$> l) = rmap (fun x => f (g x)) l.
Proof. induction l as [|x l IH]; cbn; [done|]. by rewrite IH. Qed.

Context (history : jstr -> list history_entry) (me : jstr) (now : Z).

(** What came into a log since a time, by somebody else. *)
Definition since (p : jstr * Z) : val := VNum (int (Z.of_nat (history_count (history (hid p.1)) (p.2 / 1000) me now))).

Lemma counts_read l : NoDup (hid <$> l.*1) ->
  read_counts (cursor_at <$> l) ((fun p => (VStr (hid p.1), since p)) <$> l) = Ok (from_entries ((fun p => (p.1, since p)) <$> l)).
Proof.
  intros Hn. assert (NoDup ((fun p => (hid p.1, since p)) <$> l).*1) as Hk.
  { rewrite <- list_fmap_compose. rewrite <- list_fmap_compose in Hn. exact Hn. }
  unfold read_counts, by_hid. rewrite rmap_fmap. rewrite (rmap_ok _ (fun p => (hid p.1, since p))) by done. cbn [rbind].
  rewrite rmap_fmap. rewrite (rmap_ok _ (fun p => (p.1, since p))); [done|]. intros p Hp. cbn [cu_hid cu_channel cursor_at to_string rbind prop].
  do 2 f_equal. rewrite from_entries_get.
  - assert (obj_get ((fun p => (hid p.1, since p)) <$> l) (hid p.1) = Some (since p)) as ->; [|done].
    apply obj_get_NoDup; [exact Hk|by apply (list_elem_of_fmap_2 (fun p => (hid p.1, since p)))].
  - exact Hk.
Qed.

(** Each room is counted from the second it was last looked at. *)
Lemma unread_counts r names :
  orderly r names hid ->
  exists o, fetchUnread r (history_counts history me now) = Ok o /\
    forall name t, name ∈ names -> looked r name t -> obj_get o name = Some (since (name, t)).
Proof.
  intros [Ec Hn Hhn Hh Hl Hfew]. destruct (cursors_of r names Hh Hl) as (l & El & Hlook & Ecs).
  unfold fetchUnread. rewrite Ec, Ecs. cbn [rbind]. rewrite somes_all. subst names.
  assert (forall name t, name ∈ l.*1 -> looked r name t -> obj_get (from_entries ((fun p => (p.1, since p)) <$> l)) name = Some (since (name, t))) as Hget.
  { intros name t ([n t'] & -> & Hp)%list_elem_of_fmap [Et _]. rewrite from_entries_get by (by rewrite <- list_fmap_compose).
    apply obj_get_NoDup; [unfold obj_keys; by rewrite <- list_fmap_compose|].
    rewrite Forall_forall in Hlook. destruct (Hlook _ Hp) as [Et' _]. cbn [fst snd] in *. assert (int t' = int t) as ->%int_inj by congruence.
    by apply (list_elem_of_fmap_2 (fun p => (p.1, since p))) in Hp. }
  assert (history_counts history me now (cursor_at <$> l) = Some ((fun p => (VStr (hid p.1), since p)) <$> l)) as Ea.
  { unfold history_counts. rewrite read_cursors.
    - assert (take HISTORY_PAGE_MAX ((fun p => (hid p.1, p.2 / 1000)) <$> l) = (fun p => (hid p.1, p.2 / 1000)) <$> l) as Et
      by (apply take_ge; rewrite length_fmap; by rewrite length_fmap in Hfew).
    transitivity (Some ((fun hc => (VStr hc.1, VNum (int (Z.of_nat (history_count (history hc.1) hc.2 me now)))))
      <$> take HISTORY_PAGE_MAX ((fun p => (hid p.1, p.2 / 1000)) <$> l))); [reflexivity|]. rewrite Et. by rewrite <- list_fmap_compose.
    - eapply Forall_impl; [exact Hlook|]. intros p [_ ?]. cbn in *. lia. }
  destruct (cursor_at <$> l) as [|c cs] eqn:Ecur.
  - destruct l; [|done]. eexists. split; [reflexivity|]. intros name t []%elem_of_nil.
  - rewrite Ea, <- Ecur, counts_read by done. eexists. split; [reflexivity|]. exact Hget.
Qed.
End request.

(** *** Reading a room *)

(** Lines stamped with whole milliseconds. *)
Definition whole (ls : list line) : Prop :=
  forall m, m ∈ ls -> ln_system m = false -> exists t, ln_ts m = int t /\ 0 < t < 2 ^ 53.

Lemma newest_whole ls : whole ls ->
  exists T, newest_ts ls = int T /\ 0 <= T < 2 ^ 53 /\ forall m t, m ∈ ls -> ln_system m = false -> ln_ts m = int t -> t <= T.
Proof.
  intros Hw. unfold newest_ts.
  assert (forall l z, (forall m, m ∈ l -> exists t, ln_ts m = int t /\ 0 < t < 2 ^ 53) -> 0 <= z < 2 ^ 53 ->
    exists T, fold_left (fun max m => nmax max (ts_or_zero (ln_ts m))) l (int z) = int T /\ z <= T < 2 ^ 53 /\ forall m t, m ∈ l -> ln_ts m = int t -> t <= T) as Hfold.
  { induction l as [|m l IH]; intros z Hl Hz; cbn [fold_left]; [exists z; split; [done|]; split; [lia|]; by intros ?? []%elem_of_nil|].
    destruct (Hl m) as (t & Et & Ht); [by left|]. rewrite Et.
    assert (ts_or_zero (int t) = int t) as -> by (unfold ts_or_zero; by destruct t; try lia). rewrite nmax_int.
    destruct (IH (Z.max z t)) as (T & -> & HT & Hall); [intros x Hx; apply Hl; by right|lia|]. exists T. split; [done|]. split; [lia|].
    intros x u [->|Hx]%elem_of_cons Eu; [rewrite Et in Eu; apply int_inj in Eu; lia|by eapply Hall]. }
  destruct (Hfold (filter (fun m => ln_system m = false) ls) 0) as (T & E & HT & Hall); [|lia|].
  - intros m [Hs Hm]%list_elem_of_filter. by apply Hw.
  - exists T. split; [exact E|]. split; [lia|]. intros m t Hm Hs Et. apply (Hall m t); [|done]. apply list_elem_of_filter. by split.
Qed.

Lemma looked_here r ls name a n : whole ls -> 0 <= a < 2 ^ 53 -> 0 < n < 2 ^ 53 ->
  exists T, looked (look r ls name (int a) (int n)) name T /\ forall m t, m ∈ ls -> ln_system m = false -> ln_ts m = int t -> t <= T.
Proof.
  intros Hw Ha Hn. destruct (newest_whole ls Hw) as (T & ET & HT & Hall). unfold looked, look, seenFloor. cbn [sc_seen sc_joinedAt seen_val prop].
  unfold markSeen. rewrite ET, obj_get_put, str_eqb_refl. cbn [from_option coalesce nullish].
  destruct (ntruthy (int T)) eqn:EtT.
  - exists (Z.max T a). unfold Datatypes.id. cbn [coalesce nullish]. rewrite nmax_int. split; [split; [done|lia]|]. intros m t Hm Hs Et. specialize (Hall m t Hm Hs Et). lia.
  - exists (Z.max n a). unfold Datatypes.id. cbn [coalesce nullish]. rewrite nmax_int. split; [split; [done|lia]|]. intros m t Hm Hs Et. specialize (Hall m t Hm Hs Et).
    assert (T = 0) as -> by (destruct T; [done|discriminate EtT|lia]). destruct (Hw m Hm Hs) as (u & Eu & Hu). rewrite Et in Eu. apply int_inj in Eu. lia.
Qed.

Lemma looked_elsewhere r ls name other a n t :
  other <> name -> proto_method [] other = VUndef -> looked r other t -> looked (look r ls name a n) other t.
Proof.
  intros Hne Hp [E Ht]. split; [|done]. rewrite <- E. unfold look, seenFloor. cbn [sc_seen sc_joinedAt seen_val prop]. unfold markSeen.
  rewrite obj_get_put. destruct (str_eqb name other) eqn:Ek; [by apply str_eqb_eq in Ek as ->|].
  destruct (sc_seen r) as [o|]; cbn [from_option seen_val prop obj_get]; [done|]. by rewrite Hp.
Qed.

(** C28: Looking at a room clears its badge, when everything others wrote to its
    log is a line on screen: the relay, which sees only the second of an entry
    and its author, counts none after the newest line, whatever clocks the
    authors have.  Every other room is counted as before. *)
Theorem reading_clears_the_badge r names hid ls name a n history me today :
  let r' := look r ls name (int a) (int n) in
  orderly r' names hid -> name ∈ names -> whole ls -> 0 <= a < 2 ^ 53 -> 0 < n < 2 ^ 53 ->
  (forall e, e ∈ history (hid name) -> he_author e <> me ->
     exists m t, m ∈ ls /\ ln_system m = false /\ ln_ts m = int t /\ he_ts e <= t / 1000) ->
  exists o, fetchUnread r' (history_counts history me today) = Ok o /\ obj_get o name = Some (VNum (int 0)) /\
    forall other t, other ∈ names -> other <> name -> proto_method [] other = VUndef -> looked r other t ->
      obj_get o other = Some (VNum (int (Z.of_nat (history_count (history (hid other)) (t / 1000) me today)))).
Proof.
  intros r' Ho Hin Hw Ha Hn Hseen. destruct (unread_counts hid history me today r' names Ho) as (o & Eo & Hget).
  exists o. split; [done|]. destruct (looked_here r ls name a n Hw Ha Hn) as (T & HT & Hall). split.
  - rewrite (Hget name T Hin HT). unfold since. cbn [fst snd]. do 3 f_equal. unfold history_count.
    apply (Nat2Z.inj_iff _ 0), length_zero_iff_nil, elem_of_nil_inv. intros e [Hc He]%list_elem_of_filter. revert Hc.
    rewrite !andb_true_iff, negb_true_iff. intros [[Hlt Hme] _]. apply Z.ltb_lt in Hlt. apply str_eqb_neq in Hme.
    destruct (Hseen e He Hme) as (m & t & Hm & Hs & Et & Hle). specialize (Hall m t Hm Hs Et).
    pose proof (Z.div_le_mono t T 1000 ltac:(lia) Hall). lia.
  - intros other t Hoin Hne Hp Hl. by rewrite (Hget other t Hoin (looked_elsewhere _ _ _ _ _ _ _ Hne Hp Hl)).
Qed.
End UnreadFacts.

(** ** Runs *)

Module Rooms.
Import Unread UnreadFacts.

Definition bo_says : line :=
  {| ln_server := js "g"; ln_channel := VStr (js "general"); ln_sender := js "bo"; ln_ts := int 5400; ln_body := LText (js "8:40"); ln_reply := None;
     ln_auth := Some signed; ln_seq := Some (int 1); ln_local := false; ln_system := false; ln_failed := false; ln_edited := false;
     ln_deleted := false; ln_reacts := None |}.

Definition meta_of (hid : string) : val := jobj [("hid", VStr (js hid))]%string.
Definition club : seen_circle :=
  {| sc_circle := {| c_id := js "g"; c_name := VStr (js "home"); c_channels := [VStr (js "general"); VStr (js "random")]; c_voiceChannels := None;
       c_deletedChannels := None; c_deletedVoice := None; c_chanMeta := Some [(js "general", meta_of "h1"); (js "random", meta_of "h2")];
       c_overview := None; c_notices := None; c_offers := None; c_proposals := None; c_threshold := None;
       c_rsvps := None; c_members := None; c_pendingMetaSync := false |}; sc_seen := None; sc_joinedAt := VNum (int 1000) |}.

Definition hids (name : jstr) : jstr := if str_eqb name (js "general") then js "h1" else js "h2".
Definition wrote (ts : Z) (who : string) : history_entry := {| he_ts := ts; he_author := js who; he_expires_at := None |}.

Definition logs (h : jstr) : list history_entry := if str_eqb h (js "h1") then [wrote 5 "bo"; wrote 7 "ada"] else [wrote 3 "bo"].

Lemma reading_clears_the_badge_witness : exists o,
  fetchUnread (look club [bo_says] (js "general") (int 0) (int 9000)) (history_counts logs (js "ada") 10) = Ok o /\
  obj_get o (js "general") = Some (VNum (int 0)) /\ obj_get o (js "random") = Some (VNum (int 1)).
Proof.
  destruct (reading_clears_the_badge club [js "general"; js "random"] hids [bo_says] (js "general") 0 9000 logs (js "ada") 10)
    as (o & Eo & Eg & Er).
  - assert (whole [bo_says]) as Hw by (intros m ->%list_elem_of_singleton _; exists 5400; split; [reflexivity|lia]). split.
    + reflexivity.
    + apply (bool_decide_unpack _). vm_compute. exact I.
    + apply (bool_decide_unpack _). vm_compute. exact I.
    + intros name [->|[->|[]%elem_of_nil]%elem_of_cons]%elem_of_cons; (split; [reflexivity|discriminate]).
    + intros name [->|[->|[]%elem_of_nil]%elem_of_cons]%elem_of_cons.
      * destruct (looked_here club [bo_says] (js "general") 0 9000 Hw ltac:(lia) ltac:(lia)) as (T & HT & _). by exists T.
      * exists 1000. split; [reflexivity|lia].
    + cbn. unfold HISTORY_PAGE_MAX. lia.
  - by left.
  - intros m ->%list_elem_of_singleton _. exists 5400. split; [reflexivity|lia].
  - lia.
  - lia.
  - intros e [->|[->|[]%elem_of_nil]%elem_of_cons]%elem_of_cons Hne; [|done].
    exists bo_says, 5400. split; [by left|]. split; [done|]. split; [reflexivity|]. cbn. lia.
  - exists o. split; [exact Eo|]. split; [exact Eg|]. rewrite (Er (js "random") 1000); [reflexivity|by right; left|discriminate|reflexivity|split; [reflexivity|lia]].
Defined.

(** Somebody reacts to the newest line: the room stays unread however often it
    is looked at. *)
Lemma a_reaction_keeps_the_room_unread :
  let once := look club [bo_says] (js "general") (int 5400) (int 9000) in
  let again := look once [bo_says] (js "general") (int 5400) (int 20000) in
  let history := fun h => if str_eqb h (js "h1") then [wrote 5 "bo"; wrote 8 "bo"] else [] in
  fetchUnread once (history_counts history (js "ada") 10) = fetchUnread again (history_counts history (js "ada") 30) /\
  (let* o := fetchUnread again (history_counts history (js "ada") 30) in Ok (obj_get o (js "general"))) = Ok (Some (VNum (int 1))).
Proof. split; vm_compute; reflexivity. Qed.
End Rooms.
