(* ===== verification/Accounts.v ===== *)
(** * Accounts and vaults (client/src/lib/account.js,
      client/src/lib/webauthn.js; relay/src/account.rs, the vault requests of
      relay/src/server.rs and the tables of relay/src/store.rs)

    An identity is sealed on the device and parked on the relay, under half of
    what a password derives or under the secret a passkey reproduces, so that
    a new device can open it.  The authenticator, the relying party library of
    the relay and the derivation of keys are classes; random bytes and the
    relay's clock are arguments.  JSON and base64 that cross the wire are the
    values and the strings that are sent. *)

From stdpp Require Import base list numbers option strings sets.
From Stdlib Require Import ZArith NArith Lia.
From S2P Require Import Prelude JsNum JsString JsValue Bytes History.
Open Scope Z_scope.

Module Accounts.

(** ** Results with the message of the error *)

Record failure := { f_message : jstr; f_linkFallback : bool }.

Inductive outcome (A : Type) := Done (a : A) | Fails (e : failure).
Arguments Done {A} a.
Arguments Fails {A} e.

Definition error {A} (message : jstr) : outcome A := Fails {| f_message := message; f_linkFallback := false |}.

(** An exception of the language: its message is the engine's. *)
Definition of_res {A} (r : res A) : outcome A := match r with Ok a => Done a | Throw _ => error (js "exception") end.

(** ** The relay *)

Record VaultRecord := {
  v_kind : jstr;
  v_salt : bytes;
  v_verifier : bytes;
  v_wrapped : bytes;
  v_credential : option jstr;
}.

Record PasskeyWrap := {
  p_user : jstr;
  p_credential : jstr;
  p_salt : bytes;
  p_wrapped : bytes;
  p_label : jstr;
  p_created_at : Z;
}.

Record PasskeyDevice := { d_cred_id : jstr; d_label : jstr; d_created_at : Z }.

(** Pending ceremonies: the challenge that was given out (with the passkey it
    is for, when a handle was named) and since when. *)
Record relay := {
  vaults : list (jstr * VaultRecord);
  passkey_wraps : list (jstr * PasskeyWrap);
  reg_states : list (jstr * (bytes * Z));
  auth_states : list (jstr * ((bytes * jstr) * Z));
  disco_states : list (jstr * (bytes * Z));
}.

Definition with_vaults (x : list (jstr * VaultRecord)) (r : relay) : relay :=
  {| vaults := x; passkey_wraps := passkey_wraps r; reg_states := reg_states r; auth_states := auth_states r; disco_states := disco_states r |}.
Definition with_wraps (x : list (jstr * PasskeyWrap)) (r : relay) : relay :=
  {| vaults := vaults r; passkey_wraps := x; reg_states := reg_states r; auth_states := auth_states r; disco_states := disco_states r |}.
Definition with_regs (x : list (jstr * (bytes * Z))) (r : relay) : relay :=
  {| vaults := vaults r; passkey_wraps := passkey_wraps r; reg_states := x; auth_states := auth_states r; disco_states := disco_states r |}.
Definition with_auths (x : list (jstr * ((bytes * jstr) * Z))) (r : relay) : relay :=
  {| vaults := vaults r; passkey_wraps := passkey_wraps r; reg_states := reg_states r; auth_states := x; disco_states := disco_states r |}.
Definition with_discos (x : list (jstr * (bytes * Z))) (r : relay) : relay :=
  {| vaults := vaults r; passkey_wraps := passkey_wraps r; reg_states := reg_states r; auth_states := auth_states r; disco_states := x |}.

(** *** The tables *)

Definition set_vault (user : jstr) (v : VaultRecord) (r : relay) : relay := with_vaults (map_set (vaults r) user v) r.
Definition get_vault (user : jstr) (r : relay) : option VaultRecord := obj_get (vaults r) user.
Definition list_passkey_vaults (r : relay) : list (jstr * VaultRecord) := filter (fun uv => v_kind uv.2 = js "passkey") (vaults r).

(** [None]: the credential belongs to another account. *)
Definition add_passkey_wrap (cred_id : jstr) (w : PasskeyWrap) (r : relay) : option relay :=
  if match obj_get (passkey_wraps r) cred_id with Some w' => negb (str_eqb (p_user w') (p_user w)) | None => false end then None
  else Some (with_wraps (map_set (passkey_wraps r) cred_id w) r).

Definition get_passkey_wrap (cred_id : jstr) (r : relay) : option PasskeyWrap := obj_get (passkey_wraps r) cred_id.

Definition newer_first (a b : PasskeyDevice) : bool :=
  if d_created_at a =? d_created_at b then str_ltb (d_cred_id b) (d_cred_id a) else d_created_at a <? d_created_at b.

Definition list_passkey_wraps (user : jstr) (r : relay) : list PasskeyDevice :=
  sort_by newer_first
    ((fun cw => {| d_cred_id := cw.1; d_label := p_label cw.2; d_created_at := p_created_at cw.2 |})
       <$> filter (fun cw => p_user cw.2 = user) (passkey_wraps r)).

Definition delete_passkey_wrap (cred_id user : jstr) (r : relay) : relay * bool :=
  match obj_get (passkey_wraps r) cred_id with
  | Some w => if str_eqb (p_user w) user then (with_wraps (obj_delete (passkey_wraps r) cred_id) r, true) else (r, false)
  | None => (r, false)
  end.

(** ** The libraries

    The relying party: the options it hands out for a challenge, the passkey it
    makes of what a browser registered, and its verdict on an assertion; the
    base64 of the relay; and the worker's derivation of login keys. *)
Class Libraries := {
  rp_creation : jstr -> bytes -> val;
  rp_request : bytes -> option jstr -> val;
  rp_register : bytes -> val -> option jstr;
  rp_assert : bytes -> jstr -> val -> bool;
  rp_cred_id : jstr -> option bytes;
  b64_decode : jstr -> option bytes;
  b64_encode : bytes -> jstr;
  b64url_decode : jstr -> option bytes;
  login_keys : jstr -> bytes -> option bytes;
}.

Section accounts.
Context `{Web, Libraries}.

(** *** Ceremonies *)

Definition STATE_TTL : Z := 300.

Definition fresh_states {A} (now : Z) (l : list (jstr * (A * Z))) : list (jstr * (A * Z)) := filter (fun e => now - e.2.2 < STATE_TTL) l.

Definition start_registration (user : jstr) (challenge : bytes) (now : Z) (r : relay) : relay * val :=
  (with_regs (map_set (fresh_states now (reg_states r)) user (challenge, now)) r, rp_creation user challenge).

Definition finish_registration (user : jstr) (credential : val) (r : relay) : relay * (jstr + jstr) :=
  match obj_get (reg_states r) user with
  | None => (r, inl (js "no registration in progress (expired?)"))
  | Some (challenge, _) =>
      (with_regs (obj_delete (reg_states r) user) r,
       match rp_register challenge credential with Some passkey => inr passkey | None => inl (js "registration refused") end)
  end.

Definition start_authentication (user passkey : jstr) (challenge : bytes) (now : Z) (r : relay) : relay * option val :=
  match rp_cred_id passkey with
  | None => (r, None)
  | Some _ => (with_auths (map_set (fresh_states now (auth_states r)) user (challenge, passkey, now)) r, Some (rp_request challenge (Some passkey)))
  end.

Definition finish_authentication (user : jstr) (assertion : val) (r : relay) : relay * (jstr + unit) :=
  match obj_get (auth_states r) user with
  | None => (r, inl (js "no authentication in progress (expired?)"))
  | Some (challenge, passkey, _) =>
      (with_auths (obj_delete (auth_states r) user) r,
       if rp_assert challenge passkey assertion then inr tt else inl (js "assertion refused"))
  end.

(** [(options, session)]; [None]: no challenge in the options. *)
Definition start_discoverable (challenge : bytes) (now : Z) (r : relay) : relay * option (val * jstr) :=
  let options := rp_request challenge None in
  match options.["publicKey"].["challenge"] with
  | VStr session => (with_discos (map_set (fresh_states now (disco_states r)) session (challenge, now)) r, Some (options, session))
  | _ => (r, None)
  end.

Definition finish_discoverable (session : jstr) (assertion : val) (passkey : jstr) (r : relay) : relay * (jstr + unit) :=
  match obj_get (disco_states r) session with
  | None => (r, inl (js "no authentication in progress (expired?)"))
  | Some (challenge, _) =>
      (with_discos (obj_delete (disco_states r) session) r,
       match rp_cred_id passkey with
       | None => inl (js "unreadable passkey")
       | Some _ => if rp_assert challenge passkey assertion then inr tt else inl (js "assertion refused")
       end)
  end.

Definition verifier_of (auth_key : bytes) : bytes := sha256 auth_key.

(** *** The endpoints before a session: a value, or a status and a text *)

Inductive answer := Json (v : val) | Refused (status : Z) (text : jstr).

Definition no_vault : answer := Refused 404 (js "no vault for that user").

Definition params (user : jstr) (r : relay) : relay * answer :=
  (r, match get_vault user r with
      | Some v => Json (jobj [("kind", VStr (v_kind v)); ("salt", VStr (b64_encode (v_salt v)))]%string)
      | None => no_vault
      end).

Definition wrapped_answer (wrapped : bytes) : answer := Json (jobj [("wrapped", VStr (b64_encode wrapped))]%string).

Definition password_login (user auth_key : jstr) (r : relay) : relay * answer :=
  (r, match b64_decode auth_key with
      | None => Refused 400 (js "bad base64")
      | Some key =>
          match get_vault user r with
          | Some v =>
              if str_eqb (v_kind v) (js "password") then
                if bool_decide (verifier_of key = v_verifier v) then wrapped_answer (v_wrapped v) else Refused 403 (js "wrong password")
              else Refused 400 (js "vault is not password-based")
          | None => no_vault
          end
      end).

Definition passkey_challenge (user : jstr) (challenge : bytes) (now : Z) (r : relay) : relay * answer :=
  match get_vault user r with
  | Some v =>
      if str_eqb (v_kind v) (js "passkey") then
        match v_credential v with
        | None => (r, Refused 500 (js "vault missing credential"))
        | Some credential =>
            let '(r, o) := start_authentication user credential challenge now r in
            (r, match o with Some options => Json options | None => Refused 500 (js "unreadable passkey") end)
        end
      else (r, Refused 400 (js "vault is not passkey-based"))
  | None => (r, no_vault)
  end.

Definition passkey_login (user : jstr) (assertion : val) (r : relay) : relay * answer :=
  let '(r, verdict) := finish_authentication user assertion r in
  (r, match verdict with
      | inr _ => match get_vault user r with Some v => wrapped_answer (v_wrapped v) | None => no_vault end
      | inl e => Refused 403 e
      end).

Definition passkey_discover_challenge (challenge : bytes) (now : Z) (r : relay) : relay * answer :=
  let '(r, o) := start_discoverable challenge now r in
  (r, match o with
      | Some (options, session) => Json (jobj [("session", VStr session); ("options", options)]%string)
      | None => Refused 500 (js "challenge missing from options")
      end).

Definition found_answer (user : jstr) (wrapped : bytes) : answer :=
  Json (jobj [("user", VStr user); ("wrapped", VStr (b64_encode wrapped))]%string).

(** The first passkey vault whose credential has this id. *)
Definition vault_of (cred_id : bytes) (r : relay) : option (jstr * VaultRecord) :=
  head (filter (fun uv => (v_credential uv.2 ≫= rp_cred_id) = Some cred_id) (list_passkey_vaults r)).

Definition passkey_discover_login (session : jstr) (assertion : val) (r : relay) : relay * answer :=
  match assertion.["rawId"] with
  | VStr raw_id =>
      match get_passkey_wrap raw_id r with
      | Some w =>
          let '(r, verdict) := finish_discoverable session assertion (p_credential w) r in
          (r, match verdict with inr _ => found_answer (p_user w) (p_wrapped w) | inl e => Refused 403 e end)
      | None =>
          match b64url_decode raw_id with
          | None => (r, Refused 400 (js "rawId is not valid base64url"))
          | Some cred_id =>
              match vault_of cred_id r with
              | None => (r, Refused 403 (js "unrecognized passkey"))
              | Some (user, v) =>
                  match v_credential v with
                  | None => (r, Refused 500 (js "vault missing credential"))
                  | Some credential =>
                      let '(r, verdict) := finish_discoverable session assertion credential r in
                      (r, match verdict with inr _ => found_answer user (v_wrapped v) | inl e => Refused 403 e end)
                  end
              end
          end
      end
  | _ => (r, Refused 400 (js "assertion missing rawId"))
  end.

(** *** The requests of a session, for its user: an error's text or a reply *)

Definition on_vault_set (user kind salt verifier wrapped : jstr) (credential : option jstr) (r : relay) : relay * (jstr + unit) :=
  if negb (str_eqb kind (js "password")) && negb (str_eqb kind (js "passkey")) then (r, inl (js "kind must be password or passkey")) else
  match b64_decode salt, b64_decode verifier, b64_decode wrapped with
  | Some salt, Some verifier, Some wrapped =>
      (set_vault user {| v_kind := kind; v_salt := salt; v_verifier := verifier; v_wrapped := wrapped; v_credential := credential |} r, inr tt)
  | _, _, _ => (r, inl (js "invalid base64"))
  end.

Definition MAX_DEVICE_LABEL : nat := 64.

Definition on_wrap_add (user cred_id credential salt wrapped : jstr) (label : option jstr) (now : Z) (r : relay) : relay * (jstr + unit) :=
  match b64_decode salt, b64_decode wrapped with
  | Some salt, Some wrapped =>
      let w := {| p_user := user; p_credential := credential; p_salt := salt; p_wrapped := wrapped;
                  p_label := concat (take MAX_DEVICE_LABEL (code_points (default [] label))); p_created_at := now |} in
      match add_passkey_wrap cred_id w r with
      | Some r => (r, inr tt)
      | None => (r, inl (js "credential already enrolled by another account"))
      end
  | _, _ => (r, inl (js "invalid base64"))
  end.

Definition on_wrap_list (user : jstr) (r : relay) : relay * (jstr + list PasskeyDevice) := (r, inr (list_passkey_wraps user r)).

Definition on_wrap_del (user cred_id : jstr) (r : relay) : relay * (jstr + unit) :=
  let '(r, gone) := delete_passkey_wrap cred_id user r in (r, if gone then inr tt else inl (js "no such device")).

Definition on_vault_status (user : jstr) (r : relay) : relay * (jstr + option jstr) := (r, inr (v_kind <$> get_vault user r)).

Definition on_register_start (user : jstr) (challenge : bytes) (now : Z) (r : relay) : relay * (jstr + val) :=
  let '(r, options) := start_registration user challenge now r in (r, inr options).

Definition on_register_finish (user : jstr) (credential : val) (r : relay) : relay * (jstr + jstr) := finish_registration user credential r.

(** ** WebAuthn in the browser *)

Definition VAULT_PRF_SALT : bytes := utf8_encode (js "quorum/passkey-vault/prf/salt/v1").

Definition b64u_enc (buf : bytes) : jstr := b64url_enc buf.
Definition b64u_dec (v : val) : res bytes := match v with VStr s => b64url_dec s | _ => Throw TypeError end.

Record CreationOptions := {
  co_rest : obj;
  co_challenge : bytes;
  co_user : obj;
  co_user_id : bytes;
  co_exclude : list (obj * bytes);
  co_authenticatorSelection : obj;
  co_extensions : obj;
  co_prf : option bytes;
}.

Record RequestOptions := {
  ro_rest : obj;
  ro_challenge : bytes;
  ro_allow : list (obj * bytes);
  ro_extensions : obj;
  ro_prf : option bytes;
  ro_mediation : val;
}.

(** [(list ?? []).map((c) => ({ ...c, id: b64u.dec(c.id) }))]. *)
Definition with_ids (v : val) : res (list (obj * bytes)) :=
  match v ⁇ VArr [] with
  | VArr cs => rmap (fun c => let* id := get c "id" in let* id := b64u_dec id in Ok (own_props c, id)) cs
  | _ => Throw TypeError
  end.

Definition parseCreationOptions (json : val) (prf : bool) : res CreationOptions :=
  let* pk := get json "publicKey" in
  let* c := get pk "challenge" in
  let* challenge := b64u_dec c in
  let* user := get pk "user" in
  let* uid := get user "id" in
  let* uid := b64u_dec uid in
  let* excluded := get pk "excludeCredentials" in
  let* exclude := with_ids excluded in
  Ok {| co_rest := own_props pk; co_challenge := challenge; co_user := own_props user; co_user_id := uid; co_exclude := exclude;
        co_authenticatorSelection :=
          obj_put (obj_put (own_props (pk.["authenticatorSelection"] ⁇ VObj [])) (js "residentKey") (VStr (js "required")))
            (js "requireResidentKey") (VBool true);
        co_extensions := own_props (pk.["extensions"] ⁇ VObj []);
        co_prf := if prf then Some VAULT_PRF_SALT else None |}.

Definition parseRequestOptions (json : val) (prfSalt : option bytes) (mediation : val) : res RequestOptions :=
  let* pk := get json "publicKey" in
  let* c := get pk "challenge" in
  let* challenge := b64u_dec c in
  let* allowed := get pk "allowCredentials" in
  let* allow := with_ids allowed in
  Ok {| ro_rest := own_props pk; ro_challenge := challenge; ro_allow := allow; ro_extensions := own_props (pk.["extensions"] ⁇ VObj []);
        ro_prf := prfSalt; ro_mediation := mediation |}.

(** What the browser returns: from [create] and from [get], with the first PRF
    result when the authenticator evaluates it. *)
Record Registration := {
  rg_id : jstr; rg_rawId : bytes; rg_type : jstr; rg_attestationObject : bytes; rg_clientDataJSON : bytes; rg_prf : option bytes;
}.

Record Assertion := {
  as_id : jstr; as_rawId : bytes; as_type : jstr; as_authenticatorData : bytes; as_clientDataJSON : bytes; as_signature : bytes;
  as_userHandle : option bytes; as_prf : option bytes;
}.

Definition serializeRegistration (c : Registration) : val :=
  jobj [("id", VStr (rg_id c)); ("rawId", VStr (b64u_enc (rg_rawId c))); ("type", VStr (rg_type c)); ("extensions", VObj []);
        ("response", jobj [("attestationObject", VStr (b64u_enc (rg_attestationObject c)));
                           ("clientDataJSON", VStr (b64u_enc (rg_clientDataJSON c)))]%string)]%string.

Definition serializeAssertion (c : Assertion) : val :=
  jobj [("id", VStr (as_id c)); ("rawId", VStr (b64u_enc (as_rawId c))); ("type", VStr (as_type c)); ("extensions", VObj []);
        ("response", jobj [("authenticatorData", VStr (b64u_enc (as_authenticatorData c)));
                           ("clientDataJSON", VStr (b64u_enc (as_clientDataJSON c)));
                           ("signature", VStr (b64u_enc (as_signature c)));
                           ("userHandle", match as_userHandle c with Some u => VStr (b64u_enc u) | None => VNull end)]%string)]%string.

Definition prfSecret (prf : option bytes) : option bytes := prf.

(** [navigator.credentials]: missing methods, and calls that reject. *)
Record Credentials := {
  create : option (CreationOptions -> option Registration);
  getc : option (RequestOptions -> option Assertion);
}.

Definition derivePrfSecret (b : Credentials) (random rawId prfSalt : bytes) : outcome (option bytes) :=
  match getc b with
  | None => error (js "exception")
  | Some get =>
      match get {| ro_rest := [(js "userVerification", VStr (js "preferred"))]; ro_challenge := random;
                   ro_allow := [([(js "type", VStr (js "public-key"))], rawId)]; ro_extensions := []; ro_prf := Some prfSalt; ro_mediation := VUndef |} with
      | Some a => Done (prfSecret (as_prf a))
      | None => error (js "the browser refused")
      end
  end.

(** ** The device and its requests *)

Definition MIN_PASSWORD : nat := 8.
Definition DEVICE_LABEL_MAX : nat := 64.

(** A pattern with the flag i, over letters of ASCII. *)
Definition ascii_lower (s : jstr) : jstr := (fun c => if ((65 <=? c) && (c <=? 90))%N then (c + 32)%N else c) <$> s.
Definition matches_i (p : string) (s : jstr) : bool := str_includes (ascii_lower (js p)) (ascii_lower s).

Definition first_of (l : list (bool * string)) : option jstr := (fun x => js x.2) <$> head (filter (fun x => x.1 = true) l).

Definition deviceLabel (ua : jstr) : jstr :=
  let os := first_of
    [(matches_i "iPhone" ua || matches_i "iPad" ua || matches_i "iPod" ua, "iOS"); (matches_i "Android" ua, "Android");
     (matches_i "Mac OS X" ua || matches_i "Macintosh" ua, "macOS"); (matches_i "Windows" ua, "Windows");
     (matches_i "CrOS" ua, "ChromeOS"); (matches_i "Linux" ua, "Linux")]%string in
  let browser := first_of
    [(matches_i "Edg/" ua, "Edge"); (matches_i "OPR/" ua, "Opera"); (matches_i "Firefox/" ua, "Firefox");
     (matches_i "Chrome/" ua, "Chrome"); (matches_i "Safari/" ua, "Safari")]%string in
  match browser, os with
  | Some b, Some o => b ++ js " on " ++ o
  | Some b, None => b
  | None, Some o => o
  | None, None => js "this device"
  end.

Definition noPrfMessage : jstr :=
  js "this browser didn’t provide the passkey PRF extension we need to encrypt your vault. On a Mac, Safari supports it; otherwise secure this account with a password, or link this device from one you’re already signed in on.".

Definition accountError (status : Z) (text : jstr) : failure :=
  {| f_message := if status =? 404 then js "no such account"
                  else if is_empty text then js "HTTP " ++ num_to_string (int status) else text;
     f_linkFallback := false |}.

Definition isNoAccount (message : jstr) : bool :=
  matches_i "no such account" message || matches_i "no vault" message || matches_i "404" message.

Definition unlockableHereError : failure :=
  {| f_message := js "this device can't unlock your vault with that passkey"; f_linkFallback := true |}.

(** The identity in memory, the flag on disk, and the last [vault] action the
    screen was given. *)
Record device := {
  dv_identity : option bytes;
  dv_securedLocal : option bool;
  dv_vault : option (option jstr * bool);
}.

(** What becomes of a request: answered, or lost before or after the relay took
    it. *)
Inductive fate := Answered | Lost (taken : bool).

Record world := { w_relay : relay; w_device : device; w_fates : list fate }.

Definition with_relay (r : relay) (w : world) : world := {| w_relay := r; w_device := w_device w; w_fates := w_fates w |}.
Definition with_device (d : device) (w : world) : world := {| w_relay := w_relay w; w_device := d; w_fates := w_fates w |}.

Definition M (A : Type) : Type := world -> world * outcome A.

Definition give {A} (o : outcome A) : M A := fun w => (w, o).
Definition bind {A B} (m : M A) (k : A -> M B) : M B :=
  fun w => let '(w, o) := m w in match o with Done a => k a w | Fails e => (w, Fails e) end.

Notation "'run*' x ':=' m 'in' k" := (bind m (fun x => k)) (at level 10, x binder, m at level 100, k at level 200).

(** A request; the requests after the last listed fate are answered. *)
Definition send {A} (serve : relay -> relay * A) : M A := fun w =>
  match w_fates w with
  | [] => let '(r, a) := serve (w_relay w) in (with_relay r w, Done a)
  | f :: fs =>
      let w := {| w_relay := w_relay w; w_device := w_device w; w_fates := fs |} in
      match f with
      | Answered => let '(r, a) := serve (w_relay w) in (with_relay r w, Done a)
      | Lost taken => (if taken then with_relay (serve (w_relay w)).1 w else w, error (js "request lost"))
      end
  end.

(** On the socket: the relay's error is the message. *)
Definition request {A} (serve : relay -> relay * (jstr + A)) : M A :=
  run* a := send serve in give (match a with inr a => Done a | inl e => error e end).

Definition fetch (serve : relay -> relay * answer) : M val :=
  run* a := send serve in give (match a with Json v => Done v | Refused s t => Fails (accountError s t) end).

(** The promise rejects: run the handler instead. *)
Definition catch {A} (m : M A) (handler : failure -> M A) : M A :=
  fun w => let '(w, o) := m w in match o with Done a => (w, Done a) | Fails e => handler e w end.

(** [me]: who is signed in. *)
Context (me : jstr).

Definition identityBytes : M bytes :=
  fun w => (w, match dv_identity (w_device w) with Some b => Done b | None => error (js "no identity on this device") end).

(** A failure is only logged. *)
Definition status : M unit :=
  catch (run* kind := request (on_vault_status me) in
         fun w => let d := w_device w in
           (with_device {| dv_identity := dv_identity d; dv_securedLocal := dv_securedLocal d;
                           dv_vault := Some (kind, default true (dv_securedLocal d)) |} w, Done tt))
        (fun _ => give (Done tt)).

Definition markSecuredLocal : M unit :=
  run* _ := (fun w => let d := w_device w in
               (with_device {| dv_identity := dv_identity d; dv_securedLocal := Some true; dv_vault := dv_vault d |} w, Done tt)) in
  status.

(** The random salt and vector are arguments. *)
Definition secureWithPassword (password : jstr) (salt iv : bytes) : M unit :=
  if (length password <? MIN_PASSWORD)%nat then give (error (js "password: 8 characters minimum")) else
  run* keys := give (match login_keys password salt with Some k => Done k | None => error (js "key derivation") end) in
  let authKey := take 32 keys in
  let wrapKey := drop 32 keys in
  let verifier := sha256 authKey in
  run* identity := identityBytes in
  let wrapped := encryptBlob wrapKey iv identity in
  run* _ := request (on_vault_set me (js "password") (b64_enc salt) (b64_enc verifier) (b64_enc wrapped) None) in
  markSecuredLocal.

(** [challenge], [now]: the relay's; [random]: the challenge of the fallback. *)
Definition registerCredential (b : Credentials) (challenge : bytes) (now : Z) (random : bytes) : M (Registration * jstr * bytes) :=
  match create b with
  | None => give (error (js "WebAuthn unavailable in this browser"))
  | Some create =>
      run* start := request (on_register_start me challenge now) in
      run* options := give (of_res (parseCreationOptions start true)) in
      run* credential := give (match create options with Some c => Done c | None => error (js "the browser refused") end) in
      run* payload := request (on_register_finish me (serializeRegistration credential)) in
      run* secret := give (match prfSecret (rg_prf credential) with
                           | Some s => Done (Some s)
                           | None => derivePrfSecret b random (rg_rawId credential) VAULT_PRF_SALT
                           end) in
      give (match secret with Some s => Done (credential, payload, s) | None => error noPrfMessage end)
  end.

Definition secureWithPasskey (b : Credentials) (challenge : bytes) (now : Z) (random iv : bytes) : M unit :=
  run* r := registerCredential b challenge now random in
  let '(_, payload, secret) := r in
  run* identity := identityBytes in
  let wrapped := encryptBlob secret iv identity in
  run* _ := request (on_vault_set me (js "passkey") (b64_enc VAULT_PRF_SALT) (b64_enc []) (b64_enc wrapped) (Some payload)) in
  markSecuredLocal.

Definition enrollDevicePasskey (b : Credentials) (label : jstr) (challenge : bytes) (now : Z) (random iv : bytes) : M unit :=
  run* r := registerCredential b challenge now random in
  let '(credential, payload, secret) := r in
  run* identity := identityBytes in
  let wrapped := encryptBlob secret iv identity in
  run* _ := request (on_wrap_add me (b64url_enc (rg_rawId credential)) payload (b64_enc VAULT_PRF_SALT) (b64_enc wrapped)
                       (Some (trim (take DEVICE_LABEL_MAX label))) now) in
  markSecuredLocal.

(** (credId, label, createdAt) *)
Definition listDevices : M (list (jstr * jstr * num)) :=
  run* devices := request (on_wrap_list me) in
  give (Done ((fun d => (d_cred_id d, d_label d, nmul (int (d_created_at d)) (int 1000))) <$> devices)).

Definition revokeDevice (credId : jstr) : M unit := request (on_wrap_del me credId).

(** *** Before there is a session *)

Definition accountKind (user : jstr) : M val :=
  catch (run* p := fetch (params user) in give (Done (p.["kind"] ⁇ VNull)))
        (fun e => if isNoAccount (f_message e) then give (Done VNull) else give (Fails e)).

Definition corrupt : failure := {| f_message := js "could not decrypt vault — corrupt data"; f_linkFallback := false |}.

(** [decryptBlob(key, b64.dec(wrapped)).catch(...)]: the argument is outside of
    the promise. *)
Definition unwrap (key : bytes) (wrapped : val) (e : failure) : outcome bytes :=
  match b64_dec wrapped with
  | Throw _ => error (js "exception")
  | Ok b => match decryptBlob key b with Ok i => Done i | Throw _ => Fails e end
  end.

Definition uses (kind : val) (rest : string) : outcome unit :=
  match to_string kind with
  | Ok k => error (js "this account uses " ++ k ++ js rest)
  | Throw _ => error (js "exception")
  end.

Definition unlockWithPassword (user password : jstr) : M bytes :=
  run* p := fetch (params user) in
  run* _ := give (if strict_eq p.["kind"] (VStr (js "password")) then Done tt else uses p.["kind"] " sign-in") in
  run* salt := give (of_res (b64_dec p.["salt"])) in
  run* keys := give (match login_keys password salt with Some k => Done k | None => error (js "key derivation") end) in
  run* reply := fetch (password_login user (b64_enc (take 32 keys))) in
  give (unwrap (drop 32 keys) reply.["wrapped"] corrupt).

Definition unlockWithPasskey (b : Credentials) (user : jstr) (challenge : bytes) (now : Z) : M bytes :=
  match getc b with
  | None => give (error (js "this browser has no passkey support"))
  | Some get =>
      run* p := fetch (params user) in
      run* _ := give (if strict_eq p.["kind"] (VStr (js "passkey")) then Done tt else uses p.["kind"] " sign-in, not a passkey") in
      run* prfSalt := give (of_res (b64_dec p.["salt"])) in
      run* c := fetch (passkey_challenge user challenge now) in
      run* options := give (of_res (parseRequestOptions c (Some prfSalt) VUndef)) in
      run* assertion := give (match get options with Some a => Done a | None => error (js "the browser refused") end) in
      run* secret := give (match prfSecret (as_prf assertion) with Some s => Done s | None => error (js "authenticator returned no PRF secret") end) in
      run* reply := fetch (passkey_login user (serializeAssertion assertion)) in
      give (unwrap secret reply.["wrapped"] corrupt)
  end.

Definition unlockWithDiscoverablePasskey (b : Credentials) (mediation : val) (challenge : bytes) (now : Z) : M bytes :=
  match getc b with
  | None => give (error (js "this browser has no passkey support"))
  | Some get =>
      run* c := fetch (passkey_discover_challenge challenge now) in
      run* options := give (of_res (parseRequestOptions c.["options"] (Some VAULT_PRF_SALT) mediation)) in
      run* assertion := give (match get options with Some a => Done a | None => error (js "the browser refused") end) in
      run* secret := give (match prfSecret (as_prf assertion) with
                           | Some s => Done s
                           | None => error (js "this passkey has no PRF secret — sign in with your handle instead") end) in
      run* reply := fetch (match c.["session"] with
                           | VStr session => passkey_discover_login session (serializeAssertion assertion)
                           | _ => fun r => (r, Refused 422 (js "no session"))
                           end) in
      give (unwrap secret reply.["wrapped"] unlockableHereError)
  end.
End accounts.
End Accounts.

(** ** Facts *)

Module AccountFacts.
Import Accounts.

(** What the libraries document. *)
Class LibraryLaws `{Web, Libraries} := {
  decode_enc : forall l, Forall byte l -> b64_decode (b64_enc l) = Some l;
  dec_encode : forall l, Forall byte l -> b64_dec (VStr (b64_encode l)) = Ok l;
  url_decode : forall l, Forall byte l -> b64url_decode (b64url_enc l) = Some l;
  creation_reads : forall user c, Forall byte c ->
    exists o, parseCreationOptions (rp_creation user c) true = Ok o /\ co_challenge o = c;
  request_reads : forall c p salt mediation, Forall byte c ->
    exists o, parseRequestOptions (rp_request c p) salt mediation = Ok o /\ ro_challenge o = c /\ ro_prf o = salt;
  request_session : forall c p, exists s, (rp_request c p).["publicKey"].["challenge"] = VStr s;
  registered_id : forall c credential passkey, Forall byte (rg_rawId credential) -> rp_register c (serializeRegistration credential) = Some passkey ->
    rp_cred_id passkey = Some (rg_rawId credential);
  login_keys_ok : forall password salt, length salt = 16%nat ->
    exists k, login_keys password salt = Some k /\ length k = 64%nat /\ Forall byte k;
  sha256_bytes : forall m, Forall byte m -> Forall byte (sha256 m);
}.

Section facts.
Context `{HW : Web, HWL : !WebLaws, HL : !Libraries, HLL : !LibraryLaws}.

(** *** What others may do to the relay *)

Inductive op :=
| SetVault (user kind salt verifier wrapped : jstr) (credential : option jstr)
| AddWrap (user cred_id credential salt wrapped : jstr) (label : option jstr) (now : Z)
| DelWrap (user cred_id : jstr)
| RegStart (user : jstr) (challenge : bytes) (now : Z)
| RegFinish (user : jstr) (credential : val)
| AuthStart (user : jstr) (challenge : bytes) (now : Z)
| AuthFinish (user : jstr) (assertion : val)
| DiscoStart (challenge : bytes) (now : Z)
| DiscoFinish (session : jstr) (assertion : val).

Definition after (r : relay) (o : op) : relay :=
  match o with
  | SetVault u k s v w c => (on_vault_set u k s v w c r).1
  | AddWrap u i c s w l n => (on_wrap_add u i c s w l n r).1
  | DelWrap u i => (on_wrap_del u i r).1
  | RegStart u c n => (on_register_start u c n r).1
  | RegFinish u c => (on_register_finish u c r).1
  | AuthStart u c n => (passkey_challenge u c n r).1
  | AuthFinish u a => (passkey_login u a r).1
  | DiscoStart c n => (passkey_discover_challenge c n r).1
  | DiscoFinish s a => (passkey_discover_login s a r).1
  end.

(** [me] replaces the vault, or the wrap of a credential. *)
Definition replaces_vault (me : jstr) (o : op) : Prop := match o with SetVault u _ _ _ _ _ => u = me | _ => False end.
Definition replaces_wrap (me cred : jstr) (o : op) : Prop :=
  match o with AddWrap u i _ _ _ _ _ | DelWrap u i => u = me /\ i = cred | _ => False end.

Ltac frame := repeat (case_match; simplify_eq/=; try done).

Lemma finish_discoverable_frame s a p r r' v :
  finish_discoverable s a p r = (r', v) -> vaults r' = vaults r /\ passkey_wraps r' = passkey_wraps r.
Proof. unfold finish_discoverable. by repeat case_match; intros [= <- <-]. Qed.

Lemma discover_frame s a r : vaults (passkey_discover_login s a r).1 = vaults r /\ passkey_wraps (passkey_discover_login s a r).1 = passkey_wraps r.
Proof.
  unfold passkey_discover_login. repeat (case_match; cbn [fst]; try done);
    match goal with E : finish_discoverable _ _ _ _ = _ |- _ => by apply finish_discoverable_frame in E end.
Qed.

Lemma pre_session_frame o r :
  match o with SetVault _ _ _ _ _ _ | AddWrap _ _ _ _ _ _ _ | DelWrap _ _ => False | _ => True end ->
  vaults (after r o) = vaults r /\ passkey_wraps (after r o) = passkey_wraps r.
Proof.
  destruct o; intros Ho; try done; cbn [after].
  - unfold on_register_finish, finish_registration. frame.
  - unfold passkey_challenge, start_authentication. frame.
  - unfold passkey_login, finish_authentication. frame.
  - unfold passkey_discover_challenge, start_discoverable. frame.
  - apply discover_frame.
Qed.

Lemma vault_stays me r o : ~ replaces_vault me o -> get_vault me (after r o) = get_vault me r.
Proof.
  intros Ho. unfold get_vault. pose proof (pre_session_frame o r) as Hf. destruct o; try (by rewrite (proj1 (Hf I))); clear Hf; cbn [after].
  - unfold on_vault_set, set_vault. repeat (case_match; try done). cbn [fst vaults with_vaults].
    rewrite obj_get_map_set. case_match eqn:E; [|done]. apply str_eqb_eq in E. done.
  - unfold on_wrap_add, add_passkey_wrap. by frame.
  - unfold on_wrap_del, delete_passkey_wrap. by frame.
Qed.

Lemma vault_lasts me ops r :
  Forall (fun o => ~ replaces_vault me o) ops -> get_vault me (fold_left after ops r) = get_vault me r.
Proof. intros Ho. revert r. induction Ho as [|o ops Ho _ IH]; intros r; cbn; [done|]. by rewrite IH, vault_stays. Qed.

Lemma wrap_stays me cred w r o :
  p_user w = me -> ~ replaces_wrap me cred o -> get_passkey_wrap cred r = Some w -> get_passkey_wrap cred (after r o) = Some w.
Proof.
  intros Hu Ho Hw. unfold get_passkey_wrap in *. pose proof (pre_session_frame o r) as Hf.
  destruct o; try (by rewrite (proj2 (Hf I))); clear Hf; cbn [after].
  - unfold on_vault_set. by frame.
  - unfold on_wrap_add, add_passkey_wrap. destruct (b64_decode salt), (b64_decode wrapped); try done. cbn [p_user].
    destruct (str_eqb cred_id cred) eqn:Ei.
    + apply str_eqb_eq in Ei as ->. rewrite Hw. destruct (str_eqb (p_user w) user) eqn:Eu; [|done].
      apply str_eqb_eq in Eu. exfalso. apply Ho. cbn. by subst.
    + destruct (match obj_get (passkey_wraps r) cred_id with Some _ => _ | None => false end); [done|]. cbn. by rewrite obj_get_map_set, Ei.
  - unfold on_wrap_del, delete_passkey_wrap. destruct (obj_get (passkey_wraps r) cred_id) as [w'|] eqn:Ew; [|done].
    destruct (str_eqb (p_user w') user) eqn:Eu; [|done]. cbn. rewrite obj_get_delete.
    destruct (str_eqb cred_id cred) eqn:Ei; [|done]. apply str_eqb_eq in Ei as ->. apply str_eqb_eq in Eu.
    exfalso. apply Ho. cbn. split; [|done]. rewrite Hw in Ew. by simplify_eq.
Qed.

Lemma wrap_lasts me cred w ops r :
  p_user w = me -> Forall (fun o => ~ replaces_wrap me cred o) ops ->
  get_passkey_wrap cred r = Some w -> get_passkey_wrap cred (fold_left after ops r) = Some w.
Proof. intros Hu Ho. revert r. induction Ho as [|o ops Ho _ IH]; intros r Hw; cbn; [done|]. apply IH. by eapply wrap_stays. Qed.

(** *** Running the device *)

Lemma bind_done {A B} (m : M A) (k : A -> M B) w w' a : m w = (w', Done a) -> bind m k w = k a w'.
Proof. intros E. unfold bind. by rewrite E. Qed.

Lemma bind_fails {A B} (m : M A) (k : A -> M B) w w' e : m w = (w', Fails e) -> bind m k w = (w', Fails e).
Proof. intros E. unfold bind. by rewrite E. Qed.

Lemma request_done {A} (serve : relay -> relay * (jstr + A)) w r a :
  w_fates w = [] -> serve (w_relay w) = (r, inr a) -> request serve w = (with_relay r w, Done a).
Proof. intros Ef E. unfold request, bind, send. by rewrite Ef, E. Qed.

Lemma fetch_json (serve : relay -> relay * answer) w r v :
  w_fates w = [] -> serve (w_relay w) = (r, Json v) -> fetch serve w = (with_relay r w, Done v).
Proof. intros Ef E. unfold fetch, bind, send. by rewrite Ef, E. Qed.

Lemma fetch_refused (serve : relay -> relay * answer) w r s t :
  w_fates w = [] -> serve (w_relay w) = (r, Refused s t) -> fetch serve w = (with_relay r w, Fails (accountError s t)).
Proof. intros Ef E. unfold fetch, bind, send. by rewrite Ef, E. Qed.

(** The device after it was secured. *)
Definition secured (kind : option jstr) (d : device) : device :=
  {| dv_identity := dv_identity d; dv_securedLocal := Some true; dv_vault := Some (kind, true) |}.

Lemma marks_this_device me w : w_fates w = [] ->
  markSecuredLocal me w = (with_device (secured (v_kind <$> get_vault me (w_relay w)) (w_device w)) w, Done tt).
Proof.
  intros Ef. unfold markSecuredLocal, status, catch. erewrite bind_done by reflexivity.
  erewrite bind_done; [|apply request_done; [exact Ef|reflexivity]]. destruct w as [r d fs]. reflexivity.
Qed.

Lemma byte_take l n : Forall byte l -> Forall byte (take n l).
Proof. intros Hl. by apply Forall_take. Qed.

Lemma vault_set_done me kind salt verifier wrapped credential r :
  kind = js "password" \/ kind = js "passkey" -> Forall byte salt -> Forall byte verifier -> Forall byte wrapped ->
  on_vault_set me kind (b64_enc salt) (b64_enc verifier) (b64_enc wrapped) credential r =
    (set_vault me {| v_kind := kind; v_salt := salt; v_verifier := verifier; v_wrapped := wrapped; v_credential := credential |} r, inr tt).
Proof.
  intros Hk Hs Hv Hw. unfold on_vault_set. rewrite !decode_enc by done. by destruct Hk as [-> | ->].
Qed.

Lemma get_set_vault me v r : get_vault me (set_vault me v r) = Some v.
Proof. unfold get_vault, set_vault. cbn. by rewrite obj_get_map_set, str_eqb_refl. Qed.

(** The vault a password makes. *)
Definition password_vault (k salt iv identity : bytes) : VaultRecord :=
  {| v_kind := js "password"; v_salt := salt; v_verifier := sha256 (take 32 k); v_wrapped := encryptBlob (drop 32 k) iv identity; v_credential := None |}.

Definition bytes16 (salt : bytes) : Prop := length salt = 16%nat /\ Forall byte salt.
Definition bytes12 (iv : bytes) : Prop := length iv = 12%nat /\ Forall byte iv.

Lemma secured_with_password me password salt iv identity k w :
  (8 <= length password)%nat -> bytes16 salt -> bytes12 iv -> Forall byte identity ->
  login_keys password salt = Some k -> Forall byte k ->
  w_fates w = [] -> dv_identity (w_device w) = Some identity ->
  secureWithPassword me password salt iv w =
    ({| w_relay := set_vault me (password_vault k salt iv identity) (w_relay w);
        w_device := secured (Some (js "password")) (w_device w); w_fates := [] |}, Done tt).
Proof.
  intros Hp [_ Hs] [Hl Hi] Hd Ek Hk Ef Ed. unfold secureWithPassword.
  assert (length password <? MIN_PASSWORD = false)%nat as -> by (apply Nat.ltb_ge; exact Hp).
  rewrite Ek. erewrite bind_done by reflexivity. erewrite bind_done by (unfold identityBytes; rewrite Ed; reflexivity).
  erewrite bind_done; [|apply request_done; [exact Ef|apply vault_set_done; [by left|done|by apply sha256_bytes, byte_take|by apply encrypt_bytes]]].
  rewrite marks_this_device by exact Ef. cbn [w_relay w_device with_relay]. rewrite get_set_vault. unfold with_device, with_relay. cbn. by rewrite Ef.
Qed.

Lemma unwrapped key iv identity e :
  bytes12 iv -> Forall byte identity -> unwrap key (VStr (b64_encode (encryptBlob key iv identity))) e = Done identity.
Proof. intros [Hl Hi] Hd. unfold unwrap. rewrite dec_encode by (by apply encrypt_bytes). by rewrite decrypt_encrypt. Qed.

(** What unlocking does with a password vault. *)
Lemma unlock_password user guess salt iv identity k k' w :
  bytes16 salt -> bytes12 iv -> Forall byte identity -> w_fates w = [] ->
  get_vault user (w_relay w) = Some (password_vault k salt iv identity) ->
  login_keys guess salt = Some k' -> Forall byte k' ->
  (unlockWithPassword user guess w).2 =
    if bool_decide (sha256 (take 32 k') = sha256 (take 32 k))
    then unwrap (drop 32 k') (VStr (b64_encode (encryptBlob (drop 32 k) iv identity))) corrupt
    else error (js "wrong password").
Proof.
  intros [_ Hs] Hi Hd Ef Ev Ek Hk. unfold unlockWithPassword.
  erewrite bind_done; [|apply fetch_json; [exact Ef|unfold params; by rewrite Ev]].
  erewrite bind_done by reflexivity.
  erewrite bind_done; [|unfold give; change ((jobj _).["salt"]) with (VStr (b64_encode salt)); by rewrite dec_encode].
  rewrite Ek. erewrite bind_done by reflexivity.
  assert (password_login user (b64_enc (take 32 k')) (w_relay w) =
    (w_relay w, if bool_decide (sha256 (take 32 k') = sha256 (take 32 k)) then wrapped_answer (encryptBlob (drop 32 k) iv identity)
                else Refused 403 (js "wrong password"))) as Ea.
  { unfold password_login. rewrite decode_enc by (by apply byte_take). rewrite Ev. reflexivity. }
  case_bool_decide as Eh.
  - erewrite bind_done; [|apply fetch_json; [exact Ef|exact Ea]]. reflexivity.
  - erewrite bind_fails; [|eapply fetch_refused; [exact Ef|exact Ea]]. reflexivity.
Qed.

(** C36: An identity sealed under a password opens with it on every device, however
    much others do on the relay and whatever devices the owner enrols or
    revokes meanwhile; a password that derives another half is refused, and
    the banner that says the account lives in one browser is gone. *)
Theorem a_password_opens_the_vault_anywhere me password salt iv identity w :
  (8 <= length password)%nat -> bytes16 salt -> bytes12 iv -> Forall byte identity ->
  w_fates w = [] -> dv_identity (w_device w) = Some identity ->
  let '(w', done) := secureWithPassword me password salt iv w in
  done = Done tt /\ dv_vault (w_device w') = Some (Some (js "password"), true) /\
  forall ops anywhere, Forall (fun o => ~ replaces_vault me o) ops ->
    w_relay anywhere = fold_left after ops (w_relay w') -> w_fates anywhere = [] ->
    (accountKind me anywhere).2 = Done (VStr (js "password")) /\
    (unlockWithPassword me password anywhere).2 = Done identity /\
    forall guess k k', login_keys password salt = Some k -> login_keys guess salt = Some k' ->
      sha256 (take 32 k') <> sha256 (take 32 k) ->
      (unlockWithPassword me guess anywhere).2 = error (js "wrong password").
Proof.
  intros Hp Hs Hi Hd Ef Ed. destruct (login_keys_ok password salt (proj1 Hs)) as (k & Ek & _ & Hk).
  rewrite (secured_with_password me password salt iv identity k w) by done.
  split; [done|]. split; [done|]. intros ops x Ho Er Ex. cbn [w_relay] in Er.
  assert (get_vault me (w_relay x) = Some (password_vault k salt iv identity)) as Ev by (rewrite Er, vault_lasts by done; apply get_set_vault).
  split; [|split].
  - unfold accountKind, catch. erewrite bind_done; [|apply fetch_json; [exact Ex|unfold params; by rewrite Ev]]. reflexivity.
  - rewrite (unlock_password me password salt iv identity k k) by done. rewrite bool_decide_eq_true_2 by done. by apply unwrapped.
  - intros guess k1 k' Ek1 Ek' Hne. rewrite Ek in Ek1. injection Ek1 as <-.
    destruct (login_keys_ok guess salt (proj1 Hs)) as (k2 & Ek2 & _ & Hk2). rewrite Ek' in Ek2. injection Ek2 as <-.
    rewrite (unlock_password me guess salt iv identity k k') by done. by rewrite bool_decide_eq_false_2.
Qed.
(** *** Passkeys *)

(** A passkey: its id, what the relay keeps of it, and the secret its
    authenticator reproduces under the salt of the vault. *)
Record passkey := { k_id : bytes; k_text : jstr; k_secret : bytes }.

(** The browser registers it for a challenge, and says its secret at once or
    only when asked. *)
Definition makes (b : Credentials) (challenge : bytes) (k : passkey) : Prop :=
  exists create_ c, create b = Some create_ /\
    (forall o, co_challenge o = challenge -> co_prf o = Some VAULT_PRF_SALT -> create_ o = Some c) /\
    rg_rawId c = k_id k /\ (rg_prf c = Some (k_secret k) \/ rg_prf c = None) /\
    rp_register challenge (serializeRegistration c) = Some (k_text k).

(** The browser answers challenges with it. *)
Definition holds (b : Credentials) (k : passkey) : Prop :=
  exists get_, getc b = Some get_ /\
    forall o, ro_prf o = Some VAULT_PRF_SALT -> exists a, get_ o = Some a /\
      as_rawId a = k_id k /\ as_prf a = Some (k_secret k) /\
      (rp_cred_id (k_text k) = Some (k_id k) -> rp_assert (ro_challenge o) (k_text k) (serializeAssertion a) = true).

Lemma registration_parses me c : Forall byte c ->
  exists o, parseCreationOptions (rp_creation me c) true = Ok o /\ co_challenge o = c /\ co_prf o = Some VAULT_PRF_SALT.
Proof.
  intros Hc. destruct (creation_reads me c Hc) as (o & Eo & Ec). exists o. split; [done|]. split; [done|].
  unfold parseCreationOptions in Eo. inv_ok. reflexivity.
Qed.

(** What registering leaves: the tables as they were. *)
Lemma registered me b c now random k w :
  Forall byte c -> Forall byte (k_id k) -> w_fates w = [] -> makes b c k -> holds b k ->
  exists r credential, registerCredential me b c now random w = (with_relay r w, Done (credential, k_text k, k_secret k)) /\
    rg_rawId credential = k_id k /\ rp_cred_id (k_text k) = Some (k_id k) /\
    vaults r = vaults (w_relay w) /\ passkey_wraps r = passkey_wraps (w_relay w).
Proof.
  intros Hc Hid Ef (create_ & cr & Eb & Hcr & Eid & Hprf & Ereg) (get_ & Eg & Hget).
  destruct (registration_parses me c Hc) as (o & Eo & Eoc & Eop).
  set (r1 := with_regs (map_set (fresh_states now (reg_states (w_relay w))) me (c, now)) (w_relay w)).
  set (r2 := with_regs (obj_delete (reg_states r1) me) r1).
  exists r2, cr. split; [|split; [done|split; [|done]]].
  2: { rewrite <- Eid. eapply registered_id; [by rewrite Eid|exact Ereg]. }
  unfold registerCredential. rewrite Eb.
  erewrite bind_done; [|apply request_done; [exact Ef|reflexivity]].
  erewrite bind_done by (rewrite Eo; reflexivity).
  erewrite bind_done by (rewrite (Hcr o Eoc Eop); reflexivity).
  erewrite bind_done; [|apply request_done; [exact Ef|]].
  2: { unfold on_register_finish, finish_registration. cbn [w_relay with_relay reg_states with_regs].
       rewrite obj_get_map_set, str_eqb_refl, Ereg. reflexivity. }
  destruct Hprf as [-> | ->]; cbn [prfSecret].
  - erewrite bind_done by reflexivity. reflexivity.
  - rewrite (bind_done _ _ _ (with_relay r2 w) (Some (k_secret k))); [reflexivity|]. unfold give, derivePrfSecret. rewrite Eg. cbv zeta.
    match goal with |- context [get_ ?o'] => destruct (Hget o' eq_refl) as (a & -> & _ & -> & _) end. reflexivity.
Qed.

(** The wrap an enrolled device leaves. *)
Definition device_wrap (me : jstr) (k : passkey) (label : jstr) (iv identity : bytes) (now : Z) : PasskeyWrap :=
  {| p_user := me; p_credential := k_text k; p_salt := VAULT_PRF_SALT; p_wrapped := encryptBlob (k_secret k) iv identity;
     p_label := concat (take MAX_DEVICE_LABEL (code_points (trim (take DEVICE_LABEL_MAX label)))); p_created_at := now |}.

(** Nobody else has enrolled the credential. *)
Definition unclaimed (me : jstr) (cred : jstr) (r : relay) : Prop :=
  forall w, get_passkey_wrap cred r = Some w -> p_user w = me.

Lemma prf_salt_bytes : Forall byte VAULT_PRF_SALT.
Proof. apply (bool_decide_unpack _). vm_compute. exact I. Qed.

Lemma enrolled me b label c now random iv identity k w :
  Forall byte c -> bytes12 iv -> Forall byte identity -> Forall byte (k_id k) -> w_fates w = [] -> dv_identity (w_device w) = Some identity ->
  makes b c k -> holds b k -> unclaimed me (b64url_enc (k_id k)) (w_relay w) ->
  exists w', enrollDevicePasskey me b label c now random iv w = (w', Done tt) /\
    rp_cred_id (k_text k) = Some (k_id k) /\ w_fates w' = [] /\
    vaults (w_relay w') = vaults (w_relay w) /\
    passkey_wraps (w_relay w') = map_set (passkey_wraps (w_relay w)) (b64url_enc (k_id k)) (device_wrap me k label iv identity now).
Proof.
  intros Hc [Hl Hi] Hd Hid Ef Ed Hm Hh Hfree.
  destruct (registered me b c now random k w Hc Hid Ef Hm Hh) as (r & cr & Er & Eid & Ecred & Ev & Ew).
  set (r' := with_wraps (map_set (passkey_wraps r) (b64url_enc (k_id k)) (device_wrap me k label iv identity now)) r).
  assert (on_wrap_add me (b64url_enc (k_id k)) (k_text k) (b64_enc VAULT_PRF_SALT) (b64_enc (encryptBlob (k_secret k) iv identity))
            (Some (trim (take DEVICE_LABEL_MAX label))) now r = (r', inr tt)) as Ea.
  { unfold on_wrap_add. rewrite !decode_enc by (apply prf_salt_bytes || by apply encrypt_bytes).
    unfold add_passkey_wrap. cbn [p_user]. rewrite Ew. specialize (Hfree).
    assert ((match obj_get (passkey_wraps (w_relay w)) (b64url_enc (k_id k)) with
             | Some w' => negb (str_eqb (p_user w') me) | None => false end) = false) as ->.
    { destruct (obj_get (passkey_wraps (w_relay w)) (b64url_enc (k_id k))) as [w'|] eqn:E; [|done].
      by rewrite (Hfree w' E), str_eqb_refl. }
    unfold r'. by rewrite Ew. }
  exists (with_device (secured (v_kind <$> get_vault me r') (w_device w)) (with_relay r' w)).
  split; [|split; [done|split; [exact Ef|split; [exact Ev|unfold r'; cbn; by rewrite Ew]]]].
  unfold enrollDevicePasskey. erewrite bind_done by exact Er. cbv beta iota.
  erewrite bind_done by (unfold identityBytes; cbn [w_device with_relay]; rewrite Ed; reflexivity).
  rewrite Eid. erewrite bind_done; [|apply request_done; [exact Ef|exact Ea]].
  rewrite marks_this_device by exact Ef. reflexivity.
Qed.
(** Signing in with no handle, up to the relay's answer. *)
Lemma discovering b k mediation c now w r v :
  Forall byte c -> w_fates w = [] -> holds b k ->
  (forall session assertion r1, vaults r1 = vaults (w_relay w) -> passkey_wraps r1 = passkey_wraps (w_relay w) ->
     obj_get (disco_states r1) session = Some (c, now) -> assertion.["rawId"] = VStr (b64url_enc (k_id k)) ->
     (rp_cred_id (k_text k) = Some (k_id k) -> rp_assert c (k_text k) assertion = true) ->
     (passkey_discover_login session assertion r1).2 = r) ->
  v = match r with
      | Json reply => unwrap (k_secret k) reply.["wrapped"] unlockableHereError
      | Refused s t => Fails (accountError s t)
      end ->
  (unlockWithDiscoverablePasskey b mediation c now w).2 = v.
Proof.
  intros Hc Ef (get_ & Eg & Hget) Hlogin ->. unfold unlockWithDiscoverablePasskey. rewrite Eg.
  destruct (request_session c None) as (session & Es). destruct (request_reads c None (Some VAULT_PRF_SALT) mediation Hc) as (o & Eo & Eoc & Eop).
  destruct (Hget o Eop) as (a & Ea & Eid & Eprf & Hok). rewrite Eoc in Hok.
  set (r1 := with_discos (map_set (fresh_states now (disco_states (w_relay w))) session (c, now)) (w_relay w)).
  erewrite bind_done; [|apply (fetch_json _ _ r1 (jobj [("session", VStr session); ("options", rp_request c None)]%string)); [exact Ef|]].
  2: { unfold passkey_discover_challenge, start_discoverable. rewrite Es. reflexivity. }
  change ((jobj _).["options"]) with (rp_request c None). change ((jobj _).["session"]) with (VStr session). cbv iota.
  erewrite bind_done by (rewrite Eo; reflexivity). erewrite bind_done by (rewrite Ea; reflexivity).
  erewrite bind_done by (rewrite Eprf; reflexivity).
  destruct (passkey_discover_login session (serializeAssertion a) r1) as [r2 ans] eqn:El.
  assert (ans = r) as ->.
  { rewrite <- (Hlogin session (serializeAssertion a) r1); [by rewrite El|done|done| |by rewrite <- Eid|exact Hok].
    unfold r1. cbn. by rewrite obj_get_map_set, str_eqb_refl. }
  destruct r as [reply|st t].
  - erewrite bind_done; [|apply fetch_json; [exact Ef|exact El]]. reflexivity.
  - erewrite bind_fails; [|eapply fetch_refused; [exact Ef|exact El]]. reflexivity.
Qed.

Lemma discover_wrap b k mediation c now w x :
  Forall byte c -> w_fates w = [] -> holds b k -> rp_cred_id (k_text k) = Some (k_id k) ->
  get_passkey_wrap (b64url_enc (k_id k)) (w_relay w) = Some x -> p_credential x = k_text k ->
  (unlockWithDiscoverablePasskey b mediation c now w).2 = unwrap (k_secret k) (VStr (b64_encode (p_wrapped x))) unlockableHereError.
Proof.
  intros Hc Ef Hh Ek Ex Ecx. apply (discovering b k mediation c now w (found_answer (p_user x) (p_wrapped x))); [done|done|exact Hh| |].
  - intros session a r1 _ Ew Ed Ea Hok. unfold passkey_discover_login, get_passkey_wrap in *. rewrite Ea, Ew, Ex, Ecx.
    unfold finish_discoverable. rewrite Ed, Ek, Hok by done. reflexivity.
  - reflexivity.
Qed.

Lemma discover_nobody b k mediation c now w :
  Forall byte c -> w_fates w = [] -> holds b k -> Forall byte (k_id k) ->
  get_passkey_wrap (b64url_enc (k_id k)) (w_relay w) = None -> vault_of (k_id k) (w_relay w) = None ->
  (unlockWithDiscoverablePasskey b mediation c now w).2 = error (js "unrecognized passkey").
Proof.
  intros Hc Ef Hh Hid Ex Ev. apply (discovering b k mediation c now w (Refused 403 (js "unrecognized passkey"))); [done|done|exact Hh| |].
  - intros session a r1 Evr Ew _ Ea _. unfold passkey_discover_login, get_passkey_wrap in *. rewrite Ea, Ew, Ex, url_decode by done.
    unfold vault_of, list_passkey_vaults in *. by rewrite Evr, Ev.
  - reflexivity.
Qed.

(** The row of a device on the list of its owner. *)
Definition listed (cred : jstr) (x : PasskeyWrap) : jstr * jstr * num := (cred, p_label x, nmul (int (p_created_at x)) (int 1000)).

Lemma devices_listed me w : w_fates w = [] ->
  exists l, (listDevices me w).2 = Done l /\
    forall row, row ∈ l <-> exists cred x, (cred, x) ∈ passkey_wraps (w_relay w) /\ p_user x = me /\ row = listed cred x.
Proof.
  intros Ef. unfold listDevices. erewrite bind_done; [|apply request_done; [exact Ef|reflexivity]].
  eexists. split; [reflexivity|]. intros row. unfold list_passkey_wraps. rewrite list_elem_of_fmap.
  setoid_rewrite sort_by_perm. setoid_rewrite list_elem_of_fmap. setoid_rewrite list_elem_of_filter. split.
  - intros (d & -> & [cred x] & -> & Hu & Hx). by exists cred, x.
  - intros (cred & x & Hx & Hu & ->). eexists. split; [|exists (cred, x); split; [reflexivity|by split]]. reflexivity.
Qed.

Lemma revoked me cred w x : w_fates w = [] -> get_passkey_wrap cred (w_relay w) = Some x -> p_user x = me ->
  revokeDevice me cred w = (with_relay (with_wraps (obj_delete (passkey_wraps (w_relay w)) cred) (w_relay w)) w, Done tt).
Proof.
  intros Ef Ex Hu. unfold revokeDevice. apply request_done; [exact Ef|]. unfold on_wrap_del, delete_passkey_wrap.
  unfold get_passkey_wrap in Ex. rewrite Ex. by rewrite Hu, str_eqb_refl.
Qed.

Lemma vault_of_vaults id r r' : vaults r = vaults r' -> vault_of id r = vault_of id r'.
Proof. intros E. unfold vault_of, list_passkey_vaults. by rewrite E. Qed.

(** A passkey enrolled for a device is on the list and opens the identity with
    no handle, whatever is done on the relay to other vaults and other keys,
    until its owner revokes it.  Then it is off the list, every other key is
    as it was, and the passkey is unknown, unless it also seals a vault. *)
Theorem a_device_key_opens_until_revoked me b label c now random iv identity k w :
  Forall byte c -> bytes12 iv -> Forall byte identity -> Forall byte (k_id k) ->
  w_fates w = [] -> dv_identity (w_device w) = Some identity ->
  makes b c k -> holds b k -> unclaimed me (b64url_enc (k_id k)) (w_relay w) ->
  let cred := b64url_enc (k_id k) in
  let '(w', done) := enrollDevicePasskey me b label c now random iv w in
  done = Done tt /\
  forall ops anywhere c' now' mediation, Forall (fun o => ~ replaces_wrap me cred o) ops ->
    w_relay anywhere = fold_left after ops (w_relay w') -> w_fates anywhere = [] -> Forall byte c' ->
    (unlockWithDiscoverablePasskey b mediation c' now' anywhere).2 = Done identity /\
    (exists l, (listDevices me anywhere).2 = Done l /\ listed cred (device_wrap me k label iv identity now) ∈ l) /\
    let '(v, gone) := revokeDevice me cred anywhere in
    gone = Done tt /\
    (exists l, (listDevices me v).2 = Done l /\ cred ∉ (fun row => row.1.1) <$> l) /\
    (forall other, other <> cred -> get_passkey_wrap other (w_relay v) = get_passkey_wrap other (w_relay anywhere)) /\
    (vault_of (k_id k) (w_relay v) = None ->
     (unlockWithDiscoverablePasskey b mediation c' now' v).2 = error (js "unrecognized passkey")).
Proof.
  intros Hc Hi Hd Hid Ef Ed Hm Hh Hfree cred.
  destruct (enrolled me b label c now random iv identity k w Hc Hi Hd Hid Ef Ed Hm Hh Hfree) as (w' & -> & Ek & Ef' & _ & Ew).
  split; [done|]. intros ops x c' now' med Ho Er Ex Hc'.
  assert (get_passkey_wrap cred (w_relay x) = Some (device_wrap me k label iv identity now)) as Hget.
  { rewrite Er. apply (wrap_lasts me); [done|done|]. unfold get_passkey_wrap. by rewrite Ew, obj_get_map_set, str_eqb_refl. }
  split; [|split].
  - rewrite (discover_wrap b k med c' now' x (device_wrap me k label iv identity now)) by done. by apply unwrapped.
  - destruct (devices_listed me x Ex) as (l & El & Hl). exists l. split; [done|]. apply Hl. exists cred. eexists.
    split; [by apply obj_get_elem|done].
  - rewrite (revoked me cred x (device_wrap me k label iv identity now)) by done. split; [done|].
    set (v := with_relay _ _). assert (get_passkey_wrap cred (w_relay v) = None) as Hgone
      by (unfold get_passkey_wrap, v; cbn; by rewrite obj_get_delete, str_eqb_refl).
    split; [|split].
    + destruct (devices_listed me v Ex) as (l & El & Hl). exists l. split; [done|].
      intros ([[cr lb] n] & Erow & (cr' & y & Hy & _ & [= -> _ _])%Hl)%list_elem_of_fmap. cbn in Erow. subst cr'.
      apply obj_get_None in Hgone. apply Hgone. by apply (list_elem_of_fmap_2 fst) in Hy.
    + intros other Hne. unfold get_passkey_wrap, v. cbn. rewrite obj_get_delete. destruct (str_eqb cred other) eqn:E; [|done].
      apply str_eqb_eq in E. by subst.
    + intros Hv. by apply (discover_nobody b k).
Qed.
(** The vault a passkey makes. *)
Definition passkey_vault (k : passkey) (iv identity : bytes) : VaultRecord :=
  {| v_kind := js "passkey"; v_salt := VAULT_PRF_SALT; v_verifier := []; v_wrapped := encryptBlob (k_secret k) iv identity; v_credential := Some (k_text k) |}.

Lemma secured_with_passkey me b c now random iv identity k w :
  Forall byte c -> bytes12 iv -> Forall byte identity -> Forall byte (k_id k) -> w_fates w = [] -> dv_identity (w_device w) = Some identity ->
  makes b c k -> holds b k ->
  exists w', secureWithPasskey me b c now random iv w = (w', Done tt) /\ rp_cred_id (k_text k) = Some (k_id k) /\
    vaults (w_relay w') = map_set (vaults (w_relay w)) me (passkey_vault k iv identity) /\
    passkey_wraps (w_relay w') = passkey_wraps (w_relay w).
Proof.
  intros Hc [Hl Hi] Hd Hid Ef Ed Hm Hh.
  destruct (registered me b c now random k w Hc Hid Ef Hm Hh) as (r & cr & Er & _ & Ecred & Ev & Ew).
  set (r' := set_vault me (passkey_vault k iv identity) r).
  exists (with_device (secured (v_kind <$> get_vault me r') (w_device w)) (with_relay r' w)).
  split; [|split; [done|split; [unfold r', set_vault; cbn; by rewrite Ev|exact Ew]]].
  unfold secureWithPasskey. erewrite bind_done by exact Er. cbv beta iota.
  erewrite bind_done by (unfold identityBytes; cbn [w_device with_relay]; rewrite Ed; reflexivity).
  erewrite bind_done; [|apply request_done; [exact Ef|apply vault_set_done; [by right|apply prf_salt_bytes|constructor|by apply encrypt_bytes]]].
  rewrite marks_this_device by exact Ef. reflexivity.
Qed.

(** An identity sealed under a passkey opens by handle with that passkey until
    its owner seals the account anew; with no handle too, as long as the relay
    resolves the passkey to this vault. *)
Lemma a_passkey_opens_its_vault me b c now random iv identity k w :
  Forall byte c -> bytes12 iv -> Forall byte identity -> Forall byte (k_id k) ->
  w_fates w = [] -> dv_identity (w_device w) = Some identity -> makes b c k -> holds b k ->
  let '(w', done) := secureWithPasskey me b c now random iv w in
  done = Done tt /\
  forall ops anywhere c' now', Forall (fun o => ~ replaces_vault me o) ops ->
    w_relay anywhere = fold_left after ops (w_relay w') -> w_fates anywhere = [] -> Forall byte c' ->
    (unlockWithPasskey b me c' now' anywhere).2 = Done identity /\
    (get_passkey_wrap (b64url_enc (k_id k)) (w_relay anywhere) = None ->
     vault_of (k_id k) (w_relay anywhere) = Some (me, passkey_vault k iv identity) ->
     forall mediation, (unlockWithDiscoverablePasskey b mediation c' now' anywhere).2 = Done identity).
Proof.
  intros Hc Hi Hd Hid Ef Ed Hm Hh.
  destruct (secured_with_passkey me b c now random iv identity k w) as (w' & -> & Ek & Ev & _); try done.
  split; [done|]. intros ops x c' now' Ho Er Ex Hc'.
  assert (get_vault me (w_relay x) = Some (passkey_vault k iv identity)) as Hv.
  { rewrite Er, vault_lasts by done. unfold get_vault. by rewrite Ev, obj_get_map_set, str_eqb_refl. }
  split.
  - destruct Hh as (get_ & Eg & Hget). unfold unlockWithPasskey. rewrite Eg.
    erewrite bind_done; [|apply fetch_json; [exact Ex|unfold params; by rewrite Hv]].
    erewrite bind_done by reflexivity.
    erewrite bind_done; [|unfold give; change ((jobj _).["salt"]) with (VStr (b64_encode VAULT_PRF_SALT)); by rewrite dec_encode by apply prf_salt_bytes].
    set (r1 := with_auths (map_set (fresh_states now' (auth_states (w_relay x))) me (c', k_text k, now')) (w_relay x)).
    erewrite bind_done; [|apply (fetch_json _ _ r1 (rp_request c' (Some (k_text k)))); [exact Ex|]].
    2: { cbn [w_relay with_relay]. unfold passkey_challenge. rewrite Hv. cbn [v_kind passkey_vault v_credential].
         rewrite str_eqb_refl. unfold start_authentication. by rewrite Ek. }
    destruct (request_reads c' (Some (k_text k)) (Some VAULT_PRF_SALT) VUndef Hc') as (o & Eo & Eoc & Eop).
    destruct (Hget o Eop) as (a & Ea & _ & Eprf & Hok). rewrite Eoc in Hok.
    erewrite bind_done by (rewrite Eo; reflexivity). erewrite bind_done by (rewrite Ea; reflexivity).
    erewrite bind_done by (rewrite Eprf; reflexivity).
    erewrite bind_done; [|apply (fetch_json _ _ (with_auths (obj_delete (auth_states r1) me) r1) (jobj [("wrapped", VStr (b64_encode (encryptBlob (k_secret k) iv identity)))]%string)); [exact Ex|]].
    2: { cbn [w_relay with_relay]. unfold passkey_login, finish_authentication. cbn [auth_states with_auths r1].
         rewrite obj_get_map_set, str_eqb_refl, (Hok Ek). change (get_vault me _) with (get_vault me (w_relay x)) at 1. rewrite Hv. reflexivity. }
    by apply unwrapped.
  - intros Hw Hvo mediation. rewrite (discovering b k mediation c' now' x (found_answer me (encryptBlob (k_secret k) iv identity)) (Done identity)); try done.
    + intros session a r1 Evr Ewr Edr Ear Hok. unfold passkey_discover_login, get_passkey_wrap in *.
      rewrite Ear, Ewr, Hw, url_decode, (vault_of_vaults _ r1 (w_relay x) Evr), Hvo by done. cbn [v_credential passkey_vault].
      unfold finish_discoverable. rewrite Edr, Ek, Hok by done. reflexivity.
    + symmetry. by apply unwrapped.
Qed.
End facts.
End AccountFacts.

(** ** Runs *)

Module AccountRuns.
Import Accounts AccountFacts History.ToyFacts.

(** A passkey's text is its id; an assertion is good when it names it. *)
#[export] Instance libraries : Libraries := {|
  rp_creation := fun _ c => jobj [("publicKey", jobj [("challenge", VStr (b64url_enc c)); ("user", jobj [("id", VStr [])])])]%string;
  rp_request := fun c _ => jobj [("publicKey", jobj [("challenge", VStr (b64url_enc c))])]%string;
  rp_register := fun _ j => match j.["rawId"] with VStr s => Some s | _ => None end;
  rp_assert := fun _ p a => strict_eq a.["rawId"] (VStr p);
  rp_cred_id := fun p => match b64url_dec p with Ok b => Some b | Throw _ => None end;
  b64_decode := fun s => match atob s with Ok b => Some b | Throw _ => None end;
  b64_encode := b64_enc;
  b64url_decode := fun p => match b64url_dec p with Ok b => Some b | Throw _ => None end;
  login_keys := fun password salt => Some (take 64 (((fun u => (u mod 256)%N) <$> password) ++ replicate 64 5%N));
|}.

(** What the two parsers make of them. *)
Definition creation_options (s : jstr) (challenge : bytes) : CreationOptions := {|
  co_rest := [(js "challenge", VStr s); (js "user", jobj [("id", VStr [])]%string)]; co_challenge := challenge;
  co_user := [(js "id", VStr [])]; co_user_id := []; co_exclude := [];
  co_authenticatorSelection := [(js "residentKey", VStr (js "required")); (js "requireResidentKey", VBool true)];
  co_extensions := []; co_prf := Some VAULT_PRF_SALT |}.

Definition request_options (s : jstr) (challenge : bytes) (prf : option bytes) (mediation : val) : RequestOptions := {|
  ro_rest := [(js "challenge", VStr s)]; ro_challenge := challenge; ro_allow := []; ro_extensions := []; ro_prf := prf; ro_mediation := mediation |}.

#[export] Instance library_laws : LibraryLaws.
Proof.
  split.
  - intros l Hl. cbn. by rewrite b64_enc_btoa, atob_btoa.
  - intros l Hl. by apply b64_dec_enc.
  - intros l Hl. cbn. by rewrite b64url_back.
  - intros user c Hc. cbn [rp_creation libraries]. pose proof (b64url_back c Hc) as Eb. revert Eb. generalize (b64url_enc c). intros s Eb.
    exists (creation_options s c). split; [|done].
    transitivity (let* challenge := b64url_dec s in Ok (creation_options s challenge)); [reflexivity|]. by rewrite Eb.
  - intros c p salt m Hc. cbn [rp_request libraries]. pose proof (b64url_back c Hc) as Eb. revert Eb. generalize (b64url_enc c). intros s Eb.
    exists (request_options s c salt m). split; [|by split].
    transitivity (let* challenge := b64url_dec s in Ok (request_options s challenge salt m)); [reflexivity|]. by rewrite Eb.
  - intros c p. by eexists.
  - intros c cr p Hb [= <-]. cbn -[b64url_enc]. unfold b64u_enc. by rewrite b64url_back.
  - intros password salt _. eexists. split; [reflexivity|]. split.
    + rewrite length_take, length_app, length_fmap, length_replicate. lia.
    + apply Forall_take, Forall_app. split; [|by apply Forall_replicate].
      apply Forall_fmap, Forall_forall. intros u _. cbn. by apply N.mod_lt.
  - intros m _. cbn. apply Forall_take, Forall_fmap, Forall_forall. intros u _. cbn. by apply N.mod_lt.
Qed.

Definition touch_id : bytes := [1; 2; 3]%N.
Definition browser (id secret : bytes) : Credentials := {|
  create := Some (fun _ => Some {| rg_id := []; rg_rawId := id; rg_type := js "public-key"; rg_attestationObject := []; rg_clientDataJSON := []; rg_prf := None |});
  getc := Some (fun o => Some {| as_id := []; as_rawId := id; as_type := js "public-key"; as_authenticatorData := []; as_clientDataJSON := ro_challenge o;
                                 as_signature := []; as_userHandle := None; as_prf := ro_prf o ≫= fun _ => Some secret |});
|}.
Definition laptop : Credentials := browser touch_id [9; 9]%N.
Definition laptop_key : passkey := {| k_id := touch_id; k_text := b64url_enc touch_id; k_secret := [9; 9]%N |}.

Definition no_relay : relay := {| vaults := []; passkey_wraps := []; reg_states := []; auth_states := []; disco_states := [] |}.
Definition at_home (who : bytes) (r : relay) : world :=
  {| w_relay := r; w_device := {| dv_identity := Some who; dv_securedLocal := Some false; dv_vault := None |}; w_fates := [] |}.
Definition anywhere (r : relay) : world := {| w_relay := r; w_device := {| dv_identity := None; dv_securedLocal := None; dv_vault := None |}; w_fates := [] |}.

Definition ada : bytes := [65; 68; 65]%N.
Definition salt : bytes := replicate 16 3%N.

Example device_names :
  deviceLabel (js "Mozilla/5.0 (Windows NT 10.0; Win64; x64) AppleWebKit/537.36 (KHTML, like Gecko) Chrome/120.0 Safari/537.36 Edg/120.0") = js "Edge on Windows" /\
  deviceLabel (js "Mozilla/5.0 (iPhone; CPU iPhone OS 17_0 like Mac OS X) AppleWebKit/605 Version/17 Safari/604") = js "Safari on iOS" /\
  deviceLabel [] = js "this device".
Proof. by vm_compute. Qed.

Lemma a_password_opens_the_vault_anywhere_witness :
  let w := at_home ada no_relay in
  let r := w_relay (secureWithPassword (js "ada") (js "correct horse") salt iv w).1 in
  (unlockWithPassword (js "ada") (js "correct horse") (anywhere (after r (DelWrap (js "bo") (js "x"))))).2 = Done ada /\
  (unlockWithPassword (js "ada") (js "battery staple") (anywhere (after r (DelWrap (js "bo") (js "x"))))).2 = error (js "wrong password").
Proof.
  intros w r.
  pose proof (a_password_opens_the_vault_anywhere (js "ada") (js "correct horse") salt iv ada w
    ltac:(apply Nat.leb_le; reflexivity) ltac:(split; [reflexivity|repeat constructor]) ltac:(split; [reflexivity|repeat constructor]) ltac:(repeat constructor) eq_refl eq_refl) as Ht.
  unfold r. destruct (secureWithPassword (js "ada") (js "correct horse") salt iv w) as [w' d]. destruct Ht as (_ & _ & Ht).
  destruct (Ht [DelWrap (js "bo") (js "x")] (anywhere (after (w_relay w') (DelWrap (js "bo") (js "x"))))) as (_ & Hok & Hno);
    [apply Forall_singleton; by intros []|reflexivity|reflexivity|].
  split; [exact Hok|]. eapply Hno; [reflexivity|reflexivity|]. vm_compute. discriminate.
Defined.

Lemma laptop_makes c : makes laptop c laptop_key.
Proof. eexists _, _. split; [reflexivity|]. split; [intros; reflexivity|]. split; [reflexivity|]. split; [by right|reflexivity]. Qed.

Lemma laptop_holds : holds laptop laptop_key.
Proof.
  eexists. split; [reflexivity|]. intros o Ho. eexists. split; [reflexivity|]. split; [done|]. split; [cbn; by rewrite Ho|]. intros _.
  vm_compute. done.
Qed.

Lemma a_device_key_opens_until_revoked_witness :
  let w := at_home ada no_relay in
  let r := w_relay (enrollDevicePasskey (js "ada") laptop (js "laptop") iv 10 iv iv w).1 in
  (unlockWithDiscoverablePasskey laptop VUndef iv 20 (anywhere r)).2 = Done ada /\
  (revokeDevice (js "ada") (b64url_enc touch_id) (anywhere r)).2 = Done tt.
Proof.
  intros w r.
  pose proof (a_device_key_opens_until_revoked (js "ada") laptop (js "laptop") iv 10 iv iv ada laptop_key w
    ltac:(repeat constructor) ltac:(split; [reflexivity|repeat constructor]) ltac:(repeat constructor) ltac:(repeat constructor) eq_refl eq_refl
    (laptop_makes iv) laptop_holds ltac:(intros x Hx; discriminate Hx)) as Ht.
  unfold r. cbv zeta in Ht. destruct (enrollDevicePasskey (js "ada") laptop (js "laptop") iv 10 iv iv w) as [w' d]. destruct Ht as (_ & Ht).
  destruct (Ht [] (anywhere (w_relay w')) iv 20 VUndef) as (Hok & _ & Hr);
    [apply Forall_nil_2|reflexivity|reflexivity|exact iv_bytes|].
  split; [exact Hok|]. cbn [fst]. change (b64url_enc (k_id laptop_key)) with (b64url_enc touch_id) in Hr.
  destruct (revokeDevice (js "ada") (b64url_enc touch_id) (anywhere (w_relay w'))) as [v g]. exact (proj1 Hr).
Defined.

(** The table of wraps is asked before the vaults and checks only its own rows:
    [bo] enrols a key of his own under the id of the passkey that seals the
    account of [ada], which the relay tells to anybody who asks for a challenge,
    and [ada] can no longer sign in with no handle. *)
Lemma a_foreign_wrap_shadows_a_vault :
  let r := w_relay (secureWithPasskey (js "ada") laptop iv 10 iv iv (at_home ada no_relay)).1 in
  let taken := after r (AddWrap (js "bo") (b64url_enc touch_id) (js "Ym8") (b64_enc []) (b64_enc []) None 11) in
  (unlockWithDiscoverablePasskey laptop VUndef iv 20 (anywhere r)).2 = Done ada /\
  (on_wrap_add (js "bo") (b64url_enc touch_id) (js "Ym8") (b64_enc []) (b64_enc []) None 11 r).2 = inr tt /\
  (unlockWithDiscoverablePasskey laptop VUndef iv 20 (anywhere taken)).2 = error (js "assertion refused").
Proof. by vm_compute. Qed.

(** A ceremony is kept by the handle it is for, and anybody may begin one: a
    challenge asked for between the steps of [ada]'s sign-in takes its place,
    and the one her key answered is gone. *)
Lemma a_second_challenge_ends_the_first :
  let r := w_relay (secureWithPasskey (js "ada") laptop iv 10 iv iv (at_home ada no_relay)).1 in
  let asked := after r (AuthStart (js "ada") [1]%N 20) in
  let again := after asked (AuthStart (js "ada") [2]%N 21) in
  obj_get (auth_states asked) (js "ada") = Some ([1]%N, b64url_enc touch_id, 20) /\
  obj_get (auth_states again) (js "ada") = Some ([2]%N, b64url_enc touch_id, 21).
Proof. by vm_compute. Qed.
End AccountRuns.
