(* ===== verification/Files.v ===== *)
(** * Attachments and the hand-over to a new device
      (client/src/lib/controller.js: [sendFile], [fetchFile], [linkPoll],
      [sendIdentityToDevice]; relay/src/blobs.rs and the two blob routes of
      relay/src/lib.rs)

    The relay keeps opaque bytes under random ids.  Reading needs the id;
    writing needs a ticket that a session was given for that id.  Random bytes
    and clocks are arguments. *)

From stdpp Require Import base list numbers option strings.
From Stdlib Require Import ZArith NArith Lia.
From S2P Require Import Prelude JsNum JsString JsValue Json Bytes Games Envelope Log History Link Logs.
Import Logs.Logs Link.Link.
Open Scope Z_scope.

Module Files.

(** ** The relay *)

Definition TICKET_TTL : Z := 300.
Definition MAX_OUTSTANDING_TICKETS : Z := 10000.
Definition MAX_BLOB_BYTES : Z := 25 * 1024 * 1024.

(** Tickets that are out, with the id and since when, and the files. *)
Record blobs := { issued : list (jstr * (jstr * Z)); files : list (jstr * bytes) }.

(** The token is 24 random bytes; past the ceiling it is handed out and not
    kept. *)
Definition mint (id : jstr) (random : bytes) (now : Z) (s : blobs) : blobs * jstr :=
  let token := b64url_enc random in
  let kept := filter (fun t => now - t.2.2 < TICKET_TTL) (issued s) in
  ({| issued := if Z.of_nat (length kept) <? MAX_OUTSTANDING_TICKETS then map_set kept token (id, now) else kept; files := files s |}, token).

Definition redeem (token id : jstr) (now : Z) (s : blobs) : blobs * bool :=
  match obj_get (issued s) token with
  | Some (want, at_) =>
      if str_eqb want id && (now - at_ <? TICKET_TTL) then ({| issued := obj_delete (issued s) token; files := files s |}, true) else (s, false)
  | None => (s, false)
  end.

Definition valid_id (id : jstr) : bool := negb (is_empty id) && (length id <=? 64)%nat && forallb (fun c => key_char c) id.

(** [BlobStore::put]. *)
Definition put (id : jstr) (data : bytes) (s : blobs) : blobs * bool :=
  if negb (valid_id id) then (s, false) else
  if MAX_BLOB_BYTES <? Z.of_nat (length data) then (s, false) else
  match obj_get (files s) id with
  | Some _ => (s, false)
  | None => ({| issued := issued s; files := map_set (files s) id data |}, true)
  end.

(** The routes: a status, and the bytes of a file. *)
Definition put_blob (id : jstr) (ticket : option jstr) (data : bytes) (now : Z) (s : blobs) : blobs * Z :=
  let '(s, ok) := redeem (default [] ticket) id now s in
  if negb ok then (s, 403) else
  let '(s, ok) := put id data s in (s, if ok then 201 else 400).

Definition get_blob (id : jstr) (s : blobs) : Z * bytes :=
  if negb (valid_id id) then (500, []) else
  match obj_get (files s) id with Some data => (200, data) | None => (404, []) end.

(** [res.ok]. *)
Definition ok_status (status : Z) : bool := (200 <=? status) && (status <=? 299).

(** ** The device *)

(** A file the user picked. *)
Record file_handle := { fh_name : jstr; fh_type : jstr; fh_data : bytes }.

Definition MAX_FILE : Z := 20 * 1024 * 1024.

Section files.
Context `{Web, Keys}.

(** What the message carries of it. *)
Definition file_ref (h : file_handle) (blobId : jstr) (key : bytes) : val :=
  jobj [("name", VStr (fh_name h)); ("size", VNum (int (Z.of_nat (length (fh_data h)))));
        ("mime", VStr (if is_empty (fh_type h) then js "application/octet-stream" else fh_type h));
        ("blob", VStr blobId); ("key", VStr (b64_enc key))]%string.

(** [ticketed], [heard]: whether the request for a ticket and the upload reach
    the relay and are answered; [token], [mint_at], [put_at]: the relay's, which
    reads the whole body before it looks at the ticket; [between]: what others do
    there meanwhile. *)
Definition upload (h : file_handle) (key iv blob_random token : bytes) (mint_at put_at : Z) (between : blobs -> blobs) (ticketed heard : bool)
    (s : blobs) : blobs * res val :=
  if MAX_FILE <? Z.of_nat (length (fh_data h)) then (s, Throw OtherError) else
  let encrypted := encryptBlob key iv (fh_data h) in
  let blobId := b64url_enc blob_random in
  if negb ticketed then (s, Throw OtherError) else
  let '(s, ticket) := mint blobId token mint_at s in
  let s := between s in
  if negb heard then (s, Throw OtherError) else
  let '(s, status) := put_blob blobId (Some ticket) encrypted put_at s in
  (s, if ok_status status then Ok (file_ref h blobId key) else Throw OtherError).

(** [sendFile]: the upload, the entry of the log, and what is sent. *)
Definition sendFile (me : jstr) (r : circle) (b : list (jstr * slot)) (channel : jstr) (h : file_handle) (now : num)
    (key iv blob_random token : bytes) (mint_at put_at : Z) (between : blobs -> blobs) (ticketed heard : bool) (hid hkey : jstr) (log_iv : bytes) (reply : option num) (s : blobs)
  : blobs * res (written * val) :=
  let '(s, up) := upload h key iv blob_random token mint_at put_at between ticketed heard s in
  (s, let* file := up in
      let* w := appendLog me r b channel [(js "k", VStr (js "file")); (js "ts", VNum now); (js "file", file)] hid hkey log_iv reply in
      Ok (w, jobj [("k", VStr (js "file")); ("ch", VStr channel); ("file", file); ("ts", VNum now)]%string)).

(** The id of a reference becomes part of the path; one that is no id at all is
    refused by the relay. *)
Definition fetchFile (file : val) (s : blobs) : res bytes :=
  let* id := to_string file.["blob"] in
  let '(status, data) := get_blob id s in
  if negb (ok_status status) then Throw OtherError else
  let* key := b64_dec file.["key"] in
  decryptBlob key data.

(** New device: [Ok None] until it has been sent. *)
Definition linkPoll (blobId : jstr) (s : blobs) : res (option bytes) :=
  let '(status, data) := get_blob blobId s in
  if status =? 404 then Ok None else if negb (ok_status status) then Throw OtherError else Ok (Some data).

(** Signed-in device.  The request has no header. *)
Definition sendIdentityToDevice (blobId : jstr) (pubRaw : bytes) (identity : option bytes) (eph : private_key) (iv : bytes) (relay_now : Z) (s : blobs)
  : blobs * res jstr :=
  match identity with
  | None => (s, Throw OtherError)
  | Some identity =>
      match sealIdentity pubRaw identity eph iv with
      | Throw e => (s, Throw e)
      | Ok (payload, code) =>
          let '(s, status) := put_blob blobId None payload relay_now s in
          (s, if ok_status status then Ok code else Throw OtherError)
      end
  end.
End files.
End Files.

(** ** Facts *)

Module FileFacts.
Import Files.

(** What happens on the relay: tickets are minted, uploads are tried. *)
Inductive op := Mint (id : jstr) (random : bytes) (now : Z) | Put (id : jstr) (ticket : option jstr) (data : bytes) (now : Z).

Definition after (s : blobs) (o : op) : blobs :=
  match o with Mint i r n => (mint i r n s).1 | Put i t d n => (put_blob i t d n s).1 end.

(** Tokens are 24 random bytes. *)
Definition fair (o : op) : Prop := match o with Mint _ r _ => length r = 24%nat /\ Forall byte r | _ => True end.

Lemma redeem_files token id now s : files (redeem token id now s).1 = files s.
Proof. unfold redeem. by repeat case_match. Qed.

Lemma put_spec id data s :
  put id data s = (s, false) \/
  (obj_get (files s) id = None /\ put id data s = ({| issued := issued s; files := map_set (files s) id data |}, true)).
Proof.
  unfold put. destruct (negb _); [by left|]. destruct (_ <? _); [by left|]. destruct (obj_get _ _) eqn:E; [by left|by right].
Qed.

(** A file under an id is there for good. *)
Lemma file_stays s o id data : obj_get (files s) id = Some data -> obj_get (files (after s o)) id = Some data.
Proof.
  intros Hf. destruct o as [i r n|i t d n]; cbn [after]; [exact Hf|]. unfold put_blob.
  pose proof (redeem_files (default [] t) i n s) as Er. destruct (redeem (default [] t) i n s) as [s1 ok]. cbn [fst] in Er.
  destruct ok; cbn [negb fst]; [|by rewrite Er]. destruct (put_spec i d s1) as [-> | [En ->]]; cbn [fst files]; [by rewrite Er|].
  rewrite obj_get_map_set, Er. destruct (str_eqb i id) eqn:E; [|done]. apply str_eqb_eq in E. congruence.
Qed.

Lemma file_lasts ops s id data : obj_get (files s) id = Some data -> obj_get (files (fold_left after ops s)) id = Some data.
Proof. revert s. induction ops as [|o ops IH]; intros s Hf; cbn; [done|]. by apply IH, file_stays. Qed.

(** No ticket is the empty text. *)
Definition sound (s : blobs) : Prop := obj_get (issued s) [] = None.

Lemma obj_get_filter_none {A} (P : jstr * A -> Prop) `{!forall x, Decision (P x)} (l : list (jstr * A)) k :
  obj_get l k = None -> obj_get (filter P l) k = None.
Proof.
  rewrite !obj_get_None. intros Hn Hk. apply Hn. unfold obj_keys in *.
  apply list_elem_of_fmap in Hk as (x & -> & [_ Hx]%list_elem_of_filter). by apply list_elem_of_fmap_2.
Qed.

Lemma obj_get_filter_some {A} (P : jstr * A -> Prop) `{!forall x, Decision (P x)} (l : list (jstr * A)) k v :
  obj_get l k = Some v -> P (k, v) -> obj_get (filter P l) k = Some v.
Proof.
  induction l as [|[k' v'] l IH]; [done|]. cbn [obj_get]. rewrite filter_cons. destruct (str_eqb k' k) eqn:E.
  - apply str_eqb_eq in E as ->. intros [= ->] HP. rewrite decide_True by done. cbn [obj_get]. by rewrite str_eqb_refl.
  - intros Hg HP. case_decide; [|by apply IH]. cbn [obj_get]. rewrite E. by apply IH.
Qed.

Lemma token_nonempty r : length r = 24%nat -> Forall byte r -> b64url_enc r <> [].
Proof. intros Hl Hr E. pose proof (b64url_back r Hr) as Eb. rewrite E in Eb. cbn in Eb. injection Eb as <-. discriminate Hl. Qed.

Lemma sound_stays s o : fair o -> sound s -> sound (after s o).
Proof.
  intros Hf Hs. unfold sound in *. destruct o as [i r n|i t d n]; cbn [after].
  - destruct Hf as [Hl Hr]. unfold mint. cbn [fst issued]. case_match; [|by apply obj_get_filter_none].
    rewrite obj_get_map_set. destruct (str_eqb (b64url_enc r) []) eqn:E; [|by apply obj_get_filter_none].
    apply str_eqb_eq in E. by apply token_nonempty in E.
  - unfold put_blob. assert (obj_get (issued (redeem (default [] t) i n s).1) [] = None) as Hd.
    { unfold redeem. repeat case_match; cbn [fst issued]; try done. rewrite obj_get_delete. by case_match. }
    destruct (redeem (default [] t) i n s) as [s1 ok]. cbn [fst] in Hd. destruct ok; cbn [negb]; [|done].
    by destruct (put_spec i d s1) as [-> | [_ ->]].
Qed.

Definition no_blobs : blobs := {| issued := []; files := [] |}.

Lemma sound_always ops : Forall fair ops -> sound (fold_left after ops no_blobs).
Proof.
  intros Hf. assert (forall s, sound s -> sound (fold_left after ops s)) as Hall; [|by apply Hall].
  induction Hf as [|o ops Ho _ IH]; intros s Hs; cbn; [done|]. by apply IH, sound_stays.
Qed.

Section facts.
Context `{HW : Web, HWL : !WebLaws, HK : !Keys}.

(** A random id of 18 bytes is one the relay accepts. *)
Lemma blob_id_valid random : length random = 18%nat -> Forall byte random -> valid_id (b64url_enc random) = true.
Proof.
  intros Hl Hr. unfold valid_id. rewrite !andb_true_iff. split; [split|].
  - rewrite negb_true_iff, is_empty_false. intros E. pose proof (b64url_back random Hr) as Eb. rewrite E in Eb.
    cbn in Eb. injection Eb as <-. discriminate Hl.
  - apply Nat.leb_le. rewrite b64url_enc_groups by done. rewrite length_fmap. unfold compose.
    do 18 (destruct random as [|? random]; [discriminate Hl|]). destruct random; [|discriminate Hl]. cbn. lia.
  - apply Is_true_true_1, forallb_True. eapply Forall_impl; [by apply b64url_chars|]. intros c Hc. cbn in *. by apply Is_true_true_2.
Qed.

(** What others do on the relay while a ticket is out: they neither know it nor
    draw it, leave its file alone, and do it before it expires. *)
Definition apart (token : bytes) (id : jstr) (mint_at : Z) (o : op) : Prop :=
  match o with
  | Mint _ r n => b64url_enc r <> b64url_enc token /\ n - mint_at < TICKET_TTL
  | Put i t _ _ => default [] t <> b64url_enc token /\ i <> id
  end.

Lemma ticket_waits token id mint_at ops : forall s,
  Forall (apart token id mint_at) ops -> obj_get (issued s) (b64url_enc token) = Some (id, mint_at) -> obj_get (files s) id = None ->
  obj_get (issued (fold_left after ops s)) (b64url_enc token) = Some (id, mint_at) /\ obj_get (files (fold_left after ops s)) id = None.
Proof.
  induction ops as [|o ops IH]; intros s Ha Et Ef; [done|]. apply Forall_cons in Ha as [Ho Ha]. cbn [fold_left]. apply IH; [done| |].
  - destruct o as [i r n|i t d n]; cbn [after]; destruct Ho as [H1 H2].
    + unfold mint. cbn [fst issued]. assert (obj_get (filter (fun t : jstr * (jstr * Z) => n - t.2.2 < TICKET_TTL) (issued s)) (b64url_enc token) = Some (id, mint_at)) as Ek
        by (by apply obj_get_filter_some).
      case_match; [|done]. rewrite obj_get_map_set. by rewrite (proj2 (str_eqb_neq _ _) H1).
    + unfold put_blob. assert (obj_get (issued (redeem (default [] t) i n s).1) (b64url_enc token) = Some (id, mint_at)) as Hr.
      { unfold redeem. repeat case_match; cbn [fst issued]; try done. rewrite obj_get_delete. by rewrite (proj2 (str_eqb_neq _ _) H1). }
      destruct (redeem (default [] t) i n s) as [s1 ok]. cbn [fst] in Hr. destruct ok; cbn [negb]; [|done].
      by destruct (put_spec i d s1) as [-> | [_ ->]].
  - destruct o as [i r n|i t d n]; cbn [after]; destruct Ho as [H1 H2]; [done|]. unfold put_blob.
    pose proof (redeem_files (default [] t) i n s) as Er. destruct (redeem (default [] t) i n s) as [s1 ok]. cbn [fst] in Er.
    destruct ok; cbn [negb fst]; [|by rewrite Er]. destruct (put_spec i d s1) as [-> | [_ ->]]; cbn [fst files]; [by rewrite Er|].
    rewrite obj_get_map_set, Er. by rewrite (proj2 (str_eqb_neq _ _) H2).
Qed.

(** The tickets that are out and not expired. *)
Definition outstanding (now : Z) (s : blobs) : Z := Z.of_nat (length (filter (fun t => now - t.2.2 < TICKET_TTL) (issued s))).

(** With room among the tickets and no file under the id, it goes up, and its
    ticket is spent. *)
Lemma upload_done h key iv blob_random token mint_at put_at ops s :
  Z.of_nat (length (fh_data h)) <= MAX_FILE -> Z.of_nat (length (encryptBlob key iv (fh_data h))) <= MAX_BLOB_BYTES ->
  length blob_random = 18%nat -> Forall byte blob_random ->
  outstanding mint_at s < MAX_OUTSTANDING_TICKETS -> obj_get (files s) (b64url_enc blob_random) = None ->
  Forall (apart token (b64url_enc blob_random) mint_at) ops -> put_at - mint_at < TICKET_TTL ->
  exists s', upload h key iv blob_random token mint_at put_at (fun s => fold_left after ops s) true true s
      = (s', Ok (file_ref h (b64url_enc blob_random) key)) /\
    obj_get (issued s') (b64url_enc token) = None /\
    obj_get (files s') (b64url_enc blob_random) = Some (encryptBlob key iv (fh_data h)).
Proof.
  intros Hh He Hl Hr Ht Hf Ha Hp. unfold upload. assert (MAX_FILE <? Z.of_nat (length (fh_data h)) = false) as -> by (by apply Z.ltb_ge).
  cbn [negb]. unfold mint. unfold outstanding in Ht. apply Z.ltb_lt in Ht. rewrite Ht.
  set (s1 := {| issued := map_set _ _ _; files := files s |}).
  destruct (ticket_waits token (b64url_enc blob_random) mint_at ops s1 Ha) as [Et Ef]; [|done|].
  { cbn [s1 issued]. by rewrite obj_get_map_set, str_eqb_refl. }
  set (s2 := fold_left after ops s1) in *. clearbody s2. unfold put_blob, redeem. cbn [default]. unfold Datatypes.id. rewrite Et.
  assert (str_eqb (b64url_enc blob_random) (b64url_enc blob_random) && (put_at - mint_at <? TICKET_TTL) = true) as ->.
  { rewrite str_eqb_refl. by apply Z.ltb_lt. }
  cbn [negb]. unfold put. rewrite blob_id_valid by done. cbn [negb].
  assert (MAX_BLOB_BYTES <? Z.of_nat (length (encryptBlob key iv (fh_data h))) = false) as -> by (by apply Z.ltb_ge).
  cbn [files]. rewrite Ef. eexists. split; [reflexivity|]. cbn [issued files]. by rewrite obj_get_delete, obj_get_map_set, !str_eqb_refl.
Qed.

(** C31: What one member sends another fetches: a file of at most 20 MB goes up when
    the relay answers and has read it within the 300 seconds the ticket lasts,
    with fewer than 10,000 tickets out when it is asked for one and whatever
    others do there meanwhile.  Whoever is given the reference that the message
    and the entry of the log carry reads the same bytes, whatever is uploaded or
    tried after, as long as the relay does not sweep old files; the ticket it
    took opens nothing again. *)
Theorem what_one_sends_another_fetches me r b channel h now key iv blob_random token mint_at put_at meanwhile hid hkey log_iv reply s :
  Forall byte key -> length iv = 12%nat ->
  Z.of_nat (length (fh_data h)) <= MAX_FILE -> Z.of_nat (length (encryptBlob key iv (fh_data h))) <= MAX_BLOB_BYTES ->
  length blob_random = 18%nat -> Forall byte blob_random ->
  outstanding mint_at s < MAX_OUTSTANDING_TICKETS -> obj_get (files s) (b64url_enc blob_random) = None ->
  Forall (apart token (b64url_enc blob_random) mint_at) meanwhile -> put_at - mint_at < TICKET_TTL ->
  let '(s', sent) := sendFile me r b channel h now key iv blob_random token mint_at put_at (fun s => fold_left after meanwhile s)
                       true true hid hkey log_iv reply s in
  let file := file_ref h (b64url_enc blob_random) key in
  sent = (let* w := appendLog me r b channel [(js "k", VStr (js "file")); (js "ts", VNum now); (js "file", file)] hid hkey log_iv reply in
          Ok (w, jobj [("k", VStr (js "file")); ("ch", VStr channel); ("file", file); ("ts", VNum now)]%string)) /\
  (forall ops given, given.["blob"] = file.["blob"] -> given.["key"] = file.["key"] ->
     fetchFile given (fold_left after ops s') = Ok (fh_data h)) /\
  (forall other data t, put_blob other (Some (b64url_enc token)) data t s' = (s', 403)).
Proof.
  intros Hk Hi Hh He Hl Hr Ht Hf Ha Hp. unfold sendFile.
  destruct (upload_done h key iv blob_random token mint_at put_at meanwhile s Hh He Hl Hr Ht Hf Ha Hp) as (s' & E & Hgone & Hfile).
  rewrite E. cbn [rbind]. split; [done|]. split.
  - intros ops given Eb Ek. unfold fetchFile. rewrite Eb, Ek. change ((file_ref _ _ _).["blob"]) with (VStr (b64url_enc blob_random)).
    change ((file_ref _ _ _).["key"]) with (VStr (b64_enc key)). cbn [rbind to_string]. unfold get_blob. rewrite blob_id_valid by done. cbn [negb].
    rewrite (file_lasts ops s' _ _ Hfile). cbn [negb ok_status]. change (negb (ok_status 200)) with false. cbn iota.
    rewrite b64_dec_enc by done. cbn [rbind]. by apply decrypt_encrypt.
  - intros other data t. unfold put_blob, redeem. cbn [default]. unfold Datatypes.id. by rewrite Hgone.
Qed.

(** An upload that takes longer than the ticket lasts is refused once the whole
    body was sent, however small the file. *)
Theorem a_slow_upload_is_refused h key iv blob_random token mint_at put_at s :
  Z.of_nat (length (fh_data h)) <= MAX_FILE -> outstanding mint_at s < MAX_OUTSTANDING_TICKETS -> TICKET_TTL <= put_at - mint_at ->
  (upload h key iv blob_random token mint_at put_at (fun s => s) true true s).2 = Throw OtherError.
Proof.
  intros Hh Ht Hp. unfold upload. assert (MAX_FILE <? Z.of_nat (length (fh_data h)) = false) as -> by (by apply Z.ltb_ge).
  cbn [negb]. unfold mint. unfold outstanding in Ht. apply Z.ltb_lt in Ht. rewrite Ht.
  unfold put_blob, redeem. cbn [default issued]. unfold Datatypes.id. rewrite obj_get_map_set, str_eqb_refl.
  assert (put_at - mint_at <? TICKET_TTL = false) as -> by (by apply Z.ltb_ge). by rewrite andb_false_r.
Qed.

(** The hand-over to a new device never arrives: the device that sends it asks
    for no ticket, the relay takes no upload without one, and the new device is
    told to go on waiting. *)
Theorem a_linked_device_waits_forever blobId pubRaw identity eph iv ops t :
  Forall fair ops -> let s := fold_left after ops no_blobs in
  let '(s', sent) := sendIdentityToDevice blobId pubRaw identity eph iv t s in
  s' = s /\ (forall code, sent <> Ok code) /\
  (valid_id blobId = true -> obj_get (files s) blobId = None -> linkPoll blobId s' = Ok None).
Proof.
  intros Hf s. pose proof (sound_always ops Hf) as Hs.
  assert (valid_id blobId = true -> obj_get (files s) blobId = None -> linkPoll blobId s = Ok None) as Hp.
  { intros Hv Hn. unfold linkPoll, get_blob. by rewrite Hv, Hn. }
  unfold sendIdentityToDevice. destruct identity as [identity|]; [|by split].
  destruct (sealIdentity pubRaw identity eph iv) as [[payload code]|e]; [|by split].
  unfold put_blob, redeem. cbn [default]. unfold sound in Hs. fold s in Hs. rewrite Hs. by split.
Qed.
End facts.
End FileFacts.

(** ** Runs *)

Module FileRuns.
Import Link.ToyKeys Files FileFacts.

Definition photo : file_handle := {| fh_name := js "hill.jpg"; fh_type := []; fh_data := [1; 2; 3]%N |}.
Definition blob_id : bytes := replicate 18 7%N.
Definition token : bytes := replicate 24 1%N.

Definition club : circle := {|
  c_id := js "g"; c_name := VStr (js "home"); c_channels := [VStr (js "general")]; c_voiceChannels := None; c_deletedChannels := None;
  c_deletedVoice := None; c_chanMeta := None; c_overview := None; c_notices := None; c_offers := None; c_proposals := None; c_threshold := None;
  c_rsvps := None; c_members := None; c_pendingMetaSync := false |}.

(** Somebody else asks for a ticket and fails to use it while the file goes up. *)
Definition meanwhile : list op := [Mint (js "z") (replicate 24 2%N) 15; Put (js "z") None [] 20].

Definition sent : blobs * res (written * val) :=
  sendFile (js "ada") club [] (js "general") photo (int 5000) key iv blob_id token 10 40 (fun s => fold_left after meanwhile s) true true (js "h") (js "k") iv (Some (int 1)) no_blobs.

Lemma what_one_sends_another_fetches_witness :
  fetchFile (file_ref photo (b64url_enc blob_id) key) (after sent.1 (Put (js "x") None [] 20)) = Ok [1; 2; 3]%N /\
  put_blob (js "other") (Some (b64url_enc token)) [] 20 sent.1 = (sent.1, 403).
Proof.
  pose proof (what_one_sends_another_fetches (js "ada") club [] (js "general") photo (int 5000) key iv blob_id token 10 40 meanwhile (js "h") (js "k") iv (Some (int 1)) no_blobs
    ltac:(repeat constructor) eq_refl ltac:(discriminate) ltac:(discriminate) eq_refl ltac:(by apply Forall_replicate) eq_refl eq_refl
    ltac:(repeat apply Forall_cons_2; try apply Forall_nil_2; (split; [apply str_eqb_neq; vm_compute; reflexivity|first [reflexivity|apply str_eqb_neq; vm_compute; reflexivity]])) eq_refl) as Ht.
  unfold sent. destruct (sendFile _ _ _ _ _ _ _ _ _ _ _ _ _ _ _ _ _ _ _ _) as [s' o]. destruct Ht as (_ & Hfetch & Hspent). split.
  - exact (Hfetch [Put (js "x") None [] 20] _ eq_refl eq_refl).
  - exact (Hspent _ _ _).
Defined.

Lemma a_slow_upload_is_refused_witness :
  (upload photo key iv blob_id token 10 310 (fun s => s) true true no_blobs).2 = Throw OtherError.
Proof. apply (a_slow_upload_is_refused photo key iv blob_id token 10 310 no_blobs); vm_compute; discriminate || reflexivity. Defined.

(** Even after the sender's session was given a ticket for the id. *)
Definition rendezvous : blobs := after no_blobs (Mint (js "abc") token 5).

Lemma a_linked_device_waits_forever_witness :
  (sendIdentityToDevice (js "abc") (public_raw (7%N : private_key)) (Some [1; 2]%N) (9%N : private_key) iv 10 rendezvous).1 = rendezvous /\
  linkPoll (js "abc") rendezvous = Ok None.
Proof.
  pose proof (a_linked_device_waits_forever (js "abc") (public_raw (7%N : private_key)) (Some [1; 2]%N) (9%N : private_key) iv [Mint (js "abc") token 5] 10
    ltac:(apply Forall_singleton; by split; [|apply Forall_replicate])) as Ht. cbv zeta in Ht.
  change (fold_left after [Mint (js "abc") token 5] no_blobs) with rendezvous in Ht.
  destruct (sendIdentityToDevice _ _ _ _ _ _ _) as [s' o]. destruct Ht as (-> & _ & Hp). split; [done|]. by apply Hp.
Defined.
End FileRuns.
