(* ===== verification/Session.v ===== *)
(** * Boot, sign-in and sign-out (client/src/lib/controller.js: the boot paths,
      [onAuthRejected], account vaults; client/public/worker.js: [boot])

    Who this device is lives in two places with different fates: the database
    of the browser (the session, the ratchets) and a text in local storage (the
    identity).  An operation is the list of its writes in order, so that a page
    that closes early leaves a prefix of them.  The client of the crypto core
    is a class. *)

From stdpp Require Import base list numbers option strings relations.
From Stdlib Require Import ZArith NArith Lia.
From S2P Require Import Prelude JsNum JsString JsValue Bytes History Accounts.
Import Accounts.Accounts.
Open Scope Z_scope.

Module Session.

(** ** The crypto core *)

Class Core := {
  client : Type;
  cl_name : client -> jstr;
  cl_groups : client -> list jstr;
  exportIdentity : client -> bytes;
  exportState : client -> bytes;
  fromState : bytes -> option client;
  fromIdentity : bytes -> option client;
}.

(** ** What is on the device *)

(** [kv_session]: the name of a session that is not [null]. *)
Record disk := {
  kv_session : option jstr;
  kv_mlsState : option bytes;
  kv_securedLocal : option bool;
  kv_deviceState : option val;
  ls_identity : option jstr;
}.

Inductive write :=
| PutSession (name : option jstr)
| PutState (state : bytes)
| PutSecured (secured : bool)
| PutDevice (v : val)
| PutIdentity (text : option jstr)
| DeleteDatabase.

Definition do_write (d : disk) (w : write) : disk :=
  match w with
  | PutSession n => {| kv_session := n; kv_mlsState := kv_mlsState d; kv_securedLocal := kv_securedLocal d; kv_deviceState := kv_deviceState d; ls_identity := ls_identity d |}
  | PutState s => {| kv_session := kv_session d; kv_mlsState := Some s; kv_securedLocal := kv_securedLocal d; kv_deviceState := kv_deviceState d; ls_identity := ls_identity d |}
  | PutSecured b => {| kv_session := kv_session d; kv_mlsState := kv_mlsState d; kv_securedLocal := Some b; kv_deviceState := kv_deviceState d; ls_identity := ls_identity d |}
  | PutDevice v => {| kv_session := kv_session d; kv_mlsState := kv_mlsState d; kv_securedLocal := kv_securedLocal d; kv_deviceState := Some v; ls_identity := ls_identity d |}
  | PutIdentity t => {| kv_session := kv_session d; kv_mlsState := kv_mlsState d; kv_securedLocal := kv_securedLocal d; kv_deviceState := kv_deviceState d; ls_identity := t |}
  | DeleteDatabase => {| kv_session := None; kv_mlsState := None; kv_securedLocal := None; kv_deviceState := None; ls_identity := ls_identity d |}
  end.

Definition writes (ws : list write) (d : disk) : disk := fold_left do_write ws d.

(** What the screen is told. *)
Inductive shown := SBooted (me : jstr) | SCirclesLoading | SOnboarding | SToast (text : jstr).

Section session.
Context `{Core}.

(** The page of somebody who is signed in: [me], [mlsGroups], the worker's
    client, [deviceState]. *)
Record page := { pg_me : jstr; pg_mlsGroups : list jstr; pg_client : client; pg_deviceState : val }.

(** What the worker does with [boot]. *)
Inductive boot_args := BootName (fresh : client) | BootState (state : bytes) | BootIdentity (identity : bytes).

Definition worker_boot (a : boot_args) : option client :=
  match a with BootState s => fromState s | BootIdentity i => fromIdentity i | BootName c => Some c end.

Definition persistState (state : bytes) : list write := [PutState state].

(** [(await kvGet('deviceState')) ?? {}]. *)
Definition loadDeviceState (d : disk) : val := default (VObj []) (kv_deviceState d).

(** [fresh]: the client the core makes for the name. *)
Definition createIdentity (fresh : client) : list write * bytes :=
  let identity := exportIdentity fresh in
  (persistState (exportState fresh) ++ [PutIdentity (Some (b64_enc identity))], identity).

Definition restoreIdentity (identity : bytes) : option (list write * client) :=
  match worker_boot (BootIdentity identity) with
  | Some c => Some (persistState (exportState c) ++ [PutIdentity (Some (b64_enc identity))], c)
  | None => None
  end.

Definition completeOnboarding (me : jstr) (securedLocal : bool) : list write := [PutSession (Some me); PutSecured securedLocal].

Definition onboarding_shows (me : jstr) : list shown := [SBooted me; SCirclesLoading].

Definition signed_in (c : client) (d : disk) : page :=
  {| pg_me := cl_name c; pg_mlsGroups := cl_groups c; pg_client := c; pg_deviceState := loadDeviceState d |}.

Definition cleared_text : jstr :=
  js "storage was cleared: your identity and your circles survived, but this device cannot send until someone re-adds you".

(** Its writes, who is signed in ([None]: nobody), what is shown; [Throw]: the
    stored bytes do not open. *)
Definition boot (d : disk) : list write * res (option page * list shown) :=
  match kv_session d, kv_mlsState d with
  | Some _, Some state =>
      match worker_boot (BootState state) with
      | Some c => (persistState (exportState c), Ok (Some (signed_in c d), [SBooted (cl_name c); SCirclesLoading]))
      | None => ([], Throw OtherError)
      end
  | _, _ =>
      match ls_identity d with
      | Some text =>
          if is_empty text then ([], Ok (None, [SOnboarding])) else
          match b64_dec (VStr text) with
          | Throw e => ([], Throw e)
          | Ok identity =>
              match restoreIdentity identity with
              | Some (ws, c) =>
                  (ws ++ completeOnboarding (cl_name c) true,
                   Ok (Some (signed_in c d), onboarding_shows (cl_name c) ++ [SToast cleared_text]))
              | None => ([], Throw OtherError)
              end
          end
      | None => ([], Ok (None, [SOnboarding]))
      end
  end.

(** [identityKeyString], and the bytes of it. *)
Definition identityKeyString (d : disk) : option jstr := ls_identity d.
Definition identityBytes (d : disk) : res bytes :=
  match identityKeyString d with
  | Some text => if is_empty text then Throw OtherError else b64_dec (VStr text)
  | None => Throw OtherError
  end.

(** The three sign-ins end here. *)
Definition adoptIdentity (identity : bytes) : option (list write * client) :=
  match restoreIdentity identity with
  | Some (ws, c) => Some (ws ++ completeOnboarding (cl_name c) true, c)
  | None => None
  end.

(** [deleted]: whether the database was gone when the page gave up waiting. *)
Definition logout (deleted : bool) : list write := PutIdentity None :: if deleted then [DeleteDatabase] else [].

Definition onAuthRejected (message : jstr) : list write * list shown :=
  (if str_includes (js "invite-only") message then [PutIdentity None; PutSession None] else [], [SOnboarding]).
End session.
End Session.

(** ** Facts *)

Module SessionFacts.
Import Session.

(** What the core documents: what it exports it reads back, and an identity is
    one person. *)
Class CoreLaws `{Core} := {
  state_back : forall c, fromState (exportState c) = Some c;
  identity_back : forall c, exists c', fromIdentity (exportIdentity c) = Some c' /\
    exportIdentity c' = exportIdentity c /\ cl_groups c' = [];
  one_name : forall c c', exportIdentity c = exportIdentity c' -> cl_name c = cl_name c';
  identity_bytes : forall c, Forall byte (exportIdentity c) /\ exportIdentity c <> [];
}.

Section facts.
Context `{HC : Core, HCL : !CoreLaws}.

Definition is_page (c : client) (p : page) : Prop := pg_me p = cl_name c /\ exportIdentity (pg_client p) = exportIdentity c.

(** Both places hold [c], or nobody yet. *)
Definition holds (c : client) (d : disk) : Prop :=
  ls_identity d = Some (b64_enc (exportIdentity c)) /\
  forall s, kv_mlsState d = Some s -> exists c', s = exportState c' /\ exportIdentity c' = exportIdentity c.

Lemma identity_text c : is_empty (b64_enc (exportIdentity c)) = false /\ b64_dec (VStr (b64_enc (exportIdentity c))) = Ok (exportIdentity c).
Proof.
  destruct (identity_bytes c) as [Hb Hn]. split; [|by apply b64_dec_enc]. apply is_empty_false. intros E.
  pose proof (b64_enc_nonempty (exportIdentity c) Hn) as Ht. by rewrite E in Ht.
Qed.

(** Its ratchets, when the database still has them. *)
Definition ratchets (d : disk) (p : page) : Prop :=
  match kv_session d, kv_mlsState d with
  | Some _, Some s => exportState (pg_client p) = s /\ pg_mlsGroups p = cl_groups (pg_client p)
  | _, _ => pg_mlsGroups p = []
  end.

Lemma boot_holds c d : holds c d -> exists ws p shows, boot d = (ws, Ok (Some p, shows)) /\ is_page c p /\ ratchets d p /\
  Forall (fun w => match w with
                   | PutState s => exists c', s = exportState c' /\ exportIdentity c' = exportIdentity c
                   | PutIdentity t => t = Some (b64_enc (exportIdentity c)) | DeleteDatabase => False | _ => True end) ws.
Proof.
  intros [Hl Hs]. unfold boot, ratchets. destruct (identity_text c) as [He Hd].
  assert (forall d', ls_identity d' = Some (b64_enc (exportIdentity c)) -> exists ws p shows,
    match ls_identity d' with
    | Some text =>
        if is_empty text then ([], Ok (None, [SOnboarding])) else
        match b64_dec (VStr text) with
        | Throw e => ([], Throw e)
        | Ok identity =>
            match restoreIdentity identity with
            | Some (ws, c) => (ws ++ completeOnboarding (cl_name c) true, Ok (Some (signed_in c d), onboarding_shows (cl_name c) ++ [SToast cleared_text]))
            | None => ([], Throw OtherError)
            end
        end
    | None => ([], Ok (None, [SOnboarding]))
    end = (ws, Ok (Some p, shows)) /\ is_page c p /\ pg_mlsGroups p = [] /\
    Forall (fun w => match w with
                     | PutState s => exists c', s = exportState c' /\ exportIdentity c' = exportIdentity c
                     | PutIdentity t => t = Some (b64_enc (exportIdentity c)) | DeleteDatabase => False | _ => True end) ws) as Hrestore.
  { intros d' Hl'. rewrite Hl', He, Hd. unfold restoreIdentity, worker_boot. destruct (identity_back c) as (c' & -> & Ei & Eg).
    eexists _, _, _. split; [reflexivity|]. split; [split; [by apply one_name|exact Ei]|]. split; [exact Eg|].
    repeat (apply Forall_cons; split); try done. by exists c'. }
  destruct (kv_session d) as [n|]; [destruct (kv_mlsState d) as [s|] eqn:Es|]; [|apply (Hrestore d Hl)..].
  destruct (Hs s eq_refl) as (c' & -> & Ei). cbn [worker_boot]. rewrite state_back. eexists _, _, _. split; [reflexivity|].
  split; [split; [by apply one_name|exact Ei]|]. split; [by split|]. apply Forall_singleton. by exists c'.
Qed.

Lemma boot_nobody d : kv_session d = None -> ls_identity d = None -> boot d = ([], Ok (None, [SOnboarding])).
Proof. intros Es El. unfold boot. by rewrite Es, El. Qed.

(** *** What happens to a device *)

(** Whatever is cut short is cut to [k] writes. *)
Inductive happens (c : client) : disk -> disk -> Prop :=
| Turned d c' k : exportIdentity c' = exportIdentity c -> happens c d (writes (take k (persistState (exportState c'))) d)
| Onboarded d secured k : happens c d (writes (take k (completeOnboarding (cl_name c) secured)) d)
| Rebooted d k : happens c d (writes (take k (boot d).1) d)
| Noted d v : happens c d (do_write d (PutDevice v))
| Evicted d : happens c d (do_write d DeleteDatabase)
| Refused d message k : str_includes (js "invite-only") message = false -> happens c d (writes (take k (onAuthRejected message).1) d)
| Again d ws c' k : adoptIdentity (exportIdentity c) = Some (ws, c') -> happens c d (writes (take k ws) d).

Definition mine (c : client) (w : write) : Prop :=
  match w with
  | PutState s => exists c', s = exportState c' /\ exportIdentity c' = exportIdentity c
  | PutIdentity t => t = Some (b64_enc (exportIdentity c))
  | _ => True
  end.

Lemma holds_write c d w : mine c w -> holds c d -> holds c (do_write d w).
Proof.
  intros Hw [Hl Hs]. destruct w; cbn in *; (split; [exact Hl || exact Hw|]); cbn; try exact Hs; try done.
  by intros s [= <-].
Qed.

Lemma holds_writes c ws k d : Forall (mine c) ws -> holds c d -> holds c (writes (take k ws) d).
Proof.
  intros Hw. revert k d. induction Hw as [|w ws Hw _ IH]; intros [|k] d Hd; try done. cbn [take writes fold_left]. apply IH. by apply holds_write.
Qed.

Lemma adopt_mine c ws c' : adoptIdentity (exportIdentity c) = Some (ws, c') -> Forall (mine c) ws.
Proof.
  unfold adoptIdentity, restoreIdentity, worker_boot. destruct (identity_back c) as (c1 & -> & Ei & _). intros [= <- <-].
  repeat (apply Forall_cons; split); try done. by exists c1.
Qed.

Lemma holds_happens c d d' : happens c d d' -> holds c d -> holds c d'.
Proof.
  intros Hh Hd. destruct Hh as [d c' k Ei|d secured k|d k|d v|d|d m k Em|d ws c' k Ea].
  - apply holds_writes; [|done]. apply Forall_singleton. by exists c'.
  - apply holds_writes; [|done]. repeat (apply Forall_cons; split); done.
  - destruct (boot_holds c d Hd) as (ws & p & shows & -> & _ & _ & Hw). apply holds_writes; [|done].
    eapply Forall_impl; [exact Hw|]. by intros [].
  - by apply holds_write.
  - by apply holds_write.
  - unfold onAuthRejected. rewrite Em. cbn [fst]. by destruct k.
  - apply holds_writes; [by eapply adopt_mine|done].
Qed.


(** Signing out, when the database goes, leaves nothing to start from. *)
Lemma signing_out_forgets d :
  let d' := writes (logout true) d in
  boot d' = ([], Ok (None, [SOnboarding])) /\ d' = {| kv_session := None; kv_mlsState := None; kv_securedLocal := None; kv_deviceState := None; ls_identity := None |}.
Proof. by split. Qed.

(** When it does not go, the next start signs the same account in again. *)
Lemma a_failed_sign_out_signs_in_again c d name :
  holds c d -> kv_session d = Some name -> kv_mlsState d <> None ->
  exists p shows, (boot (writes (logout false) d)).2 = Ok (Some p, shows) /\ is_page c p.
Proof.
  intros [Hl Hs] En Hm. destruct (kv_mlsState d) as [s|] eqn:Es; [|done]. destruct (Hs s eq_refl) as (c' & -> & Ei).
  cbn. unfold boot. cbn. rewrite En, Es, state_back. eexists _, _. split; [reflexivity|]. split; [by apply one_name|exact Ei].
Qed.

(** A relay that asks for an invitation erases whatever identity it refuses,
    also one that was restored from a file or had long been in use. *)
Lemma a_refusal_erases_any_identity c d ws c' :
  adoptIdentity (exportIdentity c) = Some (ws, c') ->
  let d' := writes (onAuthRejected (js "registration is invite-only")).1 (writes ws d) in
  ls_identity d' = None /\ (boot d').2 = Ok (None, [SOnboarding]).
Proof.
  intros Ha d'. assert (d' = writes [PutIdentity None; PutSession None] (writes ws d)) as -> by reflexivity. by split.
Qed.
End facts.
End SessionFacts.

(** ** Runs *)

Module SessionRuns.
Import Session SessionFacts.

(** A client is a person and how many circles they can send in. *)
#[export] Instance core : Core := {|
  client := N * nat;
  cl_name := fun c => [(97 + c.1 mod 256)%N];
  cl_groups := fun c => replicate c.2 (js "g");
  exportIdentity := fun c => [(c.1 mod 256)%N];
  exportState := fun c => [c.1; N.of_nat c.2];
  fromState := fun s => match s with [a; n] => Some (a, N.to_nat n) | _ => None end;
  fromIdentity := fun i => match i with [a] => Some (a, 0%nat) | _ => None end;
|}.

#[export] Instance core_laws : CoreLaws.
Proof.
  split.
  - intros [a n]. cbn. by rewrite Nat2N.id.
  - intros [a n]. eexists. split; [reflexivity|]. cbn. split; [|done]. by rewrite N.Div0.mod_mod.
  - intros [a n] [b m]. cbn. by intros [= ->].
  - intros [a n]. cbn. split; [|done]. repeat constructor. by apply N.mod_lt.
Qed.

Definition ada : client := (3%N, 0%nat).
Definition busy : client := (3%N, 2%nat).
Definition new_browser : disk := {| kv_session := None; kv_mlsState := None; kv_securedLocal := None; kv_deviceState := None; ls_identity := None |}.

(** She makes an identity, joins two circles, and the browser clears its
    database. *)
Definition cleared : disk :=
  do_write (writes (take 1 (persistState (exportState busy)))
    (writes (take 2 (completeOnboarding (cl_name ada) false)) (writes (createIdentity ada).1 new_browser))) DeleteDatabase.


(** A failed deletion. *)
Lemma a_failed_sign_out_signs_in_again_witness :
  let d := writes (completeOnboarding (cl_name ada) false) (writes (createIdentity ada).1 new_browser) in
  exists p shows, (boot (writes (logout false) d)).2 = Ok (Some p, shows) /\ pg_me p = js "d".
Proof.
  intros d. destruct (a_failed_sign_out_signs_in_again ada d (cl_name ada)) as (p & shows & E & Hp & _).
  - split; [reflexivity|]. intros s [= <-]. exists ada. by split.
  - reflexivity.
  - discriminate.
  - by exists p, shows.
Defined.
End SessionRuns.
