(* ===== verification/Manage.v ===== *)
(** * What a device keeps of a circle, and forgetting it
      (client/src/lib/controller.js: persistence, the [ready] event, the key
      directory, circle management, forks)

    The maps a circle appears in, on disk and in memory; the connect handler
    over answers of the relay; renaming, roles, leaving; the notice of a
    fork. *)

From stdpp Require Import base list numbers option strings sets.
From Stdlib Require Import ZArith NArith Lia.
From S2P Require Import Prelude JsNum JsString JsValue Json Board Games Overview Offers Quorum ChanKeys Envelope Reducer Log Bytes History Circles Fork Search Backup Logs Inbox Snapshot Actions Unread.
Import Circles.Circles Logs.Logs Inbox.Inbox Snapshot.Snapshot Actions.Actions.
Open Scope Z_scope.

Module Manage.

(** ** What is said in passing

    [lo_catchUpTo]: where the backlog of a circle ended; the live presence,
    wants and typing of its members; when a line of each room was last
    announced.  None of them is written to the disk. *)
Record passing := {
  lo_catchUpTo : list (jstr * num);
  lo_livePresence : list (jstr * obj);
  lo_liveWants : list (jstr * obj);
  lo_liveTyping : list (jstr * obj);
  lo_typingSentAt : list (jstr * num);
}.

(** ** Everything a circle leaves on a device

    [kp_core], [kp_ratchets]: the groups of the crypto worker and of the
    ratchets on disk; [kp_deviceState], [kp_device_disk]: the device halves;
    [kp_names]: the names the service worker reads; [kp_call]: the circle of
    the running call; [kp_parks]: uploads asked for; [kp_live]: what is said in
    passing. *)
Record keeping := {
  kp_servers : list (jstr * val);
  kp_mlsGroups : list jstr;
  kp_forks : Fork.watch;
  kp_forkWarned : list jstr;
  kp_core : list jstr;
  kp_ratchets : list jstr;
  kp_deviceState : list (jstr * obj);
  kp_device_disk : list (jstr * obj);
  kp_names : obj;
  kp_logs : list (jstr * slot);
  kp_call : option jstr;
  kp_parks : nat;
  kp_live : passing;
}.

Definition set_servers (x : list (jstr * val)) (k : keeping) : keeping :=
  {| kp_servers := x; kp_mlsGroups := kp_mlsGroups k; kp_forks := kp_forks k; kp_forkWarned := kp_forkWarned k; kp_core := kp_core k;
     kp_ratchets := kp_ratchets k; kp_deviceState := kp_deviceState k; kp_device_disk := kp_device_disk k; kp_names := kp_names k;
     kp_logs := kp_logs k; kp_call := kp_call k; kp_parks := kp_parks k; kp_live := kp_live k |}.
Definition set_device (x : list (jstr * obj)) (k : keeping) : keeping :=
  {| kp_servers := kp_servers k; kp_mlsGroups := kp_mlsGroups k; kp_forks := kp_forks k; kp_forkWarned := kp_forkWarned k; kp_core := kp_core k;
     kp_ratchets := kp_ratchets k; kp_deviceState := x; kp_device_disk := x; kp_names := kp_names k;
     kp_logs := kp_logs k; kp_call := kp_call k; kp_parks := kp_parks k; kp_live := kp_live k |}.
Definition set_names (x : obj) (k : keeping) : keeping :=
  {| kp_servers := kp_servers k; kp_mlsGroups := kp_mlsGroups k; kp_forks := kp_forks k; kp_forkWarned := kp_forkWarned k; kp_core := kp_core k;
     kp_ratchets := kp_ratchets k; kp_deviceState := kp_deviceState k; kp_device_disk := kp_device_disk k; kp_names := x;
     kp_logs := kp_logs k; kp_call := kp_call k; kp_parks := kp_parks k; kp_live := kp_live k |}.
Definition set_warned (x : list jstr) (k : keeping) : keeping :=
  {| kp_servers := kp_servers k; kp_mlsGroups := kp_mlsGroups k; kp_forks := kp_forks k; kp_forkWarned := x; kp_core := kp_core k;
     kp_ratchets := kp_ratchets k; kp_deviceState := kp_deviceState k; kp_device_disk := kp_device_disk k; kp_names := kp_names k;
     kp_logs := kp_logs k; kp_call := kp_call k; kp_parks := kp_parks k; kp_live := kp_live k |}.
Definition parked (k : keeping) : keeping :=
  {| kp_servers := kp_servers k; kp_mlsGroups := kp_mlsGroups k; kp_forks := kp_forks k; kp_forkWarned := kp_forkWarned k; kp_core := kp_core k;
     kp_ratchets := kp_ratchets k; kp_deviceState := kp_deviceState k; kp_device_disk := kp_device_disk k; kp_names := kp_names k;
     kp_logs := kp_logs k; kp_call := kp_call k; kp_parks := S (kp_parks k); kp_live := kp_live k |}.

(** ** Persistence *)

Definition persistDevice (id : jstr) (record : val) (k : keeping) : keeping :=
  if is_empty id then k else set_device (obj_put (kp_deviceState k) id (deviceHalf record)) k.

Definition persistCircleNames (k : keeping) : keeping :=
  set_names (fold_left (fun names s => obj_put names s.1 s.2.["name"]) (kp_servers k) []) k.

Definition persistCircle (id : jstr) (record : val) (k : keeping) : keeping := parked (persistCircleNames (persistDevice id record k)).

Definition forgetDeviceState (id : jstr) (k : keeping) : keeping :=
  match obj_get (kp_deviceState k) id with
  | None => k
  | Some _ => set_device (obj_delete (kp_deviceState k) id) k
  end.

(** ** Forgetting *)

(** [${serverId}:]. *)
Definition warned_prefix (id : jstr) : jstr := id ++ js ":".

(** The crypto worker: it forgets the group and its state is written, or the
    write fails, or it throws as it has no such group (a circle held to be read
    only).  What is thrown is only logged. *)
Inductive forgetting := Written | NotWritten | NoGroup.

(** The maps, and the crypto worker. *)
Definition forget_group (id : jstr) (forgets : forgetting) (k : keeping) : keeping :=
  {| kp_servers := obj_delete (kp_servers k) id;
     kp_mlsGroups := filter (fun g => g <> id) (kp_mlsGroups k);
     kp_forks := Fork.clear (kp_forks k) id;
     kp_forkWarned := filter (fun w => starts_with (warned_prefix id) w = false) (kp_forkWarned k);
     kp_core := match forgets with NoGroup => kp_core k | _ => filter (fun g => g <> id) (kp_core k) end;
     kp_ratchets := match forgets with Written => filter (fun g => g <> id) (kp_core k) | _ => kp_ratchets k end;
     kp_deviceState := kp_deviceState k; kp_device_disk := kp_device_disk k; kp_names := kp_names k;
     kp_logs := kp_logs k; kp_call := kp_call k; kp_parks := kp_parks k; kp_live := kp_live k |}.

(** The logs, and the call when it was in the circle. *)
Definition forget_logs (id : jstr) (wasActiveCall : bool) (k : keeping) : keeping :=
  {| kp_servers := kp_servers k; kp_mlsGroups := kp_mlsGroups k; kp_forks := kp_forks k; kp_forkWarned := kp_forkWarned k;
     kp_core := kp_core k; kp_ratchets := kp_ratchets k; kp_deviceState := kp_deviceState k; kp_device_disk := kp_device_disk k;
     kp_names := kp_names k; kp_logs := forgetCircleLogs (kp_logs k) id;
     kp_call := if wasActiveCall then None else kp_call k; kp_parks := kp_parks k; kp_live := kp_live k |}.

(** The writes to [deviceState] and [circleNames] are taken. *)
Definition forgetServerLocal (id : jstr) (forgets : forgetting) (k : keeping) : keeping :=
  let wasActiveCall := match kp_call k with Some s => str_eqb s id | None => false end in
  parked (forget_logs id wasActiveCall (persistCircleNames (forgetDeviceState id (forget_group id forgets k)))).

(** The relay is told; its answer only matters to the log. *)
Definition leaveServer (id : jstr) (forgets : forgetting) (k : keeping) : list jstr * keeping :=
  match obj_get (kp_servers k) id with
  | None => ([], k)
  | Some _ => ([id], forgetServerLocal id forgets k)
  end.

(** ** Forks *)

(** [${record.id}:${...}]: what has been said. *)
Definition fork_key (id : jstr) (v : Fork.verdict_) : jstr :=
  warned_prefix id ++ if Fork.outOfSync v then js "self" else str_join (js ",") (Fork.stranded v).

(** The record's flag, and the text shown, if any. *)
Definition noteFork (threshold : Z) (id : jstr) (record : val) (k : keeping) : keeping * option jstr :=
  let v := Fork.verdict threshold (kp_forks k) id in
  let name := match record.["name"] with VUndef | VNull => id | n => match to_string n with Ok s => s | Throw _ => [] end end in
  match Fork.forkMessage v name with
  | None => (k, None)
  | Some text =>
      let k := set_servers (map_set (kp_servers k) id (VObj (obj_put (own_props record) (js "outOfSync") (VBool (Fork.outOfSync v))))) k in
      let key := fork_key id v in
      if bool_decide (key ∈ kp_forkWarned k) then (k, None) else (set_warned (kp_forkWarned k ++ [key]) k, Some text)
  end.

(** ** Names and roles *)

Definition renameServer (r : circle) (name : val) : res (circle * list out) :=
  let* text := text_of name in
  let next := slice0 60 (trim text) in
  if is_empty next || strict_eq (VStr next) (c_name r) then Ok (r, []) else
  let r' := set_name r (VStr next) in
  Ok (r', [Send (metaContent r'); SystemLine (js "circle renamed to " ++ Fork.quoted next ++ js " by you") None; Persist]).

(** [None]: the relay refused. *)
Definition setRole (relay_takes : bool) (user role : jstr) : option (list out) :=
  if relay_takes then
    Some [Send (jobj [("k", VStr (js "role")); ("user", VStr user); ("role", VStr role)]%string);
          SystemLine (user ++ js " is now " ++ (if str_eqb role (js "admin") then js "an admin" else js "a regular member") ++ js " (changed by you)") None]
  else None.

(** [roster]: the worker's answer; the record's directory and members, and
    whether it is persisted. *)
Definition refreshKeyDirectory (restored : bool) (keys : option obj) (members : option (list val)) (roster : option (list (jstr * bytes)))
  : option obj * option (list val) * bool :=
  match (if restored then None else roster) with
  | None => (keys, members, false)
  | Some roster =>
      let '(keys', changed, _) := mergeKeyDirectory keys roster in
      (keys', match roster with [] => members | _ => Some (VStr <$> roster.*1) end, changed)
  end.

(** ** Coming online *)

(** A record, as far as the handler reads it. *)
Record known := { kn_id : jstr; kn_name : jstr; kn_restored : bool; kn_lastSeq : num; kn_pendingMetaSync : bool }.

Inductive reply := Subscribed (seq : option num) | Refused (message : jstr).

Inductive call :=
| CAdmin (globalAdmin : bool)
| CSubscribe (id : jstr) (after : num)
| CRoles (id : jstr)
| CKeys (id : jstr)
| CToast (text : jstr)
| CForget (id : jstr)
| CKeyPackages (n : nat)
| CIceInfo
| CProbe (id : jstr)
| CCatchUp (id : jstr)
| CMeta (id : jstr)
| CVault
| CPush
| CRedeem.

Definition KP_TOPUP : nat := 2.

Definition ascii_fold (s : jstr) : jstr := (fun c => if ((65 <=? c) && (c <=? 90))%N then (c + 32)%N else c) <$> s.

(** [/not a member|no such group/i]. *)
Definition no_access (message : jstr) : bool :=
  str_includes (js "not a member") (ascii_fold message) || str_includes (js "no such group") (ascii_fold message).

Definition is_gone (answers : jstr -> reply) (r : known) : bool :=
  negb (kn_restored r) && match answers (kn_id r) with Refused m => no_access m | Subscribed _ => false end.

(** The loop of subscriptions, one record. *)
Definition subscribe_one (answers : jstr -> reply) (r : known) : list call :=
  if kn_restored r then [CRoles (kn_id r)] else
  CSubscribe (kn_id r) (kn_lastSeq r) ::
  (match answers (kn_id r) with
   | Subscribed _ => []
   | Refused m =>
       if no_access m then [CToast (js "you no longer have access to " ++ Fork.quoted (kn_name r)); CForget (kn_id r)]
       else [CToast (js "subscribe " ++ kn_id r ++ js ": " ++ m)]
   end) ++ [CRoles (kn_id r); CKeys (kn_id r)].

(** [catchUpTo]. *)
Definition catch_up_to (answers : jstr -> reply) (m : list (jstr * num)) (rs : list known) : list (jstr * num) :=
  fold_left (fun m r => if kn_restored r then m else
               match answers (kn_id r) with Subscribed seq => map_set m (kn_id r) (default (int 0) seq) | Refused _ => m end) rs m.

(** [onRelayEvent] on [ready].  [load]: why the circles could not be loaded, if
    they could not; [rs]: the map of circles after that, which nothing else changes meanwhile; [healed]: the
    rebroadcast was done in this session; the last two: notifications are
    granted, a link waits. *)
Definition onReady (globalAdmin : bool) (load : option jstr) (answers : jstr -> reply) (rs : list known) (healed granted invited : bool) : list call :=
  let left := filter (fun r => is_gone answers r = false) rs in
  [CAdmin globalAdmin] ++
  (match load with Some e => [CToast (js "your circles could not be loaded: " ++ e)] | None => [] end) ++
  (rs ≫= subscribe_one answers) ++
  [CKeyPackages KP_TOPUP; CIceInfo] ++
  ((fun r => CProbe (kn_id r)) <$> filter (fun r => kn_restored r = false) left) ++
  ((fun r => CCatchUp (kn_id r)) <$> left) ++
  (if healed then [] else (fun r => CMeta (kn_id r)) <$> filter (fun r => kn_restored r || kn_pendingMetaSync r = false) left) ++
  [CVault] ++ (if granted then [CPush] else []) ++ (if invited then [CRedeem] else []).
End Manage.

(** ** Facts *)

Module ManageFacts.
Import Manage.

(** *** Forgetting *)

(** Disk and memory agree, a circle is in the map once, and ids have neither
    the separator of the logs nor that of the warnings in them. *)
Record tidy (k : keeping) : Prop := {
  td_disk : kp_device_disk k = kp_deviceState k;
  td_once : NoDup (obj_keys (kp_servers k));
}.

Definition plain_id (id : jstr) : Prop := 0%N ∉ id /\ 58%N ∉ id.

Lemma names_entries (l : list (jstr * val)) :
  fold_left (fun names s => obj_put names s.1 s.2.["name"]) l [] = Unread.Unread.from_entries ((fun s => (s.1, s.2.["name"])) <$> l).
Proof. unfold Unread.Unread.from_entries. generalize (@nil (jstr * val)). induction l as [|s l IH]; intros acc; cbn; [done|]. apply IH. Qed.

Lemma names_get k id : NoDup (obj_keys (kp_servers k)) ->
  obj_get (kp_names (persistCircleNames k)) id = (fun s : val => s.["name"]) <$> obj_get (kp_servers k) id.
Proof.
  intros Hn. unfold persistCircleNames. cbn [kp_names set_names]. rewrite names_entries, Unread.UnreadFacts.from_entries_get.
  - apply (obj_get_fmap (fun s : val => s.["name"])).
  - by rewrite <- list_fmap_compose.
Qed.

(** A separator that occurs in neither id tells two prefixes apart. *)
Lemma prefix_id c id other rest : c ∉ id -> c ∉ other -> starts_with (id ++ [c]) (other ++ c :: rest) = true -> id = other.
Proof.
  intros Hi Ho [r E]%Search.Search.starts_with_app. rewrite <- app_assoc in E. revert other Ho E.
  induction id as [|a id IH]; intros [|b other] Ho E; cbn in E; [done| | |].
  - exfalso. injection E as Ea _. apply Ho. rewrite Ea. by left.
  - exfalso. injection E as Ea _. apply Hi. rewrite Ea. by left.
  - injection E as Ea E. apply not_elem_of_cons in Ho as [_ Ho]. apply not_elem_of_cons in Hi as [_ Hi]. by rewrite Ea, (IH Hi other Ho E).
Qed.

Lemma obj_get_filter_true {A} (P : jstr -> Prop) `{!forall kv : jstr * A, Decision (P kv.1)} (o : list (jstr * A)) k :
  P k -> obj_get (filter (fun kv => P kv.1) o) k = obj_get o k.
Proof.
  intros Hk. induction o as [|[k' x] o IH]; [done|]. rewrite filter_cons. cbn [fst obj_get]. case_decide as Hd.
  - cbn [obj_get]. by rewrite IH.
  - rewrite IH. destruct (str_eqb k' k) eqn:E; [|done]. apply str_eqb_eq in E. by subst.
Qed.

Lemma obj_get_filter_false {A} (P : jstr -> Prop) `{!forall kv : jstr * A, Decision (P kv.1)} (o : list (jstr * A)) k :
  ~ P k -> obj_get (filter (fun kv => P kv.1) o) k = None.
Proof.
  intros Hk. apply obj_get_None. unfold obj_keys. intros ([k' x] & -> & [Hp _]%list_elem_of_filter)%list_elem_of_fmap. done.
Qed.

Lemma starts_with_log id ch : starts_with (id ++ LOG_SEP) (logKey id ch) = true.
Proof. apply Search.Search.starts_with_app. exists ch. unfold logKey. by rewrite app_assoc. Qed.

Lemma logs_of_other id other ch b : plain_id id -> plain_id other -> other <> id ->
  obj_get (forgetCircleLogs b id) (logKey other ch) = obj_get b (logKey other ch).
Proof.
  intros [Hi _] [Ho _] Hne. unfold forgetCircleLogs. apply (obj_get_filter_true (fun k => starts_with (id ++ LOG_SEP) k = false)).
  destruct (starts_with _ _) eqn:E; [|done]. apply (prefix_id 0%N id other ch) in E; [congruence|done..].
Qed.

(** What the device state becomes. *)
Lemma forgotten_state id k x : kp_device_disk k = kp_deviceState k ->
  let k' := forgetDeviceState id k in
  obj_get (kp_deviceState k') x = (if str_eqb id x then None else obj_get (kp_deviceState k) x) /\ kp_device_disk k' = kp_deviceState k'.
Proof.
  intros Ed. cbn. unfold forgetDeviceState. destruct (obj_get (kp_deviceState k) id) eqn:E.
  - cbn. split; [apply obj_get_delete|done].
  - split; [|done]. destruct (str_eqb id x) eqn:Ex; [|done]. by apply str_eqb_eq in Ex as <-.
Qed.

Lemma forget_state_rest id k :
  let k' := forgetDeviceState id k in
  kp_servers k' = kp_servers k /\ kp_mlsGroups k' = kp_mlsGroups k /\ kp_forks k' = kp_forks k /\ kp_forkWarned k' = kp_forkWarned k /\
  kp_core k' = kp_core k /\ kp_ratchets k' = kp_ratchets k /\ kp_logs k' = kp_logs k /\ kp_call k' = kp_call k /\
  kp_parks k' = kp_parks k /\ kp_live k' = kp_live k.
Proof. cbn. unfold forgetDeviceState. by case_match. Qed.

Lemma delete_keys_NoDup {A} (l : list (jstr * A)) id : NoDup (obj_keys l) -> NoDup (obj_keys (obj_delete l id)).
Proof.
  unfold obj_keys. induction l as [|[k x] l IH]; cbn; [done|]. intros [Hk Hl]%NoDup_cons. destruct (str_eqb k id); [by apply IH|].
  cbn. apply NoDup_cons. split; [|by apply IH]. intros Hin. apply Hk. clear -Hin. induction l as [|[k' y] l IH]; cbn in *; [done|].
  destruct (str_eqb k' id); cbn in Hin; rewrite elem_of_cons in *; tauto.
Qed.

(** Field by field. *)
Lemma forget_fields id forgets k : tidy k ->
  let k' := forgetServerLocal id forgets k in
  kp_servers k' = obj_delete (kp_servers k) id /\ kp_mlsGroups k' = filter (fun g => g <> id) (kp_mlsGroups k) /\
  kp_forks k' = Fork.clear (kp_forks k) id /\
  kp_forkWarned k' = filter (fun w => starts_with (warned_prefix id) w = false) (kp_forkWarned k) /\
  kp_core k' = match forgets with NoGroup => kp_core k | _ => filter (fun g => g <> id) (kp_core k) end /\
  kp_ratchets k' = match forgets with Written => filter (fun g => g <> id) (kp_core k) | _ => kp_ratchets k end /\
  (forall x, obj_get (kp_deviceState k') x = if str_eqb id x then None else obj_get (kp_deviceState k) x) /\
  kp_device_disk k' = kp_deviceState k' /\
  (forall x, obj_get (kp_names k') x = (fun s : val => s.["name"]) <$> (if str_eqb id x then None else obj_get (kp_servers k) x)) /\
  kp_logs k' = forgetCircleLogs (kp_logs k) id /\
  kp_call k' = (if match kp_call k with Some s => str_eqb s id | None => false end then None else kp_call k) /\
  kp_parks k' = S (kp_parks k) /\ kp_live k' = kp_live k.
Proof.
  intros [Hdisk Honce] k'. unfold forgetServerLocal in k'. cbv zeta in k'. set (k1 := forget_group id forgets k) in k'.
  destruct (forget_state_rest id k1) as (E1 & E2 & E3 & E4 & E5 & E6 & E7 & E8 & E9 & E10).
  unfold k'. cbn [kp_servers kp_mlsGroups kp_forks kp_forkWarned kp_core kp_ratchets kp_deviceState kp_device_disk kp_logs kp_call kp_parks
                  persistCircleNames set_names forget_logs parked].
  split_and!; try done.
  - intros x. apply (forgotten_state id k1 x Hdisk).
  - apply (forgotten_state id k1 id Hdisk).
  - intros x. change (kp_names _) with (kp_names (persistCircleNames (forgetDeviceState id k1))).
    rewrite names_get, E1; [cbn; by rewrite obj_get_delete|rewrite E1; by apply delete_keys_NoDup].
  - by rewrite E7.
  - by rewrite E8.
  - by rewrite E9.
Qed.

(** C32: When this device forgets a circle (it leaves, is put out, or sees the
    deletion) and the writes of its device half and its names are taken, the
    circle is in none of these: the map of circles, the set of groups, the
    evidence of forks and what was said of them, the device half in memory and
    on disk, the names the service worker reads, the logs; a call in it is
    over, and one more upload is asked for.  The crypto worker no longer has the
    group if it had it, and neither have the ratchets on disk if that write is
    taken; if the worker had none, both stay as they are.  Everything kept of
    other circles in those places is as it was.  What was said in passing
    (where the backlog ended, presence, wants, typing and when typing was last
    announced) is not touched: it stays in memory until the page goes.  The ids
    hold neither a colon nor the separator of the logs, as the ids made by this
    client; disk and memory agree on the device halves at the start. *)
Theorem a_forgotten_circle_is_put_away id forgets k :
  tidy k -> plain_id id ->
  let k' := forgetServerLocal id forgets k in
  (obj_get (kp_servers k') id = None /\ id ∉ kp_mlsGroups k' /\ obj_get (kp_forks k') id = None /\
   Forall (fun w => starts_with (warned_prefix id) w = false) (kp_forkWarned k') /\
   obj_get (kp_deviceState k') id = None /\ obj_get (kp_device_disk k') id = None /\ obj_get (kp_names k') id = None /\
   (forall ch, obj_get (kp_logs k') (logKey id ch) = None) /\ kp_call k' <> Some id /\ kp_parks k' = S (kp_parks k)) /\
  match forgets with
  | Written => id ∉ kp_core k' /\ kp_ratchets k' = kp_core k'
  | NotWritten => id ∉ kp_core k' /\ kp_ratchets k' = kp_ratchets k
  | NoGroup => kp_core k' = kp_core k /\ kp_ratchets k' = kp_ratchets k
  end /\
  kp_live k' = kp_live k /\
  (forall other, plain_id other -> other <> id ->
     obj_get (kp_servers k') other = obj_get (kp_servers k) other /\
     (other ∈ kp_mlsGroups k' <-> other ∈ kp_mlsGroups k) /\ (other ∈ kp_core k' <-> other ∈ kp_core k) /\
     obj_get (kp_forks k') other = obj_get (kp_forks k) other /\
     (forall v, fork_key other v ∈ kp_forkWarned k' <-> fork_key other v ∈ kp_forkWarned k) /\
     obj_get (kp_deviceState k') other = obj_get (kp_deviceState k) other /\
     obj_get (kp_device_disk k') other = obj_get (kp_device_disk k) other /\
     obj_get (kp_names k') other = (fun s : val => s.["name"]) <$> obj_get (kp_servers k) other /\
     (forall ch, obj_get (kp_logs k') (logKey other ch) = obj_get (kp_logs k) (logKey other ch)) /\
     (kp_call k = Some other -> kp_call k' = Some other)).
Proof.
  intros Ht Hid k'. destruct (forget_fields id forgets k Ht) as (Es & Eg & Ef & Ew & Ec & Er & Ed & Edd & En & El & Ecall & Hp & Hl).
  fold k' in Es, Eg, Ef, Ew, Ec, Er, Ed, Edd, En, El, Ecall, Hp, Hl. pose proof (td_disk k Ht) as Hdisk. split; [|split; [|split]].
  - rewrite Edd, Ed, En, Es, Eg, Ef, Ew, str_eqb_refl. unfold Fork.clear. rewrite !obj_get_delete, str_eqb_refl. split_and!; try done.
    + by intros [? _]%list_elem_of_filter.
    + apply Forall_forall. by intros w [? _]%list_elem_of_filter.
    + intros ch. rewrite El. unfold forgetCircleLogs. apply (obj_get_filter_false (fun x => starts_with (id ++ LOG_SEP) x = false)).
      by rewrite starts_with_log.
    + rewrite Ecall. destruct (kp_call k) as [s|]; [|done]. destruct (str_eqb s id) eqn:E; [done|]. apply str_eqb_neq in E. by intros [= ?].
  - rewrite Ec, Er. destruct forgets; split; try done; by intros [? _]%list_elem_of_filter.
  - exact Hl.
  - intros other Ho Hne. assert (str_eqb id other = false) as Hd by (by apply str_eqb_neq).
    rewrite En, Edd, Hdisk, Ed, Es, Eg, Ef, Ew, Ec, Ecall. unfold Fork.clear. rewrite !obj_get_delete, Hd. split_and!; try done.
    + rewrite list_elem_of_filter. tauto.
    + destruct forgets; rewrite ?list_elem_of_filter; tauto.
    + intros v. rewrite list_elem_of_filter. split; [tauto|]. intros Hw. split; [|done].
      destruct (starts_with _ _) eqn:E; [|done]. exfalso. unfold fork_key, warned_prefix in E. rewrite <- app_assoc in E.
      apply (prefix_id 58%N) in E; [congruence|apply Hid|apply Ho].
    + intros ch. rewrite El. by apply logs_of_other.
    + intros ->. by assert (str_eqb other id = false) as -> by (by apply str_eqb_neq).
Qed.

(** *** Forks *)

(** What a device has said of a fork it does not say again, whatever else it
    says in between and whatever becomes of the record, until the circle is
    forgotten or the verdict changes. *)
Lemma a_fork_is_told_once threshold id record record' k k' k'' text :
  noteFork threshold id record k = (k', Some text) ->
  Fork.verdict threshold (kp_forks k'') id = Fork.verdict threshold (kp_forks k) id ->
  (forall w, w ∈ kp_forkWarned k' -> w ∈ kp_forkWarned k'') ->
  (noteFork threshold id record' k'').2 = None.
Proof.
  unfold noteFork. intros E Ev Hw. rewrite Ev. destruct (Fork.forkMessage _ _) eqn:Em; [|done]. clear Em.
  destruct (Fork.forkMessage _ _); [|done]. revert E. cbn [kp_forkWarned set_servers]. case_bool_decide as Hd; [done|].
  intros [= <- _]. rewrite bool_decide_eq_true_2; [done|]. apply Hw. cbn. apply elem_of_app. right. by left.
Qed.

(** *** Coming online *)

Definition subscriptions (cs : list call) : list (jstr * num) := omap (fun c => match c with CSubscribe i n => Some (i, n) | _ => None end) cs.
Definition forgotten (cs : list call) : list jstr := omap (fun c => match c with CForget i => Some i | _ => None end) cs.
Definition sent_in (cs : list call) : list jstr := omap (fun c => match c with CProbe i | CMeta i => Some i | _ => None end) cs.
Definition caught_up (cs : list call) : list jstr := omap (fun c => match c with CCatchUp i => Some i | _ => None end) cs.
Lemma omap_fmap_none {A B C} (g : A -> B) (f : B -> option C) (l : list A) : (forall x, f (g x) = None) -> omap f (g <$> l) = [].
Proof. intros Hf. induction l as [|x l IH]; cbn; [done|]. by rewrite Hf. Qed.

Lemma omap_fmap_some {A B C} (g : A -> B) (f : B -> option C) (h : A -> C) (l : list A) : (forall x, f (g x) = Some (h x)) -> omap f (g <$> l) = h <$> l.
Proof. intros Hf. induction l as [|x l IH]; cbn; [done|]. rewrite Hf. f_equal. exact IH. Qed.

(** What the loop of subscriptions says, for the records in order. *)
Lemma loop_omap {C} (f : call -> option C) (h : known -> list C) answers rs :
  (forall r, omap f (subscribe_one answers r) = h r) -> omap f (rs ≫= subscribe_one answers) = rs ≫= h.
Proof. intros Hf. induction rs as [|r rs IH]; cbn; [done|]. rewrite omap_app, Hf. f_equal. exact IH. Qed.

Lemma bind_filter {A B} (b : A -> bool) (g : A -> B) (l : list A) :
  (l ≫= fun x => if b x then [g x] else []) = g <$> filter (fun x => b x = true) l.
Proof.
  induction l as [|x l IH]; [done|]. rewrite filter_cons. cbn. rewrite IH. by destruct (b x).
Qed.

(** When a device comes online it asks for each circle it can read once, from
    where that circle was left, and for no circle it only holds to read; it
    forgets exactly those the relay says it is out of, goes on to fetch the
    history of the others, and sends and calls only in circles it is still in
    and can send in. *)
Theorem coming_online globalAdmin load answers rs healed granted invited :
  let cs := onReady globalAdmin load answers rs healed granted invited in
  subscriptions cs = (fun r => (kn_id r, kn_lastSeq r)) <$> filter (fun r => negb (kn_restored r) = true) rs /\
  forgotten cs = kn_id <$> filter (fun r => is_gone answers r = true) rs /\
  caught_up cs = kn_id <$> filter (fun r => is_gone answers r = false) rs /\
  (forall i, i ∈ sent_in cs -> exists r, r ∈ rs /\ kn_id r = i /\ kn_restored r = false /\ is_gone answers r = false).
Proof.
  intros cs. unfold cs, onReady, subscriptions, forgotten, caught_up, sent_in. rewrite !omap_app.
  set (left := filter (fun r => is_gone answers r = false) rs).
  rewrite !(omap_fmap_none (fun r => CProbe (kn_id r))) by done. rewrite !(omap_fmap_none (fun r => CCatchUp (kn_id r))) by done.
  rewrite (omap_fmap_some (fun r => CCatchUp (kn_id r)) _ kn_id) by done.
  rewrite (omap_fmap_some (fun r => CProbe (kn_id r)) _ kn_id) by done.
  rewrite (loop_omap _ (fun r => if negb (kn_restored r) then [(kn_id r, kn_lastSeq r)] else [])).
  2: { intros r. unfold subscribe_one. destruct (kn_restored r), (answers (kn_id r)) as [?|m]; [done..|]. by destruct (no_access m). }
  rewrite (loop_omap _ (fun r => if is_gone answers r then [kn_id r] else [])).
  2: { intros r. unfold subscribe_one, is_gone. destruct (kn_restored r), (answers (kn_id r)) as [?|m]; [done..|]. by destruct (no_access m). }
  rewrite !(loop_omap _ (fun r => [])).
  2-3: intros r; unfold subscribe_one; destruct (kn_restored r), (answers (kn_id r)) as [?|m]; [done..|]; by destruct (no_access m).
  assert (forall C (l : list known), (l ≫= fun _ => @nil C) = []) as Hnil by (intros C l; induction l; done).
  rewrite !Hnil, !bind_filter. split_and!.
  - by destruct load, healed, granted, invited; cbn; rewrite ?(omap_fmap_none (fun r => CMeta (kn_id r))), ?app_nil_r.
  - by destruct load, healed, granted, invited; cbn; rewrite ?(omap_fmap_none (fun r => CMeta (kn_id r))), ?app_nil_r.
  - by destruct load, healed, granted, invited; cbn; rewrite ?(omap_fmap_none (fun r => CMeta (kn_id r))), ?app_nil_r.
  - intros i. rewrite ?(omap_fmap_none (fun r => CCatchUp (kn_id r))) by done. rewrite !elem_of_app. intros Hi.
    assert (i ∈ kn_id <$> filter (fun r => kn_restored r = false) left \/ i ∈ kn_id <$> filter (fun r => kn_restored r || kn_pendingMetaSync r = false) left) as Hi'.
    { assert (omap (fun c => match c with CProbe i | CMeta i => Some i | _ => None end)
        (if healed then [] else (fun r => CMeta (kn_id r)) <$> filter (fun r => kn_restored r || kn_pendingMetaSync r = false) left)
        ⊆ kn_id <$> filter (fun r => kn_restored r || kn_pendingMetaSync r = false) left) as Hm
        by (destruct healed; [by intros ? ?%elem_of_nil|by rewrite (omap_fmap_some (fun r => CMeta (kn_id r)) _ kn_id) by done]).
      destruct Hi as [Hi|[Hi|[Hi|[Hi|[Hi|[Hi|[Hi|[Hi|[Hi|Hi]]]]]]]]];
        [by apply elem_of_nil in Hi|by destruct load; apply elem_of_nil in Hi|by apply elem_of_nil in Hi..|by left|by apply elem_of_nil in Hi|right; by apply Hm|by apply elem_of_nil in Hi
        |by destruct granted; apply elem_of_nil in Hi|by destruct invited; apply elem_of_nil in Hi]. }
    destruct Hi' as [(r & -> & [Hr [Hg Hin]%list_elem_of_filter]%list_elem_of_filter)%list_elem_of_fmap|
                     (r & -> & [[Hr _]%orb_false_iff [Hg Hin]%list_elem_of_filter]%list_elem_of_filter)%list_elem_of_fmap]; by exists r.
Qed.
End ManageFacts.

(** ** Runs *)

Module ManageRuns.
Import Manage ManageFacts.

#[local] Instance ascii_case : CaseFold := ascii_fold.

Definition club : val := VObj [(js "id", VStr (js "g")); (js "name", VStr (js "club")); (js "lastSeq", VNum (int 4))].
Definition home : val := VObj [(js "id", VStr (js "h")); (js "name", VStr (js "home"))].

(** Two circles, a log of each, a call and a warning in the first. *)
Definition at_work : keeping := {|
  kp_servers := [(js "g", club); (js "h", home)]; kp_mlsGroups := [js "g"; js "h"]; kp_forks := []; kp_forkWarned := [js "g:bo"; js "h:cy"];
  kp_core := [js "g"; js "h"]; kp_ratchets := [js "g"; js "h"];
  kp_deviceState := [(js "g", deviceHalf club); (js "h", deviceHalf home)]; kp_device_disk := [(js "g", deviceHalf club); (js "h", deviceHalf home)];
  kp_names := [(js "g", VStr (js "club")); (js "h", VStr (js "home"))];
  kp_logs := [(logKey (js "g") (js "general"), {| sl_log := createChannelLog; sl_loaded := true |});
              (logKey (js "h") (js "general"), {| sl_log := createChannelLog; sl_loaded := false |})];
  kp_call := Some (js "g"); kp_parks := 0;
  kp_live := {| lo_catchUpTo := [(js "g", int 4)]; lo_livePresence := [(js "g", [(js "bo", VNull)])]; lo_liveWants := []; lo_liveTyping := [];
                lo_typingSentAt := [(js "g/general", int 900)] |} |}.

Lemma a_forgotten_circle_is_put_away_witness :
  let k := forgetServerLocal (js "g") Written at_work in
  obj_get (kp_servers k) (js "g") = None /\ obj_get (kp_names k) (js "g") = None /\ obj_get (kp_device_disk k) (js "g") = None /\
  obj_get (kp_logs k) (logKey (js "g") (js "general")) = None /\ kp_call k <> Some (js "g") /\ js "g" ∉ kp_core k /\
  obj_get (kp_names k) (js "h") = Some (VStr (js "home")).
Proof.
  intros k.
  assert (tidy at_work) as Ht by (split; [reflexivity|apply (bool_decide_unpack _); vm_compute; exact I]).
  assert (plain_id (js "g") /\ plain_id (js "h")) as [Hg Hh] by (split; split; apply (bool_decide_unpack _); vm_compute; exact I).
  destruct (a_forgotten_circle_is_put_away (js "g") Written at_work Ht Hg) as ((Es & _ & _ & _ & _ & Ed & En & El & Ec & _) & [Hc _] & _ & Hall).
  destruct (Hall (js "h") Hh ltac:(discriminate)) as (_ & _ & _ & _ & _ & _ & _ & Enh & _).
  split; [exact Es|]. split; [exact En|]. split; [exact Ed|]. split; [apply El|]. split; [exact Ec|]. split; [exact Hc|].
  etransitivity; [exact Enh|reflexivity].
Defined.

(** A message that was on its way when the circle was forgotten is answered:
    the cursor it moves is written to the record the sender still holds, and the
    device half of the circle is back, in memory and on disk. *)
Lemma a_late_answer_brings_the_cursor_back :
  let k := persistDevice (js "g") club (forgetServerLocal (js "g") Written at_work) in
  obj_get (kp_servers k) (js "g") = None /\ obj_get (kp_device_disk k) (js "g") = Some (deviceHalf club).
Proof. by vm_compute. Qed.

(** The presence of the members of a circle that was left stays in memory: a
    device that joins it again in the same session shows it as it was, as far
    as its readers still take it for fresh. *)
Lemma presence_outlives_the_circle :
  lo_livePresence (kp_live (forgetServerLocal (js "g") Written at_work)) = [(js "g", [(js "bo", VNull)])].
Proof. reflexivity. Qed.


(** *** Forks *)

Definition lost_blob : Fork.info :=
  {| Fork.i_sender := js "bo"; Fork.i_epoch := VNum (int 5); Fork.i_me := js "ada"; Fork.i_groupEpoch := VNum (int 5); Fork.i_restored := false; Fork.i_replay := false |}.

Definition with_forks (f : Fork.watch) (k : keeping) : keeping :=
  {| kp_servers := kp_servers k; kp_mlsGroups := kp_mlsGroups k; kp_forks := f; kp_forkWarned := kp_forkWarned k; kp_core := kp_core k;
     kp_ratchets := kp_ratchets k; kp_deviceState := kp_deviceState k; kp_device_disk := kp_device_disk k; kp_names := kp_names k;
     kp_logs := kp_logs k; kp_call := kp_call k; kp_parks := kp_parks k; kp_live := kp_live k |}.

Definition flag (k : keeping) : val := default VUndef ((fun r : val => r.["outOfSync"]) <$> obj_get (kp_servers k) (js "h")).

(** Nothing from [bo] opens, and the record is marked; then a message of his
    opens and the verdict is clean again, but no notice means no look at the
    flag: the circle stays marked as out of sync. *)
Lemma the_flag_outlives_the_verdict :
  let lost := fold_left (fun w _ => (Fork.failed w (js "h") lost_blob).1) (seq 0 (Z.to_nat Fork.FORK_THRESHOLD)) [] in
  let marked := (noteFork Fork.FORK_THRESHOLD (js "h") home (with_forks lost at_work)).1 in
  let opened := with_forks (Fork.succeeded lost (js "h") (js "bo")) marked in
  let later := (noteFork Fork.FORK_THRESHOLD (js "h") (default VUndef (obj_get (kp_servers opened) (js "h"))) opened).1 in
  flag marked = VBool true /\ Fork.outOfSync (Fork.verdict Fork.FORK_THRESHOLD (kp_forks later) (js "h")) = false /\ flag later = VBool true.
Proof. by vm_compute. Qed.

(** *** Names *)

Definition renamed : circle := set_name hall (VStr (js "riders")).

Definition as_reader : context := {| ctx_isAdmin := Some false; ctx_now := int 1000; ctx_inCall := None; ctx_dateNow := int 1000 |}.

(** An admin renames the circle and every reader follows; then a member who
    missed it comes online and sends the record it holds, as every device does
    once per session, and the old name is back. *)
Lemma a_stale_snapshot_renames_back :
  renameServer hall (VStr (js " riders ")) = Ok (renamed, [Send (metaContent renamed); SystemLine (js "circle renamed to " ++ Fork.quoted (js "riders") ++ js " by you") None; Persist]) /\
  let reader := (applyEnvelope hall (js "ada") (metaContent renamed) as_reader).1 in
  c_name reader = VStr (js "riders") /\ c_name (applyEnvelope reader (js "bob") (metaContent hall) as_reader).1 = VStr (js "club").
Proof. split; [|split]; vm_compute; reflexivity. Qed.
End ManageRuns.
