(* ===== verification/Shell.v ===== *)
(** * The offline shell and push nudges (client/public/sw.js,
      client/scripts/shell-manifest.mjs, client/scripts/inject-precache.mjs;
      the notifications of client/src/lib/controller.js; the push
      subscriptions of relay/src/store.rs and relay/src/server.rs)

    [Manifest] is the build step that chooses what the shell holds and stamps
    it into the worker; [Worker] is the worker itself: which caches it writes
    and deletes, what it answers, what it shows for a nudge; [Subscription] is
    the page asking for nudges and the relay keeping track of who asked.  The
    network, the digest and the push service are parameters. *)

From stdpp Require Import base list numbers option strings sets gmap relations.
From Stdlib Require Import ZArith NArith Lia Sorting.Sorted.
From S2P Require Import Prelude JsNum JsString JsValue Json Bytes.
Open Scope Z_scope.
Open Scope js_scope.

Module Manifest.

(** ** Which files *)

Definition ends_with (p s : jstr) : bool := starts_with (reverse p) (reverse s).

(** A line terminator, which [.] of a regular expression does not match. *)
Definition line_end (c : N) : bool := bool_decide (c ∈ [10; 13; 8232; 8233]%N).

(** [/^.*p/]: [p] somewhere on the first line. *)
Fixpoint on_the_line (p s : jstr) : bool :=
  starts_with p s ||
  match s with [] => false | c :: r => negb (line_end c) && on_the_line p r end.

(** [s] past the prefix [p], and a test of it. *)
Definition past (p : string) (test : jstr -> bool) (s : jstr) : bool :=
  starts_with (js p) s && test (drop (length (js p)) s).

Definition NEVER : list (jstr -> bool) :=
  [ (fun p => str_eqb p (js "/sw.js")) ;
    starts_with (js "/blob/") ;
    past "/games/" (on_the_line (js "/state")) ].

Definition EXTRA : list (jstr -> bool) :=
  [ (fun p => str_eqb p (js "/worker.js")) ;
    (fun p => str_eqb p (js "/manifest.webmanifest")) ;
    starts_with (js "/icons/") ;
    ends_with (js ".wasm") ].

Definition HASHED : jstr -> bool := starts_with (js "/assets/").

Definition keep (p : jstr) : bool :=
  negb (existsb (fun re => re p) NEVER) && (HASHED p || existsb (fun re => re p) EXTRA).

(** [[...new Set(l)]] of strings. *)
Definition uniq (l : list jstr) : list jstr :=
  fold_left (fun acc x => if bool_decide (x ∈ acc) then acc else acc ++ [x]) l [].

Definition INDEX : jstr := js "/index.html".

Definition rooted (v : val) : option jstr :=
  match v with VStr p => if starts_with (js "/") p then Some p else None | _ => None end.

Definition selectShell (paths : option (list val)) : list jstr :=
  let paths := default [] paths in
  let chosen := filter (fun p => keep p = true) (omap rooted paths) in
  let chosen := if includes paths (VStr INDEX) then chosen ++ [INDEX] else chosen in
  sort_strings (uniq chosen).

(** ** Which version *)

Definition shellVersion (entries : option (list (jstr * jstr))) (digest : jstr -> jstr) : jstr :=
  let lines := (fun e => e.1 ++ js " " ++ e.2) <$> default [] entries in
  slice0 16 (digest (str_join [10%N] (sort_strings lines))).

(** ** Into the worker *)

Definition PLACEHOLDER : jstr := js "__SHELL_MANIFEST__".

(** [json.replace(/\\/g, '\\\\').replace(/'/g, "\\'")]. *)
Definition quoted (s : jstr) : jstr :=
  mbind (fun c => if N.eqb c 92 then [92; 92]%N else if N.eqb c 39 then [92; 39]%N else [c]) s.

(** GetSubstitution of [String.prototype.replace] with a string pattern: no
    capture group, so [$1] and [$<] stand for themselves. *)
Fixpoint substitution (before matched after template : jstr) : jstr :=
  match template with
  | [] => []
  | c :: rest =>
      match rest with
      | [] => [c]
      | d :: r =>
          if negb (N.eqb c 36) then c :: substitution before matched after rest
          else if N.eqb d 36 then 36%N :: substitution before matched after r
          else if N.eqb d 38 then matched ++ substitution before matched after r
          else if N.eqb d 96 then before ++ substitution before matched after r
          else if N.eqb d 39 then after ++ substitution before matched after r
          else 36%N :: substitution before matched after rest
      end
  end.

Definition replace_first (s pattern template : jstr) : jstr :=
  match index_of pattern s with
  | None => s
  | Some i =>
      let before := take i s in
      let after := drop (i + length pattern) s in
      before ++ substitution before pattern after template ++ after
  end.

Definition manifest (version : jstr) (assets : list jstr) : val :=
  jobj [("version", VStr version); ("assets", VArr (VStr <$> assets))]%string.

(** The whole script: [content] is the hash of each file, [sw] the worker as
    it was copied into dist/. *)
Definition inject_precache (paths : list jstr) (content : jstr -> jstr) (digest : jstr -> jstr) (sw : jstr) :
    res jstr :=
  let assets := selectShell (Some (VStr <$> paths)) in
  if bool_decide (assets = []) then Throw OtherError
  else if negb (bool_decide (INDEX ∈ assets)) then Throw OtherError
  else
    let version := shellVersion (Some ((fun p => (p, content p)) <$> assets)) digest in
    if negb (str_includes PLACEHOLDER sw) then Throw OtherError
    else Ok (replace_first sw PLACEHOLDER (quoted (stringify (manifest version assets)))).

(** ** Out of the worker

    A single-quoted literal of the script and the text after it.  The escapes
    are those the script has; a line cannot end inside. *)
Fixpoint literal (s : jstr) : option (jstr * jstr) :=
  match s with
  | [] => None
  | c :: r =>
      if N.eqb c 39 then Some ([], r)
      else if N.eqb c 92 then
        match r with
        | d :: r' =>
            if N.eqb d 39 || N.eqb d 92 then (fun x => (d :: x.1, x.2)) <$> literal r' else None
        | [] => None
        end
      else if N.eqb c 10 || N.eqb c 13 then None
      else (fun x => (c :: x.1, x.2)) <$> literal r
  end.

(** [const SHELL = SHELL_MANIFEST.startsWith('__') ? ... : JSON.parse(SHELL_MANIFEST)]. *)
Definition SHELL (SHELL_MANIFEST : jstr) : res val :=
  if starts_with (js "__") SHELL_MANIFEST
  then Ok (jobj [("version", VStr (js "dev")); ("assets", VArr [])]%string)
  else json_parse SHELL_MANIFEST.

End Manifest.

Module Worker.

(** The serialization the browser gives to a path of this origin (an URL of
    the shell is a path; one with a space or a query would not be itself). *)
Class Urls := { href : jstr -> jstr }.

Record shell := { version : jstr; assets : list jstr }.

(** [SHELL] as the handlers read it. *)
Definition shell_of (v : val) : option shell :=
  match prop v (js "version"), prop v (js "assets") with
  | VStr s, VArr l => Some {| version := s; assets := omap (fun x => match x with VStr p => Some p | _ => None end) l |}
  | _, _ => None
  end.

Definition CACHE (sh : shell) : jstr := js "quorum-shell-" ++ version sh.
Definition is_shell_cache (name : jstr) : bool := starts_with (js "quorum-shell-") name.

(** A response; a cache takes one that is [ok]. *)
Record response := { ok : bool; body : list N }.

Notation cache := (gmap jstr response).

(** Cache storage, the workers at work, and the one that answers.  A worker
    that installs holds its cache: once that is deleted, what it adds goes
    nowhere ([held] is false). *)
Inductive phase :=
| Installing (todo : list jstr) (held : bool)
| Installed
| Activating (keys : list jstr).

Record browser := {
  caches : gmap jstr cache;
  workers : gmap nat (shell * phase);
  active : option shell;
}.

(** [caches.open]. *)
Definition open_cache (name : jstr) (cs : gmap jstr cache) : gmap jstr cache := <[name := default ∅ (cs !! name)]> cs.

Section Worker.
Context `{Urls}.

(** [cache.add(new Request(url, { cache: 'reload' })).catch(() => {})], with
    the network's answer. *)
Definition add_asset (name url : jstr) (net : option response) (cs : gmap jstr cache) : gmap jstr cache :=
  match net with
  | Some r => if ok r then <[name := <[href url := r]> (default ∅ (cs !! name))]> cs else cs
  | None => cs
  end.

(** One handler of one worker goes one step: the browser starts a worker, an
    asset arrives or fails (in any order), the install is over and
    [skipWaiting] lets it activate, a cache is deleted, [clients.claim]. *)
Inductive act :=
| Install (i : nat) (sh : shell)
| Add (i : nat) (url : jstr) (net : option response)
| Ready (i : nat)
| Activate (i : nat)
| Delete (i : nat)
| Claim (i : nat).

Definition set_worker (i : nat) (w : shell * phase) (b : browser) : browser :=
  {| caches := caches b; workers := <[i := w]> (workers b); active := active b |}.
Definition set_caches (cs : gmap jstr cache) (b : browser) : browser :=
  {| caches := cs; workers := workers b; active := active b |}.

(** The cache [name] is deleted: whoever holds it holds nothing stored. *)
Definition lose (name : jstr) (w : shell * phase) : shell * phase :=
  match w with
  | (sh, Installing todo held) => (sh, Installing todo (held && negb (str_eqb (CACHE sh) name)))
  | _ => w
  end.
Definition delete_cache (name : jstr) (b : browser) : browser :=
  {| caches := delete name (caches b); workers := lose name <$> workers b; active := active b |}.

Definition stale (sh : shell) (key : jstr) : bool := is_shell_cache key && negb (str_eqb key (CACHE sh)).

Definition act_step (a : act) (b : browser) : option browser :=
  match a with
  | Install i sh =>
      match workers b !! i with
      | None =>
          Some (if bool_decide (assets sh = []) then set_worker i (sh, Installing [] true) b
                else set_worker i (sh, Installing (assets sh) true) (set_caches (open_cache (CACHE sh) (caches b)) b))
      | Some _ => None
      end
  | Add i url net =>
      match workers b !! i with
      | Some (sh, Installing todo held) =>
          if bool_decide (url ∈ todo) then
            Some (set_worker i (sh, Installing (filter (fun u => u <> url) todo) held)
                   (if held then set_caches (add_asset (CACHE sh) url net (caches b)) b else b))
          else None
      | _ => None
      end
  | Ready i =>
      match workers b !! i with
      | Some (sh, Installing [] _) => Some (set_worker i (sh, Installed) b)
      | _ => None
      end
  | Activate i =>
      match workers b !! i with
      | Some (sh, Installed) =>
          Some (set_worker i (sh, Activating (filter (fun k => stale sh k = true) (map_to_list (caches b)).*1)) b)
      | _ => None
      end
  | Delete i =>
      match workers b !! i with
      | Some (sh, Activating (k :: keys)) => Some (delete_cache k (set_worker i (sh, Activating keys) b))
      | _ => None
      end
  | Claim i =>
      match workers b !! i with
      | Some (sh, Activating []) =>
          Some {| caches := caches b; workers := delete i (workers b); active := Some sh |}
      | _ => None
      end
  end.

Definition run (acts : list act) (b : browser) : option browser :=
  fold_left (fun ob a => ob ≫= act_step a) acts (Some b).

(** ** Requests *)

Record location := { l_origin : jstr; pathname : jstr; search : jstr }.
Record request := { method : jstr; mode : jstr; url : option location }.

(** Left to the browser, or answered ([None]: a network error). *)
Inductive answer := Pass | Reply (r : option response).

Definition url_key (l : location) : jstr := pathname l ++ search l.

(** [caches.match(key, { cacheName })]. *)
Definition match_cache (name key : jstr) (cs : gmap jstr cache) : option response :=
  cs !! name ≫= (fun c => c !! key).

Definition on_fetch (sh : shell) (origin : jstr) (cs : gmap jstr cache) (fetch : request -> option response)
    (request : request) : answer :=
  if negb (str_eqb (method request) (js "GET")) || bool_decide (assets sh = []) then Pass else
  match url request with
  | None => Pass
  | Some u =>
      if negb (str_eqb (l_origin u) origin) then Pass else
      if str_eqb (mode request) (js "navigate") then
        Reply (match fetch request with
               | Some r => Some r
               | None => match_cache (CACHE sh) (href (js "/index.html")) cs
               end)
      else if negb (bool_decide (pathname u ∈ assets sh)) then Pass
      else Reply (match match_cache (CACHE sh) (url_key u) cs with
                  | Some hit => Some hit
                  | None => fetch request
                  end)
  end.

(** The page asks, the active worker answers. *)
Definition respond (origin : jstr) (b : browser) (fetch : request -> option response) (q : request) : answer :=
  match active b with
  | Some sh => on_fetch sh origin (caches b) fetch q
  | None => Pass
  end.

End Worker.

(** ** Nudges *)

(** The name cache the page left in IndexedDB. *)
Inductive database :=
| NoDatabase                 (* the open fails *)
| NoStore                    (* the transaction throws *)
| GetFails
| Holds (circleNames : val).

Definition circleName (db : database) (id : val) : res val :=
  match db with
  | Holds names =>
      if nullish names then Ok VNull
      else let* k := to_string id in Ok (prop names k ⁇ VNull)
  | _ => Ok VNull
  end.

Record notification := {
  n_body : jstr;
  n_tag : jstr;
  n_renotify : bool;
  n_requireInteraction : bool;
  n_group : val;
}.

(** [name ? `...` : '...'] *)
Definition named (name : val) (before : string) (without : string) : res jstr :=
  if truthy name then let* n := to_string name in Ok (js before ++ js "“" ++ n ++ js "”")
  else Ok (js without).

Definition nudge_data (payload : option jstr) : val :=
  match payload with
  | Some t => match json_parse t with Ok v => v | Throw _ => VObj [] end
  | None => VObj []
  end.

(** The [push] handler; one that throws shows nothing. *)
Definition on_push (db : database) (payload : option jstr) : res notification :=
  let data := nudge_data payload in
  let* call := get data "call" in
  let* rally := get data "rally" in
  let* group_ := get data "group" in
  let* welcome := get data "welcome" in
  let group := call ⁇ rally ⁇ group_ ⁇ welcome ⁇ VNull in
  let* name := if truthy group then circleName db group else Ok VNull in
  let show tag body wait :=
    Ok {| n_body := body; n_tag := tag; n_renotify := true; n_requireInteraction := wait; n_group := group |} in
  if truthy welcome then
    let* body := named name "you were added to " "you were added to a circle" in
    let* id := to_string welcome in show (js "quorum-welcome-" ++ id) body false
  else if truthy call then
    let* body := named name "incoming call in " "incoming call" in
    let* id := to_string call in show (js "quorum-call-" ++ id) body true
  else if truthy rally then
    let* body := named name "a rally was started in " "a rally was started" in
    let* id := to_string rally in show (js "quorum-rally-" ++ id) body false
  else if truthy group_ then
    let* body := named name "new message in " "new encrypted message" in
    let* id := to_string group_ in show (js "quorum-msg-" ++ id) body false
  else show (js "quorum") (js "new encrypted activity") false.

(** A tap on a notification, with the windows that are open. *)
Inductive tap := PostMessage (window : nat) (data : val) | Focus (window : nat) | OpenWindow (url : jstr).

Definition on_click (group : val) (windows : list nat) : list tap :=
  match windows with
  | win :: _ =>
      (if truthy group then [PostMessage win (jobj [("type", VStr (js "open-group")); ("group", group)]%string)] else [])
        ++ [Focus win]
  | [] => [OpenWindow (js "/")]
  end.

(** The page's listener (controller.js): which circle it selects. *)
Definition on_message (data : val) (servers : list jstr) : option jstr :=
  if negb (nullish data) && strict_eq (data.["type"]) (VStr (js "open-group")) then
    match data.["group"] with VStr g => if bool_decide (g ∈ servers) then Some g else None | _ => None end
  else None.

End Worker.

Module Subscription.

(** ** The relay: who is woken, and how *)

(** [push_subs]: per user, the subscription under its endpoint. *)
Notation table := (gmap jstr (gmap jstr jstr)).

Definition put_push_subscription (user endpoint json : jstr) (t : table) : table :=
  <[user := <[endpoint := json]> (default ∅ (t !! user))]> t.
Definition push_subscriptions_for (user : jstr) (t : table) : list (jstr * jstr) :=
  map_to_list (default ∅ (t !! user)).
Definition delete_push_subscription (user endpoint : jstr) (t : table) : table :=
  match t !! user with Some m => <[user := delete endpoint m]> t | None => t end.

(** The request [push_subscribe]; [None] is an error reply. *)
Definition push_subscribe (user subscription : jstr) (t : table) : option table :=
  match json_parse subscription with
  | Ok v =>
      match v.["endpoint"] with
      | VStr endpoint => Some (put_push_subscription user endpoint subscription t)
      | _ => None
      end
  | Throw _ => None
  end.

(** What the push service says of one subscription. *)
Inductive delivery := Sent | Gone | Failed.

Definition push_one (send : jstr -> jstr -> delivery) (user body : jstr) (t : table) (sub : jstr * jstr) : table :=
  match send sub.2 body with Gone => delete_push_subscription user sub.1 t | _ => t end.

(** [push_notify]: the table after it, and what was handed to the service. *)
Definition push_notify (send : jstr -> jstr -> delivery) (user : jstr) (payload : val) (t : table) :
    table * list (jstr * jstr) :=
  let subs := push_subscriptions_for user t in
  let body := stringify payload in
  (fold_left (push_one send user body) subs t, (fun s => (s.2, body)) <$> subs).

(** The nudges the relay sends. *)
Inductive nudge := NGroup | NWelcome | NRally | NCall.
#[global] Instance nudge_eq_dec : EqDecision nudge.
Proof. solve_decision. Defined.

Definition nudge_key (n : nudge) : string :=
  match n with NGroup => "group" | NWelcome => "welcome" | NRally => "rally" | NCall => "call" end.
Definition nudge_payload (n : nudge) (group : jstr) : val := jobj [(nudge_key n, VStr group)].

(** [notify_kind] of an ephemeral. *)
Definition eph_nudge (notify_kind : option jstr) : nudge :=
  match notify_kind with Some k => if str_eqb k (js "rally") then NRally else NCall | None => NCall end.

(** Who is nudged for a message, and for an ephemeral that names members
    ([roster]: the members in the relay's order; [names]: [notify]). *)
Definition message_targets (user : jstr) (roster subscribed : list jstr) : list jstr :=
  filter (fun m => m <> user /\ m ∉ subscribed) roster.
Definition eph_targets (user : jstr) (roster subscribed : list jstr) (notify : option (list jstr)) : list jstr :=
  match notify with
  | Some (_ :: _ as names) => take 64 (filter (fun n => n <> user /\ n ∈ roster /\ n ∉ subscribed) names)
  | _ => []
  end.

(** ** The page *)

Record subscription := { s_key : bytes; s_json : jstr }.

(** The page's worker registration and the browser's subscription. *)
Record page := { swReg : bool; pushed : option subscription }.

(** What the page meets: whether a worker can be registered, what the person
    answers, the relay's [push_info], the push service (which endpoint it
    gives under a key, if it answers), whether a subscription can be dropped. *)
Record world := {
  registers : bool;
  permission : jstr;
  push_info : res val;
  service : bytes -> option jstr;
  unsubscribes : bool;
}.

(** [pushManager.subscribe]: the existing subscription under the same key, an
    error when its key is another one. *)
Definition subscribe (w : world) (key : bytes) (p : page) : page * res subscription :=
  match pushed p with
  | Some s => (p, if bool_decide (s_key s = key) then Ok s else Throw OtherError)
  | None =>
      match service w key with
      | Some json =>
          let s := {| s_key := key; s_json := json |} in ({| swReg := swReg p; pushed := Some s |}, Ok s)
      | None => (p, Throw OtherError)
      end
  end.

Definition setupServiceWorker (w : world) (p : page) : page :=
  if registers w then {| swReg := true; pushed := pushed p |} else p.

(** [existing.unsubscribe().catch(() => {})]. *)
Definition unsubscribe (w : world) (p : page) : page :=
  if unsubscribes w then {| swReg := swReg p; pushed := None |} else p.

Definition get_subscription (w : world) (appKey : bytes) (p : page) : page * res subscription :=
  match subscribe w appKey p with
  | (p, Ok s) => (p, Ok s)
  | (p, Throw e) =>
      match pushed p with
      | None => (p, Throw e)
      | Some _ => subscribe w appKey (unsubscribe w p)
      end
  end.

Definition enableNotifications (w : world) (user : jstr) (p : page) (t : table) : page * table * res bool :=
  let p := if swReg p then p else setupServiceWorker w p in
  if negb (swReg p) then (p, t, Throw OtherError) else
  if negb (str_eqb (permission w) (js "granted")) then (p, t, Throw OtherError) else
  match (let* info := push_info w in let* key := get info "pubkey" in
         match key with VStr s => b64url_dec s | _ => Throw TypeError end) with
  | Throw e => (p, t, Throw e)
  | Ok appKey =>
      match get_subscription w appKey p with
      | (p, Throw e) => (p, t, Throw e)
      | (p, Ok s) =>
          match push_subscribe user (s_json s) t with
          | Some t => (p, t, Ok true)
          | None => (p, t, Throw OtherError)
          end
      end
  end.

(** The deploy notice. *)
Definition updatePrompt (currentController : val) : bool := negb (nullish currentController).

(** ** The first-run ask (client/src/lib/notify-prompt.js); the store is
    absent where it is blocked. *)

Definition NOTIF_PROMPTED_KEY : jstr := js "quorum-notif-prompted".

Definition shouldPromptNotifications (supported : bool) (permission : jstr) (asked : bool) : bool :=
  if negb supported then false else if asked then false else str_eqb permission (js "default").

Definition notifAlreadyPrompted (localStorage : option (list (jstr * jstr))) : bool :=
  match localStorage with
  | Some st => match obj_get st NOTIF_PROMPTED_KEY with Some v => negb (is_empty v) | None => false end
  | None => false
  end.

Definition markNotifPrompted (localStorage : option (list (jstr * jstr))) : option (list (jstr * jstr)) :=
  (fun st => map_set st NOTIF_PROMPTED_KEY (js "1")) <$> localStorage.

End Subscription.

(** ** The stamped shell *)

Module ManifestFacts.
Import Manifest.

Lemma elem_of_uniq l x : x ∈ uniq l <-> x ∈ l.
Proof.
  unfold uniq. enough (forall acc, x ∈ fold_left (fun acc x => if bool_decide (x ∈ acc) then acc else acc ++ [x]) l acc
    <-> x ∈ acc \/ x ∈ l) as -> by set_solver.
  induction l as [|y l IH]; intros acc; cbn; [set_solver|]. rewrite IH. case_bool_decide; set_solver.
Qed.

Lemma NoDup_uniq l : NoDup (uniq l).
Proof.
  unfold uniq. enough (forall acc, NoDup acc ->
    NoDup (fold_left (fun acc x => if bool_decide (x ∈ acc) then acc else acc ++ [x]) l acc)) as Hall
    by (apply Hall; constructor).
  induction l as [|y l IH]; intros acc Ha; cbn; [done|]. apply IH. case_bool_decide; [done|by apply NoDup_snoc].
Qed.

(** What a listing of the build holds, as the script sees it. *)
Definition chosen (l : list val) (p : jstr) : Prop :=
  (Some p ∈ (rooted <$> l) /\ keep p = true) \/ (p = INDEX /\ VStr INDEX ∈ l).

Lemma elem_of_selectShell l p : p ∈ selectShell (Some l) <-> chosen l p.
Proof.
  unfold selectShell, chosen. cbn [default id].
  assert (forall c, p ∈ sort_strings (uniq c) <-> p ∈ c) as Hc.
  { intros c. unfold sort_strings. by rewrite sort_by_perm, elem_of_uniq. }
  rewrite Hc. assert (p ∈ filter (fun p => keep p = true) (omap rooted l) <-> Some p ∈ (rooted <$> l) /\ keep p = true) as Hf.
  { rewrite list_elem_of_filter, list_elem_of_omap, list_elem_of_fmap. naive_solver. }
  destruct (includes l (VStr INDEX)) eqn:Hi.
  - apply includes_elem in Hi. rewrite elem_of_app, list_elem_of_singleton, Hf. naive_solver.
  - rewrite Hf. split; [tauto|]. intros [?|[-> Hin]]; [done|]. exfalso.
    rewrite includes_false in Hi. specialize (Hi _ Hin). cbn in Hi. by rewrite str_eqb_refl in Hi.
Qed.

Lemma sorted_perm l : sort_strings l ≡ₚ l.
Proof. apply sort_by_perm. Qed.

(** The same files in another order, or some of them listed twice, make the
    same shell. *)
Lemma selectShell_same l1 l2 : (forall v, v ∈ l1 <-> v ∈ l2) -> selectShell (Some l1) = selectShell (Some l2).
Proof.
  intros He. assert (selectShell (Some l1) ≡ₚ selectShell (Some l2)) as Hp.
  { apply NoDup_Permutation.
    - unfold selectShell. rewrite sorted_perm. apply NoDup_uniq.
    - unfold selectShell. rewrite sorted_perm. apply NoDup_uniq.
    - intros p. rewrite !elem_of_selectShell. unfold chosen. rewrite !list_elem_of_fmap. naive_solver. }
  unfold selectShell in *. rewrite !sorted_perm in Hp. by apply sort_strings_canonical.
Qed.

Lemma shellVersion_perm e1 e2 digest : e1 ≡ₚ e2 -> shellVersion (Some e1) digest = shellVersion (Some e2) digest.
Proof. intros Hp. unfold shellVersion. cbn [default]. do 3 f_equal. apply sort_strings_canonical. by rewrite Hp. Qed.

(** *** Text that needs no substitution *)

Definition calm (c : N) : Prop := c <> 36%N /\ c <> 10%N /\ c <> 13%N.

Lemma calm_spec c : calm c <-> negb (N.eqb c 36 || N.eqb c 10 || N.eqb c 13) = true.
Proof. unfold calm. destruct (N.eqb_spec c 36), (N.eqb_spec c 10), (N.eqb_spec c 13); cbn; naive_solver. Qed.

Lemma calm_lit s : forallb (fun c => negb (N.eqb c 36 || N.eqb c 10 || N.eqb c 13)) s = true -> Forall calm s.
Proof.
  intros Hs. apply Forall_forall. intros c Hc. apply calm_spec. rewrite forallb_forall in Hs. apply Hs. by apply list_elem_of_In.
Qed.

Lemma calm_hex v : (v < 16)%N -> calm (hex_digit v).
Proof. intros Hv. unfold hex_digit, calm. destruct (N.ltb_spec v 10); lia. Qed.

Lemma calm_quote_unit c : c <> 36%N -> unit16 c -> Forall calm (quote_unit c).
Proof.
  intros Hc Hu. unfold unit16 in Hu.
  assert (Forall calm (unicode_escape c)) as He.
  { unfold unicode_escape. change (Forall calm ([92; 117]%N ++ (hex_digit <$> [c / 4096; c / 256 mod 16; c / 16 mod 16; c mod 16]%N))).
    apply Forall_app. split; [by apply calm_lit|]. apply Forall_fmap. repeat apply Forall_cons_2; [..|constructor]; apply calm_hex;
      [apply N.Div0.div_lt_upper_bound; lia|apply N.mod_lt; lia..]. }
  unfold quote_unit. repeat (case_match; [first [by apply calm_lit|by apply He]|]).
  apply Forall_cons_2; [|constructor]. unfold calm. rewrite !N.eqb_neq in *. done.
Qed.

Lemma calm_quote_body s : 36%N ∉ s -> Forall unit16 s -> Forall calm (quote_body s).
Proof.
  induction (well_founded_ltof _ (@length N) s) as [s _ IH]. intros Hs Hu.
  destruct s as [|c [|d r]]; [constructor| |].
  - apply Forall_cons in Hu as [Hu _]. apply calm_quote_unit; [set_solver|done].
  - rewrite quote_body_cons2. assert (Hu2 := Hu). apply Forall_cons in Hu as [Hc Hu]. destruct (is_high c && is_low d) eqn:E.
    + apply andb_prop in E as [E1 E2]. apply Forall_cons in Hu as [Hd Hu].
      assert (forall x, is_high x = true \/ is_low x = true -> calm x) as Hcalm.
      { intros x Hx. unfold is_high, is_low in Hx. rewrite !andb_true_iff, !N.leb_le in Hx. unfold calm. lia. }
      repeat apply Forall_cons_2; [apply Hcalm; auto..|]. apply IH; [unfold ltof; cbn; lia|set_solver|done].
    + apply Forall_app. split; [apply calm_quote_unit; [set_solver|done]|]. apply IH; [unfold ltof; cbn; lia|set_solver|done].
Qed.

Lemma calm_join sep l : Forall calm sep -> Forall (Forall calm) l -> Forall calm (str_join sep l).
Proof.
  intros Hs. induction l as [|x [|y l] IH]; intros Hl; [constructor|by apply Forall_cons in Hl as [??]|].
  rewrite str_join_cons2. apply Forall_cons in Hl as [Hx Hl]. rewrite !Forall_app. auto.
Qed.

(** Text for the manifest: UTF-16 and no dollar. *)
Definition plain_text (s : jstr) : Prop := 36%N ∉ s /\ Forall unit16 s.

Lemma calm_quote s : plain_text s -> Forall calm (json_quote s).
Proof.
  intros [??]. unfold json_quote. rewrite !Forall_app. split; [by apply calm_lit|].
  split; [by apply calm_quote_body|by apply calm_lit].
Qed.

Lemma stringify_manifest v a :
  stringify (manifest v a) =
    bracket 123 125 [Json.member (js "version") (json_quote v);
                     Json.member (js "assets") (bracket 91 93 (json_quote <$> a))].
Proof.
  unfold manifest, jobj. cbn -[js]. unfold Json.member, bracket. cbn -[js json_quote].
  do 4 f_equal. repeat f_equal. induction a as [|x a IH]; cbn; [done|]. by rewrite <- IH.
Qed.

Lemma calm_manifest v a : plain_text v -> Forall plain_text a -> Forall calm (stringify (manifest v a)).
Proof.
  intros Hv Ha. rewrite stringify_manifest. unfold bracket, Json.member.
  repeat first [by apply calm_quote | by apply calm_lit | apply Forall_app; split].
  apply calm_join; [by apply calm_lit|]. apply Forall_fmap. eapply Forall_impl; [exact Ha|]. intros x. apply calm_quote.
Qed.

Lemma substitution_plain before m after s : 36%N ∉ s -> substitution before m after s = s.
Proof.
  induction s as [|c [|d s] IH]; intros Hs; [done..|].
  transitivity (c :: substitution before m after (d :: s)); [|rewrite IH by set_solver; done].
  assert (N.eqb c 36 = false) as Hc by (apply N.eqb_neq; set_solver). cbn. by rewrite Hc.
Qed.

Lemma quoted_plain s : 36%N ∉ s -> 36%N ∉ quoted s.
Proof.
  intros Hs Hin. unfold quoted in Hin. apply list_elem_of_bind in Hin as (c & Hc & Hin).
  revert Hc. case_match; [set_solver|]. case_match; set_solver.
Qed.

Lemma literal_quoted s post : Forall calm s -> literal (quoted s ++ 39%N :: post) = Some (s, post).
Proof.
  induction s as [|c s IH]; intros Hs; [done|]. apply Forall_cons in Hs as [Hc Hs]. specialize (IH Hs).
  unfold quoted in *. cbn. destruct (N.eqb_spec c 92) as [->|]; [cbn; by rewrite IH|].
  destruct (N.eqb_spec c 39) as [->|]; [cbn; by rewrite IH|]. destruct Hc as (_ & Hc & Hc').
  cbn. rewrite (proj2 (N.eqb_neq c 39)), (proj2 (N.eqb_neq c 92)), (proj2 (N.eqb_neq c 10)), (proj2 (N.eqb_neq c 13)) by done.
  cbn. by rewrite IH.
Qed.

Lemma manifest_back v a : Forall unit16 v -> Forall (Forall unit16) a -> json_parse (stringify (manifest v a)) = Ok (manifest v a).
Proof.
  intros Hv Ha. assert (jsonable (manifest v a)) as Hj.
  { unfold manifest, jobj. apply jsonable_obj. split; [by eapply bool_decide_unpack; vm_compute|].
    assert (forall k : string, forallb (fun c => N.ltb c 65536) (js k) = true -> Forall unit16 (js k)) as Hk.
    { intros k Hk. apply Forall_forall. intros c Hc. rewrite forallb_forall in Hk. apply N.ltb_lt, Hk. by apply list_elem_of_In. }
    repeat apply Forall_cons_2; [| |constructor]; cbn [fst snd]; (split; [by apply Hk|]); [done|].
    apply jsonable_arr, Forall_fmap. eapply Forall_impl; [exact Ha|done]. }
  rewrite json_parse_stringify by done. f_equal. apply rebuild_enumerated; [done|].
  unfold manifest, jobj. cbn -[js]. split; [|split; [done|split; [|done]]].
  - repeat constructor.
  - clear. induction a; cbn; auto.
Qed.

(** The shell the script reads back is the shell the build chose: the quotes
    survive, [JSON.parse] gives the version and the list. *)
Lemma stamped_manifest before m after v a post : plain_text v -> Forall plain_text a ->
  literal (substitution before m after (quoted (stringify (manifest v a))) ++ 39%N :: post)
    = Some (stringify (manifest v a), post)
  /\ SHELL (stringify (manifest v a)) = Ok (manifest v a).
Proof.
  intros Hv Ha. pose proof (calm_manifest v a Hv Ha) as Hc.
  assert (36%N ∉ stringify (manifest v a)) as Hd.
  { intros Hin. rewrite Forall_forall in Hc. by destruct (Hc _ Hin). }
  rewrite substitution_plain by (by apply quoted_plain). split; [by apply literal_quoted|].
  unfold SHELL. replace (starts_with (js "__") _) with false.
  - apply manifest_back; [apply Hv|]. eapply Forall_impl; [exact Ha|]. by intros x [??].
  - by rewrite stringify_manifest.
Qed.

End ManifestFacts.

(** ** What the caches hold, and what is answered *)

Module WorkerFacts.
Import Worker.
#[local] Arguments CACHE : simpl never.

Lemma run_app `{Urls} acts1 acts2 b : run (acts1 ++ acts2) b = run acts1 b ≫= run acts2.
Proof.
  unfold run. rewrite fold_left_app. destruct (fold_left _ acts1 (Some b)) as [b'|]; [done|].
  cbn. induction acts2; [done|exact IHacts2].
Qed.

Lemma run_cons `{Urls} a acts b : run (a :: acts) b = act_step a b ≫= run acts.
Proof. change (a :: acts) with ([a] ++ acts). by rewrite run_app. Qed.

Definition idle (b : browser) : Prop := workers b = ∅.

(** Every worker at work was started, and asks for its own list only. *)
Definition started (acts : list act) (b : browser) : Prop := forall i sh ph, workers b !! i = Some (sh, ph) ->
  Install i sh ∈ acts /\ forall todo held, ph = Installing todo held -> todo ⊆ assets sh.

Lemma started_mono acts a b : started acts b -> started (acts ++ [a]) b.
Proof. intros Hs i sh ph Hi. destruct (Hs _ _ _ Hi). set_solver. Qed.

Lemma started_set acts i sh ph b : started acts b -> Install i sh ∈ acts ->
  (forall todo held, ph = Installing todo held -> todo ⊆ assets sh) -> started acts (set_worker i (sh, ph) b).
Proof.
  intros Hs Hin Ht j sh' ph'. cbn. destruct (decide (i = j)) as [<-|Hne].
  - rewrite lookup_insert_eq. by intros [= <- <-].
  - rewrite lookup_insert_ne by done. apply Hs.
Qed.

Lemma act_started `{Urls} acts a b b' : started acts b -> act_step a b = Some b' -> started (acts ++ [a]) b'.
Proof.
  intros Hs Ha. apply (started_mono _ a) in Hs.
  assert (forall i sh ph, workers b !! i = Some (sh, ph) -> Install i sh ∈ acts ++ [a]) as Hin by (intros i sh ph Hi; by destruct (Hs _ _ _ Hi)).
  destruct a as [i sh|i u net|i|i|i|i]; cbn in Ha; destruct (workers b !! i) as [[sh' ph]|] eqn:Hi; try done.
  - case_bool_decide; injection Ha as <-; (apply started_set; [done|set_solver|]); intros todo held [= <- <-]; set_solver.
  - destruct ph as [todo held| |]; try done. case_bool_decide; [|done]. injection Ha as <-.
    apply started_set; [by destruct held|by eapply Hin|]. intros todo' held' [= <- <-].
    destruct (Hs _ _ _ Hi) as [_ Ht]. specialize (Ht _ _ eq_refl). intros x [_ Hx]%list_elem_of_filter. auto.
  - destruct ph as [[|] held| |]; try done. injection Ha as <-. apply started_set; [done|by eapply Hin|done].
  - destruct ph; try done. injection Ha as <-. apply started_set; [done|by eapply Hin|done].
  - destruct ph as [| |[|k keys]]; try done. injection Ha as <-. intros j sh2 ph2. cbn. rewrite lookup_fmap.
    destruct (<[i := _]> (workers b) !! j) as [[sh3 ph3]|] eqn:Hj; [|done].
    assert (started (acts ++ [Delete i]) (set_worker i (sh', Activating keys) b)) as Hs' by (apply started_set; [done|by eapply Hin|done]).
    destruct (Hs' _ _ _ Hj) as [Hj1 Hj2]. destruct ph3; cbn; intros [= <- <-]; (split; [done|]); try done.
    intros ? ? [= <- <-]. eauto.
  - destruct ph as [| |[|]]; try done. injection Ha as <-. intros j sh2 ph2. cbn. intros [_ Hj]%lookup_delete_Some. by apply (Hs j).
Qed.

Lemma run_started `{Urls} acts b b' : idle b -> run acts b = Some b' -> started acts b'.
Proof.
  intros Hb. revert b'. induction acts as [|a acts IH] using rev_ind; intros b' Hr.
  - injection Hr as <-. intros i sh ph. by rewrite Hb.
  - rewrite run_app in Hr. apply bind_Some in Hr as (b1 & H1 & Ha). rewrite run_cons in Ha. apply bind_Some in Ha as (b2 & Ha & [= <-]).
    eapply act_started; eauto.
Qed.

Definition holds (b : browser) (name key : jstr) (r : response) : Prop := match_cache name key (caches b) = Some r.

Lemma match_cache_Some name key cs r : match_cache name key cs = Some r <-> exists c, cs !! name = Some c /\ c !! key = Some r.
Proof. unfold match_cache. by rewrite bind_Some. Qed.

Lemma match_open name key n cs : match_cache name key (open_cache n cs) = match_cache name key cs.
Proof.
  unfold match_cache, open_cache. destruct (decide (n = name)) as [<-|]; [|by rewrite lookup_insert_ne].
  rewrite lookup_insert_eq. by destruct (cs !! n).
Qed.

Lemma match_add `{Urls} name key n url net cs :
  match_cache name key (add_asset n url net cs) =
    match net with
    | Some r => if ok r && str_eqb n name && str_eqb (href url) key then Some r else match_cache name key cs
    | None => match_cache name key cs
    end.
Proof.
  unfold add_asset. destruct net as [r|]; [|done]. destruct (ok r); [|done]. cbn.
  unfold match_cache, str_eqb. case_bool_decide as Hn; cbn; [subst n|by rewrite lookup_insert_ne].
  rewrite lookup_insert_eq. cbn [mbind option_bind]. case_bool_decide as Hk; [subst key; by rewrite lookup_insert_eq|].
  rewrite lookup_insert_ne by done. by destruct (cs !! name).
Qed.

Lemma match_delete name key k b : match_cache name key (caches (delete_cache k b)) = if str_eqb k name then None else match_cache name key (caches b).
Proof.
  unfold match_cache, str_eqb. cbn. case_bool_decide as Hk; [subst; by rewrite lookup_delete_eq|by rewrite lookup_delete_ne].
Qed.

(** One step writes to a cache only what the network answered to an install
    of the worker that names it. *)
Lemma act_holds `{Urls} acts a b b' name key r : started acts b -> act_step a b = Some b' -> holds b' name key r ->
  holds b name key r \/
  exists i sh url, a = Add i url (Some r) /\ Install i sh ∈ acts /\ url ∈ assets sh /\ name = CACHE sh /\ key = href url /\ ok r = true.
Proof.
  intros Hs Ha Hh. unfold holds in *.
  destruct a as [i sh|i u net|i|i|i|i]; cbn in Ha; destruct (workers b !! i) as [[sh' ph]|] eqn:Hi; try done.
  - left. case_bool_decide; injection Ha as <-; [done|]. cbn in Hh. by rewrite match_open in Hh.
  - destruct ph as [todo held| |]; try done. case_bool_decide as Hu; [|done]. injection Ha as <-.
    destruct held; [|by left]. cbn in Hh. rewrite match_add in Hh. destruct net as [r'|]; [|by left].
    destruct (ok r' && str_eqb (CACHE sh') name && str_eqb (href u) key) eqn:E; [|by left]. injection Hh as <-.
    rewrite !andb_true_iff, !str_eqb_eq in E. destruct (Hs _ _ _ Hi) as [Hin Ht], E as [[??] ?]. right.
    exists i, sh', u. repeat split; try done. by apply (Ht _ _ eq_refl).
  - destruct ph as [[|] held| |]; try done. injection Ha as <-. by left.
  - destruct ph; try done. injection Ha as <-. by left.
  - destruct ph as [| |[|k keys]]; try done. injection Ha as <-. left. rewrite match_delete in Hh. by destruct (str_eqb k name).
  - destruct ph as [| |[|]]; try done. injection Ha as <-. by left.
Qed.

Lemma cached_at_install `{Urls} acts b b' name key r : idle b -> run acts b = Some b' -> holds b' name key r ->
  holds b name key r \/
  exists i sh url, Add i url (Some r) ∈ acts /\ Install i sh ∈ acts /\ url ∈ assets sh /\ name = CACHE sh /\ key = href url /\ ok r = true.
Proof.
  intros Hb. revert b'. induction acts as [|a acts IH] using rev_ind; intros b' Hr Hh; [injection Hr as <-; by left|].
  rewrite run_app in Hr. apply bind_Some in Hr as (b1 & H1 & Ha). rewrite run_cons in Ha. apply bind_Some in Ha as (b2 & Ha & [= <-]).
  destruct (act_holds acts a b1 b2 name key r (run_started acts b b1 Hb H1) Ha Hh) as [Hh1|(i & sh & u & -> & ? & ?)].
  - destruct (IH _ H1 Hh1) as [?|(i & sh & u & ? & ? & ?)]; [by left|]. right. exists i, sh, u. set_solver.
  - right. exists i, sh, u. set_solver.
Qed.

End WorkerFacts.

(** ** A whole update, and the time after it *)

Module Updates.
Import Worker WorkerFacts.
#[local] Arguments CACHE : simpl never.

Section Updates.
Context `{Urls}.

Definition adds (i : nat) (net : jstr -> option response) (ps : list jstr) : list act := (fun p => Add i p (net p)) <$> ps.

(** The requests of an install are answered in the order [ps]; [n] caches are
    deleted. *)
Definition update (i : nat) (sh : shell) (net : jstr -> option response) (ps : list jstr) (n : nat) : list act :=
  Install i sh :: adds i net ps ++ [Ready i; Activate i] ++ replicate n (Delete i) ++ [Claim i].

Definition add_all (name : jstr) (net : jstr -> option response) (ps : list jstr) (cs : gmap jstr cache) : gmap jstr cache :=
  fold_left (fun cs p => add_asset name p (net p) cs) ps cs.

Lemma run_adds i sh net ps todo b : NoDup ps -> todo ≡ₚ ps -> workers b !! i = Some (sh, Installing todo true) ->
  run (adds i net ps) b = Some (set_worker i (sh, Installing [] true) (set_caches (add_all (CACHE sh) net ps (caches b)) b)).
Proof.
  revert todo b. induction ps as [|p ps IH]; intros todo b Hn Hp Hi.
  - apply Permutation_nil_r in Hp as ->. cbn. f_equal. destruct b as [cs ws ac]. unfold set_worker. cbn in *. by rewrite insert_id.
  - apply NoDup_cons in Hn as [Hin Hn]. unfold adds. rewrite fmap_cons, run_cons. cbn [act_step]. rewrite Hi.
    rewrite bool_decide_true by (rewrite Hp; set_solver). cbn [mbind option_bind]. fold (adds i net ps).
    rewrite (IH (filter (fun u => u <> p) todo)); [|done| |by cbn; rewrite lookup_insert_eq].
    + cbn. unfold set_worker. cbn. by rewrite insert_insert_eq.
    + rewrite Hp. rewrite filter_cons. rewrite decide_False by auto. rewrite filter_all; [done|].
      by intros x Hx ->.
Qed.

Lemma run_deletes i sh keys b : workers b = {[i := (sh, Activating keys)]} ->
  run (replicate (length keys) (Delete i)) b
    = Some {| caches := fold_left (fun cs k => delete k cs) keys (caches b); workers := {[i := (sh, Activating [])]}; active := active b |}.
Proof.
  revert b. induction keys as [|k keys IH]; intros [cs ws ac]; cbn [workers caches active length replicate]; intros ->; [done|].
  change (Delete i :: replicate (length keys) (Delete i)) with ([Delete i] ++ replicate (length keys) (Delete i)).
  rewrite run_app. cbn [run fold_left mbind option_bind act_step workers]. rewrite lookup_singleton_eq. cbn [mbind option_bind].
  rewrite IH; [done|]. cbn. by rewrite insert_singleton_eq, map_fmap_singleton.
Qed.

Lemma lookup_deletes (keys : list jstr) (cs : gmap jstr cache) (name : jstr) :
  fold_left (fun cs k => delete k cs) keys cs !! name = if bool_decide (name ∈ keys) then None else cs !! name.
Proof.
  revert cs. induction keys as [|k keys IH]; intros cs; cbn; [done|]. rewrite IH.
  destruct (decide (k = name)) as [->|Hne].
  - rewrite lookup_delete_eq. rewrite (bool_decide_true (name ∈ name :: keys)) by set_solver. by case_bool_decide.
  - rewrite lookup_delete_ne by done. repeat case_bool_decide; set_solver.
Qed.

(** Everything an update does to cache storage. *)
Lemma run_update i sh net ps b : idle b -> NoDup (assets sh) -> ps ≡ₚ assets sh -> assets sh <> [] -> exists n b',
  run (update i sh net ps n) b = Some b' /\ active b' = Some sh /\ idle b' /\
  forall name, caches b' !! name =
    if stale sh name then None else add_all (CACHE sh) net ps (open_cache (CACHE sh) (caches b)) !! name.
Proof.
  intros Hb Hn Hp Ha. unfold idle in Hb. set (cs := add_all (CACHE sh) net ps (open_cache (CACHE sh) (caches b))).
  set (keys := filter (fun k => stale sh k = true) (map_to_list cs).*1).
  exists (length keys), {| caches := fold_left (fun cs k => delete k cs) keys cs; workers := ∅; active := Some sh |}.
  split; [|split; [done|split; [done|]]].
  - unfold update. rewrite run_cons. cbn [act_step]. rewrite Hb, lookup_empty, bool_decide_false by done.
    cbn [mbind option_bind]. rewrite run_app.
    rewrite (run_adds i sh net ps (assets sh)); [|by rewrite Hp|done|by cbn; rewrite lookup_insert_eq].
    cbn [mbind option_bind]. unfold set_worker, set_caches. cbn [caches workers active].
    rewrite Hb, !insert_empty, insert_singleton_eq. fold cs. rewrite !run_app.
    cbn [run fold_left mbind option_bind act_step workers]. rewrite !lookup_singleton_eq.
    unfold set_worker. cbn [caches workers active mbind option_bind]. rewrite insert_singleton_eq.
    cbn [act_step workers]. rewrite lookup_singleton_eq. unfold set_worker. cbn [caches workers active mbind option_bind].
    rewrite insert_singleton_eq. fold keys. rewrite run_app, (run_deletes i sh keys) by done.
    cbn [run fold_left act_step caches workers active mbind option_bind]. by rewrite lookup_singleton_eq, delete_singleton_eq.
  - intros name. cbn [caches]. rewrite lookup_deletes.
    assert (name ∈ keys <-> is_Some (cs !! name) /\ stale sh name = true) as Hk.
    { unfold keys. rewrite list_elem_of_filter, list_elem_of_fmap. split.
      - intros [? ([k c] & -> & Hc%elem_of_map_to_list)]. cbn [fst] in *. by rewrite Hc.
      - intros [[c Hc] ?]. split; [done|]. exists (name, c). by rewrite elem_of_map_to_list. }
    case_bool_decide as Hin; rewrite Hk in Hin; [by destruct Hin as [_ ->]|].
    destruct (stale sh name) eqn:E; [|done]. destruct (cs !! name); [|done]. exfalso. by apply Hin.
Qed.

Definition good (r : option response) : option response := r ≫= (fun r => if ok r then Some r else None).

Lemma match_add_all name net ps cs key : Forall (fun p => href p = p) ps ->
  match_cache name key (add_all name net ps cs) =
    match (if bool_decide (key ∈ ps) then good (net key) else None) with
    | Some r => Some r | None => match_cache name key cs
    end.
Proof.
  revert cs. induction ps as [|p ps IH]; intros cs Hh; [done|]. apply Forall_cons in Hh as [Hp Hh].
  unfold add_all in *. cbn [fold_left]. rewrite IH by done. rewrite match_add, Hp.
  destruct (decide (p = key)) as [->|Hne].
  - rewrite (bool_decide_true (key ∈ key :: ps)) by set_solver. unfold good.
    destruct (net key) as [r|]; cbn; [|by case_bool_decide]. rewrite !str_eqb_refl, !andb_true_r.
    destruct (ok r); by case_bool_decide.
  - rewrite (bool_decide_ext (key ∈ p :: ps) (key ∈ ps)) by set_solver.
    destruct (net p); [|done]. by rewrite (proj2 (str_eqb_neq p key)), andb_false_r.
Qed.

Lemma lookup_add_all name net ps cs other : other <> name -> add_all name net ps cs !! other = cs !! other.
Proof.
  intros Hne. revert cs. induction ps as [|p ps IH]; intros cs; [done|]. unfold add_all in *. cbn [fold_left]. rewrite IH.
  unfold add_asset. destruct (net p) as [r|]; [|done]. destruct (ok r); [|done]. by rewrite lookup_insert_ne.
Qed.

Lemma own_cache_is_kept sh : stale sh (CACHE sh) = false.
Proof. unfold stale. by rewrite str_eqb_refl, andb_false_r. Qed.

Lemma cache_is_shell_cache sh : is_shell_cache (CACHE sh) = true.
Proof. unfold is_shell_cache, CACHE. induction (js "quorum-shell-") as [|c s IH]; [done|]. cbn. by rewrite N.eqb_refl. Qed.

Lemma match_lookup (name key : jstr) (cs cs' : gmap jstr cache) : cs !! name = cs' !! name -> match_cache name key cs = match_cache name key cs'.
Proof. unfold match_cache. by intros ->. Qed.

(** Between two activations nothing is deleted. *)
Definition is_activate (a : act) : bool := match a with Activate _ => true | _ => false end.
Definition settled (b : browser) : Prop := forall i sh keys, workers b !! i <> Some (sh, Activating keys).

Lemma act_settled a b b' name key : settled b -> is_activate a = false -> act_step a b = Some b' ->
  settled b' /\ active b' = active b /\ (is_Some (match_cache name key (caches b)) -> is_Some (match_cache name key (caches b'))).
Proof.
  intros Hs Hna Ha.
  assert (forall i w b, settled b -> (forall keys, w.2 <> Activating keys) -> settled (set_worker i w b)) as Hset.
  { intros i w b1 Hb Hw j sh keys. cbn. destruct (decide (i = j)) as [<-|?].
    - rewrite lookup_insert_eq. intros [= ->]. by eapply Hw.
    - rewrite lookup_insert_ne by done. apply Hb. }
  destruct a as [i sh|i u net|i|i|i|i]; try done; cbn in Ha; destruct (workers b !! i) as [[sh' ph]|] eqn:Hi; try done.
  - case_bool_decide; injection Ha as <-; (split; [by apply Hset|split; [done|]]); [done|].
    cbn. by rewrite match_open.
  - destruct ph as [todo held| |]; try done. case_bool_decide; [|done]. injection Ha as <-.
    split; [apply Hset; [by destruct held|done]|]. destruct held; (split; [done|]); [|done]. cbn. rewrite match_add.
    intros [r Hr]. destruct net; [|by rewrite Hr]. case_match; [done|by rewrite Hr].
  - destruct ph as [[|] held| |]; try done. injection Ha as <-. split; [by apply Hset|done].
  - destruct ph as [| |keys]; try done. by destruct (Hs i sh' keys).
  - destruct ph as [| |keys]; try done. by destruct (Hs i sh' keys).
Qed.

Lemma run_settled acts b b' name key : settled b -> forallb (fun a => negb (is_activate a)) acts = true -> run acts b = Some b' ->
  active b' = active b /\ (is_Some (match_cache name key (caches b)) -> is_Some (match_cache name key (caches b'))).
Proof.
  revert b. induction acts as [|a acts IH]; intros b Hs; cbn [forallb].
  - intros _ [= <-]. done.
  - intros [Ha%negb_true_iff Hr]%andb_prop. rewrite run_cons. intros (b1 & H1 & H2)%bind_Some.
    destruct (act_settled a b b1 name key Hs Ha H1) as (Hs1 & <- & Hk). destruct (IH b1 Hs1 Hr H2) as [? Hk2]. auto.
Qed.

End Updates.
End Updates.

(** ** Nudges and subscriptions *)

Module NudgeFacts.
Import Worker Subscription.

(** The tag and the line of each nudge. *)
Definition nudge_tag (n : nudge) (g : jstr) : jstr :=
  js (match n with
      | NWelcome => "quorum-welcome-" | NCall => "quorum-call-" | NRally => "quorum-rally-" | NGroup => "quorum-msg-"
      end) ++ g.
Definition nudge_line (n : nudge) : string * string :=
  match n with
  | NWelcome => ("you were added to ", "you were added to a circle")
  | NCall => ("incoming call in ", "incoming call")
  | NRally => ("a rally was started in ", "a rally was started")
  | NGroup => ("new message in ", "new encrypted message")
  end.

Lemma nudge_parsed n g : Forall unit16 g -> nudge_data (Some (stringify (nudge_payload n g))) = VObj [(js (nudge_key n), VStr g)].
Proof.
  intros Hg. unfold nudge_data. assert (jsonable (nudge_payload n g)) as Hj.
  { apply jsonable_obj. split; [apply NoDup_singleton|]. apply Forall_singleton. cbn. split; [|done].
    destruct n; repeat (apply Forall_cons_2; [done|]); constructor. }
  rewrite json_parse_stringify by done. rewrite rebuild_enumerated; [done..|]. cbn. split; [|done]. repeat constructor.
Qed.

Lemma nudge_get n n' g : get (VObj [(js (nudge_key n), VStr g)]) (nudge_key n') = Ok (if bool_decide (n = n') then VStr g else VUndef).
Proof. destruct n, n'; vm_compute; done. Qed.

(** A nudge of the relay is shown under the tag of its kind and circle, and
    only a ring waits to be answered. *)
Lemma nudge_is_shown n g db name : Forall unit16 g -> g <> [] -> circleName db (VStr g) = Ok name ->
  on_push db (Some (stringify (nudge_payload n g))) =
    let* body := named name (nudge_line n).1 (nudge_line n).2 in
    Ok {| n_body := body; n_tag := nudge_tag n g; n_renotify := true;
          n_requireInteraction := bool_decide (n = NCall); n_group := VStr g |}.
Proof.
  intros Hu Hg Hn. unfold on_push. rewrite nudge_parsed by done.
  pose proof (nudge_get n NCall g) as Hc. pose proof (nudge_get n NRally g) as Hr.
  pose proof (nudge_get n NGroup g) as Hm. pose proof (nudge_get n NWelcome g) as Hw.
  unfold nudge_key at 2 in Hc; unfold nudge_key at 2 in Hr; unfold nudge_key at 2 in Hm; unfold nudge_key at 2 in Hw.
  rewrite Hc, Hr, Hm, Hw. destruct g as [|c g]; [done|].
  destruct n; repeat first [rewrite bool_decide_true by done | rewrite bool_decide_false by done];
    cbn -[js named circleName]; rewrite Hn; cbn -[js named]; by destruct (named _ _ _).
Qed.

Lemma nudge_tag_inj n1 n2 g1 g2 : nudge_tag n1 g1 = nudge_tag n2 g2 -> n1 = n2 /\ g1 = g2.
Proof. destruct n1, n2; unfold nudge_tag; intros E; try (by injection E as ->); by injection E. Qed.

Lemma circleName_own g names name : obj_get names g = Some (VStr name) -> circleName (Holds (VObj names)) (VStr g) = Ok (VStr name).
Proof. intros Hn. cbn. unfold prop. by rewrite Hn. Qed.

Lemma open_group_fields g : let data := jobj [("type", VStr (js "open-group")); ("group", VStr g)]%string in
  data.["type"] = VStr (js "open-group") /\ data.["group"] = VStr g.
Proof. split; vm_compute; reflexivity. Qed.

(** The table after a nudge: exactly the dead subscriptions are gone. *)
Lemma lookup_delete_sub user e t u : delete_push_subscription user e t !! u =
  if bool_decide (u = user) then delete e <$> t !! u else t !! u.
Proof.
  unfold delete_push_subscription. destruct (t !! user) as [m|] eqn:E; case_bool_decide as Hu; subst; try done.
  - by rewrite lookup_insert_eq, E.
  - by rewrite lookup_insert_ne.
  - by rewrite E.
Qed.

Lemma push_all_lookup send user body subs t u e :
  fold_left (push_one send user body) subs t !! u ≫= (fun m => m !! e) =
    if bool_decide (u = user) && existsb (fun s => str_eqb s.1 e && match send s.2 body with Gone => true | _ => false end) subs
    then None else t !! u ≫= (fun m => m !! e).
Proof.
  revert t. induction subs as [|[e' json] subs IH]; intros t; cbn [fold_left existsb]; [by rewrite andb_false_r|].
  rewrite IH. unfold push_one. cbn [fst snd]. destruct (send json body); [by rewrite andb_false_r| |by rewrite andb_false_r].
  rewrite lookup_delete_sub, andb_true_r. case_bool_decide as Hu; cbn [andb]; [subst u|done].
  unfold str_eqb. case_bool_decide as He; cbn [orb].
  - subst e'. destruct (existsb _ subs); cbn; [done|]. destruct (t !! user); cbn; [by rewrite lookup_delete_eq|done].
  - destruct (existsb _ subs); cbn; [done|]. destruct (t !! user); cbn; [by rewrite lookup_delete_ne|done].
Qed.

Lemma push_notify_lookup send user payload t u e :
  (push_notify send user payload t).1 !! u ≫= (fun m => m !! e) =
    match t !! u ≫= (fun m => m !! e) with
    | Some json => if bool_decide (u = user) && match send json (stringify payload) with Gone => true | _ => false end
                   then None else Some json
    | None => None
    end.
Proof.
  unfold push_notify. cbn [fst]. rewrite push_all_lookup. unfold push_subscriptions_for.
  case_bool_decide as Hu; cbn [andb]; [subst u|by destruct (t !! u ≫= _)].
  destruct (t !! user) as [m|] eqn:E; cbn [default id mbind option_bind]; [|by case_match].
  destruct (m !! e) as [json|] eqn:Em.
  - apply elem_of_map_to_list in Em as Hin. destruct (existsb _ (map_to_list m)) eqn:Ex.
    + apply existsb_exists in Ex as ([e' json'] & Hin' & [He Hg]%andb_prop). apply str_eqb_eq in He. cbn in He. subst e'.
      apply list_elem_of_In, elem_of_map_to_list in Hin'. rewrite Em in Hin'. injection Hin' as <-. cbn in Hg. by rewrite Hg.
    + destruct (send json (stringify payload)) eqn:Es; try done. exfalso. apply not_true_iff_false in Ex. apply Ex.
      apply existsb_exists. exists (e, json). split; [by apply list_elem_of_In|]. cbn. by rewrite str_eqb_refl, Es.
  - by case_match.
Qed.

Definition endpoint_of (json endpoint : jstr) : Prop := exists v, json_parse json = Ok v /\ v.["endpoint"] = VStr endpoint.

Lemma push_subscribe_ok user json endpoint t : endpoint_of json endpoint ->
  push_subscribe user json t = Some (put_push_subscription user endpoint json t).
Proof. intros (v & Hv & He). unfold push_subscribe. by rewrite Hv, He. Qed.

Lemma put_lookup user e json t : put_push_subscription user e json t !! user ≫= (fun m => m !! e) = Some json.
Proof. unfold put_push_subscription. by rewrite lookup_insert_eq; cbn; rewrite lookup_insert_eq. Qed.

End NudgeFacts.

(** ** What the shell and the nudges promise *)

Module ShellTheorems.
Import Manifest ManifestFacts Worker WorkerFacts Updates Subscription NudgeFacts.
#[local] Arguments CACHE : simpl never.

(** The shell the build chooses does not depend on how the files are listed:
    it is each file of the listing that is kept, once, in order; the worker
    itself, attachments and the index's absence aside. *)
Theorem the_shell_is_the_files_kept paths :
  NoDup (selectShell (Some (VStr <$> paths)))
  /\ StronglySorted (fun a b => str_ltb b a = false) (selectShell (Some (VStr <$> paths)))
  /\ (forall p, p ∈ selectShell (Some (VStr <$> paths)) <->
        p ∈ paths /\ (p = INDEX \/ (starts_with (js "/") p = true /\ keep p = true)))
  /\ js "/sw.js" ∉ selectShell (Some (VStr <$> paths)).
Proof.
  assert (forall p, p ∈ selectShell (Some (VStr <$> paths)) <->
    p ∈ paths /\ (p = INDEX \/ (starts_with (js "/") p = true /\ keep p = true))) as Hin.
  { intros p. rewrite elem_of_selectShell. unfold chosen. rewrite !list_elem_of_fmap. split.
    - intros [[(v & Hp & (q & -> & Hq)%list_elem_of_fmap) Hk]|[-> (q & [= <-] & Hq)]]; [|auto].
      cbn [rooted] in Hp. destruct (starts_with (js "/") q) eqn:Hs; [|done]. injection Hp as ->. auto.
    - intros [Hp [->|[Hs Hk]]]; [right; eauto|]. left. split; [|done]. exists (VStr p). cbn [rooted]. rewrite Hs.
      split; [done|]. apply list_elem_of_fmap. eauto. }
  split; [|split; [apply sort_strings_sorted|split; [done|]]].
  - unfold selectShell. rewrite sorted_perm. apply NoDup_uniq.
  - rewrite Hin. intros [_ [?|[_ Hk]]]; [done|]. by vm_compute in Hk.
Qed.

(** What [SHELL] is in the worker that is served: the build stamps the list
    into the script's literal, and the script reads the same list back. *)
Theorem the_worker_reads_its_shell paths content digest pre post :
  let sw := pre ++ [39%N] ++ PLACEHOLDER ++ [39%N] ++ post in
  let assets := selectShell (Some (VStr <$> paths)) in
  let v := shellVersion (Some ((fun p => (p, content p)) <$> assets)) digest in
  INDEX ∈ paths -> Forall plain_text paths -> plain_text v -> index_of PLACEHOLDER sw = Some (length (pre ++ [39%N])) ->
  exists out text, inject_precache paths content digest sw = Ok (pre ++ [39%N] ++ out)
    /\ literal out = Some (text, post)
    /\ SHELL text = Ok (manifest v assets).
Proof.
  intros sw assets v Hi Hp Hv Hsw. assert (INDEX ∈ assets) as Hin.
  { apply elem_of_selectShell. right. split; [done|]. apply list_elem_of_fmap. eauto. }
  assert (Forall plain_text assets) as Ha.
  { apply Forall_forall. intros p Hpa. apply elem_of_selectShell in Hpa as [[Hpa _]|[-> _]].
    - apply list_elem_of_fmap in Hpa as (w & Hr & (q & -> & Hq)%list_elem_of_fmap). cbn [rooted] in Hr.
      destruct (starts_with _ q); [|done]. injection Hr as ->. by apply (Forall_forall plain_text paths).
    - by apply (Forall_forall plain_text paths). }
  destruct (stamped_manifest (pre ++ [39%N]) PLACEHOLDER ([39%N] ++ post) v assets post Hv Ha) as [Hl Hs].
  eexists (substitution _ _ _ _ ++ 39%N :: post), _. split; [|split; [exact Hl|exact Hs]].
  unfold inject_precache. fold assets. rewrite bool_decide_false by (intros E; rewrite E in Hin; by apply not_elem_of_nil in Hin).
  rewrite bool_decide_true by done. cbn [negb]. fold v.
  assert (str_includes PLACEHOLDER sw = true) as -> by (unfold str_includes; rewrite Hsw; by apply bool_decide_true).
  cbn [negb]. unfold replace_first. rewrite Hsw. f_equal.
  assert (sw = (pre ++ [39%N]) ++ PLACEHOLDER ++ [39%N] ++ post) as Hsplit by apply app_assoc.
  rewrite Hsplit, take_app_length, <- drop_drop, drop_app_length, drop_app_length. symmetry. apply app_assoc.
Qed.

(** A request of the page: same origin, [GET]. *)
Definition asks (origin path query how : jstr) : request :=
  {| method := js "GET"; mode := how; url := Some {| l_origin := origin; pathname := path; search := query |} |}.

Section Served.
Context `{Urls}.

(** C34: An update that no other worker is at work beside, and whose files all
    arrive (in whatever order), leaves a shell that opens without the network:
    every navigation of the site is answered with the index page it stored, and
    every file of its list with the file it stored; every older shell is dropped
    and no cache of another kind is touched.  The list has the index page, and
    names each file once and as the browser does.  (Beside another worker it is
    not so: [a_second_deploy_empties_the_shell].) *)
Theorem an_update_opens_offline i b sh ps net origin :
  idle b -> NoDup (assets sh) -> ps ≡ₚ assets sh -> js "/index.html" ∈ assets sh ->
  Forall (fun p => href p = p) (assets sh) ->
  (forall p, p ∈ assets sh -> exists r, net p = Some r /\ ok r = true) ->
  exists n b', run (update i sh net ps n) b = Some b' /\ active b' = Some sh
    /\ (forall fetch path query, fetch (asks origin path query (js "navigate")) = None ->
          respond origin b' fetch (asks origin path query (js "navigate")) = Reply (net (js "/index.html")))
    /\ (forall fetch p how, p ∈ assets sh -> how <> js "navigate" ->
          respond origin b' fetch (asks origin p [] how) = Reply (net p))
    /\ (forall name, stale sh name = true -> caches b' !! name = None)
    /\ (forall name, is_shell_cache name = false -> caches b' !! name = caches b !! name).
Proof.
  intros Hb Hn Hp Hin Hh Hnet. assert (assets sh <> []) as Hne by (intros E; rewrite E in Hin; set_solver).
  destruct (run_update i sh net ps b Hb Hn Hp Hne) as (n & b' & Hr & Ha & _ & Hc).
  assert (forall p, p ∈ assets sh -> match_cache (CACHE sh) p (caches b') = net p) as Hm.
  { intros p Hpa. erewrite match_lookup; [|rewrite Hc, own_cache_is_kept; reflexivity].
    rewrite match_add_all by by rewrite Hp. rewrite bool_decide_true by by rewrite Hp.
    destruct (Hnet p Hpa) as (r & -> & Hok). unfold good. cbn. by rewrite Hok. }
  exists n, b'. split; [done|split; [done|]].
  assert (href (js "/index.html") = js "/index.html") as Hhi by by apply (proj1 (Forall_forall _ _) Hh).
  assert (forall p q how f, respond origin b' f (asks origin p q how) =
    if str_eqb how (js "navigate") then Reply (match f (asks origin p q how) with Some r => Some r | None => net (js "/index.html") end)
    else if negb (bool_decide (p ∈ assets sh)) then Pass
    else Reply (match match_cache (CACHE sh) (p ++ q) (caches b') with Some hit => Some hit | None => f (asks origin p q how) end)) as Hresp.
  { intros p q how f. unfold respond, on_fetch, asks. rewrite Ha. cbn [method mode url l_origin pathname search].
    rewrite str_eqb_refl, bool_decide_false, str_eqb_refl by done. cbn [negb orb]. by rewrite Hhi, Hm. }
  split; [|split; [|split]].
  - intros f p q Hf. rewrite Hresp, str_eqb_refl, Hf. done.
  - intros f p how Hpa Hhow. rewrite Hresp, (proj2 (str_eqb_neq how _)) by done. rewrite bool_decide_true by done. cbn [negb].
    rewrite app_nil_r, Hm by done. by destruct (Hnet p Hpa) as (r & -> & _).
  - intros name Hs. by rewrite Hc, Hs.
  - intros name Hs. assert (name <> CACHE sh) as Hne'.
    { intros ->. by rewrite cache_is_shell_cache in Hs. }
    rewrite Hc. unfold stale. rewrite Hs. cbn [andb]. rewrite lookup_add_all by done.
    unfold open_cache. by rewrite lookup_insert_ne.
Qed.

(** From then on, whatever else installs and however it ends, the shell is
    there until another worker activates. *)
Theorem the_shell_stays acts b b' sh origin fetch p :
  settled b -> forallb (fun a => negb (is_activate a)) acts = true -> run acts b = Some b' ->
  active b = Some sh -> p ∈ assets sh -> is_Some (match_cache (CACHE sh) p (caches b)) ->
  exists r, respond origin b' fetch (asks origin p [] (js "no-cors")) = Reply (Some r)
    /\ match_cache (CACHE sh) p (caches b') = Some r.
Proof.
  intros Hs Ha Hr Hact Hp Hm. destruct (run_settled acts b b' (CACHE sh) p Hs Ha Hr) as [Hact' Hm'].
  destruct (Hm' Hm) as [r Hr']. exists r. split; [|done].
  unfold respond, on_fetch, asks. rewrite Hact', Hact. cbn [method mode url l_origin pathname search].
  rewrite str_eqb_refl, bool_decide_false, str_eqb_refl by (intros E; rewrite E in Hp; set_solver). cbn [negb orb].
  replace (str_eqb (js "no-cors") (js "navigate")) with false by done. rewrite bool_decide_true by done. cbn [negb].
  unfold url_key. cbn [pathname search]. by rewrite app_nil_r, Hr'.
Qed.

(** Nothing enters a cache but by an install: what is answered without the
    network was the network's answer, for that very file, to an install of
    that very version. *)
Theorem what_is_served_was_installed acts b b' sh origin fetch p how r :
  idle b -> run acts b = Some b' -> active b' = Some sh -> how <> js "navigate" -> Forall (fun p => href p = p) (assets sh) ->
  (forall q, fetch q = None) -> match_cache (CACHE sh) p (caches b) = None ->
  respond origin b' fetch (asks origin p [] how) = Reply (Some r) ->
  exists i sh' url, Install i sh' ∈ acts /\ Add i url (Some r) ∈ acts /\ version sh' = version sh /\ href url = p /\ ok r = true.
Proof.
  intros Hb Hr Ha Hhow Hh Hf Hm. unfold respond, on_fetch, asks. rewrite Ha. cbn [method mode url l_origin pathname search].
  rewrite str_eqb_refl. cbn [negb orb]. case_bool_decide; [done|]. rewrite str_eqb_refl, (proj2 (str_eqb_neq how _)) by done. cbn [negb].
  case_bool_decide as Hp; [|done]. cbn [negb]. unfold url_key. cbn [pathname search]. rewrite app_nil_r, Hf.
  destruct (match_cache (CACHE sh) p (caches b')) as [hit|] eqn:E; [|done]. intros [= ->].
  destruct (cached_at_install acts b b' _ _ _ Hb Hr E) as [Hold|(i & sh' & u & Hadd & Hi & _ & Hn & Hk & Hok)].
  - unfold holds in Hold. by rewrite Hm in Hold.
  - exists i, sh', u. repeat split; try done. unfold CACHE in Hn. by apply app_inv_head in Hn.
Qed.

(** An update that loses the network still takes over, and drops the shell
    that worked: the app no longer opens. *)
Theorem an_interrupted_update_loses_the_shell i b sh old origin :
  idle b -> NoDup (assets sh) -> assets sh <> [] -> CACHE old <> CACHE sh -> caches b !! CACHE sh = None ->
  exists n b', run (update i sh (fun _ => None) (assets sh) n) b = Some b' /\ active b' = Some sh
    /\ caches b' !! CACHE old = None
    /\ forall fetch path query, fetch (asks origin path query (js "navigate")) = None ->
         respond origin b' fetch (asks origin path query (js "navigate")) = Reply None.
Proof.
  intros Hb Hn Hne Hold Hnone.
  destruct (run_update i sh (fun _ => None) (assets sh) b Hb Hn (reflexivity _) Hne) as (n & b' & Hr & Ha & _ & Hc).
  assert (forall ps cs, add_all (CACHE sh) (fun _ => None) ps cs = cs) as Hadd.
  { intros ps. induction ps as [|p ps IH]; intros cs; [done|]. apply IH. }
  exists n, b'. split; [done|split; [done|split]].
  - rewrite Hc. unfold stale. by rewrite cache_is_shell_cache, (proj2 (str_eqb_neq _ _)).
  - intros f p q Hf. unfold respond, on_fetch. rewrite Ha. unfold asks in *. cbn [method mode url l_origin pathname search].
    rewrite str_eqb_refl, bool_decide_false, str_eqb_refl by done. cbn [negb orb]. rewrite str_eqb_refl, Hf.
    erewrite match_lookup; [|rewrite Hc, own_cache_is_kept, Hadd; reflexivity].
    rewrite match_open. unfold match_cache. by rewrite Hnone.
Qed.

End Served.

(** C33: A nudge of the relay about a circle, over any cache of names: it is shown,
    with the circle's name when the cache has one and else with the line of its
    kind that names none (a welcome to a circle this device does not know yet),
    under a tag no other kind or circle has.  A tap with a window of the app open
    brings that window forward and selects the circle there, if the page has it;
    a circle the page does not have is not selected. *)
Theorem a_nudge_leads_to_its_circle n g names name servers window windows :
  Forall unit16 g -> g <> [] -> circleName (Holds (VObj names)) (VStr g) = Ok (from_option VStr VNull name) -> name <> Some [] ->
  exists shown, on_push (Holds (VObj names)) (Some (stringify (nudge_payload n g))) = Ok shown
    /\ n_body shown = match name with Some name => js (nudge_line n).1 ++ js "“" ++ name ++ js "”" | None => js (nudge_line n).2 end
    /\ (forall n' g' shown', Forall unit16 g' -> g' <> [] ->
          on_push (Holds (VObj names)) (Some (stringify (nudge_payload n' g'))) = Ok shown' ->
          n_tag shown' = n_tag shown -> n' = n /\ g' = g)
    /\ exists data, on_click (n_group shown) (window :: windows) = [PostMessage window data; Focus window]
         /\ on_message data servers = if bool_decide (g ∈ servers) then Some g else None.
Proof.
  intros Hu Hg Hc Hname. rewrite (nudge_is_shown n g _ _ Hu Hg Hc).
  assert (named (from_option VStr VNull name) (nudge_line n).1 (nudge_line n).2 =
    Ok (match name with Some name => js (nudge_line n).1 ++ js "“" ++ name ++ js "”" | None => js (nudge_line n).2 end)) as ->.
  { by destruct name as [[|c name]|]. }
  eexists. split; [reflexivity|]. split; [done|split].
  - intros n' g' shown' Hu' Hg' Hp. cbn [n_tag].
    assert (exists name', circleName (Holds (VObj names)) (VStr g') = Ok name') as [name' Hc'] by (cbn; eauto).
    rewrite (nudge_is_shown n' g' _ _ Hu' Hg' Hc') in Hp. apply rbind_Ok in Hp as (body & _ & [= <-]). apply nudge_tag_inj.
  - destruct g as [|x g]; [done|]. exists (jobj [("type", VStr (js "open-group")); ("group", VStr (x :: g))]%string).
    split; [reflexivity|]. unfold on_message.
    destruct (open_group_fields (x :: g)) as [-> ->]. cbn [nullish jobj negb andb]. unfold strict_eq. by rewrite str_eqb_refl.
Qed.

(** With no window open the circle is forgotten: the app opens where it
    opens. *)
Lemma a_tap_on_a_closed_app_forgets_the_circle g : on_click g [] = [OpenWindow (js "/")].
Proof. done. Qed.

(** Turning notifications on again after the relay's key changed drops the
    dead subscription and leaves the relay one that it can reach. *)
Theorem a_rotated_key_heals w user p t info key appKey json endpoint :
  registers w = true -> permission w = js "granted" -> unsubscribes w = true ->
  push_info w = Ok info -> get info "pubkey" = Ok (VStr key) -> b64url_dec key = Ok appKey ->
  service w appKey = Some json -> endpoint_of json endpoint ->
  (forall s, pushed p = Some s -> s_key s <> appKey) ->
  exists p' t', enableNotifications w user p t = (p', t', Ok true)
    /\ pushed p' = Some {| s_key := appKey; s_json := json |}
    /\ t' !! user ≫= (fun m => m !! endpoint) = Some json.
Proof.
  intros Hr Hp Hu Hi Hg Hk Hs He Hold. unfold enableNotifications.
  set (p1 := if swReg p then p else setupServiceWorker w p).
  assert (swReg p1 = true /\ pushed p1 = pushed p) as [Hsw Hpu].
  { unfold p1, setupServiceWorker. destruct (swReg p) eqn:E; [done|]. by rewrite Hr. }
  rewrite Hsw, Hp, str_eqb_refl, Hi. cbn [negb rbind]. rewrite Hg. cbn [rbind]. rewrite Hk.
  assert (exists p2, get_subscription w appKey p1 = (p2, Ok {| s_key := appKey; s_json := json |})
    /\ pushed p2 = Some {| s_key := appKey; s_json := json |}) as (p2 & -> & Hp2).
  { unfold get_subscription, subscribe at 1. rewrite Hpu. destruct (pushed p) as [s|] eqn:E.
    - rewrite bool_decide_false by by apply Hold. rewrite Hpu. unfold unsubscribe, subscribe. rewrite Hu. cbn [pushed]. rewrite Hs. eauto.
    - rewrite Hs. eauto. }
  cbn [s_json]. rewrite (push_subscribe_ok user json endpoint t He). eexists _, _. split; [done|split; [done|]]. apply put_lookup.
Qed.

(** A round of nudges forgets the subscriptions the push service says are
    gone, and no other. *)
Theorem only_dead_subscriptions_are_dropped send user payload t u e json :
  t !! u ≫= (fun m => m !! e) = Some json ->
  ((push_notify send user payload t).1 !! u ≫= (fun m => m !! e) = None
     <-> u = user /\ send json (stringify payload) = Gone)
  /\ (u = user -> (json, stringify payload) ∈ (push_notify send user payload t).2).
Proof.
  intros Ht. rewrite push_notify_lookup, Ht. split.
  - case_bool_decide; cbn [andb]; destruct (send json (stringify payload)); naive_solver.
  - intros ->. unfold push_notify. cbn [snd]. apply list_elem_of_fmap. exists (e, json). split; [done|].
    apply elem_of_map_to_list. unfold push_subscriptions_for. by destruct (t !! user).
Qed.

(** The ask is not repeated once it was answered, where the store keeps it. *)
Lemma asked_once st p : shouldPromptNotifications true p (notifAlreadyPrompted (markNotifPrompted (Some st))) = false.
Proof. unfold markNotifPrompted, notifAlreadyPrompted. cbn [fmap option_fmap option_map]. by rewrite obj_get_map_set, str_eqb_refl. Qed.

End ShellTheorems.

(** ** Examples *)

Module ShellExamples.
Import Manifest ManifestFacts Worker WorkerFacts Updates Subscription NudgeFacts ShellTheorems.

(** Paths that are their own serialization. *)
#[local] Instance plain_urls : Urls := {| href := fun p => p |}.

Definition site : jstr := js "https://quorum.example".
Definition entry : jstr := js "/index.html".
Definition chunk : jstr := js "/assets/a1.js".
Definition first_build : shell := {| version := js "1111"; assets := [chunk; entry] |}.
Definition second_build : shell := {| version := js "2222"; assets := [chunk; entry] |}.
Definition page_of (n : N) : response := {| ok := true; body := [n] |}.
Definition online (n : N) (p : jstr) : option response := Some (page_of n).
Definition offline (q : request) : option response := None.
Definition other_cache : jstr := js "game-saves".
Definition new_browser : browser := {| caches := {[other_cache := ∅]}; workers := ∅; active := None |}.
Definition go_to : request := asks site (js "/") [] (js "navigate").

Lemma an_update_opens_offline_witness :
  match run (update 0 first_build (online 1) (assets first_build) 0) new_browser with
  | Some b => exists n b', run (update 1 second_build (online 2) [entry; chunk] n) b = Some b'
      /\ respond site b' offline go_to = Reply (Some (page_of 2))
      /\ caches b' !! CACHE first_build = None /\ caches b' !! other_cache = Some ∅
  | None => False
  end.
Proof.
  destruct (run (update 0 first_build (online 1) (assets first_build) 0) new_browser) as [b|] eqn:E; [|by vm_compute in E].
  vm_compute in E. injection E as <-.
  match goal with |- exists n b', run _ ?b = _ /\ _ =>
    destruct (an_update_opens_offline 1 b second_build [entry; chunk] (online 2) site) as (n & b' & H1 & _ & H2 & _ & H3 & H4) end;
    [done | by apply (bool_decide_unpack (NoDup _)) | by apply Permutation_swap | set_solver | by repeat constructor
    | intros p _; by exists (page_of 2) |].
  exists n, b'. split; [exact H1|split; [by apply H2|split; [by apply H3|by rewrite H4]]].
Defined.

(** The wireless is lost between the script and its files. *)
Example an_update_on_a_train :
  (run (update 0 first_build (online 1) (assets first_build) 0) new_browser ≫= fun b =>
   Some (respond site b offline go_to,
     (fun b' => respond site b' offline go_to) <$>
       run (update 1 second_build (fun _ => None) (assets second_build) 1) b))
  = Some (Reply (Some (page_of 1)), Some (Reply None)).
Proof. vm_compute. reflexivity. Qed.

(** A second deploy while the first one activates: the worker that activates
    deletes the cache the next one is filling, which then takes over with
    nothing. *)
Definition third_build : shell := {| version := js "3333"; assets := [chunk; entry] |}.
Definition two_deploys : list act :=
  [Install 1 second_build; Add 1 chunk (online 2 chunk); Add 1 entry (online 2 entry); Ready 1;
   Install 2 third_build; Activate 1; Delete 1; Claim 1;
   Add 2 chunk (online 3 chunk); Add 2 entry (online 3 entry); Ready 2; Activate 2; Delete 2; Claim 2].

Lemma a_second_deploy_empties_the_shell :
  (fun b => (active b, respond site b offline go_to, (map_to_list (caches b)).*1)) <$> run two_deploys new_browser
    = Some (Some third_build, Reply None, [other_cache]).
Proof. vm_compute. reflexivity. Qed.

(** A dollar in a file name is rewritten by [String.replace]. *)
Lemma a_dollar_is_lost :
  literal (substitution [] PLACEHOLDER [] (quoted (stringify (manifest (js "1") [js "/assets/a$$b.js"]))) ++ [39%N])
    = Some (stringify (manifest (js "1") [js "/assets/a$b.js"]), []).
Proof. vm_compute. reflexivity. Qed.

Definition circle : jstr := js "c1".
Definition book : list (jstr * val) := [(circle, VStr (js "Lantern"))].

Lemma a_nudge_leads_to_its_circle_witness :
  exists shown, on_push (Holds (VObj book)) (Some (stringify (nudge_payload NCall circle))) = Ok shown
    /\ n_body shown = js "incoming call in " ++ js "“" ++ js "Lantern" ++ js "”"
    /\ exists data, on_click (n_group shown) [7%nat] = [PostMessage 7 data; Focus 7] /\ on_message data [circle] = Some circle.
Proof.
  destruct (a_nudge_leads_to_its_circle NCall circle book (Some (js "Lantern")) [circle] 7 []) as (shown & H1 & H2 & _ & H3).
  - repeat constructor.
  - done.
  - vm_compute. reflexivity.
  - done.
  - exists shown. split; [exact H1|split; [exact H2|exact H3]].
Defined.

Definition listing : list jstr := [js "/sw.js"; js "/index.html"; js "/assets/b.js"; js "/assets/a.js"; js "/readme.md"].

Lemma the_worker_reads_its_shell_witness :
  exists out text, inject_precache listing (fun _ => js "0") (fun _ => js "abcd") (js "const S = '__SHELL_MANIFEST__';")
      = Ok (js "const S = " ++ [39%N] ++ out)
    /\ literal out = Some (text, js ";")
    /\ SHELL text = Ok (manifest (js "abcd") [js "/assets/a.js"; js "/assets/b.js"; js "/index.html"]).
Proof.
  refine (the_worker_reads_its_shell listing (fun _ => js "0") (fun _ => js "abcd") (js "const S = ") (js ";") _ _ _ _).
  - set_solver.
  - repeat (apply Forall_cons_2; [split; [set_solver|repeat constructor]|]). constructor.
  - split; [set_solver|repeat constructor].
  - vm_compute. reflexivity.
Defined.

End ShellExamples.
