(* ===== verification/Marks.v ===== *)
(** * Marks and themes (client/src/lib/crest.js, client/src/lib/avatar.js,
      client/src/lib/theme.js, client/src/lib/viewTransition.js)

    What a circle and a member look like is computed from their names: 32-bit
    hashes and a pseudo-random generator on machine words, then arithmetic on
    doubles.  The functions of [Math] that a standard leaves to the engine
    ([cos], [sin], powers) are a class.  The glyphs of a circle are in
    Overview.v. *)

From stdpp Require Import base list numbers option strings.
From Stdlib Require Import ZArith NArith Lia.
From S2P Require Import Prelude JsNum JsString JsValue.
Open Scope Z_scope.
Open Scope js_scope.

Module Marks.

(** ** 32-bit integers *)

Definition u32 (x : Z) : Z := x mod 2 ^ 32.
Definition i32 (x : Z) : Z := (x + 2 ^ 31) mod 2 ^ 32 - 2 ^ 31.

Definition xor (a b : Z) : Z := i32 (Z.lxor (i32 a) (i32 b)).
Definition or_ (a b : Z) : Z := i32 (Z.lor (i32 a) (i32 b)).
Definition ushr (a n : Z) : Z := Z.shiftr (u32 a) n.
Definition imul (a b : Z) : Z := i32 (a * b).

Definition fnv1a (str : jstr) : Z :=
  u32 (fold_left (fun h c => imul (xor h (Z.of_N c)) 0x01000193) str 0x811c9dc5).

(** The generator keeps one word; a draw is in [0, 1). *)
Definition prng (seed : Z) : Z := if seed =? 0 then 1 else seed.
Definition draw (a : Z) : num * Z :=
  let a := imul (xor a (ushr a 15)) (or_ a 1) in
  let a := xor a (a + imul (xor a (ushr a 7)) (or_ a 61)) in
  (ndiv (int (ushr (xor a (ushr a 14)) 0)) (int 4294967296), a).

(** Programs that draw. *)
Definition drawing (A : Type) : Type := Z -> A * Z.
Definition yields {A} (x : A) : drawing A := fun a => (x, a).
Definition drawn {A B} (m : drawing A) (k : A -> drawing B) : drawing B := fun a => let '(x, a) := m a in k x a.
#[local] Notation "'draw*' x ':=' m 'in' k" := (drawn m (fun x => k)) (at level 200, x name, m at level 100, k at level 200).

(** A decimal literal. *)
Definition lit (s : string) : num := string_to_num (js s).
#[local] Infix "+ₙ" := nadd (at level 50).
#[local] Infix "-ₙ" := nsub (at level 50).
#[local] Infix "*ₙ" := nmul (at level 40).
#[local] Infix "/ₙ" := ndiv (at level 40).

(** [low + r() * span]. *)
Definition in_span (low span : string) : drawing num := draw* r := draw in yields (lit low +ₙ r *ₙ lit span).

(** [+x.toFixed(d)] for a number that is not negative and below 10^21. *)
Definition fixed (d : Z) (x : num) : num :=
  match x with
  | Fin z => int ((2 * z * 10 ^ d + scale) / (2 * scale)) /ₙ int (10 ^ d)
  | _ => x
  end.

(** ** A circle's colours *)

Definition SAFE_LO : num := int 15.
Definition SAFE_HI : num := int 295.
Definition STOPS : Z := 10.

Definition clampHue (h : num) : num := nmin SAFE_HI (nmax SAFE_LO h).

Definition hsl (h s l : num) : jstr :=
  js "hsl(" ++ num_to_string (nround (clampHue h)) ++ js " " ++ num_to_string (nround s) ++ js "% "
    ++ num_to_string (nround l) ++ js "%)".

Definition hue_of_stop (k : Z) : num :=
  let step := (SAFE_HI -ₙ SAFE_LO) /ₙ int (STOPS - 1) in nround (SAFE_LO +ₙ int k *ₙ step).

Definition idHue (id : jstr) : num := hue_of_stop (fnv1a id mod STOPS).

Record stop := { s_offset : num; s_color : jstr }.
Record crest := {
  cr_hue : num; cr_radial : bool; cr_angle : option Z;
  cr_fx : num; cr_fy : num; cr_stops : list stop; cr_sheenX : num; cr_sheenY : num; cr_sheen : num;
}.

Definition crestParams (id : jstr) : crest :=
  let seed := fnv1a id in
  let hue := idHue id in
  fst ((draw* spread := in_span "26" "66" in
        draw* d := draw in
        let dir := if d <ₙ lit "0.5" then int (-1) else int 1 in
        draw* s1 := in_span "52" "8" in draw* l1 := in_span "30" "7" in
        let deep := hsl hue s1 l1 in
        draw* s2 := in_span "58" "9" in draw* l2 := in_span "45" "7" in
        let mid := hsl (hue +ₙ dir *ₙ spread) s2 l2 in
        draw* s3 := in_span "50" "9" in draw* l3 := in_span "58" "8" in
        let lift := hsl (hue -ₙ dir *ₙ spread *ₙ lit "0.45") s3 l3 in
        draw* r := draw in
        let radial := r <ₙ lit "0.45" in
        draw* a := draw in
        let angle := match nfloor (a *ₙ int 5) with
                     | Fin z => [135; 155; 115; 90; 170] !! Z.to_nat (z / scale)
                     | _ => None
                     end in
        draw* fx := in_span "0.28" "0.3" in draw* fy := in_span "0.24" "0.3" in
        draw* o := in_span "0.52" "0.1" in
        draw* sx := in_span "0.2" "0.4" in draw* sy := in_span "0.14" "0.3" in
        draw* sh := in_span "0.16" "0.16" in
        yields {| cr_hue := hue; cr_radial := radial; cr_angle := angle;
                  cr_fx := fixed 3 fx; cr_fy := fixed 3 fy;
                  cr_stops := [ {| s_offset := Fin 0; s_color := lift |};
                                {| s_offset := o; s_color := mid |};
                                {| s_offset := int 1; s_color := deep |} ];
                  cr_sheenX := fixed 3 sx; cr_sheenY := fixed 3 sy; cr_sheen := sh |}) (prng seed)).

(** ** The tile *)

(** What the engine computes its own way. *)
Class Math := { cos : num -> num; sin : num -> num; pow : num -> num -> num; PI : num }.

Definition TILE_LUMINANCE : num := lit "0.16".
Definition TILE_SATURATION : num := int 55.

Definition nabs (a : num) : num := match a with Fin z => Fin (Z.abs z) | Inf _ => Inf false | NaN => NaN end.

Section Tile.
Context `{Math}.

Definition hslLuminance (h s l : num) : num :=
  let S := s /ₙ int 100 in
  let L := l /ₙ int 100 in
  let c := (int 1 -ₙ nabs (int 2 *ₙ L -ₙ int 1)) *ₙ S in
  let x := c *ₙ (int 1 -ₙ nabs (nrem (h /ₙ int 60) (int 2) -ₙ int 1)) in
  let m := L -ₙ c /ₙ int 2 in
  let '(r, g, b) :=
    if h <ₙ int 60 then (c, x, Fin 0)
    else if h <ₙ int 120 then (x, c, Fin 0)
    else if h <ₙ int 180 then (Fin 0, c, x)
    else if h <ₙ int 240 then (Fin 0, x, c)
    else if h <ₙ int 300 then (x, Fin 0, c)
    else (c, Fin 0, x) in
  let channel v :=
    let u := v +ₙ m in
    if u <=ₙ lit "0.04045" then u /ₙ lit "12.92" else pow ((u +ₙ lit "0.055") /ₙ lit "1.055") (lit "2.4") in
  lit "0.2126" *ₙ channel r +ₙ lit "0.7152" *ₙ channel g +ₙ lit "0.0722" *ₙ channel b.

(** The bisection of [circleFill]: what is left of the interval after [n]
    halvings. *)
Fixpoint bisect (n : nat) (h lo hi : num) : num * num :=
  match n with
  | O => (lo, hi)
  | S n =>
      let mid := (lo +ₙ hi) /ₙ int 2 in
      if hslLuminance h TILE_SATURATION mid <ₙ TILE_LUMINANCE then bisect n h mid hi else bisect n h lo mid
  end.

(** The lightness before it is printed with two decimals. *)
Definition circleLightness (id : jstr) : num :=
  let left_over := bisect 24 (idHue id) (Fin 0) (int 100) in (left_over.1 +ₙ left_over.2) /ₙ int 2.

(** ** A member's orb *)

Definition orb_hsl (h s l : num) : jstr :=
  js "hsl(" ++ num_to_string (nround (nrem (h +ₙ int 360) (int 360))) ++ js " " ++ num_to_string (nround s) ++ js "% "
    ++ num_to_string (nround l) ++ js "%)".

(** [name ?? '?'] as a string. *)
Definition handle_text (name : val) : res jstr := to_string (name ⁇ VStr (js "?")).

Definition nameHue (name : val) : res Z := let* s := handle_text name in Ok (fnv1a s mod 360).

(** A blob before its numbers are cut to one decimal. *)
Record blob := { bl_x : num; bl_y : num; bl_r : num; bl_color : jstr }.

Definition make_blob (color : jstr) (radius : num) : drawing blob :=
  draw* r1 := draw in
  let a := r1 *ₙ PI *ₙ int 2 in
  draw* d := in_span "4" "11" in
  yields {| bl_x := int 20 +ₙ cos a *ₙ d; bl_y := int 20 +ₙ sin a *ₙ d; bl_r := radius; bl_color := color |}.

Record orb := { ob_hue : Z; ob_base : jstr; ob_blobs : list blob }.

Definition orbParams (name : val) : res orb :=
  let* s := handle_text name in
  let seed := fnv1a s in
  let hue := int (seed mod 360) in
  Ok (fst ((draw* f := draw in
            let flip := if f <ₙ lit "0.5" then int (-1) else int 1 in
            let base := orb_hsl hue (int 72) (int 58) in
            draw* c1 := in_span "24" "22" in
            let companion := orb_hsl (hue +ₙ flip *ₙ c1) (int 80) (int 66) in
            draw* c2 := in_span "110" "70" in
            let contrast := orb_hsl (hue +ₙ flip *ₙ c2) (int 68) (int 62) in
            draw* c3 := in_span "18" "14" in
            let highlight := orb_hsl (hue -ₙ flip *ₙ c3) (int 62) (int 80) in
            draw* r1 := in_span "13" "5" in draw* b1 := make_blob companion r1 in
            draw* r2 := in_span "11" "5" in draw* b2 := make_blob contrast r2 in
            draw* r3 := in_span "7" "4" in draw* b3 := make_blob highlight r3 in
            yields {| ob_hue := seed mod 360; ob_base := base; ob_blobs := [b1; b2; b3] |}) (prng seed))).

End Tile.

(** ** The name of a row while it moves (viewTransition.js) *)

Definition ident_char (c : N) : bool :=
  (N.leb 97 c && N.leb c 122) || (N.leb 65 c && N.leb c 90) || (N.leb 48 c && N.leb c 57).

(** [raw.replace(/[^a-zA-Z0-9]+/g, '-')]. *)
Fixpoint collapse (in_run : bool) (s : jstr) : jstr :=
  match s with
  | [] => []
  | c :: r =>
      if ident_char c then c :: collapse false r
      else if in_run then collapse true r else 45%N :: collapse true r
  end.

Definition handle_tag (raw : jstr) : Z := u32 (fold_left (fun h c => i32 (imul 31 h + Z.of_N c)) raw 0).

Definition memberVtName (raw : jstr) : jstr := js "vt-m-" ++ collapse false raw ++ js "-" ++ digits 36 (handle_tag raw).

(** ** The theme *)

Definition STORAGE_KEY : jstr := js "quorum-theme".

(** A store that is there and does not throw, or none. *)
Definition store := option (list (jstr * jstr)).

Definition readPref (storage : store) : option jstr :=
  match storage ≫= (fun st => obj_get st STORAGE_KEY) with
  | Some v =>
      if str_eqb v (js "paper") || str_eqb v (js "vellum") then Some (js "paper")
      else if str_eqb v (js "carbon") then Some (js "carbon")
      else None
  | None => None
  end.

(** [false] and nothing written where the store throws. *)
Definition writePref (pref : option jstr) (storage : store) : store * bool :=
  match storage with
  | Some st =>
      (Some (match pref with
             | None => obj_delete st STORAGE_KEY
             | Some p => map_set st STORAGE_KEY p
             end), true)
  | None => (None, false)
  end.

Definition resolveTheme (pref : option jstr) (prefersLight : bool) : jstr :=
  match pref with
  | Some p =>
      if str_eqb p (js "paper") || str_eqb p (js "carbon") then p
      else if prefersLight then js "paper" else js "carbon"
  | None => if prefersLight then js "paper" else js "carbon"
  end.

(** [prefersLight]: the media query, where there is one. *)
Definition prefersLight (matches : option bool) : bool := default false matches.

End Marks.

Module MarkFacts.
Import Marks.

(** The toggle of the page (App.jsx). *)
Definition toggleTheme (pref : option jstr) (systemLight : bool) : option jstr :=
  Some (if str_eqb (resolveTheme pref systemLight) (js "paper") then js "carbon" else js "paper").

Lemma u32_range x : 0 <= u32 x < 2 ^ 32.
Proof. unfold u32. apply Z.mod_pos_bound. lia. Qed.

Lemma u32_id x : 0 <= x < 2 ^ 32 -> u32 x = x.
Proof. intros ?. unfold u32. by apply Z.mod_small. Qed.

Lemma ushr_range a n : 0 <= n -> 0 <= ushr a n < 2 ^ 32.
Proof.
  intros Hn. unfold ushr. rewrite Z.shiftr_div_pow2 by done. pose proof (u32_range a).
  assert (0 < 2 ^ n) by (apply Z.pow_pos_nonneg; lia). split; [apply Z.div_pos; lia|].
  apply Z.div_lt_upper_bound; nia.
Qed.

(** A product with a power of two that fits is not changed by rounding. *)
Lemma round_rat_exact m e q : 0 <= m < 2 ^ 53 -> 0 <= e <= 2000 -> 0 < q -> round_rat (m * 2 ^ e * q) q = Fin (m * 2 ^ e).
Proof.
  intros Hm He Hq. assert (0 < 2 ^ e) by (apply Z.pow_pos_nonneg; lia). unfold round_rat.
  rewrite Z.abs_eq by nia. rewrite round_pos_exact by lia.
  assert (m * 2 ^ e < overflow) as Ho.
  { unfold overflow. apply (Z.lt_le_trans _ (2 ^ 53 * 2 ^ e)); [nia|]. rewrite <- Z.pow_add_r by lia. apply Z.pow_le_mono_r; lia. }
  rewrite (proj2 (Z.leb_gt _ _)) by exact Ho. by rewrite (proj2 (Z.ltb_ge _ _)) by nia.
Qed.

Lemma scale_split : scale = 2 ^ 1042 * 4294967296.
Proof. reflexivity. Qed.

(** Dividing a word by 2^32 is exact, and so is multiplying by five. *)
Lemma word_quotient u : 0 <= u < 2 ^ 32 -> ndiv (int u) (int 4294967296) = Fin (u * 2 ^ 1042).
Proof.
  intros Hu. unfold ndiv, int. pose proof scale_pos. rewrite (proj2 (Z.eqb_neq _ 0)) by lia.
  rewrite Z.sgn_pos, Z.abs_eq by lia. rewrite <- (round_rat_exact u 1042 (4294967296 * scale)) by lia.
  f_equal. rewrite scale_split at 1. ring.
Qed.

Lemma five_times u : 0 <= u < 2 ^ 32 -> nmul (Fin (u * 2 ^ 1042)) (int 5) = Fin (5 * u * 2 ^ 1042).
Proof.
  intros Hu. unfold nmul, int. pose proof scale_pos. rewrite <- (round_rat_exact (5 * u) 1042 scale) by lia. f_equal. ring.
Qed.

(** A draw is a word over 2^32. *)
Lemma draw_value a : exists u a', draw a = (Fin (u * 2 ^ 1042), a') /\ 0 <= u < 2 ^ 32.
Proof.
  unfold draw. eexists (ushr _ 0), _. split; [|by apply ushr_range]. f_equal. apply word_quotient. by apply ushr_range.
Qed.

(** One of five is always drawn. *)
Lemma pick_of_five u : 0 <= u < 2 ^ 32 ->
  exists k, nfloor (nmul (Fin (u * 2 ^ 1042)) (int 5)) = Fin (k * scale) /\ 0 <= k < 5.
Proof.
  intros Hu. rewrite five_times by done. unfold nfloor. exists (5 * u / 4294967296). split.
  - do 2 f_equal. rewrite scale_split, (Z.mul_comm (2 ^ 1042)). by rewrite Z.div_mul_cancel_r.
  - split; [apply Z.div_pos; lia|apply Z.div_lt_upper_bound; lia].
Qed.

Definition HUES : list Z := [15; 46; 77; 108; 139; 171; 202; 233; 264; 295].

Lemma hues_of_stops : (fun k => hue_of_stop (Z.of_nat k)) <$> seq 0 10 = int <$> HUES.
Proof. vm_compute. reflexivity. Qed.

(** The literals of the companion hues. *)
Definition sound (a : num) : bool := nfinite a && ntruthy a.

Lemma sound_lit a : sound a = true -> exists y, a = Fin y /\ y <> 0.
Proof. destruct a as [| |y]; try done. intros Hy%negb_true_iff%Z.eqb_neq. by exists y. Qed.

Lemma spread_literals : (exists x, lit "26" = Fin x) /\ (exists y, lit "66" = Fin y /\ y <> 0) /\ (exists y, lit "0.45" = Fin y /\ y <> 0).
Proof.
  split; [|split]; [|apply sound_lit; vm_compute; reflexivity..].
  destruct (sound_lit (lit "26")) as (x & Hx & _); [vm_compute; reflexivity|exists x; exact Hx].
Qed.

(** *** Numbers that are not [NaN] *)

#[local] Opaque scale.

Definition proper (a : num) : Prop := a <> NaN.

Lemma proper_round p q : proper (round_rat p q).
Proof. unfold round_rat, proper. by case_match. Qed.

Lemma proper_add x b : proper b -> proper (nadd (Fin x) b).
Proof. destruct b; try done. intros _. apply proper_round. Qed.

Lemma proper_sub x b : proper b -> proper (nsub (Fin x) b).
Proof. intros Hb. unfold nsub. apply proper_add. by destruct b. Qed.

Lemma proper_mul_r x b : x <> 0 -> proper b -> proper (nmul (Fin x) b).
Proof. intros Hx. destruct b as [|s|y]; try done; intros _; cbn; [by rewrite (proj2 (Z.eqb_neq x 0))|apply proper_round]. Qed.

Lemma proper_mul_l x b : x <> 0 -> proper b -> proper (nmul b (Fin x)).
Proof. intros Hx. destruct b as [|s|y]; try done; intros _; cbn; [by rewrite (proj2 (Z.eqb_neq x 0))|apply proper_round]. Qed.

Lemma in_span_proper lo span a : (exists x, lit lo = Fin x) -> (exists y, lit span = Fin y /\ y <> 0) -> proper (in_span lo span a).1.
Proof.
  intros [x Hx] (y & Hy & Hne). unfold in_span, drawn, yields. destruct (draw_value a) as (u & a' & -> & _). cbn [fst].
  rewrite Hx, Hy. apply proper_add, proper_mul_l; done.
Qed.

(** Whatever hue is asked for, the one that is printed is in the arc. *)
Lemma clamped h : proper h -> exists n, nround (clampHue h) = int n /\ 15 <= n <= 295.
Proof.
  intros Hh. pose proof scale_pos. assert (exists z, clampHue h = Fin z /\ 15 * scale <= z <= 295 * scale) as (z & -> & Hz).
  { unfold clampHue, SAFE_LO, SAFE_HI, nmax, nmin, int. destruct h as [|[]|z]; try done; cbn [nltb].
    - rewrite (proj2 (Z.ltb_lt (15 * scale) (295 * scale))) by lia. eexists. split; [reflexivity|lia].
    - eexists. split; [reflexivity|lia].
    - destruct (Z.ltb_spec (15 * scale) z); cbn [nltb].
      + destruct (Z.ltb_spec z (295 * scale)); eexists; (split; [reflexivity|lia]).
      + destruct (Z.ltb_spec (15 * scale) (295 * scale)); eexists; (split; [reflexivity|lia]). }
  exists ((z + scale / 2) / scale). split; [done|]. assert (0 <= scale / 2) by (apply Z.div_pos; lia).
  assert (scale / 2 < scale) by (apply Z.div_lt; lia). split.
  - apply Z.div_le_lower_bound; lia.
  - apply Z.lt_succ_r. apply Z.div_lt_upper_bound; lia.
Qed.

(** A colour whose hue the eye does not take for the accent. *)
Definition in_arc (color : jstr) : Prop := exists n s l, 15 <= n <= 295 /\
  color = js "hsl(" ++ num_to_string (int n) ++ js " " ++ num_to_string (nround s) ++ js "% " ++ num_to_string (nround l) ++ js "%)".

Lemma hsl_in_arc h s l : proper h -> in_arc (hsl h s l).
Proof. intros Hh. destruct (clamped h Hh) as (n & E & Hn). exists n, s, l. split; [done|]. unfold hsl. by rewrite E. Qed.

Lemma hue_of_stop_in k : 0 <= k < 10 -> exists n, hue_of_stop k = int n /\ n ∈ HUES.
Proof.
  intros Hk. assert (hue_of_stop k ∈ int <$> HUES) as (n & E & Hn)%list_elem_of_fmap;
    [|exists n; split; assumption].
  rewrite <- hues_of_stops. apply list_elem_of_fmap. exists (Z.to_nat k). rewrite Z2Nat.id by lia.
  split; [reflexivity|]. apply elem_of_seq. lia.
Qed.

Lemma idHue_in id : exists n, idHue id = int n /\ n ∈ HUES.
Proof. apply hue_of_stop_in. unfold STOPS. apply Z.mod_pos_bound. lia. Qed.

End MarkFacts.

Module MarkTheorems.
Import Marks MarkFacts.

(** No circle's mark looks selected: whatever the id, the anchor is one of
    ten hues of the safe arc, and every colour of the gradient stays in the
    arc however far its companion hues travel; the sweep always has one of
    the five angles. *)
Theorem no_crest_looks_selected id :
  (exists n, cr_hue (crestParams id) = int n /\ n ∈ HUES)
  /\ Forall (fun st => in_arc (s_color st)) (cr_stops (crestParams id))
  /\ exists angle, cr_angle (crestParams id) = Some angle.
Proof.
  destruct (idHue_in id) as (n & Hhue & Hn). destruct spread_literals as (H26 & H66 & z & H45 & Hz).
  unfold crestParams, drawn, yields. rewrite Hhue. generalize (prng (fnv1a id)) as a0. intros a0.
  pose proof (in_span_proper "26" "66" a0 H26 H66) as Hsp. destruct (in_span "26" "66" a0) as [spread a1]. cbn [fst] in Hsp.
  destruct (draw a1) as [d a2].
  assert (proper (nmul (if d <ₙ lit "0.5" then int (-1) else int 1) spread)) as Hds.
  { pose proof scale_pos. unfold int. destruct (d <ₙ lit "0.5"); (apply proper_mul_r; [lia|exact Hsp]). }
  do 6 match goal with |- context [in_span ?lo ?sp ?a] => destruct (in_span lo sp a) as [? ?] end.
  match goal with |- context [draw ?a] => destruct (draw a) as [? ?] end.
  match goal with |- context [draw ?a] => destruct (draw_value a) as (u & a' & -> & Hu) end.
  destruct (pick_of_five u Hu) as (k & -> & Hk).
  do 6 match goal with |- context [in_span ?lo ?sp ?a] => destruct (in_span lo sp a) as [? ?] end.
  cbn [fst cr_hue cr_stops cr_angle]. split; [exists n; split; [reflexivity|exact Hn]|split].
  - repeat apply Forall_cons_2; [..|constructor]; cbn [s_color]; apply hsl_in_arc.
    + rewrite H45. apply proper_sub, proper_mul_l; assumption.
    + apply proper_add. assumption.
    + discriminate.
  - pose proof scale_pos. rewrite Z.div_mul by lia. apply lookup_lt_is_Some. cbn. lia.
Qed.

(** A theme that is chosen is the one that shows, now and after a reload;
    choosing always changes what shows; with none chosen the system's shows. *)
Theorem a_chosen_theme_stays pref systemLight st :
  let chosen := toggleTheme pref systemLight in
  resolveTheme chosen systemLight <> resolveTheme pref systemLight
  /\ readPref (writePref chosen (Some st)).1 = chosen
  /\ resolveTheme (readPref (writePref chosen (Some st)).1) (negb systemLight) = resolveTheme chosen systemLight
  /\ readPref (writePref None (Some st)).1 = None.
Proof.
  intros chosen. assert (forall p, p = js "paper" \/ p = js "carbon" -> readPref (writePref (Some p) (Some st)).1 = Some p) as Hr.
  { intros p Hp. unfold writePref, readPref. cbn [fst mbind option_bind]. rewrite obj_get_map_set, str_eqb_refl.
    by destruct Hp as [->| ->]. }
  assert (resolveTheme pref systemLight = js "paper" \/ resolveTheme pref systemLight = js "carbon") as Hp.
  { unfold resolveTheme. destruct pref as [p|], systemLight; try tauto; destruct (str_eqb p (js "paper")) eqn:E1, (str_eqb p (js "carbon")) eqn:E2;
      cbn; rewrite ?str_eqb_eq in *; tauto. }
  assert (readPref (writePref None (Some st)).1 = None) as Hn.
  { unfold writePref, readPref. cbn [fst mbind option_bind]. by rewrite obj_get_delete, str_eqb_refl. }
  unfold chosen, toggleTheme. destruct Hp as [E|E]; rewrite E.
  - rewrite str_eqb_refl, Hr by auto. split; [by vm_compute|split; [done|split; [done|done]]].
  - replace (str_eqb (js "carbon") (js "paper")) with false by done. rewrite Hr by auto.
    split; [by vm_compute|split; [done|split; [done|done]]].
Qed.

(** Two handles that can be registered and have the same row name: the hash
    that was added to tell them apart is the same too. *)
Lemma two_handles_share_a_name :
  js "-.-.---.__.." <> js "__._-__-..-_" /\ memberVtName (js "-.-.---.__..") = memberVtName (js "__._-__-..-_").
Proof. split; [discriminate|]. vm_compute. reflexivity. Qed.

(** Published values of the hash. *)
Example fnv1a_empty : fnv1a [] = 0x811c9dc5. Proof. reflexivity. Qed.
Example fnv1a_foobar : fnv1a (js "foobar") = 0xbf9cf968. Proof. vm_compute. reflexivity. Qed.

End MarkTheorems.
