(* ===== verification/Delivery.v ===== *)
(** * Group messages between the relay and one device
      (client/src/lib/controller.js: [sendContent], [onGroupMessage] and the
      subscriptions of [onRelayEvent]; relay/src/server.rs: [Outbound], the
      requests [Send] and [Subscribe]; relay/src/store.rs: the log of a group)

    The relay keeps a numbered log per group and hands each message to whoever
    is subscribed; a device keeps the number it has seen so far and asks for
    what came after it when it connects again.  Requests, answers and messages
    travel in order on one connection; what is on the way is lost with it.
    What a message does to the record is in Inbox.v; numbered requests and
    their timers are in Relay.v. *)

From stdpp Require Import base list numbers option strings sets.
From Stdlib Require Import ZArith NArith Lia.
From S2P Require Import Prelude JsNum JsString JsValue.
Open Scope Z_scope.

Module Delivery.

(** ** The relay's log *)

Record message := { m_seq : Z; m_epoch : Z; m_sender : jstr; m_payload : list N }.
Record group := { g_log : list message; g_epoch : Z }.

(** [None]: the epoch of a commit is not the next one. *)
Definition append_message (epoch : Z) (sender : jstr) (payload : list N) (commit : bool) (g : group) : option (Z * group) :=
  if commit && negb (epoch =? g_epoch g + 1) then None else
  let g_epoch := if commit then epoch else g_epoch g in
  let seq := Z.of_nat (length (g_log g)) + 1 in
  Some (seq, {| g_log := g_log g ++ [{| m_seq := seq; m_epoch := epoch; m_sender := sender; m_payload := payload |}];
                g_epoch := g_epoch |}).

Definition messages_after (after : Z) (g : group) : list message := filter (fun m => after < m_seq m) (g_log g).

(** ** One connection *)

Inductive frame :=
| FOk (rid : Z) (seq : option Z)
| FError (rid : Z)
| FMsg (m : message).

Inductive request :=
| RSend (rid epoch : Z) (payload : list N) (commit : bool)
| RSubscribe (rid after : Z).

(** What a device waits for. *)
Inductive waiting := WSend | WSubscribe.

(** The record's cursor, the cursor the backlog ends at, the requests without
    an answer, and the numbers that reached [onGroupMessage]. *)
Record device := {
  d_lastSeq : Z;
  d_catchUpTo : option Z;
  d_pending : list (Z * waiting);
  d_nextRid : Z;
  d_handled : list Z;
}.

Record net := {
  n_group : group;
  n_online : bool;
  n_subscribed : bool;
  n_queue : list frame;       (* [Outbound]: to the device *)
  n_out : list request;       (* to the relay *)
  n_device : device;
}.

Definition MAX_QUEUE : nat := 512.

Section Delivery.
Variable me : jstr.

(** *** The device *)

Definition with_pending (p : list (Z * waiting)) (d : device) : device :=
  {| d_lastSeq := d_lastSeq d; d_catchUpTo := d_catchUpTo d; d_pending := p; d_nextRid := d_nextRid d; d_handled := d_handled d |}.

(** [relay.request]: a number that is waited for. *)
Definition requested (w : waiting) (d : device) : device :=
  {| d_lastSeq := d_lastSeq d; d_catchUpTo := d_catchUpTo d; d_pending := d_pending d ++ [(d_nextRid d, w)];
     d_nextRid := d_nextRid d + 1; d_handled := d_handled d |}.

(** The end of [sendContent]. *)
Definition sent (seq : Z) (d : device) : device :=
  {| d_lastSeq := Z.max (d_lastSeq d) seq; d_catchUpTo := d_catchUpTo d; d_pending := d_pending d;
     d_nextRid := d_nextRid d; d_handled := d_handled d |}.

(** The start of [onGroupMessage]. *)
Definition onGroupMessage (seq : Z) (d : device) : device :=
  {| d_lastSeq := Z.max (d_lastSeq d) seq; d_catchUpTo := d_catchUpTo d; d_pending := d_pending d;
     d_nextRid := d_nextRid d; d_handled := seq :: d_handled d |}.

(** [catchUpTo.set(record.id, sub.seq ?? 0)]. *)
Definition subscribed (seq : option Z) (d : device) : device :=
  {| d_lastSeq := d_lastSeq d; d_catchUpTo := Some (default 0 seq); d_pending := d_pending d;
     d_nextRid := d_nextRid d; d_handled := d_handled d |}.

Fixpoint waits_for (rid : Z) (p : list (Z * waiting)) : option waiting :=
  match p with
  | [] => None
  | (r, w) :: p => if r =? rid then Some w else waits_for rid p
  end.

Definition settled (rid : Z) (d : device) : device := with_pending (filter (fun p => p.1 <> rid) (d_pending d)) d.

Definition arrives (f : frame) (d : device) : device :=
  match f with
  | FMsg m => onGroupMessage (m_seq m) d
  | FOk rid seq =>
      match waits_for rid (d_pending d) with
      | Some WSend => match seq with Some s => sent s (settled rid d) | None => settled rid d end
      | Some WSubscribe => subscribed seq (settled rid d)
      | None => d
      end
  | FError rid => match waits_for rid (d_pending d) with Some _ => settled rid d | None => d end
  end.

(** *** The relay *)

Definition with_relay (g : group) (sub : bool) (q : list frame) (s : net) : net :=
  {| n_group := g; n_online := n_online s; n_subscribed := sub; n_queue := q; n_out := n_out s; n_device := n_device s |}.

(** [Outbound::offer]: a subscriber too far behind is dropped. *)
Definition offer (m : message) (s : net) : net :=
  if n_subscribed s then
    if Nat.leb MAX_QUEUE (length (n_queue s)) then with_relay (n_group s) false (n_queue s) s
    else with_relay (n_group s) true (n_queue s ++ [FMsg m]) s
  else s.

(** [Send] by another member: appended, then handed to the subscribers. *)
Definition peer_sends (epoch : Z) (sender : jstr) (payload : list N) (commit : bool) (s : net) : net :=
  match append_message epoch sender payload commit (n_group s) with
  | None => s
  | Some (seq, g) =>
      offer {| m_seq := seq; m_epoch := epoch; m_sender := sender; m_payload := payload |}
        (with_relay g (n_subscribed s) (n_queue s) s)
  end.

(** A request of the device: [Send] (the sender is not handed its own
    message) and [Subscribe]. *)
Definition handle_request (r : request) (s : net) : net :=
  match r with
  | RSend rid epoch payload commit =>
      match append_message epoch me payload commit (n_group s) with
      | None => with_relay (n_group s) (n_subscribed s) (n_queue s ++ [FError rid]) s
      | Some (seq, g) => with_relay g (n_subscribed s) (n_queue s ++ [FOk rid (Some seq)]) s
      end
  | RSubscribe rid after =>
      let backlog := messages_after after (n_group s) in
      with_relay (n_group s) true (n_queue s ++ FOk rid (m_seq <$> list.last backlog) :: (FMsg <$> backlog)) s
  end.

(** *** Steps *)

Inductive act :=
| Send (epoch : Z) (payload : list N) (commit : bool)     (* the device sends *)
| Subscribe                                               (* it asks for what came after its cursor *)
| Take                                                    (* the relay reads a request *)
| Arrive                                                  (* the device reads a frame *)
| Timeout (rid : Z)
| Peer (epoch : Z) (sender : jstr) (payload : list N) (commit : bool)
| Connect
| Disconnect.

Definition with_device (d : device) (out : list request) (s : net) : net :=
  {| n_group := n_group s; n_online := n_online s; n_subscribed := n_subscribed s; n_queue := n_queue s; n_out := out; n_device := d |}.

Definition act_step (a : act) (s : net) : option net :=
  let d := n_device s in
  match a with
  | Send epoch payload commit =>
      if n_online s
      then Some (with_device (requested WSend d) (n_out s ++ [RSend (d_nextRid d) epoch payload commit]) s) else None
  | Subscribe =>
      if n_online s
      then Some (with_device (requested WSubscribe d) (n_out s ++ [RSubscribe (d_nextRid d) (d_lastSeq d)]) s) else None
  | Take =>
      match n_out s with
      | r :: out => Some (handle_request r (with_device d out s))
      | [] => None
      end
  | Arrive =>
      match n_queue s with
      | f :: q => Some (with_relay (n_group s) (n_subscribed s) q (with_device (arrives f d) (n_out s) s))
      | [] => None
      end
  | Timeout rid => Some (with_device (settled rid d) (n_out s) s)
  | Peer epoch sender payload commit =>
      if str_eqb sender me then None else Some (peer_sends epoch sender payload commit s)
  | Connect =>
      if n_online s then None else
      Some {| n_group := n_group s; n_online := true; n_subscribed := false; n_queue := []; n_out := []; n_device := d |}
  | Disconnect =>
      if n_online s then
        Some {| n_group := n_group s; n_online := false; n_subscribed := false; n_queue := []; n_out := [];
                n_device := with_pending [] d |}
      else None
  end.

Definition run (acts : list act) (s : net) : option net := fold_left (fun os a => os ≫= act_step a) acts (Some s).

(** A device that joined at the end of a log. *)
Definition joined (g : group) : net :=
  {| n_group := g; n_online := true; n_subscribed := true; n_queue := []; n_out := [];
     n_device := {| d_lastSeq := Z.of_nat (length (g_log g)); d_catchUpTo := None; d_pending := []; d_nextRid := 1;
                    d_handled := [] |} |}.

End Delivery.

End Delivery.

(** ** No message is skipped *)

Module DeliveryFacts.
Import Delivery.

Definition size (g : group) : Z := Z.of_nat (length (g_log g)).

(** Messages are numbered from one. *)
Definition numbered (g : group) : Prop := forall i m, g_log g !! i = Some m -> m_seq m = Z.of_nat i + 1.

Section Facts.
Variable me : jstr.
Variable j : Z.   (* where the device joined *)

(** What others sent since the device joined, up to [s], was handled. *)
Definition covered (g : group) (h : list Z) (s : Z) : Prop :=
  forall m, m ∈ g_log g -> m_sender m <> me -> j < m_seq m <= s -> m_seq m ∈ h.

(** What will have been handled when the queue is empty. *)
Fixpoint final (h : list Z) (q : list frame) : list Z :=
  match q with
  | [] => h
  | FMsg m :: q => final (m_seq m :: h) q
  | _ :: q => final h q
  end.

(** No frame moves the cursor past what was handled before it. *)
Fixpoint orderly (g : group) (p : list (Z * waiting)) (h : list Z) (q : list frame) : Prop :=
  match q with
  | [] => True
  | FMsg m :: q => m_seq m <= size g /\ covered g (m_seq m :: h) (m_seq m) /\ orderly g p (m_seq m :: h) q
  | FOk rid seq :: q =>
      (forall s, waits_for rid p = Some WSend -> seq = Some s -> s <= size g /\ covered g h s) /\ orderly g p h q
  | FError _ :: q => orderly g p h q
  end.

Definition rid_of (r : request) : Z := match r with RSend rid _ _ _ => rid | RSubscribe rid _ => rid end.
Definition frame_before (n : Z) (f : frame) : Prop := match f with FOk rid _ | FError rid => rid < n | FMsg _ => True end.

Definition asked (s : net) (r : request) : Prop :=
  match r with
  | RSend _ _ _ _ => n_subscribed s = true
  | RSubscribe rid after =>
      j <= after <= size (n_group s) /\ covered (n_group s) (d_handled (n_device s)) after
      /\ waits_for rid (d_pending (n_device s)) <> Some WSend
  end.

Record sound (s : net) : Prop := {
  snd_log : numbered (n_group s);
  snd_cursor : j <= d_lastSeq (n_device s) <= size (n_group s);
  snd_covered : covered (n_group s) (d_handled (n_device s)) (d_lastSeq (n_device s));
  snd_queue : orderly (n_group s) (d_pending (n_device s)) (d_handled (n_device s)) (n_queue s);
  snd_all : n_subscribed s = true -> covered (n_group s) (final (d_handled (n_device s)) (n_queue s)) (size (n_group s));
  snd_out : Forall (asked s) (n_out s);
  snd_rids : Forall (frame_before (d_nextRid (n_device s))) (n_queue s)
    /\ Forall (fun r => rid_of r < d_nextRid (n_device s)) (n_out s)
    /\ Forall (fun w => w.1 < d_nextRid (n_device s)) (d_pending (n_device s));
}.

(** *** Lists of frames *)

Lemma final_app h q1 q2 : final h (q1 ++ q2) = final (final h q1) q2.
Proof. revert h. induction q1 as [|[| |m] q1 IH]; intros h; cbn; auto. Qed.

Lemma final_mono h q x : x ∈ h -> x ∈ final h q.
Proof. revert h. induction q as [|[| |m] q IH]; intros h Hx; cbn; [done|by apply IH..|]. apply IH. set_solver. Qed.

Lemma orderly_app g p h q1 q2 : orderly g p h (q1 ++ q2) <-> orderly g p h q1 /\ orderly g p (final h q1) q2.
Proof. revert h. induction q1 as [|[| |m] q1 IH]; intros h; cbn; [tauto| | |]; rewrite IH; tauto. Qed.

Lemma covered_mono g h h' s : h ⊆ h' -> covered g h s -> covered g h' s.
Proof. intros Hs Hc m ? ? ?. by apply Hs, Hc. Qed.

Lemma covered_le g h s s' : s' <= s -> covered g h s -> covered g h s'.
Proof. intros Hs Hc m ? ? ?. apply Hc; [done..|lia]. Qed.

Lemma covered_max g h a b : covered g h a -> covered g h b -> covered g h (Z.max a b).
Proof. intros Ha Hb. by destruct (Z.max_spec a b) as [[_ ->]|[_ ->]]. Qed.

(** A message more at the end of the log. *)
Definition extends (g g' : group) (m : message) : Prop := g_log g' = g_log g ++ [m] /\ m_seq m = size g + 1.

Lemma size_grow g g' m : extends g g' m -> size g' = size g + 1.
Proof. intros [E _]. unfold size. rewrite E, length_app. cbn. lia. Qed.

Lemma covered_grow g g' m h s : extends g g' m -> s <= size g -> covered g h s -> covered g' h s.
Proof.
  intros [E Em] Hs Hc x Hx Hne Hb. rewrite E in Hx. apply elem_of_app in Hx as [Hx|Hx%list_elem_of_singleton]; [by apply Hc|].
  subst. lia.
Qed.

Lemma numbered_bound g m : numbered g -> m ∈ g_log g -> 1 <= m_seq m <= size g.
Proof.
  intros Hn [i Hi]%list_elem_of_lookup_1. rewrite (Hn _ _ Hi). apply lookup_lt_Some in Hi. unfold size. lia.
Qed.

Lemma numbered_grow g g' m : extends g g' m -> numbered g -> numbered g'.
Proof.
  intros [E Em] Hn i x Hx. rewrite E in Hx. apply lookup_app_Some in Hx as [Hx|[Hi Hx]]; [by apply Hn|].
  apply list_lookup_singleton_Some in Hx as [Hi' ->]. rewrite Em. unfold size. lia.
Qed.

(** It is covered when it is the device's own or will be handled. *)
Lemma covered_next g g' m h : numbered g -> extends g g' m -> (m_sender m = me \/ m_seq m ∈ h) ->
  covered g h (size g) -> covered g' h (size g').
Proof.
  intros Hn Hg Hm Hc x Hx Hne Hb. destruct Hg as [E Em]. rewrite E in Hx.
  apply elem_of_app in Hx as [Hx|Hx%list_elem_of_singleton].
  - apply Hc; [done..|]. pose proof (numbered_bound _ _ Hn Hx). lia.
  - subst x. naive_solver.
Qed.

Lemma orderly_grow g g' m p h q : extends g g' m -> orderly g p h q -> orderly g' p h q.
Proof.
  intros Hg. pose proof (size_grow _ _ _ Hg) as Hsz. revert h. induction q as [|f q IH]; intros h; [done|]. destruct f as [rid seq|rid|x]; cbn.
  - intros [Hf Hq]. split; [|by apply IH]. intros s Hp Hs. destruct (Hf s Hp Hs) as [Hle Hc]. split; [lia|]. by eapply covered_grow.
  - apply IH.
  - intros (Hle & Hc & Hq). split; [lia|]. split; [by eapply covered_grow|by apply IH].
Qed.

Lemma orderly_pending g p p' h q :
  (forall f, f ∈ q -> match f with FOk rid _ => waits_for rid p' = Some WSend -> waits_for rid p = Some WSend | _ => True end) ->
  orderly g p h q -> orderly g p' h q.
Proof.
  revert h. induction q as [|f q IH]; intros h Hp; [done|]. pose proof (Hp f ltac:(set_solver)) as Hf.
  assert (forall h, orderly g p h q -> orderly g p' h q) as Hq by (intros h'; apply IH; intros f' Hf'; apply Hp; set_solver).
  destruct f as [rid seq|rid|x]; cbn; [|auto|naive_solver]. intros [H1 H2]. split; [|by apply Hq]. intros s Hw. apply H1. by apply Hf.
Qed.

Lemma filter_out {A} (P : A -> Prop) `{!forall x, Decision (P x)} (l : list A) : (forall x, x ∈ l -> ~ P x) -> filter P l = [].
Proof. induction l as [|x l IH]; intros Hl; [done|]. rewrite filter_cons_False by (apply Hl; by left). apply IH. intros y Hy. apply Hl. by right. Qed.

(** What the relay replays covers everything. *)
Lemma backlog_orderly g p h l1 l2 : numbered g -> g_log g = l1 ++ l2 -> covered g h (Z.of_nat (length l1)) ->
  orderly g p h (FMsg <$> l2) /\ covered g (final h (FMsg <$> l2)) (size g).
Proof.
  intros Hn. revert h l1. induction l2 as [|m l2 IH]; intros h l1 E Hc; cbn.
  - split; [done|]. unfold size. by rewrite E, app_nil_r.
  - assert (m_seq m = Z.of_nat (length l1) + 1) as Em by (apply Hn; rewrite E, lookup_app_r, Nat.sub_diag by lia; done).
    assert (covered g (m_seq m :: h) (m_seq m)) as Hc'.
    { intros x Hx Hne Hb. destruct (decide (m_seq x = m_seq m)) as [->|Hd]; [set_solver|].
      apply list_elem_of_further, Hc; [done..|lia]. }
    destruct (IH (m_seq m :: h) (l1 ++ [m])) as [H1 H2].
    + by rewrite <- (assoc_L (++)).
    + rewrite length_app. cbn [length]. replace (Z.of_nat (length l1 + 1)) with (m_seq m) by lia. done.
    + split; [|done]. split; [|done]. unfold size. rewrite E, length_app. cbn [length]. lia.
Qed.

Lemma messages_after_suffix g after : numbered g -> 0 <= after <= size g ->
  exists l1, g_log g = l1 ++ messages_after after g /\ Z.of_nat (length l1) = after.
Proof.
  intros Hn Ha. exists (take (Z.to_nat after) (g_log g)). split; [|rewrite length_take; unfold size in *; lia].
  rewrite <- (take_drop (Z.to_nat after) (g_log g)) at 1. f_equal. unfold messages_after.
  rewrite <- (take_drop (Z.to_nat after) (g_log g)) at 2. rewrite filter_app, filter_out, filter_all; [done|..].
  - intros x [i Hi]%list_elem_of_lookup_1. rewrite lookup_drop in Hi. rewrite (Hn _ _ Hi). lia.
  - intros x [i Hi]%list_elem_of_lookup_1. apply lookup_take_Some in Hi as [Hi Hlt]. rewrite (Hn _ _ Hi). lia.
Qed.

(** *** Requests that are waited for *)

Lemma waits_for_app rid p n w : rid <> n -> waits_for rid (p ++ [(n, w)]) = waits_for rid p.
Proof. intros Hne. induction p as [|[r x] p IH]; cbn; [by rewrite (proj2 (Z.eqb_neq n rid)) by done|]. by rewrite IH. Qed.

Lemma waits_for_gone rid p : waits_for rid (filter (fun x => x.1 <> rid) p) = None.
Proof.
  induction p as [|[r x] p IH]; [done|]. rewrite filter_cons. case_decide as Hd; [|done]. cbn [waits_for fst] in *.
  by rewrite (proj2 (Z.eqb_neq r rid)).
Qed.

Lemma waits_for_settled r rid p w : waits_for r (filter (fun x => x.1 <> rid) p) = Some w -> waits_for r p = Some w.
Proof.
  intros Hw. destruct (decide (r = rid)) as [->|Hne]; [by rewrite waits_for_gone in Hw|]. revert Hw.
  induction p as [|[r' x] p IH]; [done|]. rewrite filter_cons. case_decide as Hd; cbn [waits_for fst] in *.
  - by destruct (Z.eqb_spec r' r).
  - subst r'. by rewrite (proj2 (Z.eqb_neq rid r)).
Qed.

Lemma asked_keep s s' r :
  (n_subscribed s = true -> n_subscribed s' = true) -> size (n_group s) <= size (n_group s') ->
  (forall a, a <= size (n_group s) -> covered (n_group s) (d_handled (n_device s)) a -> covered (n_group s') (d_handled (n_device s')) a) ->
  (waits_for (rid_of r) (d_pending (n_device s')) = Some WSend -> waits_for (rid_of r) (d_pending (n_device s)) = Some WSend) ->
  asked s r -> asked s' r.
Proof.
  intros Hs Hz Hc Hw. destruct r as [|rid after]; cbn in *; [done|]. intros ((? & ?) & Hcov & Hne). split; [lia|]. split; [by apply Hc|]. auto.
Qed.

(** *** Each step *)

Lemma requested_sound w r s : sound s -> rid_of r = d_nextRid (n_device s) -> asked (with_device (requested w (n_device s)) (n_out s ++ [r]) s) r ->
  sound (with_device (requested w (n_device s)) (n_out s ++ [r]) s).
Proof.
  intros [Hl Hcu Hco Hq Ha Ho (Hr1 & Hr2 & Hr3)] Hrid Hr. constructor; cbn; try done.
  - eapply orderly_pending; [|exact Hq]. intros [rid seq| |] Hf; try done. rewrite waits_for_app; [done|].
    rewrite Forall_forall in Hr1. specialize (Hr1 _ Hf). cbn in Hr1. lia.
  - apply Forall_app. split; [|by apply Forall_singleton]. rewrite Forall_forall in Ho, Hr2 |- *. intros r' Hin.
    eapply asked_keep; [..|by apply Ho]; cbn; auto; [lia|]. rewrite waits_for_app; [done|]. specialize (Hr2 _ Hin). lia.
  - split; [|split].
    + eapply Forall_impl; [exact Hr1|]. intros [| |]; cbn; lia.
    + apply Forall_app. split; [|apply Forall_singleton; lia]. eapply Forall_impl; [exact Hr2|]. cbn. lia.
    + apply Forall_app. split; [|apply Forall_singleton; cbn; lia]. eapply Forall_impl; [exact Hr3|]. cbn. lia.
Qed.

(** The device settles requests and moves its cursor to what is covered. *)
Lemma device_sound s q d : sound s -> orderly (n_group s) (d_pending d) (d_handled d) q ->
  (n_subscribed s = true -> covered (n_group s) (final (d_handled d) q) (size (n_group s))) -> Forall (frame_before (d_nextRid d)) q ->
  d_nextRid d = d_nextRid (n_device s) -> d_handled (n_device s) ⊆ d_handled d ->
  (forall rid, waits_for rid (d_pending d) = Some WSend -> waits_for rid (d_pending (n_device s)) = Some WSend) ->
  Forall (fun w => w.1 < d_nextRid d) (d_pending d) ->
  j <= d_lastSeq d <= size (n_group s) -> covered (n_group s) (d_handled d) (d_lastSeq d) ->
  sound (with_relay (n_group s) (n_subscribed s) q (with_device d (n_out s) s)).
Proof.
  intros [Hl Hcu Hco Hq0 Ha Ho (Hr1 & Hr2 & Hr3)] Hq Hall Hf Hn Hh Hw Hp Hcur Hcov. constructor; cbn; try done.
  - eapply Forall_impl; [exact Ho|]. intros r. apply asked_keep; cbn; auto; [lia|]. intros a _ Hc. by eapply covered_mono.
  - split; [done|split; [|done]]. by rewrite Hn.
Qed.

Lemma settled_pending rid p n : Forall (fun w : Z * waiting => w.1 < n) p -> Forall (fun w => w.1 < n) (filter (fun x => x.1 <> rid) p).
Proof. intros Hp. apply Forall_forall. intros x [_ Hx]%list_elem_of_filter. by apply (proj1 (Forall_forall _ _) Hp). Qed.

Lemma orderly_settled g p rid h q : orderly g p h q -> orderly g (filter (fun x => x.1 <> rid) p) h q.
Proof. apply orderly_pending. intros [] _; try done. apply waits_for_settled. Qed.

Lemma arrive_sound f q s : sound s -> n_queue s = f :: q ->
  sound (with_relay (n_group s) (n_subscribed s) q (with_device (arrives f (n_device s)) (n_out s) s)).
Proof.
  intros Hs Eq. pose proof Hs as [Hl Hcu Hco Hq Ha Ho (Hr1 & Hr2 & Hr3)]. rewrite Eq in *. apply Forall_cons in Hr1 as [Hf Hr1].
  destruct f as [rid seq|rid|m]; cbn in Hq, Ha |- *.
  - destruct Hq as [Hok Hq]. destruct (waits_for rid (d_pending (n_device s))) as [[]|] eqn:Ew.
    + destruct seq as [s0|]; apply device_sound; cbn; auto using orderly_settled, settled_pending;
        try (intros ?; apply waits_for_settled).
      * destruct (Hok s0 eq_refl eq_refl). lia.
      * destruct (Hok s0 eq_refl eq_refl). by apply covered_max.
    + apply device_sound; cbn; auto using orderly_settled, settled_pending. intros ?; apply waits_for_settled.
    + apply device_sound; cbn; auto.
  - destruct (waits_for rid _); apply device_sound; cbn; auto using orderly_settled, settled_pending. intros ?; apply waits_for_settled.
  - destruct Hq as (Hle & Hc & Hq). apply device_sound; cbn; auto; [set_solver|lia|].
    apply covered_max; [|done]. eapply covered_mono; [|exact Hco]. set_solver.
Qed.

Lemma append_extends epoch sender payload commit g seq g' : append_message epoch sender payload commit g = Some (seq, g') ->
  exists m, extends g g' m /\ m_seq m = seq /\ m_sender m = sender /\ m = {| m_seq := seq; m_epoch := epoch; m_sender := sender; m_payload := payload |}.
Proof. unfold append_message. case_match; [done|]. intros [= <- <-]. eexists. split; [split; reflexivity|done]. Qed.

(** A frame at the end of the queue, after the log grew or not. *)
Lemma relay_sound g sub fs s : sound s -> numbered g -> size (n_group s) <= size g ->
  (forall h a, a <= size (n_group s) -> covered (n_group s) h a -> covered g h a) ->
  (forall h q, orderly (n_group s) (d_pending (n_device s)) h q -> orderly g (d_pending (n_device s)) h q) ->
  (n_subscribed s = true -> sub = true) ->
  orderly g (d_pending (n_device s)) (final (d_handled (n_device s)) (n_queue s)) fs ->
  (sub = true -> covered g (final (d_handled (n_device s)) (n_queue s ++ fs)) (size g)) ->
  Forall (frame_before (d_nextRid (n_device s))) fs ->
  sound (with_relay g sub (n_queue s ++ fs) s).
Proof.
  intros [Hl Hcu Hco Hq Ha Ho (Hr1 & Hr2 & Hr3)] Hn Hz Hc Hord Hsub Hfs Hall Hf. constructor; cbn; try done.
  - lia.
  - apply Hc; [lia|done].
  - apply orderly_app. split; [by apply Hord|done].
  - eapply Forall_impl; [exact Ho|]. intros r. apply asked_keep; cbn; auto.
  - split; [by apply Forall_app|done].
Qed.

(** What keeps messages from being skipped: the device sends only while it is
    subscribed, and is not dropped for being slow. *)
Definition careful (a : act) (s : net) : Prop :=
  match a with
  | Send _ _ _ => n_subscribed s = true
  | Peer _ _ _ _ => n_subscribed s = true -> (length (n_queue s) < MAX_QUEUE)%nat
  | _ => True
  end.

Fixpoint careful_run (acts : list act) (s : net) : Prop :=
  match acts with
  | [] => True
  | a :: acts => careful a s /\ match act_step me a s with Some s' => careful_run acts s' | None => True end
  end.

Lemma take_send_sound rid epoch payload commit s : sound s -> n_subscribed s = true -> rid < d_nextRid (n_device s) ->
  sound (handle_request me (RSend rid epoch payload commit) s).
Proof.
  intros Hs Hsub Hrid. pose proof Hs as [Hl Hcu Hco Hq Ha Ho Hr]. cbn.
  destruct (append_message epoch me payload commit (n_group s)) as [[seq g]|] eqn:E.
  - apply append_extends in E as (m & Hg & <- & Hm & _). pose proof (size_grow _ _ _ Hg) as Hsz.
    apply relay_sound; [done|by eapply numbered_grow|lia|intros; by eapply covered_grow|intros; by eapply orderly_grow|done| | |].
    + cbn. split; [|done]. intros s0 _ [= <-]. destruct Hg as [Hg1 Hg2]. split; [lia|]. rewrite Hg2, <- Hsz.
      eapply covered_next; eauto. by split.
    + intros _. rewrite final_app. cbn. eapply covered_next; eauto.
    + by apply Forall_singleton.
  - apply relay_sound; [done|done|lia|done|done|done|cbn; done| |by apply Forall_singleton]. intros _. rewrite final_app. cbn. auto.
Qed.

Lemma take_subscribe_sound rid after s : 0 <= j -> sound s -> asked s (RSubscribe rid after) -> rid < d_nextRid (n_device s) ->
  sound (handle_request me (RSubscribe rid after) s).
Proof.
  intros Hj Hs (Haf & Hcov & Hw) Hrid. pose proof Hs as [Hl Hcu Hco Hq Ha Ho Hr]. cbn.
  destruct (messages_after_suffix (n_group s) after Hl ltac:(lia)) as (l1 & El & Hlen).
  destruct (backlog_orderly (n_group s) (d_pending (n_device s)) (final (d_handled (n_device s)) (n_queue s)) l1 _ Hl El) as [H1 H2].
  { rewrite Hlen. eapply covered_mono; [|exact Hcov]. intros x. apply final_mono. }
  apply relay_sound; [done|done|lia|done|done|done|cbn|intros _; by rewrite final_app|].
  - split; [|done]. intros s0 E. by rewrite E in Hw.
  - apply Forall_cons. split; [done|]. apply Forall_fmap. by apply Forall_true.
Qed.

Lemma peer_sound epoch sender payload commit s : sound s -> sender <> me ->
  (n_subscribed s = true -> (length (n_queue s) < MAX_QUEUE)%nat) -> sound (peer_sends epoch sender payload commit s).
Proof.
  intros Hs Hne Hlen. pose proof Hs as [Hl Hcu Hco Hq Ha Ho Hr]. unfold peer_sends.
  destruct (append_message epoch sender payload commit (n_group s)) as [[seq g]|] eqn:E; [|done].
  apply append_extends in E as (m & Hg & Hseq & Hm & Em). rewrite <- Em. pose proof (size_grow _ _ _ Hg) as Hsz.
  unfold offer. cbn [n_subscribed with_relay n_queue n_group]. destruct (n_subscribed s) eqn:Hsub.
  - rewrite (proj2 (Nat.leb_gt _ _)) by auto. change (with_relay g true (n_queue s ++ [FMsg m]) (with_relay g true (n_queue s) s))
      with (with_relay g true (n_queue s ++ [FMsg m]) s).
    assert (covered g (m_seq m :: final (d_handled (n_device s)) (n_queue s)) (size g)) as Hnext.
    { eapply covered_next; eauto; [right; set_solver|]. eapply covered_mono; [|by apply Ha]. set_solver. }
    apply relay_sound; [done|by eapply numbered_grow|lia|intros; by eapply covered_grow|intros; by eapply orderly_grow|done| | |by apply Forall_singleton].
    + cbn. destruct Hg as [? Hg2]. split; [lia|]. split; [|done]. rewrite Hg2, <- Hsz. rewrite Hg2 in Hnext. by rewrite <- Hsz in Hnext.
    + intros _. by rewrite final_app.
  - rewrite <- (app_nil_r (n_queue s)).
    apply relay_sound; [done|by eapply numbered_grow|lia|intros; by eapply covered_grow|intros; by eapply orderly_grow| |done|done|done].
    by rewrite Hsub.
Qed.

Lemma timeout_sound rid s : sound s -> sound (with_device (settled rid (n_device s)) (n_out s) s).
Proof.
  intros Hs. pose proof Hs as [Hl Hcu Hco Hq Ha Ho (Hr1 & Hr2 & Hr3)].
  assert (with_device (settled rid (n_device s)) (n_out s) s =
    with_relay (n_group s) (n_subscribed s) (n_queue s) (with_device (settled rid (n_device s)) (n_out s) s)) as -> by done.
  apply device_sound; cbn; auto using orderly_settled, settled_pending. intros ?. apply waits_for_settled.
Qed.

Lemma offline_sound s online d : sound s -> d_pending d = [] \/ d = n_device s -> d_lastSeq d = d_lastSeq (n_device s) ->
  d_handled d = d_handled (n_device s) -> d_nextRid d = d_nextRid (n_device s) ->
  sound {| n_group := n_group s; n_online := online; n_subscribed := false; n_queue := []; n_out := []; n_device := d |}.
Proof.
  intros [Hl Hcu Hco Hq Ha Ho (Hr1 & Hr2 & Hr3)] Hp Hcur Hh Hn. constructor; cbn; rewrite ?Hcur, ?Hh, ?Hn; auto; [done|].
  split; [done|split; [done|]]. destruct Hp as [-> | ->]; done.
Qed.

Lemma act_sound a s s' : 0 <= j -> sound s -> careful a s -> act_step me a s = Some s' -> sound s'.
Proof.
  intros Hj Hs Hc Ha. pose proof Hs as [Hl Hcu Hco Hq Hall Ho (Hr1 & Hr2 & Hr3)]. destruct a; cbn in Ha, Hc.
  - destruct (n_online s); [|done]. injection Ha as <-. by apply requested_sound.
  - destruct (n_online s); [|done]. injection Ha as <-. apply requested_sound; [done..|]. cbn. split; [lia|]. split; [done|].
    intros E. assert (waits_for (d_nextRid (n_device s)) (d_pending (n_device s)) = None) as Hnone.
    { clear - Hr3. induction (d_pending (n_device s)) as [|[r x] p IH]; [done|]. apply Forall_cons in Hr3 as [Hr Hr3]. cbn in *.
      rewrite (proj2 (Z.eqb_neq r _)) by lia. auto. }
    revert E. generalize dependent (d_pending (n_device s)). intros p _ _ Hnone E.
    induction p as [|[r x] p IH]; cbn in *; [by rewrite Z.eqb_refl in E|]. destruct (r =? _); [done|]. by apply IH.
  - destruct (n_out s) as [|r out] eqn:Eo; [done|]. injection Ha as <-. apply Forall_cons in Ho as [Hr Ho], Hr2 as [Hrid Hr2].
    assert (sound (with_device (n_device s) out s)) as Hs'.
    { constructor; cbn; auto. }
    destruct r; [by apply take_send_sound|by apply take_subscribe_sound].
  - destruct (n_queue s) as [|f q] eqn:Eq; [done|]. injection Ha as <-. by apply arrive_sound.
  - injection Ha as <-. by apply timeout_sound.
  - destruct (str_eqb sender me) eqn:E; [done|]. injection Ha as <-. apply str_eqb_neq in E. by apply peer_sound.
  - destruct (n_online s); [done|]. injection Ha as <-. apply offline_sound; auto.
  - destruct (n_online s); [|done]. injection Ha as <-. apply offline_sound; auto.
Qed.

Lemma run_sound acts s s' : 0 <= j -> sound s -> careful_run acts s -> run me acts s = Some s' -> sound s'.
Proof.
  intros Hj. revert s. induction acts as [|a acts IH]; intros s Hs; [by intros _ [= <-]|]. intros [Hc Hr] Hrun.
  unfold run in Hrun. cbn in Hrun. destruct (act_step me a s) as [s1|] eqn:E.
  - apply (IH s1); [by eapply act_sound|done|exact Hrun].
  - exfalso. clear - Hrun. assert (fold_left (fun os a => os ≫= act_step me a) acts None = None) as Hn by (induction acts; auto). congruence.
Qed.

End Facts.
End DeliveryFacts.

Module DeliveryTheorems.
Import Delivery DeliveryFacts.

Lemma play_app me acts1 acts2 s : run me (acts1 ++ acts2) s = run me acts1 s ≫= run me acts2.
Proof.
  unfold run. rewrite fold_left_app. destruct (fold_left _ acts1 (Some s)) as [s'|]; [done|].
  cbn. induction acts2; [done|exact IHacts2].
Qed.

Lemma joined_sound me g : numbered g -> sound me (size g) (joined g).
Proof.
  intros Hn. assert (forall h s, s <= size g -> covered me (size g) g h s) as Hc by (intros h s Hs m _ _ ?; lia).
  constructor; cbn; auto; unfold size in *; try lia; intros; apply Hc; lia.
Qed.

(** C16: No message is skipped: while a device sends only when it is subscribed and
    keeps up, what others sent since it joined was handled as far as its
    cursor says, whatever was lost on the way and however answers are late;
    and all of it once it is subscribed and has read what the relay sent. *)
Theorem no_message_is_skipped me g acts s :
  numbered g -> careful_run me acts (joined g) -> run me acts (joined g) = Some s ->
  (forall m, m ∈ g_log (n_group s) -> m_sender m <> me -> size g < m_seq m <= d_lastSeq (n_device s) ->
     m_seq m ∈ d_handled (n_device s))
  /\ (n_subscribed s = true -> n_queue s = [] ->
        forall m, m ∈ g_log (n_group s) -> m_sender m <> me -> size g < m_seq m -> m_seq m ∈ d_handled (n_device s)).
Proof.
  intros Hn Hc Hr. assert (sound me (size g) s) as [Hl Hcu Hco Hq Ha Ho _].
  { eapply run_sound; [unfold size; lia|by apply joined_sound|done|done]. }
  split; [exact Hco|]. intros Hsub Hempty m Hm Hne Hb. specialize (Ha Hsub). rewrite Hempty in Ha. apply Ha; [done..|].
  pose proof (numbered_bound _ _ Hl Hm). lia.
Qed.

Lemma arrivals me s : exists s', run me (replicate (length (n_queue s)) Arrive) s = Some s'
  /\ n_queue s' = [] /\ n_group s' = n_group s /\ n_subscribed s' = n_subscribed s.
Proof.
  remember (n_queue s) as q eqn:E. revert s E. induction q as [|f q IH]; intros s E; [by exists s|].
  destruct (IH (with_relay (n_group s) (n_subscribed s) q (with_device (arrives f (n_device s)) (n_out s) s)) eq_refl)
    as (s' & Hr & Hq & Hg & Hs).
  exists s'. split; [|done]. cbn [length replicate]. change (Arrive :: ?l) with ([Arrive] ++ l). rewrite play_app.
  unfold run at 1. cbn. rewrite <- E. cbn. exact Hr.
Qed.

(** And it always comes back to that: after a connection is lost, connecting,
    subscribing and reading on brings everything. *)
Theorem everything_arrives me g acts s :
  numbered g -> careful_run me acts (joined g) -> run me acts (joined g) = Some s -> n_online s = false -> n_out s = [] ->
  exists n s', run me ([Connect; Subscribe; Take] ++ replicate n Arrive) s = Some s'
    /\ n_group s' = n_group s
    /\ forall m, m ∈ g_log (n_group s') -> m_sender m <> me -> size g < m_seq m -> m_seq m ∈ d_handled (n_device s').
Proof.
  intros Hn Hc Hr Hoff Hout. assert (sound me (size g) s) as Hs.
  { eapply run_sound; [unfold size; lia|by apply joined_sound|done|done]. }
  assert (exists s1, run me [Connect; Subscribe; Take] s = Some s1 /\ n_subscribed s1 = true /\ n_group s1 = n_group s) as (s1 & H1 & Hsub & Hg).
  { unfold run. cbn [fold_left mbind option_bind]. cbn [act_step]. rewrite Hoff. cbn. eauto. }
  assert (sound me (size g) s1) as Hs1.
  { eapply (run_sound me (size g) [Connect; Subscribe; Take]); [unfold size; lia|exact Hs| |exact H1]. cbn. by repeat case_match. }
  destruct (arrivals me s1) as (s' & H2 & Hq & Hg' & Hsub'). exists (length (n_queue s1)), s'.
  split; [by rewrite play_app, H1|]. split; [by rewrite Hg'|].
  assert (sound me (size g) s') as [Hl Hcu Hco _ Ha _ _].
  { eapply (run_sound me (size g) (replicate (length (n_queue s1)) Arrive)); [unfold size; lia|exact Hs1| |exact H2].
    generalize (length (n_queue s1)) as k. intros k. clear. revert s1. induction k as [|k IH]; intros s1; [done|].
    cbn. split; [done|]. destruct (n_queue s1); [done|]. apply IH. }
  intros m Hm Hne Hb. rewrite Hsub', Hsub in Ha. specialize (Ha eq_refl). rewrite Hq in Ha. apply Ha; [done..|].
  pose proof (numbered_bound _ _ Hl Hm). lia.
Qed.

(** *** Without the care *)

(** A message is behind the cursor and not on its way. *)
Record lost (x : Z) (s : net) : Prop := {
  lost_log : numbered (n_group s);
  lost_there : x <= size (n_group s);
  lost_cursor : x <= d_lastSeq (n_device s);
  lost_unhandled : x ∉ d_handled (n_device s);
  lost_queue : forall m, FMsg m ∈ n_queue s -> m_seq m <> x;
  lost_out : forall rid after, RSubscribe rid after ∈ n_out s -> x <= after;
}.

Lemma lost_offer x m s : lost x s -> m_seq m <> x -> lost x (offer m s).
Proof.
  intros [H1 H2 H3 H4 H5 H6] Hm. unfold offer. destruct (n_subscribed s); [|done]. destruct (Nat.leb _ _); constructor; cbn; auto.
  intros m'. rewrite elem_of_app, list_elem_of_singleton. intros [?|[= ->]]; auto.
Qed.

Lemma lost_step me x a s s' : lost x s -> act_step me a s = Some s' -> lost x s'.
Proof.
  intros Hs Ha. pose proof Hs as [H1 H2 H3 H4 H5 H6]. destruct a; cbn in Ha.
  - destruct (n_online s); [|done]. injection Ha as <-. constructor; cbn; auto. intros r af. rewrite elem_of_app, list_elem_of_singleton. naive_solver.
  - destruct (n_online s); [|done]. injection Ha as <-. constructor; cbn; auto. intros r af. rewrite elem_of_app, list_elem_of_singleton. naive_solver.
  - destruct (n_out s) as [|r out] eqn:Eo; [done|]. injection Ha as <-. destruct r as [rid epoch payload commit|rid after]; cbn.
    + destruct (append_message epoch me payload commit (n_group s)) as [[seq g]|] eqn:E; constructor; cbn; auto;
        try (intros m; rewrite elem_of_app, list_elem_of_singleton; naive_solver); try set_solver.
      * apply append_extends in E as (m & Hg & _). by eapply numbered_grow.
      * apply append_extends in E as (m & Hg & _). rewrite (size_grow _ _ _ Hg). lia.
    + assert (x <= after) as Hx by (eapply H6; left). constructor; cbn; auto; [|set_solver]. intros m.
      rewrite elem_of_app, elem_of_cons, list_elem_of_fmap. intros [?|[?|(m' & [= ->] & [Hm' _]%list_elem_of_filter)]]; [auto|done|lia].
  - destruct (n_queue s) as [|f q] eqn:Eq; [done|]. injection Ha as <-.
    assert (forall m, FMsg m ∈ q -> m_seq m <> x) as Hq by (intros m Hm; apply H5; by right).
    destruct f as [rid seq|rid|m]; cbn.
    + destruct (waits_for rid _) as [[]|]; [destruct seq| |]; constructor; cbn; auto; lia.
    + destruct (waits_for rid _); constructor; cbn; auto.
    + assert (m_seq m <> x) by (apply H5; left). constructor; cbn; auto; [lia|set_solver].
  - injection Ha as <-. constructor; cbn; auto.
  - destruct (str_eqb sender me); [done|]. injection Ha as <-. unfold peer_sends.
    destruct (append_message epoch sender payload commit (n_group s)) as [[seq g]|] eqn:E; [|done].
    apply append_extends in E as (m & Hg & Hseq & _ & Em). rewrite <- Em. pose proof (size_grow _ _ _ Hg) as Hsz.
    apply lost_offer; [|destruct Hg; lia]. constructor; cbn; auto; [by eapply numbered_grow|lia].
  - destruct (n_online s); [done|]. injection Ha as <-. constructor; cbn; auto; set_solver.
  - destruct (n_online s); [|done]. injection Ha as <-. constructor; cbn; auto; set_solver.
Qed.

(** It never comes, whatever happens from then on. *)
Theorem a_skipped_message_never_comes me x acts s s' : lost x s -> run me acts s = Some s' -> x ∉ d_handled (n_device s').
Proof.
  intros Hs Hr. enough (lost x s') as H by apply H. revert s Hs Hr.
  induction acts as [|a acts IH]; intros s Hs Hr; [by injection Hr as <-|].
  change (a :: acts) with ([a] ++ acts) in Hr. rewrite play_app in Hr. apply bind_Some in Hr as (s1 & H1 & H2).
  apply (IH s1); [|done]. eapply lost_step; [exact Hs|]. exact H1.
Qed.

(** Three ways to get there: sending before the subscription of a new
    connection, sending after a subscription that was refused, sending after
    the relay dropped a subscription for being slow. *)
Definition ana : jstr := js "ana".
Definition bo : jstr := js "bo".
Definition fresh_group : group := {| g_log := []; g_epoch := 0 |}.

Definition a_hasty_send : list act :=
  [Disconnect; Peer 0 bo [1%N] false; Connect; Send 0 [2%N] false; Take; Arrive; Subscribe; Take; Arrive].

Lemma a_send_before_the_subscription_skips :
  match run ana a_hasty_send (joined fresh_group) with
  | Some s => lost 1 s /\ n_subscribed s = true /\ n_queue s = []
  | None => False
  end.
Proof.
  vm_compute run. split; [|done]. constructor; cbn; try (unfold size; cbn; lia); try set_solver.
  intros i m Hi. destruct i as [|[|i]]; cbn in Hi; simplify_eq; done.
Qed.

Definition a_slow_reader : list act :=
  replicate (S MAX_QUEUE) (Peer 0 bo [1%N] false) ++ replicate MAX_QUEUE Arrive ++ [Send 0 [2%N] false; Take; Arrive].

Lemma a_dropped_subscriber_skips :
  (fun s => (n_online s, n_subscribed s, d_lastSeq (n_device s), bool_decide (513 ∈ d_handled (n_device s)), length (d_handled (n_device s))))
    <$> run ana a_slow_reader (joined fresh_group) = Some (true, false, 514, false, 512%nat).
Proof. vm_compute. reflexivity. Qed.

Fixpoint careful_check (me : jstr) (acts : list act) (s : net) : bool :=
  match acts with
  | [] => true
  | a :: acts =>
      match a with
      | Send _ _ _ => n_subscribed s
      | Peer _ _ _ _ => negb (n_subscribed s) || Nat.ltb (length (n_queue s)) MAX_QUEUE
      | _ => true
      end && match act_step me a s with Some s' => careful_check me acts s' | None => true end
  end.

Lemma careful_checked me acts s : careful_check me acts s = true -> careful_run me acts s.
Proof.
  revert s. induction acts as [|a acts IH]; intros s; [done|]. cbn [careful_check careful_run]. intros [Ha Hr]%andb_prop. split.
  - destruct a; cbn; auto. intros Hs. rewrite Hs in Ha. by apply Nat.ltb_lt.
  - destruct (act_step me a s); auto.
Qed.

(** A connection is lost with an answer on its way, and everything arrives. *)
Definition a_stormy_day : list act :=
  [Send 0 [1%N] false; Peer 0 bo [2%N] false; Take; Peer 1 bo [3%N] true; Disconnect; Peer 1 bo [4%N] false;
   Connect; Subscribe; Take; Arrive; Arrive; Arrive; Arrive; Arrive].

Lemma no_message_is_skipped_witness :
  match run ana a_stormy_day (joined fresh_group) with
  | Some s => (m_seq <$> g_log (n_group s)) = [1; 2; 3; 4] /\ 1 ∈ d_handled (n_device s) /\ 3 ∈ d_handled (n_device s)
  | None => False
  end.
Proof.
  destruct (run ana a_stormy_day (joined fresh_group)) as [s|] eqn:E; [|by vm_compute in E].
  destruct (no_message_is_skipped ana fresh_group a_stormy_day s) as [_ H].
  - intros i m Hi. done.
  - apply careful_checked. vm_compute. reflexivity.
  - exact E.
  - vm_compute in E. injection E as <-. specialize (H eq_refl eq_refl). split; [done|].
    split; [eapply (H (Build_message 1 0 bo [2%N])) | eapply (H (Build_message 3 1 bo [3%N]))]; try done; cbn; set_solver.
Defined.

End DeliveryTheorems.
