(* ===== verification/Founding.v ===== *)
(** * Making a circle, and small handlers around it
      (client/src/lib/controller.js: [createServer], [announceCallStarted],
      [requestPersistentStorage], [registerPolicy]; relay/src/store.rs and
      relay/src/server.rs: [create_group])

    A circle is a group of the crypto worker first, then one on the relay, then
    a record: what a device keeps is the state of Manage.v.  The letters after
    the name, the fresh room key and the clock are arguments. *)

From stdpp Require Import base list numbers option strings sets.
From Stdlib Require Import ZArith NArith Lia.
From S2P Require Import Prelude JsNum JsString JsValue Quorum Fork Circles Manage.
Import Circles.Circles Manage.Manage.
Open Scope Z_scope.

Module Founding.

(** ** The id *)

Definition id_char (c : N) : bool := ((97 <=? c) && (c <=? 122) || (48 <=? c) && (c <=? 57))%N.

(** [replace(/[^a-z0-9]+/g, '-')]. *)
Fixpoint dashed (in_run : bool) (s : jstr) : jstr :=
  match s with
  | [] => []
  | c :: r => if id_char c then c :: dashed false r else if in_run then dashed true r else 45%N :: dashed true r
  end.

(** [replace(/^-|-$/g, '')]: one dash at either end. *)
Definition undash (s : jstr) : jstr := match s with c :: r => if N.eqb c 45 then r else s | [] => [] end.
Definition trim_dashes (s : jstr) : jstr := reverse (undash (reverse (undash s))).

Section founding.
Context `{CaseFold}.

Definition server_slug (name : jstr) : jstr :=
  let slug := trim_dashes (dashed false (toLowerCase name)) in if is_empty slug then js "server" else slug.

(** [random]: [Math.random().toString(36).slice(2, 6)]. *)
Definition server_id (name random : jstr) : jstr := server_slug name ++ js "-" ++ random.

(** ** The relay's groups: the members of each *)

Record GroupData := { gd_created_by : jstr; gd_epoch : Z; gd_members : list (jstr * jstr); gd_subscribers : list jstr }.

(** [None]: the group exists. *)
Definition create_group (group creator : jstr) (gs : list (jstr * GroupData)) : option (list (jstr * GroupData)) :=
  match obj_get gs group with
  | Some _ => None
  | None => Some (map_set gs group {| gd_created_by := creator; gd_epoch := 0; gd_members := [(creator, js "admin")];
                                      gd_subscribers := [creator] |})
  end.

(** ** The device *)

Definition new_record (id name me : jstr) (now : num) (hid hkey : jstr) : val :=
  jobj [("id", VStr id); ("name", VStr name); ("channels", VArr [VStr (js "general")]);
        ("voiceChannels", VArr [VStr (js "lounge")]); ("members", VArr [VStr me]);
        ("roles", VObj [(me, VStr (js "admin"))]); ("epoch", VNum (int 0)); ("lastSeq", VNum (int 0));
        ("joinedAt", VNum now);
        ("chanMeta", jobj [("general", jobj [("hid", VStr hid); ("hkey", VStr hkey)])])]%string.

(** The worker has the group and its state is written. *)
Definition with_group (id : jstr) (k : keeping) : keeping :=
  {| kp_servers := kp_servers k; kp_mlsGroups := kp_mlsGroups k; kp_forks := kp_forks k; kp_forkWarned := kp_forkWarned k;
     kp_core := kp_core k ++ [id]; kp_ratchets := kp_core k ++ [id]; kp_deviceState := kp_deviceState k;
     kp_device_disk := kp_device_disk k; kp_names := kp_names k; kp_logs := kp_logs k; kp_call := kp_call k; kp_parks := kp_parks k; kp_live := kp_live k |}.

Definition with_server (id : jstr) (record : val) (k : keeping) : keeping :=
  {| kp_servers := map_set (kp_servers k) id record;
     kp_mlsGroups := if bool_decide (id ∈ kp_mlsGroups k) then kp_mlsGroups k else kp_mlsGroups k ++ [id];
     kp_forks := kp_forks k; kp_forkWarned := kp_forkWarned k; kp_core := kp_core k; kp_ratchets := kp_ratchets k;
     kp_deviceState := kp_deviceState k; kp_device_disk := kp_device_disk k; kp_names := kp_names k; kp_logs := kp_logs k;
     kp_call := kp_call k; kp_parks := kp_parks k; kp_live := kp_live k |}.

(** What becomes of the request: answered, or lost before or after the relay
    acted. *)
Inductive fate := Answered | LostBefore | LostAfter.

(** The worker throws on a group it has. *)
Definition createServer (name random me : jstr) (now : num) (hid hkey : jstr) (f : fate)
    (k : keeping) (gs : list (jstr * GroupData)) : keeping * list (jstr * GroupData) * res jstr :=
  let id := server_id name random in
  if bool_decide (id ∈ kp_core k) then (k, gs, Throw OtherError) else
  let k := with_group id k in
  match f, create_group id me gs with
  | LostBefore, _ | _, None => (k, gs, Throw OtherError)
  | LostAfter, Some gs => (k, gs, Throw OtherError)
  | Answered, Some gs =>
      let record := new_record id name me now hid hkey in
      (persistCircle id record (with_server id record k), gs, Ok id)
  end.

End founding.

(** ** Around it *)

(** The notice of a call: its channel and its text, for a circle that is
    known (a record always has its list of channels). *)
Definition announceCallStarted (servers : list (jstr * val)) (me server channel name : jstr) : option (val * jstr) :=
  match obj_get servers server with
  | None => None
  | Some record =>
      let who := if str_eqb name me then js "you" else name in
      let room := match record.["channels"] with VArr (c :: _) => c ⁇ VStr (js "general") | _ => VStr (js "general") end in
      Some (room, who ++ js " started a call in " ++ channel)
  end.

(** An answer of the browser: the method is missing, throws, or says. *)
Inductive storage_answer := Missing | Throws | Says (b : bool).

(** Whether storage is durable; whether it was asked for, when it was not. *)
Definition requestPersistentStorage (persisted persist : storage_answer) : bool * bool :=
  match persisted with
  | Throws => (false, false)
  | Says true => (true, false)
  | _ => match persist with Says b => (b, true) | Missing | Throws => (false, true) end
  end.

(** [registerPolicy]: a relay that cannot be asked lets everybody in. *)
Definition registerPolicy (answer : option (bool * res val)) : val :=
  let open := jobj [("invite_required", VBool false)]%string in
  match answer with
  | Some (true, Ok v) => v
  | _ => open
  end.

End Founding.

Module FoundingFacts.
Import Founding Manage.ManageFacts.

Section founding.
Context `{CaseFold}.

Definition slug_unit (c : N) : Prop := id_char c = true \/ c = 45%N.

Lemma dashed_units b s : Forall slug_unit (dashed b s).
Proof.
  revert b. induction s as [|c s IH]; intros b; cbn [dashed]; [done|]. destruct (id_char c) eqn:E.
  - constructor; [by left|done].
  - destruct b; [done|]. constructor; [by right|done].
Qed.

Lemma undash_units s : Forall slug_unit s -> Forall slug_unit (undash s).
Proof. intros Hs. destruct Hs as [|c s Hc Hs]; [done|]. cbn. destruct (N.eqb c 45); [done|by constructor]. Qed.

Lemma server_slug_units name : Forall slug_unit (server_slug name) /\ server_slug name <> [].
Proof.
  unfold server_slug. set (s := trim_dashes _). assert (Forall slug_unit s) as Hs
    by (apply Forall_reverse, undash_units, Forall_reverse, undash_units, dashed_units).
  destruct (is_empty s) eqn:E.
  - split; [|done]. apply Forall_forall. intros c Hc. left. revert c Hc. apply Forall_forall. by repeat constructor.
  - by apply is_empty_false in E.
Qed.

(** The dashes of a slug are single and inside: it neither starts nor ends
    with one. *)
Fixpoint single (prev : bool) (s : jstr) : Prop :=
  match s with [] => True | c :: r => (prev = true -> c <> 45%N) /\ single (N.eqb c 45) r end.

Lemma dashed_single b s : single b (dashed b s).
Proof.
  revert b. induction s as [|c s IH]; intros b; cbn [dashed]; [done|]. destruct (id_char c) eqn:E.
  - cbn [single]. assert (c <> 45%N) as Hc by (intros ->; done). split; [done|]. rewrite (proj2 (N.eqb_neq c 45) Hc). apply IH.
  - destruct b; [apply IH|]. cbn [single]. split; [done|]. apply IH.
Qed.

(** An id has no character that another part of the device gives a meaning
    to. *)
Lemma server_id_plain name random : plain_id random -> plain_id (server_id name random).
Proof.
  intros [H0 H1]. destruct (server_slug_units name) as [Hs _]. unfold plain_id, server_id.
  assert (forall c, c = 0%N \/ c = 58%N -> c ∉ server_slug name) as Hno.
  { intros c Hc Hin. rewrite Forall_forall in Hs. destruct (Hs _ Hin) as [E|E]; destruct Hc as [-> | ->]; done. }
  rewrite !not_elem_of_app. split_and!; auto; set_solver.
Qed.

End founding.
End FoundingFacts.

Module FoundingTheorems.
Import Founding FoundingFacts Manage.ManageFacts.

Section founding.
Context `{CaseFold}.

Lemma map_set_other {A} (m : list (jstr * A)) k k' v : k' <> k -> obj_get (map_set m k v) k' = obj_get m k'.
Proof. intros Hne. rewrite obj_get_map_set. by rewrite (proj2 (str_eqb_neq k k')). Qed.

(** A circle that is made is whole: the relay has its group with its maker as
    the one admin, subscribed; the device has the group, a record with a room
    that has a key, its half on disk and its name, an upload is asked for;
    nothing else changed, and a restart finds the same circle. *)
Theorem a_new_circle_is_whole name random me now hid hkey f k gs k' gs' id :
  tidy k -> createServer name random me now hid hkey f k gs = (k', gs', Ok id) ->
  let record := new_record id name me now hid hkey in
  id = server_id name random
  /\ (obj_get gs id = None /\ obj_get gs' id = Some {| gd_created_by := me; gd_epoch := 0; gd_members := [(me, js "admin")]; gd_subscribers := [me] |})
  /\ (obj_get (kp_servers k') id = Some record /\ id ∈ kp_mlsGroups k' /\ id ∈ kp_core k' /\ id ∈ kp_ratchets k'
      /\ obj_get (kp_names k') id = Some (VStr name) /\ kp_parks k' = S (kp_parks k))
  /\ (id <> [] -> obj_get (kp_device_disk k') id = Some (deviceHalf record))
  /\ (forall other, other <> id -> obj_get (kp_servers k') other = obj_get (kp_servers k) other /\ obj_get gs' other = obj_get gs other)
  /\ (forall now', exists half fields, sharedHalf record = Ok half /\ hydrate (VObj half) (VObj (deviceHalf record)) now' true = Ok fields
        /\ (fun f => obj_get fields (js f)) <$> ["id"; "name"; "channels"; "voiceChannels"; "chanMeta"; "joinedAt"]%string
           = (fun f => Some (prop record (js f))) <$> ["id"; "name"; "channels"; "voiceChannels"; "chanMeta"; "joinedAt"]%string).
Proof.
  intros [Htd Hto] Hc record. unfold createServer in Hc. case_bool_decide as Hcore; [done|]. unfold create_group in Hc.
  destruct (obj_get gs (server_id name random)) as [g|] eqn:Eg; destruct f; try done. injection Hc as <- <- <-.
  fold record. set (k1 := with_server (server_id name random) record (with_group (server_id name random) k)).
  assert (NoDup (obj_keys (kp_servers k1))) as Hk1 by (unfold k1; cbn; by apply map_set_NoDup).
  split; [done|]. split; [by rewrite obj_get_map_set, str_eqb_refl|]. split; [|split; [|split]].
  - unfold persistCircle. set (k2 := persistDevice _ _ k1).
    assert (kp_servers k2 = kp_servers k1 /\ kp_mlsGroups k2 = kp_mlsGroups k1 /\ kp_core k2 = kp_core k1 /\ kp_ratchets k2 = kp_ratchets k1
      /\ kp_parks k2 = kp_parks k1) as (E1 & E2 & E3 & E4 & E5) by (unfold k2, persistDevice; by case_match).
    cbn [parked kp_servers kp_mlsGroups kp_core kp_ratchets kp_names kp_parks]. unfold persistCircleNames at 1 2 3 4 6.
    cbn [set_names kp_servers kp_mlsGroups kp_core kp_ratchets kp_parks]. rewrite names_get by by rewrite E1. rewrite E1, E2, E3, E4, E5.
    unfold k1. cbn. rewrite obj_get_map_set, str_eqb_refl. split_and!; try done; [case_bool_decide|..]; set_solver.
  - intros Hne. cbn [parked kp_device_disk persistCircle persistCircleNames set_names]. unfold persistDevice.
    rewrite (proj2 (is_empty_false _) Hne). cbn [set_device kp_device_disk]. by rewrite obj_get_put, str_eqb_refl.
  - intros other Hne. split; [|by apply map_set_other]. unfold persistCircle. cbn [parked kp_servers].
    assert (kp_servers (persistDevice (server_id name random) record k1) = kp_servers k1) as E by (unfold persistDevice; by case_match).
    unfold persistCircleNames. cbn [set_names kp_servers]. rewrite E. unfold k1. cbn. by apply map_set_other.
  - intros now'. eexists _, _. split; [|split]; [vm_compute; reflexivity..|]. vm_compute. reflexivity.
Qed.

(** A circle the relay refuses, or that it made without being heard, leaves
    its group with the worker and on disk, and no record through which it
    would be forgotten. *)
Lemma a_refused_circle_leaves_its_group name random me now hid hkey f k gs : server_id name random ∉ kp_core k ->
  (createServer name random me now hid hkey f k gs).2 = Throw OtherError ->
  let k' := (createServer name random me now hid hkey f k gs).1.1 in
  server_id name random ∈ kp_core k' /\ server_id name random ∈ kp_ratchets k' /\ kp_servers k' = kp_servers k /\ kp_mlsGroups k' = kp_mlsGroups k.
Proof.
  intros Hn. unfold createServer. rewrite bool_decide_false by done.
  destruct (create_group _ _ _), f; cbn; intros [=]; split_and!; done || set_solver.
Qed.

End founding.

(** A browser that never made a promise about storage is asked; one that
    promised is not asked again. *)
Lemma storage_is_asked_for persisted persist :
  (requestPersistentStorage persisted persist).1 = true <->
    persisted = Says true \/ ((persisted = Missing \/ persisted = Says false) /\ persist = Says true).
Proof. destruct persisted as [| |[]], persist as [| |[]]; cbn; naive_solver. Qed.

Instance ascii_lower : CaseFold := fun s => (fun c => if ((65 <=? c) && (c <=? 90))%N then (c + 32)%N else c) <$> s.

Definition bare : keeping := {|
  kp_servers := []; kp_mlsGroups := []; kp_forks := []; kp_forkWarned := []; kp_core := []; kp_ratchets := [];
  kp_deviceState := []; kp_device_disk := []; kp_names := []; kp_logs := []; kp_call := None; kp_parks := 0;
  kp_live := {| lo_catchUpTo := []; lo_livePresence := []; lo_liveWants := []; lo_liveTyping := []; lo_typingSentAt := [] |} |}.

Lemma a_new_circle_is_whole_witness :
  match createServer (js "Movie Night!") (js "ab12") (js "ana") (int 1000) (js "h") (js "k") Answered bare [] with
  | (k', gs', Ok id) => id = js "movie-night-ab12" /\ obj_get (kp_names k') id = Some (VStr (js "Movie Night!"))
  | _ => False
  end.
Proof.
  destruct (createServer (js "Movie Night!") (js "ab12") (js "ana") (int 1000) (js "h") (js "k") Answered bare [])
    as [[k' gs'] [id|e]] eqn:E; [|by vm_compute in E].
  destruct (a_new_circle_is_whole (js "Movie Night!") (js "ab12") (js "ana") (int 1000) (js "h") (js "k") Answered bare [] k' gs' id) as (-> & _ & (_ & _ & _ & _ & Hn & _) & _).
  - by repeat constructor.
  - exact E.
  - split; [by vm_compute|exact Hn].
Defined.

End FoundingTheorems.
