(* ===== verification/Words.v ===== *)
(** * Words on screen (client/src/components/Messages.jsx,
      client/src/components/Overview.jsx, client/src/components/CircleMarker.jsx)

    What the components compute before they render: the mentions in a line,
    the quote a reply carries, who is typing, who rallies, which links can be
    followed, where the user is. *)

From stdpp Require Import base list numbers option strings sets.
From Stdlib Require Import ZArith NArith Lia.
From S2P Require Import Prelude JsNum JsString JsValue Quorum Envelope Inbox Messages.
Import Inbox.Inbox Messages.Messages.
Open Scope Z_scope.

Module Words.

(** ** Mentions *)

Inductive piece := Plain (text : jstr) | Mention (handle : jstr).

(** [[a-zA-Z0-9_.-]]. *)
Definition handle_char (c : N) : bool :=
  ((97 <=? c) && (c <=? 122) || (65 <=? c) && (c <=? 90) || (48 <=? c) && (c <=? 57)
   || (c =? 95) || (c =? 46) || (c =? 45))%N.

(** At most [n] of them, and the rest. *)
Fixpoint handle_run (n : nat) (s : jstr) : jstr * jstr :=
  match n, s with
  | S n, c :: r => if handle_char c then let x := handle_run n r in (c :: x.1, x.2) else ([], s)
  | _, _ => ([], s)
  end.

Definition flush (pending : jstr) : list piece := if is_empty pending then [] else [Plain pending].

Section mentions.
Context `{CaseFold}.

Definition member_named (members : list jstr) (m : jstr) : option jstr :=
  list_find (fun h => toLowerCase h = toLowerCase m) members ≫= fun x => Some x.2.

(** The loop over [/@([a-zA-Z0-9_.-]{1,64})/g]: [pending] is the text since
    the last mention.  Each round consumes a character at least. *)
Fixpoint scan (fuel : nat) (members : list jstr) (pending text : jstr) : list piece :=
  match fuel, text with
  | _, [] => flush pending
  | O, _ => flush (pending ++ text)
  | S fuel, c :: r =>
      if N.eqb c 64 then
        match handle_run 64 r with
        | ([], _) => scan fuel members (pending ++ [c]) r
        | (m, rest) =>
            match member_named members m with
            | Some h => flush pending ++ Mention h :: scan fuel members [] rest
            | None => scan fuel members (pending ++ c :: m) rest
            end
        end
      else scan fuel members (pending ++ [c]) r
  end.

Definition message_nodes (text : jstr) (members : list jstr) : list piece := scan (length text) members [] text.

End mentions.

(** ** Quotes *)

Record quote := { q_sender : jstr; q_ts : num; q_text : jstr }.

(** The line that is answered: a file's name, a game's name (which may be
    missing), or text. *)
Inductive answered := AFile (name : jstr) | AGame (name : option jstr) | AText (text : option jstr).

Definition quoteOf (sender : jstr) (ts : num) (m : answered) : quote :=
  let text := match m with
              | AFile name => js "📎 " ++ name
              | AGame name => js "opened " ++ default (js "a game") name
              | AText text => default [] text
              end in
  {| q_sender := sender; q_ts := ts; q_text := slice0 140 text |}.

Definition quote_val (q : quote) : val :=
  jobj [("sender", VStr (q_sender q)); ("ts", VNum (q_ts q)); ("text", VStr (q_text q))]%string.

(** ** Who is typing *)

Definition typing_names (typing : list (jstr * typing_claim)) (channel me : jstr) (now : num) : list jstr :=
  sort_strings ((filter (fun e => negb (str_eqb e.1 me) && str_eqb (ty_channel e.2) channel && freshTyping (Some e.2) now = true) typing).*1).

Definition typing_label (names : list jstr) : option jstr :=
  match names with
  | [] => None
  | [a] => Some (a ++ js " is typing")
  | [a; b] => Some (a ++ js " and " ++ b ++ js " are typing")
  | a :: b :: rest => Some (a ++ js ", " ++ b ++ js " and " ++ digits 10 (Z.of_nat (length rest)) ++ js " more are typing")
  end.

(** ** The board *)

Definition ralliersLabel (who : list jstr) (me : jstr) : jstr :=
  let name h := if str_eqb h me then js "you" else h in
  match who with
  | [a] => if str_eqb a me then js "you want to play" else a ++ js " wants to play"
  | [a; b] => name a ++ js " & " ++ name b ++ js " want to play"
  | _ => digits 10 (Z.of_nat (length who)) ++ js " want to play"
  end.

Definition ascii_folded (s : jstr) : jstr := (fun c => if ((65 <=? c) && (c <=? 90))%N then (c + 32)%N else c) <$> s.

(** [/^https?:\/\//i]: two letters fold onto an ASCII one outside it, and
    neither is in the pattern without a flag [u]. *)
Definition safeHref (url : jstr) : option jstr :=
  if starts_with (js "http://") (ascii_folded url) || starts_with (js "https://") (ascii_folded url) then Some url else None.

(** ** Where the user is *)

Inductive place := InGame (name : jstr) | InCall (channel : jstr) | InRoom (channel : jstr) | OnBoard.

Definition location (channel callChannel game : option jstr) : place :=
  match game, callChannel, channel with
  | Some g, _, _ => InGame g
  | None, Some c, _ => InCall c
  | None, None, Some c => InRoom c
  | None, None, None => OnBoard
  end.

End Words.

Module WordFacts.
Import Words.

Lemma handle_run_app n s : (handle_run n s).1 ++ (handle_run n s).2 = s.
Proof. revert s. induction n as [|n IH]; intros [|c s]; cbn; try done. destruct (handle_char c); [|done]. cbn. by rewrite IH. Qed.

Section mentions.
Context `{CaseFold}.

(** A piece and the text it stands for. *)
Definition stands_for (members : list jstr) (p : piece) (s : jstr) : Prop :=
  match p with
  | Plain t => t = s
  | Mention h => h ∈ members /\ exists m, s = 64%N :: m /\ toLowerCase m = toLowerCase h
  end.

Lemma flush_stands members pending : exists ss, Forall2 (stands_for members) (flush pending) ss /\ concat ss = pending.
Proof.
  unfold flush. destruct (is_empty pending) eqn:E.
  - apply is_empty_true in E as ->. exists []. by split; [constructor|].
  - exists [pending]. split; [by repeat constructor|apply app_nil_r].
Qed.

Lemma member_named_in members m h : member_named members m = Some h -> h ∈ members /\ toLowerCase m = toLowerCase h.
Proof.
  unfold member_named. intros ([i x] & Hf & [= <-])%bind_Some. apply list_find_Some in Hf as (Hl & Hx & _).
  split; [by eapply list_elem_of_lookup_2|done].
Qed.

Lemma scan_stands members fuel : forall pending text,
  exists ss, Forall2 (stands_for members) (scan fuel members pending text) ss /\ concat ss = pending ++ text.
Proof.
  induction fuel as [|fuel IH]; intros pending [|c r]; cbn [scan]; try (rewrite app_nil_r; apply flush_stands); [apply flush_stands|].
  destruct (N.eqb_spec c 64) as [->|]; [|by destruct (IH (pending ++ [c]) r) as (ss & ? & E); exists ss; rewrite E, <- (assoc_L (++))].
  pose proof (handle_run_app 64 r) as Hr. destruct (handle_run 64 r) as [[|m0 m] rest]; cbn [fst snd] in Hr.
  - destruct (IH (pending ++ [64%N]) r) as (ss & ? & E). exists ss. by rewrite E, <- (assoc_L (++)).
  - destruct (member_named members (m0 :: m)) as [h|] eqn:Em.
    + apply member_named_in in Em as [Hh Hm]. destruct (flush_stands members pending) as (s1 & H1 & E1).
      destruct (IH [] rest) as (s2 & H2 & E2). exists (s1 ++ (64%N :: m0 :: m) :: s2). split.
      * apply Forall2_app; [done|]. constructor; [|done]. split; [done|]. by exists (m0 :: m).
      * rewrite concat_app. cbn [concat]. rewrite E1, E2. f_equal. cbn in *. by rewrite <- Hr.
    + destruct (IH (pending ++ 64%N :: m0 :: m) rest) as (ss & ? & E). exists ss. split; [done|]. rewrite E, <- (assoc_L (++)). f_equal.
      cbn in *. by rewrite <- Hr.
Qed.

(** Highlighting loses nothing: the pieces stand, in order, for the whole
    text, and a mention is a member, whatever the case it was written in. *)
Theorem mentions_keep_the_text text members : exists ss,
  Forall2 (stands_for members) (message_nodes text members) ss /\ concat ss = text.
Proof. apply scan_stands. Qed.

End mentions.

(** The quote of a reply is read as it was made. *)
Theorem a_quote_is_read_as_made sender ts m q : trim sender = sender -> sender <> [] -> (length sender <= 64)%nat ->
  nfinite ts = true -> (ts <=ₙ Fin 0)%js = false -> q = quoteOf sender ts m ->
  normalizeReply (quote_val q) = Ok (Some {| rp_sender := sender; rp_ts := ts; rp_text := q_text q |}).
Proof.
  intros Ht Hne Hlen Hf Hp ->. unfold normalizeReply, quote_val.
  assert (forall a b c, (jobj [("sender", a); ("ts", b); ("text", c)]%string).["sender"] = a
    /\ (jobj [("sender", a); ("ts", b); ("text", c)]%string).["ts"] = b
    /\ (jobj [("sender", a); ("ts", b); ("text", c)]%string).["text"] = c) as Hget by (intros; by vm_compute).
  destruct (Hget (VStr (q_sender (quoteOf sender ts m))) (VNum (q_ts (quoteOf sender ts m))) (VStr (q_text (quoteOf sender ts m)))) as (-> & -> & ->).
  cbn [not_an_object truthy typeof_object negb orb jobj]. unfold clip_trim, clip, text_of. cbn [quoteOf q_sender q_ts q_text].
  cbn [coalesce nullish to_string rbind to_number]. unfold slice0. rewrite (take_ge sender) by done. rewrite Ht, Hf, Hp.
  rewrite (proj2 (is_empty_false sender) Hne). cbn [negb orb]. do 3 f_equal. by rewrite take_take.
Qed.

(** Only an address of the web can be followed, and it is the one that was
    written. *)
Lemma only_the_web_is_linked url u : safeHref url = Some u ->
  u = url /\ (starts_with (js "http://") (ascii_folded u) = true \/ starts_with (js "https://") (ascii_folded u) = true).
Proof. unfold safeHref. destruct (_ || _) eqn:E; [|done]. intros [= <-]. by apply orb_prop in E. Qed.

(** Nobody is told that they type themselves. *)
Lemma typing_is_about_others typing channel me now : me ∉ typing_names typing channel me now.
Proof.
  unfold typing_names, sort_strings. rewrite sort_by_perm. intros ([h t] & -> & [Hf _]%list_elem_of_filter)%list_elem_of_fmap.
  cbn in Hf. by rewrite str_eqb_refl in Hf.
Qed.

Instance no_fold : CaseFold := fun s => s.

(** A full stop after a handle belongs to it, so a mention that ends a
    sentence is not one. *)
Lemma a_mention_that_ends_a_sentence :
  message_nodes (js "thanks @ana.") [js "ana"] = [Plain (js "thanks @ana.")]
  /\ message_nodes (js "thanks @ana!") [js "ana"] = [Plain (js "thanks "); Mention (js "ana"); Plain (js "!")].
Proof. split; vm_compute; reflexivity. Qed.

End WordFacts.
